(* ===== verification/_CoqProject ===== *)
-Q . S2P
Prelude.v
MonadLogic.v
GoString.v
Crypto.v
StringFacts.v
GoTime.v
Model.v
StoreBounds.v
StoreFS.v
Store.v
StoreRegister.v
StoreStatus.v
StoreFacts.v
StoreInv.v
StoreRun.v
StoreCodec.v
StoreSafety.v
StoreTokens.v
StoreRevoke.v
StoreReports.v
StoreLimits.v
EnforceMatch.v
Enforce.v
EnforceEvict.v
EnforceRefine.v
EnforceSafety.v
EnforceComplete.v
EnforceEvictFacts.v
EnforceKiller.v
DaemonConn.v
GoConv.v
Config.v
Telemetry.v
DaemonDecode.v
Daemon.v
DaemonTelemetry.v
DaemonAuth.v
DaemonPs.v
DaemonDispatch.v
DaemonMonitor.v
DaemonRun.v
DaemonServe.v
DaemonTrace.v
DaemonLogic.v
DaemonLawful.v
DaemonServeLawful.v
DaemonMonitorLawful.v
DaemonStore.v
DaemonSafety.v
DaemonCgroup.v
GoBase64.v
Outbox.v
OutboxPages.v
OutboxRun.v
OutboxDisk.v
OutboxPersist.v
OutboxConsumer.v
OutboxSafety.v
OutboxSample.v
DaemonOutbox.v
WebAttempts.v
WebFiles.v
WebPassword.v
WebUsers.v
WebUsersFacts.v
WebAccounts.v
WebSession.v
WebSessionFacts.v
WebRequests.v
WebNodes.v
WebNodesFacts.v
WebRegistryFacts.v
WebFleet.v
WebFleetFacts.v
HistoryStore.v
HistorySearch.v
HistoryFacts.v
WebHistory.v
NvidiaSMI.v
NetLimit.v
