(* ===== verification/Prelude.v ===== *)
(** * GPUardian: a verification library

    GPUardian guards the GPUs of a host.  A root daemon keeps tokens,
    reservations, authorizations and claims in a state file; it answers requests
    on a Unix socket and over HTTP, runs commands under an authorization, and
    every second compares the processes found on the GPUs with its rows, kills
    what no row entitles and cleans up what has expired.  A web gateway manages
    users, distributes their keys to the daemons, acts on the daemons for its
    users, and collects the telemetry of the daemons into a history.

    ** The parts, and the files that model them

    - _The Go standard library_: [GoString], [GoTime], [GoConv], [GoBase64],
      [Crypto] (strings are byte strings, a time is a number of nanoseconds,
      SHA-256 and HMAC are computed); [StringFacts] has their shared lemmas.
    - _Data_ (internal/model): [Model], a record per Go struct.
    - _Store_ (internal/store/store.go): [StoreBounds] (limits and conversions),
      [StoreFS] (files, root key, audit log), [Store] (load, save, row methods),
      [StoreRegister] (registrations, managed keys, revocation), [StoreStatus]
      (reports and pruning).  A method is a value of the monad [M Store]; the
      store's mutex makes each one atomic step.  A method's [error] is the left
      of its answer; what it had changed stays changed, as in Go.
    - _Enforcement_ (internal/enforce/enforce.go): [EnforceMatch] (does a process
      match a scope), [Enforce] (one pass: sample, decide, plan and execute
      kills), [EnforceEvict] (eviction and its assessment), [EnforceKiller]
      (RealKiller: pidfd, SIGTERM, SIGKILL).
    - _GPU providers_: [NvidiaSMI] (internal/nvidiasmi, internal/gpusmi), with the
      reader of encoding/csv written out.  _Listeners_: [NetLimit]
      (internal/netlimit), by the steps of the goroutines that share one.
    - _Daemon_ (internal/daemon, internal/config, the payloads of
      internal/telemetry): [DaemonConn] (admission of connections),
      [DaemonDecode] (request_args.go), [Config],
      [Telemetry], [Daemon] (the fields of [Server] and the shared operations),
      [DaemonTelemetry] (telemetry.go), [DaemonAuth] (authorizations, bypass
      rules, reservations), [DaemonPs], [DaemonDispatch], [DaemonRun]
      (runCommand), [DaemonServe] (serveConn, http.go), [DaemonMonitor].
    - _Telemetry outbox_ (internal/telemetry): [Outbox], over a [Machine] whose
      every system call may fail, a write also half-way;
      [DaemonOutbox] for the two HTTP routes that read it.  The daemon's
      model asks a [World] whether an append succeeds; the outbox says what one
      does.
    - _Web gateway, accounts_ (internal/web): [WebAttempts] (attempts at
      passwords, session.go), [WebFiles] (secret.go, private files),
      [WebPassword] and [WebUsers] (users.go, user_keys.go), [WebSession]
      (session.go, the account routes of server.go and the checks in front of
      all routes, whose reply for the routes of other files is [BOther]).
    - _Web gateway, nodes_: [WebNodes] (registry.go, client.go), [WebFleet]
      (managed_key_sync.go, the node and fleet routes of server.go),
      [WebHistory] (history_handlers.go, history_collector.go, Telemetry of
      client.go).
    - _History_ (internal/history): [HistoryStore] (store.go, ingest.go,
      query.go, migrations.go), a method being the SQL statements it makes with
      their arguments and what it does with the answers; [HistorySearch]
      (search.go), filters compiled to conditions.

    The handlers of the daemon are values of [M Server].  Whatever lies outside
    the daemon answers a numbered question of a [World]: clock, context, GPU
    process list, /proc, runtimes, user database, system calls, and the other
    goroutines, which may call any method of the store between two calls of a
    handler, or only the methods that no handler guards while it holds
    [enforceMu].  [sv_trace] is a history variable that no handler reads.  The
    gateway is built alike: handlers are values of [M Gateway] (accounts),
    [M Fleet] (nodes) or [M Journal] (history), with [elsewhere] and [meanwhile]
    where other goroutines run, and [f_log] (what is asked of nodes and of the
    history, and what was read from the account store and the registry) and
    [j_log] as history variables.
    A method of the history meets its database only as answers to numbered
    statements; what a statement means is the engine's.

    ** What the theorems show (C numbers are the properties, in their order)

    - [StoreSafety] (C1-C3): reservations
      never conflict, memory is the committed state within its limits, and a
      restart recovers it; [StoreInv] has the invariants over any sequence of
      calls, [StoreFacts] and [StoreRun] the rules behind them, [StoreRun] also
      what a method leaves on disk.
    - [StoreTokens], [StoreRevoke] (C4), [StoreReports], [StoreLimits]: issuing,
      validating, replaying and withdrawing entitlements; reports, pruning,
      limits, the key.
    - [EnforceMatch] (C5) also proves that the matching tests decide glob
      patterns and cgroup subtrees.  [EnforceRefine] states what a pass may do
      as a transition system and proves that the pass refines it; it also says
      in terms of the rows alone, without the tests of the code, what entitles a
      process ([permitted]).  [EnforceSafety] (C6, C7) and [EnforceComplete]
      (C8, C9) draw the consequences: kills and allows have their reasons, and
      no process on a reserved GPU is missed.  [EnforceEvictFacts] (C10) does the
      same for eviction, with [unentitled] on the rows; [EnforceKiller] (C11)
      for the killer's protocol and its end.
    - [NvidiaSMI] (C12): what nvidia-smi prints, with any blanks after its
      commas, is read back as processes, and nothing else is.  [NetLimit]: a
      limited listener keeps its bound and never loses a slot.
    - [DaemonTrace] states, event by event, what must have happened before
      ([justified]): the specification of the daemon.  [DaemonLogic] is a
      program logic for it, whose judgement [along] carries the history through
      a handler, inside a critical section ([ext]) or across some ([prefix]);
      [DaemonLawful], [DaemonServeLawful] and
      [DaemonMonitorLawful] walk through every handler.  [DaemonStore] shows that
      the handlers change rows through the store's methods alone, for the
      interface [StoreInvariant].  [DaemonSafety] (C13-C15) has the theorems,
      and that the rows stay sound under all of them; [DaemonConn] (C16) the
      limits on connections, and who is served within them.
      [DaemonMonitor] and [DaemonPs] have facts on the counters of clean
      assessments and on the process list, [DaemonCgroup] that only cgroups
      below the configured root are managed.
    - [OutboxPages] specifies a page; [OutboxRun] instantiates the program
      logic of [MonadLogic] for the outbox's methods and has the invariant of its
      memory, whatever fails, [OutboxDisk] and [OutboxPersist] the
      one that ties it to its directory.
      [OutboxConsumer] is a transition system of appends, failures, restarts and
      a consumer; [OutboxSafety] (C17-C20) has its theorems: nothing is lost
      silently, a restart keeps the events, paging delivers them all; and what
      failing calls damage for good.  A restart is a step only while no call has
      failed and the lines are such as [Open] can read ([short]): C20 and a
      finding are about the others.
    - [WebAttempts] (C21): the limits on attempts.  [WebUsersFacts] and
      [WebAccounts] (C22-C26): the user store refines a specification of
      edits, stays sound, survives a restart, and a login proves the password.
      [WebSessionFacts] (C27, C28): who is admitted, and until when;
      [WebRequests] (C29): accounts are isolated, and how many requests are
      served at once.
    - [WebNodesFacts] (C30): the validators of what a node answers decide a
      definition over JSON values; [WebRegistryFacts] (C31): where a root key
      goes, and the registry; [WebFleetFacts] (C32, C33): what the gateway makes
      nodes do is justified by what the stores held when the request read them
      and what the nodes answered, and how large a snapshot is.
    - [WebHistory] (C34, C35): who changes the history over HTTP, and how the
      collector follows the stream of a node, against the methods of
      [HistoryStore]; how long a failing node is left alone; cursors are read
      back as they were made; the telemetry request stays with its node.
    - [HistoryFacts] (C36-C40): every method that writes is one transaction, a
      page delivered twice counts once, a sample is spread over its minutes
      but for fractions of a millisecond, every statement has a placeholder per argument, and nothing of a
      filter becomes text of a statement.  [traced] and [Calls] are its rules.
    - [StoreCodec], [OutboxSample] and the samples at the end of other files are
      concrete codecs and machines on which the witnesses run the definitions.

    ** Parameters, bounds and fuel

    What is not in the repository is a class of operations, whose laws are
    hypotheses where a theorem needs them: encoding/json ([JSON], [ArgsJSON],
    [NodeJSON], [OutboxJSON] with [OutboxLaws], [UsersJSON], [WebJSON],
    [RegistryJSON], [FleetJSON], [HistoryJSON], [SearchJSON], [CursorJSON],
    [NodeCodec], [TelemetryCodec]), strconv.ParseFloat ([FloatText]), AES-GCM ([AEAD]), net and net/url ([NetIP],
    [NetURL]), the HTTP transport ([Transport]), SQLite ([Database]) and the
    other goroutines ([Elsewhere], [FleetElsewhere]).  [NodeAPI], [TelemetryAPI]
    and [History] are interfaces of the program itself, with [NodeClient] and
    [HistoryStore] behind them.

    Go [int]s that only count or index are integers without wrap-around; widths
    are written out where the code relies on them ([uint32], hashes, [time]).  A
    map iteration whose order shows is an argument ([x_range], [x_schedule],
    [hr_FromFirst]).
    [waitFuel] bounds the killer's polling and [EnforceKiller] proves it enough;
    [killPolls] is eleven because half a second has room for ten pauses of 50
    milliseconds, each of which takes at least that long.  The fuel of
    [trimInvalid] and of the loops of [GoConv] is the length of the string.
    [consumeValue] has three steps per token and three more, which C30 shows to
    be enough; [minuteLoop] has one step per minute the window reaches into, and
    C38 is about exactly that fuel.  The 32 of [collectPages] is the bound of
    the code.  [monitor] and [runHistoryCollector] make as many rounds as they
    are given ticks; theorems about them hold of every number.  A sample of
    the process list that an authorizer takes when it first revalidates a kill
    is asked before the pass, and its failure audited after it.

    ** Not modelled

    Sockets, pipes and TLS (the set-up in Run of daemon and gateway,
    startNodeHTTP, newNodeHTTPClients, peerCred, streamCopy), the vendor
    tools themselves and the JSON of amd-smi (internal/amdsmi), /proc and the container runtimes, the static
    files of the gateway, and opening and closing the database file are input
    and output, and enter as parameters.  verifyDummyPassword only takes time.
    Daemon routes that only read, daemon/snapshot.go, the periodic GPU samples
    and the command line client are left out.  [Revoke] reads the clock once,
    where the code reads it for every lease it ends.  A call of [writeAll] is one
    system call.  That a call of the client of a node is one request takes the
    clients of newNodeHTTPClients to follow no redirect. *)

From Stdlib Require Export ZArith Lia.
From stdpp Require Export base tactics option strings gmap fin_maps pretty numbers.
From stdpp Require Export list_basics list_relations list_monad list_misc list_tactics list.

#[global] Open Scope Z_scope.
#[global] Open Scope bool_scope.
#[global] Set Default Proof Using "Type".

(** * Booleans and strings as the Go code compares them *)

Declare Scope go_scope.
Delimit Scope go_scope with go.
#[global] Open Scope go_scope.

Notation "s '=s' t" := (String.eqb s t) (at level 70, no associativity) : go_scope.
Notation "s '<>s' t" := (negb (String.eqb s t)) (at level 70, no associativity) : go_scope.

(** [len(s)] of a Go string: its number of bytes. *)
Definition slen (s : string) : Z := Z.of_nat (String.length s).

Lemma slen_app s t : slen (s +:+ t) = slen s + slen t.
Proof.
  unfold slen. induction s as [|c s IH]; [done|].
  change (String c s +:+ t) with (String c (s +:+ t)). cbn [String.length]. lia.
Qed.

Lemma slen_nonneg s : 0 <= slen s.
Proof. unfold slen. lia. Qed.

(** [len(l)] of a Go slice. *)
Definition llen {A} (l : list A) : Z := Z.of_nat (List.length l).

Lemma llen_cons {A} (x : A) l : llen (x :: l) = 1 + llen l.
Proof. unfold llen. cbn [length]. lia. Qed.

Lemma llen_nonneg {A} (l : list A) : 0 <= llen l.
Proof. unfold llen. lia. Qed.

(** The sum of [f] over a list. *)
Definition sumOf {A} (f : A -> Z) (l : list A) : Z := foldr (fun x total => f x + total) 0 l.

Lemma sumOf_cons {A} (f : A -> Z) x l : sumOf f (x :: l) = f x + sumOf f l.
Proof. done. Qed.

Lemma sumOf_ext {A} (f g : A -> Z) l : Forall (fun x => f x = g x) l -> sumOf f l = sumOf g l.
Proof. induction 1 as [|x l E _ IH]; [done|]. by rewrite !sumOf_cons, E, IH. Qed.
Lemma sumOf_zero {A} (f : A -> Z) l : Forall (fun x => f x = 0) l -> sumOf f l = 0.
Proof. induction 1 as [|x l E _ IH]; [done|]. by rewrite sumOf_cons, E, IH. Qed.
Lemma sumOf_nonneg {A} (f : A -> Z) l : Forall (fun x => 0 <= f x) l -> 0 <= sumOf f l.
Proof. induction 1 as [|x l Hx _ IH]; cbn [sumOf foldr]; unfold sumOf in *; lia. Qed.

#[export] Instance llen_Proper {A} : Proper ((≡ₚ) ==> eq) (@llen A).
Proof. intros l l' P. unfold llen. by rewrite P. Qed.

Lemma filter_all {A} (P : A -> Prop) `{forall x, Decision (P x)} (l : list A) :
  Forall P l -> filter P l = l.
Proof. induction 1 as [|x l Px _ IH]; [done|]. by rewrite filter_cons_True, IH. Qed.

(** * Errors

    A Go [error] is modelled by how it was built: a sentinel or [errors.New]
    text, a [fmt.Errorf] with its format and arguments left unrendered ([%w]
    wraps an error argument), or the result of [errors.Join]. *)
Inductive error : Type :=
  | ErrorString (msg : string)
  | Errorf (format : string) (args : list errarg)
  | ErrorJoin (errs : list error)
with errarg : Type :=
  | AInt (z : Z)
  | AStr (s : string)
  | AErr (e : error).

(** [errors.Join]: nil when every error is nil. *)
Definition errors_Join (errs : list error) : option error :=
  match errs with
  | [] => None
  | _ => Some (ErrorJoin errs)
  end.

(** [errors.Is(err, target)] for a sentinel target, following [%w] and joins. *)
Fixpoint errors_Is (e : error) (target : string) : bool :=
  match e with
  | ErrorString msg => msg =s target
  | Errorf _ args =>
      existsb (fun a => match a with AErr e' => errors_Is e' target | _ => false end) args
  | ErrorJoin errs => existsb (fun e' => errors_Is e' target) errs
  end.

(** [os.ErrNotExist] and [os.ErrExist]. *)
Definition errNotExist : string := "file does not exist".
Definition errExist : string := "file already exists".
Definition ErrNotExist : error := ErrorString errNotExist.
Definition ErrExist : error := ErrorString errExist.
Definition errInvalid : string := "invalid argument".
Definition ErrInvalid : error := ErrorString errInvalid.

(** A call without a state of its own: an error, or a value. *)
#[global] Instance sum_error_ret : MRet (sum error) := fun A => inr.
#[global] Instance sum_error_bind : MBind (sum error) := fun A B k r =>
  match r with inl err => inl err | inr a => k a end.

(** * A state and error monad for methods that mutate their receiver

    A method that can fail returns either its error or its value, together
    with the state it leaves behind: an early [return err] keeps every change
    made before it. *)
Definition M (S A : Type) : Type := S -> (error + A) * S.

Definition ret {S A} (a : A) : M S A := fun s => (inr a, s).
Definition throw {S A} (e : error) : M S A := fun s => (inl e, s).
Definition bind {S A B} (m : M S A) (k : A -> M S B) : M S B :=
  fun s => match m s with
           | (inl e, s') => (inl e, s')
           | (inr a, s') => k a s'
           end.
Definition get {S} : M S S := fun s => (inr s, s).
Definition gets {S A} (f : S -> A) : M S A := fun s => (inr (f s), s).
Definition modify {S} (f : S -> S) : M S unit := fun s => (inr tt, f s).
(** [if err != nil { return err }] for an error already computed. *)
Definition check {S} (e : option error) : M S unit :=
  match e with Some e => throw e | None => ret tt end.
(** [if cond { return err }]. *)
Definition fail_if {S} (b : bool) (e : error) : M S unit :=
  if b then throw e else ret tt.
(** [x, err := f(); if err != nil { return err }] for a function without effects. *)
Definition fromResult {S A} (r : error + A) : M S A :=
  match r with inl e => throw e | inr a => ret a end.
(** A call whose error the caller inspects instead of returning. *)
Definition try {S A} (m : M S A) : M S (error + A) :=
  fun s => let '(r, s') := m s in (inr r, s').

#[global] Instance M_ret S : MRet (M S) := fun A a => ret a.
#[global] Instance M_bind S : MBind (M S) := fun A B k m => bind m k.

(** The value a method returned, and the state it left. *)
Definition result {S A} (m : M S A) (s : S) : error + A := fst (m s).
Definition final {S A} (m : M S A) (s : S) : S := snd (m s).
