(* ===== verification/MonadLogic.v ===== *)
(** A program logic for the monad [M], with a postcondition for the answer and one
    for the error. *)

From S2P Require Export Prelude.

(** * The judgement *)

Section triple.
Context {S : Type}.
Implicit Types P E : S -> Prop.

(** From a state in [P], [m] answers in [Q] or fails in [E]. *)
Definition triple {A} P (m : M S A) (Q : A -> S -> Prop) E : Prop := forall s, P s ->
  match m s with (inr a, s') => Q a s' | (inl _, s') => E s' end.

Lemma triple_bind {A B} P (m : M S A) (k : A -> M S B) R Q E :
  triple P m R E -> (forall a, triple (R a) (k a) Q E) -> triple P (m ≫= k) Q E.
Proof.
  intros Hm Hk s Ps. specialize (Hm s Ps). unfold mbind, M_bind, bind.
  destruct (m s) as [[e|a] s1]; [done|]. by apply Hk.
Qed.

Lemma triple_ret {A} P (a : A) (Q : A -> S -> Prop) E : (forall s, P s -> Q a s) ->
  triple P (ret a) Q E.
Proof. intros W s. apply W. Qed.

Lemma triple_throw {A} P e (Q : A -> S -> Prop) E : (forall s, P s -> E s) ->
  triple P (throw e) Q E.
Proof. intros W s. apply W. Qed.

Lemma triple_weaken {A} P P' (m : M S A) (Q Q' : A -> S -> Prop) E E' :
  triple P' m Q' E' -> (forall s, P s -> P' s) -> (forall a s, Q' a s -> Q a s) ->
  (forall s, E' s -> E s) -> triple P m Q E.
Proof.
  intros Hm HP HQ HE s Ps. specialize (Hm s (HP s Ps)). destruct (m s) as [[|] ?]; auto.
Qed.

Lemma triple_try {A} P (m : M S A) (Q : error + A -> S -> Prop) E :
  triple P m (fun a => Q (inr a)) (fun s => forall e, Q (inl e) s) -> triple P (try m) Q E.
Proof.
  intros Hm s Ps. specialize (Hm s Ps). unfold try. destruct (m s) as [[|] ?]; auto.
Qed.
End triple.

Lemma triple_pre {S A} (P : S -> Prop) (m : M S A) Q E :
  (forall s, P s -> triple (eq s) m Q E) -> triple P m Q E.
Proof. intros W s Ps. by apply (W s). Qed.

Lemma triple_fromResult {S A} (P : S -> Prop) (r : error + A) (Q : A -> S -> Prop) E :
  (forall s, P s -> match r with inr a => Q a s | inl _ => E s end) ->
  triple P (fromResult r) Q E.
Proof. destruct r; [apply triple_throw|apply triple_ret]. Qed.

(** Facts beside the state. *)
Lemma triple_fact {S A} (X : Prop) (P : S -> Prop) (m : M S A) Q E :
  (X -> triple P m Q E) -> triple (fun s => X /\ P s) m Q E.
Proof. intros W s [Xs Ps]. by apply W. Qed.

Lemma triple_exists {S A X} (P : X -> S -> Prop) (m : M S A) Q E :
  (forall x, triple (P x) m Q E) -> triple (fun s => exists x, P x s) m Q E.
Proof. intros W s [x Ps]. by apply (W x). Qed.

Lemma triple_get {S B} (P : S -> Prop) (k : S -> M S B) Q E :
  (forall s, P s -> triple P (k s) Q E) -> triple P (get ≫= k) Q E.
Proof. intros W s Ps. by apply (W s). Qed.

(** Running a sequence whose first part answers. *)
Lemma bind_run {S A B} (m : M S A) (k : A -> M S B) s a s' :
  m s = (inr a, s') -> (m ≫= k) s = k a s'.
Proof. unfold mbind, M_bind, bind. by intros ->. Qed.

Lemma result_final {S A} (m : M S A) s r : result m s = r -> m s = (r, final m s).
Proof. unfold result, final. intros <-. apply surjective_pairing. Qed.

(** Total correctness: [m] answers, in [Q]. *)
Definition succeeds {S A} (m : M S A) (s : S) (Q : A -> S -> Prop) : Prop :=
  exists a s', m s = (inr a, s') /\ Q a s'.

Lemma succeeds_bind {S A B} (m : M S A) (k : A -> M S B) s R Q :
  succeeds m s R -> (forall a s', R a s' -> succeeds (k a) s' Q) -> succeeds (m ≫= k) s Q.
Proof.
  intros (a & s1 & E & Ra) Hk. unfold succeeds. rewrite (bind_run _ _ _ _ _ E). by apply Hk.
Qed.

Lemma succeeds_ret {S A} (a : A) (s : S) (Q : A -> S -> Prop) : Q a s -> succeeds (ret a) s Q.
Proof. intros W. by exists a, s. Qed.

Lemma succeeds_weaken {S A} (m : M S A) s (R Q : A -> S -> Prop) :
  succeeds m s R -> (forall a s', R a s' -> Q a s') -> succeeds m s Q.
Proof. intros (a & s1 & E & Ra) W. exists a, s1. auto. Qed.

Lemma succeeds_try {S A} (m : M S A) s (Q : error + A -> S -> Prop) :
  succeeds m s (fun a => Q (inr a)) -> succeeds (try m) s Q.
Proof. intros (a & s1 & E & Qa). exists (inr a), s1. unfold try. by rewrite E. Qed.

Lemma succeeds_gets {S A B} (f : S -> A) (k : A -> M S B) s Q :
  succeeds (k (f s)) s Q -> succeeds (gets f ≫= k) s Q.
Proof. done. Qed.

Lemma succeeds_ret_bind {S A B} (a : A) (k : A -> M S B) s Q :
  succeeds (k a) s Q -> succeeds (ret a ≫= k) s Q.
Proof. done. Qed.
