(* ===== verification/GoString.v ===== *)
(** The functions of Go's strings, unicode, unicode/utf8, strconv and
    encoding/hex packages that the program uses, on byte strings: a Go string
    is a [string] whose characters are its bytes. *)

From S2P Require Export Prelude.

(** * Bytes *)

Definition byte_val (c : Ascii.ascii) : Z := Z.of_N (Ascii.N_of_ascii c).
Definition byte_of (z : Z) : Ascii.ascii := Ascii.ascii_of_N (Z.to_N (z mod 256)).

Fixpoint bytes_of_string (s : string) : list Z :=
  match s with
  | EmptyString => []
  | String c r => byte_val c :: bytes_of_string r
  end.

Fixpoint string_of_bytes (l : list Z) : string :=
  match l with
  | [] => EmptyString
  | b :: r => String (byte_of b) (string_of_bytes r)
  end.

(** A line break. *)
Definition newline : string := String (byte_of 10) EmptyString.

(** * Slicing, prefixes, suffixes and search *)

(** [s[n:]] and [s[:n]]. *)
Fixpoint sdrop (n : nat) (s : string) : string :=
  match n, s with
  | S n', String _ r => sdrop n' r
  | _, _ => s
  end.

Fixpoint stake (n : nat) (s : string) : string :=
  match n, s with
  | S n', String c r => String c (stake n' r)
  | _, _ => EmptyString
  end.

Fixpoint srev_app (s acc : string) : string :=
  match s with
  | EmptyString => acc
  | String c r => srev_app r (String c acc)
  end.
Definition srev (s : string) : string := srev_app s EmptyString.

Definition HasPrefix (s prefix : string) : bool := String.prefix prefix s.
Definition HasSuffix (s suffix : string) : bool :=
  (String.length suffix <=? String.length s)%nat &&
  (sdrop (String.length s - String.length suffix) s =s suffix).
Definition TrimPrefix (s prefix : string) : string :=
  if HasPrefix s prefix then sdrop (String.length prefix) s else s.
Definition TrimSuffix (s suffix : string) : string :=
  if HasSuffix s suffix then stake (String.length s - String.length suffix) s else s.

(** [strings.Index], [None] standing for -1. *)
Fixpoint Index (s sub : string) : option nat :=
  if String.prefix sub s then Some 0%nat
  else match s with
       | EmptyString => None
       | String _ r => S <$> Index r sub
       end.
Definition Contains (s sub : string) : bool :=
  match Index s sub with Some _ => true | None => false end.

(** [strings.Split(s, sep)] and [strings.SplitN(s, sep, n)] for a one-byte
    separator: [Split] never returns an empty slice. *)
Fixpoint Split (s : string) (sep : Ascii.ascii) : list string :=
  match s with
  | EmptyString => [EmptyString]
  | String c r =>
      if Ascii.eqb c sep then EmptyString :: Split r sep
      else match Split r sep with
           | [] => [String c EmptyString]
           | p :: ps => String c p :: ps
           end
  end.

Fixpoint SplitN (s : string) (sep : Ascii.ascii) (n : nat) : list string :=
  match n with
  | 0 => []
  | 1 => [s]
  | S n' =>
      let fix go (s : string) : string * option string :=
        match s with
        | EmptyString => (EmptyString, None)
        | String c r =>
            if Ascii.eqb c sep then (EmptyString, Some r)
            else let '(h, t) := go r in (String c h, t)
        end in
      match go s with
      | (h, None) => [h]
      | (h, Some t) => h :: SplitN t sep n'
      end
  end%nat.

Fixpoint Join (l : list string) (sep : string) : string :=
  match l with
  | [] => EmptyString
  | [s] => s
  | s :: r => s +:+ sep +:+ Join r sep
  end.

(** [strconv.Itoa], and [%d] of an integer. *)
Definition Itoa (z : Z) : string := pretty z.

(** * White space *)

(** The UTF-8 encodings of the runes for which [unicode.IsSpace] holds, by
    their length in bytes. *)
Definition is_space1 (a : Ascii.ascii) : bool :=
  let v := byte_val a in ((9 <=? v) && (v <=? 13)) || (v =? 32).
Definition is_space2 (a b : Ascii.ascii) : bool :=
  (byte_val a =? 194) && ((byte_val b =? 133) || (byte_val b =? 160)).
Definition is_space3 (a b c : Ascii.ascii) : bool :=
  let x := byte_val a in let y := byte_val b in let z := byte_val c in
  ((x =? 225) && (y =? 154) && (z =? 128)) ||
  ((x =? 226) && (y =? 128) &&
     (((128 <=? z) && (z <=? 138)) || (z =? 168) || (z =? 169) || (z =? 175))) ||
  ((x =? 226) && (y =? 129) && (z =? 159)) ||
  ((x =? 227) && (y =? 128) && (z =? 128)).

Fixpoint TrimLeftSpace (s : string) : string :=
  match s with
  | EmptyString => s
  | String a r1 =>
      if is_space1 a then TrimLeftSpace r1
      else match r1 with
           | EmptyString => s
           | String b r2 =>
               if is_space2 a b then TrimLeftSpace r2
               else match r2 with
                    | EmptyString => s
                    | String c r3 => if is_space3 a b c then TrimLeftSpace r3 else s
                    end
           end
  end.

(** The same from the end, on the reversed string. *)
Fixpoint trim_right_rev (s : string) : string :=
  match s with
  | EmptyString => s
  | String a r1 =>
      if is_space1 a then trim_right_rev r1
      else match r1 with
           | EmptyString => s
           | String b r2 =>
               if is_space2 b a then trim_right_rev r2
               else match r2 with
                    | EmptyString => s
                    | String c r3 => if is_space3 c b a then trim_right_rev r3 else s
                    end
           end
  end.

Definition TrimSpace (s : string) : string :=
  srev (trim_right_rev (srev (TrimLeftSpace s))).

(** * UTF-8 *)

Definition RuneError : Z := 65533.

Definition cont (b : Z) : bool := (128 <=? b) && (b <=? 191).

(** [utf8.DecodeRune] applied along the string: an invalid byte decodes to
    [RuneError] and is consumed alone. *)
Fixpoint decode_runes (l : list Z) : list Z :=
  match l with
  | [] => []
  | a :: r1 =>
      if a <? 128 then a :: decode_runes r1
      else match r1 with
      | [] => [RuneError]
      | b :: r2 =>
          if (194 <=? a) && (a <=? 223) && cont b
          then Z.land a 31 * 64 + Z.land b 63 :: decode_runes r2
          else match r2 with
          | [] => RuneError :: decode_runes r1
          | c :: r3 =>
              if (224 <=? a) && (a <=? 239) && cont b && cont c
                 && (if a =? 224 then 160 <=? b else true)
                 && (if a =? 237 then b <=? 159 else true)
              then Z.land a 15 * 4096 + Z.land b 63 * 64 + Z.land c 63 :: decode_runes r3
              else match r3 with
              | [] => RuneError :: decode_runes r1
              | d :: r4 =>
                  if (240 <=? a) && (a <=? 244) && cont b && cont c && cont d
                     && (if a =? 240 then 144 <=? b else true)
                     && (if a =? 244 then b <=? 143 else true)
                  then Z.land a 7 * 262144 + Z.land b 63 * 4096
                       + Z.land c 63 * 64 + Z.land d 63 :: decode_runes r4
                  else RuneError :: decode_runes r1
              end
          end
      end
  end.

(** [utf8.AppendRune]. *)
Definition encode_rune (r : Z) : list Z :=
  if (0 <=? r) && (r <=? 127) then [r]
  else if (128 <=? r) && (r <=? 2047) then
    [192 + Z.shiftr r 6; 128 + Z.land r 63]
  else if (r <? 0) || (1114111 <? r) || ((55296 <=? r) && (r <=? 57343)) then
    [239; 191; 189]
  else if r <=? 65535 then
    [224 + Z.shiftr r 12; 128 + Z.land (Z.shiftr r 6) 63; 128 + Z.land r 63]
  else
    [240 + Z.shiftr r 18; 128 + Z.land (Z.shiftr r 12) 63;
     128 + Z.land (Z.shiftr r 6) 63; 128 + Z.land r 63].

Definition runes (s : string) : list Z := decode_runes (bytes_of_string s).

(** * Letter case *)

(** A run of code points [first], [first + step], ..., [last] that a case
    mapping shifts by the same [delta]. *)
Record case_range : Type :=
  CaseRange { cr_first : Z; cr_last : Z; cr_step : Z; cr_delta : Z }.

Definition in_case_range (r : Z) (cr : case_range) : bool :=
  (cr_first cr <=? r) && (r <=? cr_last cr) && ((r - cr_first cr) mod cr_step cr =? 0).

Fixpoint map_case (table : list case_range) (r : Z) : Z :=
  match table with
  | [] => r
  | cr :: t => if in_case_range r cr then r + cr_delta cr else map_case t r
  end.

(** * Error texts *)

(** [fmt.Sprintf] for the verbs whose operand prints as given ([%s], [%d], [%w],
    [%v]), and [%q] of a string that needs no escaping. *)
Fixpoint Sprintf (format : string) (args : list string) : string :=
  match format with
  | EmptyString => EmptyString
  | String c rest =>
      if byte_val c =? 37 then
        match rest, args with
        | String verb rest', arg :: args' =>
            (if byte_val verb =? 113
             then String (byte_of 34) (arg +:+ String (byte_of 34) EmptyString) else arg)
            +:+ Sprintf rest' args'
        | _, _ => String c (Sprintf rest args)
        end
      else String c (Sprintf rest args)
  end.

(** [err.Error()]. *)
Fixpoint Error (e : error) : string :=
  match e with
  | ErrorString msg => msg
  | Errorf format args =>
      Sprintf format
        (map (fun arg => match arg with
                         | AInt z => Itoa z
                         | AStr s => s
                         | AErr e => Error e
                         end) args)
  | ErrorJoin errs => Join (map Error errs) (String (byte_of 10) EmptyString)
  end.

(** The simple lower-case and case-folding mappings of Unicode outside ASCII:
    the tables behind [unicode.ToLower] and [unicode.SimpleFold]. *)

Definition lower_table : list case_range := [
  CaseRange 192 214 1 32; CaseRange 216 222 1 32; CaseRange 256 302 2 1; CaseRange 304 304 1 (-199);
  CaseRange 306 310 2 1; CaseRange 313 327 2 1; CaseRange 330 374 2 1; CaseRange 376 376 1 (-121);
  CaseRange 377 381 2 1; CaseRange 385 385 1 210; CaseRange 386 388 2 1; CaseRange 390 390 1 206;
  CaseRange 391 391 1 1; CaseRange 393 394 1 205; CaseRange 395 395 1 1; CaseRange 398 398 1 79;
  CaseRange 399 399 1 202; CaseRange 400 400 1 203; CaseRange 401 401 1 1; CaseRange 403 403 1 205;
  CaseRange 404 404 1 207; CaseRange 406 406 1 211; CaseRange 407 407 1 209; CaseRange 408 408 1 1;
  CaseRange 412 412 1 211; CaseRange 413 413 1 213; CaseRange 415 415 1 214; CaseRange 416 420 2 1;
  CaseRange 422 422 1 218; CaseRange 423 423 1 1; CaseRange 425 425 1 218; CaseRange 428 428 1 1;
  CaseRange 430 430 1 218; CaseRange 431 431 1 1; CaseRange 433 434 1 217; CaseRange 435 437 2 1;
  CaseRange 439 439 1 219; CaseRange 440 440 1 1; CaseRange 444 444 1 1; CaseRange 452 452 1 2;
  CaseRange 453 453 1 1; CaseRange 455 455 1 2; CaseRange 456 456 1 1; CaseRange 458 458 1 2;
  CaseRange 459 475 2 1; CaseRange 478 494 2 1; CaseRange 497 497 1 2; CaseRange 498 500 2 1;
  CaseRange 502 502 1 (-97); CaseRange 503 503 1 (-56); CaseRange 504 542 2 1; CaseRange 544 544 1 (-130);
  CaseRange 546 562 2 1; CaseRange 570 570 1 10795; CaseRange 571 571 1 1; CaseRange 573 573 1 (-163);
  CaseRange 574 574 1 10792; CaseRange 577 577 1 1; CaseRange 579 579 1 (-195); CaseRange 580 580 1 69;
  CaseRange 581 581 1 71; CaseRange 582 590 2 1; CaseRange 880 882 2 1; CaseRange 886 886 1 1;
  CaseRange 895 895 1 116; CaseRange 902 902 1 38; CaseRange 904 906 1 37; CaseRange 908 908 1 64;
  CaseRange 910 911 1 63; CaseRange 913 929 1 32; CaseRange 931 939 1 32; CaseRange 975 975 1 8;
  CaseRange 984 1006 2 1; CaseRange 1012 1012 1 (-60); CaseRange 1015 1015 1 1; CaseRange 1017 1017 1 (-7);
  CaseRange 1018 1018 1 1; CaseRange 1021 1023 1 (-130); CaseRange 1024 1039 1 80; CaseRange 1040 1071 1 32;
  CaseRange 1120 1152 2 1; CaseRange 1162 1214 2 1; CaseRange 1216 1216 1 15; CaseRange 1217 1229 2 1;
  CaseRange 1232 1326 2 1; CaseRange 1329 1366 1 48; CaseRange 4256 4293 1 7264; CaseRange 4295 4295 1 7264;
  CaseRange 4301 4301 1 7264; CaseRange 5024 5103 1 38864; CaseRange 5104 5109 1 8; CaseRange 7312 7354 1 (-3008);
  CaseRange 7357 7359 1 (-3008); CaseRange 7680 7828 2 1; CaseRange 7838 7838 1 (-7615); CaseRange 7840 7934 2 1;
  CaseRange 7944 7951 1 (-8); CaseRange 7960 7965 1 (-8); CaseRange 7976 7983 1 (-8); CaseRange 7992 7999 1 (-8);
  CaseRange 8008 8013 1 (-8); CaseRange 8025 8031 2 (-8); CaseRange 8040 8047 1 (-8); CaseRange 8072 8079 1 (-8);
  CaseRange 8088 8095 1 (-8); CaseRange 8104 8111 1 (-8); CaseRange 8120 8121 1 (-8); CaseRange 8122 8123 1 (-74);
  CaseRange 8124 8124 1 (-9); CaseRange 8136 8139 1 (-86); CaseRange 8140 8140 1 (-9); CaseRange 8152 8153 1 (-8);
  CaseRange 8154 8155 1 (-100); CaseRange 8168 8169 1 (-8); CaseRange 8170 8171 1 (-112); CaseRange 8172 8172 1 (-7);
  CaseRange 8184 8185 1 (-128); CaseRange 8186 8187 1 (-126); CaseRange 8188 8188 1 (-9); CaseRange 8486 8486 1 (-7517);
  CaseRange 8490 8490 1 (-8383); CaseRange 8491 8491 1 (-8262); CaseRange 8498 8498 1 28; CaseRange 8544 8559 1 16;
  CaseRange 8579 8579 1 1; CaseRange 9398 9423 1 26; CaseRange 11264 11311 1 48; CaseRange 11360 11360 1 1;
  CaseRange 11362 11362 1 (-10743); CaseRange 11363 11363 1 (-3814); CaseRange 11364 11364 1 (-10727); CaseRange 11367 11371 2 1;
  CaseRange 11373 11373 1 (-10780); CaseRange 11374 11374 1 (-10749); CaseRange 11375 11375 1 (-10783); CaseRange 11376 11376 1 (-10782);
  CaseRange 11378 11378 1 1; CaseRange 11381 11381 1 1; CaseRange 11390 11391 1 (-10815); CaseRange 11392 11490 2 1;
  CaseRange 11499 11501 2 1; CaseRange 11506 11506 1 1; CaseRange 42560 42604 2 1; CaseRange 42624 42650 2 1;
  CaseRange 42786 42798 2 1; CaseRange 42802 42862 2 1; CaseRange 42873 42875 2 1; CaseRange 42877 42877 1 (-35332);
  CaseRange 42878 42886 2 1; CaseRange 42891 42891 1 1; CaseRange 42893 42893 1 (-42280); CaseRange 42896 42898 2 1;
  CaseRange 42902 42920 2 1; CaseRange 42922 42922 1 (-42308); CaseRange 42923 42923 1 (-42319); CaseRange 42924 42924 1 (-42315);
  CaseRange 42925 42925 1 (-42305); CaseRange 42926 42926 1 (-42308); CaseRange 42928 42928 1 (-42258); CaseRange 42929 42929 1 (-42282);
  CaseRange 42930 42930 1 (-42261); CaseRange 42931 42931 1 928; CaseRange 42932 42946 2 1; CaseRange 42948 42948 1 (-48);
  CaseRange 42949 42949 1 (-42307); CaseRange 42950 42950 1 (-35384); CaseRange 42951 42953 2 1; CaseRange 42960 42960 1 1;
  CaseRange 42966 42968 2 1; CaseRange 42997 42997 1 1; CaseRange 65313 65338 1 32; CaseRange 66560 66599 1 40;
  CaseRange 66736 66771 1 40; CaseRange 66928 66938 1 39; CaseRange 66940 66954 1 39; CaseRange 66956 66962 1 39;
  CaseRange 66964 66965 1 39; CaseRange 68736 68786 1 64; CaseRange 71840 71871 1 32; CaseRange 93760 93791 1 32;
  CaseRange 125184 125217 1 34
].

Definition fold_table : list case_range := [
  CaseRange 181 181 1 775; CaseRange 192 214 1 32; CaseRange 216 222 1 32; CaseRange 256 302 2 1;
  CaseRange 306 310 2 1; CaseRange 313 327 2 1; CaseRange 330 374 2 1; CaseRange 376 376 1 (-121);
  CaseRange 377 381 2 1; CaseRange 383 383 1 (-268); CaseRange 385 385 1 210; CaseRange 386 388 2 1;
  CaseRange 390 390 1 206; CaseRange 391 391 1 1; CaseRange 393 394 1 205; CaseRange 395 395 1 1;
  CaseRange 398 398 1 79; CaseRange 399 399 1 202; CaseRange 400 400 1 203; CaseRange 401 401 1 1;
  CaseRange 403 403 1 205; CaseRange 404 404 1 207; CaseRange 406 406 1 211; CaseRange 407 407 1 209;
  CaseRange 408 408 1 1; CaseRange 412 412 1 211; CaseRange 413 413 1 213; CaseRange 415 415 1 214;
  CaseRange 416 420 2 1; CaseRange 422 422 1 218; CaseRange 423 423 1 1; CaseRange 425 425 1 218;
  CaseRange 428 428 1 1; CaseRange 430 430 1 218; CaseRange 431 431 1 1; CaseRange 433 434 1 217;
  CaseRange 435 437 2 1; CaseRange 439 439 1 219; CaseRange 440 440 1 1; CaseRange 444 444 1 1;
  CaseRange 452 452 1 2; CaseRange 453 453 1 1; CaseRange 455 455 1 2; CaseRange 456 456 1 1;
  CaseRange 458 458 1 2; CaseRange 459 475 2 1; CaseRange 478 494 2 1; CaseRange 497 497 1 2;
  CaseRange 498 500 2 1; CaseRange 502 502 1 (-97); CaseRange 503 503 1 (-56); CaseRange 504 542 2 1;
  CaseRange 544 544 1 (-130); CaseRange 546 562 2 1; CaseRange 570 570 1 10795; CaseRange 571 571 1 1;
  CaseRange 573 573 1 (-163); CaseRange 574 574 1 10792; CaseRange 577 577 1 1; CaseRange 579 579 1 (-195);
  CaseRange 580 580 1 69; CaseRange 581 581 1 71; CaseRange 582 590 2 1; CaseRange 837 837 1 116;
  CaseRange 880 882 2 1; CaseRange 886 886 1 1; CaseRange 895 895 1 116; CaseRange 902 902 1 38;
  CaseRange 904 906 1 37; CaseRange 908 908 1 64; CaseRange 910 911 1 63; CaseRange 913 929 1 32;
  CaseRange 931 939 1 32; CaseRange 962 962 1 1; CaseRange 975 975 1 8; CaseRange 976 976 1 (-30);
  CaseRange 977 977 1 (-25); CaseRange 981 981 1 (-15); CaseRange 982 982 1 (-22); CaseRange 984 1006 2 1;
  CaseRange 1008 1008 1 (-54); CaseRange 1009 1009 1 (-48); CaseRange 1012 1012 1 (-60); CaseRange 1013 1013 1 (-64);
  CaseRange 1015 1015 1 1; CaseRange 1017 1017 1 (-7); CaseRange 1018 1018 1 1; CaseRange 1021 1023 1 (-130);
  CaseRange 1024 1039 1 80; CaseRange 1040 1071 1 32; CaseRange 1120 1152 2 1; CaseRange 1162 1214 2 1;
  CaseRange 1216 1216 1 15; CaseRange 1217 1229 2 1; CaseRange 1232 1326 2 1; CaseRange 1329 1366 1 48;
  CaseRange 4256 4293 1 7264; CaseRange 4295 4295 1 7264; CaseRange 4301 4301 1 7264; CaseRange 5112 5117 1 (-8);
  CaseRange 7296 7296 1 (-6222); CaseRange 7297 7297 1 (-6221); CaseRange 7298 7298 1 (-6212); CaseRange 7299 7300 1 (-6210);
  CaseRange 7301 7301 1 (-6211); CaseRange 7302 7302 1 (-6204); CaseRange 7303 7303 1 (-6180); CaseRange 7304 7304 1 35267;
  CaseRange 7312 7354 1 (-3008); CaseRange 7357 7359 1 (-3008); CaseRange 7680 7828 2 1; CaseRange 7835 7835 1 (-58);
  CaseRange 7838 7838 1 (-7615); CaseRange 7840 7934 2 1; CaseRange 7944 7951 1 (-8); CaseRange 7960 7965 1 (-8);
  CaseRange 7976 7983 1 (-8); CaseRange 7992 7999 1 (-8); CaseRange 8008 8013 1 (-8); CaseRange 8025 8031 2 (-8);
  CaseRange 8040 8047 1 (-8); CaseRange 8072 8079 1 (-8); CaseRange 8088 8095 1 (-8); CaseRange 8104 8111 1 (-8);
  CaseRange 8120 8121 1 (-8); CaseRange 8122 8123 1 (-74); CaseRange 8124 8124 1 (-9); CaseRange 8126 8126 1 (-7173);
  CaseRange 8136 8139 1 (-86); CaseRange 8140 8140 1 (-9); CaseRange 8152 8153 1 (-8); CaseRange 8154 8155 1 (-100);
  CaseRange 8168 8169 1 (-8); CaseRange 8170 8171 1 (-112); CaseRange 8172 8172 1 (-7); CaseRange 8184 8185 1 (-128);
  CaseRange 8186 8187 1 (-126); CaseRange 8188 8188 1 (-9); CaseRange 8486 8486 1 (-7517); CaseRange 8490 8490 1 (-8383);
  CaseRange 8491 8491 1 (-8262); CaseRange 8498 8498 1 28; CaseRange 8544 8559 1 16; CaseRange 8579 8579 1 1;
  CaseRange 9398 9423 1 26; CaseRange 11264 11311 1 48; CaseRange 11360 11360 1 1; CaseRange 11362 11362 1 (-10743);
  CaseRange 11363 11363 1 (-3814); CaseRange 11364 11364 1 (-10727); CaseRange 11367 11371 2 1; CaseRange 11373 11373 1 (-10780);
  CaseRange 11374 11374 1 (-10749); CaseRange 11375 11375 1 (-10783); CaseRange 11376 11376 1 (-10782); CaseRange 11378 11378 1 1;
  CaseRange 11381 11381 1 1; CaseRange 11390 11391 1 (-10815); CaseRange 11392 11490 2 1; CaseRange 11499 11501 2 1;
  CaseRange 11506 11506 1 1; CaseRange 42560 42604 2 1; CaseRange 42624 42650 2 1; CaseRange 42786 42798 2 1;
  CaseRange 42802 42862 2 1; CaseRange 42873 42875 2 1; CaseRange 42877 42877 1 (-35332); CaseRange 42878 42886 2 1;
  CaseRange 42891 42891 1 1; CaseRange 42893 42893 1 (-42280); CaseRange 42896 42898 2 1; CaseRange 42902 42920 2 1;
  CaseRange 42922 42922 1 (-42308); CaseRange 42923 42923 1 (-42319); CaseRange 42924 42924 1 (-42315); CaseRange 42925 42925 1 (-42305);
  CaseRange 42926 42926 1 (-42308); CaseRange 42928 42928 1 (-42258); CaseRange 42929 42929 1 (-42282); CaseRange 42930 42930 1 (-42261);
  CaseRange 42931 42931 1 928; CaseRange 42932 42946 2 1; CaseRange 42948 42948 1 (-48); CaseRange 42949 42949 1 (-42307);
  CaseRange 42950 42950 1 (-35384); CaseRange 42951 42953 2 1; CaseRange 42960 42960 1 1; CaseRange 42966 42968 2 1;
  CaseRange 42997 42997 1 1; CaseRange 43888 43967 1 (-38864); CaseRange 65313 65338 1 32; CaseRange 66560 66599 1 40;
  CaseRange 66736 66771 1 40; CaseRange 66928 66938 1 39; CaseRange 66940 66954 1 39; CaseRange 66956 66962 1 39;
  CaseRange 66964 66965 1 39; CaseRange 68736 68786 1 64; CaseRange 71840 71871 1 32; CaseRange 93760 93791 1 32;
  CaseRange 125184 125217 1 34
].

(** [unicode.ToLower]. *)
Definition unicode_ToLower (r : Z) : Z :=
  if r <? 128 then (if (65 <=? r) && (r <=? 90) then r + 32 else r)
  else map_case lower_table r.

(** The representative of a rune's [unicode.SimpleFold] orbit. *)
Definition unicode_fold (r : Z) : Z :=
  if r <? 128 then (if (65 <=? r) && (r <=? 90) then r + 32 else r)
  else map_case fold_table r.

(** [strings.ToLower]: byte by byte on ASCII strings, rune by rune otherwise. *)
Definition ToLower (s : string) : string :=
  let bs := bytes_of_string s in
  if forallb (fun b => b <? 128) bs
  then string_of_bytes (map unicode_ToLower bs)
  else string_of_bytes (flat_map encode_rune (map unicode_ToLower (decode_runes bs))).

(** [strings.EqualFold]. *)
Definition EqualFold (s t : string) : bool :=
  bool_decide (map unicode_fold (runes s) = map unicode_fold (runes t)).

(** [unicode.IsSpace] and [unicode.IsControl]. *)
Definition unicode_IsSpace (r : Z) : bool :=
  ((9 <=? r) && (r <=? 13)) || (r =? 32) || (r =? 133) || (r =? 160) || (r =? 5760)
  || ((8192 <=? r) && (r <=? 8202)) || (r =? 8232) || (r =? 8233) || (r =? 8239)
  || (r =? 8287) || (r =? 12288).
Definition unicode_IsControl (r : Z) : bool :=
  ((0 <=? r) && (r <=? 31)) || ((127 <=? r) && (r <=? 159)).
