(* ===== verification/Crypto.v ===== *)
(** crypto/sha256, crypto/hmac and encoding/hex on byte lists: what the program
    uses to hash tokens and passwords and to print keys. *)

From S2P Require Export GoString.

(** * SHA-256 (FIPS 180-4), a byte or a 32-bit word being a [Z] *)

Definition w32 (x : Z) : Z := Z.land x 4294967295.
Definition add32 (x y : Z) : Z := w32 (x + y).
Definition rotr (x n : Z) : Z :=
  Z.lor (Z.shiftr x n) (w32 (Z.shiftl x (32 - n))).

Definition round_constants : list Z := [
  1116352408; 1899447441; 3049323471; 3921009573; 961987163; 1508970993;
  2453635748; 2870763221; 3624381080; 310598401; 607225278; 1426881987;
  1925078388; 2162078206; 2614888103; 3248222580; 3835390401; 4022224774;
  264347078; 604807628; 770255983; 1249150122; 1555081692; 1996064986;
  2554220882; 2821834349; 2952996808; 3210313671; 3336571891; 3584528711;
  113926993; 338241895; 666307205; 773529912; 1294757372; 1396182291;
  1695183700; 1986661051; 2177026350; 2456956037; 2730485921; 2820302411;
  3259730800; 3345764771; 3516065817; 3600352804; 4094571909; 275423344;
  430227734; 506948616; 659060556; 883997877; 958139571; 1322822218;
  1537002063; 1747873779; 1955562222; 2024104815; 2227730452; 2361852424;
  2428436474; 2756734187; 3204031479; 3329325298
].

(** The eight chaining variables. *)
Record digest : Type := Digest
  { hA : Z; hB : Z; hC : Z; hD : Z; hE : Z; hF : Z; hG : Z; hH : Z }.

Definition initial_digest : digest :=
  Digest 1779033703 3144134277 1013904242 2773480762 1359893119 2600822924 528734635 1541459225.

Definition big_sigma0 (x : Z) := Z.lxor (rotr x 2) (Z.lxor (rotr x 13) (rotr x 22)).
Definition big_sigma1 (x : Z) := Z.lxor (rotr x 6) (Z.lxor (rotr x 11) (rotr x 25)).
Definition small_sigma0 (x : Z) := Z.lxor (rotr x 7) (Z.lxor (rotr x 18) (Z.shiftr x 3)).
Definition small_sigma1 (x : Z) := Z.lxor (rotr x 17) (Z.lxor (rotr x 19) (Z.shiftr x 10)).
Definition choose (x y z : Z) := Z.lxor (Z.land x y) (Z.land (Z.lxor x 4294967295) z).
Definition majority (x y z : Z) :=
  Z.lxor (Z.land x y) (Z.lxor (Z.land x z) (Z.land y z)).

Definition sha_round (d : digest) (kw : Z) : digest :=
  let t1 := w32 (hH d + big_sigma1 (hE d) + choose (hE d) (hF d) (hG d) + kw) in
  let t2 := w32 (big_sigma0 (hA d) + majority (hA d) (hB d) (hC d)) in
  Digest (add32 t1 t2) (hA d) (hB d) (hC d) (add32 (hD d) t1) (hE d) (hF d) (hG d).

(** The rounds still to run, with the sixteen schedule words [w] that the next
    round starts from: the head is the round's own word. *)
Fixpoint sha_rounds (ks w : list Z) (d : digest) : digest :=
  match ks with
  | [] => d
  | k :: ks' =>
      match w with
      | w0 :: w1 :: tail =>
          let next := w32 (small_sigma1 (nth 12 tail 0) + nth 7 tail 0
                           + small_sigma0 w1 + w0) in
          sha_rounds ks' (w1 :: tail ++ [next]) (sha_round d (k + w0))
      | _ => d
      end
  end.

Definition sha_block (d : digest) (w : list Z) : digest :=
  let e := sha_rounds round_constants w d in
  Digest (add32 (hA d) (hA e)) (add32 (hB d) (hB e)) (add32 (hC d) (hC e))
         (add32 (hD d) (hD e)) (add32 (hE d) (hE e)) (add32 (hF d) (hF e))
         (add32 (hG d) (hG e)) (add32 (hH d) (hH e)).

Definition be_bytes (n : nat) (x : Z) : list Z :=
  map (fun i => Z.land (Z.shiftr x (8 * Z.of_nat i)) 255) (rev (seq 0 n)).

Fixpoint be_words (bs : list Z) : list Z :=
  match bs with
  | a :: b :: c :: d :: r =>
      (((a * 256 + b) * 256 + c) * 256 + d) :: be_words r
  | _ => []
  end.

Definition sha_padded (msg : list Z) : list Z :=
  msg ++ [128] ++ repeat 0 (Z.to_nat ((55 - llen msg) mod 64))
      ++ be_bytes 8 (8 * llen msg).

Fixpoint sha_blocks (fuel : nat) (w : list Z) (d : digest) : digest :=
  match fuel, w with
  | S n, _ :: _ => sha_blocks n (drop 16 w) (sha_block d (take 16 w))
  | _, _ => d
  end.

Definition digest_bytes (d : digest) : list Z :=
  flat_map (be_bytes 4) [hA d; hB d; hC d; hD d; hE d; hF d; hG d; hH d].

(** [sha256.Sum256]. *)
Definition Sum256 (msg : list Z) : list Z :=
  let w := be_words (sha_padded msg) in
  digest_bytes (sha_blocks (length w) w initial_digest).

(** * HMAC-SHA256 *)

Definition hmac_key (key : list Z) : list Z :=
  let k := if 64 <? llen key then Sum256 key else key in
  k ++ repeat 0 (64 - length k).

Definition HmacSHA256 (key msg : list Z) : list Z :=
  let k := hmac_key key in
  Sum256 (map (Z.lxor 92) k ++ Sum256 (map (Z.lxor 54) k ++ msg)).

(** * encoding/hex *)

Definition hex_digit (z : Z) : Ascii.ascii :=
  byte_of (if z <? 10 then 48 + z else 87 + z).

Fixpoint HexEncode (bs : list Z) : string :=
  match bs with
  | [] => EmptyString
  | b :: r => String (hex_digit (Z.shiftr b 4)) (String (hex_digit (Z.land b 15)) (HexEncode r))
  end.

Definition hex_value (c : Ascii.ascii) : option Z :=
  let v := byte_val c in
  if (48 <=? v) && (v <=? 57) then Some (v - 48)
  else if (97 <=? v) && (v <=? 102) then Some (v - 87)
  else if (65 <=? v) && (v <=? 70) then Some (v - 55)
  else None.

(** [hex.DecodeString], [None] standing for its error. *)
Fixpoint HexDecode (s : string) : option (list Z) :=
  match s with
  | EmptyString => Some []
  | String a (String b r) =>
      match hex_value a, hex_value b, HexDecode r with
      | Some x, Some y, Some bs => Some (16 * x + y :: bs)
      | _, _, _ => None
      end
  | String _ EmptyString => None
  end.
