(* ===== verification/StringFacts.v ===== *)
(** Facts on strings the theorems share: trimming, prefixes, hexadecimal. *)

From S2P Require Export GoString Crypto.

(** * Reversal *)

Lemma srev_app_spec s acc : srev_app s acc = srev s +:+ acc.
Proof.
  unfold srev. revert acc. induction s as [|c s IH]; intros acc; cbn; [done|].
  rewrite IH, (IH (String c EmptyString)).
  change (String c acc) with (String c EmptyString +:+ acc).
  generalize (srev_app s EmptyString) as t. intros t. induction t as [|d t IHt]; [done|].
  change (String d t +:+ ?x) with (String d (t +:+ x)).
  change ((String d (t +:+ ?x)) +:+ ?y) with (String d ((t +:+ x) +:+ y)). by rewrite IHt.
Qed.

Lemma srev_app_app s t acc : srev_app (s +:+ t) acc = srev_app t (srev_app s acc).
Proof.
  revert acc. induction s as [|c s IH]; intros acc; [done|].
  change (String c s +:+ t) with (String c (s +:+ t)). cbn. apply IH.
Qed.

Lemma srev_involutive s : srev (srev s) = s.
Proof.
  assert (forall t acc, srev_app (srev_app t acc) EmptyString = srev_app acc t) as G.
  { intros t. induction t as [|c t IH]; intros acc; [done|]. cbn. by rewrite IH. }
  unfold srev. by rewrite G.
Qed.

(** * Strings of visible ASCII characters, which trimming leaves alone *)

Definition visible (c : Ascii.ascii) : bool := (33 <=? byte_val c) && (byte_val c <=? 126).

Fixpoint all_visible (s : string) : bool :=
  match s with EmptyString => true | String c r => visible c && all_visible r end.

Lemma all_visible_app s t : all_visible (s +:+ t) = all_visible s && all_visible t.
Proof.
  induction s as [|c s IH]; [done|]. change (String c s +:+ t) with (String c (s +:+ t)).
  cbn. by rewrite IH, andb_assoc.
Qed.

Lemma all_visible_srev s : all_visible (srev s) = all_visible s.
Proof.
  assert (forall acc, all_visible (srev_app s acc) = all_visible s && all_visible acc) as G.
  { induction s as [|c s IH]; intros acc; cbn; [done|]. rewrite IH. cbn.
    by destruct (visible c), (all_visible s). }
  unfold srev. by rewrite G, andb_true_r.
Qed.

Lemma visible_not_space c : visible c = true ->
  is_space1 c = false /\ (forall b, is_space2 c b = false) /\ (forall b, is_space2 b c = false) /\
  (forall a b, is_space3 a b c = false) /\ (forall a b, is_space3 c a b = false).
Proof.
  unfold visible, is_space1, is_space2, is_space3.
  rewrite andb_true_iff, !Z.leb_le. intros [L U].
  repeat split; intros; repeat rewrite ?andb_false_iff, ?orb_false_iff, ?Z.eqb_neq, ?Z.leb_gt; lia.
Qed.

Lemma TrimLeftSpace_visible s : all_visible s = true -> TrimLeftSpace s = s.
Proof.
  destruct s as [|a [|b [|c s]]]; cbn; [done|..]; intros [V _]%andb_true_iff;
    destruct (visible_not_space a V) as (-> & S2 & _ & _ & S3); rewrite ?S2, ?S3; done.
Qed.

Lemma trim_right_rev_visible s : all_visible s = true -> trim_right_rev s = s.
Proof.
  destruct s as [|a [|b [|c s]]]; cbn; [done|..]; intros [V _]%andb_true_iff;
    destruct (visible_not_space a V) as (-> & _ & S2 & S3 & _); rewrite ?S2, ?S3; done.
Qed.

Lemma TrimSpace_visible s : all_visible s = true -> TrimSpace s = s.
Proof.
  intros V. unfold TrimSpace. rewrite (TrimLeftSpace_visible s V).
  rewrite trim_right_rev_visible; [apply srev_involutive|by rewrite all_visible_srev].
Qed.

(** * Hexadecimal *)

Lemma byte_val_of z : 0 <= z < 256 -> byte_val (byte_of z) = z.
Proof.
  intros B. unfold byte_val, byte_of. rewrite Z.mod_small by done.
  rewrite Ascii.N_ascii_embedding by lia. lia.
Qed.

Lemma hex_digit_value z : 0 <= z < 16 ->
  hex_value (hex_digit z) = Some z /\ visible (hex_digit z) = true.
Proof.
  intros B. unfold hex_value, hex_digit, visible.
  rewrite byte_val_of by (destruct (z <? 10) eqn:E; lia).
  destruct (Z.ltb_spec z 10).
  - replace (48 <=? 48 + z) with true by lia. replace (48 + z <=? 57) with true by lia.
    cbn. split; [f_equal; lia|]. lia.
  - replace (87 + z <=? 57) with false by lia. rewrite andb_false_r.
    replace (97 <=? 87 + z) with true by lia. replace (87 + z <=? 102) with true by lia.
    cbn. split; [f_equal; lia|]. lia.
Qed.

Lemma nibbles b : 0 <= b < 256 ->
  0 <= Z.shiftr b 4 < 16 /\ 0 <= Z.land b 15 < 16 /\ 16 * Z.shiftr b 4 + Z.land b 15 = b.
Proof.
  intros B. rewrite Z.shiftr_div_pow2 by lia. change 15 with (Z.ones 4).
  rewrite Z.land_ones by lia. change (2 ^ 4) with 16.
  pose proof (Z.div_mod b 16). pose proof (Z.mod_pos_bound b 16). lia.
Qed.

Definition byte_list (bs : list Z) : Prop := Forall (fun b => 0 <= b < 256) bs.

Lemma HexDecode_Encode bs : byte_list bs -> HexDecode (HexEncode bs) = Some bs.
Proof.
  induction 1 as [|b bs B _ IH]; [done|]. cbn.
  destruct (nibbles b B) as (H1 & H2 & E).
  by rewrite (proj1 (hex_digit_value _ H1)), (proj1 (hex_digit_value _ H2)), IH, E.
Qed.

Lemma HexEncode_visible bs : byte_list bs -> all_visible (HexEncode bs) = true.
Proof.
  induction 1 as [|b bs B _ IH]; [done|]. cbn. destruct (nibbles b B) as (H1 & H2 & _).
  by rewrite (proj2 (hex_digit_value _ H1)), (proj2 (hex_digit_value _ H2)), IH.
Qed.

Lemma slen_HexEncode bs : slen (HexEncode bs) = 2 * llen bs.
Proof.
  unfold slen, llen. induction bs as [|b bs IH]; [done|]. cbn [HexEncode String.length length]. lia.
Qed.

Lemma HasPrefix_app p s : HasPrefix (p +:+ s) p = true.
Proof.
  unfold HasPrefix. induction p as [|c p IH].
  - by destruct s.
  - change (String c p +:+ s) with (String c (p +:+ s)). cbn.
    rewrite IH. by destruct (Ascii.ascii_dec c c).
Qed.

Lemma sdrop_app p s : sdrop (String.length p) (p +:+ s) = s.
Proof.
  induction p as [|c p IH]; [by destruct s|].
  change (String c p +:+ s) with (String c (p +:+ s)). cbn. done.
Qed.

Lemma stake_app p s : stake (String.length p) (p +:+ s) = p.
Proof.
  induction p as [|c p IH]; [by destruct s|].
  change (String c p +:+ s) with (String c (p +:+ s)). cbn. by rewrite IH.
Qed.

Lemma TrimSuffix_app s t : TrimSuffix (s +:+ t) t = s.
Proof.
  assert (String.length (s +:+ t) = String.length s + String.length t)%nat as L.
  { pose proof (slen_app s t). unfold slen in *. lia. }
  assert (String.length (s +:+ t) - String.length t = String.length s)%nat as D by lia.
  unfold TrimSuffix, HasSuffix. rewrite D, sdrop_app, stake_app, String.eqb_refl.
  by replace (String.length t <=? String.length (s +:+ t))%nat with true
    by (symmetry; apply Nat.leb_le; lia).
Qed.

(** * Trimming twice *)

Lemma srev_append s t : srev (s +:+ t) = srev t +:+ srev s.
Proof. unfold srev at 1. rewrite srev_app_app, srev_app_spec. done. Qed.

Lemma string_app_assoc (s t u : string) : (s +:+ t) +:+ u = s +:+ (t +:+ u).
Proof.
  induction s as [|c s IH]; [done|].
  change (String c s +:+ ?x) with (String c (s +:+ x)).
  change ((String c (s +:+ t)) +:+ u) with (String c ((s +:+ t) +:+ u)). by rewrite IH.
Qed.

(** One round of trimming: nothing to do, or a non-empty prefix goes. *)
Lemma TrimLeftSpace_round s :
  TrimLeftSpace s = s \/
  exists a p r, s = String a p +:+ r /\ TrimLeftSpace s = TrimLeftSpace r.
Proof.
  destruct s as [|a r1]; [by left|]. cbn [TrimLeftSpace].
  destruct (is_space1 a); [right; by exists a, EmptyString, r1|].
  destruct r1 as [|b r2]; [by left|].
  destruct (is_space2 a b); [right; by exists a, (String b EmptyString), r2|].
  destruct r2 as [|c r3]; [by left|].
  destruct (is_space3 a b c); [|by left].
  right. by exists a, (String b (String c EmptyString)), r3.
Qed.

Lemma trim_right_rev_round s :
  trim_right_rev s = s \/
  exists a p r, s = String a p +:+ r /\ trim_right_rev s = trim_right_rev r.
Proof.
  destruct s as [|a r1]; [by left|]. cbn [trim_right_rev].
  destruct (is_space1 a); [right; by exists a, EmptyString, r1|].
  destruct r1 as [|b r2]; [by left|].
  destruct (is_space2 b a); [right; by exists a, (String b EmptyString), r2|].
  destruct r2 as [|c r3]; [by left|].
  destruct (is_space3 c b a); [|by left].
  right. by exists a, (String b (String c EmptyString)), r3.
Qed.

(** What such rounds add up to: a prefix is dropped, and the rest is fixed. *)
Lemma trim_fixpoint (f : string -> string) :
  (forall s, f s = s \/ exists a p r, s = String a p +:+ r /\ f s = f r) ->
  forall s, f (f s) = f s /\ exists p, s = p +:+ f s.
Proof.
  intros Hf s. induction s as [s IH] using (induction_ltof1 _ String.length).
  destruct (Hf s) as [E|(a & p & r & E & F)]; [rewrite !E; split; [done|by exists EmptyString]|].
  destruct (IH r) as [F2 [q Q]].
  { unfold ltof. subst s. pose proof (slen_app (String a p) r) as S. unfold slen in S.
    cbn [String.length] in S. lia. }
  rewrite F. split; [done|]. exists (String a p +:+ q). rewrite E, Q at 1.
  by rewrite string_app_assoc.
Qed.

Lemma TrimLeftSpace_fixed s : TrimLeftSpace (TrimLeftSpace s) = TrimLeftSpace s.
Proof. apply (trim_fixpoint _ TrimLeftSpace_round). Qed.

Lemma trim_left_shorter s : (String.length (TrimLeftSpace s) <= String.length s)%nat.
Proof.
  destruct (proj2 (trim_fixpoint _ TrimLeftSpace_round s)) as [p E].
  pose proof (slen_app p (TrimLeftSpace s)) as S. rewrite <- E in S. unfold slen in S. lia.
Qed.

(** A prefix of a string that starts with no space starts with none. *)
Lemma TrimLeftSpace_prefix p q : TrimLeftSpace (p +:+ q) = p +:+ q -> TrimLeftSpace p = p.
Proof.
  assert (forall s t, (String.length s < String.length t)%nat ->
    TrimLeftSpace s = t -> False) as N.
  { intros s t L E. exfalso. pose proof (trim_left_shorter s). rewrite E in *. lia. }
  destruct p as [|a r1]; [done|]. change (String a r1 +:+ q) with (String a (r1 +:+ q)).
  cbn [TrimLeftSpace]. destruct (is_space1 a); [intros []%N; cbn; lia|].
  destruct r1 as [|b r2]; [done|]. change (String b r2 +:+ q) with (String b (r2 +:+ q)).
  cbn [TrimLeftSpace]. destruct (is_space2 a b); [intros []%N; cbn; lia|].
  destruct r2 as [|c r3]; [done|]. change (String c r3 +:+ q) with (String c (r3 +:+ q)).
  cbn [TrimLeftSpace]. destruct (is_space3 a b c); [|done].
  intros []%N; cbn; lia.
Qed.

Lemma TrimSpace_fixed s : TrimSpace (TrimSpace s) = TrimSpace s.
Proof.
  unfold TrimSpace. set (t := TrimLeftSpace s).
  destruct (trim_fixpoint _ trim_right_rev_round (srev t)) as [F [p E]].
  set (v := trim_right_rev (srev t)) in *.
  assert (TrimLeftSpace (srev v) = srev v) as ->.
  { apply (TrimLeftSpace_prefix _ (srev p)). rewrite <- srev_append, <- E, srev_involutive.
    apply TrimLeftSpace_fixed. }
  by rewrite srev_involutive, F.
Qed.

(** What is left is a part of the string. *)
Lemma TrimSpace_inside s : exists p q, s = p +:+ (TrimSpace s +:+ q).
Proof.
  destruct (trim_fixpoint _ TrimLeftSpace_round s) as [_ [p E]].
  destruct (trim_fixpoint _ trim_right_rev_round (srev (TrimLeftSpace s))) as [_ [q F]].
  exists p, (srev q). unfold TrimSpace. rewrite <- srev_append, <- F, srev_involutive. exact E.
Qed.

(** A line of printable characters. *)
Lemma TrimLeftSpace_head c s : visible c = true -> TrimLeftSpace (String c s) = String c s.
Proof.
  intros V. destruct (visible_not_space c V) as (S1 & S2 & _ & _ & S3). cbn. rewrite S1.
  destruct s as [|d [|e s]]; [done|by rewrite S2|by rewrite S2, S3].
Qed.

Lemma TrimSpace_line s : all_visible s = true -> s <> "" -> TrimSpace (s +:+ newline) = s.
Proof.
  intros V Ne. unfold TrimSpace. destruct s as [|c s]; [done|].
  pose proof V as V'. cbn in V'. apply andb_true_iff in V' as [Vc _].
  change (String c s +:+ newline) with (String c (s +:+ newline)).
  rewrite TrimLeftSpace_head by done. change (String c (s +:+ newline)) with (String c s +:+ newline).
  rewrite srev_append. change (srev newline +:+ ?x) with (String (byte_of 10) x). cbn [trim_right_rev].
  change (is_space1 (byte_of 10)) with true. cbn iota.
  rewrite trim_right_rev_visible by by rewrite all_visible_srev. apply srev_involutive.
Qed.

(** Strings as their bytes. *)
Lemma bytes_of_string_range s : byte_list (bytes_of_string s).
Proof.
  induction s as [|c s IH]; [constructor|]. constructor; [|done].
  unfold byte_val. pose proof (Ascii.N_ascii_bounded c). lia.
Qed.

Lemma string_of_bytes_of s : string_of_bytes (bytes_of_string s) = s.
Proof.
  induction s as [|c s IH]; [done|]. cbn. rewrite IH. f_equal.
  unfold byte_of, byte_val. pose proof (Ascii.N_ascii_bounded c).
  rewrite Z.mod_small by lia. by rewrite N2Z.id, Ascii.ascii_N_embedding.
Qed.
