(* ===== verification/GoTime.v ===== *)
(** Go's time package as the program uses it: instants and durations in
    nanoseconds, and [time.ParseDuration]. *)

From S2P Require Export GoString.
From Corelib.Floats Require SpecFloat.

(** * Instants

    A [time.Time] is the number of nanoseconds since the zero Time, January 1,
    year 1, 00:00:00 UTC; [UTC] changes only the location, so it is the
    identity on instants. *)
Definition time : Type := Z.

Definition zeroTime : time := 0.
Definition IsZero (t : time) : bool := t =? 0.
Definition Before (t u : time) : bool := t <? u.
Definition After (t u : time) : bool := u <? t.
Definition TimeEqual (t u : time) : bool := t =? u.
Definition UTC (t : time) : time := t.

(** * Durations: signed 64-bit nanoseconds *)

Definition duration : Type := Z.
Definition minDuration : duration := - 9223372036854775808.
Definition maxDuration : duration := 9223372036854775807.

Definition Nanosecond : duration := 1.
Definition Microsecond : duration := 1000.
Definition Millisecond : duration := 1000000.
Definition Second : duration := 1000000000.
Definition Minute : duration := 60 * Second.
Definition Hour : duration := 3600 * Second.

Definition TimeAdd (t : time) (d : duration) : time := t + d.

(** [t.Sub(u)] saturates at the ends of the duration range. *)
Definition TimeSub (t u : time) : duration :=
  Z.max minDuration (Z.min maxDuration (t - u)).

(** * [time.ParseDuration] *)

Definition is_digit (c : Ascii.ascii) : bool :=
  let v := byte_val c in (48 <=? v) && (v <=? 57).
Definition is_dot (c : Ascii.ascii) : bool := byte_val c =? 46.

(** [leadingInt]: [None] on overflow. *)
Fixpoint leadingInt (x : Z) (s : string) : option (Z * string) :=
  match s with
  | String c r =>
      if is_digit c then
        if 2 ^ 63 / 10 <? x then None
        else let y := x * 10 + (byte_val c - 48) in
             if 2 ^ 63 <? y then None else leadingInt y r
      else Some (x, s)
  | EmptyString => Some (x, s)
  end.

(** [leadingFraction]: the digits' value and the power of ten that divides it. *)
Fixpoint leadingFraction (x scale : Z) (overflow : bool) (s : string) : Z * Z * string :=
  match s with
  | String c r =>
      if is_digit c then
        if overflow then leadingFraction x scale true r
        else if (2 ^ 63 - 1) / 10 <? x then leadingFraction x scale true r
        else let y := x * 10 + (byte_val c - 48) in
             if 2 ^ 63 <? y then leadingFraction x scale true r
             else leadingFraction y (scale * 10) false r
      else (x, scale, s)
  | EmptyString => (x, scale, s)
  end.

(** The unit: everything up to the next digit or period. *)
Fixpoint leadingUnit (s : string) : string * string :=
  match s with
  | String c r =>
      if is_dot c || is_digit c then (EmptyString, s)
      else let '(u, t) := leadingUnit r in (String c u, t)
  | EmptyString => (EmptyString, EmptyString)
  end.

Definition unitMap (u : string) : option Z :=
  if u =s "ns" then Some Nanosecond
  else if (u =s "us") || (u =s "µs") || (u =s "μs") then Some Microsecond
  else if u =s "ms" then Some Millisecond
  else if u =s "s" then Some Second
  else if u =s "m" then Some Minute
  else if u =s "h" then Some Hour
  else None.

(** [uint64(float64(f) * (float64(unit) / scale))] in IEEE double precision. *)
Definition float_of_Z (z : Z) : SpecFloat.spec_float :=
  SpecFloat.binary_normalize 53 1024 z 0 false.
Definition trunc_float (f : SpecFloat.spec_float) : Z :=
  match f with
  | SpecFloat.S754_finite false m e =>
      if 0 <=? e then Z.pos m * 2 ^ e else Z.pos m / 2 ^ (- e)
  | _ => 0
  end.
Definition scaled_fraction (f unit scale : Z) : Z :=
  trunc_float (SpecFloat.SFmul 53 1024 (float_of_Z f)
    (SpecFloat.SFdiv 53 1024 (float_of_Z unit) (float_of_Z scale))).

Definition invalidDuration (orig : string) : error :=
  Errorf "time: invalid duration %q" [AStr orig].

(** The loop over the components; [fuel] bounds their number, each one
    consuming at least its unit's first byte. *)
Fixpoint parse_components (fuel : nat) (orig s : string) (d : Z) : error + Z :=
  match s, fuel with
  | EmptyString, _ => inr d
  | _, O => inl (invalidDuration orig)
  | String c _, S fuel' =>
      if negb (is_dot c || is_digit c) then inl (invalidDuration orig)
      else match leadingInt 0 s with
      | None => inl (invalidDuration orig)
      | Some (v, s1) =>
          let pre := negb (String.length s =? String.length s1)%nat in
          let '(f, scale, s2, post) :=
            match s1 with
            | String c1 r1 =>
                if is_dot c1 then
                  let '(f, scale, s2) := leadingFraction 0 1 false r1 in
                  (f, scale, s2, negb (String.length r1 =? String.length s2)%nat)
                else (0, 1, s1, false)
            | EmptyString => (0, 1, s1, false)
            end in
          if negb pre && negb post then inl (invalidDuration orig)
          else
            let '(u, s3) := leadingUnit s2 in
            if u =s "" then inl (Errorf "time: missing unit in duration %q" [AStr orig])
            else match unitMap u with
            | None => inl (Errorf "time: unknown unit %q in duration %q" [AStr u; AStr orig])
            | Some unit =>
                if 2 ^ 63 / unit <? v then inl (invalidDuration orig)
                else
                  let v := v * unit in
                  let v := if 0 <? f then v + scaled_fraction f unit scale else v in
                  if (0 <? f) && (2 ^ 63 <? v) then inl (invalidDuration orig)
                  else
                    let d := (d + v) mod 2 ^ 64 in
                    if 2 ^ 63 <? d then inl (invalidDuration orig)
                    else parse_components fuel' orig s3 d
            end
      end
  end.

Definition ParseDuration (orig : string) : error + duration :=
  let '(neg, s) :=
    match orig with
    | String c r =>
        if byte_val c =? 45 then (true, r)
        else if byte_val c =? 43 then (false, r) else (false, orig)
    | EmptyString => (false, orig)
    end in
  if s =s "0" then inr 0
  else if s =s "" then inl (invalidDuration orig)
  else match parse_components (String.length s) orig s 0 with
       | inl e => inl e
       | inr d =>
           if neg then inr (if d =? 2 ^ 63 then minDuration else - d)
           else if maxDuration <? d then inl (invalidDuration orig) else inr d
       end.
