(* ===== verification/Model.v ===== *)
(** internal/model/model.go: the data the daemon persists and reports.

    One record per Go struct, its fields prefixed by the struct's name; a nil
    pointer is [None], a nil slice [[]].  [X_set_F v x] is the struct [x] with
    field [F] assigned [v], [X_zero] the zero value. *)

From S2P Require Export GoTime.

(** * Constants *)

Definition ModeBare : string := "bare".
Definition ModeDocker : string := "docker".
Definition ModeK8s : string := "k8s".
Definition ModeUser : string := "user".
Definition TokenModeReserved : string := "reserved".
Definition TokenModeClaimed : string := "claimed".
Definition TokenModeManaged : string := "managed".
Definition TokenKeyStatusStored : string := "stored".
Definition TokenKeyStatusNotStored : string := "not_stored".
Definition BypassPID : string := "pid".
Definition BypassCommand : string := "command".

(** * Structs *)

Record GPUProcess : Type := mkGPUProcess
  { GPUProcess_GPU : Z; GPUProcess_PID : Z; GPUProcess_Name : string;
    GPUProcess_MemBytes : Z; GPUProcess_MemBytesUnknown : bool }.

(** A float64 is carried, never computed with. *)
Definition float64 : Type := SpecFloat.spec_float.

Record GPUMetric : Type := mkGPUMetric
  { GPUMetric_GPU : Z; GPUMetric_MemoryUsedBytes : option Z;
    GPUMetric_MemoryTotalBytes : option Z; GPUMetric_UtilizationPct : option float64 }.

Record ProcInfo : Type := mkProcInfo
  { ProcInfo_PID : Z; ProcInfo_StartTime : Z; ProcInfo_UID : Z;
    ProcInfo_Username : string; ProcInfo_Cmdline : list string;
    ProcInfo_CommandPath : string; ProcInfo_Cgroup : string;
    ProcInfo_ContainerID : string; ProcInfo_StderrPath : string }.

Record Token : Type := mkToken
  { Token_ID : string; Token_Hash : string; Token_Secret : string; Token_Name : string;
    Token_Mode : string; Token_Version : Z; Token_Managed : bool;
    Token_CreatedAt : time; Token_ExpiresAt : time; Token_Revoked : bool }.

Record Reservation : Type := mkReservation
  { Reservation_ID : string; Reservation_GroupID : string;
    Reservation_ExternalSessionID : string; Reservation_GPU : Z;
    Reservation_TokenHash : string; Reservation_Holder : string;
    Reservation_Purpose : string; Reservation_CreatedAt : time;
    Reservation_StartsAt : time; Reservation_ExpiresAt : time;
    Reservation_Active : bool; Reservation_Revoked : bool }.

Record Authorization : Type := mkAuthorization
  { Authorization_ID : string; Authorization_Mode : string;
    Authorization_TokenHash : string; Authorization_TokenMode : string;
    Authorization_TokenVersion : Z; Authorization_Holder : string;
    Authorization_UID : Z; Authorization_GID : Z; Authorization_Username : string;
    Authorization_Command : list string; Authorization_RootPID : Z;
    Authorization_CgroupPath : string; Authorization_CgroupRel : string;
    Authorization_ContainerID : string; Authorization_ContainerPattern : string;
    Authorization_Namespace : string; Authorization_CreatedAt : time;
    Authorization_ExpiresAt : time; Authorization_Active : bool;
    Authorization_Revoked : bool }.

Record SoftClaim : Type := mkSoftClaim
  { SoftClaim_ID : string; SoftClaim_GPU : Z; SoftClaim_TokenHash : string;
    SoftClaim_AuthorizationID : string; SoftClaim_Holder : string;
    SoftClaim_CreatedAt : time; SoftClaim_UpdatedAt : time }.

Record Lease : Type := mkLease
  { Lease_ID : string; Lease_GPU : Z; Lease_Mode : string; Lease_TokenHash : string;
    Lease_Holder : string; Lease_UID : Z; Lease_GID : Z; Lease_Command : list string;
    Lease_RootPID : Z; Lease_CgroupPath : string; Lease_CgroupRel : string;
    Lease_ContainerID : string; Lease_Namespace : string; Lease_CreatedAt : time;
    Lease_ExpiresAt : time; Lease_Active : bool }.

Record BypassRule : Type := mkBypassRule
  { BypassRule_ID : string; BypassRule_Type : string; BypassRule_PID : Z;
    BypassRule_StartTime : Z; BypassRule_BootID : string; BypassRule_Command : string;
    BypassRule_UID : Z; BypassRule_Reason : string; BypassRule_CreatedAt : time;
    BypassRule_ExpiresAt : time; BypassRule_Revoked : bool }.

Record AuditEvent : Type := mkAuditEvent
  { AuditEvent_Time : time; AuditEvent_Kind : string; AuditEvent_Message : string;
    AuditEvent_GPU : Z; AuditEvent_PID : Z; AuditEvent_LeaseID : string;
    AuditEvent_User : string }.

Record State : Type := mkState
  { State_ManagedKeys : bool; State_KeySnapshotID : string; State_Tokens : list Token;
    State_Reservations : list Reservation; State_Authorizations : list Authorization;
    State_SoftClaims : list SoftClaim; State_Leases : list Lease;
    State_Bypasses : list BypassRule; State_Audit : list AuditEvent }.

Record TokenView : Type := mkTokenView
  { TokenView_ID : string; TokenView_Key : string; TokenView_KeyStatus : string;
    TokenView_Name : string; TokenView_Mode : string; TokenView_Version : Z;
    TokenView_Managed : bool; TokenView_CreatedAt : time;
    TokenView_ExpiresAt : option time; TokenView_Revoked : bool }.

Record ReservationView : Type := mkReservationView
  { ReservationView_ID : string; ReservationView_GroupID : string;
    ReservationView_ExternalSessionID : string; ReservationView_GPU : Z;
    ReservationView_Holder : string; ReservationView_Purpose : string;
    ReservationView_CreatedAt : time; ReservationView_StartsAt : time;
    ReservationView_ExpiresAt : time; ReservationView_Active : bool;
    ReservationView_Revoked : bool }.

Record AuthorizationView : Type := mkAuthorizationView
  { AuthorizationView_ID : string; AuthorizationView_TokenID : string;
    AuthorizationView_Mode : string; AuthorizationView_TokenMode : string;
    AuthorizationView_Holder : string; AuthorizationView_UID : Z;
    AuthorizationView_GID : Z; AuthorizationView_Username : string;
    AuthorizationView_Command : list string; AuthorizationView_RootPID : Z;
    AuthorizationView_ContainerID : string;
    AuthorizationView_ContainerPattern : string; AuthorizationView_Namespace : string;
    AuthorizationView_CreatedAt : time; AuthorizationView_ExpiresAt : option time;
    AuthorizationView_Active : bool; AuthorizationView_Revoked : bool }.

Record SoftClaimView : Type := mkSoftClaimView
  { SoftClaimView_ID : string; SoftClaimView_GPU : Z;
    SoftClaimView_AuthorizationID : string; SoftClaimView_Holder : string;
    SoftClaimView_CreatedAt : time; SoftClaimView_UpdatedAt : time }.

Record Status : Type := mkStatus
  { Status_Now : time; Status_Tokens : list TokenView;
    Status_Reservations : list ReservationView;
    Status_Authorizations : list AuthorizationView;
    Status_SoftClaims : list SoftClaimView; Status_Leases : list Lease;
    Status_Bypasses : list BypassRule }.

Record KeyStatus : Type := mkKeyStatus
  { KeyStatus_Now : time; KeyStatus_Tokens : list TokenView;
    KeyStatus_Reservations : list ReservationView;
    KeyStatus_Authorizations : list AuthorizationView;
    KeyStatus_Bypasses : list BypassRule }.

Record RegisterResult : Type := mkRegisterResult
  { RegisterResult_Token : string; RegisterResult_TokenID : string;
    RegisterResult_GroupID : string; RegisterResult_Mode : string;
    RegisterResult_ReservationIDs : list string; RegisterResult_GPUs : list Z;
    RegisterResult_StartsAt : option time; RegisterResult_ExpiresAt : option time }.

Record PSRow : Type := mkPSRow
  { PSRow_ID : string; PSRow_GPU : string; PSRow_User : string; PSRow_Command : string }.

Record GPUSnapshot : Type := mkGPUSnapshot
  { GPUSnapshot_ID : Z; GPUSnapshot_Vendor : string; GPUSnapshot_Model : string;
    GPUSnapshot_UUID : string; GPUSnapshot_State : string;
    GPUSnapshot_MemoryUsedBytes : option Z; GPUSnapshot_MemoryTotalBytes : option Z;
    GPUSnapshot_UtilizationPct : option float64; GPUSnapshot_Processes : list GPUProcess;
    GPUSnapshot_Reservation : option ReservationView; GPUSnapshot_Claim : option SoftClaimView }.

Record NodeSnapshot : Type := mkNodeSnapshot
  { NodeSnapshot_Now : time; NodeSnapshot_Hostname : string; NodeSnapshot_GPUs : list GPUSnapshot;
    NodeSnapshot_Tokens : list TokenView; NodeSnapshot_Reservations : list ReservationView;
    NodeSnapshot_Authorizations : list AuthorizationView;
    NodeSnapshot_SoftClaims : list SoftClaimView; NodeSnapshot_Leases : list Lease;
    NodeSnapshot_Bypasses : list BypassRule; NodeSnapshot_PS : list PSRow }.

#[global] Instance GPUProcess_eq_dec : EqDecision GPUProcess.
Proof. solve_decision. Defined.
#[global] Instance Reservation_eq_dec : EqDecision Reservation.
Proof. solve_decision. Defined.
#[global] Instance Token_eq_dec : EqDecision Token.
Proof. solve_decision. Defined.

(** * Field assignments and zero values *)

Definition GPUProcess_zero : GPUProcess := mkGPUProcess 0 0 "" 0 false.

Definition ProcInfo_zero : ProcInfo := mkProcInfo 0 0 0 "" [] "" "" "" "".

Definition Token_set_Secret (v : string) (x : Token) : Token :=
  mkToken (Token_ID x) (Token_Hash x) v (Token_Name x) (Token_Mode x) (Token_Version x)
    (Token_Managed x) (Token_CreatedAt x) (Token_ExpiresAt x) (Token_Revoked x).

Definition Token_set_Mode (v : string) (x : Token) : Token :=
  mkToken (Token_ID x) (Token_Hash x) (Token_Secret x) (Token_Name x) v (Token_Version x)
    (Token_Managed x) (Token_CreatedAt x) (Token_ExpiresAt x) (Token_Revoked x).

Definition Token_set_Revoked (v : bool) (x : Token) : Token :=
  mkToken (Token_ID x) (Token_Hash x) (Token_Secret x) (Token_Name x) (Token_Mode x)
    (Token_Version x) (Token_Managed x) (Token_CreatedAt x) (Token_ExpiresAt x) v.

Definition Token_zero : Token := mkToken "" "" "" "" "" 0 false zeroTime zeroTime false.

Definition Reservation_set_GroupID (v : string) (x : Reservation) : Reservation :=
  mkReservation (Reservation_ID x) v (Reservation_ExternalSessionID x) (Reservation_GPU x)
    (Reservation_TokenHash x) (Reservation_Holder x) (Reservation_Purpose x)
    (Reservation_CreatedAt x) (Reservation_StartsAt x) (Reservation_ExpiresAt x)
    (Reservation_Active x) (Reservation_Revoked x).

Definition Reservation_set_TokenHash (v : string) (x : Reservation) : Reservation :=
  mkReservation (Reservation_ID x) (Reservation_GroupID x) (Reservation_ExternalSessionID x)
    (Reservation_GPU x) v (Reservation_Holder x) (Reservation_Purpose x)
    (Reservation_CreatedAt x) (Reservation_StartsAt x) (Reservation_ExpiresAt x)
    (Reservation_Active x) (Reservation_Revoked x).

Definition Reservation_set_Active (v : bool) (x : Reservation) : Reservation :=
  mkReservation (Reservation_ID x) (Reservation_GroupID x) (Reservation_ExternalSessionID x)
    (Reservation_GPU x) (Reservation_TokenHash x) (Reservation_Holder x)
    (Reservation_Purpose x) (Reservation_CreatedAt x) (Reservation_StartsAt x)
    (Reservation_ExpiresAt x) v (Reservation_Revoked x).

Definition Reservation_set_Revoked (v : bool) (x : Reservation) : Reservation :=
  mkReservation (Reservation_ID x) (Reservation_GroupID x) (Reservation_ExternalSessionID x)
    (Reservation_GPU x) (Reservation_TokenHash x) (Reservation_Holder x)
    (Reservation_Purpose x) (Reservation_CreatedAt x) (Reservation_StartsAt x)
    (Reservation_ExpiresAt x) (Reservation_Active x) v.

Definition Reservation_zero : Reservation := mkReservation "" "" "" 0 "" "" "" zeroTime zeroTime zeroTime false false.

Definition Authorization_set_TokenMode (v : string) (x : Authorization) : Authorization :=
  mkAuthorization (Authorization_ID x) (Authorization_Mode x) (Authorization_TokenHash x) v
    (Authorization_TokenVersion x) (Authorization_Holder x) (Authorization_UID x)
    (Authorization_GID x) (Authorization_Username x) (Authorization_Command x)
    (Authorization_RootPID x) (Authorization_CgroupPath x) (Authorization_CgroupRel x)
    (Authorization_ContainerID x) (Authorization_ContainerPattern x)
    (Authorization_Namespace x) (Authorization_CreatedAt x) (Authorization_ExpiresAt x)
    (Authorization_Active x) (Authorization_Revoked x).

Definition Authorization_set_Command (v : list string) (x : Authorization) : Authorization :=
  mkAuthorization (Authorization_ID x) (Authorization_Mode x) (Authorization_TokenHash x)
    (Authorization_TokenMode x) (Authorization_TokenVersion x) (Authorization_Holder x)
    (Authorization_UID x) (Authorization_GID x) (Authorization_Username x) v
    (Authorization_RootPID x) (Authorization_CgroupPath x) (Authorization_CgroupRel x)
    (Authorization_ContainerID x) (Authorization_ContainerPattern x)
    (Authorization_Namespace x) (Authorization_CreatedAt x) (Authorization_ExpiresAt x)
    (Authorization_Active x) (Authorization_Revoked x).

Definition Authorization_set_RootPID (v : Z) (x : Authorization) : Authorization :=
  mkAuthorization (Authorization_ID x) (Authorization_Mode x) (Authorization_TokenHash x)
    (Authorization_TokenMode x) (Authorization_TokenVersion x) (Authorization_Holder x)
    (Authorization_UID x) (Authorization_GID x) (Authorization_Username x)
    (Authorization_Command x) v (Authorization_CgroupPath x) (Authorization_CgroupRel x)
    (Authorization_ContainerID x) (Authorization_ContainerPattern x)
    (Authorization_Namespace x) (Authorization_CreatedAt x) (Authorization_ExpiresAt x)
    (Authorization_Active x) (Authorization_Revoked x).

Definition Authorization_set_Active (v : bool) (x : Authorization) : Authorization :=
  mkAuthorization (Authorization_ID x) (Authorization_Mode x) (Authorization_TokenHash x)
    (Authorization_TokenMode x) (Authorization_TokenVersion x) (Authorization_Holder x)
    (Authorization_UID x) (Authorization_GID x) (Authorization_Username x)
    (Authorization_Command x) (Authorization_RootPID x) (Authorization_CgroupPath x)
    (Authorization_CgroupRel x) (Authorization_ContainerID x)
    (Authorization_ContainerPattern x) (Authorization_Namespace x)
    (Authorization_CreatedAt x) (Authorization_ExpiresAt x) v (Authorization_Revoked x).

Definition Authorization_set_Revoked (v : bool) (x : Authorization) : Authorization :=
  mkAuthorization (Authorization_ID x) (Authorization_Mode x) (Authorization_TokenHash x)
    (Authorization_TokenMode x) (Authorization_TokenVersion x) (Authorization_Holder x)
    (Authorization_UID x) (Authorization_GID x) (Authorization_Username x)
    (Authorization_Command x) (Authorization_RootPID x) (Authorization_CgroupPath x)
    (Authorization_CgroupRel x) (Authorization_ContainerID x)
    (Authorization_ContainerPattern x) (Authorization_Namespace x)
    (Authorization_CreatedAt x) (Authorization_ExpiresAt x) (Authorization_Active x) v.

Definition Authorization_zero : Authorization := mkAuthorization "" "" "" "" 0 "" 0 0 "" [] 0 "" "" "" "" "" zeroTime zeroTime false false.

Definition SoftClaim_set_ID (v : string) (x : SoftClaim) : SoftClaim :=
  mkSoftClaim v (SoftClaim_GPU x) (SoftClaim_TokenHash x) (SoftClaim_AuthorizationID x)
    (SoftClaim_Holder x) (SoftClaim_CreatedAt x) (SoftClaim_UpdatedAt x).

Definition SoftClaim_set_CreatedAt (v : time) (x : SoftClaim) : SoftClaim :=
  mkSoftClaim (SoftClaim_ID x) (SoftClaim_GPU x) (SoftClaim_TokenHash x)
    (SoftClaim_AuthorizationID x) (SoftClaim_Holder x) v (SoftClaim_UpdatedAt x).

Definition SoftClaim_set_UpdatedAt (v : time) (x : SoftClaim) : SoftClaim :=
  mkSoftClaim (SoftClaim_ID x) (SoftClaim_GPU x) (SoftClaim_TokenHash x)
    (SoftClaim_AuthorizationID x) (SoftClaim_Holder x) (SoftClaim_CreatedAt x) v.

Definition SoftClaim_zero : SoftClaim := mkSoftClaim "" 0 "" "" "" zeroTime zeroTime.

Definition Lease_set_Command (v : list string) (x : Lease) : Lease :=
  mkLease (Lease_ID x) (Lease_GPU x) (Lease_Mode x) (Lease_TokenHash x) (Lease_Holder x)
    (Lease_UID x) (Lease_GID x) v (Lease_RootPID x) (Lease_CgroupPath x)
    (Lease_CgroupRel x) (Lease_ContainerID x) (Lease_Namespace x) (Lease_CreatedAt x)
    (Lease_ExpiresAt x) (Lease_Active x).

Definition Lease_set_ExpiresAt (v : time) (x : Lease) : Lease :=
  mkLease (Lease_ID x) (Lease_GPU x) (Lease_Mode x) (Lease_TokenHash x) (Lease_Holder x)
    (Lease_UID x) (Lease_GID x) (Lease_Command x) (Lease_RootPID x) (Lease_CgroupPath x)
    (Lease_CgroupRel x) (Lease_ContainerID x) (Lease_Namespace x) (Lease_CreatedAt x) v
    (Lease_Active x).

Definition Lease_set_Active (v : bool) (x : Lease) : Lease :=
  mkLease (Lease_ID x) (Lease_GPU x) (Lease_Mode x) (Lease_TokenHash x) (Lease_Holder x)
    (Lease_UID x) (Lease_GID x) (Lease_Command x) (Lease_RootPID x) (Lease_CgroupPath x)
    (Lease_CgroupRel x) (Lease_ContainerID x) (Lease_Namespace x) (Lease_CreatedAt x)
    (Lease_ExpiresAt x) v.

Definition Lease_zero : Lease := mkLease "" 0 "" "" "" 0 0 [] 0 "" "" "" "" zeroTime zeroTime false.

Definition BypassRule_set_Revoked (v : bool) (x : BypassRule) : BypassRule :=
  mkBypassRule (BypassRule_ID x) (BypassRule_Type x) (BypassRule_PID x) (BypassRule_StartTime x)
    (BypassRule_BootID x) (BypassRule_Command x) (BypassRule_UID x)
    (BypassRule_Reason x) (BypassRule_CreatedAt x) (BypassRule_ExpiresAt x) v.

Definition BypassRule_zero : BypassRule := mkBypassRule "" "" 0 0 "" "" 0 "" zeroTime zeroTime false.

Definition State_set_Tokens (v : list Token) (x : State) : State :=
  mkState (State_ManagedKeys x) (State_KeySnapshotID x) v (State_Reservations x)
    (State_Authorizations x) (State_SoftClaims x) (State_Leases x) (State_Bypasses x)
    (State_Audit x).

Definition State_set_Reservations (v : list Reservation) (x : State) : State :=
  mkState (State_ManagedKeys x) (State_KeySnapshotID x) (State_Tokens x) v
    (State_Authorizations x) (State_SoftClaims x) (State_Leases x) (State_Bypasses x)
    (State_Audit x).

Definition State_set_Authorizations (v : list Authorization) (x : State) : State :=
  mkState (State_ManagedKeys x) (State_KeySnapshotID x) (State_Tokens x)
    (State_Reservations x) v (State_SoftClaims x) (State_Leases x) (State_Bypasses x)
    (State_Audit x).

Definition State_set_SoftClaims (v : list SoftClaim) (x : State) : State :=
  mkState (State_ManagedKeys x) (State_KeySnapshotID x) (State_Tokens x)
    (State_Reservations x) (State_Authorizations x) v (State_Leases x)
    (State_Bypasses x) (State_Audit x).

Definition State_set_Leases (v : list Lease) (x : State) : State :=
  mkState (State_ManagedKeys x) (State_KeySnapshotID x) (State_Tokens x)
    (State_Reservations x) (State_Authorizations x) (State_SoftClaims x) v
    (State_Bypasses x) (State_Audit x).

Definition State_set_Bypasses (v : list BypassRule) (x : State) : State :=
  mkState (State_ManagedKeys x) (State_KeySnapshotID x) (State_Tokens x)
    (State_Reservations x) (State_Authorizations x) (State_SoftClaims x)
    (State_Leases x) v (State_Audit x).

Definition State_set_Audit (v : list AuditEvent) (x : State) : State :=
  mkState (State_ManagedKeys x) (State_KeySnapshotID x) (State_Tokens x)
    (State_Reservations x) (State_Authorizations x) (State_SoftClaims x)
    (State_Leases x) (State_Bypasses x) v.

Definition State_zero : State := mkState false "" [] [] [] [] [] [] [].

Definition TokenView_set_Key (v : string) (x : TokenView) : TokenView :=
  mkTokenView (TokenView_ID x) v (TokenView_KeyStatus x) (TokenView_Name x) (TokenView_Mode x)
    (TokenView_Version x) (TokenView_Managed x) (TokenView_CreatedAt x)
    (TokenView_ExpiresAt x) (TokenView_Revoked x).

Definition TokenView_set_KeyStatus (v : string) (x : TokenView) : TokenView :=
  mkTokenView (TokenView_ID x) (TokenView_Key x) v (TokenView_Name x) (TokenView_Mode x)
    (TokenView_Version x) (TokenView_Managed x) (TokenView_CreatedAt x)
    (TokenView_ExpiresAt x) (TokenView_Revoked x).

(** * Reservation windows *)

Definition ReservationStartsAt (reservation : Reservation) : time :=
  if negb (IsZero (Reservation_StartsAt reservation))
  then Reservation_StartsAt reservation
  else Reservation_CreatedAt reservation.

Definition ReservationActiveAt (reservation : Reservation) (now : time) : bool :=
  Reservation_Active reservation &&
  negb (Reservation_Revoked reservation) &&
  negb (Before now (ReservationStartsAt reservation)) &&
  Before now (Reservation_ExpiresAt reservation).

Definition ReservationOverlaps (reservation : Reservation) (startsAt expiresAt : time) : bool :=
  if negb (Reservation_Active reservation) || Reservation_Revoked reservation then false
  else Before (ReservationStartsAt reservation) expiresAt &&
       Before startsAt (Reservation_ExpiresAt reservation).
