(* ===== verification/StoreBounds.v ===== *)
(** internal/store/store.go: the limits on persisted state and the pure checks
    and conversions the store's methods share. *)

From S2P Require Export Model GoString Crypto.

(** * Limits *)

Definition DefaultTokenTTL : duration := 2 * Hour.
Definition MaxTokenTTL : duration := 24 * Hour.
Definition DefaultHardTTL : duration := 2 * Hour.
Definition MaxHardTTL : duration := 30 * 24 * Hour.
Definition NoTTLMaximum : duration := 0.
Definition maxAuditEvents : Z := 1000.
Definition maxAuditLogBytes : Z := Z.shiftl 10 20.
Definition maxStateFileBytes : Z := Z.shiftl 64 20.
Definition rootKeyHexBytes : Z := 32.
Definition maxActiveTokensPerHolder : Z := 8.
Definition maxTotalTokens : Z := 4096.
Definition maxTotalReservations : Z := 4096.
Definition maxTotalAuthorizations : Z := 4096.
Definition maxTotalSoftClaims : Z := 4096.
Definition maxTotalLeases : Z := 4096.
Definition maxTotalBypasses : Z := 1024.
Definition maxActiveAuthorizationsPerToken : Z := 64.
Definition maxGPUIndex : Z := 1023.
Definition maxPersistedValueBytes : Z := 4096.
Definition maxPersistedCommandArgs : Z := 1024.
Definition maxPersistedCommandBytes : Z := Z.shiftl 256 10.
Definition maxViewCommandArgs : Z := 128.
Definition maxViewCommandBytes : Z := Z.shiftl 16 10.
Definition maxAuditMessageBytes : Z := Z.shiftl 16 10.

(** * Sentinel errors *)

Definition errInvalidRootKey : string := "invalid root key".
Definition errTokenExpired : string := "token expired".
Definition errTokenRevoked : string := "token revoked".
Definition errTokenNotFound : string := "token not found".
Definition ErrInvalidRootKey : error := ErrorString errInvalidRootKey.
Definition ErrTokenExpired : error := ErrorString errTokenExpired.
Definition ErrTokenRevoked : error := ErrorString errTokenRevoked.
Definition ErrTokenNotFound : error := ErrorString errTokenNotFound.

(** * Time and mode helpers *)

Definition HashToken (token : string) : string :=
  HexEncode (Sum256 (bytes_of_string token)).

Definition timeIsSet (value : time) : bool := negb (IsZero value).

Definition timePtrIfSet (value : time) : option time :=
  if IsZero value then None else Some value.

Definition NormalizeTokenMode (mode : string) : string :=
  let mode := TrimSpace (ToLower mode) in
  if mode =s "" then TokenModeClaimed else mode.

Definition normalizeHolder (holder : string) : string :=
  let holder := ToLower (TrimSpace holder) in
  if holder =s "" then "anonymous" else holder.

Definition tokenExpired (token : Token) (now : time) : bool :=
  timeIsSet (Token_ExpiresAt token) && negb (Before now (Token_ExpiresAt token)).

Definition tokenActiveAt (token : Token) (now : time) : bool :=
  negb (Token_Revoked token) && negb (tokenExpired token now).

Definition authorizationExpired (authorization : Authorization) (now : time) : bool :=
  timeIsSet (Authorization_ExpiresAt authorization) &&
  negb (Before now (Authorization_ExpiresAt authorization)).

Definition authorizationActiveAt (authorization : Authorization) (now : time) : bool :=
  Authorization_Active authorization && negb (Authorization_Revoked authorization) &&
  negb (authorizationExpired authorization now).

(** [ParseTTL]: the default for a blank text, otherwise a positive duration
    within [max], where a [max] of zero or less sets no maximum. *)
Definition ParseTTL (value : string) (def max : duration) : error + duration :=
  if TrimSpace value =s "" then inr def
  else match ParseDuration value with
       | inl err => inl err
       | inr ttl =>
           if ttl <=? 0 then inl (ErrorString "ttl must be positive")
           else if (NoTTLMaximum <? max) && (max <? ttl)
           then inl (Errorf "ttl exceeds max %s" [AInt max])
           else inr ttl
       end.

(** * Validation of persisted values *)

Definition checkTotalCapacity (kind : string) (current adding maximum : Z) : option error :=
  if (maximum <? adding) || (maximum - adding <? current)
  then Some (Errorf "%s limit exceeded: adding %d to %d would exceed maximum %d"
                    [AStr kind; AInt adding; AInt current; AInt maximum])
  else None.

Fixpoint validatePersistedValues (kind : string) (values : list string) : option error :=
  match values with
  | [] => None
  | value :: rest =>
      if maxPersistedValueBytes <? slen value
      then Some (Errorf "%s value exceeds %d bytes" [AStr kind; AInt maxPersistedValueBytes])
      else validatePersistedValues kind rest
  end.

Fixpoint validateCommandBytes (total : Z) (command : list string) : option error :=
  match command with
  | [] => None
  | argument :: rest =>
      if maxPersistedCommandBytes - total <? slen argument
      then Some (Errorf "command exceeds %d bytes" [AInt maxPersistedCommandBytes])
      else validateCommandBytes (total + slen argument) rest
  end.

Definition validatePersistedCommand (command : list string) : option error :=
  if maxPersistedCommandArgs <? llen command
  then Some (Errorf "command has %d arguments; maximum is %d"
                    [AInt (llen command); AInt maxPersistedCommandArgs])
  else validateCommandBytes 0 command.

Definition validateGPUIndex (gpu : Z) : option error :=
  if (gpu <? 0) || (maxGPUIndex <? gpu)
  then Some (Errorf "gpu index %d is outside 0..%d" [AInt gpu; AInt maxGPUIndex])
  else None.

(** The first error of a sequence of checks. *)
Definition orElse (e1 e2 : option error) : option error :=
  match e1 with Some e => Some e | None => e2 end.

Definition wrapErr (format kind_id : string) (e : option error) : option error :=
  match e with Some e => Some (Errorf format [AStr kind_id; AErr e]) | None => None end.

Definition firstError {A} (check : A -> option error) : list A -> option error :=
  fix go l := match l with [] => None | x :: r => orElse (check x) (go r) end.

Definition checkCount (c : string * Z * Z) : option error :=
  let '(kind, current, maximum) := c in
  if maximum <? current
  then Some (Errorf "%s limit exceeded: %d is greater than maximum %d"
                    [AStr kind; AInt current; AInt maximum])
  else None.

Definition validateToken (token : Token) : option error :=
  validatePersistedValues "token"
    [Token_ID token; Token_Hash token; Token_Secret token; Token_Name token; Token_Mode token].

Definition validateReservation (reservation : Reservation) : option error :=
  orElse (wrapErr "reservation %q: %w" (Reservation_ID reservation)
            (validateGPUIndex (Reservation_GPU reservation)))
    (validatePersistedValues "reservation"
       [Reservation_ID reservation; Reservation_GroupID reservation;
        Reservation_ExternalSessionID reservation; Reservation_TokenHash reservation;
        Reservation_Holder reservation; Reservation_Purpose reservation]).

Definition validateAuthorization (authorization : Authorization) : option error :=
  orElse (validatePersistedValues "authorization"
            [Authorization_ID authorization; Authorization_Mode authorization;
             Authorization_TokenHash authorization; Authorization_TokenMode authorization;
             Authorization_Holder authorization; Authorization_Username authorization;
             Authorization_CgroupPath authorization; Authorization_CgroupRel authorization;
             Authorization_ContainerID authorization;
             Authorization_ContainerPattern authorization;
             Authorization_Namespace authorization])
    (wrapErr "authorization %q: %w" (Authorization_ID authorization)
       (validatePersistedCommand (Authorization_Command authorization))).

Definition validateSoftClaim (claim : SoftClaim) : option error :=
  orElse (wrapErr "soft claim %q: %w" (SoftClaim_ID claim)
            (validateGPUIndex (SoftClaim_GPU claim)))
    (validatePersistedValues "soft claim"
       [SoftClaim_ID claim; SoftClaim_TokenHash claim; SoftClaim_AuthorizationID claim;
        SoftClaim_Holder claim]).

Definition validateLease (lease : Lease) : option error :=
  orElse (wrapErr "lease %q: %w" (Lease_ID lease) (validateGPUIndex (Lease_GPU lease)))
  (orElse (validatePersistedValues "lease"
             [Lease_ID lease; Lease_Mode lease; Lease_TokenHash lease; Lease_Holder lease;
              Lease_CgroupPath lease; Lease_CgroupRel lease; Lease_ContainerID lease;
              Lease_Namespace lease])
     (wrapErr "lease %q: %w" (Lease_ID lease) (validatePersistedCommand (Lease_Command lease)))).

Definition validateBypass (bypass : BypassRule) : option error :=
  validatePersistedValues "bypass"
    [BypassRule_ID bypass; BypassRule_Type bypass; BypassRule_BootID bypass;
     BypassRule_Command bypass; BypassRule_Reason bypass].

Definition validateAuditEvent (event : AuditEvent) : option error :=
  orElse (validatePersistedValues "audit event"
            [AuditEvent_Kind event; AuditEvent_LeaseID event; AuditEvent_User event])
    (if maxAuditMessageBytes <? slen (AuditEvent_Message event)
     then Some (Errorf "audit event message exceeds %d bytes" [AInt maxAuditMessageBytes])
     else None).

Definition validateStateBounds (state : State) : option error :=
  orElse (validatePersistedValues "state" [State_KeySnapshotID state])
  (orElse (firstError checkCount
     [("token", llen (State_Tokens state), maxTotalTokens);
      ("reservation", llen (State_Reservations state), maxTotalReservations);
      ("authorization", llen (State_Authorizations state), maxTotalAuthorizations);
      ("soft claim", llen (State_SoftClaims state), maxTotalSoftClaims);
      ("lease", llen (State_Leases state), maxTotalLeases);
      ("bypass", llen (State_Bypasses state), maxTotalBypasses);
      ("audit event", llen (State_Audit state), maxAuditEvents)])
  (orElse (firstError validateToken (State_Tokens state))
  (orElse (firstError validateReservation (State_Reservations state))
  (orElse (firstError validateAuthorization (State_Authorizations state))
  (orElse (firstError validateSoftClaim (State_SoftClaims state))
  (orElse (firstError validateLease (State_Leases state))
  (orElse (firstError validateBypass (State_Bypasses state))
     (firstError validateAuditEvent (State_Audit state))))))))).

(** * Copies and views *)

Definition cloneState (state : State) : State :=
  {| State_ManagedKeys := State_ManagedKeys state;
     State_KeySnapshotID := State_KeySnapshotID state;
     State_Tokens := [] ++ State_Tokens state;
     State_Reservations := [] ++ State_Reservations state;
     State_Authorizations :=
       map (fun a => Authorization_set_Command ([] ++ Authorization_Command a) a)
         ([] ++ State_Authorizations state);
     State_SoftClaims := [] ++ State_SoftClaims state;
     State_Leases :=
       map (fun l => Lease_set_Command ([] ++ Lease_Command l) l) ([] ++ State_Leases state);
     State_Bypasses := [] ++ State_Bypasses state;
     State_Audit := [] ++ State_Audit state |}.

Definition cloneEnforcementState (state : State) : State :=
  {| State_ManagedKeys := State_ManagedKeys state;
     State_KeySnapshotID := State_KeySnapshotID state;
     State_Tokens := map (Token_set_Secret "") ([] ++ State_Tokens state);
     State_Reservations := [] ++ State_Reservations state;
     State_Authorizations :=
       map (Authorization_set_Command []) ([] ++ State_Authorizations state);
     State_SoftClaims := [] ++ State_SoftClaims state;
     State_Leases := map (Lease_set_Command []) ([] ++ State_Leases state);
     State_Bypasses := [] ++ State_Bypasses state;
     State_Audit := [] |}.

(** The loop of [boundedViewCommand] with its output so far and the bytes left. *)
Fixpoint boundedViewLoop (command out : list string) (remaining : Z) : list string :=
  match command with
  | [] => out
  | argument :: rest =>
      if (maxViewCommandArgs <=? llen out) || (remaining <=? 0) then out
      else
        let argument := if remaining <? slen argument
                        then stake (Z.to_nat remaining) argument else argument in
        boundedViewLoop rest (out ++ [argument]) (remaining - slen argument)
  end.

Definition boundedViewCommand (command : list string) : list string :=
  boundedViewLoop command [] maxViewCommandBytes.

Definition authorizationView (authorization : Authorization) (tokenID : string)
    : AuthorizationView :=
  {| AuthorizationView_ID := Authorization_ID authorization;
     AuthorizationView_TokenID := tokenID;
     AuthorizationView_Mode := Authorization_Mode authorization;
     AuthorizationView_TokenMode := NormalizeTokenMode (Authorization_TokenMode authorization);
     AuthorizationView_Holder := Authorization_Holder authorization;
     AuthorizationView_UID := Authorization_UID authorization;
     AuthorizationView_GID := Authorization_GID authorization;
     AuthorizationView_Username := Authorization_Username authorization;
     AuthorizationView_Command := boundedViewCommand (Authorization_Command authorization);
     AuthorizationView_RootPID := Authorization_RootPID authorization;
     AuthorizationView_ContainerID := Authorization_ContainerID authorization;
     AuthorizationView_ContainerPattern := Authorization_ContainerPattern authorization;
     AuthorizationView_Namespace := Authorization_Namespace authorization;
     AuthorizationView_CreatedAt := Authorization_CreatedAt authorization;
     AuthorizationView_ExpiresAt := timePtrIfSet (Authorization_ExpiresAt authorization);
     AuthorizationView_Active := Authorization_Active authorization;
     AuthorizationView_Revoked := Authorization_Revoked authorization |}.

(** A Go [map[string]string] read with its zero value for a missing key. *)
Definition lookup_string (m : gmap string string) (k : string) : string :=
  default EmptyString (m !! k).
(** A Go [map[string]bool] used as a set. *)
Definition mem_bool (m : gmap string bool) (k : string) : bool := default false (m !! k).

Definition reservationGroupID (reservation : Reservation)
    (tokenIDsByHash : gmap string string) : string :=
  if Reservation_GroupID reservation <>s ""
  then Reservation_GroupID reservation
  else lookup_string tokenIDsByHash (Reservation_TokenHash reservation).

Definition liveReservationTokenHashes (reservations : list Reservation) (now : time)
    : gmap string bool :=
  foldl (fun hashes reservation =>
    if Reservation_Active reservation && negb (Reservation_Revoked reservation) &&
       Before now (Reservation_ExpiresAt reservation) &&
       (Reservation_TokenHash reservation <>s "")
    then <[Reservation_TokenHash reservation := true]> hashes
    else hashes) ∅ reservations.

(** A Go [map[int]bool] filled with the elements of a slice. *)
Definition gpuSet (gpus : list Z) : gmap Z bool :=
  foldl (fun want gpu => <[gpu := true]> want) ∅ gpus.
Definition mem_gpu (m : gmap Z bool) (k : Z) : bool := default false (m !! k).

Definition sameReservationRequest (existing : list Reservation) (name purpose : string)
    (gpus : list Z) (startsAt expiresAt : time) : bool :=
  if negb (llen existing =? llen gpus) || (llen existing =? 0) then false
  else
    let want := gpuSet gpus in
    forallb (fun reservation =>
      negb (negb (mem_gpu want (Reservation_GPU reservation)) ||
            negb (EqualFold (TrimSpace (Reservation_Holder reservation)) (TrimSpace name)) ||
            (TrimSpace (Reservation_Purpose reservation) <>s TrimSpace purpose) ||
            negb (TimeEqual (ReservationStartsAt reservation) startsAt) ||
            negb (TimeEqual (Reservation_ExpiresAt reservation) expiresAt))) existing.
