(* ===== verification/StoreFS.v ===== *)
(** internal/store/store.go: the receiver of the store's methods, and the file
    operations under it: reading and atomically replacing the state file, the
    root key file, and the rotated audit log.

    The operating system is an oracle: [w_os n] says whether the [n]-th system
    call of the run fails, with what error, and after how many bytes of a write.  A file is what [fstat] and
    [read] report of it.  encoding/json is the interface [JSON]. *)

From S2P Require Export StoreBounds.

(** * encoding/json, a parameter

    [UnmarshalState data s] is [json.Unmarshal(data, &s)]: like the Go
    function it decodes into the value it is given, and may leave that value
    partly decoded when it fails. *)
Class JSON : Type := {
  MarshalState : State -> error + string;
  UnmarshalState : string -> State -> option error * State;
  MarshalAuditEvent : AuditEvent -> error + string
}.

Record File : Type := mkFile
  { file_regular : bool; file_perm : Z; file_data : string }.

(** The paths of [config.Config] the store uses. *)
Record StoreConfig : Type := mkStoreConfig
  { cfg_StatePath : string; cfg_RootKeyPath : string; cfg_AuditLog : string }.

(** [Store], and the part of the machine its methods read and change. *)
Record Store : Type := mkStore
  { s_cfg : StoreConfig;
    s_state : State;
    s_committed : State;
    s_loaded : bool;
    w_state_file : option File;
    w_root_key_file : option File;
    w_audit_log : option File;
    w_audit_backup : option File;
    w_os : nat -> option (error * nat);
    w_calls : nat;
    w_rand : nat -> Z;
    w_drawn : nat }.

Definition set_state (st : State) (s : Store) : Store :=
  mkStore (s_cfg s) st (s_committed s) (s_loaded s) (w_state_file s) (w_root_key_file s)
    (w_audit_log s) (w_audit_backup s) (w_os s) (w_calls s) (w_rand s) (w_drawn s).
Definition set_committed (st : State) (s : Store) : Store :=
  mkStore (s_cfg s) (s_state s) st (s_loaded s) (w_state_file s) (w_root_key_file s)
    (w_audit_log s) (w_audit_backup s) (w_os s) (w_calls s) (w_rand s) (w_drawn s).
Definition set_loaded (b : bool) (s : Store) : Store :=
  mkStore (s_cfg s) (s_state s) (s_committed s) b (w_state_file s) (w_root_key_file s)
    (w_audit_log s) (w_audit_backup s) (w_os s) (w_calls s) (w_rand s) (w_drawn s).
Definition set_state_file (f : option File) (s : Store) : Store :=
  mkStore (s_cfg s) (s_state s) (s_committed s) (s_loaded s) f (w_root_key_file s)
    (w_audit_log s) (w_audit_backup s) (w_os s) (w_calls s) (w_rand s) (w_drawn s).
Definition set_root_key_file (f : option File) (s : Store) : Store :=
  mkStore (s_cfg s) (s_state s) (s_committed s) (s_loaded s) (w_state_file s) f
    (w_audit_log s) (w_audit_backup s) (w_os s) (w_calls s) (w_rand s) (w_drawn s).
Definition set_audit_files (log backup : option File) (s : Store) : Store :=
  mkStore (s_cfg s) (s_state s) (s_committed s) (s_loaded s) (w_state_file s)
    (w_root_key_file s) log backup (w_os s) (w_calls s) (w_rand s) (w_drawn s).
Definition set_calls (n : nat) (s : Store) : Store :=
  mkStore (s_cfg s) (s_state s) (s_committed s) (s_loaded s) (w_state_file s)
    (w_root_key_file s) (w_audit_log s) (w_audit_backup s) (w_os s) n (w_rand s) (w_drawn s).
Definition set_drawn (n : nat) (s : Store) : Store :=
  mkStore (s_cfg s) (s_state s) (s_committed s) (s_loaded s) (w_state_file s)
    (w_root_key_file s) (w_audit_log s) (w_audit_backup s) (w_os s) (w_calls s) (w_rand s) n.

(** * The operating system *)

(** One system call that has no result beside its success. *)
Definition os : M Store unit := fun s =>
  let s' := set_calls (S (w_calls s)) s in
  match w_os s (w_calls s) with
  | Some (e, _) => (inl e, s')
  | None => (inr tt, s')
  end.

(** [writeAll]: what came to be in the file of the data, and the error. *)
Definition writeAll (data : string) : M Store (string * option error) := fun s =>
  let s' := set_calls (S (w_calls s)) s in
  match w_os s (w_calls s) with
  | Some (e, n) => (inr (stake n data, Some e), s')
  | None => (inr (data, None), s')
  end.

(** [open] of a path that may not exist. *)
Definition os_Open (f : option File) : M Store File :=
  os ;; match f with Some file => ret file | None => throw ErrNotExist end.

(** [lstat], [None] standing for an [os.ErrNotExist] of an absent file. *)
Definition os_Lstat (f : option File) : M Store File := os_Open f.

(** [strings.TrimSpace(string(data)) == ""]. *)
Definition blank (data : string) : bool := TrimSpace data =s "".

Definition permOpenToOthers (f : File) : bool := negb (Z.land (file_perm f) 63 =? 0).

(** [readStateFile]: open without following links, refuse what is not a
    private regular file, and read it up to the size limit. *)
Definition readStateFile : M Store string :=
  s ← get;
  let path := cfg_StatePath (s_cfg s) in
  f ← os_Open (w_state_file s);
  os ;;                                        (* file.Stat *)
  fail_if (negb (file_regular f)) (Errorf "state %s is not a regular file" [AStr path]) ;;
  fail_if (permOpenToOthers f)
    (Errorf "state %s permissions %04o allow group or other access"
            [AStr path; AInt (file_perm f)]) ;;
  os ;;                                        (* io.ReadAll *)
  fail_if (maxStateFileBytes <? slen (file_data f))
    (Errorf "state %s exceeds %d-byte limit" [AStr path; AInt maxStateFileBytes]) ;;
  ret (file_data f).

(** [syncDir]: open, fsync and close the directory. *)
Definition syncDir : M Store unit := os ;; os ;; os.

(** [writeSyncedTempFile]: create, chmod, write, fsync and close the temporary
    file.  Its content is nowhere visible before the rename; a failing close
    is reported when nothing failed before it. *)
Definition writeSyncedTempFile (data : string) : M Store unit :=
  os ;;                                        (* os.CreateTemp *)
  r ← try (os ;; os ;; os) ;                   (* Chmod, writeAll, Sync *)
  c ← try os ;                                 (* deferred Close *)
  match r, c with
  | inl e, _ => try os ;; throw e              (* deferred os.Remove *)
  | inr _, inl e => try os ;; throw e
  | inr _, inr _ => ret tt
  end.

(** [writeFileAtomically] on the state file: the boolean says whether the
    rename took place, the error what failed before or after it.  The
    temporary file's deferred removal ends every path that created it. *)
Definition writeFileAtomically (data : string) : M Store (bool * option error) :=
  w ← try (writeSyncedTempFile data);
  match w with
  | inl e => ret (false, Some e)
  | inr _ =>
      r ← try os ;                             (* os.Rename *)
      match r with
      | inl e => try os ;; ret (false, Some e)
      | inr _ =>
          modify (set_state_file (Some (mkFile true 384 data))) ;;   (* mode 0600 *)
          d ← try syncDir ;
          try os ;; ret (true, match d with inl e => Some e | inr _ => None end)
      end
  end.

(** * Randomness *)

(** [randomHex(n)]: the next [n] random bytes in hexadecimal. *)
Definition randomHex (n : nat) : M Store string := fun s =>
  (inr (HexEncode (map (fun i => w_rand s (w_drawn s + i)%nat mod 256) (seq 0 n))),
   set_drawn (w_drawn s + n) s).

Definition newID (prefix : string) : M Store string :=
  h ← randomHex 8; ret (prefix +:+ h).

Definition NewLeaseID : M Store string := newID "lease_".
Definition NewReservationID : M Store string := newID "res_".
Definition NewAuthorizationID : M Store string := newID "auth_".
Definition NewSoftClaimID : M Store string := newID "claim_".
Definition NewBypassID : M Store string := newID "bp_".

(** * The root key *)

(** The checks of [readRootKeyFile] on the bytes it read. *)
Definition parseRootKey (path data : string) : error + string :=
  if 3 + rootKeyHexBytes * 2 + 1 <? slen data
  then inl (Errorf "root key %s has invalid length" [AStr path])
  else
    let key := TrimSuffix data (String (byte_of 10) EmptyString) in
    if negb (slen key =? 3 + rootKeyHexBytes * 2) || negb (HasPrefix key "rk_")
    then inl (Errorf "root key %s has invalid format" [AStr path])
    else match HexDecode (sdrop 3 key) with
         | Some decoded =>
             if negb (llen decoded =? rootKeyHexBytes)
             then inl (Errorf "root key %s has invalid format" [AStr path])
             else inr key
         | None => inl (Errorf "root key %s has invalid format" [AStr path])
         end.

Definition readRootKeyFile : M Store string :=
  s ← get;
  let path := cfg_RootKeyPath (s_cfg s) in
  f ← os_Open (w_root_key_file s);
  os ;;                                        (* file.Stat *)
  fail_if (negb (file_regular f)) (Errorf "root key %s is not a regular file" [AStr path]) ;;
  fail_if (permOpenToOthers f)
    (Errorf "root key %s permissions %04o allow group or other access"
            [AStr path; AInt (file_perm f)]) ;;
  os ;;                                        (* io.ReadAll of at most one byte too many *)
  match parseRootKey path (stake 69 (file_data f)) with
  | inl e => throw e
  | inr key => ret key
  end.

(** [createRootKeyFile]: link a synced temporary file to the path, which fails
    when the path exists. *)
Definition createRootKeyFile (data : string) : M Store unit :=
  writeSyncedTempFile data ;;
  r ← try (os ;;                               (* os.Link *)
           (s ← get;
            match w_root_key_file s with
            | Some _ => throw ErrExist
            | None => modify (set_root_key_file (Some (mkFile true 384 data)))
            end) ;;
           syncDir ;; os ;; syncDir) ;         (* sync, os.Remove, sync *)
  try os ;;                                    (* deferred os.Remove *)
  match r with inl e => throw e | inr _ => ret tt end.

Definition ReadOrCreateRootKey : M Store string :=
  r ← try readRootKeyFile;
  match r with
  | inr key => ret key
  | inl err =>
      if negb (errors_Is err errNotExist) then throw err
      else
        h ← randomHex (Z.to_nat rootKeyHexBytes);
        let key := "rk_" +:+ h in
        os ;;                                  (* os.MkdirAll *)
        c ← try (createRootKeyFile (key +:+ String (byte_of 10) EmptyString));
        match c with
        | inr _ => ret key
        | inl err => if errors_Is err errExist then readRootKeyFile else throw err
        end
  end.

(** [ValidateRootKey]: compare the trimmed candidate and key in constant time. *)
Definition ValidateRootKey (candidate : string) : M Store bool :=
  key ← ReadOrCreateRootKey;
  let a := TrimSpace candidate in
  let b := TrimSpace key in
  if negb (slen a =? slen b) then ret false
  else ret (a =s b).

(** The guard the root operations open with. *)
Definition requireRootKey (rootKey : string) : M Store unit :=
  ok ← ValidateRootKey rootKey;
  fail_if (negb ok) ErrInvalidRootKey.

(** * The audit log *)

Definition rotateAuditLogIfNeeded (incomingBytes : Z) : M Store unit :=
  s ← get;
  let path := cfg_AuditLog (s_cfg s) in
  info ← try (os_Lstat (w_audit_log s));
  match info with
  | inl err => if errors_Is err errNotExist then ret tt else throw err
  | inr log =>
      fail_if (negb (file_regular log))
        (Errorf "audit log %s is not a regular file" [AStr path]) ;;
      if slen (file_data log) <=? maxAuditLogBytes - incomingBytes then ret tt
      else
        backupInfo ← try (os_Lstat (w_audit_backup s));
        match backupInfo with
        | inr backup =>
            fail_if (negb (file_regular backup))
              (Errorf "audit log backup %s is not a regular file" [AStr (path +:+ ".1")]) ;;
            r ← try os;                        (* os.Remove *)
            match r with
            | inl err => if errors_Is err errNotExist then ret tt else throw err
            | inr _ => modify (set_audit_files (w_audit_log s) None)
            end
        | inl err => if errors_Is err errNotExist then ret tt else throw err
        end ;;
        os ;; modify (set_audit_files None (Some log)) ;;        (* os.Rename *)
        os ;;                                                    (* os.Chmod *)
        modify (set_audit_files None
          (Some (mkFile (file_regular log) 384 (file_data log)))) ;;
        syncDir
  end.

Section audit.
Context `{JSON}.

(** One line per event. *)
Fixpoint auditLines (events : list AuditEvent) : error + string :=
  match events with
  | [] => inr EmptyString
  | event :: rest =>
      match MarshalAuditEvent event with
      | inl err => inl err
      | inr data =>
          match auditLines rest with
          | inl err => inl err
          | inr more => inr (data +:+ String (byte_of 10) EmptyString +:+ more)
          end
      end
  end.

(** [appendAuditLogs]: append the events' lines after rotating a full log. *)
Definition appendAuditLogs (events : list AuditEvent) : M Store unit :=
  s ← get;
  let path := cfg_AuditLog (s_cfg s) in
  if path =s "" then ret tt
  else
    os ;;                                      (* os.MkdirAll *)
    match auditLines events with
    | inl err => throw err
    | inr lines =>
        fail_if (maxAuditLogBytes <? slen lines)
          (Errorf "audit batch exceeds %d-byte log limit" [AInt maxAuditLogBytes]) ;;
        rotateAuditLogIfNeeded (slen lines) ;;
        os ;;                                  (* open, creating the file with mode 0600 *)
        s ← get;
        let log := default (mkFile true 384 "") (w_audit_log s) in
        modify (set_audit_files (Some log) (w_audit_backup s)) ;;
        os ;;                                  (* file.Stat *)
        fail_if (negb (file_regular log))
          (Errorf "audit log %s is not a regular file" [AStr path]) ;;
        os ;;                                  (* file.Chmod *)
        modify (set_audit_files (Some (mkFile true 384 (file_data log))) (w_audit_backup s)) ;;
        wrote ← writeAll lines;
        modify (set_audit_files (Some (mkFile true 384 (file_data log +:+ fst wrote)))
                                (w_audit_backup s)) ;;
        check (snd wrote) ;;
        os ;; os ;; syncDir                    (* Sync, Close *)
    end.

End audit.
