(* ===== verification/Store.v ===== *)
(** internal/store/store.go: loading, saving and the methods that change the
    persisted state one record at a time.

    Each method locks the store's mutex for its whole body, so the methods are
    atomic steps; a method is a value of the monad [M Store].  The clock
    readings a method takes itself ([time.Now()]) are arguments named [clock]. *)

From S2P Require Export StoreFS.

Section store.
Context `{JSON}.

(** * Loading and saving *)

Definition loadLocked : M Store unit :=
  s ← get;
  if s_loaded s then ret tt
  else
    r ← try readStateFile;
    match r with
    | inl err =>
        if errors_Is err errNotExist then
          modify (fun s => set_loaded true (set_committed State_zero (set_state State_zero s)))
        else throw err
    | inr data =>
        (if blank data then modify (set_state State_zero)
         else
           s ← get;
           let '(err, st) := UnmarshalState data (s_state s) in
           modify (set_state st) ;; check err) ;;
        s ← get;
        match validateStateBounds (s_state s) with
        | Some err => throw (Errorf "invalid persisted state: %w" [AErr err])
        | None =>
            modify (fun s => set_loaded true (set_committed (cloneState (s_state s)) s))
        end
    end.

(** The body of [saveLocked] before its deferred rollback. *)
Definition saveBody : M Store unit :=
  s ← get;
  check (validateStateBounds (s_state s)) ;;
  os ;;                                        (* os.MkdirAll *)
  match MarshalState (s_state s) with
  | inl err => throw err
  | inr data =>
      fail_if (maxStateFileBytes <? slen data)
        (Errorf "state exceeds %d-byte limit" [AInt maxStateFileBytes]) ;;
      w ← writeFileAtomically (data +:+ String (byte_of 10) EmptyString);
      let '(committedToDisk, err) := w : bool * option error in
      (if committedToDisk
       then modify (fun s => set_committed (cloneState (s_state s)) s) else ret tt) ;;
      check err
  end.

(** [saveLocked]: on an error the in-memory state returns to the last
    committed one. *)
Definition saveLocked : M Store unit :=
  r ← try saveBody;
  match r with
  | inl err => modify (fun s => set_state (cloneState (s_committed s)) s) ;; throw err
  | inr _ => ret tt
  end.

(** An assignment to fields of [s.state]. *)
Definition update (f : State -> State) : M Store unit :=
  modify (fun s => set_state (f (s_state s)) s).

(** * Reading *)

Definition Load : M Store unit := loadLocked.

Definition Snapshot : M Store State :=
  loadLocked ;; gets (fun s => cloneState (s_state s)).

Definition EnforcementSnapshot : M Store State :=
  loadLocked ;; gets (fun s => cloneEnforcementState (s_state s)).

(** The rows of [state] that [EnforcementSnapshotForToken] copies. *)
Definition tokenScope (tokenHash : string) (state : State) : State :=
  let authorizations :=
    map (Authorization_set_Command [])
      (filter (fun a => Authorization_TokenHash a = tokenHash) (State_Authorizations state)) in
  let allowedAuthorizationIDs :=
    foldl (fun ids a => <[Authorization_ID a := true]> ids) (∅ : gmap string bool)
      authorizations in
  {| State_ManagedKeys := false;
     State_KeySnapshotID := "";
     State_Tokens :=
       map (Token_set_Secret "")
         (filter (fun t => Token_Hash t = tokenHash) (State_Tokens state));
     State_Reservations :=
       filter (fun r => Reservation_TokenHash r = tokenHash) (State_Reservations state);
     State_Authorizations := authorizations;
     State_SoftClaims :=
       filter (fun c => SoftClaim_TokenHash c = tokenHash /\
                 mem_bool allowedAuthorizationIDs (SoftClaim_AuthorizationID c) = true)
         (State_SoftClaims state);
     State_Leases := [];
     State_Bypasses := [];
     State_Audit := [] |}.

Definition EnforcementSnapshotForToken (tokenHash : string) : M Store State :=
  fail_if (tokenHash =s "") (ErrorString "token hash is required") ;;
  loadLocked ;;
  gets (fun s => tokenScope tokenHash (s_state s)).

Definition ManagedKeysEnabled : M Store bool :=
  loadLocked ;; gets (fun s => State_ManagedKeys (s_state s)).

Definition ManagedTokenByID (id : string) (now : time) : M Store Token :=
  loadLocked ;;
  s ← get;
  match find (fun token => (Token_ID token =s TrimSpace id) && Token_Managed token &&
                negb (Token_Revoked token) && negb (tokenExpired token now))
             (State_Tokens (s_state s)) with
  | Some token => ret token
  | None => throw ErrTokenNotFound
  end.

(** [ValidateToken]: the token row, the hash of the secret, and the error the
    Go method returns beside them. *)
Definition ValidateToken (secret : string) (now : time)
    : M Store (Token * string * option error) :=
  let hash := HashToken (TrimSpace secret) in
  r ← try loadLocked;
  match r with
  | inl err => ret (Token_zero, hash, Some err)
  | inr _ =>
      s ← get;
      match find (fun token => Token_Hash token =s hash) (State_Tokens (s_state s)) with
      | None => ret (Token_zero, hash, Some ErrTokenNotFound)
      | Some token =>
          if Token_Revoked token then ret (token, hash, Some ErrTokenRevoked)
          else
            let token := Token_set_Mode (NormalizeTokenMode (Token_Mode token)) token in
            if timeIsSet (Token_ExpiresAt token) && negb (Before now (Token_ExpiresAt token))
            then ret (token, hash, Some ErrTokenExpired)
            else ret (token, hash, None)
      end
  end.

Definition viewOfToken (token : Token) : TokenView :=
  {| TokenView_ID := Token_ID token;
     TokenView_Key := "";
     TokenView_KeyStatus := "";
     TokenView_Name := Token_Name token;
     TokenView_Mode := NormalizeTokenMode (Token_Mode token);
     TokenView_Version := Token_Version token;
     TokenView_Managed := Token_Managed token;
     TokenView_CreatedAt := Token_CreatedAt token;
     TokenView_ExpiresAt := timePtrIfSet (Token_ExpiresAt token);
     TokenView_Revoked := Token_Revoked token |}.

Definition tokenView (secret : string) (now : time) : M Store TokenView :=
  r ← ValidateToken secret now;
  let '(token, _, err) := r : Token * string * option error in
  check err ;; ret (viewOfToken token).

(** * Leases, reservations and authorizations *)

Definition AddLease (lease : Lease) : M Store unit :=
  loadLocked ;;
  update (fun st => State_set_Leases (State_Leases st ++ [lease]) st) ;;
  saveLocked.

(** The index and row of the first element a loop's test accepts. *)
Definition findIndex {A} (f : A -> bool) : list A -> option (nat * A) :=
  fix go l := match l with
              | [] => None
              | x :: r => if f x then Some (0%nat, x)
                          else match go r with
                               | Some (i, y) => Some (S i, y)
                               | None => None
                               end
              end.

Definition UpdateLease (new : Lease) : M Store unit :=
  loadLocked ;;
  s ← get;
  match findIndex (fun l => Lease_ID l =s Lease_ID new) (State_Leases (s_state s)) with
  | Some (i, _) =>
      update (fun st => State_set_Leases (<[i := new]> (State_Leases st)) st) ;; saveLocked
  | None => throw (Errorf "lease %s not found" [AStr (Lease_ID new)])
  end.

Definition ReleaseLease (id : string) : M Store unit :=
  loadLocked ;;
  s ← get;
  match findIndex (fun l => Lease_ID l =s id) (State_Leases (s_state s)) with
  | Some (i, l) =>
      update (fun st => State_set_Leases
                (<[i := Lease_set_Active false l]> (State_Leases st)) st) ;; saveLocked
  | None => ret tt
  end.

Definition AddReservation (reservation : Reservation) : M Store unit :=
  loadLocked ;;
  s ← get;
  check (checkTotalCapacity "reservation" (llen (State_Reservations (s_state s))) 1
           maxTotalReservations) ;;
  update (fun st => State_set_Reservations (State_Reservations st ++ [reservation]) st) ;;
  saveLocked.

Definition ReleaseReservation (id : string) : M Store unit :=
  loadLocked ;;
  s ← get;
  match findIndex (fun r => Reservation_ID r =s id) (State_Reservations (s_state s)) with
  | Some (i, r) =>
      update (fun st => State_set_Reservations
                (<[i := Reservation_set_Active false r]> (State_Reservations st)) st) ;;
      saveLocked
  | None => ret tt
  end.

(** The rows counted by [checkActiveAuthorizationCapacityLocked]: those with
    the candidate's token, active, and not at the excluded index. *)
Definition countActiveAuthorizations (candidate : Authorization) (now : time)
    (excludeIndex : option nat) (rows : list Authorization) : Z :=
  llen (filter (fun p => let '(i, a) := (p : nat * Authorization) in
    negb (bool_decide (Some i = excludeIndex)) &&
    (Authorization_TokenHash a =s Authorization_TokenHash candidate) &&
    authorizationActiveAt a now = true) (imap pair rows)).

Definition checkActiveAuthorizationCapacity (state : State) (candidate : Authorization)
    (now : time) (excludeIndex : option nat) : option error :=
  if negb (authorizationActiveAt candidate now) then None
  else if maxActiveAuthorizationsPerToken <=?
          countActiveAuthorizations candidate now excludeIndex (State_Authorizations state)
  then Some (Errorf "active authorization limit reached for token: maximum %d"
                    [AInt maxActiveAuthorizationsPerToken])
  else None.

Definition AddAuthorization (authorization : Authorization) (clock : time) : M Store unit :=
  loadLocked ;;
  s ← get;
  check (checkTotalCapacity "authorization" (llen (State_Authorizations (s_state s))) 1
           maxTotalAuthorizations) ;;
  check (checkActiveAuthorizationCapacity (s_state s) authorization (UTC clock) None) ;;
  update (fun st => State_set_Authorizations
            (State_Authorizations st ++ [authorization]) st) ;;
  saveLocked.

Definition UpdateAuthorization (new : Authorization) (clock : time) : M Store unit :=
  loadLocked ;;
  s ← get;
  match findIndex (fun a => Authorization_ID a =s Authorization_ID new)
          (State_Authorizations (s_state s)) with
  | Some (i, _) =>
      check (checkActiveAuthorizationCapacity (s_state s) new (UTC clock) (Some i)) ;;
      update (fun st => State_set_Authorizations
                (<[i := new]> (State_Authorizations st)) st) ;;
      saveLocked
  | None => throw (Errorf "authorization %s not found" [AStr (Authorization_ID new)])
  end.

Definition ActivateAuthorization (id : string) (rootPID : Z) : M Store Authorization :=
  fail_if (rootPID <=? 0) (ErrorString "authorization root pid must be positive") ;;
  loadLocked ;;
  s ← get;
  match findIndex (fun a => Authorization_ID a =s id) (State_Authorizations (s_state s)) with
  | Some (i, authorization) =>
      fail_if (negb (Authorization_Active authorization) ||
               Authorization_Revoked authorization)
        (Errorf "authorization %s was revoked before activation" [AStr id]) ;;
      fail_if (negb (Authorization_RootPID authorization =? 0))
        (Errorf "authorization %s is already active" [AStr id]) ;;
      let activated := Authorization_set_RootPID rootPID authorization in
      update (fun st => State_set_Authorizations
                (<[i := activated]> (State_Authorizations st)) st) ;;
      saveLocked ;;
      ret activated
  | None => throw (Errorf "authorization %s not found" [AStr id])
  end.

Definition ReleaseAuthorization (id : string) : M Store unit :=
  loadLocked ;;
  s ← get;
  match findIndex (fun a => Authorization_ID a =s id) (State_Authorizations (s_state s)) with
  | Some (i, a) =>
      update (fun st => State_set_Authorizations
                (<[i := Authorization_set_Active false a]> (State_Authorizations st)) st) ;;
      saveLocked
  | None => ret tt
  end.

(** * Claims, bypasses and the audit history *)

Definition UpsertSoftClaim (claim : SoftClaim) (now : time) : M Store unit :=
  loadLocked ;;
  claim ← (if SoftClaim_ID claim =s ""
           then id ← NewSoftClaimID; ret (SoftClaim_set_ID id claim)
           else ret claim);
  let claim := if IsZero (SoftClaim_CreatedAt claim)
               then SoftClaim_set_CreatedAt (UTC now) claim else claim in
  let claim := SoftClaim_set_UpdatedAt (UTC now) claim in
  s ← get;
  match findIndex (fun c => (SoftClaim_GPU c =? SoftClaim_GPU claim) &&
                     (SoftClaim_TokenHash c =s SoftClaim_TokenHash claim))
          (State_SoftClaims (s_state s)) with
  | Some (i, c) =>
      let claim := SoftClaim_set_CreatedAt (SoftClaim_CreatedAt c)
                     (SoftClaim_set_ID (SoftClaim_ID c) claim) in
      update (fun st => State_set_SoftClaims (<[i := claim]> (State_SoftClaims st)) st) ;;
      saveLocked
  | None =>
      update (fun st => State_set_SoftClaims (State_SoftClaims st ++ [claim]) st) ;;
      saveLocked
  end.

Definition ReleaseSoftClaim (id : string) : M Store unit :=
  loadLocked ;;
  s ← get;
  if negb (existsb (fun c => SoftClaim_ID c =s id) (State_SoftClaims (s_state s)))
  then ret tt
  else
    update (fun st => State_set_SoftClaims
              (filter (fun c => (SoftClaim_ID c =s id) = false) (State_SoftClaims st)) st) ;;
    saveLocked.

Definition AddBypass (rule : BypassRule) : M Store unit :=
  loadLocked ;;
  s ← get;
  check (checkTotalCapacity "bypass" (llen (State_Bypasses (s_state s))) 1 maxTotalBypasses) ;;
  update (fun st => State_set_Bypasses (State_Bypasses st ++ [rule]) st) ;;
  saveLocked.

(** The last [n] elements of a slice: [l[len(l)-n:]] when it is longer. *)
Definition lastN {A} (n : Z) (l : list A) : list A :=
  if n <? llen l then drop (Z.to_nat (llen l - n)) l else l.

Definition AppendAudits (events : list AuditEvent) : M Store unit :=
  match events with
  | [] => ret tt
  | _ =>
      loadLocked ;;
      update (fun st => State_set_Audit (lastN maxAuditEvents (State_Audit st ++ events)) st) ;;
      saveLocked ;;
      appendAuditLogs events
  end.

Definition AppendAudit (event : AuditEvent) : M Store unit := AppendAudits [event].

End store.
