(* ===== verification/StoreRegister.v ===== *)
(** internal/store/store.go: issuing tokens and reservations, managed user keys,
    and revocation. *)

From S2P Require Export Store.

(** internal/protocol/protocol.go: the managed-key snapshot and its answer. *)
Record ManagedUserKey : Type := mkManagedUserKey
  { ManagedUserKey_ID : string; ManagedUserKey_Owner : string;
    ManagedUserKey_Version : Z; ManagedUserKey_Hash : string }.
Record ManagedUserKeySnapshot : Type := mkManagedUserKeySnapshot
  { Snapshot_SnapshotID : string; Snapshot_Keys : list ManagedUserKey }.
Record ManagedUserKeySyncResult : Type := mkManagedUserKeySyncResult
  { SyncResult_SnapshotID : string; SyncResult_Applied : Z; SyncResult_Managed : bool }.

(** [newToken]: a fresh secret and the row that stores its hash. *)
Definition newToken (mode name : string) (expiresAt now : time) : M Store (string * Token) :=
  h ← randomHex 24;
  let tokenSecret := "gk_" +:+ h in
  i ← randomHex 8;
  let name := TrimSpace name in
  ret (tokenSecret,
       {| Token_ID := "tok_" +:+ i;
          Token_Hash := HashToken tokenSecret;
          Token_Secret := tokenSecret;
          Token_Name := if name =s "" then "anonymous" else name;
          Token_Mode := NormalizeTokenMode mode;
          Token_Version := 0;
          Token_Managed := false;
          Token_CreatedAt := UTC now;
          Token_ExpiresAt := if IsZero expiresAt then zeroTime else UTC expiresAt;
          Token_Revoked := false |}).

(** The active tokens of a holder, as [checkTokenCapacityLocked] counts them. *)
Definition countActiveTokens (holder : string) (now : time) (tokens : list Token) : Z :=
  llen (filter (fun token => tokenActiveAt token now = true /\
                             normalizeHolder (Token_Name token) = holder) tokens).

Definition checkTokenCapacity (state : State) (candidate : Token) (now : time)
    : option error :=
  orElse (checkTotalCapacity "token" (llen (State_Tokens state)) 1 maxTotalTokens)
    (if negb (tokenActiveAt candidate now) then None
     else
       let holder := normalizeHolder (Token_Name candidate) in
       if maxActiveTokensPerHolder <=? countActiveTokens holder now (State_Tokens state)
       then Some (Errorf "active token limit reached for holder %q: maximum %d"
                         [AStr holder; AInt maxActiveTokensPerHolder])
       else None).

(** The first duplicate or refused element of the requested GPUs. *)
Fixpoint checkGPUs (valid : Z -> option error) (seen : gmap Z bool) (gpus : list Z)
    : option error :=
  match gpus with
  | [] => None
  | gpu :: rest =>
      match valid gpu with
      | Some err => Some err
      | None =>
          if mem_gpu seen gpu then Some (Errorf "duplicate gpu %d" [AInt gpu])
          else checkGPUs valid (<[gpu := true]> seen) rest
      end
  end.

(** The first existing reservation that overlaps a requested window. *)
Fixpoint findOverlap (gpus : list Z) (startsAt expiresAt : time)
    (existing : list Reservation) : option error :=
  match gpus with
  | [] => None
  | gpu :: rest =>
      match find (fun r => (Reservation_GPU r =? gpu) &&
                           ReservationOverlaps r startsAt expiresAt) existing with
      | Some r => Some (Errorf "gpu %d reservation overlaps %s"
                               [AInt gpu; AStr (Reservation_ID r)])
      | None => findOverlap rest startsAt expiresAt existing
      end
  end.

(** One new reservation row per requested GPU, each with a fresh id. *)
Fixpoint newReservations (groupID externalSessionID tokenHash holder purpose : string)
    (now startsAt expiresAt : time) (gpus : list Z) : M Store (list Reservation) :=
  match gpus with
  | [] => ret []
  | gpu :: rest =>
      id ← NewReservationID;
      more ← newReservations groupID externalSessionID tokenHash holder purpose
               now startsAt expiresAt rest;
      ret ({| Reservation_ID := id;
              Reservation_GroupID := groupID;
              Reservation_ExternalSessionID := externalSessionID;
              Reservation_GPU := gpu;
              Reservation_TokenHash := tokenHash;
              Reservation_Holder := holder;
              Reservation_Purpose := purpose;
              Reservation_CreatedAt := now;
              Reservation_StartsAt := startsAt;
              Reservation_ExpiresAt := expiresAt;
              Reservation_Active := true;
              Reservation_Revoked := false |} :: more)
  end.

Section register.
Context `{JSON}.

(** * Issuing tokens *)

Definition RegisterSoftToken (rootKey name : string) (now : time)
    : M Store (string * Token) :=
  requireRootKey rootKey ;;
  t ← newToken TokenModeClaimed name zeroTime now;
  let '(tokenSecret, token) := t : string * Token in
  loadLocked ;;
  s ← get;
  check (checkTokenCapacity (s_state s) token now) ;;
  update (fun st => State_set_Tokens (State_Tokens st ++ [token]) st) ;;
  saveLocked ;;
  ret (tokenSecret, token).

Definition RegisterToken (rootKey name ttlText : string) (now : time)
    : M Store (string * Token) :=
  match ParseTTL ttlText DefaultTokenTTL MaxTokenTTL with
  | inl err => throw err
  | inr ttl =>
      requireRootKey rootKey ;;
      t ← newToken TokenModeClaimed name (TimeAdd (UTC now) ttl) now;
      let '(tokenSecret, token) := t : string * Token in
      loadLocked ;;
      s ← get;
      check (checkTokenCapacity (s_state s) token now) ;;
      update (fun st => State_set_Tokens (State_Tokens st ++ [token]) st) ;;
      saveLocked ;;
      ret (tokenSecret, token)
  end.

(** * Reservations with a token of their own *)

Definition validNonNegative (gpu : Z) : option error :=
  if gpu <? 0 then Some (ErrorString "gpu must be >= 0") else None.

Definition RegisterScheduledReservationsWithSession
    (rootKey name purpose externalSessionID : string) (gpus : list Z)
    (startsAt expiresAt now : time) : M Store (string * Token * list Reservation) :=
  let startsAt := UTC startsAt in
  let expiresAt := UTC expiresAt in
  let now := UTC now in
  let startsAt := if IsZero startsAt then now else startsAt in
  fail_if (negb (After expiresAt startsAt))
    (ErrorString "reservation end must be after start") ;;
  fail_if (negb (After expiresAt now))
    (ErrorString "reservation end must be in the future") ;;
  fail_if (MaxHardTTL <? TimeSub expiresAt startsAt)
    (Errorf "reservation duration exceeds max %s" [AInt MaxHardTTL]) ;;
  fail_if (llen gpus =? 0) (ErrorString "at least one gpu is required") ;;
  check (checkTotalCapacity "reservation" 0 (llen gpus) maxTotalReservations) ;;
  check (checkGPUs validNonNegative ∅ gpus) ;;
  requireRootKey rootKey ;;
  t ← newToken TokenModeReserved name expiresAt now;
  let '(tokenSecret, token) := t : string * Token in
  reservations ← newReservations "" (TrimSpace externalSessionID) (Token_Hash token)
                   (Token_Name token) (TrimSpace purpose) now startsAt expiresAt gpus;
  loadLocked ;;
  s ← get;
  let externalSessionID := TrimSpace externalSessionID in
  let existingReservations :=
    if externalSessionID <>s ""
    then filter (fun r => Reservation_ExternalSessionID r = externalSessionID)
           (State_Reservations (s_state s))
    else [] in
  match existingReservations with
  | first :: _ =>
      let tokenHash := Reservation_TokenHash first in
      let existingToken :=
        default Token_zero (find (fun candidate => Token_Hash candidate =s tokenHash)
                                 (State_Tokens (s_state s))) in
      fail_if ((Token_ID existingToken =s "") || (Token_Secret existingToken =s ""))
        (ErrorString "existing reservation session has no recoverable key") ;;
      fail_if (negb (sameReservationRequest existingReservations name purpose gpus
                       startsAt expiresAt))
        (ErrorString "external session id was already used for a different reservation") ;;
      ret (Token_Secret existingToken, existingToken, existingReservations)
  | [] =>
      check (checkTokenCapacity (s_state s) token now) ;;
      check (checkTotalCapacity "reservation" (llen (State_Reservations (s_state s)))
               (llen reservations) maxTotalReservations) ;;
      check (findOverlap gpus startsAt expiresAt (State_Reservations (s_state s))) ;;
      update (fun st => State_set_Tokens (State_Tokens st ++ [token]) st) ;;
      update (fun st => State_set_Reservations (State_Reservations st ++ reservations) st) ;;
      saveLocked ;;
      ret (tokenSecret, token, reservations)
  end.

Definition RegisterScheduledReservations (rootKey name purpose : string) (gpus : list Z)
    (startsAt expiresAt now : time) : M Store (string * Token * list Reservation) :=
  RegisterScheduledReservationsWithSession rootKey name purpose "" gpus startsAt expiresAt now.

Definition RegisterHardReservations (rootKey name : string) (gpus : list Z)
    (ttlText : string) (now : time) : M Store (string * Token * list Reservation) :=
  match ParseTTL ttlText DefaultHardTTL MaxHardTTL with
  | inl err => throw err
  | inr ttl => RegisterScheduledReservations rootKey name "" gpus now (TimeAdd now ttl) now
  end.

(** * Managed user keys *)

(** The checks and rows of one snapshot key: its token appended to the managed
    tokens, with the owners, ids and hashes seen so far. *)
Record syncAcc : Type := mkSyncAcc
  { sa_managed : list Token; sa_byOwner : gmap string Token;
    sa_ids : gmap string bool; sa_hashes : gmap string bool }.

Definition syncKey (now : time) (acc : syncAcc) (key : ManagedUserKey) : error + syncAcc :=
  let id := TrimSpace (ManagedUserKey_ID key) in
  let owner := normalizeHolder (ManagedUserKey_Owner key) in
  let hash := ToLower (TrimSpace (ManagedUserKey_Hash key)) in
  if (id =s "") || (owner =s "") || (ManagedUserKey_Version key <? 1) ||
     negb (slen hash =? 64)
  then inl (ErrorString
    "managed key id, owner, positive version, and SHA-256 hash are required")
  else match HexDecode hash with
  | None => inl (ErrorString "managed key hash must be hexadecimal SHA-256")
  | Some _ =>
      if mem_bool (sa_ids acc) id || mem_bool (sa_hashes acc) hash
      then inl (ErrorString "managed key ids and hashes must be unique")
      else match sa_byOwner acc !! owner with
      | Some _ => inl (ErrorString "each owner may have only one managed key")
      | None =>
          let token :=
            {| Token_ID := id; Token_Hash := hash; Token_Secret := ""; Token_Name := owner;
               Token_Mode := TokenModeManaged; Token_Version := ManagedUserKey_Version key;
               Token_Managed := true; Token_CreatedAt := UTC now;
               Token_ExpiresAt := zeroTime; Token_Revoked := false |} in
          inr (mkSyncAcc (sa_managed acc ++ [token]) (<[owner := token]> (sa_byOwner acc))
                 (<[id := true]> (sa_ids acc)) (<[hash := true]> (sa_hashes acc)))
      end
  end.

Fixpoint syncKeys (now : time) (acc : syncAcc) (keys : list ManagedUserKey)
    : error + syncAcc :=
  match keys with
  | [] => inr acc
  | key :: rest =>
      match syncKey now acc key with
      | inl err => inl err
      | inr acc => syncKeys now acc rest
      end
  end.

(** The group id of a row that has none: its token's id, or a fresh group. *)
Definition withGroupID (oldTokenIDs : gmap string string) (reservation : Reservation)
    : M Store Reservation :=
  if Reservation_GroupID reservation =s "" then
    let old := lookup_string oldTokenIDs (Reservation_TokenHash reservation) in
    if old =s ""
    then h ← randomHex 8; ret (Reservation_set_GroupID ("grp_" +:+ h) reservation)
    else ret (Reservation_set_GroupID old reservation)
  else ret reservation.

(** A row attached to its holder's managed key, when the holder has one. *)
Definition attachToKey (byOwner : gmap string Token) (reservation : Reservation)
    : Reservation :=
  match byOwner !! normalizeHolder (Reservation_Holder reservation) with
  | Some token => Reservation_set_TokenHash (Token_Hash token) reservation
  | None => reservation
  end.

(** The loop over the reservations of [SyncManagedUserKeys]. *)
Fixpoint rebindReservations (oldTokenIDs : gmap string string) (byOwner : gmap string Token)
    (reservations : list Reservation) : M Store (list Reservation) :=
  match reservations with
  | [] => ret []
  | reservation :: rest =>
      grouped ← withGroupID oldTokenIDs reservation;
      more ← rebindReservations oldTokenIDs byOwner rest;
      ret (attachToKey byOwner grouped :: more)
  end.

Definition tokenIDs (tokens : list Token) : gmap string string :=
  foldl (fun ids token => <[Token_Hash token := Token_ID token]> ids) ∅ tokens.

Definition setManaged (managed : list Token) (snapshotID : string) (st : State) : State :=
  mkState true snapshotID managed (State_Reservations st) (State_Authorizations st)
    (State_SoftClaims st) (State_Leases st) (State_Bypasses st) (State_Audit st).

Definition SyncManagedUserKeys (rootKey : string) (snapshot : ManagedUserKeySnapshot)
    (now : time) : M Store ManagedUserKeySyncResult :=
  requireRootKey rootKey ;;
  let snapshotID := TrimSpace (Snapshot_SnapshotID snapshot) in
  fail_if (snapshotID =s "") (ErrorString "snapshot_id is required") ;;
  fail_if (maxTotalTokens <? llen (Snapshot_Keys snapshot))
    (Errorf "managed key limit exceeded: maximum %d" [AInt maxTotalTokens]) ;;
  match syncKeys now (mkSyncAcc [] ∅ ∅ ∅) (Snapshot_Keys snapshot) with
  | inl err => throw err
  | inr acc =>
      let answer := mkManagedUserKeySyncResult snapshotID (llen (sa_managed acc)) true in
      loadLocked ;;
      s ← get;
      if State_ManagedKeys (s_state s) && (State_KeySnapshotID (s_state s) =s snapshotID)
      then ret answer
      else
        let oldTokenIDs := tokenIDs (State_Tokens (s_state s)) in
        reservations ← rebindReservations oldTokenIDs (sa_byOwner acc)
                         (State_Reservations (s_state s));
        update (State_set_Reservations reservations) ;;
        update (setManaged (sa_managed acc) snapshotID) ;;
        saveLocked ;;
        ret answer
  end.

Definition RegisterManagedReservations
    (rootKey userKeyID purpose externalSessionID : string) (gpus : list Z)
    (startsAt expiresAt now : time) : M Store (Token * string * list Reservation) :=
  requireRootKey rootKey ;;
  let startsAt := UTC startsAt in
  let expiresAt := UTC expiresAt in
  let now := UTC now in
  let startsAt := if IsZero startsAt then now else startsAt in
  fail_if (negb (After expiresAt startsAt) || negb (After expiresAt now))
    (ErrorString "reservation end must be after start and in the future") ;;
  fail_if (MaxHardTTL <? TimeSub expiresAt startsAt)
    (Errorf "reservation duration exceeds max %s" [AInt MaxHardTTL]) ;;
  fail_if (llen gpus =? 0) (ErrorString "at least one gpu is required") ;;
  check (checkGPUs validateGPUIndex ∅ gpus) ;;
  loadLocked ;;
  s ← get;
  fail_if (negb (State_ManagedKeys (s_state s)))
    (ErrorString "managed user keys are not configured") ;;
  let token :=
    default Token_zero
      (find (fun candidate => (Token_ID candidate =s TrimSpace userKeyID) &&
               Token_Managed candidate && negb (Token_Revoked candidate))
            (State_Tokens (s_state s))) in
  fail_if (Token_ID token =s "") ErrTokenNotFound ;;
  let externalSessionID := TrimSpace externalSessionID in
  let existing :=
    if externalSessionID <>s ""
    then filter (fun r => Reservation_ExternalSessionID r = externalSessionID)
           (State_Reservations (s_state s))
    else [] in
  match existing with
  | first :: _ =>
      fail_if ((Reservation_TokenHash first <>s Token_Hash token) ||
               negb (sameReservationRequest existing (Token_Name token) purpose gpus
                       startsAt expiresAt))
        (ErrorString "external session id was already used for a different reservation") ;;
      ret (token, Reservation_GroupID first, existing)
  | [] =>
      check (checkTotalCapacity "reservation" (llen (State_Reservations (s_state s)))
               (llen gpus) maxTotalReservations) ;;
      check (findOverlap gpus startsAt expiresAt (State_Reservations (s_state s))) ;;
      h ← randomHex 8;
      let groupID := "grp_" +:+ h in
      reservations ← newReservations groupID externalSessionID (Token_Hash token)
                       (Token_Name token) (TrimSpace purpose) now startsAt expiresAt gpus;
      update (fun st => State_set_Reservations (State_Reservations st ++ reservations) st) ;;
      saveLocked ;;
      ret (token, groupID, reservations)
  end.

(** * Revocation *)

Definition groupOf (reservation : Reservation) : string :=
  if Reservation_GroupID reservation =s ""
  then Reservation_ID reservation else Reservation_GroupID reservation.

Definition managedHashes (tokens : list Token) : gmap string bool :=
  foldl (fun hashes token =>
    if Token_Managed token then <[Token_Hash token := true]> hashes else hashes) ∅ tokens.

(** The group of the first managed reservation that the id names. *)
Definition managedGroup (state : State) (idOrToken : string) : string :=
  match find (fun reservation =>
          mem_bool (managedHashes (State_Tokens state)) (Reservation_TokenHash reservation) &&
          ((Reservation_ID reservation =s idOrToken) || (groupOf reservation =s idOrToken)))
        (State_Reservations state) with
  | Some reservation => groupOf reservation
  | None => ""
  end.

Definition inGroup (managedGroupID : string) (reservation : Reservation) : bool :=
  (groupOf reservation =s managedGroupID) && negb (Reservation_Revoked reservation).

Definition revokeGroup (managedGroupID : string) (reservations : list Reservation)
    : list Reservation :=
  map (fun reservation =>
    if inGroup managedGroupID reservation
    then Reservation_set_Revoked true reservation else reservation) reservations.

(** The token hash the argument stands for: that of a secret, of the token row
    it names, or of the reservation it names. *)
Definition revokedHash (state : State) (idOrToken : string) : string :=
  let tokenHash := if HasPrefix idOrToken "gk_" then HashToken idOrToken else "" in
  let tokenHash :=
    match find (fun token => (Token_ID token =s idOrToken) ||
                  ((tokenHash <>s "") && (Token_Hash token =s tokenHash)))
               (State_Tokens state) with
    | Some token => Token_Hash token
    | None => tokenHash
    end in
  if tokenHash =s "" then
    match find (fun reservation => Reservation_ID reservation =s idOrToken)
               (State_Reservations state) with
    | Some reservation => Reservation_TokenHash reservation
    | None => tokenHash
    end
  else tokenHash.

(** Does a row with this id or token hash fall under the revocation? *)
Definition revokes (idOrToken tokenHash id hash : string) : bool :=
  (id =s idOrToken) || ((tokenHash <>s "") && (hash =s tokenHash)).

(** The loop over the tokens, which may replace the hash as it goes. *)
Fixpoint revokeTokens (idOrToken tokenHash : string) (changed : bool) (tokens : list Token)
    : list Token * string * bool :=
  match tokens with
  | [] => ([], tokenHash, changed)
  | token :: rest =>
      if revokes idOrToken tokenHash (Token_ID token) (Token_Hash token) then
        let '(ts, h, c) := revokeTokens idOrToken (Token_Hash token) true rest in
        (Token_set_Revoked true token :: ts, h, c)
      else
        let '(ts, h, c) := revokeTokens idOrToken tokenHash changed rest in
        (token :: ts, h, c)
  end.

(** Applying an assignment to the rows a test selects, and whether any was. *)
Definition markRows {A} (sel : A -> bool) (f : A -> A) (rows : list A) : list A :=
  map (fun x => if sel x then f x else x) rows.

Definition revokeState (idOrToken : string) (clock : time) (state : State)
    : State * bool :=
  let '(tokens, tokenHash, changed) :=
    revokeTokens idOrToken (revokedHash state idOrToken) false (State_Tokens state) in
  let selR r := revokes idOrToken tokenHash (Reservation_ID r) (Reservation_TokenHash r) in
  let selA a := revokes idOrToken tokenHash (Authorization_ID a) (Authorization_TokenHash a) in
  let selL l := revokes idOrToken tokenHash (Lease_ID l) (Lease_TokenHash l) in
  let selB b := BypassRule_ID b =s idOrToken in
  let selC c := SoftClaim_ID c =s idOrToken in
  let changed := changed || existsb selR (State_Reservations state)
                         || existsb selA (State_Authorizations state)
                         || existsb selL (State_Leases state)
                         || existsb selB (State_Bypasses state) in
  let dropClaims := (tokenHash <>s "") || changed in
  ({| State_ManagedKeys := State_ManagedKeys state;
      State_KeySnapshotID := State_KeySnapshotID state;
      State_Tokens := tokens;
      State_Reservations :=
        markRows selR (Reservation_set_Revoked true) (State_Reservations state);
      State_Authorizations :=
        markRows selA (Authorization_set_Revoked true) (State_Authorizations state);
      State_SoftClaims :=
        if dropClaims then filter (fun c => selC c = false) (State_SoftClaims state)
        else State_SoftClaims state;
      State_Leases := markRows selL (Lease_set_ExpiresAt (UTC clock)) (State_Leases state);
      State_Bypasses := markRows selB (BypassRule_set_Revoked true) (State_Bypasses state);
      State_Audit := State_Audit state |},
   changed || (dropClaims && existsb selC (State_SoftClaims state))).

Definition Revoke (idOrToken : string) (clock : time) : M Store unit :=
  let idOrToken := TrimSpace idOrToken in
  loadLocked ;;
  s ← get;
  let managedGroupID := managedGroup (s_state s) idOrToken in
  if managedGroupID <>s "" then
    if negb (existsb (inGroup managedGroupID) (State_Reservations (s_state s)))
    then ret tt
    else
      update (fun st => State_set_Reservations
                (revokeGroup managedGroupID (State_Reservations st)) st) ;;
      saveLocked
  else
    let '(state, changed) := revokeState idOrToken clock (s_state s) in
    update (fun _ => state) ;;
    fail_if (negb changed) (Errorf "%s not found" [AStr idOrToken]) ;;
    saveLocked.

End register.
