(* ===== verification/StoreStatus.v ===== *)
(** internal/store/store.go: the status reports, filtered to one token or over
    the whole state, and the pruning of rows. *)

From S2P Require Export StoreRegister.

Definition reservationViewOf (tokenIDsByHash : gmap string string) (reservation : Reservation)
    : ReservationView :=
  {| ReservationView_ID := Reservation_ID reservation;
     ReservationView_GroupID := reservationGroupID reservation tokenIDsByHash;
     ReservationView_ExternalSessionID := Reservation_ExternalSessionID reservation;
     ReservationView_GPU := Reservation_GPU reservation;
     ReservationView_Holder := Reservation_Holder reservation;
     ReservationView_Purpose := Reservation_Purpose reservation;
     ReservationView_CreatedAt := Reservation_CreatedAt reservation;
     ReservationView_StartsAt := ReservationStartsAt reservation;
     ReservationView_ExpiresAt := Reservation_ExpiresAt reservation;
     ReservationView_Active := Reservation_Active reservation;
     ReservationView_Revoked := Reservation_Revoked reservation |}.

Definition softClaimViewOf (claim : SoftClaim) : SoftClaimView :=
  {| SoftClaimView_ID := SoftClaim_ID claim;
     SoftClaimView_GPU := SoftClaim_GPU claim;
     SoftClaimView_AuthorizationID := SoftClaim_AuthorizationID claim;
     SoftClaimView_Holder := SoftClaim_Holder claim;
     SoftClaimView_CreatedAt := SoftClaim_CreatedAt claim;
     SoftClaimView_UpdatedAt := SoftClaim_UpdatedAt claim |}.

(** The token rows a report shows: live, and for a reserved key only while a
    reservation of its own is. *)
Definition reportedToken (reservedTokenHashes : gmap string bool) (now : time)
    (token : Token) : bool :=
  negb (Token_Revoked token || tokenExpired token now) &&
  negb ((NormalizeTokenMode (Token_Mode token) =s TokenModeReserved) &&
        negb (mem_bool reservedTokenHashes (Token_Hash token))).

Definition reportedReservation (now : time) (reservation : Reservation) : bool :=
  Reservation_Active reservation && negb (Reservation_Revoked reservation) &&
  Before now (Reservation_ExpiresAt reservation).

Definition hashSet (tokens : list Token) : gmap string bool :=
  foldl (fun hashes token => <[Token_Hash token := true]> hashes) ∅ tokens.

Definition authorizationIDSet (rows : list Authorization) : gmap string bool :=
  foldl (fun ids a => <[Authorization_ID a := true]> ids) ∅ rows.

(** The body of [status] on the loaded state: [all] lifts the token filter. *)
Definition statusOf (state : State) (now : time) (allowedTokenHash : string) (all : bool)
    : Status :=
  let allowed hash := all || (hash =s allowedTokenHash) in
  let reservedTokenHashes := liveReservationTokenHashes (State_Reservations state) now in
  let tokens :=
    filter (fun t => allowed (Token_Hash t) && reportedToken reservedTokenHashes now t = true)
      (State_Tokens state) in
  let activeTokenHashes := hashSet tokens in
  let tokenIDsByHash := tokenIDs tokens in
  let authorizations :=
    filter (fun a => allowed (Authorization_TokenHash a) && authorizationActiveAt a now = true)
      (State_Authorizations state) in
  let activeAuthorizationIDs := authorizationIDSet authorizations in
  {| Status_Now := UTC now;
     Status_Tokens := map viewOfToken tokens;
     Status_Reservations :=
       map (reservationViewOf tokenIDsByHash)
         (filter (fun r => allowed (Reservation_TokenHash r) && reportedReservation now r = true)
            (State_Reservations state));
     Status_Authorizations :=
       map (fun a => authorizationView a
              (lookup_string tokenIDsByHash (Authorization_TokenHash a))) authorizations;
     Status_SoftClaims :=
       map softClaimViewOf
         (filter (fun c => allowed (SoftClaim_TokenHash c) &&
                    negb (negb (mem_bool activeTokenHashes (SoftClaim_TokenHash c)) ||
                          negb (mem_bool activeAuthorizationIDs (SoftClaim_AuthorizationID c)))
                    = true) (State_SoftClaims state));
     Status_Leases :=
       if all then filter (fun l => Lease_Active l && Before now (Lease_ExpiresAt l) = true)
                     (State_Leases state) else [];
     Status_Bypasses :=
       if all then filter (fun b => negb (BypassRule_Revoked b ||
                             negb (Before now (BypassRule_ExpiresAt b))) = true)
                     (State_Bypasses state) else [] |}.

Section status.
Context `{JSON}.

Definition status (now : time) (allowedTokenHash : string) (all : bool) : M Store Status :=
  loadLocked ;; gets (fun s => statusOf (s_state s) now allowedTokenHash all).

Definition StatusAll (now : time) : M Store Status := status now "" true.

Definition StatusForToken (tokenHash : string) (now : time) : M Store Status :=
  fail_if (tokenHash =s "") (ErrorString "token hash is required") ;;
  status now tokenHash false.

(** A key report's token row: the stored secret, or a note that there is none. *)
Definition keyViewOfToken (token : Token) : TokenView :=
  let view := viewOfToken token in
  if Token_Secret token <>s ""
  then TokenView_set_KeyStatus TokenKeyStatusStored (TokenView_set_Key (Token_Secret token) view)
  else TokenView_set_KeyStatus TokenKeyStatusNotStored view.

Definition keyStatusOf (state : State) (now : time) : KeyStatus :=
  let reservedTokenHashes := liveReservationTokenHashes (State_Reservations state) now in
  let tokens := filter (fun t => reportedToken reservedTokenHashes now t = true)
                  (State_Tokens state) in
  let tokenIDsByHash := tokenIDs tokens in
  {| KeyStatus_Now := UTC now;
     KeyStatus_Tokens := map keyViewOfToken tokens;
     KeyStatus_Reservations :=
       map (reservationViewOf tokenIDsByHash)
         (filter (fun r => reportedReservation now r = true) (State_Reservations state));
     KeyStatus_Authorizations :=
       map (fun a => authorizationView a
              (lookup_string tokenIDsByHash (Authorization_TokenHash a)))
         (filter (fun a => authorizationActiveAt a now = true) (State_Authorizations state));
     KeyStatus_Bypasses :=
       filter (fun b => negb (BypassRule_Revoked b ||
                 negb (Before now (BypassRule_ExpiresAt b))) = true) (State_Bypasses state) |}.

Definition KeyStatusReport (rootKey : string) (now : time) : M Store KeyStatus :=
  requireRootKey rootKey ;;
  loadLocked ;; gets (fun s => keyStatusOf (s_state s) now).

End status.

(** * Pruning: removing rows that no longer entitle anyone *)

(** * [pruneExpiredLocked] *)

Definition prunedToken (reservedTokenHashes : gmap string bool) (now : time)
    (token : Token) : bool :=
  let orphanReserved :=
    (NormalizeTokenMode (Token_Mode token) =s TokenModeReserved) &&
    negb (mem_bool reservedTokenHashes (Token_Hash token)) in
  Token_Revoked token || tokenExpired token now || orphanReserved.

Definition prunedReservation (expiredTokenHashes : gmap string bool) (now : time)
    (reservation : Reservation) : bool :=
  Reservation_Revoked reservation || negb (Reservation_Active reservation) ||
  negb (Before now (Reservation_ExpiresAt reservation)) ||
  mem_bool expiredTokenHashes (Reservation_TokenHash reservation).

Definition prunedAuthorization (expiredTokenHashes : gmap string bool) (now : time)
    (authorization : Authorization) : bool :=
  Authorization_Revoked authorization || negb (Authorization_Active authorization) ||
  authorizationExpired authorization now ||
  mem_bool expiredTokenHashes (Authorization_TokenHash authorization).

Definition prunedLease (expiredTokenHashes : gmap string bool) (now : time)
    (lease : Lease) : bool :=
  negb (Lease_Active lease) || negb (Before now (Lease_ExpiresAt lease)) ||
  mem_bool expiredTokenHashes (Lease_TokenHash lease).

Definition prunedBypass (now : time) (bypass : BypassRule) : bool :=
  BypassRule_Revoked bypass || negb (Before now (BypassRule_ExpiresAt bypass)).

Definition prunedClaim (expiredTokenHashes activeAuthorizationIDs : gmap string bool)
    (claim : SoftClaim) : bool :=
  mem_bool expiredTokenHashes (SoftClaim_TokenHash claim) ||
  negb (mem_bool activeAuthorizationIDs (SoftClaim_AuthorizationID claim)).

(** The rows a loop keeps: those its test does not drop. *)
Definition keep {A} (dropped : A -> bool) (rows : list A) : list A :=
  filter (fun x => dropped x = false) rows.

(** [expiredTokenHashes]: the non-empty hashes of the dropped tokens. *)
Definition droppedHashes (dropped : Token -> bool) (tokens : list Token) : gmap string bool :=
  foldl (fun hashes token =>
    if dropped token && (Token_Hash token <>s "")
    then <[Token_Hash token := true]> hashes else hashes) ∅ tokens.

Definition pruneExpired (now : time) (state : State) : State * bool :=
  let reservedTokenHashes := liveReservationTokenHashes (State_Reservations state) now in
  let dropT := prunedToken reservedTokenHashes now in
  let expiredTokenHashes := droppedHashes dropT (State_Tokens state) in
  let dropR := prunedReservation expiredTokenHashes now in
  let dropA := prunedAuthorization expiredTokenHashes now in
  let dropL := prunedLease expiredTokenHashes now in
  let dropB := prunedBypass now in
  let authorizations := keep dropA (State_Authorizations state) in
  let changed :=
    existsb dropT (State_Tokens state) || existsb dropR (State_Reservations state) ||
    existsb dropA (State_Authorizations state) || existsb dropL (State_Leases state) ||
    existsb dropB (State_Bypasses state) in
  let dropC := prunedClaim expiredTokenHashes (authorizationIDSet authorizations) in
  let pruneClaims := (0 <? Z.of_nat (size expiredTokenHashes)) || changed in
  ({| State_ManagedKeys := State_ManagedKeys state;
      State_KeySnapshotID := State_KeySnapshotID state;
      State_Tokens := keep dropT (State_Tokens state);
      State_Reservations := keep dropR (State_Reservations state);
      State_Authorizations := authorizations;
      State_SoftClaims :=
        if pruneClaims then keep dropC (State_SoftClaims state) else State_SoftClaims state;
      State_Leases := keep dropL (State_Leases state);
      State_Bypasses := keep dropB (State_Bypasses state);
      State_Audit := State_Audit state |},
   changed || (pruneClaims && existsb dropC (State_SoftClaims state))).

(** * [PruneUnreferencedInvalidEntitlements] *)

(** The token hashes that a non-cgroup authorization or lease still needs. *)
Definition referencedHashes (state : State) : gmap string bool :=
  let fromAuthorizations :=
    foldl (fun refs a =>
      if (Authorization_CgroupPath a =s "") && (Authorization_TokenHash a <>s "")
      then <[Authorization_TokenHash a := true]> refs else refs)
      (∅ : gmap string bool) (State_Authorizations state) in
  foldl (fun refs l =>
    if (Lease_CgroupPath l =s "") && (Lease_TokenHash l <>s "")
    then <[Lease_TokenHash l := true]> refs else refs)
    fromAuthorizations (State_Leases state).

Definition tokenValidity (now : time) (tokens : list Token) : gmap string bool :=
  foldl (fun valid token =>
    <[Token_Hash token :=
        negb (Token_Revoked token) &&
        (IsZero (Token_ExpiresAt token) || Before now (Token_ExpiresAt token))]> valid)
    ∅ tokens.

Definition pruneUnreferenced (now : time) (state : State) : State * bool :=
  let now := UTC now in
  let referenced := referencedHashes state in
  let tokenValid := tokenValidity now (State_Tokens state) in
  let dropR r :=
    (negb (Reservation_Active r) || Reservation_Revoked r ||
     negb (Before now (Reservation_ExpiresAt r)) ||
     negb (mem_bool tokenValid (Reservation_TokenHash r))) &&
    negb (mem_bool referenced (Reservation_TokenHash r)) in
  let dropT t :=
    negb (mem_bool tokenValid (Token_Hash t)) && negb (mem_bool referenced (Token_Hash t)) in
  (State_set_Tokens (keep dropT (State_Tokens state))
     (State_set_Reservations (keep dropR (State_Reservations state)) state),
   existsb dropR (State_Reservations state) || existsb dropT (State_Tokens state)).

(** * [PruneInactiveManagedScopes] *)

Definition idSet (ids : list string) : gmap string bool :=
  foldl (fun set id => <[id := true]> set) ∅ ids.

Definition pruneScopes (authorizationIDs leaseIDs : gmap string bool) (state : State)
    : State * bool :=
  let dropA a := mem_bool authorizationIDs (Authorization_ID a) &&
                 negb (Authorization_Active a) && (Authorization_CgroupPath a <>s "") in
  let dropL l := mem_bool leaseIDs (Lease_ID l) &&
                 negb (Lease_Active l) && (Lease_CgroupPath l <>s "") in
  (State_set_Leases (keep dropL (State_Leases state))
     (State_set_Authorizations (keep dropA (State_Authorizations state)) state),
   existsb dropA (State_Authorizations state) || existsb dropL (State_Leases state)).

Section prune.
Context `{JSON}.

Definition Prune (now : time) : M Store unit :=
  loadLocked ;;
  s ← get;
  let '(state, changed) := pruneExpired now (s_state s) in
  update (fun _ => state) ;;
  if negb changed then ret tt else saveLocked.

Definition PruneInactiveManagedScopes (authorizationIDs leaseIDs : list string)
    : M Store unit :=
  let authorizations := idSet authorizationIDs in
  let leases := idSet leaseIDs in
  if (Z.of_nat (size authorizations) =? 0) && (Z.of_nat (size leases) =? 0) then ret tt
  else
    loadLocked ;;
    s ← get;
    let '(state, changed) := pruneScopes authorizations leases (s_state s) in
    if negb changed then ret tt
    else update (fun _ => state) ;; saveLocked.

Definition PruneUnreferencedInvalidEntitlements (now : time) : M Store unit :=
  loadLocked ;;
  s ← get;
  let '(state, changed) := pruneUnreferenced now (s_state s) in
  if negb changed then ret tt
  else update (fun _ => state) ;; saveLocked.

End prune.
