(* ===== verification/StoreFacts.v ===== *)
(** Facts shared by the theorems on the store: what each building block of a
    method leaves unchanged, what [saveLocked] and [loadLocked] guarantee, and
    how an invariant of the persisted state is carried through a method. *)

From S2P Require Export StoreStatus.

(** * What a computation leaves in memory *)

(** The in-memory part of the store. *)
Definition mem (s : Store) : State * State * bool := (s_state s, s_committed s, s_loaded s).

(** A computation that only touches files, randomness or the call counter. *)
Definition frame {A} (m : M Store A) : Prop := forall s, mem (final m s) = mem s.

(** The store is loaded, its memory agrees with the last committed state, that
    state is within bounds, and [I] holds of it. *)
Definition Good (I : State -> Prop) (s : Store) : Prop :=
  s_loaded s = true /\ s_state s = s_committed s /\
  validateStateBounds (s_state s) = None /\ I (s_state s).

(** [m] run from [s] keeps the store good. *)
Definition keeps {A} (I : State -> Prop) (m : M Store A) (s : Store) : Prop :=
  Good I s -> Good I (final m s).

(** * Record laws *)

Lemma Authorization_set_Command_id a :
  Authorization_set_Command ([] ++ Authorization_Command a) a = a.
Proof. by destruct a. Qed.

Lemma Lease_set_Command_id l : Lease_set_Command ([] ++ Lease_Command l) l = l.
Proof. by destruct l. Qed.

Lemma cloneState_id st : cloneState st = st.
Proof.
  destruct st as [mk sid ts rs az cs ls bs au]. unfold cloneState; cbn.
  rewrite (map_ext _ id Authorization_set_Command_id), (map_ext _ id Lease_set_Command_id).
  by rewrite !map_id.
Qed.

(** * Composition *)

Lemma bind_inv {A B} (m : M Store A) (k : A -> M Store B) s :
  final (m ≫= k) s =
  match result m s with inl _ => final m s | inr a => final (k a) (final m s) end.
Proof.
  unfold final, result, mbind, M_bind, bind. by destruct (m s) as [[e|a] s'].
Qed.

Lemma bind_ok {A B} (m : M Store A) (k : A -> M Store B) s a s' :
  m s = (inr a, s') -> (m ≫= k) s = k a s'.
Proof. intros E. unfold mbind, M_bind, bind. by rewrite E. Qed.

Lemma bind_err {A B} (m : M Store A) (k : A -> M Store B) s e s' :
  m s = (inl e, s') -> (m ≫= k) s = (inl e, s').
Proof. intros E. unfold mbind, M_bind, bind. by rewrite E. Qed.

(** A sequence that returns a value passes through both parts. *)
Lemma result_bind {A B} (m : M Store A) (k : A -> M Store B) s b :
  result (m ≫= k) s = inr b ->
  exists a, result m s = inr a /\ result (k a) (final m s) = inr b.
Proof.
  unfold result, final, mbind, M_bind, bind.
  destruct (m s) as [[e|a] s'] eqn:E; cbn; [done|]. intros R. by exists a.
Qed.

Lemma frame_ret {A} (a : A) : frame (ret a).
Proof. by intros s. Qed.
Lemma frame_throw {A} e : frame (A := A) (throw e).
Proof. by intros s. Qed.
Lemma frame_get : frame get.
Proof. by intros s. Qed.
Lemma frame_gets {A} (f : Store -> A) : frame (gets f).
Proof. by intros s. Qed.
Lemma frame_check e : frame (check e).
Proof. by destruct e. Qed.
Lemma frame_fail_if b e : frame (fail_if b e).
Proof. by destruct b. Qed.
Lemma frame_os : frame os.
Proof. intros s. unfold final, os. by destruct (w_os s (w_calls s)) as [[]|]. Qed.
Lemma frame_writeAll data : frame (writeAll data).
Proof. intros s. unfold final, writeAll. by destruct (w_os s (w_calls s)) as [[]|]. Qed.
Lemma frame_bind {A B} (m : M Store A) (k : A -> M Store B) :
  frame m -> (forall a, frame (k a)) -> frame (m ≫= k).
Proof.
  intros Hm Hk s. rewrite bind_inv. destruct (result m s); [apply Hm|].
  by rewrite (Hk _ _), Hm.
Qed.
Lemma frame_try {A} (m : M Store A) : frame m -> frame (try m).
Proof. intros Hm s. unfold final, try. specialize (Hm s). unfold final in Hm.
  by destruct (m s). Qed.
Lemma frame_state_file f : frame (modify (set_state_file f)).
Proof. by intros s. Qed.
Lemma frame_root_key_file f : frame (modify (set_root_key_file f)).
Proof. by intros s. Qed.
Lemma frame_audit_files f g : frame (modify (set_audit_files f g)).
Proof. by intros s. Qed.
Lemma frame_randomHex n : frame (randomHex n).
Proof. by intros s. Qed.

Create HintDb store.
Create HintDb keeps.
#[export] Hint Resolve frame_ret frame_throw frame_get frame_gets frame_check frame_fail_if
  frame_os frame_writeAll frame_try frame_state_file frame_root_key_file frame_audit_files
  frame_randomHex : store.

(** Discharge [frame m] by walking through the structure of [m]. *)
Ltac solve_frame :=
  repeat (intros;
    first
      [ solve [eauto with store]
      | apply frame_bind
      | apply frame_try
      | progress case_match ]).

Lemma frame_syncDir : frame syncDir.
Proof. unfold syncDir. solve_frame. Qed.
#[export] Hint Resolve frame_syncDir : store.
Lemma frame_os_Open f : frame (os_Open f).
Proof. unfold os_Open. solve_frame. Qed.
#[export] Hint Resolve frame_os_Open : store.
Lemma frame_readStateFile : frame readStateFile.
Proof. unfold readStateFile. solve_frame. Qed.
Lemma frame_writeSyncedTempFile d : frame (writeSyncedTempFile d).
Proof. unfold writeSyncedTempFile. solve_frame. Qed.
#[export] Hint Resolve frame_readStateFile frame_writeSyncedTempFile : store.
Lemma frame_writeFileAtomically d : frame (writeFileAtomically d).
Proof. unfold writeFileAtomically. solve_frame. Qed.
Lemma frame_readRootKeyFile : frame readRootKeyFile.
Proof. unfold readRootKeyFile. solve_frame. Qed.
Lemma frame_createRootKeyFile d : frame (createRootKeyFile d).
Proof. unfold createRootKeyFile. solve_frame. Qed.
#[export] Hint Resolve frame_writeFileAtomically frame_readRootKeyFile
  frame_createRootKeyFile : store.
Lemma frame_ReadOrCreateRootKey : frame ReadOrCreateRootKey.
Proof. unfold ReadOrCreateRootKey. solve_frame. Qed.
#[export] Hint Resolve frame_ReadOrCreateRootKey : store.
Lemma frame_ValidateRootKey c : frame (ValidateRootKey c).
Proof. unfold ValidateRootKey. solve_frame. Qed.
#[export] Hint Resolve frame_ValidateRootKey : store.
Lemma frame_requireRootKey c : frame (requireRootKey c).
Proof. unfold requireRootKey. solve_frame. Qed.
Lemma frame_newID p : frame (newID p).
Proof. unfold newID. solve_frame. Qed.
#[export] Hint Resolve frame_requireRootKey frame_newID : store.
Lemma frame_newToken m n e t : frame (newToken m n e t).
Proof. unfold newToken. solve_frame. Qed.
Lemma frame_newReservations g e t h p n s x gpus : frame (newReservations g e t h p n s x gpus).
Proof. induction gpus; cbn; unfold NewReservationID; solve_frame. Qed.
Lemma frame_withGroupID o r : frame (withGroupID o r).
Proof. unfold withGroupID. solve_frame. Qed.
#[export] Hint Resolve frame_withGroupID : store.
Lemma frame_rebindReservations o b rs : frame (rebindReservations o b rs).
Proof. induction rs; cbn; solve_frame. Qed.
#[export] Hint Resolve frame_newToken frame_newReservations frame_rebindReservations : store.
Lemma frame_rotateAuditLogIfNeeded n : frame (rotateAuditLogIfNeeded n).
Proof. unfold rotateAuditLogIfNeeded, os_Lstat. solve_frame. Qed.
#[export] Hint Resolve frame_rotateAuditLogIfNeeded : store.
Lemma frame_appendAuditLogs `{JSON} es : frame (appendAuditLogs es).
Proof. unfold appendAuditLogs. solve_frame. Qed.
#[export] Hint Resolve frame_appendAuditLogs : store.

(** * Invariants of the persisted state *)

Lemma Good_mem I s s' : mem s' = mem s -> Good I s -> Good I s'.
Proof. unfold mem, Good. intros [= -> -> ->]. done. Qed.

Lemma keeps_frame {A} I (m : M Store A) s : frame m -> keeps I m s.
Proof. intros Hm Hs. by apply (Good_mem I s). Qed.

Lemma keeps_bind {A B} I (m : M Store A) (k : A -> M Store B) s :
  keeps I m s -> (forall a, result m s = inr a -> keeps I (k a) (final m s)) ->
  keeps I (m ≫= k) s.
Proof.
  intros Hm Hk Hs. rewrite bind_inv. destruct (result m s) as [e|a] eqn:E; [by apply Hm|].
  apply (Hk a eq_refl), Hm, Hs.
Qed.

(** Sequencing after a computation that leaves memory alone. *)
Lemma keeps_after {A B} I (m : M Store A) (k : A -> M Store B) s :
  frame m ->
  (forall a s', result m s = inr a -> mem s' = mem s -> keeps I (k a) s') ->
  keeps I (m ≫= k) s.
Proof.
  intros Hm Hk. apply keeps_bind; [by apply keeps_frame|]. intros a E. by apply Hk.
Qed.

Section facts.
Context `{JSON}.

Lemma load_loaded s : s_loaded s = true -> loadLocked s = (inr tt, s).
Proof. intros E. unfold loadLocked, mbind, M_bind, bind, get. by rewrite E. Qed.

Lemma keeps_load {A} I (k : unit -> M Store A) s :
  keeps I (k tt) s -> keeps I (loadLocked ≫= k) s.
Proof.
  intros Hk Hs. unfold final. rewrite (bind_ok _ _ _ _ _ (load_loaded s (proj1 Hs))).
  by apply Hk.
Qed.

(** A first load: it fails and the store stays unloaded, or the store is good
    for every invariant that bounded states have. *)
Lemma load_fresh s :
  s_loaded s = false ->
  match result loadLocked s with
  | inl _ => s_loaded (final loadLocked s) = false
  | inr _ => Good (fun _ => True) (final loadLocked s)
  end.
Proof.
  intros L. unfold loadLocked, mbind, M_bind, bind, get, try, final, result; cbn.
  rewrite L. pose proof (frame_readStateFile s) as F. unfold final in F.
  destruct (readStateFile s) as [[e|data] s1]; cbn in *; injection F as F1 F2 F3.
  - destruct (errors_Is e errNotExist); cbn; [by repeat split|congruence].
  - destruct (blank data); cbn.
    + destruct (validateStateBounds _) eqn:V; cbn; [congruence|].
      rewrite cloneState_id. by repeat split.
    + destruct (UnmarshalState data (s_state s1)) as [[e|] st]; cbn; [congruence|].
      destruct (validateStateBounds st) eqn:V; cbn; [congruence|].
      rewrite cloneState_id. by repeat split.
Qed.

(** A store that is good, or not yet loaded with every bounded state good. *)
Definition Ok (I : State -> Prop) (s : Store) : Prop :=
  s_loaded s = false /\ (forall st, validateStateBounds st = None -> I st) \/ Good I s.

Definition keepsOk {A} (I : State -> Prop) (m : M Store A) : Prop :=
  forall s, Ok I s -> Ok I (final m s).

Lemma keepsOk_frame {A} I (m : M Store A) : frame m -> keepsOk I m.
Proof.
  intros Hm s [[L HI]|G]; [left|right; by apply (Good_mem I s)].
  specialize (Hm s). unfold mem in Hm. split; [congruence|done].
Qed.

Lemma keepsOk_after {A B} I (m : M Store A) (k : A -> M Store B) :
  frame m -> (forall a s, result m s = inr a -> keepsOk I (k a)) -> keepsOk I (m ≫= k).
Proof.
  intros Hm Hk s Hs. apply (keepsOk_frame I m Hm) in Hs as Hs'. rewrite bind_inv.
  destruct (result m s) as [e|a] eqn:E; [done|by apply (Hk a s E)].
Qed.

(** Dropping the answer of a call. *)
Lemma keepsOk_then {A B} I (m : M Store A) (k : A -> M Store B) :
  keepsOk I m -> (forall a, frame (k a)) -> keepsOk I (m ≫= k).
Proof.
  intros Hm Hk s Hs. rewrite bind_inv. destruct (result m s); [by apply Hm|].
  by apply (keepsOk_frame I _ (Hk _)), Hm.
Qed.

Lemma keepsOk_check {A} I e (k : unit -> M Store A) :
  (e = None -> keepsOk I (k tt)) -> keepsOk I (check e ≫= k).
Proof. destruct e; intros Hk; [by intros ? ?|by apply Hk]. Qed.

Lemma keepsOk_fail_if {A} I b e (k : unit -> M Store A) :
  (b = false -> keepsOk I (k tt)) -> keepsOk I (fail_if b e ≫= k).
Proof. destruct b; intros Hk; [by intros ? ?|by apply Hk]. Qed.

Lemma keepsOk_load {A} I (k : unit -> M Store A) :
  (forall s, keeps I (k tt) s) -> keepsOk I (loadLocked ≫= k).
Proof.
  intros Hk s [[L HI]|G]; [|right; by apply keeps_load].
  pose proof (load_fresh s L) as F. rewrite bind_inv.
  destruct (result loadLocked s) as [e|[]]; [by left|].
  right. apply Hk. unfold Good in *. naive_solver.
Qed.

(** Reading the receiver. *)
Lemma keeps_get {A} I (k : Store -> M Store A) s :
  keeps I (k s) s -> keeps I (get ≫= k) s.
Proof. done. Qed.

Lemma keeps_check {A} I e (k : unit -> M Store A) s :
  (e = None -> keeps I (k tt) s) -> keeps I (check e ≫= k) s.
Proof. destruct e; intros Hk; [by intros ?|by apply Hk]. Qed.

Lemma keeps_fail_if {A} I b e (k : unit -> M Store A) s :
  (b = false -> keeps I (k tt) s) -> keeps I (fail_if b e ≫= k) s.
Proof. destruct b; intros Hk; [by intros ?|by apply Hk]. Qed.

(** A write that did not commit reports an error. *)
Lemma writeFileAtomically_uncommitted d s e :
  result (writeFileAtomically d) s = inr (false, e) -> e <> None.
Proof.
  unfold writeFileAtomically, mbind, M_bind, result, bind, try.
  destruct (writeSyncedTempFile d s) as [[x|[]] s1]; cbn; [by intros [= <-]|].
  destruct (os s1) as [[x|[]] s2]; cbn.
  - destruct (os s2) as [[y|[]] s3]; cbn; by intros [= <-].
  - destruct (syncDir _) as [r s3]; cbn.
    destruct (os s3) as [[y|[]] s4]; cbn; by intros [=].
Qed.

(** The commit: what the body of [saveLocked] can leave. *)
Lemma saveBody_spec s :
  let s' := final saveBody s in
  s_state s' = s_state s /\ s_loaded s' = s_loaded s /\
  match result saveBody s with
  | inr _ => s_committed s' = s_state s /\ validateStateBounds (s_state s) = None
  | inl _ => s_committed s' = s_committed s \/
             (s_committed s' = s_state s /\ validateStateBounds (s_state s) = None)
  end.
Proof.
  unfold saveBody, mbind, M_bind, final, result, bind, get; cbn.
  destruct (validateStateBounds (s_state s)) as [e|] eqn:V; cbn; [by auto|].
  pose proof (frame_os s) as F1. unfold final in F1.
  destruct (os s) as [[e|[]] s1] eqn:O; cbn in *; injection F1 as F1 F2 F3; [by auto|].
  destruct (MarshalState (s_state s)) as [e|data]; cbn; [by auto|].
  destruct (maxStateFileBytes <? slen data); cbn; [by auto|].
  pose proof (frame_writeFileAtomically (data +:+ String (byte_of 10) "") s1) as F4.
  pose proof (writeFileAtomically_uncommitted (data +:+ String (byte_of 10) "") s1) as U.
  unfold final in F4. unfold result in U.
  destruct (writeFileAtomically _ s1) as [[e|[c err]] s2]; cbn in *;
    injection F4 as F4 F5 F6; [intuition congruence|].
  destruct c; cbn; [rewrite cloneState_id|]; (destruct err as [e|]; cbn;
    [|try by destruct (U None)]); intuition congruence.
Qed.

(** [saveLocked] commits the state or returns to a committed one. *)
Lemma saveLocked_spec s :
  let s' := final saveLocked s in
  s_loaded s' = s_loaded s /\ s_state s' = s_committed s' /\
  match result saveLocked s with
  | inr _ => s_state s' = s_state s /\ validateStateBounds (s_state s) = None
  | inl _ => s_state s' = s_committed s \/
             (s_state s' = s_state s /\ validateStateBounds (s_state s) = None)
  end.
Proof.
  pose proof (saveBody_spec s) as S. revert S.
  unfold saveLocked, mbind, M_bind, final, result, bind, try; cbn.
  destruct (saveBody s) as [[e|[]] s1]; cbn; intros (S1 & S2 & S3).
  - rewrite cloneState_id. intuition.
  - intuition congruence.
Qed.

(** Committing a change: the invariant must survive it whenever the changed
    state is within bounds. *)
Definition commits (I : State -> Prop) (f : State -> State) (st : State) : Prop :=
  I st -> validateStateBounds (f st) = None -> I (f st).

Lemma keeps_update_save I f s :
  commits I f (s_state s) -> keeps I (update f ;; saveLocked) s.
Proof.
  intros Hf (L & E & V & HI).
  change (Good I (final saveLocked (set_state (f (s_state s)) s))).
  pose proof (saveLocked_spec (set_state (f (s_state s)) s)) as (S1 & S2 & S3).
  unfold Good. rewrite S1. split; [done|]. split; [done|].
  assert (s_state (final saveLocked (set_state (f (s_state s)) s)) = s_state s \/
          s_state (final saveLocked (set_state (f (s_state s)) s)) = f (s_state s) /\
          validateStateBounds (f (s_state s)) = None) as [->|[-> V']].
  { destruct (result saveLocked _); cbn in S3; intuition congruence. }
  - done.
  - split; [done|]. by apply Hf.
Qed.

Lemma keeps_update_save_then {A} I f (k : unit -> M Store A) s :
  commits I f (s_state s) -> frame (k tt) ->
  keeps I (update f ;; (saveLocked ≫= k)) s.
Proof.
  intros Hf Hk Hs. pose proof (keeps_update_save I f s Hf Hs) as G.
  set (s1 := set_state (f (s_state s)) s).
  change (Good I (final saveLocked s1)) in G.
  change (Good I (final (saveLocked ≫= k) s1)).
  rewrite bind_inv. destruct (result saveLocked s1) as [e|[]]; [done|].
  exact (Good_mem _ _ _ (Hk _) G).
Qed.

(** Two assignments in a row are one. *)
Lemma keeps_update_update {A} I f g (k : unit -> M Store A) s :
  keeps I (update (fun st => g (f st)) ≫= k) s ->
  keeps I (update f ;; (update g ≫= k)) s.
Proof. by destruct s. Qed.

(** Assigning the state it already has. *)
Lemma keeps_update_same {A} I f (k : unit -> M Store A) s :
  f (s_state s) = s_state s -> keeps I (k tt) s -> keeps I (update f ≫= k) s.
Proof.
  intros E K G. change (Good I (final (k tt) (set_state (f (s_state s)) s))).
  rewrite E. destruct s. by apply K.
Qed.

End facts.

(** Walk through a method's body: guards, reads and frames, up to its commit. *)
Ltac step :=
  lazymatch goal with
  | |- keepsOk _ (loadLocked ≫= _) => apply keepsOk_load; intros ?s
  | |- keepsOk _ (check _ ≫= _) => apply keepsOk_check; intros ?
  | |- keepsOk _ (fail_if _ _ ≫= _) => apply keepsOk_fail_if; intros ?
  | |- keepsOk _ (match ?x with _ => _ end) => destruct x eqn:?E
  | |- keepsOk _ (_ ≫= _) => apply keepsOk_after; [solve [solve_frame]|intros ? ? ?R]
  | |- keepsOk _ _ => apply keepsOk_frame; solve [solve_frame]
  | |- keeps _ (get ≫= _) _ => apply keeps_get
  | |- keeps _ (check _ ≫= _) _ => apply keeps_check; intros ?
  | |- keeps _ (fail_if _ _ ≫= _) _ => apply keeps_fail_if; intros ?
  | |- keeps _ (match ?x with _ => _ end) _ => destruct x eqn:?E
  | |- keeps _ (update _ ≫= fun _ => update _ ≫= _) _ => apply keeps_update_update
  | |- keeps _ (update _ ≫= fun _ => saveLocked) _ => apply keeps_update_save
  | |- keeps _ (update _ ≫= fun _ => saveLocked ≫= _) _ =>
      apply keeps_update_save_then; [|solve [solve_frame]]
  | |- keeps _ (_ ≫= _) _ => apply keeps_after; [solve [solve_frame]|intros ? ? ?R ?F]
  | |- keeps _ _ _ => apply keeps_frame; solve [solve_frame]
  end.
Ltac walk_to_commits := repeat (cbv zeta beta; step).
