(* ===== verification/StoreInv.v ===== *)
(** The store as a state machine: its methods as steps, and the invariants that
    hold of every store they can reach. *)

From S2P Require Export StoreFacts.

(** * The methods *)

Inductive method : Type :=
  | MLoad | MSnapshot | MEnforcementSnapshot | MManagedKeysEnabled
  | MEnforcementSnapshotForToken (tokenHash : string)
  | MManagedTokenByID (id : string) (now : time)
  | MValidateToken (secret : string) (now : time)
  | MTokenView (secret : string) (now : time)
  | MAddLease (lease : Lease) | MUpdateLease (lease : Lease) | MReleaseLease (id : string)
  | MAddReservation (reservation : Reservation) | MReleaseReservation (id : string)
  | MAddAuthorization (a : Authorization) (clock : time)
  | MUpdateAuthorization (a : Authorization) (clock : time)
  | MActivateAuthorization (id : string) (rootPID : Z)
  | MReleaseAuthorization (id : string)
  | MUpsertSoftClaim (claim : SoftClaim) (now : time) | MReleaseSoftClaim (id : string)
  | MAddBypass (rule : BypassRule)
  | MAppendAudits (events : list AuditEvent)
  | MRegisterSoftToken (rootKey name : string) (now : time)
  | MRegisterToken (rootKey name ttlText : string) (now : time)
  | MRegisterScheduled (rootKey name purpose externalSessionID : string) (gpus : list Z)
      (startsAt expiresAt now : time)
  | MRegisterHard (rootKey name : string) (gpus : list Z) (ttlText : string) (now : time)
  | MRegisterManaged (rootKey userKeyID purpose externalSessionID : string) (gpus : list Z)
      (startsAt expiresAt now : time)
  | MSyncManagedUserKeys (rootKey : string) (snapshot : ManagedUserKeySnapshot) (now : time)
  | MRevoke (idOrToken : string) (clock : time)
  | MStatus (now : time) | MStatusForToken (tokenHash : string) (now : time)
  | MKeyStatus (rootKey : string) (now : time)
  | MPrune (now : time)
  | MPruneInactiveManagedScopes (authorizationIDs leaseIDs : list string)
  | MPruneUnreferenced (now : time).

Section machine.
Context `{JSON}.

(** A call of a method, its answer dropped. *)
Definition call (m : method) : M Store unit :=
  match m with
  | MLoad => Load
  | MSnapshot => Snapshot ;; ret tt
  | MEnforcementSnapshot => EnforcementSnapshot ;; ret tt
  | MManagedKeysEnabled => ManagedKeysEnabled ;; ret tt
  | MEnforcementSnapshotForToken h => EnforcementSnapshotForToken h ;; ret tt
  | MManagedTokenByID id now => ManagedTokenByID id now ;; ret tt
  | MValidateToken secret now => ValidateToken secret now ;; ret tt
  | MTokenView secret now => tokenView secret now ;; ret tt
  | MAddLease l => AddLease l
  | MUpdateLease l => UpdateLease l
  | MReleaseLease id => ReleaseLease id
  | MAddReservation r => AddReservation r
  | MReleaseReservation id => ReleaseReservation id
  | MAddAuthorization a clock => AddAuthorization a clock
  | MUpdateAuthorization a clock => UpdateAuthorization a clock
  | MActivateAuthorization id pid => ActivateAuthorization id pid ;; ret tt
  | MReleaseAuthorization id => ReleaseAuthorization id
  | MUpsertSoftClaim c now => UpsertSoftClaim c now
  | MReleaseSoftClaim id => ReleaseSoftClaim id
  | MAddBypass b => AddBypass b
  | MAppendAudits es => AppendAudits es
  | MRegisterSoftToken k n now => RegisterSoftToken k n now ;; ret tt
  | MRegisterToken k n ttl now => RegisterToken k n ttl now ;; ret tt
  | MRegisterScheduled k n p x gpus s e now =>
      RegisterScheduledReservationsWithSession k n p x gpus s e now ;; ret tt
  | MRegisterHard k n gpus ttl now => RegisterHardReservations k n gpus ttl now ;; ret tt
  | MRegisterManaged k u p x gpus s e now =>
      RegisterManagedReservations k u p x gpus s e now ;; ret tt
  | MSyncManagedUserKeys k snap now => SyncManagedUserKeys k snap now ;; ret tt
  | MRevoke id clock => Revoke id clock
  | MStatus now => StatusAll now ;; ret tt
  | MStatusForToken h now => StatusForToken h now ;; ret tt
  | MKeyStatus k now => KeyStatusReport k now ;; ret tt
  | MPrune now => Prune now
  | MPruneInactiveManagedScopes a l => PruneInactiveManagedScopes a l
  | MPruneUnreferenced now => PruneUnreferencedInvalidEntitlements now
  end.

(** The stores reached from [s0] by calls that [allowed] admits. *)
Inductive reaches (allowed : method -> bool) (s0 : Store) : Store -> Prop :=
  | reaches_start : reaches allowed s0 s0
  | reaches_call s m :
      reaches allowed s0 s -> allowed m = true -> reaches allowed s0 (final (call m) s).

Definition every (m : method) : bool := true.

(** Every method but [AddReservation], the one row insertion without an overlap
    check, which the daemon never calls. *)
Definition daemon_method (m : method) : bool :=
  match m with MAddReservation _ => false | _ => true end.

(** [New]: an unloaded store over the files of a machine. *)
Definition New (cfg : StoreConfig) (state_file root_key audit backup : option File)
    (os : nat -> option (error * nat)) (rand : nat -> Z) : Store :=
  mkStore cfg State_zero State_zero false state_file root_key audit backup os 0 rand 0.

End machine.

(** * Reservation exclusivity *)

(** Two rows never entitle anyone to the same GPU at the same instant. *)
Definition live (r : Reservation) : bool :=
  Reservation_Active r && negb (Reservation_Revoked r).

Definition compatible (r1 r2 : Reservation) : Prop :=
  Reservation_GPU r1 = Reservation_GPU r2 -> live r1 = true -> live r2 = true ->
  Reservation_ExpiresAt r1 <= ReservationStartsAt r2 \/
  Reservation_ExpiresAt r2 <= ReservationStartsAt r1.

Definition exclusive (st : State) : Prop :=
  forall i j r1 r2, i <> j ->
    State_Reservations st !! i = Some r1 -> State_Reservations st !! j = Some r2 ->
    compatible r1 r2.

(** * Row invariants

    An invariant of the reservation rows that survives weakening rows, dropping
    rows, and appending the rows of a request that passed the overlap check. *)

Definition row_le (r' r : Reservation) : Prop :=
  Reservation_GPU r' = Reservation_GPU r /\
  ReservationStartsAt r' = ReservationStartsAt r /\
  Reservation_ExpiresAt r' = Reservation_ExpiresAt r /\
  (live r' = true -> live r = true).

Definition weaken (rs' rs : list Reservation) : Prop :=
  exists mid, Forall2 row_le mid rs /\ rs' `sublist_of` mid.

(** The rows a request appends: one per GPU, all live in the same window. *)
Definition request_rows (gpus : list Z) (startsAt expiresAt : time)
    (rows : list Reservation) : Prop :=
  map Reservation_GPU rows = gpus /\
  Forall (fun r => ReservationStartsAt r = startsAt /\ Reservation_ExpiresAt r = expiresAt) rows.

Class RowInvariant (J : list Reservation -> Prop) : Prop := {
  ri_weaken rs rs' : weaken rs' rs -> J rs -> J rs';
  ri_append rs rows gpus startsAt expiresAt :
    NoDup gpus -> request_rows gpus startsAt expiresAt rows ->
    findOverlap gpus startsAt expiresAt rs = None ->
    J rs -> J (rs ++ rows)
}.

Definition overRows (J : list Reservation -> Prop) (st : State) : Prop :=
  J (State_Reservations st).

#[export] Instance RowInvariant_True : RowInvariant (fun _ => True).
Proof. by split. Qed.

Lemma row_le_refl r : row_le r r.
Proof. by repeat split. Qed.
#[export] Hint Resolve row_le_refl : store.

Lemma weaken_refl rs : weaken rs rs.
Proof. exists rs. split; [|done]. induction rs; constructor; eauto with store. Qed.

Lemma weaken_map f rs : (forall r, row_le (f r) r) -> weaken (map f rs) rs.
Proof.
  intros Hf. exists (map f rs). split; [|done]. induction rs; constructor; auto.
Qed.

Lemma sublist_filter {A} (P : A -> Prop) `{forall x, Decision (P x)} (l : list A) :
  filter P l `sublist_of` l.
Proof.
  induction l as [|x l IH]; [done|]. rewrite filter_cons.
  case_decide; by constructor.
Qed.

Lemma weaken_keep drop rs : weaken (keep drop rs) rs.
Proof.
  exists rs. split; [|apply sublist_filter]. induction rs; constructor; eauto with store.
Qed.

Lemma findIndex_lookup {A} (f : A -> bool) l i x :
  findIndex f l = Some (i, x) -> l !! i = Some x /\ f x = true.
Proof.
  revert i. induction l as [|y l IH]; intros i E; [done|]. cbn in E.
  destruct (f y) eqn:F; [by injection E as <- <-|].
  fold (findIndex (A := A) f) in E.
  destruct (findIndex f l) as [[j z]|]; [|done].
  injection E as <- <-. by apply IH.
Qed.

Lemma weaken_insert f rs i r r' :
  findIndex f rs = Some (i, r) -> row_le r' r -> weaken (<[i := r']> rs) rs.
Proof.
  intros [E _]%findIndex_lookup Hr. exists (<[i := r']> rs). split; [|done].
  apply Forall2_same_length_lookup_2; [apply length_insert|].
  intros j x y Hx Hy. destruct (decide (i = j)) as [<-|N].
  - rewrite list_lookup_insert_eq in Hx by (eapply lookup_lt_Some; eauto). congruence.
  - rewrite list_lookup_insert_ne in Hx by done.
    assert (x = y) as -> by congruence. apply row_le_refl.
Qed.

(** The reservation rows of each pure change are weakenings of the old ones. *)

Lemma row_le_revoked r : row_le (Reservation_set_Revoked true r) r.
Proof. repeat split. unfold live. cbn. by rewrite andb_false_r. Qed.
Lemma row_le_inactive r : row_le (Reservation_set_Active false r) r.
Proof. by repeat split. Qed.
Lemma row_le_rebound h r : row_le (Reservation_set_TokenHash h r) r.
Proof. by repeat split. Qed.
Lemma row_le_grouped g r : row_le (Reservation_set_GroupID g r) r.
Proof. by repeat split. Qed.
Lemma row_le_trans r1 r2 r3 : row_le r1 r2 -> row_le r2 r3 -> row_le r1 r3.
Proof. unfold row_le. intuition congruence. Qed.
#[export] Hint Resolve row_le_revoked row_le_inactive row_le_rebound row_le_grouped : store.

Lemma weaken_markRows sel rs :
  weaken (markRows sel (Reservation_set_Revoked true) rs) rs.
Proof. apply weaken_map. intros r. destruct (sel r); eauto with store. Qed.

Lemma weaken_revokeGroup g rs : weaken (revokeGroup g rs) rs.
Proof. apply weaken_map. intros r. destruct (inGroup g r); eauto with store. Qed.

Lemma row_le_attach b r : row_le (attachToKey b r) r.
Proof. unfold attachToKey. case_match; eauto with store. Qed.

Lemma row_le_withGroupID o r s r' : result (withGroupID o r) s = inr r' -> row_le r' r.
Proof.
  unfold withGroupID. repeat case_match; [|by intros [= <-]..].
  intros (h & _ & [= <-])%result_bind. apply row_le_grouped.
Qed.

Lemma rebound_rows o b rs s rs' :
  result (rebindReservations o b rs) s = inr rs' -> Forall2 row_le rs' rs.
Proof.
  revert s rs'. induction rs as [|r rs IH]; intros s rs' E; cbn in E.
  { injection E as <-. constructor. }
  apply result_bind in E as (g & G & (more & M & [= <-])%result_bind).
  constructor; [|by eapply IH].
  eapply row_le_trans; [apply row_le_attach|by eapply row_le_withGroupID].
Qed.

Lemma weaken_rows rs' rs : Forall2 row_le rs' rs -> weaken rs' rs.
Proof. by exists rs'. Qed.

(** * Changes that report nothing to save *)

Lemma existsb_false_Forall {A} (f : A -> bool) l :
  existsb f l = false -> Forall (fun x => f x = false) l.
Proof.
  induction l as [|x l IH]; cbn; [by constructor|].
  intros [E1 E2]%orb_false_iff. constructor; auto.
Qed.

Lemma keep_all {A} (f : A -> bool) l : existsb f l = false -> keep f l = l.
Proof. intros E%existsb_false_Forall. by apply filter_all. Qed.

Lemma markRows_none {A} (f : A -> bool) g l : existsb f l = false -> markRows f g l = l.
Proof.
  intros E%existsb_false_Forall. induction E as [|x l Ex _ IH]; cbn; [done|].
  rewrite Ex. f_equal. exact IH.
Qed.

Lemma State_eta st :
  mkState (State_ManagedKeys st) (State_KeySnapshotID st) (State_Tokens st)
    (State_Reservations st) (State_Authorizations st) (State_SoftClaims st)
    (State_Leases st) (State_Bypasses st) (State_Audit st) = st.
Proof. by destruct st. Qed.

Lemma pruneExpired_unchanged now st : (pruneExpired now st).2 = false ->
  (pruneExpired now st).1 = st.
Proof.
  unfold pruneExpired; cbn -[size].
  intros [((((E1 & E2)%orb_false_iff & E3)%orb_false_iff & E4)%orb_false_iff & E5)%orb_false_iff
    E6]%orb_false_iff.
  rewrite (keep_all _ _ E1), (keep_all _ _ E2), (keep_all _ _ E3), (keep_all _ _ E4),
    (keep_all _ _ E5).
  destruct (_ || _) eqn:P; [|by apply State_eta]. cbn in E6.
  rewrite (keep_all _ _ E3) in E6. rewrite (keep_all _ _ E6).
  by apply State_eta.
Qed.

Lemma revokeTokens_changed id h c ts : c = true -> (revokeTokens id h c ts).2 = true.
Proof.
  intros ->. revert h. induction ts as [|t ts IH]; intros h; cbn; [done|].
  case_match; [specialize (IH (Token_Hash t))|specialize (IH h)];
    by destruct (revokeTokens _ _ _ _) as [[? ?] ?].
Qed.

Lemma revokeTokens_unchanged id h ts ts' h' :
  revokeTokens id h false ts = (ts', h', false) -> ts' = ts /\ h' = h.
Proof.
  revert ts' h'. induction ts as [|t ts IH]; intros ts' h'; cbn; [by intros [= <- <-]|].
  case_match.
  - pose proof (revokeTokens_changed id (Token_Hash t) true ts eq_refl) as C.
    destruct (revokeTokens _ _ true _) as [[ts1 h1] c1]; cbn in *. congruence.
  - destruct (revokeTokens _ _ false ts) as [[ts1 h1] c1]. intros [= <- <- ->].
    by destruct (IH ts1 h1 eq_refl) as [-> ->].
Qed.

Lemma revokeState_unchanged id clock st : (revokeState id clock st).2 = false ->
  (revokeState id clock st).1 = st.
Proof.
  unfold revokeState. destruct (revokeTokens _ _ _ _) as [[ts h] c] eqn:T; cbn.
  intros [((((E1 & E2)%orb_false_iff & E3)%orb_false_iff & E4)%orb_false_iff & E5)%orb_false_iff
    E6]%orb_false_iff.
  subst c. apply revokeTokens_unchanged in T as [-> ->].
  rewrite !markRows_none by done. destruct (_ || _) eqn:P; [|by apply State_eta].
  cbn in E6. pose proof (keep_all _ _ E6) as K. unfold keep in K. rewrite K.
  by apply State_eta.
Qed.

(** * The rows of a checked request *)

Lemma mem_gpu_insert seen g k :
  mem_gpu (<[g := true]> seen) k = (bool_decide (g = k) || mem_gpu seen k).
Proof.
  unfold mem_gpu. case_bool_decide; subst;
    [by rewrite lookup_insert_eq|by rewrite lookup_insert_ne].
Qed.

Lemma checkGPUs_NoDup valid seen gpus :
  checkGPUs valid seen gpus = None ->
  NoDup gpus /\ Forall (fun g => mem_gpu seen g = false /\ valid g = None) gpus.
Proof.
  revert seen. induction gpus as [|g gpus IH]; intros seen E; cbn in E.
  { split; constructor. }
  destruct (valid g) eqn:V; [done|]. destruct (mem_gpu seen g) eqn:G; [done|].
  apply IH in E as [N F]. assert (forall k, k ∈ gpus -> mem_gpu (<[g:=true]> seen) k = false /\ valid k = None) as F'.
  { by apply list.Forall_forall. }
  split.
  - constructor; [|done]. intros [X _]%F'. rewrite mem_gpu_insert in X.
    by rewrite bool_decide_true in X.
  - constructor; [done|]. apply list.Forall_forall. intros k Hk.
    destruct (F' k Hk) as [X ?]. rewrite mem_gpu_insert in X.
    by apply orb_false_iff in X as [_ ?].
Qed.

Lemma newReservations_rows g x h p n startsAt now expiresAt gpus s rows :
  (IsZero startsAt = true -> now = startsAt) ->
  result (newReservations g x h p n now startsAt expiresAt gpus) s = inr rows ->
  request_rows gpus startsAt expiresAt rows.
Proof.
  intros Z. revert s rows. induction gpus as [|gpu gpus IH]; intros s rows; cbn.
  { intros [= <-]. by split. }
  intros (id & _ & (more & M & [= <-])%result_bind)%result_bind.
  destruct (IH _ _ M) as [E F]. split; [cbn; by f_equal|]. constructor; [|done].
  split; [|done]. unfold ReservationStartsAt; cbn.
  destruct (IsZero startsAt); [by apply Z|done].
Qed.

Lemma effective_start startsAt (now : time) :
  let s := if IsZero startsAt then now else startsAt in IsZero s = true -> now = s.
Proof. cbn. destruct (IsZero startsAt) eqn:E; congruence. Qed.

(** * Every method keeps a row invariant *)

Section keeps.
Context `{JSON} (J : list Reservation -> Prop) `{!RowInvariant J}.
Set Default Proof Using "Type*".

Lemma commits_other f st :
  State_Reservations (f st) = State_Reservations st -> commits (overRows J) f st.
Proof. intros E HI _. unfold overRows in *. by rewrite E. Qed.

Lemma commits_weaken f st :
  weaken (State_Reservations (f st)) (State_Reservations st) ->
  commits (overRows J) f st.
Proof. intros W HI _. exact (ri_weaken _ _ W HI). Qed.

Lemma commits_append f rows gpus startsAt expiresAt st :
  NoDup gpus -> request_rows gpus startsAt expiresAt rows ->
  findOverlap gpus startsAt expiresAt (State_Reservations st) = None ->
  State_Reservations (f st) = State_Reservations st ++ rows ->
  commits (overRows J) f st.
Proof. intros N R O E HI _. unfold overRows. rewrite E. by eapply ri_append. Qed.

Ltac walk := walk_to_commits; try (apply commits_other; reflexivity).

Lemma keepsOk_loadLocked : keepsOk (overRows J) loadLocked.
Proof.
  intros s Hs. pose proof (keepsOk_load (overRows J) (fun _ => ret tt)) as K.
  assert (final loadLocked s = final (loadLocked ≫= fun _ => ret tt) s) as ->.
  { rewrite bind_inv. by destruct (result loadLocked s) as [|[]]. }
  apply K; [|done]. intros ?. by apply keeps_frame, frame_ret.
Qed.

Lemma keepsOk_Snapshot : keepsOk (overRows J) (Snapshot).
Proof. unfold Snapshot. walk. Qed.
Lemma keepsOk_EnforcementSnapshot : keepsOk (overRows J) (EnforcementSnapshot).
Proof. unfold EnforcementSnapshot. walk. Qed.
Lemma keepsOk_ManagedKeysEnabled : keepsOk (overRows J) (ManagedKeysEnabled).
Proof. unfold ManagedKeysEnabled. walk. Qed.
Lemma keepsOk_EnforcementSnapshotForToken h : keepsOk (overRows J) (EnforcementSnapshotForToken h).
Proof. unfold EnforcementSnapshotForToken. walk. Qed.
Lemma keepsOk_ManagedTokenByID i n : keepsOk (overRows J) (ManagedTokenByID i n).
Proof. unfold ManagedTokenByID. walk. Qed.
Lemma keepsOk_AddLease l : keepsOk (overRows J) (AddLease l).
Proof. unfold AddLease. walk. Qed.
Lemma keepsOk_UpdateLease l : keepsOk (overRows J) (UpdateLease l).
Proof. unfold UpdateLease. walk. Qed.
Lemma keepsOk_ReleaseLease i : keepsOk (overRows J) (ReleaseLease i).
Proof. unfold ReleaseLease. walk. Qed.
Lemma keepsOk_AddAuthorization a c : keepsOk (overRows J) (AddAuthorization a c).
Proof. unfold AddAuthorization. walk. Qed.
Lemma keepsOk_UpdateAuthorization a c : keepsOk (overRows J) (UpdateAuthorization a c).
Proof. unfold UpdateAuthorization. walk. Qed.
Lemma keepsOk_ActivateAuthorization i p : keepsOk (overRows J) (ActivateAuthorization i p).
Proof. unfold ActivateAuthorization. walk. Qed.
Lemma keepsOk_ReleaseAuthorization i : keepsOk (overRows J) (ReleaseAuthorization i).
Proof. unfold ReleaseAuthorization. walk. Qed.
Lemma keepsOk_UpsertSoftClaim c n : keepsOk (overRows J) (UpsertSoftClaim c n).
Proof. unfold UpsertSoftClaim, NewSoftClaimID. walk. Qed.
Lemma keepsOk_ReleaseSoftClaim i : keepsOk (overRows J) (ReleaseSoftClaim i).
Proof. unfold ReleaseSoftClaim. walk. Qed.
Lemma keepsOk_AddBypass b : keepsOk (overRows J) (AddBypass b).
Proof. unfold AddBypass. walk. Qed.
Lemma keepsOk_AppendAudits es : keepsOk (overRows J) (AppendAudits es).
Proof. unfold AppendAudits. walk. Qed.
Lemma keepsOk_RegisterSoftToken k n t : keepsOk (overRows J) (RegisterSoftToken k n t).
Proof. unfold RegisterSoftToken. walk. Qed.
Lemma keepsOk_RegisterToken k n l t : keepsOk (overRows J) (RegisterToken k n l t).
Proof. unfold RegisterToken. walk. Qed.
Lemma keepsOk_status n h b : keepsOk (overRows J) (status n h b).
Proof. unfold status. walk. Qed.

Lemma keepsOk_ReleaseReservation i : keepsOk (overRows J) (ReleaseReservation i).
Proof.
  unfold ReleaseReservation. walk. apply commits_weaken.
  eapply weaken_insert; eauto with store.
Qed.

Lemma keepsOk_RegisterScheduledReservationsWithSession k n p x gpus st e now :
  keepsOk (overRows J) (RegisterScheduledReservationsWithSession k n p x gpus st e now).
Proof.
  unfold RegisterScheduledReservationsWithSession. walk.
  match goal with
  | R : result (newReservations _ _ _ _ _ _ _ _ _) _ = _ |- _ =>
      apply newReservations_rows in R; [|apply effective_start]
  end.
  match goal with G : checkGPUs _ _ _ = None |- _ => apply checkGPUs_NoDup in G as [? _] end.
  eapply commits_append; eauto.
Qed.

Lemma keepsOk_RegisterHardReservations k n gpus ttl now :
  keepsOk (overRows J) (RegisterHardReservations k n gpus ttl now).
Proof.
  unfold RegisterHardReservations.
  destruct (ParseTTL _ _ _); [apply keepsOk_frame, frame_throw|].
  apply keepsOk_RegisterScheduledReservationsWithSession.
Qed.

Lemma keepsOk_RegisterManagedReservations k u p x gpus st e now :
  keepsOk (overRows J) (RegisterManagedReservations k u p x gpus st e now).
Proof.
  unfold RegisterManagedReservations. walk.
  match goal with
  | R : result (newReservations _ _ _ _ _ _ _ _ _) _ = _ |- _ =>
      apply newReservations_rows in R; [|apply effective_start]
  end.
  match goal with G : checkGPUs _ _ _ = None |- _ => apply checkGPUs_NoDup in G as [? _] end.
  match goal with F : mem ?s1 = mem _, F' : mem _ = mem ?s1 |- _ =>
    rewrite F in F'; injection F' as F' _ _; rewrite F' end.
  eapply commits_append; eauto.
Qed.

Lemma keepsOk_SyncManagedUserKeys k snap now :
  keepsOk (overRows J) (SyncManagedUserKeys k snap now).
Proof.
  unfold SyncManagedUserKeys. walk.
  match goal with F : mem _ = mem _ |- _ => injection F as F _ _; rewrite F end.
  apply commits_weaken, weaken_rows. by eapply rebound_rows.
Qed.

Lemma keepsOk_Revoke id clock : keepsOk (overRows J) (Revoke id clock).
Proof.
  unfold Revoke. walk; [apply commits_weaken, weaken_revokeGroup|].
  match goal with E : revokeState ?i ?c ?st = (?st', ?ch) |- _ =>
    pose proof (revokeState_unchanged i c st) as U; rewrite E in U; destruct ch
  end.
  - apply keeps_update_save, commits_weaken.
    match goal with E : revokeState _ _ _ = _ |- _ =>
      revert E; unfold revokeState; destruct (revokeTokens _ _ _ _) as [[? ?] ?];
      intros [= <- _] end.
    apply weaken_markRows.
  - apply keeps_update_same; [by apply U|]. by intros ?.
Qed.

Lemma weaken_pruneExpired now st :
  weaken (State_Reservations (pruneExpired now st).1) (State_Reservations st).
Proof. apply weaken_keep. Qed.

Lemma weaken_pruneUnreferenced now st :
  weaken (State_Reservations (pruneUnreferenced now st).1) (State_Reservations st).
Proof. apply weaken_keep. Qed.

Lemma keepsOk_Prune now : keepsOk (overRows J) (Prune now).
Proof.
  unfold Prune. walk.
  match goal with E : pruneExpired ?n ?st = (_, ?ch) |- _ =>
    pose proof (pruneExpired_unchanged n st) as U;
    pose proof (weaken_pruneExpired n st) as W; rewrite E in U, W; destruct ch
  end; cbn in *.
  - by apply keeps_update_save, commits_weaken.
  - apply keeps_update_same; [by apply U|]. by apply keeps_frame, frame_ret.
Qed.

Lemma keepsOk_PruneUnreferenced now :
  keepsOk (overRows J) (PruneUnreferencedInvalidEntitlements now).
Proof.
  unfold PruneUnreferencedInvalidEntitlements. walk.
  match goal with E : pruneUnreferenced ?n ?st = _ |- _ =>
    pose proof (weaken_pruneUnreferenced n st) as W; rewrite E in W end.
  by apply commits_weaken.
Qed.

Lemma keepsOk_PruneInactiveManagedScopes a l :
  keepsOk (overRows J) (PruneInactiveManagedScopes a l).
Proof.
  unfold PruneInactiveManagedScopes. walk.
  match goal with E : pruneScopes _ _ _ = (_, _) |- _ => revert E end.
  unfold pruneScopes. intros [= <- _]. by apply commits_other.
Qed.

Lemma keepsOk_ValidateToken secret now : keepsOk (overRows J) (ValidateToken secret now).
Proof.
  intros s Hs.
  assert (final (ValidateToken secret now) s = final loadLocked s) as ->;
    [|by apply keepsOk_loadLocked].
  unfold ValidateToken, mbind, M_bind, bind, try, final.
  destruct (loadLocked s) as [[e|[]] s1]; cbn; [done|]. by repeat case_match.
Qed.

Lemma keepsOk_AddReservation r :
  (forall rs, J rs -> J (rs ++ [r])) -> keepsOk (overRows J) (AddReservation r).
Proof.
  intros Hr. unfold AddReservation. walk. intros HI _. by apply Hr.
Qed.

#[local] Hint Resolve keepsOk_loadLocked keepsOk_Snapshot keepsOk_EnforcementSnapshot
  keepsOk_ManagedKeysEnabled keepsOk_EnforcementSnapshotForToken keepsOk_ManagedTokenByID
  keepsOk_ValidateToken keepsOk_AddLease keepsOk_UpdateLease keepsOk_ReleaseLease
  keepsOk_ReleaseReservation keepsOk_AddAuthorization keepsOk_UpdateAuthorization
  keepsOk_ActivateAuthorization keepsOk_ReleaseAuthorization keepsOk_UpsertSoftClaim
  keepsOk_ReleaseSoftClaim keepsOk_AddBypass keepsOk_AppendAudits keepsOk_RegisterSoftToken
  keepsOk_RegisterToken keepsOk_RegisterScheduledReservationsWithSession
  keepsOk_RegisterHardReservations keepsOk_RegisterManagedReservations
  keepsOk_SyncManagedUserKeys keepsOk_Revoke keepsOk_status keepsOk_Prune
  keepsOk_PruneUnreferenced keepsOk_PruneInactiveManagedScopes frame_ret frame_check : keeps.

Lemma keepsOk_StatusForToken h now : keepsOk (overRows J) (StatusForToken h now).
Proof.
  unfold StatusForToken. apply keepsOk_fail_if. intros _. apply keepsOk_status.
Qed.

Lemma keepsOk_KeyStatusReport k now : keepsOk (overRows J) (KeyStatusReport k now).
Proof. unfold KeyStatusReport. walk. Qed.

Lemma keepsOk_tokenView secret now : keepsOk (overRows J) (tokenView secret now).
Proof.
  apply keepsOk_then; [apply keepsOk_ValidateToken|].
  intros [[t h] e]. apply frame_bind; intros; solve_frame.
Qed.
#[local] Hint Resolve keepsOk_StatusForToken keepsOk_KeyStatusReport keepsOk_tokenView : keeps.

(** Every method of the daemon keeps every row invariant. *)
Lemma keepsOk_call m : daemon_method m = true -> keepsOk (overRows J) (call m).
Proof.
  destruct m; intros D; try done; unfold call, Load, StatusAll;
    first [solve [auto with keeps] | apply keepsOk_then; auto with keeps].
Qed.

Lemma reaches_Ok allowed s0 s :
  (forall m, allowed m = true -> keepsOk (overRows J) (call m)) ->
  Ok (overRows J) s0 -> reaches allowed s0 s -> Ok (overRows J) s.
Proof. intros Hm H0. induction 1; [done|]. by apply Hm. Qed.

End keeps.
