(* ===== verification/StoreRun.v ===== *)
(** What a successful call leaves: symbolic execution of the methods on a loaded
    store. *)

From S2P Require Export StoreInv StringFacts.

(** What the methods leave on disk: the state file always holds an encoding of
    the last committed state, so a restart recovers it. *)

Section durable.
Context `{JSON}.

(** The state file as [saveLocked] writes it. *)
Definition stateFileOf (data : string) : File :=
  mkFile true 384 (data +:+ String (byte_of 10) EmptyString).

(** Between two loaded stores: the state file and the committed state are both
    unchanged, or the file holds the encoding of the new committed state. *)
Definition saved (s s' : Store) : Prop :=
  (w_state_file s' = w_state_file s /\ s_committed s' = s_committed s) \/
  (exists data, MarshalState (s_committed s') = inr data /\
     slen data <= maxStateFileBytes /\
     validateStateBounds (s_committed s') = None /\
     w_state_file s' = Some (stateFileOf data)).

Definition conserves {A} (m : M Store A) : Prop := forall s,
  s_loaded s = true -> s_loaded (final m s) = true /\ saved s (final m s).

Lemma saved_trans s1 s2 s3 : saved s1 s2 -> saved s2 s3 -> saved s1 s3.
Proof. unfold saved. intros [[E1 E2]|(d & D)] [[E3 E4]|D']; [left|right|right|right]; auto;
  [by rewrite E3, E4, E1, E2|exists d; by rewrite E3, E4]. Qed.

Lemma saved_refl s s' :
  w_state_file s' = w_state_file s -> s_committed s' = s_committed s -> saved s s'.
Proof. by left. Qed.

Lemma conserves_bind {A B} (m : M Store A) (k : A -> M Store B) :
  conserves m -> (forall a, conserves (k a)) -> conserves (m ≫= k).
Proof.
  intros Hm Hk s L. destruct (Hm s L) as [L1 S1]. rewrite bind_inv.
  destruct (result m s) as [e|a]; [done|]. destruct (Hk a _ L1) as [L2 S2].
  split; [done|]. by eapply saved_trans.
Qed.

Lemma conserves_try {A} (m : M Store A) : conserves m -> conserves (try m).
Proof.
  intros Hm s L. specialize (Hm s L). unfold final, try in *. by destruct (m s).
Qed.

(** A computation that touches neither the state file nor the memory. *)
Definition still {A} (m : M Store A) : Prop :=
  forall s, mem (final m s) = mem s /\ w_state_file (final m s) = w_state_file s.

Lemma conserves_still {A} (m : M Store A) : still m -> conserves m.
Proof.
  intros Hm s L. destruct (Hm s) as [[= E1 E2 E3] E4]. rewrite E3. split; [done|by left].
Qed.

Lemma still_os : still os.
Proof. intros s. unfold final, os. by destruct (w_os s (w_calls s)) as [[]|]. Qed.
Lemma still_writeAll data : still (writeAll data).
Proof. intros s. unfold final, writeAll. by destruct (w_os s (w_calls s)) as [[]|]. Qed.

Lemma still_bind {A B} (m : M Store A) (k : A -> M Store B) :
  still m -> (forall a, still (k a)) -> still (m ≫= k).
Proof.
  intros Hm Hk s. rewrite bind_inv. destruct (result m s) as [e|a]; [apply Hm|].
  destruct (Hk a (final m s)) as [-> ->]. apply Hm.
Qed.

Lemma still_try {A} (m : M Store A) : still m -> still (try m).
Proof. intros Hm s. specialize (Hm s). unfold final, try in *. by destruct (m s). Qed.

Lemma still_ret {A} (a : A) : still (ret a).
Proof. done. Qed.
Lemma still_throw {A} e : still (A := A) (throw e).
Proof. done. Qed.

Create HintDb still.
Hint Resolve still_os still_ret still_throw still_bind still_try : still.

Lemma still_syncDir : still syncDir.
Proof. unfold syncDir. auto with still. Qed.

Lemma still_writeSyncedTempFile d : still (writeSyncedTempFile d).
Proof.
  unfold writeSyncedTempFile. apply still_bind; [auto with still|intros []].
  apply still_bind; [auto 6 with still|intros r]. apply still_bind; [auto with still|intros c].
  destruct r, c; auto with still.
Qed.

(** The rename is the only step that changes the state file. *)
Lemma writeFileAtomically_file data s :
  let s' := final (writeFileAtomically data) s in
  mem s' = mem s /\
  match result (writeFileAtomically data) s with
  | inr (true, _) => w_state_file s' = Some (mkFile true 384 data)
  | inr (false, _) => w_state_file s' = w_state_file s
  | inl _ => False
  end.
Proof.
  split; [apply frame_writeFileAtomically|].
  unfold writeFileAtomically, result, final, mbind, M_bind, bind, try; cbn.
  destruct (still_writeSyncedTempFile data s) as [_ F1]. unfold final in F1.
  destruct (writeSyncedTempFile data s) as [[e|[]] s1]; cbn in *; [done|].
  destruct (still_os s1) as [_ F2]. unfold final in F2.
  destruct (os s1) as [[e|[]] s2]; cbn in *.
  - destruct (still_os s2) as [_ F3]. unfold final in F3.
    destruct (os s2) as [[?|[]] s3]; cbn in *; congruence.
  - set (s3 := set_state_file _ s2).
    destruct (still_syncDir s3) as [_ F4]. unfold final in F4.
    destruct (syncDir s3) as [r s4]; cbn in *.
    destruct (still_os s4) as [_ F5]. unfold final in F5.
    destruct (os s4) as [[?|[]] s5]; cbn in *; by rewrite F5, F4.
Qed.

Lemma conserves_saveBody : conserves saveBody.
Proof.
  intros s L. unfold saveBody, final, mbind, M_bind, bind, get; cbn.
  destruct (validateStateBounds (s_state s)) eqn:V; cbn; [split; [done|by left]|].
  destruct (still_os s) as [[= E1 E2 E3] E4]. unfold final in E1, E2, E3, E4.
  destruct (os s) as [[e|[]] s1]; cbn in *; [split; [congruence|by left]|].
  destruct (MarshalState (s_state s)) as [e|data] eqn:D; cbn; [split; [congruence|by left]|].
  unfold fail_if. destruct (Z.ltb_spec maxStateFileBytes (slen data)); cbn;
    [split; [congruence|by left]|].
  destruct (writeFileAtomically_file (data +:+ String (byte_of 10) EmptyString) s1) as [W F].
  unfold final, result in W, F. injection W as W1 W2 W3.
  destruct (writeFileAtomically _ s1) as [[e|[[] err]] s2]; cbn in *; [done| |].
  - split; [by destruct err; cbn; congruence|].
    right. exists data. rewrite W1, E1, cloneState_id in *. by destruct err.
  - split; [by destruct err; cbn; congruence|]. left. destruct err; cbn; split; congruence.
Qed.

Lemma conserves_saveLocked : conserves saveLocked.
Proof.
  intros s L. destruct (conserves_saveBody s L) as [L' S]. revert L' S.
  unfold saveLocked, final, mbind, M_bind, bind, try, result; cbn.
  by destruct (saveBody s) as [[e|[]] s1].
Qed.

Lemma conserves_loadLocked : conserves loadLocked.
Proof. intros s L. unfold final. rewrite (load_loaded s L). split; [done|by left]. Qed.

(** ** The primitives and the methods *)

Lemma conserves_ret {A} (a : A) : conserves (ret a).
Proof. by apply conserves_still. Qed.
Lemma conserves_throw {A} e : conserves (A := A) (throw e).
Proof. by apply conserves_still. Qed.
Lemma conserves_get : conserves get.
Proof. by apply conserves_still. Qed.
Lemma conserves_gets {A} (f : Store -> A) : conserves (gets f).
Proof. by apply conserves_still. Qed.
Lemma conserves_check e : conserves (check e).
Proof. destruct e; by apply conserves_still. Qed.
Lemma conserves_fail_if b e : conserves (fail_if b e).
Proof. destruct b; by apply conserves_still. Qed.
Lemma conserves_os : conserves os.
Proof. apply conserves_still, still_os. Qed.
Lemma conserves_writeAll data : conserves (writeAll data).
Proof. apply conserves_still, still_writeAll. Qed.
Lemma conserves_randomHex n : conserves (randomHex n).
Proof. by apply conserves_still. Qed.
Lemma conserves_update f : conserves (update f).
Proof. intros s L. split; [done|by left]. Qed.
Lemma conserves_root_key f : conserves (modify (set_root_key_file f)).
Proof. by apply conserves_still. Qed.
Lemma conserves_audit_files f g : conserves (modify (set_audit_files f g)).
Proof. by apply conserves_still. Qed.
Lemma conserves_syncDir : conserves syncDir.
Proof. apply conserves_still, still_syncDir. Qed.
Lemma conserves_writeSyncedTempFile d : conserves (writeSyncedTempFile d).
Proof. apply conserves_still, still_writeSyncedTempFile. Qed.

Create HintDb conserve.
Hint Resolve conserves_ret conserves_throw conserves_get conserves_gets conserves_check
  conserves_fail_if conserves_os conserves_writeAll conserves_randomHex conserves_update conserves_root_key
  conserves_audit_files conserves_syncDir conserves_writeSyncedTempFile conserves_saveLocked
  conserves_loadLocked : conserve.

Ltac solve_conserves :=
  repeat (intros; cbv zeta;
    lazymatch goal with
    | |- conserves (match ?x with _ => _ end) => destruct x
    | |- conserves (try _) => apply conserves_try
    | |- conserves _ => first [solve [auto with conserve] | apply conserves_bind]
    end).

Lemma conserves_ReadOrCreateRootKey : conserves ReadOrCreateRootKey.
Proof. unfold ReadOrCreateRootKey, readRootKeyFile, createRootKeyFile, os_Open. solve_conserves. Qed.
Hint Resolve conserves_ReadOrCreateRootKey : conserve.
Lemma conserves_requireRootKey k : conserves (requireRootKey k).
Proof. unfold requireRootKey, ValidateRootKey. solve_conserves. Qed.
Lemma conserves_newToken m n e t : conserves (newToken m n e t).
Proof. unfold newToken. solve_conserves. Qed.
Lemma conserves_newReservations g e t h p n s x gpus :
  conserves (newReservations g e t h p n s x gpus).
Proof. induction gpus; cbn; unfold NewReservationID, newID; solve_conserves. Qed.
Lemma conserves_rebind o b rs : conserves (rebindReservations o b rs).
Proof. induction rs; cbn; unfold withGroupID; solve_conserves. Qed.
Lemma conserves_appendAuditLogs es : conserves (appendAuditLogs es).
Proof. unfold appendAuditLogs, rotateAuditLogIfNeeded, os_Lstat, os_Open. solve_conserves. Qed.
Lemma conserves_ValidateToken x now : conserves (ValidateToken x now).
Proof. unfold ValidateToken. solve_conserves. Qed.
Lemma conserves_Scheduled k n p x gpus s e now :
  conserves (RegisterScheduledReservationsWithSession k n p x gpus s e now).
Proof.
  pose proof conserves_requireRootKey. pose proof conserves_newToken.
  pose proof conserves_newReservations.
  unfold RegisterScheduledReservationsWithSession. solve_conserves.
Qed.
Hint Resolve conserves_requireRootKey conserves_newToken conserves_newReservations
  conserves_rebind conserves_appendAuditLogs conserves_ValidateToken conserves_Scheduled
  : conserve.

(** Every method conserves the correspondence between file and memory. *)
Lemma conserves_call m : conserves (call m).
Proof.
  destruct m; unfold call, Load, Snapshot, EnforcementSnapshot, ManagedKeysEnabled,
    EnforcementSnapshotForToken, ManagedTokenByID, tokenView, AddLease, UpdateLease,
    ReleaseLease, AddReservation, ReleaseReservation, AddAuthorization, UpdateAuthorization,
    ActivateAuthorization, ReleaseAuthorization, UpsertSoftClaim, ReleaseSoftClaim, AddBypass,
    AppendAudits, RegisterSoftToken, RegisterToken, RegisterHardReservations,
    RegisterScheduledReservations, RegisterManagedReservations, SyncManagedUserKeys, Revoke,
    StatusAll, StatusForToken, KeyStatusReport, status, Prune, PruneInactiveManagedScopes,
    PruneUnreferencedInvalidEntitlements, NewSoftClaimID, newID; solve_conserves.
Qed.

Lemma reaches_saved allowed s0 s :
  reaches allowed s0 s -> s_loaded s0 = true -> s_loaded s = true /\ saved s0 s.
Proof.
  intros R L. induction R as [|s m R IH A]; [split; [done|by left]|].
  destruct IH as [L1 S1]. destruct (conserves_call m s L1). split; [done|].
  by eapply saved_trans.
Qed.

(** ** Restarting *)

(** The state a start reads from a state file. *)
Definition decodes (f : option File) (st : State) : Prop :=
  validateStateBounds st = None /\
  match f with
  | None => st = State_zero
  | Some f =>
      file_regular f = true /\ permOpenToOthers f = false /\
      slen (file_data f) <= maxStateFileBytes /\
      if blank (file_data f) then st = State_zero
      else UnmarshalState (file_data f) State_zero = (None, st)
  end.

(** The machine after a restart: a new store over the files, no call failing. *)
Definition reboot (s : Store) : Store :=
  New (s_cfg s) (w_state_file s) (w_root_key_file s) (w_audit_log s) (w_audit_backup s)
    (fun _ => None) (w_rand s).

(** Absence of a file is [None] in the model, so no other failure reports it. *)
Definition honest (os : nat -> option (error * nat)) : Prop :=
  forall n e bytes, os n = Some (e, bytes) -> errors_Is e errNotExist = false.

Lemma os_cases s :
  (exists e n, w_os s (w_calls s) = Some (e, n) /\ os s = (inl e, set_calls (S (w_calls s)) s)) \/
  (w_os s (w_calls s) = None /\ os s = (inr tt, set_calls (S (w_calls s)) s)).
Proof. unfold os. destruct (w_os s (w_calls s)) as [[]|]; eauto. Qed.

Lemma readStateFile_ok s : honest (w_os s) ->
  match result readStateFile s with
  | inl e => errors_Is e errNotExist = true -> w_state_file s = None
  | inr data => exists f, w_state_file s = Some f /\ data = file_data f /\
      file_regular f = true /\ permOpenToOthers f = false /\
      slen (file_data f) <= maxStateFileBytes
  end.
Proof.
  intros O. unfold readStateFile, os_Open, result, mbind, M_bind, bind, get; cbn.
  destruct (os_cases s) as [(e & n & E & ->)|[_ ->]]; cbn.
  { rewrite (O _ _ _ E). done. }
  destruct (w_state_file s) as [f|]; cbn; [|done].
  destruct (os_cases (set_calls (S (w_calls s)) s)) as [(e & n & E & ->)|[_ ->]]; cbn.
  { rewrite (O _ _ _ E). done. }
  destruct (file_regular f) eqn:R; cbn; [|done].
  destruct (permOpenToOthers f) eqn:P; cbn; [done|].
  match goal with |- context [os ?s1] => destruct (os_cases s1) as [(e & n & E & ->)|[_ ->]] end; cbn.
  { rewrite (O _ _ _ E). done. }
  unfold fail_if. destruct (Z.ltb_spec maxStateFileBytes (slen (file_data f))); cbn; [done|].
  by exists f.
Qed.

(** A first start reads the state its file encodes. *)
Lemma load_decodes s :
  s_loaded s = false -> s_state s = State_zero -> honest (w_os s) ->
  result loadLocked s = inr tt ->
  w_state_file (final loadLocked s) = w_state_file s /\
  decodes (w_state_file s) (s_state (final loadLocked s)).
Proof.
  intros L Z O. pose proof (readStateFile_ok s O) as F. revert F.
  assert (still readStateFile) as St.
  { unfold readStateFile, os_Open, fail_if. apply still_bind; [done|intros s1].
    apply still_bind; [destruct (w_state_file s1); auto with still|intros f].
    apply still_bind; [auto with still|intros _].
    apply still_bind; [destruct (negb _); auto with still|intros _].
    apply still_bind; [destruct (permOpenToOthers _); auto with still|intros _].
    apply still_bind; [auto with still|intros _].
    apply still_bind; [destruct (_ <? _); auto with still|auto with still]. }
  destruct (St s) as [Mem File]. revert Mem File.
  unfold loadLocked, result, final, try, mbind, M_bind, bind, get; cbn. rewrite L.
  destruct (readStateFile s) as [[e|data] s1]; cbn; intros [= E1 E2 E3] File.
  - destruct (errors_Is e errNotExist); cbn; [|done]. intros F _.
    by rewrite File, (F eq_refl).
  - intros (f & Hf & -> & R & P & B). unfold decodes. rewrite Hf.
    destruct (blank (file_data f)) eqn:Bl; cbn; [rewrite <- Hf; by repeat split|].
    rewrite E1, Z. destruct (UnmarshalState (file_data f) State_zero) as [[e|] st]; cbn; [done|].
    destruct (validateStateBounds st) eqn:V; cbn; [done|]. intros _. rewrite <- Hf.
    by repeat split.
Qed.

Lemma decodes_load s st :
  s_loaded s = false -> s_state s = State_zero -> (forall n, w_os s n = None) ->
  decodes (w_state_file s) st ->
  result loadLocked s = inr tt /\ s_state (final loadLocked s) = st.
Proof.
  intros L Z O [V D].
  assert (forall s', w_os s' = w_os s -> os s' = (inr tt, set_calls (S (w_calls s')) s')) as Os.
  { intros s' E. unfold os. by rewrite E, O. }
  unfold loadLocked, readStateFile, os_Open, result, final, try, mbind, M_bind, bind, get; cbn.
  rewrite L, Os by done. cbn. destruct (w_state_file s) as [f|]; cbn.
  - destruct D as (R & P & B & D). rewrite Os by done; cbn. rewrite R; cbn. rewrite P; cbn.
    rewrite Os by done; cbn. unfold fail_if. destruct (Z.ltb_spec maxStateFileBytes (slen (file_data f))); [lia|].
    cbn. destruct (blank (file_data f)); cbn.
    + subst st. rewrite V. done.
    + rewrite Z, D. cbn. rewrite V. done.
  - by subst.
Qed.
End durable.

(** * Successful runs *)

(** [m], run from [s], returns [a] and leaves [s']. *)
Definition runs {A} (m : M Store A) (s : Store) (a : A) (s' : Store) : Prop :=
  m s = (inr a, s').

Section run.
Context `{JSON}.

Lemma runs_result {A} (m : M Store A) s a s' : runs m s a s' -> result m s = inr a.
Proof. unfold runs, result. by intros ->. Qed.

Lemma runs_final {A} (m : M Store A) s a s' : runs m s a s' -> final m s = s'.
Proof. unfold runs, final. by intros ->. Qed.

Lemma runs_bind {A B} (m : M Store A) (k : A -> M Store B) s b s' :
  runs (m ≫= k) s b s' -> exists a s1, runs m s a s1 /\ runs (k a) s1 b s'.
Proof.
  unfold runs, mbind, M_bind, bind. destruct (m s) as [[e|a] s1]; [done|]. intros R.
  by exists a, s1.
Qed.

Lemma runs_ret {A} (a b : A) s s' : runs (ret a) s b s' -> b = a /\ s' = s.
Proof. by intros [= -> ->]. Qed.

Lemma runs_try {A} (m : M Store A) s r s' : runs (try m) s r s' -> m s = (r, s').
Proof. unfold runs, try. destruct (m s) as [x s1]. by intros [= -> ->]. Qed.

Lemma runs_throw {A} e (b : A) s s' : runs (throw e) s b s' -> False.
Proof. done. Qed.

Lemma runs_check {A} e (k : unit -> M Store A) s b s' :
  runs (check e ≫= k) s b s' -> e = None /\ runs (k tt) s b s'.
Proof. by destruct e. Qed.

Lemma runs_fail_if {A} c e (k : unit -> M Store A) s b s' :
  runs (fail_if c e ≫= k) s b s' -> c = false /\ runs (k tt) s b s'.
Proof. by destruct c. Qed.

Lemma runs_load {A} (k : unit -> M Store A) s b s' :
  s_loaded s = true -> runs (loadLocked ≫= k) s b s' -> runs (k tt) s b s'.
Proof. unfold runs. intros L. by rewrite (bind_ok _ _ _ _ _ (load_loaded s L)). Qed.

Lemma runs_update {A} f (k : unit -> M Store A) s b s' :
  runs (update f ≫= k) s b s' -> runs (k tt) (set_state (f (s_state s)) s) b s'.
Proof. done. Qed.

Lemma runs_get {A} (k : Store -> M Store A) s b s' :
  runs (get ≫= k) s b s' -> runs (k s) s b s'.
Proof. done. Qed.

Lemma load_skip {A} (k : unit -> M Store A) s :
  s_loaded s = true -> (loadLocked ≫= k) s = k tt s.
Proof. intros L. by apply bind_ok, load_loaded. Qed.

(** A successful commit leaves the state it was given. *)
Lemma runs_saveLocked s u s' : runs saveLocked s u s' ->
  s_state s' = s_state s /\ s_loaded s' = s_loaded s /\ s_committed s' = s_state s.
Proof.
  intros R. pose proof (saveLocked_spec s) as S.
  rewrite (runs_result _ _ _ _ R), (runs_final _ _ _ _ R) in S. cbn in S.
  intuition congruence.
Qed.

Lemma runs_frame {A} (m : M Store A) s a s' : frame m -> runs m s a s' -> mem s' = mem s.
Proof. intros F R. by rewrite <- (runs_final _ _ _ _ R), (F s). Qed.

Lemma runs_conserves {A} (m : M Store A) s a s' :
  conserves m -> runs m s a s' -> s_loaded s = true -> s_loaded s' = true.
Proof. intros C R L. rewrite <- (runs_final _ _ _ _ R). by apply C. Qed.

Lemma mem_loaded s1 s : mem s1 = mem s -> s_loaded s1 = s_loaded s.
Proof. by intros [= _ _ ->]. Qed.
Lemma mem_state s1 s : mem s1 = mem s -> s_state s1 = s_state s.
Proof. by intros [= -> _ _]. Qed.

(** ** Hashes *)

Lemma llen_Sum256 msg : llen (Sum256 msg) = 32.
Proof. unfold Sum256. by destruct (sha_blocks _ _ _). Qed.

Lemma HashToken_nonempty t : HashToken t <> "".
Proof.
  intros E. apply (f_equal slen) in E. unfold HashToken in E.
  rewrite slen_HexEncode, llen_Sum256 in E. discriminate.
Qed.

(** ** Fresh tokens and rows *)

Lemma byte_list_random {A} (f : A -> Z) l : byte_list (map (fun i => f i mod 256) l).
Proof.
  induction l as [|i l IH]; constructor; [|done]. by apply Z.mod_pos_bound.
Qed.

Lemma randomHex_spec n s h : result (randomHex n) s = inr h ->
  exists bs, byte_list bs /\ llen bs = Z.of_nat n /\ h = HexEncode bs.
Proof.
  intros E. exists (map (fun i => w_rand s (w_drawn s + i)%nat mod 256) (seq 0 n)).
  split; [apply (byte_list_random (fun i => w_rand s (w_drawn s + i)%nat))|].
  split; [unfold llen; by rewrite length_map, length_seq|].
  unfold result, randomHex in E. cbn [fst] in E. congruence.
Qed.

Definition fresh_secret (secret : string) : Prop :=
  exists bs, byte_list bs /\ llen bs = 24 /\ secret = "gk_" +:+ HexEncode bs.

Lemma fresh_secret_trim secret : fresh_secret secret -> TrimSpace secret = secret.
Proof.
  intros (bs & B & _ & ->). apply TrimSpace_visible.
  by rewrite all_visible_app, HexEncode_visible.
Qed.

Lemma newToken_spec mode name expiresAt now s secret token :
  result (newToken mode name expiresAt now) s = inr (secret, token) ->
  fresh_secret secret /\ Token_Hash token = HashToken secret /\ Token_Secret token = secret /\
  Token_ID token <> "" /\ Token_Mode token = NormalizeTokenMode mode /\
  Token_Name token = (if TrimSpace name =s "" then "anonymous" else TrimSpace name) /\
  Token_ExpiresAt token = expiresAt /\ Token_Revoked token = false /\
  Token_Managed token = false.
Proof.
  unfold newToken. intros (h & E & (i & _ & [= <- <-])%result_bind)%result_bind.
  apply randomHex_spec in E as (bs & B & N & ->).
  cbn [Token_Hash Token_Secret Token_ID Token_Mode Token_Name Token_ExpiresAt
    Token_Revoked Token_Managed].
  split; [by exists bs|].
  repeat split; try done. by destruct (IsZero expiresAt) eqn:Z; [apply Z.eqb_eq in Z|].
Qed.

Lemma newReservations_spec g x h p n now startsAt expiresAt gpus s rows :
  result (newReservations g x h p n now startsAt expiresAt gpus) s = inr rows ->
  map Reservation_GPU rows = gpus /\
  Forall (fun r => Reservation_GroupID r = g /\ Reservation_ExternalSessionID r = x /\
    Reservation_TokenHash r = h /\ Reservation_Holder r = p /\ Reservation_Purpose r = n /\
    Reservation_CreatedAt r = now /\
    Reservation_StartsAt r = startsAt /\ Reservation_ExpiresAt r = expiresAt /\
    Reservation_Active r = true /\ Reservation_Revoked r = false) rows.
Proof.
  revert s rows. induction gpus as [|gpu gpus IH]; intros s rows; cbn.
  { by intros [= <-]. }
  intros (id & _ & (more & M & [= <-])%result_bind)%result_bind.
  destruct (IH _ _ M) as [E F]. split; [cbn; by f_equal|]. by constructor.
Qed.

(** ** Validating a token *)

Lemma ValidateToken_loaded secret now s : s_loaded s = true ->
  ValidateToken secret now s =
  (inr (match find (fun token => Token_Hash token =s HashToken (TrimSpace secret))
                   (State_Tokens (s_state s)) with
        | None => (Token_zero, HashToken (TrimSpace secret), Some ErrTokenNotFound)
        | Some token =>
            if Token_Revoked token then
              (token, HashToken (TrimSpace secret), Some ErrTokenRevoked)
            else
              let token := Token_set_Mode (NormalizeTokenMode (Token_Mode token)) token in
              if timeIsSet (Token_ExpiresAt token) && negb (Before now (Token_ExpiresAt token))
              then (token, HashToken (TrimSpace secret), Some ErrTokenExpired)
              else (token, HashToken (TrimSpace secret), None)
        end), s).
Proof.
  intros L. unfold ValidateToken, try, mbind, M_bind, bind. rewrite load_loaded by done.
  cbn -[HashToken TrimSpace]. destruct (find _ _) as [t|]; [|done].
  destruct (Token_Revoked t); [done|]. by destruct (_ && _).
Qed.

Lemma find_app_fresh {A} (f : A -> bool) l x :
  existsb f l = false -> f x = true -> find f (l ++ [x]) = Some x.
Proof.
  intros E F. induction l as [|y l IH]; cbn in *; [by rewrite F|].
  apply orb_false_iff in E as [-> E]. by apply IH.
Qed.

(** A row of the store already has this hash. *)
Definition hashTaken (hash : string) (st : State) : bool :=
  existsb (fun token => Token_Hash token =s hash) (State_Tokens st).

End run.

(** Peel a successful run [R] step by step: guards that passed, reads, frames
    (whose stores agree on memory), the assignment and the commit. *)
Ltac peel R :=
  cbv zeta beta in R;
  lazymatch type of R with
  | runs (loadLocked ≫= _) ?s _ _ =>
      apply runs_load in R; [peel R|by repeat match goal with
        | M : mem _ = mem _ |- _ => rewrite (mem_loaded _ _ M); clear M end]
  | runs (check _ ≫= _) _ _ _ =>
      let C := fresh "C" in apply runs_check in R as [C R]; peel R
  | runs (fail_if _ _ ≫= _) _ _ _ =>
      let C := fresh "C" in apply runs_fail_if in R as [C R]; peel R
  | runs (get ≫= _) _ _ _ => apply runs_get in R; peel R
  | runs (update _ ≫= _) _ _ _ => apply runs_update in R; peel R
  | runs (throw _) _ _ _ => destruct (runs_throw _ _ _ _ R)
  | runs (ret _) _ _ _ =>
      let E1 := fresh "E" in let E2 := fresh "E" in
      apply runs_ret in R as [E1 E2]; simplify_eq
  | runs (match ?x with _ => _ end) _ _ _ => destruct x eqn:?E; peel R
  | runs saveLocked _ _ _ => apply runs_saveLocked in R
  | runs (saveLocked ≫= _) _ _ _ =>
      let S := fresh "S" in let u := fresh "u" in let s1 := fresh "s" in
      apply runs_bind in R as (u & s1 & S & R); apply runs_saveLocked in S; peel R
  | runs (_ ≫= _) _ _ _ =>
      let F := fresh "M" in let Q := fresh "Q" in let a := fresh "a" in
      let s1 := fresh "s" in
      apply runs_bind in R as (a & s1 & Q & R);
      pose proof (fun F => runs_frame _ _ _ _ F Q) as F;
      specialize (F ltac:(solve [solve_frame])); peel R
  | _ => idtac
  end.
