(* ===== verification/StoreCodec.v ===== *)
(** A concrete lossless codec for states, one instance of the [JSON] interface:
    it shows that the theorems' hypotheses on the codec can hold, and lets the
    witnesses run the store.  A state becomes tables of rows of cells, whose
    countable encoding is written as binary digits. *)

From S2P Require Export StoreInv.

Inductive cell : Type :=
  | CS (s : string) | CZ (z : Z) | CB (b : bool) | CL (l : list string).

#[export] Instance cell_eq_dec : EqDecision cell.
Proof. solve_decision. Defined.

#[export] Program Instance cell_countable : Countable cell :=
  inj_countable'
    (fun c => match c with CS s => inl (inl s) | CZ z => inl (inr z)
                         | CB b => inr (inl b) | CL l => inr (inr l) end)
    (fun x => match x with inl (inl s) => CS s | inl (inr z) => CZ z
                         | inr (inl b) => CB b | inr (inr l) => CL l end) _.
Next Obligation. by intros []. Qed.

(** * Rows *)

Definition Token_cells (x : Token) : list cell :=
  [CS (Token_ID x); CS (Token_Hash x); CS (Token_Secret x); CS (Token_Name x); CS (Token_Mode
   x); CZ (Token_Version x); CB (Token_Managed x); CZ (Token_CreatedAt x); CZ (Token_ExpiresAt
   x); CB (Token_Revoked x)].
Definition cells_Token (l : list cell) : option Token :=
  match l with
  | [CS x0; CS x1; CS x2; CS x3; CS x4; CZ x5; CB x6; CZ x7; CZ x8; CB x9] =>
      Some (mkToken x0 x1 x2 x3 x4 x5 x6 x7 x8 x9)
  | _ => None
  end.
Lemma cells_Token_cells x : cells_Token (Token_cells x) = Some x.
Proof. by destruct x. Qed.

Definition Reservation_cells (x : Reservation) : list cell :=
  [CS (Reservation_ID x); CS (Reservation_GroupID x); CS (Reservation_ExternalSessionID x); CZ
   (Reservation_GPU x); CS (Reservation_TokenHash x); CS (Reservation_Holder x); CS
   (Reservation_Purpose x); CZ (Reservation_CreatedAt x); CZ (Reservation_StartsAt x); CZ
   (Reservation_ExpiresAt x); CB (Reservation_Active x); CB (Reservation_Revoked x)].
Definition cells_Reservation (l : list cell) : option Reservation :=
  match l with
  | [CS x0; CS x1; CS x2; CZ x3; CS x4; CS x5; CS x6; CZ x7; CZ x8; CZ x9; CB x10; CB x11] =>
      Some (mkReservation x0 x1 x2 x3 x4 x5 x6 x7 x8 x9 x10 x11)
  | _ => None
  end.
Lemma cells_Reservation_cells x : cells_Reservation (Reservation_cells x) = Some x.
Proof. by destruct x. Qed.

Definition Authorization_cells (x : Authorization) : list cell :=
  [CS (Authorization_ID x); CS (Authorization_Mode x); CS (Authorization_TokenHash x); CS
   (Authorization_TokenMode x); CZ (Authorization_TokenVersion x); CS (Authorization_Holder x);
   CZ (Authorization_UID x); CZ (Authorization_GID x); CS (Authorization_Username x); CL
   (Authorization_Command x); CZ (Authorization_RootPID x); CS (Authorization_CgroupPath x); CS
   (Authorization_CgroupRel x); CS (Authorization_ContainerID x); CS
   (Authorization_ContainerPattern x); CS (Authorization_Namespace x); CZ
   (Authorization_CreatedAt x); CZ (Authorization_ExpiresAt x); CB (Authorization_Active x); CB
   (Authorization_Revoked x)].
Definition cells_Authorization (l : list cell) : option Authorization :=
  match l with
  | [CS x0; CS x1; CS x2; CS x3; CZ x4; CS x5; CZ x6; CZ x7; CS x8; CL x9; CZ x10; CS x11; CS
   x12; CS x13; CS x14; CS x15; CZ x16; CZ x17; CB x18; CB x19] =>
      Some (mkAuthorization x0 x1 x2 x3 x4 x5 x6 x7 x8 x9 x10 x11 x12 x13 x14 x15 x16 x17 x18 x19)
  | _ => None
  end.
Lemma cells_Authorization_cells x : cells_Authorization (Authorization_cells x) = Some x.
Proof. by destruct x. Qed.

Definition SoftClaim_cells (x : SoftClaim) : list cell :=
  [CS (SoftClaim_ID x); CZ (SoftClaim_GPU x); CS (SoftClaim_TokenHash x); CS
   (SoftClaim_AuthorizationID x); CS (SoftClaim_Holder x); CZ (SoftClaim_CreatedAt x); CZ
   (SoftClaim_UpdatedAt x)].
Definition cells_SoftClaim (l : list cell) : option SoftClaim :=
  match l with
  | [CS x0; CZ x1; CS x2; CS x3; CS x4; CZ x5; CZ x6] =>
      Some (mkSoftClaim x0 x1 x2 x3 x4 x5 x6)
  | _ => None
  end.
Lemma cells_SoftClaim_cells x : cells_SoftClaim (SoftClaim_cells x) = Some x.
Proof. by destruct x. Qed.

Definition Lease_cells (x : Lease) : list cell :=
  [CS (Lease_ID x); CZ (Lease_GPU x); CS (Lease_Mode x); CS (Lease_TokenHash x); CS
   (Lease_Holder x); CZ (Lease_UID x); CZ (Lease_GID x); CL (Lease_Command x); CZ
   (Lease_RootPID x); CS (Lease_CgroupPath x); CS (Lease_CgroupRel x); CS (Lease_ContainerID
   x); CS (Lease_Namespace x); CZ (Lease_CreatedAt x); CZ (Lease_ExpiresAt x); CB (Lease_Active
   x)].
Definition cells_Lease (l : list cell) : option Lease :=
  match l with
  | [CS x0; CZ x1; CS x2; CS x3; CS x4; CZ x5; CZ x6; CL x7; CZ x8; CS x9; CS x10; CS x11; CS
   x12; CZ x13; CZ x14; CB x15] =>
      Some (mkLease x0 x1 x2 x3 x4 x5 x6 x7 x8 x9 x10 x11 x12 x13 x14 x15)
  | _ => None
  end.
Lemma cells_Lease_cells x : cells_Lease (Lease_cells x) = Some x.
Proof. by destruct x. Qed.

Definition BypassRule_cells (x : BypassRule) : list cell :=
  [CS (BypassRule_ID x); CS (BypassRule_Type x); CZ (BypassRule_PID x); CZ
   (BypassRule_StartTime x); CS (BypassRule_BootID x); CS (BypassRule_Command x); CZ
   (BypassRule_UID x); CS (BypassRule_Reason x); CZ (BypassRule_CreatedAt x); CZ
   (BypassRule_ExpiresAt x); CB (BypassRule_Revoked x)].
Definition cells_BypassRule (l : list cell) : option BypassRule :=
  match l with
  | [CS x0; CS x1; CZ x2; CZ x3; CS x4; CS x5; CZ x6; CS x7; CZ x8; CZ x9; CB x10] =>
      Some (mkBypassRule x0 x1 x2 x3 x4 x5 x6 x7 x8 x9 x10)
  | _ => None
  end.
Lemma cells_BypassRule_cells x : cells_BypassRule (BypassRule_cells x) = Some x.
Proof. by destruct x. Qed.

Definition AuditEvent_cells (x : AuditEvent) : list cell :=
  [CZ (AuditEvent_Time x); CS (AuditEvent_Kind x); CS (AuditEvent_Message x); CZ
   (AuditEvent_GPU x); CZ (AuditEvent_PID x); CS (AuditEvent_LeaseID x); CS (AuditEvent_User
   x)].
Definition cells_AuditEvent (l : list cell) : option AuditEvent :=
  match l with
  | [CZ x0; CS x1; CS x2; CZ x3; CZ x4; CS x5; CS x6] =>
      Some (mkAuditEvent x0 x1 x2 x3 x4 x5 x6)
  | _ => None
  end.
Lemma cells_AuditEvent_cells x : cells_AuditEvent (AuditEvent_cells x) = Some x.
Proof. by destruct x. Qed.

(** * Tables *)

Lemma mapM_cells {A} (to : A -> list cell) (back : list cell -> option A) l :
  (forall x, back (to x) = Some x) -> mapM back (map to l) = Some l.
Proof. intros E. induction l as [|x l IH]; cbn; [done|]. by rewrite E; cbn; rewrite IH. Qed.

Definition State_tables (st : State) : list (list (list cell)) :=
  [[[CB (State_ManagedKeys st); CS (State_KeySnapshotID st)]];
   map Token_cells (State_Tokens st); map Reservation_cells (State_Reservations st);
   map Authorization_cells (State_Authorizations st);
   map SoftClaim_cells (State_SoftClaims st); map Lease_cells (State_Leases st);
   map BypassRule_cells (State_Bypasses st); map AuditEvent_cells (State_Audit st)].

Definition tables_State (t : list (list (list cell))) : option State :=
  match t with
  | [[[CB mk; CS sid]]; ts; rs; az; cs; ls; bs; au] =>
      ts ← mapM cells_Token ts; rs ← mapM cells_Reservation rs;
      az ← mapM cells_Authorization az; cs ← mapM cells_SoftClaim cs;
      ls ← mapM cells_Lease ls; bs ← mapM cells_BypassRule bs;
      au ← mapM cells_AuditEvent au;
      Some (mkState mk sid ts rs az cs ls bs au)
  | _ => None
  end.

Lemma tables_State_tables st : tables_State (State_tables st) = Some st.
Proof.
  destruct st; unfold State_tables, tables_State; cbn -[mapM].
  rewrite (mapM_cells _ _ _ cells_Token_cells); cbn -[mapM].
  rewrite (mapM_cells _ _ _ cells_Reservation_cells); cbn -[mapM].
  rewrite (mapM_cells _ _ _ cells_Authorization_cells); cbn -[mapM].
  rewrite (mapM_cells _ _ _ cells_SoftClaim_cells); cbn -[mapM].
  rewrite (mapM_cells _ _ _ cells_Lease_cells); cbn -[mapM].
  rewrite (mapM_cells _ _ _ cells_BypassRule_cells); cbn -[mapM].
  by rewrite (mapM_cells _ _ _ cells_AuditEvent_cells).
Qed.

(** * Digits *)

Fixpoint digits (p : positive) : string :=
  match p with
  | xH => "1"
  | xO p => String (Ascii.ascii_of_nat 48) (digits p)
  | xI p => String (Ascii.ascii_of_nat 49) (digits p)
  end.

(** A final ["1"] ends the number; whatever follows it after a line break is
    not read. *)
Fixpoint undigits (s : string) : option positive :=
  match s with
  | EmptyString => None
  | String c r =>
      if Ascii.eqb c (Ascii.ascii_of_nat 48) then xO <$> undigits r
      else if Ascii.eqb c (Ascii.ascii_of_nat 49) then
        match undigits r with Some p => Some (xI p) | None => Some xH end
      else None
  end.

Lemma undigits_digits p r : undigits r = None -> undigits (digits p +:+ r) = Some p.
Proof.
  intros E. assert (forall c s, String c s +:+ r = String c (s +:+ r)) as A by done.
  induction p; cbn [digits]; rewrite A; cbn; [by rewrite IHp..|].
  change ("" +:+ r) with r. by rewrite E.
Qed.

Definition writeTables (st : State) : string := digits (encode (State_tables st)).

Definition readTables (data : string) : option State :=
  match undigits data with
  | Some p => match decode p with Some t => tables_State t | None => None end
  | None => None
  end.

Lemma readTables_writeTables st r :
  undigits r = None -> readTables (writeTables st +:+ r) = Some st.
Proof.
  intros E. unfold readTables, writeTables. rewrite undigits_digits by done.
  by rewrite decode_encode, tables_State_tables.
Qed.

#[export] Instance tables_JSON : JSON := {
  MarshalState st := inr (writeTables st);
  UnmarshalState data prior :=
    match readTables data with
    | Some st => (None, st)
    | None => (Some (ErrorString "unreadable state"), prior)
    end;
  MarshalAuditEvent e := inr (digits (encode (AuditEvent_cells e)))
}.

(** The law the theorems ask of a codec. *)
Lemma tables_JSON_roundtrip st data prior :
  MarshalState st = inr data ->
  UnmarshalState (data +:+ String (byte_of 10) EmptyString) prior = (None, st).
Proof.
  intros [= <-]. cbn [UnmarshalState tables_JSON].
  by rewrite readTables_writeTables.
Qed.

(** * A machine for the witnesses

    No state file and no root key yet, no failing call, and the bytes 0, 1, ...
    as randomness, so that the root key is [sample_key]. *)
Definition sample_cfg : StoreConfig := mkStoreConfig "/state.json" "/root.key" "".
Definition sample_boot : Store :=
  New sample_cfg None None None None (fun _ => None) (fun n => Z.of_nat n).
Definition sample_key : string := "rk_" +:+ HexEncode (map Z.of_nat (seq 0 32)).

(** The answer of a call that succeeds. *)
Definition answer {A} (d : A) (m : M Store A) (s : Store) : A :=
  match result m s with inr a => a | inl _ => d end.
Definition succeeds {A} (m : M Store A) (s : Store) : bool :=
  match result m s with inr _ => true | inl _ => false end.

Lemma succeeds_runs {A} (d : A) (m : M Store A) s :
  succeeds m s = true -> m s = (inr (answer d m s), final m s).
Proof. unfold succeeds, answer, final, result. by destruct (m s) as [[|] ?]. Qed.

(** The store after a list of calls. *)
Definition run_calls (ms : list method) (s : Store) : Store :=
  foldl (fun s m => final (call m) s) s ms.

Lemma reaches_run allowed s0 ms :
  forallb allowed ms = true -> reaches allowed s0 (run_calls ms s0).
Proof.
  unfold run_calls. intros A. assert (reaches allowed s0 s0) as R by constructor.
  revert R. generalize s0 at 2 4. revert A. induction ms as [|m ms IH]; cbn; intros A s R;
   [done|].
  apply andb_true_iff in A as [Am A]. apply IH; [done|]. by constructor.
Qed.
