(* ===== verification/StoreSafety.v ===== *)
(** The safety of the store: which states its methods can reach, and what a
    restart finds. *)

From S2P Require Export StoreInv StoreRun StoreCodec.

(** Reservation exclusivity is an invariant of the rows, so every daemon method
    keeps it. *)

(** * Exclusivity as pairwise compatibility *)

Lemma compatible_sym r1 r2 : compatible r1 r2 -> compatible r2 r1.
Proof. unfold compatible. intros C E L2 L1. destruct (C (eq_sym E) L1 L2); auto. Qed.

Definition pairwise (rs : list Reservation) : Prop := ForallOrdPairs compatible rs.

Lemma pairwise_lookup rs : pairwise rs ->
  forall i j r1 r2, (i < j)%nat -> rs !! i = Some r1 -> rs !! j = Some r2 -> compatible r1 r2.
Proof.
  induction 1 as [|r rs F P IH]; intros i j r1 r2 L E1 E2; [done|].
  destruct j as [|j]; [lia|]. destruct i as [|i]; cbn in *.
  - injection E1 as <-. apply list_elem_of_lookup_2, list_elem_of_In in E2.
    by eapply Stdlib.Lists.List.Forall_forall in F.
  - eapply IH; [|done..]. lia.
Qed.

Lemma pairwise_exclusive st : exclusive st <-> pairwise (State_Reservations st).
Proof.
  unfold exclusive. generalize (State_Reservations st) as rs. intros rs. split.
  - induction rs as [|r rs IH]; intros E; constructor.
    + apply Stdlib.Lists.List.Forall_forall. intros x X.
      apply list_elem_of_In, list_elem_of_lookup in X as [j X].
      by apply (E 0%nat (S j)).
    + apply IH. intros i j r1 r2 N E1 E2. apply (E (S i) (S j)); [lia|done..].
  - intros P i j r1 r2 N E1 E2.
    destruct (decide (i < j)%nat) as [L|L]; [by eapply pairwise_lookup|].
    apply compatible_sym. eapply (pairwise_lookup rs P j i); [lia|done..].
Qed.

(** * It survives weakening *)

Lemma compatible_le r1 r2 r1' r2' :
  row_le r1' r1 -> row_le r2' r2 -> compatible r1 r2 -> compatible r1' r2'.
Proof.
  intros (G1 & S1 & E1 & L1) (G2 & S2 & E2 & L2) C. unfold compatible.
  rewrite S1, E1, S2, E2, G1, G2. intros ? ? ?. apply C; auto.
Qed.

Lemma pairwise_le mid rs : Forall2 row_le mid rs -> pairwise rs -> pairwise mid.
Proof.
  induction 1 as [|r' r mid rs L F IH]; intros P; [constructor|].
  inversion P as [|? ? Fr P']; subst. constructor; [|by apply IH].
  clear P P' IH. induction F as [|x' x mid rs Lx F IH]; [constructor|].
  inversion Fr; subst. constructor; [by eapply compatible_le|by apply IH].
Qed.

Lemma pairwise_sublist rs' rs : rs' `sublist_of` rs -> pairwise rs -> pairwise rs'.
Proof.
  induction 1 as [|r rs' rs S IH|r rs' rs S IH]; intros P; [done| |].
  - inversion P as [|? ? F P']; subst. constructor; [|by apply IH].
    apply Stdlib.Lists.List.Forall_forall. intros x X%list_elem_of_In.
    eapply Stdlib.Lists.List.Forall_forall in F; [done|].
    apply list_elem_of_In. by eapply elem_of_sublist.
  - inversion P; subst. by apply IH.
Qed.

Lemma pairwise_app rs rows :
  pairwise rs -> pairwise rows ->
  (forall r x, r ∈ rs -> x ∈ rows -> compatible r x) -> pairwise (rs ++ rows).
Proof.
  intros P Q C. induction P as [|r rs F P IH]; [done|]. cbn. constructor.
  - apply Stdlib.Lists.List.Forall_forall. intros x X%list_elem_of_In.
    apply elem_of_app in X as [X|X].
    + by eapply Stdlib.Lists.List.Forall_forall in F; [|apply list_elem_of_In].
    + apply C; [by left|done].
  - apply IH. intros ? ? ? ?. apply C; [by right|done].
Qed.

(** * It survives the rows of a checked request *)

Lemma findOverlap_none gpus startsAt expiresAt rs r :
  findOverlap gpus startsAt expiresAt rs = None ->
  r ∈ rs -> Reservation_GPU r ∈ gpus -> ReservationOverlaps r startsAt expiresAt = false.
Proof.
  intros F R. induction gpus as [|g gpus IH]; intros G; cbn in F.
  { by apply elem_of_nil in G. }
  destruct (find _ rs) eqn:E; [done|]. apply elem_of_cons in G as [<-|G]; [|by apply IH].
  eapply find_none in E; [|by apply list_elem_of_In].
  by rewrite Z.eqb_refl in E.
Qed.

Lemma request_pairwise gpus startsAt expiresAt rows :
  NoDup gpus -> request_rows gpus startsAt expiresAt rows -> pairwise rows.
Proof.
  intros N [<- _]. induction rows as [|r rows IH]; [constructor|].
  inversion_clear N as [|? ? NI N']. constructor; [|by apply IH].
  apply Stdlib.Lists.List.Forall_forall. intros x X%list_elem_of_In E. contradict NI.
  rewrite E. by apply list_elem_of_fmap_2.
Qed.

#[export] Instance RowInvariant_pairwise : RowInvariant pairwise.
Proof.
  split.
  - intros rs rs' (mid & F & S) P. eapply pairwise_sublist; [done|].
    by eapply pairwise_le.
  - intros rs rows gpus startsAt expiresAt N [G W] O P.
    apply pairwise_app; [done|by eapply request_pairwise|].
    intros r x R X E Lr Lx.
    assert (Reservation_GPU x ∈ gpus) as GX by (rewrite <- G; by apply list_elem_of_fmap_2).
    pose proof (findOverlap_none _ _ _ _ r O R) as V. rewrite E in V. specialize (V GX).
    apply (proj1 (list.Forall_forall _ _) W) in X as [-> ->].
    unfold live in Lr. apply andb_true_iff in Lr as [A Rv].
    unfold ReservationOverlaps, Before in V.
    destruct (Reservation_Active r), (Reservation_Revoked r); cbn in *; try done.
    apply andb_false_iff in V as [V%Z.ltb_ge|V%Z.ltb_ge]; auto.
Qed.

Section safety.
Context `{JSON}.

Lemma Ok_New (I : State -> Prop) cfg f k a b os rand :
  (forall st, validateStateBounds st = None -> I st) -> Ok I (New cfg f k a b os rand).
Proof. by left. Qed.

(** A successful start leaves a good store. *)
Lemma Good_Load s :
  s_loaded s = false -> result Load s = inr tt -> Good (fun _ => True) (final Load s).
Proof. intros L R. pose proof (load_fresh s L) as F. unfold Load in *. by rewrite R in F. Qed.

Lemma Good_loaded I s : s_loaded s = true -> Ok I s -> Good I s.
Proof. intros L [[L' _]|G]; [congruence|done]. Qed.

(** The reservation rows that entitle someone to a GPU at an instant, the list
    [activeReservationsForGPU] collects. *)
Definition activeOn (gpu : Z) (now : time) (r : Reservation) : bool :=
  (Reservation_GPU r =? gpu) && ReservationActiveAt r now.

Lemma compatible_active r1 r2 gpu now :
  compatible r1 r2 -> activeOn gpu now r1 = true -> activeOn gpu now r2 = true -> False.
Proof.
  unfold compatible, activeOn, ReservationActiveAt, live, Before, ReservationStartsAt.
  rewrite !andb_true_iff, !negb_true_iff, !Z.eqb_eq, !Z.ltb_lt, !Z.ltb_ge.
  intros C (G1 & ((A1 & R1) & S1) & E1) (G2 & ((A2 & R2) & S2) & E2).
  destruct C; [congruence|done|done|lia|lia].
Qed.

Lemma pairwise_active rs gpu now :
  pairwise rs -> (length (filter (fun r => activeOn gpu now r = true) rs) <= 1)%nat.
Proof.
  induction 1 as [|r rs F P IH]; [cbn; lia|]. rewrite filter_cons.
  case_decide as A; [|done]. cbn.
  assert (filter (fun r => activeOn gpu now r = true) rs = []) as ->; [|cbn; lia].
  clear P IH. induction F as [|x rs C F IH]; [done|]. rewrite filter_cons, IH.
  case_decide as A'; [|done]. by destruct (compatible_active _ _ _ _ C A A').
Qed.

(** C1. Reservation exclusivity.  When the daemon's start-up [Load] succeeds on
    reservations that do not conflict, then whatever methods the daemon calls
    afterwards, in whatever order, with whatever arguments, clock readings,
    random bytes and failing system calls, the reservations never conflict: two
    live rows for one GPU have disjoint windows, and at any instant at most one
    row entitles a holder to a GPU. *)
Theorem reservations_exclusive cfg file key log backup os rand s :
  let start := New cfg file key log backup os rand in
  result Load start = inr tt ->
  exclusive (s_state (final Load start)) ->
  reaches daemon_method (final Load start) s ->
  exclusive (s_state s) /\
  forall gpu now,
    (length (filter (fun r => activeOn gpu now r = true)
                    (State_Reservations (s_state s))) <= 1)%nat.
Proof.
  intros start R E C.
  assert (Ok (overRows pairwise) (final Load start)) as O.
  { right. destruct (Good_Load start eq_refl R) as (? & ? & ? & _). repeat split; try done.
    by apply pairwise_exclusive. }
  pose proof (reaches_Ok pairwise daemon_method _ s (keepsOk_call pairwise) O C) as G.
  apply reaches_saved in C as [L _]; [|by apply (Good_Load start)].
  apply (Good_loaded _ _ L) in G as (_ & _ & _ & P).
  split; [by apply pairwise_exclusive|]. intros gpu now. by apply pairwise_active.
Qed.

(** C2. Memory, commit and bounds.  From a new store, after any sequence of
    method calls whatever fails under them: once the store is loaded, the state
    in memory is the last committed one and within every persisted-state limit
    (in particular at most 4096 token, reservation, authorization, claim and
    lease rows, 1024 bypass rows and 1000 audit events). *)
Theorem loaded_store_consistent cfg file key log backup os rand s :
  reaches every (New cfg file key log backup os rand) s ->
  s_loaded s = true ->
  s_state s = s_committed s /\ validateStateBounds (s_state s) = None.
Proof.
  intros R L.
  assert (forall m, every m = true -> keepsOk (overRows (fun _ => True)) (call m)) as K.
  { intros m _. destruct (daemon_method m) eqn:D; [by apply keepsOk_call|].
    destruct m; try done. cbn. by apply keepsOk_AddReservation. }
  pose proof (reaches_Ok _ every _ s K (Ok_New _ cfg file key log backup os rand
    (fun _ _ => I)) R) as G.
  by destruct (Good_loaded _ _ L G) as (_ & ? & ? & _).
Qed.

(** C3. Durability.  When the start-up [Load] succeeded, then after any sequence
    of method calls, with system calls failing anywhere, a restart over the
    files recovers exactly the last committed state, provided only that
    encoding/json decodes what it encoded of that state; the one exception is
    an encoding of exactly the 64 MiB limit, one byte too long for the reader
    once its line break is added. *)
Theorem restart_recovers_committed cfg file key log backup os rand s :
  let start := New cfg file key log backup os rand in
  honest os ->
  result Load start = inr tt ->
  reaches every (final Load start) s ->
  (forall data, MarshalState (s_committed s) = inr data ->
     blank (data +:+ String (byte_of 10) EmptyString) = false /\
     UnmarshalState (data +:+ String (byte_of 10) EmptyString) State_zero =
       (None, s_committed s)) ->
  (result Load (reboot s) = inr tt /\ s_state (final Load (reboot s)) = s_committed s) \/
  exists f, w_state_file s = Some f /\ slen (file_data f) = maxStateFileBytes + 1.
Proof.
  intros start O R C Codec.
  destruct (Good_Load start eq_refl R) as (L0 & E0 & _).
  destruct (load_decodes start eq_refl eq_refl O R) as [F0 D0]. unfold Load in *.
  destruct (reaches_saved _ _ _ C L0) as [L S].
  assert (decodes (w_state_file s) (s_committed s) \/
          exists f, w_state_file s = Some f /\ slen (file_data f) = maxStateFileBytes + 1)
    as [D|X]; [|left|by right].
  - destruct S as [[-> ->]|(data & M & B & V & ->)].
    + left. by rewrite F0, <- E0.
    + destruct (Codec _ M) as [Bl U]. unfold decodes, stateFileOf.
      cbn [file_regular file_data].
      assert (slen (data +:+ String (byte_of 10) EmptyString) = slen data + 1) as Sl.
      { by rewrite slen_app. }
      destruct (decide (slen data = maxStateFileBytes)) as [X|X].
      * right. eexists. split; [done|]. cbn [file_data]. lia.
      * left. rewrite Bl. repeat split; try done. lia.
  - by apply decodes_load.
Qed.

(** A state file the daemon writes but cannot read.  When the encoding of
    the state has exactly the size limit, [saveLocked] succeeds without an
    error, and the next start fails: the reader counts the line break that the
    writer appends after checking the limit. *)
Theorem full_size_state_locks_out s data :
  s_loaded s = true -> (forall n, w_os s n = None) ->
  validateStateBounds (s_state s) = None ->
  MarshalState (s_state s) = inr data -> slen data = maxStateFileBytes ->
  result saveLocked s = inr tt /\
  result Load (reboot (final saveLocked s)) =
    inl (Errorf "state %s exceeds %d-byte limit"
           [AStr (cfg_StatePath (s_cfg s)); AInt maxStateFileBytes]).
Proof.
  intros L O V M Sz.
  assert (forall s', w_os s' = w_os s -> os s' = (inr tt, set_calls (S (w_calls s')) s')) as Os.
  { intros s' E. unfold os. by rewrite E, O. }
  assert (exists s1, saveLocked s = (inr tt, s1) /\ s_cfg s1 = s_cfg s /\
            w_state_file s1 = Some (stateFileOf data)) as (s1 & E & C & F).
  { unfold saveLocked, saveBody, writeFileAtomically, writeSyncedTempFile, syncDir, try,
      mbind, M_bind, bind, get. rewrite V. cbn. rewrite (Os s) by done. cbn. rewrite M.
    unfold fail_if. destruct (Z.ltb_spec maxStateFileBytes (slen data)); [lia|].
    repeat (cbn; rewrite Os by done). cbn. eauto. }
  unfold result, final. rewrite E. split; [done|].
  unfold Load, loadLocked, readStateFile, os_Open, try, mbind, M_bind, bind, get, os; cbn.
  rewrite F. cbn -[Z.ltb slen]. unfold fail_if. rewrite slen_app.
  replace (maxStateFileBytes <? slen data + slen _) with true; [by rewrite <- C|].
  symmetry. apply Z.ltb_lt. change (slen (String _ _)) with 1. lia.
Qed.

End safety.

(** * Witnesses *)

Definition sample_calls : list method :=
  [MRegisterScheduled sample_key "alice" "train" "" [0; 1] 1000 5000 10;
   MRegisterScheduled sample_key "bob" "eval" "" [1] 5000 9000 20;
   MRegisterScheduled sample_key "carol" "late" "" [0] 4000 6000 30].

(** C1 at a run that reserves GPUs 0 and 1, then GPU 1 for the next window, and
    is refused a third, overlapping request. *)
Lemma reservations_exclusive_witness :
  let s := run_calls sample_calls (final Load sample_boot) in
  map Reservation_GPU (State_Reservations (s_state s)) = [0; 1; 1] /\
  exclusive (s_state s) /\
  forall gpu now, (length (filter (fun r => activeOn gpu now r = true)
                     (State_Reservations (s_state s))) <= 1)%nat.
Proof.
  split; [by vm_compute|].
  apply (reservations_exclusive sample_cfg None None None None (fun _ => None)
           (fun n => Z.of_nat n)).
  - reflexivity.
  - intros i j r1 r2 _ E. vm_compute in E. discriminate.
  - by apply reaches_run.
Defined.

Lemma loaded_store_consistent_witness :
  let s := run_calls sample_calls sample_boot in
  s_state s = s_committed s /\ validateStateBounds (s_state s) = None.
Proof.
  apply (loaded_store_consistent sample_cfg None None None None (fun _ => None)
           (fun n => Z.of_nat n)).
  - by apply reaches_run.
  - by vm_compute.
Defined.

Lemma restart_recovers_committed_witness :
  let s := run_calls sample_calls (final Load sample_boot) in
  (result Load (reboot s) = inr tt /\ s_state (final Load (reboot s)) = s_committed s) \/
  exists f, w_state_file s = Some f /\ slen (file_data f) = maxStateFileBytes + 1.
Proof.
  apply (restart_recovers_committed sample_cfg None None None None (fun _ => None)
           (fun n => Z.of_nat n)).
  - intros n e E. discriminate.
  - reflexivity.
  - by apply reaches_run.
  - intros data E. split; [|by apply tables_JSON_roundtrip].
    apply (f_equal (fun r => match r with inr d => d | inl _ => data end)) in E.
    refine (eq_trans (f_equal (fun d => blank (d +:+ _)) (eq_sym E)) _).
    vm_compute. reflexivity.
Defined.

(** A codec whose encoding of every state has exactly the size limit. *)
Fixpoint fill (n : nat) : string :=
  match n with O => "" | S n => String (byte_of 120) (fill n) end.

Lemma slen_fill n : slen (fill n) = Z.of_nat n.
Proof. unfold slen. f_equal. induction n; cbn; congruence. Qed.

Lemma full_size_data : { data : string | slen data = maxStateFileBytes }.
Proof.
  exists (fill (Z.to_nat maxStateFileBytes)). rewrite slen_fill. by apply Z2Nat.id.
Qed.

Definition full_size_JSON : JSON := {|
  MarshalState _ := inr (proj1_sig full_size_data);
  UnmarshalState _ prior := (None, prior);
  MarshalAuditEvent _ := inr "" |}.

Lemma full_size_state_locks_out_witness :
  let s := set_loaded true sample_boot in
  result (@saveLocked full_size_JSON) s = inr tt /\
  result (@Load full_size_JSON) (reboot (final (@saveLocked full_size_JSON) s)) =
    inl (Errorf "state %s exceeds %d-byte limit"
           [AStr "/state.json"; AInt maxStateFileBytes]).
Proof.
  apply (@full_size_state_locks_out full_size_JSON (set_loaded true sample_boot)
           (proj1_sig full_size_data)).
  - reflexivity.
  - reflexivity.
  - reflexivity.
  - reflexivity.
  - apply (proj2_sig full_size_data).
Defined.
