(* ===== verification/StoreTokens.v ===== *)
(** Issuing and validating tokens: what a registration hands out, the limit per
    holder, and the replay of an external session. *)

From S2P Require Export StoreRun StoreCodec.

Section tokens.
Context `{JSON}.

(** ** One registration *)

(** What a registration that issues [token] for [secret] leaves. *)
Definition issued (mode name : string) (expiresAt now : time) (s s' : Store)
    (secret : string) (token : Token) : Prop :=
  s_loaded s' = true /\
  checkTokenCapacity (s_state s) token now = None /\
  State_Tokens (s_state s') = State_Tokens (s_state s) ++ [token] /\
  exists s1, result (newToken mode name expiresAt now) s1 = inr (secret, token).

Lemma RegisterSoftToken_issued key name now s secret token s' :
  s_loaded s = true -> runs (RegisterSoftToken key name now) s (secret, token) s' ->
  issued TokenModeClaimed name zeroTime now s s' secret token /\
  s_state s' = State_set_Tokens (State_Tokens (s_state s) ++ [token]) (s_state s).
Proof.
  intros L R. unfold RegisterSoftToken in R. peel R. destruct S as (S1 & S2 & _); cbn in *.
  assert (s_state s1 = s_state s) as St by congruence. rewrite St in S1, C.
  split; [|done]. split; [congruence|]. split; [done|]. split; [by rewrite S1|].
  eexists. by eapply runs_result.
Qed.

(** The two outcomes of a scheduled registration: a replay of the session that
    exists, or a fresh token and its reservation rows. *)
Definition sessionRows (x : string) (st : State) : list Reservation :=
  if TrimSpace x <>s ""
  then filter (fun r => Reservation_ExternalSessionID r = TrimSpace x) (State_Reservations st)
  else [].

Definition sessionToken (rows : list Reservation) (st : State) : Token :=
  match rows with
  | [] => Token_zero
  | r :: _ => default Token_zero
      (find (fun t => Token_Hash t =s Reservation_TokenHash r) (State_Tokens st))
  end.

Definition replayed (name purpose : string) (gpus : list Z) (startsAt expiresAt : time)
    (x : string) (s s' : Store) (secret : string) (token : Token)
    (rows : list Reservation) : Prop :=
  mem s' = mem s /\ rows = sessionRows x (s_state s) /\ rows <> [] /\
  token = sessionToken rows (s_state s) /\ secret = Token_Secret token /\
  Token_ID token <> "" /\ secret <> "" /\
  sameReservationRequest rows name purpose gpus startsAt expiresAt = true.

Definition scheduled (name purpose : string) (gpus : list Z) (startsAt expiresAt now : time)
    (x : string) (s s' : Store) (secret : string) (token : Token)
    (rows : list Reservation) : Prop :=
  issued TokenModeReserved name expiresAt now s s' secret token /\
  sessionRows x (s_state s) = [] /\
  State_Reservations (s_state s') = State_Reservations (s_state s) ++ rows /\
  findOverlap gpus startsAt expiresAt (State_Reservations (s_state s)) = None /\
  exists s1, result (newReservations "" (TrimSpace x) (Token_Hash token) (Token_Name token)
    (TrimSpace purpose) now startsAt expiresAt gpus) s1 = inr rows.

Lemma RegisterScheduled_spec key name purpose x gpus st e now s secret token rows s' :
  s_loaded s = true ->
  runs (RegisterScheduledReservationsWithSession key name purpose x gpus st e now) s
    (secret, token, rows) s' ->
  let startsAt := if IsZero st then now else st in
  startsAt < e /\ now < e /\ NoDup gpus /\ gpus <> [] /\
  (replayed name purpose gpus startsAt e x s s' secret token rows \/
   scheduled name purpose gpus startsAt e now x s s' secret token rows).
Proof.
  intros L R startsAt. unfold RegisterScheduledReservationsWithSession, UTC in R.
  fold startsAt in R. peel R.
  all: assert (startsAt < e /\ now < e) as []
    by (unfold After in *; rewrite !negb_false_iff, !Z.ltb_lt in *; done).
  all: match goal with G : checkGPUs _ _ _ = None |- _ => apply checkGPUs_NoDup in G as [N _] end.
  all: repeat split; try done; try (by destruct gpus).
  all: assert (s_state s3 = s_state s) as St by congruence; rewrite St in *.
  - right. destruct S as (S1 & S2 & _); cbn in *. split; [|split; [|split; [|split]]].
    + split; [congruence|]. split; [done|]. split; [by rewrite S1|].
      eexists. by eapply runs_result.
    + done.
    + by rewrite S1.
    + done.
    + eexists. by eapply runs_result.
  - left. apply orb_false_iff in C5 as [I1%String.eqb_neq I2%String.eqb_neq].
    apply negb_false_iff in C6.
    split; [unfold mem; congruence|]. unfold sessionRows, sessionToken. rewrite E0.
    repeat split; done.
Qed.

(** ** The limit per holder *)

Lemma capacity_count st token now holder :
  checkTokenCapacity st token now = None ->
  countActiveTokens holder now (State_Tokens st ++ [token]) <=
  Z.max maxActiveTokensPerHolder (countActiveTokens holder now (State_Tokens st)).
Proof.
  unfold checkTokenCapacity, countActiveTokens, llen. rewrite filter_app, length_app.
  rewrite filter_cons, filter_nil.
  destruct (checkTotalCapacity _ _ _ _); cbn [orElse]; [done|].
  case_decide as D; cbn [length app]; [|lia]. destruct D as [-> <-]. cbn [negb].
  destruct (Z.leb_spec maxActiveTokensPerHolder (Z.of_nat (length (filter
    (fun t => tokenActiveAt t now = true /\ normalizeHolder (Token_Name t) =
       normalizeHolder (Token_Name token)) (State_Tokens st))))); [done|]. lia.
Qed.

(** The methods that issue a token, with the clock they are given. *)
Definition issues (m : method) : option time :=
  match m with
  | MRegisterSoftToken _ _ now | MRegisterToken _ _ _ now
  | MRegisterScheduled _ _ _ _ _ _ _ now | MRegisterHard _ _ _ _ now => Some now
  | _ => None
  end.

(** The invariant, relative to the counts a registration starts from. *)
Definition withinLimit (now : time) (count0 : string -> Z) (st : State) : Prop :=
  forall holder, countActiveTokens holder now (State_Tokens st) <=
    Z.max maxActiveTokensPerHolder (count0 holder).

Lemma commits_token now count0 f token st :
  checkTokenCapacity st token now = None ->
  State_Tokens (f st) = State_Tokens st ++ [token] -> commits (withinLimit now count0) f st.
Proof.
  intros C E HI _ holder. rewrite E. specialize (HI holder).
  pose proof (capacity_count st token now holder C). lia.
Qed.

Lemma keepsOk_limit_Scheduled now count0 k n p x gpus st e :
  keepsOk (withinLimit now count0)
    (RegisterScheduledReservationsWithSession k n p x gpus st e now).
Proof.
  unfold RegisterScheduledReservationsWithSession, UTC. walk_to_commits.
  by eapply commits_token.
Qed.

(** At most eight active tokens per holder.  Whatever a registration is
    asked, whether it succeeds or fails, and whatever fails under it: for every
    holder, the number of tokens active at the request's time stays at most
    eight, or at what it already was. *)
Theorem holder_token_limit m now s :
  issues m = Some now -> Good (fun _ => True) s ->
  forall holder,
    countActiveTokens holder now (State_Tokens (s_state (final (call m) s))) <=
    Z.max maxActiveTokensPerHolder (countActiveTokens holder now (State_Tokens (s_state s))).
Proof.
  intros I (L & E & V & _).
  set (count0 h := countActiveTokens h now (State_Tokens (s_state s))).
  assert (keepsOk (withinLimit now count0) (call m)) as K.
  { destruct m; try done; injection I as ->; cbn [call];
      (apply keepsOk_then; [|solve_frame]).
    - unfold RegisterSoftToken. walk_to_commits. by eapply commits_token.
    - unfold RegisterToken. walk_to_commits. by eapply commits_token.
    - apply keepsOk_limit_Scheduled.
    - unfold RegisterHardReservations, RegisterScheduledReservations.
      destruct (ParseTTL _ _ _); [by apply keepsOk_frame, frame_throw|].
      apply keepsOk_limit_Scheduled. }
  assert (Ok (withinLimit now count0) s) as O.
  { right. repeat split; try done. intros h. unfold count0. lia. }
  destruct (K s O) as [[L' _]|(_ & _ & _ & W)]; [|exact W].
  destruct (conserves_call m s L). congruence.
Qed.

(** ** Registration and validation agree *)

Lemma ValidateToken_issued mode name expiresAt now s s' secret token now' :
  issued mode name expiresAt now s s' secret token ->
  NormalizeTokenMode (NormalizeTokenMode mode) = NormalizeTokenMode mode ->
  hashTaken (HashToken secret) (s_state s) = false ->
  ValidateToken secret now' s' =
    (inr (token, HashToken secret,
          if negb (IsZero expiresAt) && negb (now' <? expiresAt)
          then Some ErrTokenExpired else None), s').
Proof.
  intros (L & _ & T & s1 & N) NM Fr. apply newToken_spec in N
    as (F & Hh & _ & _ & Hm & _ & He & Hr & _).
  rewrite ValidateToken_loaded by done. rewrite (fresh_secret_trim _ F), T.
  rewrite find_app_fresh; [|done|by rewrite Hh; apply String.eqb_refl].
  rewrite Hr. cbv zeta. unfold timeIsSet, Before.
  assert (Token_set_Mode (NormalizeTokenMode (Token_Mode token)) token = token) as ->.
  { rewrite Hm, NM, <- Hm. by destruct token. }
  rewrite He. by destruct (_ && _).
Qed.

(** Issue and validate, for claimed keys.  The secret that
    [RegisterSoftToken] returns is "gk_" and 24 random bytes in hexadecimal;
    only its hash decides afterwards, and validating the secret, at any time,
    gives back exactly the token row that was issued. *)
Theorem soft_token_validates key name now s secret token s' :
  s_loaded s = true ->
  RegisterSoftToken key name now s = (inr (secret, token), s') ->
  hashTaken (HashToken secret) (s_state s) = false ->
  fresh_secret secret /\ Token_Hash token = HashToken secret /\
  forall now', ValidateToken secret now' s' = (inr (token, HashToken secret, None), s').
Proof.
  intros L R Fr. apply (RegisterSoftToken_issued key name now) in R as [I _]; [|done].
  pose proof I as (_ & _ & _ & s1 & N). destruct (newToken_spec _ _ _ _ _ _ _ N) as (F & Hh & _).
  split; [done|]. split; [done|]. intros now'.
  by rewrite (ValidateToken_issued TokenModeClaimed name zeroTime now s s' secret token now').
Qed.

(** Issue and validate, for reserved keys.  The secret of a new scheduled
    reservation validates to the issued row until the reservation ends, and is
    refused as expired from that instant on. *)
Theorem reserved_token_validates key name purpose x gpus st e now s secret token rows s' :
  s_loaded s = true -> 0 <= now ->
  RegisterScheduledReservationsWithSession key name purpose x gpus st e now s =
    (inr (secret, token, rows), s') ->
  sessionRows x (s_state s) = [] ->
  hashTaken (HashToken secret) (s_state s) = false ->
  forall now', ValidateToken secret now' s' =
    (inr (token, HashToken secret, if now' <? e then None else Some ErrTokenExpired), s').
Proof.
  intros L Pos R X Fr now'.
  apply (RegisterScheduled_spec key name purpose x gpus st e now) in R
    as (_ & B & _ & _ & [P|P]); [..|done].
  { destruct P as (_ & E & N & _). congruence. }
  destruct P as [I _].
  rewrite (ValidateToken_issued TokenModeReserved name e now s s' secret token now') by done.
  assert (IsZero e = false) as -> by (apply Z.eqb_neq; lia). by destruct (now' <? e).
Qed.

(** ** Replaying an external session *)

Lemma runs_intro_frame {A} (m : M Store A) s : frame m ->
  (exists a, result m s = inr a) -> exists a s1, m s = (inr a, s1) /\ mem s1 = mem s.
Proof.
  intros F [a E]. exists a, (final m s). split; [|apply F].
  unfold result, final in *. destruct (m s). cbn in *. by subst.
Qed.

Lemma newToken_total mode name e now s :
  exists st s1, newToken mode name e now s = (inr st, s1) /\ mem s1 = mem s.
Proof. apply runs_intro_frame; [apply frame_newToken|]. by eexists. Qed.

Lemma newReservations_total g x h p n now st e gpus s :
  exists rows s1, newReservations g x h p n now st e gpus s = (inr rows, s1) /\ mem s1 = mem s.
Proof.
  apply runs_intro_frame; [apply frame_newReservations|].
  revert s. induction gpus as [|gpu gpus IH]; intros s; [by eexists|]. cbn [newReservations].
  unfold NewReservationID, newID, result, mbind, M_bind, bind, ret. cbn [randomHex].
  match goal with |- context [newReservations _ _ _ _ _ _ _ _ _ ?s1] =>
    destruct (IH s1) as [rows E]; unfold result in E end.
  destruct (newReservations _ _ _ _ _ _ _ _ _ _) as [[|] ?]; cbn in *; [done|by eexists].
Qed.

(** The guards before the store is read depend on the request alone. *)
Definition requestOK (gpus : list Z) (startsAt e now : time) : Prop :=
  negb (After e startsAt) = false /\ negb (After e now) = false /\
  (MaxHardTTL <? TimeSub e startsAt) = false /\ (llen gpus =? 0) = false /\
  checkTotalCapacity "reservation" 0 (llen gpus) maxTotalReservations = None /\
  checkGPUs validNonNegative ∅ gpus = None.

Lemma RegisterScheduled_request key name purpose x gpus st e now s secret token rows s' :
  s_loaded s = true ->
  runs (RegisterScheduledReservationsWithSession key name purpose x gpus st e now) s
    (secret, token, rows) s' ->
  requestOK gpus (if IsZero st then now else st) e now.
Proof.
  intros L R. unfold RegisterScheduledReservationsWithSession, UTC in R. peel R; done.
Qed.

Lemma RegisterScheduled_replays key name purpose x gpus st e now s s1 secret token rows :
  s_loaded s = true -> requestOK gpus (if IsZero st then now else st) e now ->
  requireRootKey key s = (inr tt, s1) ->
  replayed name purpose gpus (if IsZero st then now else st) e x s s secret token rows ->
  exists s', RegisterScheduledReservationsWithSession key name purpose x gpus st e now s =
    (inr (secret, token, rows), s') /\ mem s' = mem s.
Proof.
  intros L (G1 & G2 & G3 & G4 & G5 & G6) K (_ & ER & NR & ET & ES & NI & NS & Same).
  unfold RegisterScheduledReservationsWithSession, UTC.
  cbv zeta. rewrite G1, G2, G3, G4, G5, G6. cbn [fail_if check].
  repeat rewrite (bind_ok (ret tt) _ s tt s eq_refl).
  rewrite (bind_ok _ _ _ _ _ K).
  assert (mem s1 = mem s) as M1 by (by rewrite <- (frame_requireRootKey key s);
    unfold final; rewrite K).
  destruct (newToken_total TokenModeReserved name e now s1) as ([sec tok] & s2 & N & M2).
  rewrite (bind_ok _ _ _ _ _ N).
  destruct (newReservations_total "" (TrimSpace x) (Token_Hash tok) (Token_Name tok)
    (TrimSpace purpose) now (if IsZero st then now else st) e gpus s2) as (rs & s3 & RN & M3).
  rewrite (bind_ok _ _ _ _ _ RN).
  assert (mem s3 = mem s) as M by congruence.
  rewrite (bind_ok loadLocked _ s3 tt s3) by (apply load_loaded; by rewrite (mem_loaded _ _ M)).
  rewrite (bind_ok get _ s3 s3 s3) by done. rewrite (mem_state _ _ M).
  fold (sessionRows x (s_state s)). rewrite <- ER.
  destruct rows as [|r rows]; [done|]. cbn [sessionToken] in ET. rewrite <- ET, Same.
  subst secret.
  apply String.eqb_neq in NI, NS. rewrite NI, NS. by exists s3.
Qed.

Lemma EqualFold_refl t : EqualFold t t = true.
Proof. unfold EqualFold. by rewrite bool_decide_true. Qed.

Lemma gpuSet_mem gpus g : g ∈ gpus -> mem_gpu (gpuSet gpus) g = true.
Proof.
  assert (forall m, g ∈ gpus \/ mem_gpu m g = true ->
    mem_gpu (foldl (fun want gpu => <[gpu := true]> want) m gpus) g = true) as G;
    [|intros E; apply G; by left].
  induction gpus as [|k gpus IH]; intros m [E|E]; cbn; try done.
  - by apply elem_of_nil in E.
  - apply IH. rewrite mem_gpu_insert. apply elem_of_cons in E as [->|E]; [right|by left].
    by rewrite bool_decide_true.
  - apply IH. right. by rewrite mem_gpu_insert, E, orb_true_r.
Qed.

Lemma new_rows_same_request name purpose gpus startsAt e now x hash holder s rows :
  gpus <> [] -> TrimSpace name <> "" -> holder = TrimSpace name -> (IsZero startsAt = true -> now = startsAt) ->
  result (newReservations "" (TrimSpace x) hash holder (TrimSpace purpose) now startsAt e gpus) s
    = inr rows ->
  sameReservationRequest rows name purpose gpus startsAt e = true.
Proof.
  intros NE NN -> Z R. destruct (newReservations_rows _ _ _ _ _ _ _ _ _ _ _ Z R) as [_ W].
  apply newReservations_spec in R as [G F].
  assert (llen rows = llen gpus) as Ln by (unfold llen; by rewrite <- G, length_map).
  unfold sameReservationRequest. rewrite Ln, Z.eqb_refl.
  replace (llen gpus =? 0) with false
    by (destruct gpus; [done|symmetry; apply Z.eqb_neq; unfold llen; cbn; lia]).
  cbn [negb orb]. apply forallb_forall. intros r Hr. apply list_elem_of_In in Hr.
  rewrite Forall_forall in F, W. destruct (F r Hr) as (_ & _ & _ & -> & -> & _).
  destruct (W r Hr) as [-> ->].
  rewrite gpuSet_mem by (rewrite <- G; by apply list_elem_of_fmap_2).
  rewrite !TrimSpace_fixed, EqualFold_refl, String.eqb_refl. unfold TimeEqual.
  by rewrite !Z.eqb_refl.
Qed.

Lemma scheduled_replayed name purpose gpus startsAt e now x s s' secret token rows :
  gpus <> [] -> TrimSpace name <> "" -> TrimSpace x <> "" -> (IsZero startsAt = true -> now = startsAt) ->
  hashTaken (HashToken secret) (s_state s) = false ->
  scheduled name purpose gpus startsAt e now x s s' secret token rows ->
  replayed name purpose gpus startsAt e x s' s' secret token rows.
Proof.
  intros NE NN NX Z Fr ((_ & _ & T & s1 & N) & X & ER & _ & s2 & R).
  apply newToken_spec in N as (FS & Hh & Hs & Hid & _ & Hn & _).
  assert (Token_Name token = TrimSpace name) as Hname.
  { rewrite Hn. by apply String.eqb_neq in NN as ->. }
  pose proof (new_rows_same_request _ _ _ _ _ _ _ _ _ _ _ NE NN Hname Z R) as Same.
  apply newReservations_spec in R as [G F].
  assert (rows <> []) as NR by (by intros ->; destruct gpus).
  apply String.eqb_neq in NX. unfold sessionRows in *. rewrite NX in *. cbn [negb] in *.
  assert (sessionRows x (s_state s') = rows) as SR.
  { unfold sessionRows. rewrite NX, ER, filter_app, X. cbn [negb app].
    apply filter_all. eapply Forall_impl; [exact F|]. cbn. tauto. }
  assert (sessionToken rows (s_state s') = token) as ST.
  { destruct rows as [|r rows]; [done|]. cbn [sessionToken].
    apply Forall_cons in F as [(_ & _ & Eh & _) _]. rewrite Eh, T, find_app_fresh; [done| |].
    - by rewrite Hh.
    - apply String.eqb_refl. }
  split; [done|]. rewrite SR, ST, Hs. repeat split; try done.
  destruct FS as (bs & _ & _ & ->). done.
Qed.

(** An external session can be replayed.  Repeating a successful scheduled
    registration, with the same session id, holder, purpose, GPUs and explicit
    window and any root key that is accepted, returns the same secret, token and
    reservations and changes nothing: a client that lost the answer can ask
    again without reserving twice. *)
Theorem session_replay key key2 name purpose x gpus st e now now2 s s' s2 secret token rows :
  s_loaded s = true ->
  RegisterScheduledReservationsWithSession key name purpose x gpus st e now s =
    (inr (secret, token, rows), s') ->
  TrimSpace x <> "" -> TrimSpace name <> "" -> IsZero st = false -> now2 < e ->
  (sessionRows x (s_state s) = [] -> hashTaken (HashToken secret) (s_state s) = false) ->
  requireRootKey key2 s' = (inr tt, s2) ->
  exists s'', RegisterScheduledReservationsWithSession key2 name purpose x gpus st e now2 s' =
    (inr (secret, token, rows), s'') /\ mem s'' = mem s'.
Proof.
  intros L R NX NN Z B Fr K. pose proof R as Rq.
  apply (RegisterScheduled_request key name purpose x gpus st e now) in Rq; [|done].
  apply (RegisterScheduled_spec key name purpose x gpus st e now) in R
    as (_ & _ & _ & NE & P); [|done]. rewrite Z in *.
  assert (replayed name purpose gpus st e x s' s' secret token rows /\ s_loaded s' = true)
    as [P' L'].
  { destruct P as [P|P].
    - destruct P as (M & P). pose proof (mem_state _ _ M) as St.
      unfold replayed. rewrite St. by rewrite (mem_loaded _ _ M).
    - split; [|apply P]. apply (scheduled_replayed name purpose gpus st e now x s); try done.
      + by rewrite Z.
      + by apply Fr, P. }
  apply (RegisterScheduled_replays key2 name purpose x gpus st e now2 s' s2); try done;
    rewrite Z; [|done].
  destruct Rq as (G1 & _ & G3 & G4 & G5 & G6). repeat split; try done.
  unfold After. apply negb_false_iff. by apply Z.ltb_lt.
Qed.

End tokens.

(** * Witnesses *)

Definition sample_loaded : Store := final Load sample_boot.

Lemma holder_token_limit_witness :
  countActiveTokens "alice" 5
    (State_Tokens (s_state (final (call (MRegisterSoftToken sample_key "alice" 5)) sample_loaded)))
  <= Z.max maxActiveTokensPerHolder
       (countActiveTokens "alice" 5 (State_Tokens (s_state sample_loaded))).
Proof.
  apply holder_token_limit; [reflexivity|]. vm_compute. repeat split.
Defined.

(** The sample requests, their answers and the stores they leave. *)
Definition sample_soft_answer : string * Token := Eval vm_compute in
  answer ("", Token_zero) (RegisterSoftToken sample_key "alice" 5) sample_loaded.
Definition sample_soft_store : Store :=
  final (RegisterSoftToken sample_key "alice" 5) sample_loaded.
Definition sample_answer : string * Token * list Reservation := Eval vm_compute in
  answer ("", Token_zero, [])
    (RegisterScheduledReservationsWithSession sample_key "alice" "train" "job-7" [0; 3]
       1000 5000 10) sample_loaded.
Definition sample_store : Store :=
  final (RegisterScheduledReservationsWithSession sample_key "alice" "train" "job-7" [0; 3]
    1000 5000 10) sample_loaded.
Definition sample_key_store : Store := final (requireRootKey sample_key) sample_store.

Lemma result_runs {A} (m : M Store A) s a s' :
  result m s = inr a -> final m s = s' -> m s = (inr a, s').
Proof. unfold result, final. destruct (m s); cbn. by intros -> ->. Qed.

Lemma sample_soft_runs : RegisterSoftToken sample_key "alice" 5 sample_loaded =
  (inr sample_soft_answer, sample_soft_store).
Proof. apply result_runs; [vm_compute; reflexivity|by unfold sample_soft_store]. Qed.
Lemma sample_runs :
  RegisterScheduledReservationsWithSession sample_key "alice" "train" "job-7" [0; 3]
    1000 5000 10 sample_loaded = (inr sample_answer, sample_store).
Proof. apply result_runs; [vm_compute; reflexivity|by unfold sample_store]. Qed.
Lemma sample_key_accepted :
  requireRootKey sample_key sample_store = (inr tt, sample_key_store).
Proof. apply result_runs; [vm_compute; reflexivity|by unfold sample_key_store]. Qed.
Opaque sample_loaded sample_soft_store sample_store sample_key_store.

Lemma soft_token_validates_witness :
  let '(secret, token) := sample_soft_answer in
  Token_Name token = "alice" /\
  fresh_secret secret /\ Token_Hash token = HashToken secret /\
  forall now', ValidateToken secret now' sample_soft_store =
    (inr (token, HashToken secret, None), sample_soft_store).
Proof.
  split; [reflexivity|].
  apply (soft_token_validates sample_key "alice" 5 sample_loaded);
    [vm_compute; reflexivity|exact sample_soft_runs|vm_compute; reflexivity].
Defined.

Lemma reserved_token_validates_witness :
  let '(secret, token, rows) := sample_answer in
  llen rows = 2 /\
  forall now', ValidateToken secret now' sample_store =
    (inr (token, HashToken secret, if now' <? 5000 then None else Some ErrTokenExpired),
     sample_store).
Proof.
  split; [reflexivity|].
  eapply (reserved_token_validates sample_key "alice" "train" "job-7" [0; 3] 1000 5000 10
    sample_loaded);
    [vm_compute; reflexivity|discriminate|exact sample_runs|vm_compute; reflexivity..].
Defined.

Lemma session_replay_witness :
  exists s'', RegisterScheduledReservationsWithSession sample_key "alice" "train" "job-7" [0; 3]
      1000 5000 700 sample_store = (inr sample_answer, s'') /\
    mem s'' = mem sample_store.
Proof.
  apply (session_replay sample_key sample_key "alice" "train" "job-7" [0; 3] 1000 5000 10 700
    sample_loaded sample_store sample_key_store);
    [vm_compute; reflexivity|exact sample_runs|vm_compute; discriminate..|reflexivity|
     reflexivity|intros _; vm_compute; reflexivity|exact sample_key_accepted].
Defined.
