(* ===== verification/StoreRevoke.v ===== *)
(** Revocation: what it withdraws, what it leaves, and that nothing brings a
    revoked entitlement back. *)

From S2P Require Export StoreTokens.

(** * The loop over the tokens *)

(** The tokens a revocation of [id] with token hash [hash] selects. *)
Definition selects (id hash : string) (t : Token) : bool :=
  revokes id hash (Token_ID t) (Token_Hash t).

(** While every token that bears the id has the hash already found, the loop
    keeps that hash and revokes exactly the selected tokens. *)
Lemma revokeTokens_spec id hash changed ts :
  (forall t, t ∈ ts -> Token_ID t = id -> Token_Hash t = hash) ->
  revokeTokens id hash changed ts =
    (markRows (selects id hash) (Token_set_Revoked true) ts, hash,
     changed || existsb (selects id hash) ts).
Proof.
  revert changed. induction ts as [|t ts IH]; intros changed U; cbn.
  { by rewrite orb_false_r. }
  assert (forall t', t' ∈ ts -> Token_ID t' = id -> Token_Hash t' = hash) as U'
    by (intros t' T; apply U; by right).
  fold (selects id hash t). destruct (selects id hash t) eqn:S.
  - assert (Token_Hash t = hash) as Eh.
    { unfold selects, revokes in S. apply orb_true_iff in S as [S|S].
      - apply U; [by left|by apply String.eqb_eq].
      - apply andb_true_iff in S as [_ S]. by apply String.eqb_eq. }
    rewrite Eh, (IH true U'). cbn. by rewrite orb_true_r.
  - by rewrite (IH changed U').
Qed.

(** The hash a revocation starts from belongs to the tokens of that id. *)
Definition uniqueID (id : string) (ts : list Token) : Prop :=
  forall t1 t2, t1 ∈ ts -> t2 ∈ ts -> Token_ID t1 = id -> Token_ID t2 = id ->
    Token_Hash t1 = Token_Hash t2.

Lemma revokedHash_of_id st id t :
  HasPrefix id "gk_" = false -> uniqueID id (State_Tokens st) ->
  t ∈ State_Tokens st -> Token_ID t = id -> Token_Hash t <> "" ->
  Token_Hash t = revokedHash st id.
Proof.
  intros NP U T I NE. unfold revokedHash. rewrite NP. cbn [negb String.eqb].
  destruct (find _ (State_Tokens st)) as [t'|] eqn:F.
  - apply find_some in F as [T' F]. rewrite orb_false_r in F. apply String.eqb_eq in F.
    apply list_elem_of_In in T'. rewrite (U t' t T' T F I).
    by apply String.eqb_neq in NE as ->.
  - eapply find_none in F; [|by apply list_elem_of_In]. cbn in F.
    rewrite orb_false_r in F. by apply String.eqb_neq in F.
Qed.

Section revoke.
Context `{JSON}.

(** The state after revoking [id], whose token hash is [hash]: every selected
    row is withdrawn and every other row is as it was. *)
Definition withdrawn (id hash : string) (clock : time) (st st' : State) : Prop :=
  State_Tokens st' = markRows (selects id hash) (Token_set_Revoked true) (State_Tokens st) /\
  State_Reservations st' =
    markRows (fun r => revokes id hash (Reservation_ID r) (Reservation_TokenHash r))
      (Reservation_set_Revoked true) (State_Reservations st) /\
  State_Authorizations st' =
    markRows (fun a => revokes id hash (Authorization_ID a) (Authorization_TokenHash a))
      (Authorization_set_Revoked true) (State_Authorizations st) /\
  State_Leases st' =
    markRows (fun l => revokes id hash (Lease_ID l) (Lease_TokenHash l))
      (Lease_set_ExpiresAt (UTC clock)) (State_Leases st) /\
  State_Bypasses st' =
    markRows (fun b => BypassRule_ID b =s id) (BypassRule_set_Revoked true) (State_Bypasses st) /\
  State_SoftClaims st' = filter (fun c => SoftClaim_ID c <> id) (State_SoftClaims st) /\
  State_ManagedKeys st' = State_ManagedKeys st /\
  State_KeySnapshotID st' = State_KeySnapshotID st /\ State_Audit st' = State_Audit st.

Lemma filter_not_id id (cs : list SoftClaim) :
  filter (fun c => (SoftClaim_ID c =s id) = false) cs =
  filter (fun c => SoftClaim_ID c <> id) cs.
Proof. apply list_filter_iff. intros c. apply String.eqb_neq. Qed.

Lemma revokeState_withdrawn id clock st st' :
  (forall t, t ∈ State_Tokens st -> Token_ID t = id -> Token_Hash t = revokedHash st id) ->
  revokeState id clock st = (st', true) -> withdrawn id (revokedHash st id) clock st st'.
Proof.
  intros U. unfold revokeState. rewrite revokeTokens_spec by done. set (h := revokedHash st id).
  cbv zeta. set (c := _ || _ || _ || _ || _). intros [= <- C].
  unfold withdrawn; cbn. repeat split. rewrite <- filter_not_id.
  destruct ((h <>s "") || c) eqn:D; [done|]. apply orb_false_iff in D as [_ D].
  by rewrite D in C.
Qed.

(** A successful revocation outside the managed groups commits [revokeState]. *)
Lemma runs_Revoke arg clock s s' :
  s_loaded s = true -> managedGroup (s_state s) (TrimSpace arg) = "" ->
  runs (Revoke arg clock) s tt s' ->
  revokeState (TrimSpace arg) clock (s_state s) = (s_state s', true).
Proof.
  intros L G R. unfold Revoke in R. apply runs_load in R; [|done]. apply runs_get in R.
  cbv zeta in R. rewrite G in R. cbn [negb String.eqb] in R.
  destruct (revokeState _ _ _) as [st' changed] eqn:E. peel R.
  destruct changed; [|done]. by destruct R as (-> & _).
Qed.

(** C4. Revocation withdraws.  When [Revoke] of a key id, reservation id,
    authorization id, lease id, bypass id or secret succeeds outside the
    managed groups, the new state is the old one with exactly the rows it names
    withdrawn: the tokens of that id or hash, and the reservations,
    authorizations and leases of that id or of that token hash; a bypass or
    claim of that id; every other row, and the audit history, is as before.
    (Token ids are assumed to determine their hash.) *)
Theorem revoke_withdraws arg clock s s' :
  s_loaded s = true ->
  let id := TrimSpace arg in
  let st := s_state s in
  managedGroup st id = "" ->
  (forall t, t ∈ State_Tokens st -> Token_ID t = id -> Token_Hash t = revokedHash st id) ->
  Revoke arg clock s = (inr tt, s') ->
  withdrawn id (revokedHash st id) clock st (s_state s').
Proof.
  intros L id st G U R. apply (runs_Revoke arg clock) in R; [|done..].
  by apply revokeState_withdrawn.
Qed.

(** ** A revoked secret *)

Lemma markRows_find {A} (sel test : A -> bool) (f : A -> A) l x :
  (forall x, test (f x) = test x) ->
  find test (markRows sel f l) = Some x ->
  exists y, find test l = Some y /\ x = if sel y then f y else y.
Proof.
  intros T. induction l as [|y l IH]; cbn; [done|].
  assert (test (if sel y then f y else y) = test y) as -> by (destruct (sel y); auto).
  destruct (test y); [|done]. intros [= <-]. by exists y.
Qed.

Lemma revokedHash_secret st secret :
  HasPrefix secret "gk_" = true -> (forall t, t ∈ State_Tokens st -> Token_ID t <> secret) ->
  revokedHash st secret = HashToken secret.
Proof.
  intros P U. unfold revokedHash. rewrite P.
  assert ((HashToken secret =s "") = false) as NE by (apply String.eqb_neq, HashToken_nonempty).
  destruct (find _ (State_Tokens st)) as [t|] eqn:F; [|by rewrite NE].
  apply find_some in F as [I F]. apply list_elem_of_In in I.
  assert ((Token_ID t =s secret) = false) as X by (apply String.eqb_neq; auto).
  rewrite X, NE in F. cbn [orb andb negb] in F. apply String.eqb_eq in F. by rewrite F, NE.
Qed.

(** A revoked secret is never accepted again.  Once [Revoke] of a secret
    has succeeded, validating that secret, at any time, reports that it is
    revoked or unknown. *)
Theorem revoked_secret_rejected secret clock s s' :
  s_loaded s = true ->
  HasPrefix (TrimSpace secret) "gk_" = true ->
  managedGroup (s_state s) (TrimSpace secret) = "" ->
  (forall t, t ∈ State_Tokens (s_state s) -> Token_ID t <> TrimSpace secret) ->
  Revoke secret clock s = (inr tt, s') ->
  forall now, exists token err,
    ValidateToken secret now s' = (inr (token, HashToken (TrimSpace secret), Some err), s') /\
    (err = ErrTokenRevoked \/ err = ErrTokenNotFound).
Proof.
  intros L P G U R now.
  assert (s_loaded s' = true) as L'.
  { eapply (runs_conserves (Revoke secret clock));
      [apply (conserves_call (MRevoke secret clock))|done..]. }
  apply (runs_Revoke secret clock) in R; [|done..].
  apply revokeState_withdrawn in R as (T & _); [|intros t I X; by destruct (U t I)].
  rewrite (revokedHash_secret _ _ P U) in T.
  rewrite ValidateToken_loaded, T by done. set (h := HashToken (TrimSpace secret)).
  destruct (find _ (markRows _ _ _)) as [t|] eqn:F; [|by eexists _, _; split; [|right]].
  apply markRows_find in F as (y & F & ->); [|by intros []].
  apply find_some in F as [_ F]. cbv beta in F.
  assert (selects (TrimSpace secret) h y = true) as ->.
  { unfold selects, revokes. rewrite F.
    assert ((h =s "") = false) as -> by (apply String.eqb_neq, HashToken_nonempty).
    by rewrite orb_true_r. }
  cbn. eexists _, _. split; [done|by left].
Qed.

(** ** Activation *)

Lemma findIndex_markRows {A} (test : A -> bool) (sel : A -> bool) f l i x :
  (forall x, test (f x) = test x) ->
  findIndex test (markRows sel f l) = Some (i, x) ->
  exists y, test y = true /\ x = if sel y then f y else y.
Proof.
  intros T E. apply findIndex_lookup in E as [E F]. unfold markRows in E.
  rewrite list_lookup_fmap in E. apply fmap_Some in E as (y & _ & ->). exists y.
  split; [|done]. destruct (sel y); [by rewrite T in F|done].
Qed.

(** A revoked authorization cannot be activated.  A job is authorized in
    two steps, and a revocation may fall between them: once [Revoke] of an
    authorization id has succeeded, [ActivateAuthorization] of it fails for
    every root pid and leaves the state as it is. *)
Theorem revoked_authorization_never_activates id clock pid s s' :
  s_loaded s = true -> TrimSpace id = id -> managedGroup (s_state s) id = "" ->
  (forall t, t ∈ State_Tokens (s_state s) -> Token_ID t = id ->
     Token_Hash t = revokedHash (s_state s) id) ->
  Revoke id clock s = (inr tt, s') ->
  (exists err, result (ActivateAuthorization id pid) s' = inl err) /\
  mem (final (ActivateAuthorization id pid) s') = mem s'.
Proof.
  intros L Tr G U R.
  assert (s_loaded s' = true) as L'.
  { eapply (runs_conserves (Revoke id clock)); [apply (conserves_call (MRevoke id clock))|done..]. }
  apply (runs_Revoke id clock) in R; [|done|by rewrite Tr]. rewrite Tr in R.
  apply revokeState_withdrawn in R as (_ & _ & TA & _); [|done].
  assert (exists e, ActivateAuthorization id pid s' = (inl e, s')) as [e E];
    [|unfold result, final; rewrite E; split; [by exists e|done]].
  unfold ActivateAuthorization, fail_if at 1.
  destruct (pid <=? 0); [by eexists|]. rewrite (bind_ok (ret tt) _ s' tt s' eq_refl).
  rewrite load_skip by done. rewrite (bind_ok get _ s' s' s' eq_refl).
  rewrite TA. destruct (findIndex _ (markRows _ _ _)) as [[i a]|] eqn:F; [|by eexists].
  apply findIndex_markRows in F as (y & F & ->); [|by intros []].
  assert (revokes id (revokedHash (s_state s) id) (Authorization_ID y)
    (Authorization_TokenHash y) = true) as -> by (unfold revokes; by rewrite F).
  cbn [Authorization_Revoked Authorization_set_Revoked]. rewrite orb_true_r. by eexists.
Qed.

(** ** Claims *)

(** A claim id alone is not revoked.  [Revoke] compares claim ids, and
    drops the claim it names, only after some other row was withdrawn: for an
    id that only a claim bears it reports "not found" and keeps the claim. *)
Theorem claim_id_not_found id clock claim s :
  s_loaded s = true -> TrimSpace id = id -> HasPrefix id "gk_" = false ->
  claim ∈ State_SoftClaims (s_state s) -> SoftClaim_ID claim = id ->
  (forall t, t ∈ State_Tokens (s_state s) -> Token_ID t <> id) ->
  (forall r, r ∈ State_Reservations (s_state s) -> Reservation_ID r <> id /\ groupOf r <> id) ->
  (forall a, a ∈ State_Authorizations (s_state s) -> Authorization_ID a <> id) ->
  (forall l, l ∈ State_Leases (s_state s) -> Lease_ID l <> id) ->
  (forall b, b ∈ State_Bypasses (s_state s) -> BypassRule_ID b <> id) ->
  result (Revoke id clock) s = inl (Errorf "%s not found" [AStr id]) /\
  claim ∈ State_SoftClaims (s_state (final (Revoke id clock) s)).
Proof.
  intros L Tr P C _ Ht Hr Ha Hl Hb.
  assert (managedGroup (s_state s) id = "") as G.
  { unfold managedGroup. destruct (find _ (State_Reservations (s_state s))) as [r|] eqn:F; [|done].
    apply find_some in F as [I F]. apply list_elem_of_In in I. destruct (Hr r I) as [H1 H2].
    apply String.eqb_neq in H1, H2. by rewrite H1, H2, andb_false_r in F. }
  assert (revokedHash (s_state s) id = "") as RH.
  { unfold revokedHash. rewrite P. cbn [negb String.eqb andb].
    destruct (find _ (State_Tokens (s_state s))) as [t|] eqn:F.
    { apply find_some in F as [I F]. apply list_elem_of_In in I.
      rewrite orb_false_r in F. apply String.eqb_eq in F. by destruct (Ht t I). }
    cbn. destruct (find _ (State_Reservations (s_state s))) as [r|] eqn:F2; [|done].
    apply find_some in F2 as [I F2]. apply list_elem_of_In in I.
    apply String.eqb_eq in F2. by destruct (Hr r I). }
  assert (forall {A} (f : A -> bool) (l : list A),
    (forall x, x ∈ l -> f x = false) -> existsb f l = false) as NE.
  { intros A f l N. apply not_true_is_false. intros [x [I E]]%existsb_exists.
    apply list_elem_of_In in I. by rewrite N in E. }
  assert (forall x h, revokes id "" x h = (x =s id)) as RE
    by (intros x h; unfold revokes; by rewrite orb_false_r).
  assert ((revokeState id clock (s_state s)).2 = false) as Ch.
  { unfold revokeState. rewrite RH, revokeTokens_spec by (intros t I E; by destruct (Ht t I)).
    cbn [fst snd].
    rewrite (NE Token), (NE Reservation), (NE Authorization), (NE Lease), (NE BypassRule);
      [done|..]; intros x I; unfold selects; rewrite ?RE; apply String.eqb_neq; auto.
    by apply Hr. }
  pose proof (revokeState_unchanged _ _ _ Ch) as Same.
  assert (Revoke id clock s = (inl (Errorf "%s not found" [AStr id]), s)) as E.
  { unfold Revoke. rewrite load_skip by done. change ((get ≫= ?k) s) with (k s s). cbv beta zeta.
    rewrite Tr, G. cbn [negb String.eqb]. destruct (revokeState _ _ _) as [st' ch].
    cbn in Ch, Same. subst. by destruct s. }
  unfold result, final. by rewrite E.
Qed.

End revoke.

(** * Witnesses *)

(** The sample store with an authorization waiting for activation and a claim. *)
Definition sample_authorization : Authorization :=
  mkAuthorization "auth_1" "reserved" (HashToken sample_answer.1.1) "reserved" 0 "alice"
    1000 1000 "alice" ["python"; "train.py"] 0 "/gpuardian/auth_1" "" "" "" "" 20 0 true false.
Definition sample_claim : SoftClaim := mkSoftClaim "claim_1" 0 "" "auth_1" "alice" 30 30.
Definition sample_busy : Store :=
  run_calls [MAddAuthorization sample_authorization 20; MUpsertSoftClaim sample_claim 30]
    sample_store.
Definition sample_secret : string := sample_answer.1.1.
Definition sample_revoked : Store := final (Revoke sample_secret 2000) sample_busy.
Definition sample_unauthorized : Store := final (Revoke "auth_1" 2000) sample_busy.

Lemma sample_revoke_runs : Revoke sample_secret 2000 sample_busy = (inr tt, sample_revoked).
Proof. apply result_runs; [vm_compute; reflexivity|by unfold sample_revoked]. Qed.
Lemma sample_unauthorize_runs : Revoke "auth_1" 2000 sample_busy = (inr tt, sample_unauthorized).
Proof. apply result_runs; [vm_compute; reflexivity|by unfold sample_unauthorized]. Qed.

Lemma all_rows {A} (f : A -> bool) (l : list A) x : forallb f l = true -> x ∈ l -> f x = true.
Proof. intros F I. by eapply forallb_forall, list_elem_of_In. Qed.
Lemma no_row {A} (ID : A -> string) (id : string) (l : list A) :
  forallb (fun x => ID x <>s id) l = true -> forall x, x ∈ l -> ID x <> id.
Proof. intros F x I. apply String.eqb_neq, negb_true_iff. by apply (all_rows _ l x F). Qed.
Opaque sample_busy sample_revoked sample_unauthorized.

Lemma revoke_withdraws_witness :
  withdrawn (TrimSpace sample_secret)
    (revokedHash (s_state sample_busy) (TrimSpace sample_secret)) 2000
    (s_state sample_busy) (s_state sample_revoked) /\
  map Reservation_Revoked (State_Reservations (s_state sample_revoked)) = [true; true] /\
  map Authorization_Revoked (State_Authorizations (s_state sample_revoked)) = [true].
Proof.
  split; [|vm_compute; split; reflexivity].
  apply (revoke_withdraws sample_secret 2000 sample_busy sample_revoked);
    [vm_compute; reflexivity|vm_compute; reflexivity| |exact sample_revoke_runs].
  intros t I E. contradict E. revert t I. apply no_row. vm_compute. reflexivity.
Defined.

Lemma revoked_secret_rejected_witness : exists token err,
  ValidateToken sample_secret 3000 sample_revoked =
    (inr (token, HashToken (TrimSpace sample_secret), Some err), sample_revoked) /\
  (err = ErrTokenRevoked \/ err = ErrTokenNotFound).
Proof.
  apply (revoked_secret_rejected sample_secret 2000 sample_busy sample_revoked);
    [vm_compute; reflexivity..| |exact sample_revoke_runs].
  apply no_row. vm_compute. reflexivity.
Defined.

Lemma revoked_authorization_never_activates_witness :
  (exists err, result (ActivateAuthorization "auth_1" 77) sample_unauthorized = inl err) /\
  mem (final (ActivateAuthorization "auth_1" 77) sample_unauthorized) = mem sample_unauthorized.
Proof.
  apply (revoked_authorization_never_activates "auth_1" 2000 77 sample_busy sample_unauthorized);
    [vm_compute; reflexivity..| |exact sample_unauthorize_runs].
  intros t I E. contradict E. revert t I. apply no_row. vm_compute. reflexivity.
Defined.

Lemma claim_id_not_found_witness :
  result (Revoke "claim_1" 2000) sample_busy = inl (Errorf "%s not found" [AStr "claim_1"]) /\
  sample_claim ∈ State_SoftClaims (s_state (final (Revoke "claim_1" 2000) sample_busy)).
Proof.
  apply (claim_id_not_found "claim_1" 2000); try (vm_compute; reflexivity);
    try (apply no_row; vm_compute; reflexivity).
  - vm_compute. left.
  - intros r I. split; revert r I; apply no_row; vm_compute; reflexivity.
Defined.
