(* ===== verification/StoreReports.v ===== *)
(** Reports and pruning: what a status report depends on, and which rows a
    prune keeps. *)

From S2P Require Export StoreRevoke.

(** * Sets built by a loop *)

(** A Go [map[string]bool] filled by a loop over rows holds the keys of the rows
    its test selected. *)
Lemma mem_loop {A} (sel : A -> bool) (key : A -> string) (l : list A) (m : gmap string bool) k :
  mem_bool (foldl (fun m x => if sel x then <[key x := true]> m else m) m l) k =
  existsb (fun x => sel x && (key x =s k)) l || mem_bool m k.
Proof.
  revert m. induction l as [|x l IH]; intros m; cbn; [done|]. rewrite IH.
  destruct (sel x); cbn; [|done]. unfold mem_bool. destruct (String.eqb_spec (key x) k) as [->|N].
  - by rewrite lookup_insert_eq, orb_true_r.
  - by rewrite lookup_insert_ne.
Qed.

Lemma mem_loop_all {A} (key : A -> string) (l : list A) k :
  mem_bool (foldl (fun m x => <[key x := true]> m) ∅ l) k = existsb (fun x => key x =s k) l.
Proof.
  pose proof (mem_loop (fun _ => true) key l ∅ k) as E. cbn in E. rewrite E.
  apply orb_false_r.
Qed.

Definition liveReservation (now : time) (r : Reservation) : bool :=
  Reservation_Active r && negb (Reservation_Revoked r) && Before now (Reservation_ExpiresAt r).

Lemma mem_live rs now k :
  mem_bool (liveReservationTokenHashes rs now) k =
  existsb (fun r => liveReservation now r && (Reservation_TokenHash r <>s "") &&
                    (Reservation_TokenHash r =s k)) rs.
Proof.
  unfold liveReservationTokenHashes.
  rewrite (mem_loop (fun r => liveReservation now r && (Reservation_TokenHash r <>s ""))
    Reservation_TokenHash). apply orb_false_r.
Qed.

Lemma mem_dropped drop ts k :
  mem_bool (droppedHashes drop ts) k =
  existsb (fun t => drop t && (Token_Hash t <>s "") && (Token_Hash t =s k)) ts.
Proof.
  unfold droppedHashes.
  rewrite (mem_loop (fun t => drop t && (Token_Hash t <>s "")) Token_Hash). apply orb_false_r.
Qed.

Lemma mem_authorizations rows k :
  mem_bool (authorizationIDSet rows) k = existsb (fun a => Authorization_ID a =s k) rows.
Proof. apply mem_loop_all. Qed.

(** * Status reports of one token *)

(** The rows of [l] that belong to the token with hash [h]. *)
Definition owned {A} (hashOf : A -> string) (h : string) (l : list A) : list A :=
  filter (fun x => hashOf x = h) l.

(** Two states agree on everything that belongs to one token. *)
Definition agreeOn (h : string) (st1 st2 : State) : Prop :=
  owned Token_Hash h (State_Tokens st1) = owned Token_Hash h (State_Tokens st2) /\
  owned Reservation_TokenHash h (State_Reservations st1) =
    owned Reservation_TokenHash h (State_Reservations st2) /\
  owned Authorization_TokenHash h (State_Authorizations st1) =
    owned Authorization_TokenHash h (State_Authorizations st2) /\
  owned SoftClaim_TokenHash h (State_SoftClaims st1) =
    owned SoftClaim_TokenHash h (State_SoftClaims st2).

Lemma filter_owned {A} (hashOf : A -> string) h (f : A -> bool) l :
  filter (fun x => (false || (hashOf x =s h)) && f x = true) l =
  filter (fun x => f x = true) (owned hashOf h l).
Proof.
  unfold owned. rewrite list_filter_filter. apply list_filter_iff. intros x.
  rewrite andb_true_iff. cbn. rewrite String.eqb_eq. tauto.
Qed.

Lemma filter_and_owned {A} (hashOf : A -> string) h (f : A -> bool) (l : list A) :
  filter (fun x => hashOf x = h /\ f x = true) l = filter (fun x => f x = true) (owned hashOf h l).
Proof. unfold owned. rewrite list_filter_filter. apply list_filter_iff. tauto. Qed.

Lemma existsb_owned {A} (hashOf : A -> string) h (f : A -> bool) l :
  existsb (fun x => f x && (hashOf x =s h)) l = existsb f (owned hashOf h l).
Proof.
  unfold owned. induction l as [|x l IH]; [done|]. cbn [existsb]. rewrite IH, filter_cons.
  destruct (String.eqb_spec (hashOf x) h) as [E|N]; case_decide; try done; cbn.
  - by rewrite andb_true_r.
  - by rewrite andb_false_r.
Qed.

Lemma filter_ext_in {A} (f g : A -> bool) (l : list A) :
  (forall x, x ∈ l -> f x = g x) ->
  filter (fun x => f x = true) l = filter (fun x => g x = true) l.
Proof.
  induction l as [|x l IH]; intros E; [done|]. rewrite !filter_cons, (E x) by left.
  rewrite IH by (intros y Y; apply E; by right). done.
Qed.

Lemma owned_live h now st1 st2 : agreeOn h st1 st2 ->
  mem_bool (liveReservationTokenHashes (State_Reservations st1) now) h =
  mem_bool (liveReservationTokenHashes (State_Reservations st2) now) h.
Proof.
  intros (_ & R & _). rewrite !mem_live.
  by rewrite !(existsb_owned Reservation_TokenHash h
    (fun r => liveReservation now r && (Reservation_TokenHash r <>s ""))), R.
Qed.

Lemma owned_tokens h now st1 st2 : agreeOn h st1 st2 ->
  filter (fun t => reportedToken (liveReservationTokenHashes (State_Reservations st1) now) now t
                   = true) (owned Token_Hash h (State_Tokens st1)) =
  filter (fun t => reportedToken (liveReservationTokenHashes (State_Reservations st2) now) now t
                   = true) (owned Token_Hash h (State_Tokens st2)).
Proof.
  intros G. rewrite (proj1 G). apply filter_ext_in. intros t T.
  apply list_elem_of_filter in T as [<- _]. unfold reportedToken.
  by rewrite (owned_live (Token_Hash t) now st1 st2 G).
Qed.

(** Isolation of the status of a token.  The report a token gets, and the
    enforcement snapshot taken for it, are functions of the rows with that
    token's hash alone: two states that agree on those rows, whatever other
    tokens, reservations, authorizations, claims, leases, bypasses and audit
    events they hold, give the same report and the same snapshot; and the
    snapshot carries no secret. *)
Theorem token_reports_isolated h now st1 st2 :
  agreeOn h st1 st2 ->
  statusOf st1 now h false = statusOf st2 now h false /\
  tokenScope h st1 = tokenScope h st2 /\
  Forall (fun t => Token_Secret t = "") (State_Tokens (tokenScope h st1)).
Proof.
  intros G. pose proof (owned_tokens h now st1 st2 G) as T. destruct G as (T0 & R & A & C).
  split; [|split].
  - unfold statusOf. cbv zeta. rewrite !(filter_owned Token_Hash h), T.
    by rewrite !(filter_owned Reservation_TokenHash h), !(filter_owned Authorization_TokenHash h),
      !(filter_owned SoftClaim_TokenHash h), R, A, C.
  - unfold tokenScope. rewrite !(filter_and_owned SoftClaim_TokenHash h), C.
    unfold owned in *. by rewrite T0, R, A.
  - cbn. apply Forall_map, list.Forall_true. by intros [].
Qed.

(** * Pruning *)

(** The rows that still entitle someone. *)
Definition validToken (now : time) (rs : list Reservation) (t : Token) : Prop :=
  Token_Revoked t = false /\ tokenExpired t now = false /\
  (NormalizeTokenMode (Token_Mode t) = TokenModeReserved ->
   Token_Hash t <> "" /\
   exists r, r ∈ rs /\ liveReservation now r = true /\ Reservation_TokenHash r = Token_Hash t).

(** No token that a prune drops has this hash. *)
Definition notOrphaned (now : time) (st : State) (hash : string) : Prop :=
  forall t, t ∈ State_Tokens st -> Token_Hash t = hash -> hash <> "" ->
    validToken now (State_Reservations st) t.

Lemma prunedToken_false now rs t :
  prunedToken (liveReservationTokenHashes rs now) now t = false <-> validToken now rs t.
Proof.
  unfold prunedToken, validToken. rewrite !orb_false_iff, andb_false_iff, negb_false_iff.
  rewrite String.eqb_neq, mem_live, existsb_exists.
  split.
  - intros [[R E] O]. repeat split; [done..| |].
    + destruct O as [O|(r & _ & O)]; [done|].
      rewrite !andb_true_iff, negb_true_iff, String.eqb_eq, String.eqb_neq in O.
      destruct O as [[_ N] <-]. done.
    + destruct O as [O|(r & I & O)]; [done|]. exists r.
      rewrite !andb_true_iff, negb_true_iff, String.eqb_eq in O. apply list_elem_of_In in I. tauto.
  - intros (R & E & O). split; [done|].
    destruct (String.eqb_spec (NormalizeTokenMode (Token_Mode t)) TokenModeReserved) as [M|M];
      [|by left].
    right. destruct (O M) as (N & r & I & L & H). exists r. split; [by apply list_elem_of_In|].
    rewrite L, H, String.eqb_refl. by apply String.eqb_neq in N as ->.
Qed.

Lemma dropped_orphaned now st k :
  mem_bool (droppedHashes (prunedToken (liveReservationTokenHashes (State_Reservations st) now)
    now) (State_Tokens st)) k = false <-> notOrphaned now st k.
Proof.
  rewrite mem_dropped. unfold notOrphaned. split.
  - intros E t T H N. apply prunedToken_false. apply not_true_is_false. intros D.
    assert (existsb (fun t => prunedToken (liveReservationTokenHashes (State_Reservations st) now)
      now t && (Token_Hash t <>s "") && (Token_Hash t =s k)) (State_Tokens st) = true) as X;
      [|by rewrite E in X].
    apply existsb_exists. exists t. split; [by apply list_elem_of_In|].
    rewrite D, H, String.eqb_refl. by apply String.eqb_neq in N as ->.
  - intros V. apply not_true_is_false. intros (t & I & X)%existsb_exists.
    rewrite !andb_true_iff, negb_true_iff, String.eqb_eq, String.eqb_neq in X.
    destruct X as [[D N] H]. apply list_elem_of_In in I. subst k.
    pose proof (V t I eq_refl N) as V'. apply prunedToken_false in V'. congruence.
Qed.

Lemma elem_of_keep {A} (drop : A -> bool) (l : list A) x :
  x ∈ keep drop l <-> x ∈ l /\ drop x = false.
Proof. unfold keep. rewrite list_elem_of_filter. tauto. Qed.

Ltac booleans :=
  repeat rewrite ?orb_false_iff, ?negb_false_iff, ?negb_true_iff, ?andb_true_iff, ?Z.ltb_lt.

(** A prune keeps exactly what is valid.  After [pruneExpired] the tokens,
    reservations, authorizations, leases and bypasses are those of the old
    state, in order, that are not revoked, not expired, still active, and whose
    token was not dropped; a reserved token needs a live reservation of its
    own.  Whenever anything was dropped, the claims left are those whose token
    was not dropped and whose authorization is still there. *)
Theorem prune_keeps_exactly now st :
  let st' := (pruneExpired now st).1 in
  (forall t, t ∈ State_Tokens st' <->
     t ∈ State_Tokens st /\ validToken now (State_Reservations st) t) /\
  (forall r, r ∈ State_Reservations st' <->
     r ∈ State_Reservations st /\ liveReservation now r = true /\
     notOrphaned now st (Reservation_TokenHash r)) /\
  (forall a, a ∈ State_Authorizations st' <->
     a ∈ State_Authorizations st /\ authorizationActiveAt a now = true /\
     notOrphaned now st (Authorization_TokenHash a)) /\
  (forall l, l ∈ State_Leases st' <->
     l ∈ State_Leases st /\ Lease_Active l = true /\ now < Lease_ExpiresAt l /\
     notOrphaned now st (Lease_TokenHash l)) /\
  (forall b, b ∈ State_Bypasses st' <->
     b ∈ State_Bypasses st /\ BypassRule_Revoked b = false /\ now < BypassRule_ExpiresAt b) /\
  ((pruneExpired now st).2 = true -> forall c, c ∈ State_SoftClaims st' <->
     c ∈ State_SoftClaims st /\ notOrphaned now st (SoftClaim_TokenHash c) /\
     exists a, a ∈ State_Authorizations st' /\ Authorization_ID a = SoftClaim_AuthorizationID c).
Proof.
  cbv zeta. unfold pruneExpired; cbn [fst snd State_Tokens State_Reservations
    State_Authorizations State_Leases State_Bypasses State_SoftClaims].
  repeat split_and.
  - intros t. by rewrite elem_of_keep, prunedToken_false.
  - intros r. rewrite elem_of_keep, <- dropped_orphaned.
    unfold prunedReservation, liveReservation, Before. booleans. tauto.
  - intros a. rewrite elem_of_keep, <- dropped_orphaned.
    unfold prunedAuthorization, authorizationActiveAt. booleans. tauto.
  - intros l. rewrite elem_of_keep, <- dropped_orphaned.
    unfold prunedLease, Before. booleans. tauto.
  - intros b. rewrite elem_of_keep. unfold prunedBypass, Before. booleans. tauto.
  - intros Ch c.
    match goal with |- context [if ?b then keep _ _ else _] => destruct b eqn:P end.
    + rewrite elem_of_keep, <- dropped_orphaned. unfold prunedClaim. booleans.
      rewrite mem_authorizations, existsb_exists.
      setoid_rewrite String.eqb_eq. setoid_rewrite <- list_elem_of_In. tauto.
    + apply orb_false_iff in P as [_ P]. rewrite P in Ch. done.
Qed.

Lemma existsb_none {A} (f : A -> bool) (l : list A) :
  (forall x, x ∈ l -> f x = false) -> existsb f l = false.
Proof.
  intros N. apply not_true_is_false. intros (x & I & E)%existsb_exists.
  apply list_elem_of_In in I. by rewrite N in E.
Qed.

Lemma droppedHashes_none drop ts : (forall t, t ∈ ts -> drop t = false) ->
  droppedHashes drop ts = ∅.
Proof.
  unfold droppedHashes. generalize (∅ : gmap string bool).
  induction ts as [|t ts IH]; intros m D; cbn; [done|].
  rewrite (D t) by left. cbn. apply IH. intros x X. apply D. by right.
Qed.

Lemma NoDup_hash ts t1 t2 : NoDup (map Token_Hash ts) -> t1 ∈ ts -> t2 ∈ ts ->
  Token_Hash t1 = Token_Hash t2 -> t1 = t2.
Proof.
  induction ts as [|t ts IH]; intros N I1 I2 E; [by apply elem_of_nil in I1|].
  cbn in N. apply NoDup_cons in N as [F N].
  apply elem_of_cons in I1 as [->|I1], I2 as [->|I2]; try done.
  - contradict F. rewrite E. by apply list_elem_of_fmap_2.
  - contradict F. rewrite <- E. by apply list_elem_of_fmap_2.
  - by apply IH.
Qed.

(** After a prune, every token left is valid for the reservations left. *)
Lemma pruned_tokens_valid now st t :
  NoDup (map Token_Hash (State_Tokens st)) ->
  t ∈ State_Tokens (pruneExpired now st).1 ->
  validToken now (State_Reservations (pruneExpired now st).1) t.
Proof.
  intros N T. cbn in *. apply elem_of_keep in T as [T V]. apply prunedToken_false in V as V'.
  destruct V' as (R & E & Live). split; [done|]. split; [done|]. intros M.
  destruct (Live M) as (NE & r & I & L & H). split; [done|]. exists r. split; [|done].
  apply elem_of_keep. split; [done|]. unfold prunedReservation, liveReservation in *.
  rewrite !andb_true_iff, negb_true_iff in L. destruct L as [[-> ->] ->]. cbn.
  apply dropped_orphaned. intros t' T' H' _.
  assert (t' = t) as -> by (eapply NoDup_hash; eauto; congruence). by apply prunedToken_false.
Qed.

(** A state whose rows are all valid has nothing to prune. *)
Lemma pruneExpired_settled now st :
  (forall t, t ∈ State_Tokens st -> validToken now (State_Reservations st) t) ->
  (forall r, r ∈ State_Reservations st -> liveReservation now r = true) ->
  (forall a, a ∈ State_Authorizations st -> authorizationActiveAt a now = true) ->
  (forall l, l ∈ State_Leases st -> Lease_Active l = true /\ now < Lease_ExpiresAt l) ->
  (forall b, b ∈ State_Bypasses st -> BypassRule_Revoked b = false /\ now < BypassRule_ExpiresAt b) ->
  (pruneExpired now st).2 = false.
Proof.
  intros T R A L B.
  assert (forall t, t ∈ State_Tokens st ->
    prunedToken (liveReservationTokenHashes (State_Reservations st) now) now t = false) as T'
    by (intros t I; apply prunedToken_false; auto).
  unfold pruneExpired. cbv zeta. cbn [snd].
  rewrite (droppedHashes_none _ _ T'), (existsb_none _ _ T').
  assert (forall k, mem_bool ∅ k = false) as M by done.
  rewrite (existsb_none (prunedReservation ∅ now)), (existsb_none (prunedAuthorization ∅ now)),
    (existsb_none (prunedLease ∅ now)), (existsb_none (prunedBypass now)); [done|..];
    intros x X; unfold prunedBypass, prunedLease, prunedAuthorization, prunedReservation, Before;
    rewrite ?M.
  - destruct (B x X) as [-> E%Z.ltb_lt]. by rewrite E.
  - destruct (L x X) as [-> E%Z.ltb_lt]. by rewrite E.
  - specialize (A x X). unfold authorizationActiveAt in A. revert A. booleans. tauto.
  - specialize (R x X). unfold liveReservation, Before in R. revert R. booleans. tauto.
Qed.

(** Pruning settles.  When token hashes are distinct, a second prune at the
    same instant finds nothing to drop. *)
Theorem prune_idempotent now st :
  NoDup (map Token_Hash (State_Tokens st)) ->
  pruneExpired now (pruneExpired now st).1 = ((pruneExpired now st).1, false).
Proof.
  intros N.
  assert ((pruneExpired now (pruneExpired now st).1).2 = false) as E.
  { apply pruneExpired_settled; [by intros t; apply pruned_tokens_valid|..]; cbn; intros x X;
      apply elem_of_keep in X as [_ X]; revert X.
    - unfold prunedReservation, liveReservation, Before. booleans. tauto.
    - unfold prunedAuthorization, authorizationActiveAt. booleans. tauto.
    - unfold prunedLease, Before. booleans. tauto.
    - unfold prunedBypass, Before. booleans. tauto. }
  pose proof (pruneExpired_unchanged _ _ E) as U.
  destruct (pruneExpired now (pruneExpired now st).1) as [st' ch]. cbn in E, U. by subst.
Qed.

(** * Witnesses *)

Lemma token_reports_isolated_witness :
  let st1 := s_state sample_busy in
  let st2 := State_set_Tokens (State_Tokens st1 ++ [Token_zero]) st1 in
  let h := HashToken sample_secret in
  statusOf st1 100 h false = statusOf st2 100 h false /\
  tokenScope h st1 = tokenScope h st2 /\
  Forall (fun t => Token_Secret t = "") (State_Tokens (tokenScope h st1)).
Proof.
  apply token_reports_isolated. vm_compute. repeat split.
Defined.

Lemma prune_idempotent_witness :
  let st := s_state sample_revoked in
  pruneExpired 100 (pruneExpired 100 st).1 = ((pruneExpired 100 st).1, false).
Proof.
  apply prune_idempotent. vm_compute. constructor; [|constructor].
  intros I. by apply elem_of_nil in I.
Defined.
