(* ===== verification/StoreLimits.v ===== *)
(** Limits on what the store accepts, keeps and shows: durations, the audit
    history, command lines in reports, and the root key. *)

From S2P Require Export StoreTokens.

(** * Lists *)

Lemma lastN_spec {A} n (l : list A) : 0 <= n ->
  llen (lastN n l) = Z.min n (llen l) /\ exists dropped, l = dropped ++ lastN n l.
Proof.
  intros N. unfold lastN, llen. destruct (Z.ltb_spec n (Z.of_nat (length l))).
  - rewrite length_drop. split; [lia|]. exists (take (Z.to_nat (Z.of_nat (length l) - n)) l).
    by rewrite take_drop.
  - split; [lia|]. by exists [].
Qed.

(** * Command lines in views *)

Definition totalBytes (command : list string) : Z := foldr (fun a n => slen a + n) 0 command.

(** [out] shows the start of [command]: whole arguments, then possibly one cut
    argument. *)
Definition startOf (out command : list string) : Prop :=
  exists whole rest,
    command = whole ++ rest /\
    (out = whole \/ exists a n more, rest = a :: more /\ out = whole ++ [stake n a]).

Lemma slen_stake n s : slen (stake n s) = Z.min (Z.of_nat n) (slen s).
Proof.
  unfold slen. revert n. induction s as [|c s IH]; intros [|n]; cbn [stake String.length]; try lia.
  specialize (IH n). lia.
Qed.

Lemma totalBytes_one a : totalBytes [a] = slen a.
Proof. cbn. lia. Qed.

Lemma totalBytes_app l1 l2 : totalBytes (l1 ++ l2) = totalBytes l1 + totalBytes l2.
Proof. induction l1 as [|a l1 IH]; cbn; [done|]. fold (totalBytes (l1 ++ l2)). unfold totalBytes in *. lia. Qed.

Lemma boundedViewLoop_spec command out remaining :
  llen out <= maxViewCommandArgs -> 0 <= remaining ->
  totalBytes out + remaining = maxViewCommandBytes ->
  let v := boundedViewLoop command out remaining in
  llen v <= maxViewCommandArgs /\ totalBytes v <= maxViewCommandBytes /\
  exists shown, v = out ++ shown /\ startOf shown command.
Proof.
  revert out remaining. induction command as [|a command IH]; intros out remaining L R T; cbn [boundedViewLoop]; cbv zeta.
  { split; [done|]. split; [lia|]. exists []. split; [by rewrite app_nil_r|].
    exists [], []. split; [done|by left]. }
  destruct (Z.leb_spec maxViewCommandArgs (llen out)); cbn [orb].
  { split; [done|]. split; [lia|]. exists []. split; [by rewrite app_nil_r|].
    exists [], (a :: command). split; [done|by left]. }
  destruct (Z.leb_spec remaining 0).
  { split; [done|]. split; [lia|]. exists []. split; [by rewrite app_nil_r|].
    exists [], (a :: command). split; [done|by left]. }
  set (a' := if remaining <? slen a then stake (Z.to_nat remaining) a else a).
  assert (slen a' <= remaining /\ (slen a' < remaining -> a' = a) /\ exists n, a' = stake n a)
    as (B & W & n & S).
  { unfold a'. destruct (Z.ltb_spec remaining (slen a)).
    - rewrite slen_stake. split; [lia|]. split; [lia|]. by eexists.
    - split; [lia|]. split; [done|]. exists (String.length a). clear. induction a; cbn; congruence. }
  pose proof (slen_nonneg a').
  edestruct (IH (out ++ [a']) (remaining - slen a')) as (L' & T' & shown & E & St).
  { unfold llen in *. rewrite length_app. cbn. lia. }
  { lia. }
  { rewrite totalBytes_app, totalBytes_one. lia. }
  split; [done|]. split; [done|]. rewrite E, <- app_assoc. exists (a' :: shown). split; [done|].
  destruct (decide (slen a' < remaining)) as [Lt|Ge].
  - rewrite W by done. destruct St as (whole & rest & -> & St). exists (a :: whole), rest.
    split; [done|]. destruct St as [->|(b & m & more & -> & ->)]; [by left|]. right.
    by exists b, m, more.
  - assert (shown = []) as ->.
    { assert (remaining - slen a' = 0) as Zr by lia. rewrite Zr in E. revert E. clear.
      destruct command as [|b command]; cbn; [|rewrite orb_true_r; cbn]; intros E;
        rewrite <- (app_nil_r (out ++ [a'])) in E at 1; by apply app_inv_head in E. }
    exists [], (a :: command). split; [done|]. right. exists a, n, command. by rewrite S.
Qed.

(** Command lines in reports are bounded.  A view shows at most 128
    arguments and 16 KiB of a stored command, always its beginning: whole
    arguments in order, the last of them possibly cut. *)
Theorem view_command_bounded command :
  let v := boundedViewCommand command in
  llen v <= maxViewCommandArgs /\ totalBytes v <= maxViewCommandBytes /\ startOf v command.
Proof.
  destruct (boundedViewLoop_spec command [] maxViewCommandBytes) as (L & T & shown & E & S);
    [done..|]. unfold boundedViewCommand. cbn in E. rewrite E in *. done.
Qed.

(** Accepted durations.  Whatever the text, a duration that [ParseTTL]
    accepts is positive and, when there is a maximum, at most that maximum;
    every default the store passes satisfies the same bound. *)
Theorem ParseTTL_bounds text def max ttl :
  0 < def -> (0 < max -> def <= max) ->
  ParseTTL text def max = inr ttl ->
  0 < ttl /\ (0 < max -> ttl <= max).
Proof.
  intros D M. unfold ParseTTL. destruct (TrimSpace text =s ""); [by intros [= <-]|].
  destruct (ParseDuration text) as [e|d]; [done|].
  destruct (Z.leb_spec d 0); [done|]. unfold NoTTLMaximum.
  destruct (Z.ltb_spec 0 max), (Z.ltb_spec max d); cbn; intros [= <-]; lia.
Qed.

Section limits.
Context `{JSON}.

(** ** The audit history *)

(** The audit history keeps the newest events.  Whatever fails while events
    are appended, the history afterwards is either the old one or the newest
    1000 of the old events followed by the new ones, and no other row of the
    state changes. *)
Theorem audit_keeps_newest es s :
  Good (fun _ => True) s -> es <> [] ->
  let old := State_Audit (s_state s) in
  let st' := s_state (final (AppendAudits es) s) in
  st' = s_state s \/
  (st' = State_set_Audit (State_Audit st') (s_state s) /\
   llen (State_Audit st') = Z.min maxAuditEvents (llen (old ++ es)) /\
   exists dropped, old ++ es = dropped ++ State_Audit st').
Proof.
  intros (L & E & V & _) NE old.
  set (new := State_set_Audit (lastN maxAuditEvents (old ++ es)) (s_state s)).
  set (I st := st = s_state s \/ st = new).
  assert (keeps I (AppendAudits es) s) as K.
  { unfold AppendAudits. destruct es as [|e es]; [done|].
    apply keeps_load, keeps_update_save_then; [|solve_frame].
    intros _ _. by right. }
  destruct (K ltac:(by repeat split; try left)) as (_ & _ & _ & [S|S]); [by left|right].
  cbv zeta. rewrite S. cbn [State_Audit State_set_Audit new].
  destruct (lastN_spec maxAuditEvents (old ++ es)) as [Len Suf]; [done|].
  split; [done|]. by split.
Qed.

End limits.

(** * Witnesses *)

Lemma ParseTTL_bounds_witness :
  ParseTTL "36h" DefaultHardTTL MaxHardTTL = inr (36 * Hour) /\
  0 < 36 * Hour /\ (0 < MaxHardTTL -> 36 * Hour <= MaxHardTTL).
Proof.
  split; [vm_compute; reflexivity|].
  apply (ParseTTL_bounds "36h" DefaultHardTTL MaxHardTTL);
    [reflexivity|discriminate|vm_compute; reflexivity].
Defined.

Definition sample_events : list AuditEvent :=
  [mkAuditEvent 100 "kill" "terminated process" 0 4242 "" "bob"].

Lemma audit_keeps_newest_witness :
  let old := State_Audit (s_state sample_store) in
  let st' := s_state (final (AppendAudits sample_events) sample_store) in
  st' = s_state sample_store \/
  (st' = State_set_Audit (State_Audit st') (s_state sample_store) /\
   llen (State_Audit st') = Z.min maxAuditEvents (llen (old ++ sample_events)) /\
   exists dropped, old ++ sample_events = dropped ++ State_Audit st').
Proof.
  apply (audit_keeps_newest sample_events sample_store); [|discriminate].
  vm_compute. repeat split.
Defined.

(** The root key file: what is created is what is read back and accepted. *)

(** * The format *)

Lemma hex_value_visible c z : hex_value c = Some z -> visible c = true.
Proof.
  unfold hex_value, visible. intros E. apply andb_true_iff. rewrite !Z.leb_le.
  destruct (_ && _) eqn:A in E; [|destruct (_ && _) eqn:B in E; [|destruct (_ && _) eqn:C in E]];
    try done; lia.
Qed.

Lemma HexDecode_visible s bs : HexDecode s = Some bs -> all_visible s = true.
Proof.
  revert bs. induction s as [s IH] using (induction_ltof1 _ String.length).
  destruct s as [|a [|b r]]; intros bs; cbn; [done..|].
  destruct (hex_value a) eqn:A, (hex_value b) eqn:B, (HexDecode r) eqn:R; try done. intros _.
  rewrite (hex_value_visible _ _ A), (hex_value_visible _ _ B). cbn.
  eapply IH; [|exact R]. unfold ltof. cbn. lia.
Qed.

(** A key as [parseRootKey] accepts it. *)
Definition rootKeyFormat (key : string) : Prop :=
  exists bs, HexDecode (sdrop 3 key) = Some bs /\ llen bs = rootKeyHexBytes /\
    slen key = 3 + rootKeyHexBytes * 2 /\ HasPrefix key "rk_" = true.

Lemma HasPrefix_split s p : HasPrefix s p = true -> s = p +:+ sdrop (String.length p) s.
Proof.
  unfold HasPrefix. revert s. induction p as [|c p IH]; intros s E; [by destruct s|].
  destruct s as [|d s]; cbn in E; [done|]. destruct (Ascii.ascii_dec c d) as [->|]; [|done].
  change (String d p +:+ ?x) with (String d (p +:+ x)). cbn. f_equal. by apply IH.
Qed.

Lemma rootKey_trim key : rootKeyFormat key -> TrimSpace key = key.
Proof.
  intros (bs & D & _ & _ & P). apply TrimSpace_visible.
  rewrite (HasPrefix_split _ _ P), all_visible_app. cbn [String.length].
  by rewrite (HexDecode_visible _ _ D).
Qed.

Lemma parseRootKey_format path data key : parseRootKey path data = inr key -> rootKeyFormat key.
Proof.
  unfold parseRootKey. destruct (_ <? slen data); [done|].
  set (k := TrimSuffix data _). destruct (negb (slen k =? _) || _) eqn:E; [done|].
  apply orb_false_iff in E as [E1%negb_false_iff%Z.eqb_eq E2%negb_false_iff].
  destruct (HexDecode (sdrop 3 k)) as [bs|] eqn:D; [|done].
  destruct (llen bs =? rootKeyHexBytes) eqn:N; [|done]. intros [= <-].
  apply Z.eqb_eq in N. by exists bs.
Qed.

Lemma stake_all n s : (String.length s <= n)%nat -> stake n s = s.
Proof.
  revert n. induction s as [|c s IH]; intros [|n] L; cbn in *; [done..|lia|].
  by rewrite IH by lia.
Qed.

(** The file that [createRootKeyFile] links is parsed to the key it was given. *)
Lemma parseRootKey_created path bs : byte_list bs -> llen bs = 32 ->
  parseRootKey path (stake 69 (("rk_" +:+ HexEncode bs) +:+ String (byte_of 10) EmptyString)) =
    inr ("rk_" +:+ HexEncode bs).
Proof.
  intros B N.
  assert (slen ("rk_" +:+ HexEncode bs) = 67) as L by (rewrite slen_app, slen_HexEncode, N; done).
  assert (HasPrefix ("rk_" +:+ HexEncode bs) "rk_" = true) as P by apply HasPrefix_app.
  assert (sdrop 3 ("rk_" +:+ HexEncode bs) = HexEncode bs) as D by apply (sdrop_app "rk_").
  set (key := "rk_" +:+ HexEncode bs) in *.
  assert (slen (key +:+ String (byte_of 10) EmptyString) = 68) as L2 by (rewrite slen_app, L; done).
  rewrite stake_all by (unfold slen in L2; lia).
  unfold parseRootKey. rewrite L2. cbn [Z.ltb Z.compare]. rewrite TrimSuffix_app, L.
  rewrite P, D, HexDecode_Encode by done. by rewrite N.
Qed.

(** * Reading and creating *)

(** The root key file holds [key] and may be read. *)
Definition holdsRootKey (key : string) (s : Store) : Prop :=
  exists f, w_root_key_file s = Some f /\ file_regular f = true /\ permOpenToOthers f = false /\
    parseRootKey (cfg_RootKeyPath (s_cfg s)) (stake 69 (file_data f)) = inr key.

(** Computations that leave the root key file, its path and the oracle alone. *)
Definition keepsRootKey {A} (m : M Store A) : Prop := forall s,
  w_root_key_file (final m s) = w_root_key_file s /\ s_cfg (final m s) = s_cfg s /\
  w_os (final m s) = w_os s.

Lemma keepsRootKey_os : keepsRootKey os.
Proof. intros s. unfold final, os. by destruct (w_os s (w_calls s)) as [[]|]. Qed.
Lemma keepsRootKey_writeAll data : keepsRootKey (writeAll data).
Proof. intros s. unfold final, writeAll. by destruct (w_os s (w_calls s)) as [[]|]. Qed.
Lemma keepsRootKey_ret {A} (a : A) : keepsRootKey (ret a).
Proof. done. Qed.
Lemma keepsRootKey_throw {A} e : keepsRootKey (A := A) (throw e).
Proof. done. Qed.
Lemma keepsRootKey_get : keepsRootKey get.
Proof. done. Qed.
Lemma keepsRootKey_fail_if b e : keepsRootKey (fail_if b e).
Proof. by destruct b. Qed.
Lemma keepsRootKey_randomHex n : keepsRootKey (randomHex n).
Proof. done. Qed.
Lemma keepsRootKey_bind {A B} (m : M Store A) (k : A -> M Store B) :
  keepsRootKey m -> (forall a, keepsRootKey (k a)) -> keepsRootKey (m ≫= k).
Proof.
  intros Hm Hk s. rewrite bind_inv. destruct (result m s) as [e|a]; [apply Hm|].
  destruct (Hk a (final m s)) as (-> & -> & ->). apply Hm.
Qed.
Lemma keepsRootKey_try {A} (m : M Store A) : keepsRootKey m -> keepsRootKey (try m).
Proof. intros Hm s. specialize (Hm s). unfold final, try in *. by destruct (m s). Qed.

Create HintDb rootkey.
#[export] Hint Resolve keepsRootKey_os keepsRootKey_writeAll keepsRootKey_ret keepsRootKey_throw keepsRootKey_get
  keepsRootKey_fail_if keepsRootKey_randomHex : rootkey.

Ltac solve_rootkey :=
  repeat (intros; cbv zeta;
    lazymatch goal with
    | |- keepsRootKey (match ?x with _ => _ end) => destruct x
    | |- keepsRootKey ((match ?x with _ => _ end) _) => destruct x
    | |- keepsRootKey (try _) => apply keepsRootKey_try
    | |- keepsRootKey _ => first [solve [auto with rootkey] | apply keepsRootKey_bind]
    end).

Lemma keepsRootKey_read : keepsRootKey readRootKeyFile.
Proof. unfold readRootKeyFile, os_Open. solve_rootkey. Qed.
Lemma keepsRootKey_temp d : keepsRootKey (writeSyncedTempFile d).
Proof. unfold writeSyncedTempFile. solve_rootkey. Qed.
Lemma keepsRootKey_syncDir : keepsRootKey syncDir.
Proof. unfold syncDir. solve_rootkey. Qed.
#[export] Hint Resolve keepsRootKey_read keepsRootKey_temp keepsRootKey_syncDir : rootkey.

Lemma runs_keeps {A} (m : M Store A) s a s' : keepsRootKey m -> runs m s a s' ->
  w_root_key_file s' = w_root_key_file s /\ s_cfg s' = s_cfg s /\ w_os s' = w_os s.
Proof. intros K R. rewrite <- (runs_final _ _ _ _ R). apply K. Qed.

Lemma readRootKeyFile_holds s key s' :
  runs readRootKeyFile s key s' -> holdsRootKey key s'.
Proof.
  intros R. destruct (runs_keeps _ _ _ _ keepsRootKey_read R) as (F & C & _).
  unfold holdsRootKey. rewrite F, C. clear F C.
  unfold readRootKeyFile, os_Open in R. apply runs_get in R.
  apply runs_bind in R as (f & s1 & O & R).
  apply runs_bind in O as ([] & s0 & Q0 & O).
  destruct (w_root_key_file s) as [g|]; [|done]. apply runs_ret in O as [-> ->].
  exists g. split; [done|].
  apply runs_bind in R as ([] & s2 & Q2 & R).
  apply runs_fail_if in R as [E1%negb_false_iff R]. apply runs_fail_if in R as [E2 R].
  apply runs_bind in R as ([] & s3 & Q3 & R).
  split; [done|]. split; [done|].
  destruct (parseRootKey _ _) as [e|k]; [done|]. by apply runs_ret in R as [-> _].
Qed.

Lemma createRootKeyFile_holds bs s s' : byte_list bs -> llen bs = 32 ->
  runs (createRootKeyFile (("rk_" +:+ HexEncode bs) +:+ String (byte_of 10) EmptyString)) s tt s' ->
  holdsRootKey ("rk_" +:+ HexEncode bs) s'.
Proof.
  intros B N R. unfold createRootKeyFile in R. set (data := ("rk_" +:+ HexEncode bs) +:+ _) in *.
  apply runs_bind in R as ([] & s1 & _ & R).
  apply runs_bind in R as (r & s2 & T & R). apply runs_bind in R as (o & s3 & O & R).
  destruct r as [e|[]]; [by destruct (runs_throw _ _ _ _ R)|]. apply runs_ret in R as [_ ->].
  destruct (runs_keeps _ _ _ _ (keepsRootKey_try _ keepsRootKey_os) O) as (F & C & _).
  assert (w_root_key_file s2 = Some (mkFile true 384 data)) as W.
  { apply runs_try in T as E. apply runs_bind in E as ([] & s5 & _ & E).
    apply runs_bind in E as ([] & s6 & L & E).
    apply runs_get in L. destruct (w_root_key_file s5); [done|]. injection L as <-.
    assert (keepsRootKey (syncDir ;; os ;; syncDir)) as K by solve_rootkey.
    by destruct (runs_keeps _ _ _ _ K E) as (-> & _). }
  exists (mkFile true 384 data). split; [by rewrite F|]. split; [done|]. split; [done|].
  by apply parseRootKey_created.
Qed.

Lemma ReadOrCreateRootKey_holds s key s' :
  runs ReadOrCreateRootKey s key s' -> holdsRootKey key s'.
Proof.
  intros R. unfold ReadOrCreateRootKey in R.
  apply runs_bind in R as (r & s1 & E%runs_try & R).
  destruct r as [e|k].
  - destruct (negb (errors_Is e errNotExist)); [done|].
    apply runs_bind in R as (h & s2 & Rh & R).
    apply runs_result, randomHex_spec in Rh as (bs & B & N & ->).
    apply runs_bind in R as ([] & s3 & _ & R). apply runs_bind in R as (c & s4 & Ec%runs_try & R).
    destruct c as [e2|[]].
    + destruct (errors_Is e2 errExist); [|done]. by apply readRootKeyFile_holds in R.
    + apply runs_ret in R as [-> ->]. by apply (createRootKeyFile_holds bs s3).
  - apply runs_ret in R as [-> ->]. by apply (readRootKeyFile_holds s).
Qed.

Lemma read_back s key : (forall n, w_os s n = None) -> holdsRootKey key s ->
  exists s', readRootKeyFile s = (inr key, s').
Proof.
  intros O (f & F & Rg & P & K).
  assert (forall s', w_os s' = w_os s -> os s' = (inr tt, set_calls (S (w_calls s')) s')) as Os.
  { intros s' E. unfold os. by rewrite E, O. }
  unfold readRootKeyFile, os_Open, mbind, M_bind, bind, get. rewrite (Os s) by done.
  cbn -[stake parseRootKey]. rewrite F. cbn -[stake parseRootKey].
  rewrite Os by done. rewrite Rg, P. cbn -[stake parseRootKey]. rewrite Os by done.
  rewrite K. by eexists.
Qed.

(** The root key is stable.  When [ReadOrCreateRootKey] has returned a key,
    whether it read it or created it, the key has the "rk_" format with 32 bytes
    in hexadecimal, and from then on [ValidateRootKey], while no call fails,
    accepts exactly the candidates that are that key up to surrounding space. *)
Theorem root_key_stable s key s' :
  ReadOrCreateRootKey s = (inr key, s') ->
  (forall n, w_os s' n = None) ->
  rootKeyFormat key /\
  forall candidate, exists s'',
    ValidateRootKey candidate s' = (inr (TrimSpace candidate =s key), s'').
Proof.
  intros R O. pose proof (ReadOrCreateRootKey_holds s key s' R) as K.
  assert (rootKeyFormat key) as Fm by (destruct K as (f & _ & _ & _ & P);
    by eapply parseRootKey_format).
  split; [done|]. intros candidate. destruct (read_back s' key O K) as [s2 E].
  exists s2. unfold ValidateRootKey, ReadOrCreateRootKey, try, mbind, M_bind, bind.
  rewrite E. cbn -[TrimSpace]. rewrite (rootKey_trim _ Fm).
  destruct (Z.eqb_spec (slen (TrimSpace candidate)) (slen key)) as [_|N]; [done|].
  cbn -[TrimSpace]. unfold ret. f_equal. f_equal. symmetry. apply String.eqb_neq.
  intros E2. by rewrite E2 in N.
Qed.

Definition sample_key_created : Store := final ReadOrCreateRootKey sample_boot.

Lemma sample_key_created_runs :
  ReadOrCreateRootKey sample_boot = (inr sample_key, sample_key_created).
Proof. apply result_runs; [vm_compute; reflexivity|by unfold sample_key_created]. Qed.
Opaque sample_key_created.

Lemma root_key_stable_witness :
  rootKeyFormat sample_key /\
  forall candidate, exists s'',
    ValidateRootKey candidate sample_key_created =
      (inr (TrimSpace candidate =s sample_key), s'').
Proof.
  apply (root_key_stable sample_boot); [exact sample_key_created_runs|].
  intros n. vm_compute. reflexivity.
Defined.
