(* ===== verification/EnforceMatch.v ===== *)
(** internal/enforce/enforce.go: the pure tests that match a process against the
    scopes of authorizations, leases and bypass rules. *)

From S2P Require Export StoreBounds StringFacts.

From Stdlib Require Import Ascii.

(** * path.Clean *)

(** The components [path.Clean] keeps, innermost first: "." and empty ones are
    dropped, ".." removes the last, and is itself kept only in a relative path
    that has nothing left to remove. *)
Definition cleanStep (rooted : bool) (kept : list string) (component : string) : list string :=
  if (component =s "") || (component =s ".") then kept
  else if component =s ".." then
    match kept with
    | [] => if rooted then [] else [".."]
    | last :: rest => if last =s ".." then ".." :: kept else rest
    end
  else component :: kept.

Definition Clean (path : string) : string :=
  if path =s "" then "."
  else
    let rooted := HasPrefix path "/" in
    let kept := rev (foldl (cleanStep rooted) [] (Split path "/"%char)) in
    if rooted then "/" +:+ Join kept "/"
    else match kept with [] => "." | _ => Join kept "/" end.

(** * Cgroups *)

Definition normalizeCgroupPath (value : string) : string :=
  let value := TrimSpace value in
  if value =s "" then ""
  else Clean (if HasPrefix value "/" then value else "/" +:+ value).

Definition cgroupMount : string := "/sys/fs/cgroup".

Definition normalizeCgroupMountPath (value : string) : string :=
  let value := TrimSpace value in
  if value =s cgroupMount then "/"
  else normalizeCgroupPath
         (if HasPrefix value (cgroupMount +:+ "/") then TrimPrefix value cgroupMount else value).

(** The targets of [bareCgroupMatches]: the non-empty normalized paths. *)
Definition cgroupTargets (relative absolute : string) : list string :=
  filter (fun target => target <> "")
    [normalizeCgroupPath relative; normalizeCgroupMountPath absolute].

(** The path a line of /proc/<pid>/cgroup ends in. *)
Definition cgroupLinePath (line : string) : string :=
  let candidate := TrimSpace line in
  match SplitN candidate ":"%char 3 with
  | [_; _; p] => p
  | _ => candidate
  end.

Definition cgroupUnder (actual target : string) : bool :=
  (actual =s target) || HasPrefix actual (target +:+ "/") || (target =s "/").

Definition bareCgroupMatches (raw relative absolute : string) : bool :=
  let targets := cgroupTargets relative absolute in
  if llen targets =? 0 then false
  else existsb (fun line =>
         let actual := normalizeCgroupPath (cgroupLinePath line) in
         (actual <>s "") && existsb (cgroupUnder actual) targets)
         (Split raw (ascii_of_nat 10)).

(** * Containers *)

Definition sameContainer (a b : string) : bool :=
  let a := ToLower (TrimSpace a) in
  let b := ToLower (TrimSpace b) in
  if (a =s "") || (b =s "") then false
  else if a =s b then true
  else
    let '(shorter, longer) := if slen b <? slen a then (b, a) else (a, b) in
    (12 <=? slen shorter) && HasPrefix longer shorter.

(** * Wildcards *)

(** The loop over the parts after the first: each is found in what is left of
    the value, which continues after it. *)
Fixpoint matchParts (parts : list string) (rest : string) : bool :=
  match parts with
  | [] => true
  | part :: more =>
      if part =s "" then matchParts more rest
      else match Index rest part with
           | None => false
           | Some index => matchParts more (sdrop (index + String.length part) rest)
           end
  end.

Definition wildcardMatch (pattern value : string) : bool :=
  let pattern := TrimSpace pattern in
  let value := TrimSpace value in
  if pattern =s "" then false
  else if negb (Contains pattern "*") then pattern =s value
  else if pattern =s "*" then true
  else match Split pattern "*"%char with
       | [] => false
       | first :: parts =>
           if (first <>s "") && negb (HasPrefix value first) then false
           else if matchParts parts (sdrop (String.length first) value)
           then let last := List.last (first :: parts) "" in
                (last =s "") || HasSuffix value last
           else false
       end.

(** * Bypass rules *)

Definition bypassRuleMatches (rule : BypassRule) (info : ProcInfo) (now : time)
    (bootID : string) : bool :=
  if BypassRule_Revoked rule || negb (Before now (BypassRule_ExpiresAt rule)) then false
  else if BypassRule_Type rule =s BypassPID then
    (bootID <>s "") && (BypassRule_BootID rule =s bootID) &&
    (BypassRule_PID rule =? ProcInfo_PID info) &&
    negb (BypassRule_StartTime rule =? 0) &&
    (BypassRule_StartTime rule =? ProcInfo_StartTime info)
  else if BypassRule_Type rule =s BypassCommand then
    (BypassRule_UID rule =? 0) && (ProcInfo_UID info =? 0) &&
    (BypassRule_Command rule <>s "") && (BypassRule_Command rule =s ProcInfo_CommandPath info)
  else false.

Definition BypassMatch (rules : list BypassRule) (info : ProcInfo) (now : time)
    (bootID : string) : bool :=
  existsb (fun rule => bypassRuleMatches rule info now bootID) rules.

(** * Which rows are active on a GPU *)

Definition usesGPUResources (process : GPUProcess) : bool :=
  GPUProcess_MemBytesUnknown process || (0 <? GPUProcess_MemBytes process).

Definition normalizeTokenMode (mode : string) : string :=
  let mode := TrimSpace (ToLower mode) in
  if mode =s "" then TokenModeClaimed else mode.

Definition activeReservationsForGPU (reservations : list Reservation) (gpu : Z) (now : time)
    : list Reservation :=
  filter (fun r => (Reservation_GPU r =? gpu) && ReservationActiveAt r now = true) reservations.

Definition activeTokenByHash (tokens : list Token) (hash : string) (now : time)
    : option Token :=
  match find (fun token =>
          negb ((Token_Hash token <>s hash) || Token_Revoked token) &&
          negb (timeIsSet (Token_ExpiresAt token) && negb (Before now (Token_ExpiresAt token))))
        tokens with
  | Some token => Some (Token_set_Mode (normalizeTokenMode (Token_Mode token)) token)
  | None => None
  end.

Definition activeSoftClaimsForGPU (state : State) (gpu : Z) (now : time) : list SoftClaim :=
  filter (fun claim =>
    (SoftClaim_GPU claim =? gpu) &&
    match activeTokenByHash (State_Tokens state) (SoftClaim_TokenHash claim) now with
    | Some token =>
        (normalizeTokenMode (Token_Mode token) =s TokenModeClaimed) ||
        (normalizeTokenMode (Token_Mode token) =s TokenModeManaged)
    | None => false
    end = true) (State_SoftClaims state).

Definition activeLeasesForGPU (leases : list Lease) (gpu : Z) (now : time) : list Lease :=
  filter (fun l => (Lease_GPU l =? gpu) && Lease_Active l &&
                   Before now (Lease_ExpiresAt l) = true) leases.

(** * Names in messages *)

Definition holderPart (kind holder id : string) : string :=
  let holder := TrimSpace holder in
  let holder := if holder =s "" then "unknown" else holder in
  if id <>s "" then holder +:+ " (" +:+ kind +:+ "=" +:+ id +:+ ")" else holder.

Definition reservationHolder (reservations : list Reservation) : string :=
  match reservations with
  | [] => "unknown"
  | _ => Join (map (fun r => holderPart "reservation" (Reservation_Holder r) (Reservation_ID r))
                   reservations) ", "
  end.

Definition leaseHolder (leases : list Lease) : string :=
  match leases with
  | [] => "unknown"
  | _ => Join (map (fun l => holderPart "lease" (Lease_Holder l) (Lease_ID l)) leases) ", "
  end.

Definition firstReservationID (reservations : list Reservation) : string :=
  match reservations with [] => "" | r :: _ => Reservation_ID r end.

Definition firstLeaseID (leases : list Lease) : string :=
  match leases with [] => "" | l :: _ => Lease_ID l end.

Definition tokenHashForReservations (reservations : list Reservation) : string :=
  match reservations with [] => "" | r :: _ => Reservation_TokenHash r end.

(** The matching tests agree with what they are meant to decide: wildcards with
    glob patterns, cgroup paths with the tree of cgroups, container ids with
    prefixes of twelve characters. *)

From Stdlib Require Import Ascii.

(** * Concatenations *)

Lemma string_app_inv a b c d : a +:+ b = c +:+ d ->
  (String.length a <= String.length c)%nat -> exists x, c = a +:+ x /\ b = x +:+ d.
Proof.
  revert c. induction a as [|k a IH]; intros c E L; [by exists c|].
  destruct c as [|k' c]; [cbn in L; lia|].
  change (String k (a +:+ b) = String k' (c +:+ d)) in E. injection E as -> E.
  cbn in L. destruct (IH c E) as (x & -> & ->); [lia|]. by exists x.
Qed.

Lemma string_app_nil_r s : s +:+ EmptyString = s.
Proof. induction s as [|c s IH]; [done|]. change (String c (s +:+ EmptyString) = String c s). by rewrite IH. Qed.

Lemma slength_app a b : String.length (a +:+ b) = (String.length a + String.length b)%nat.
Proof. pose proof (slen_app a b). unfold slen in *. lia. Qed.

Lemma HasPrefix_iff s p : HasPrefix s p = true <-> exists r, s = p +:+ r.
Proof.
  split; [|intros [r ->]; apply HasPrefix_app].
  unfold HasPrefix. revert s. induction p as [|c p IH]; intros s E; [by exists s|].
  destruct s as [|d s]; cbn in E; [done|]. destruct (Ascii.ascii_dec c d) as [->|]; [|done].
  destruct (IH s E) as [r ->]. by exists r.
Qed.

Lemma sdrop_length_app a b n : n = String.length a -> sdrop n (a +:+ b) = b.
Proof. intros ->. apply sdrop_app. Qed.

Lemma HasSuffix_iff s t : HasSuffix s t = true <-> exists r, s = r +:+ t.
Proof.
  unfold HasSuffix. rewrite andb_true_iff, Nat.leb_le, String.eqb_eq. split.
  - intros [L E]. exists (stake (String.length s - String.length t) s). rewrite <- E at 2.
    generalize (String.length s - String.length t)%nat as n. clear.
    induction s as [|c s IH]; intros [|n]; [done..|]. cbn [stake sdrop].
    change (String c s = String c (stake n s +:+ sdrop n s)). by rewrite <- IH.
  - intros [r ->]. rewrite slength_app. split; [lia|].
    apply sdrop_length_app. lia.
Qed.

(** * [strings.Index] finds the leftmost occurrence *)

Lemma Index_spec s sub :
  match Index s sub with
  | Some i => exists a b, s = a +:+ (sub +:+ b) /\ i = String.length a /\
      forall a' b', s = a' +:+ (sub +:+ b') -> (i <= String.length a')%nat
  | None => forall a b, s <> a +:+ (sub +:+ b)
  end.
Proof.
  induction s as [|c s IH]; cbn [Index].
  - destruct (String.prefix sub EmptyString) eqn:P.
    + apply (HasPrefix_iff EmptyString sub) in P as [r E]. exists EmptyString, r.
      split; [done|]. split; [done|]. intros; cbn; lia.
    + intros a b E. destruct a; [|done].
      change (EmptyString = sub +:+ b) in E. assert (HasPrefix EmptyString sub = true) as X; [|].
      { apply HasPrefix_iff. by exists b. } unfold HasPrefix in X. congruence.
  - destruct (String.prefix sub (String c s)) eqn:P.
    + apply (HasPrefix_iff (String c s) sub) in P as [r E]. exists EmptyString, r.
      split; [done|]. split; [done|]. intros; cbn; lia.
    + assert (forall a' b', String c s = a' +:+ (sub +:+ b') -> exists a'', a' = String c a'' /\
        s = a'' +:+ (sub +:+ b')) as Step.
      { intros a' b' E. destruct a' as [|d a'].
        - change (String c s = sub +:+ b') in E.
          assert (HasPrefix (String c s) sub = true) as X by (apply HasPrefix_iff; by exists b').
          unfold HasPrefix in X. congruence.
        - change (String c s = String d (a' +:+ (sub +:+ b'))) in E. injection E as -> E.
          by exists a'. }
      destruct (Index s sub) as [i|]; cbn.
      * destruct IH as (a & b & -> & -> & Lm). exists (String c a), b. split; [done|].
        split; [done|]. intros a' b' E. destruct (Step a' b' E) as (a'' & -> & E').
        specialize (Lm a'' b' E'). cbn. lia.
      * intros a b E. destruct (Step a b E) as (a'' & _ & E'). by apply (IH a'' b).
Qed.

Lemma Contains_iff s sub : Contains s sub = true <-> exists a b, s = a +:+ (sub +:+ b).
Proof.
  unfold Contains. pose proof (Index_spec s sub) as I. destruct (Index s sub).
  - destruct I as (a & b & E & _). split; [by exists a, b|done].
  - split; [done|]. intros (a & b & E). by destruct (I a b).
Qed.

Lemma Contains_TrimSpace s sub : Contains (TrimSpace s) sub = true -> Contains s sub = true.
Proof.
  rewrite !Contains_iff. intros (a & b & E). destruct (TrimSpace_inside s) as (p & q & F).
  exists (p +:+ a), (b +:+ q). rewrite F at 1. by rewrite E, !string_app_assoc.
Qed.

(** * Wildcards *)

(** The strings a glob pattern stands for, by the parts between its stars: the
    parts in order, anything in the place of a star. *)
Fixpoint globs (parts : list string) (s : string) : Prop :=
  match parts with
  | [] => False
  | part :: rest =>
      match rest with
      | [] => s = part
      | _ => exists mid t, s = part +:+ (mid +:+ t) /\ globs rest t
      end
  end.

(** The same behind a star. *)
Definition globsAfter (parts : list string) (rest : string) : Prop :=
  exists mid t, rest = mid +:+ t /\ globs parts t.

Lemma matchParts_last parts rest :
  parts <> [] -> matchParts parts rest = true ->
  (String.length (List.last parts "") <= String.length rest)%nat.
Proof.
  revert rest. induction parts as [|p parts IH]; intros rest N M; [done|]. cbn in M.
  destruct parts as [|q parts].
  - cbn. destruct (String.eqb_spec p "") as [->|NE]; [cbn; lia|].
    pose proof (Index_spec rest p) as I. destruct (Index rest p); [|done].
    destruct I as (a & b & -> & _). rewrite !slength_app. lia.
  - change (List.last (p :: q :: parts) "") with (List.last (q :: parts) "").
    destruct (String.eqb_spec p "") as [->|NE]; [by apply IH|].
    pose proof (Index_spec rest p) as I. destruct (Index rest p) as [i|]; [|done].
    destruct I as (a & b & -> & -> & _).
    rewrite <- string_app_assoc in M. rewrite sdrop_length_app in M by (by rewrite slength_app).
    specialize (IH b ltac:(done) M). rewrite !slength_app. lia.
Qed.

Lemma suffix_of_tail a b t : (String.length t <= String.length b)%nat ->
  HasSuffix (a +:+ b) t = HasSuffix b t.
Proof.
  intros L. apply eq_iff_eq_true. rewrite !HasSuffix_iff. split.
  - intros [r E]. destruct (string_app_inv a b r t E) as (x & -> & ->); [|by exists x].
    apply (f_equal String.length) in E. rewrite !slength_app in E. lia.
  - intros [r ->]. exists (a +:+ r). by rewrite string_app_assoc.
Qed.

Lemma matchParts_globs parts rest : parts <> [] ->
  (matchParts parts rest = true /\
   (List.last parts "" = "" \/ HasSuffix rest (List.last parts "") = true)) <->
  globsAfter parts rest.
Proof.
  revert rest. induction parts as [|p parts IH]; intros rest N; [done|]. clear N.
  cbn [matchParts]. destruct parts as [|q parts].
  - cbn [matchParts List.last]. unfold globsAfter. cbn [globs]. split.
    + intros [M [->|S]]; [exists rest, EmptyString; by rewrite string_app_nil_r|].
      apply HasSuffix_iff in S as [r ->]. by exists r, p.
    + intros (mid & t & -> & ->). split; [|right; apply HasSuffix_iff; by exists mid].
      destruct (String.eqb_spec p ""); [done|].
      pose proof (Index_spec (mid +:+ p) p) as I. destruct (Index (mid +:+ p) p); [done|].
      destruct (I mid EmptyString). by rewrite string_app_nil_r.
  - change (List.last (p :: q :: parts) "") with (List.last (q :: parts) "").
    destruct (String.eqb_spec p "") as [->|NE].
    + rewrite IH by done. unfold globsAfter. split.
      * intros (mid & t & -> & G). exists EmptyString, (mid +:+ t). split; [done|].
        exists mid, t. split; [done|exact G].
      * intros (mid & t & -> & mid' & t' & -> & G). exists (mid +:+ mid'), t'.
        split; [|exact G]. by rewrite string_app_assoc.
    + pose proof (Index_spec rest p) as I. destruct (Index rest p) as [i|].
      * destruct I as (a & b & -> & -> & Lm).
        assert (sdrop (String.length a + String.length p) (a +:+ (p +:+ b)) = b) as ->.
        { rewrite <- string_app_assoc. apply sdrop_length_app. by rewrite slength_app. }
        transitivity (globsAfter (q :: parts) b).
        -- rewrite <- IH by done. split; intros [M S]; (split; [done|]);
             (destruct S as [S|S]; [by left|right]);
             pose proof (matchParts_last (q :: parts) b ltac:(done) M) as L.
           ++ by rewrite <- string_app_assoc, suffix_of_tail in S.
           ++ by rewrite <- string_app_assoc, suffix_of_tail.
        -- unfold globsAfter. split.
           ++ intros (mid & t & -> & G). exists a, (p +:+ (mid +:+ t)). split; [done|].
              exists mid, t. split; [done|exact G].
           ++ intros (mid & t & E & mid' & t' & -> & G).
              specialize (Lm mid (mid' +:+ t') E).
              destruct (string_app_inv a _ mid _ E Lm) as (x & -> & E2).
              rewrite string_app_assoc in E. 
              assert (String.length p <= String.length (x +:+ p))%nat as L2
                by (rewrite slength_app; lia).
              rewrite <- string_app_assoc in E2.
              destruct (string_app_inv p b (x +:+ p) _ E2 L2) as (y & _ & ->).
              exists (y +:+ mid'), t'. split; [by rewrite string_app_assoc|exact G].
      * split; [by intros [? _]|]. intros (mid & t & -> & mid' & t' & -> & _).
        by destruct (I mid (mid' +:+ t')).
Qed.

(** * Splitting *)

Lemma Split_cases s sep :
  (Split s sep = [s] /\ forall a b, s <> a +:+ String sep b) \/
  (exists p q ps a b, Split s sep = p :: q :: ps /\ s = a +:+ String sep b).
Proof.
  induction s as [|c s IH]; cbn [Split].
  - left. split; [done|]. intros [|? ?] b; done.
  - destruct (Ascii.eqb_spec c sep) as [->|N].
    + right. destruct IH as [[-> _]|(p & q & ps & a & b & -> & _)].
      * by exists EmptyString, s, [], EmptyString, s.
      * by exists EmptyString, p, (q :: ps), EmptyString, s.
    + destruct IH as [[-> F]|(p & q & ps & a & b & -> & ->)].
      * left. split; [done|]. intros [|d a] b E.
        -- change (String c s = String sep b) in E. by injection E as -> _.
        -- change (String c s = String d (a +:+ String sep b)) in E. injection E as -> E.
           by apply (F a b).
      * right. by exists (String c p), q, ps, (String c a), b.
Qed.

Lemma Contains_char s sep :
  Contains s (String sep EmptyString) = true <-> exists a b, s = a +:+ String sep b.
Proof.
  unfold Contains. pose proof (Index_spec s (String sep EmptyString)) as I.
  destruct (Index s _); split; try done.
  - intros _. destruct I as (a & b & -> & _). by exists a, b.
  - intros (a & b & ->). by destruct (I a b).
Qed.

(** C5. Wildcards are globs.  A non-blank pattern of an authorization (its
    container, namespace or user name) matches a value exactly when the value
    can be read as the pattern's literal parts, in order and not overlapping,
    with anything in the place of each star; without a star the two are equal. *)
Theorem wildcard_is_glob pattern value :
  TrimSpace pattern <> "" ->
  wildcardMatch pattern value = true <->
  globs (Split (TrimSpace pattern) "*"%char) (TrimSpace value).
Proof.
  intros NE. unfold wildcardMatch. set (p := TrimSpace pattern) in *.
  set (v := TrimSpace value). apply String.eqb_neq in NE. rewrite NE.
  destruct (Split_cases p "*"%char) as [[-> F]|(f & q & ps & a & b & S & E)].
  - assert (Contains p "*" = false) as ->.
    { apply not_true_is_false. intros (a & b & E)%Contains_char. by apply (F a b). }
    cbn. rewrite String.eqb_eq. by split.
  - assert (Contains p "*" = true) as -> by (apply Contains_char; by exists a, b).
    cbn [negb]. destruct (String.eqb_spec p "*") as [->|NS].
    + split; [|done]. intros _. cbn. exists v, EmptyString. split; [|done].
      change (v = v +:+ EmptyString). by rewrite string_app_nil_r.
    + rewrite S. change (List.last (f :: q :: ps) "") with (List.last (q :: ps) "").
      transitivity (exists r, v = f +:+ r /\ globsAfter (q :: ps) r).
      * destruct ((f <>s "") && negb (HasPrefix v f)) eqn:P.
        { split; [done|]. intros (r & Ev & _). rewrite Ev, HasPrefix_app in P.
          by rewrite andb_false_r in P. }
        assert (exists r, v = f +:+ r) as [r Ev].
        { apply andb_false_iff in P as [P%negb_false_iff%String.eqb_eq|P%negb_false_iff].
          - exists v. by rewrite P.
          - by apply HasPrefix_iff. }
        rewrite Ev, sdrop_app.
        transitivity (globsAfter (q :: ps) r).
        -- rewrite <- matchParts_globs by done. destruct (matchParts (q :: ps) r) eqn:M;
             [|by split; [|intros [? _]]].
           rewrite suffix_of_tail by (by apply matchParts_last).
           rewrite orb_true_iff, String.eqb_eq. tauto.
        -- split; [by exists r|]. intros (r' & E' & G).
           destruct (string_app_inv f r f r' E') as (x & Ex & ->); [done|].
           assert (x = EmptyString) as ->; [|done].
           apply (f_equal String.length) in Ex. rewrite slength_app in Ex.
           destruct x; [done|cbn in Ex; lia].
      * unfold globsAfter. split.
        -- intros (r & -> & mid & t & -> & G). by exists mid, t.
        -- intros (mid & t & -> & G). exists (mid +:+ t). split; [done|]. by exists mid, t.
Qed.

Lemma wildcard_is_glob_witness :
  wildcardMatch " train-*-gpu " "train-7-gpu" = true /\
  globs (Split (TrimSpace " train-*-gpu ") "*"%char) (TrimSpace "train-7-gpu").
Proof.
  split; [vm_compute; reflexivity|].
  apply (wildcard_is_glob " train-*-gpu " "train-7-gpu"); vm_compute; [discriminate|reflexivity].
Defined.

(** * Cgroups *)

(** A path component: not empty and without a slash. *)
Definition component (c : string) : Prop := c <> "" /\ forall a b, c <> a +:+ String "/"%char b.

Lemma Split_no_sep s sep : Forall (fun p => forall a b, p <> a +:+ String sep b) (Split s sep).
Proof.
  induction s as [|c s IH]; cbn [Split].
  - constructor; [|constructor]. by intros [|? ?] b.
  - destruct (Ascii.eqb_spec c sep) as [->|N].
    + constructor; [|done]. by intros [|? ?] b.
    + assert (forall p, (forall a b, p <> a +:+ String sep b) ->
        forall a b, String c p <> a +:+ String sep b) as G.
      { intros p F [|d a] b E; [by injection E|].
        change (String c p = String d (a +:+ String sep b)) in E. injection E as -> E.
        by apply (F a b). }
      destruct (Split s sep) as [|p ps].
      * constructor; [|constructor]. apply G. by intros [|? ?] b.
      * inversion_clear IH. constructor; [by apply G|done].
Qed.

(** The cgroup a path names, as the components below the root. *)
Definition cgroupOf (path : string) : list string :=
  let path := TrimSpace path in
  let path := if HasPrefix path "/" then path else "/" +:+ path in
  rev (foldl (cleanStep true) [] (Split path "/"%char)).

Lemma cleaned_components parts kept :
  Forall (fun p => forall a b, p <> a +:+ String "/"%char b) parts ->
  Forall component kept -> Forall component (foldl (cleanStep true) kept parts).
Proof.
  revert kept. induction parts as [|p parts IH]; intros kept F K; [done|]. cbn.
  inversion_clear F as [|? ? Fp Fps]. apply IH; [done|]. unfold cleanStep.
  destruct (String.eqb_spec p "") as [|NE]; cbn; [done|].
  destruct (p =s "."); cbn; [done|]. destruct (p =s "..").
  - destruct kept as [|l kept]; [done|]. inversion_clear K as [|? ? Kl Kk].
    destruct (String.eqb_spec l "..") as [->|_]; [|done].
    constructor; [|by constructor]. split; [done|]. intros [|? [|? [|? ?]]] b; done.
  - constructor; [|done]. by split.
Qed.

Lemma cgroupOf_components path : Forall component (cgroupOf path).
Proof.
  unfold cgroupOf. apply Forall_rev, cleaned_components; [apply Split_no_sep|constructor].
Qed.

(** A cgroup written as a path. *)
Definition absolutePath (l : list string) : string := "/" +:+ Join l "/".

Lemma normalizeCgroupPath_spec value : TrimSpace value <> "" ->
  normalizeCgroupPath value = absolutePath (cgroupOf value).
Proof.
  intros NE. unfold normalizeCgroupPath, cgroupOf, absolutePath.
  apply String.eqb_neq in NE. rewrite NE. set (v := TrimSpace value) in *.
  set (p := if HasPrefix v "/" then v else "/" +:+ v).
  assert (HasPrefix p "/" = true) as P by (unfold p; destruct (HasPrefix v "/") eqn:E;
    [done|apply HasPrefix_app]).
  unfold Clean. rewrite P. assert ((p =s "") = false) as ->; [|done].
  apply String.eqb_neq. intros E. by rewrite E in P.
Qed.

(** Every component behind its own slash. *)
Fixpoint slashed (l : list string) : string :=
  match l with [] => EmptyString | c :: l => String "/"%char (c +:+ slashed l) end.

Lemma absolutePath_slashed l : l <> [] -> absolutePath l = slashed l.
Proof.
  unfold absolutePath. induction l as [|c l IH]; intros N; [done|]. destruct l as [|d l].
  - cbn [Join slashed]. by rewrite string_app_nil_r.
  - specialize (IH ltac:(done)). change (Join (c :: d :: l) "/") with (c +:+ ("/" +:+ Join (d :: l) "/")).
    by rewrite IH.
Qed.

(** What may follow a component: nothing, or a slash. *)
Definition boundary (s : string) : Prop := s = EmptyString \/ exists r, s = String "/"%char r.

Lemma component_split c d s t : component c -> component d -> boundary s -> boundary t ->
  c +:+ s = d +:+ t -> c = d /\ s = t.
Proof.
  intros [_ Hc] [_ Hd]. revert d Hd. induction c as [|k c IH]; intros d Hd Bs Bt E.
  - destruct d as [|k' d]; [done|]. change (s = String k' (d +:+ t)) in E. subst.
    destruct Bs as [|[r Er]]; [done|]. injection Er as -> _. by destruct (Hd EmptyString d).
  - destruct d as [|k' d].
    + change (String k (c +:+ s) = t) in E. subst.
      destruct Bt as [|[r Er]]; [done|]. injection Er as -> _. by destruct (Hc EmptyString c).
    + change (String k (c +:+ s) = String k' (d +:+ t)) in E. injection E as -> E.
      destruct (IH) with (d := d) as [-> ->]; try done.
      * intros a b F. apply (Hc (String k' a) b). by rewrite F.
      * intros a b F. apply (Hd (String k' a) b). by rewrite F.
Qed.

Lemma slashed_boundary l : boundary (slashed l).
Proof. destruct l; [by left|right; by eexists]. Qed.

Lemma slashed_prefix xs ys r : Forall component xs -> Forall component ys -> boundary r ->
  slashed ys = slashed xs +:+ r -> exists zs, ys = xs ++ zs.
Proof.
  revert ys. induction xs as [|x xs IH]; intros ys Fx Fy Br E; [by exists ys|].
  destruct ys as [|y ys]; [done|].
  change (String "/" (y +:+ slashed ys) = String "/" ((x +:+ slashed xs) +:+ r)) in E.
  injection E as E. rewrite string_app_assoc in E.
  inversion_clear Fx as [|? ? Cx Fx']. inversion_clear Fy as [|? ? Cy Fy'].
  assert (boundary (slashed xs +:+ r)) as B2.
  { destruct xs; [done|]. right. by eexists. }
  destruct (component_split y x _ _ Cy Cx (slashed_boundary ys) B2 E) as [-> E'].
  destruct (IH ys Fx' Fy' Br E') as [zs ->]. by exists zs.
Qed.

Lemma slashed_app xs ys : slashed (xs ++ ys) = slashed xs +:+ slashed ys.
Proof.
  induction xs as [|x xs IH]; [done|].
  change (String "/" (x +:+ slashed (xs ++ ys)) = String "/" ((x +:+ slashed xs) +:+ slashed ys)).
  by rewrite IH, string_app_assoc.
Qed.

(** The comparison of two clean paths compares components. *)
Lemma cgroupUnder_prefix xs ys : Forall component xs -> Forall component ys ->
  cgroupUnder (absolutePath ys) (absolutePath xs) = true <-> xs `prefix_of` ys.
Proof.
  intros Fx Fy. unfold cgroupUnder. rewrite !orb_true_iff, !String.eqb_eq, HasPrefix_iff.
  destruct xs as [|x xs].
  { split; [intros _; by apply prefix_nil|]. intros _. by right. }
  rewrite (absolutePath_slashed (x :: xs)) by done.
  assert (slashed (x :: xs) <> "/") as N.
  { inversion_clear Fx as [|? ? [C _] _]. intros E. injection E as E. by destruct x. }
  destruct ys as [|y ys].
  { split; [|by intros [zs E]]. intros [[E|[r E]]|E]; [by destruct N| |done].
    inversion_clear Fx as [|? ? [C _] _]. destruct x; [done|]. injection E. done. }
  rewrite (absolutePath_slashed (y :: ys)) by done. split.
  - intros [[E|[r E]]|E]; [| |done].
    + apply (slashed_prefix (x :: xs) (y :: ys) EmptyString); try done; [by left|].
      by rewrite string_app_nil_r.
    + apply (slashed_prefix (x :: xs) (y :: ys) (String "/" r)); try done.
      * right. by eexists.
      * rewrite E. by rewrite string_app_assoc.
  - intros [zs ->]. left. rewrite slashed_app. destruct zs as [|z zs].
    + left. by rewrite string_app_nil_r.
    + right. exists (z +:+ slashed zs). by rewrite string_app_assoc.
Qed.

(** The path below the cgroup mount point. *)
Definition unmounted (value : string) : string :=
  let value := TrimSpace value in
  if value =s cgroupMount then "/"
  else if HasPrefix value (cgroupMount +:+ "/") then TrimPrefix value cgroupMount else value.

Lemma normalizeCgroupMountPath_spec value :
  normalizeCgroupMountPath value = normalizeCgroupPath (unmounted value).
Proof. unfold normalizeCgroupMountPath, unmounted. by destruct (_ =s cgroupMount). Qed.

Lemma normalized_empty value : normalizeCgroupPath value = "" <-> TrimSpace value = "".
Proof.
  split.
  - intros E. destruct (String.eqb_spec (TrimSpace value) "") as [|N]; [done|].
    by rewrite (normalizeCgroupPath_spec _ N) in E.
  - intros E. unfold normalizeCgroupPath. by rewrite E.
Qed.

(** A bare scope is a subtree of cgroups.  A process matches the cgroup of a
    bare authorization or lease exactly when some line of its cgroup file names
    that cgroup or one below it, component by component: a sibling whose name
    merely starts the same way, or a path that climbs out with "..", does not
    match. *)
Theorem bare_scope_is_subtree raw relative absolute :
  bareCgroupMatches raw relative absolute = true <->
  exists line target,
    line ∈ Split raw (Ascii.ascii_of_nat 10) /\
    target ∈ [relative; unmounted absolute] /\
    TrimSpace target <> "" /\ TrimSpace (cgroupLinePath line) <> "" /\
    cgroupOf target `prefix_of` cgroupOf (cgroupLinePath line).
Proof.
  unfold bareCgroupMatches.
  assert (forall t, t ∈ cgroupTargets relative absolute <->
    exists v, v ∈ [relative; unmounted absolute] /\ TrimSpace v <> "" /\
      t = absolutePath (cgroupOf v)) as T.
  { intros t. unfold cgroupTargets. rewrite list_elem_of_filter, normalizeCgroupMountPath_spec.
    split.
    - intros [N I]. assert (exists v, v ∈ [relative; unmounted absolute] /\
        t = normalizeCgroupPath v) as (v & Iv & ->).
      { apply elem_of_cons in I as [->|I]; [exists relative; split; [by left|done]|].
        apply list_elem_of_singleton in I as ->. exists (unmounted absolute).
        split; [by right; left|done]. }
      exists v. rewrite normalized_empty in N. split; [done|]. split; [done|].
      by apply normalizeCgroupPath_spec.
    - intros (v & Iv & N & ->). split; [done|]. rewrite <- normalizeCgroupPath_spec by done.
      apply elem_of_cons in Iv as [->|Iv]; [by left|].
      apply list_elem_of_singleton in Iv as ->. by right; left. }
  transitivity (exists line t, line ∈ Split raw (Ascii.ascii_of_nat 10) /\
    t ∈ cgroupTargets relative absolute /\
    normalizeCgroupPath (cgroupLinePath line) <> "" /\
    cgroupUnder (normalizeCgroupPath (cgroupLinePath line)) t = true).
  - destruct (Z.eqb_spec (llen (cgroupTargets relative absolute)) 0) as [E|NZ].
    { destruct (cgroupTargets relative absolute); [|done]. split; [done|].
      intros (line & t & _ & I & _). by apply elem_of_nil in I. }
    rewrite existsb_exists. split.
    + intros (line & I & [N (t & It & U)%existsb_exists]%andb_true_iff).
      exists line, t. apply list_elem_of_In in I, It.
      apply negb_true_iff, String.eqb_neq in N. done.
    + intros (line & t & I & It & N & U). exists line. split; [by apply list_elem_of_In|].
      apply andb_true_iff. split; [by apply negb_true_iff, String.eqb_neq|].
      apply existsb_exists. exists t. split; [by apply list_elem_of_In|done].
  - split.
    + intros (line & t & I & (v & Iv & Nv & ->)%T & N & U). exists line, v.
      rewrite normalized_empty in N. rewrite (normalizeCgroupPath_spec _ N) in U.
      apply cgroupUnder_prefix in U; [done|apply cgroupOf_components..].
    + intros (line & v & I & Iv & Nv & N & P).
      exists line, (absolutePath (cgroupOf v)). split; [done|]. split; [apply T; by exists v|].
      split; [by rewrite normalized_empty|]. rewrite (normalizeCgroupPath_spec _ N).
      apply cgroupUnder_prefix; [apply cgroupOf_components..|done].
Qed.
