(* ===== verification/Enforce.v ===== *)
(** internal/enforce/enforce.go: one enforcement pass.  It samples the processes
    on each GPU, decides which are allowed, and plans the kills that are then
    executed. *)

From S2P Require Export EnforceMatch.

(** * What a pass talks to

    The context, /proc, the container runtime, the user database and the killer
    are outside the model: each answer may depend on how many questions were
    asked before it ([tick]), so that processes may come and go, lookups may
    fail and a context may be cancelled at any point of a pass. *)

Record ProcReader : Type := mkProcReader
  { proc_Exists : nat -> Z -> bool; proc_Info : nat -> Z -> error + ProcInfo }.

Record Resolver : Type := mkResolver
  { DockerContainerName : nat -> string -> error + string;
    NamespaceForContainer : nat -> string -> error + string }.

(** [runtime.ErrNotFound]. *)
Definition errRuntimeNotFound : string := "runtime object not found".

(** [Authorizer].  A nil interface or function is [None].  [now] is the one
    reading of the clock a pass takes, [planning] says that [pendingKills] is
    not nil, and [activeTokens] is the index that [Enforce] builds. *)
Record Authorizer : Type := mkAuthorizer
  { ctx_Err : nat -> option error;
    a_Proc : option ProcReader;
    a_Runtime : option Resolver;
    a_Killer : option (nat -> ProcInfo -> string -> option error);
    a_ValidateKill : option (nat -> GPUProcess -> option error);
    a_UsernameLookup : nat -> Z -> error + string;
    a_BootID : string;
    a_now : time;
    a_DryRun : bool;
    a_planning : bool;
    a_activeTokens : option (gmap string Token) }.

Inductive Action : Type := Allow | Kill | Skip | Claim | ReleaseClaim | Busy.

Record Decision : Type := mkDecision
  { d_Process : GPUProcess; d_Info : ProcInfo; d_Action : Action; d_Reason : string;
    d_LeaseID : string; d_AuthID : string; d_ClaimID : string; d_Holder : string;
    d_TokenHash : string; d_Claim : SoftClaim }.

Record processView : Type := mkView
  { v_Process : GPUProcess; v_Info : ProcInfo; v_Bypassed : bool }.

Record pendingKill : Type := mkPendingKill
  { k_view : processView; k_reason : string; k_leaseID : string; k_authID : string;
    k_holder : string; k_tokenHash : string; k_now : time }.

Definition maxKillsPerEnforcementPass : Z := 8.

(** The variables of a pass: the decisions so far, the pids already targeted,
    the kills planned, the audit events sent to [OnAudit], and the calls of the
    killer. *)
Record Pass : Type := mkPass
  { p_tick : nat; p_decisions : list Decision; p_targeted : gmap Z bool;
    p_pending : list pendingKill; p_audit : list AuditEvent; p_killed : list ProcInfo }.

Definition newPass : Pass := mkPass 0 [] ∅ [] [] [].

Definition decide_ (d : Decision) : M Pass unit := modify (fun p =>
  mkPass (p_tick p) (p_decisions p ++ [d]) (p_targeted p) (p_pending p) (p_audit p) (p_killed p)).
Definition target (pid : Z) : M Pass unit := modify (fun p =>
  mkPass (p_tick p) (p_decisions p) (<[pid := true]> (p_targeted p)) (p_pending p) (p_audit p)
    (p_killed p)).
Definition plan (k : pendingKill) : M Pass unit := modify (fun p =>
  mkPass (p_tick p) (p_decisions p) (p_targeted p) (p_pending p ++ [k]) (p_audit p) (p_killed p)).
Definition audit (e : AuditEvent) : M Pass unit := modify (fun p =>
  mkPass (p_tick p) (p_decisions p) (p_targeted p) (p_pending p) (p_audit p ++ [e]) (p_killed p)).
Definition killed (info : ProcInfo) : M Pass unit := modify (fun p =>
  mkPass (p_tick p) (p_decisions p) (p_targeted p) (p_pending p) (p_audit p)
    (p_killed p ++ [info])).
(** The number of questions asked so far, which this one adds to. *)
Definition tick : M Pass nat := fun p =>
  (inr (p_tick p), mkPass (S (p_tick p)) (p_decisions p) (p_targeted p) (p_pending p) (p_audit p)
                     (p_killed p)).

Definition decision (action : Action) (reason : string) (view : processView) : Decision :=
  mkDecision (v_Process view) (v_Info view) action reason "" "" "" "" "" SoftClaim_zero.

(** A call whose error is returned as a value, the rest of the caller going on. *)
Definition collect (m : M Pass unit) : M Pass (list error) :=
  r ← try m; ret (match r with inl e => [e] | inr _ => [] end).

(** [errors.Join] of the errors collected, as a method's final return. *)
Definition joined (errs : list error) : M Pass unit := check (errors_Join errs).

Section authorizer.
Context (a : Authorizer).

(** [if err := ctx.Err(); err != nil { return errors.Join(append(errs, err)...) }]. *)
Definition checkContext (errs : list error) : M Pass unit :=
  n ← tick;
  match ctx_Err a n with
  | Some err => check (errors_Join (errs ++ [err]))
  | None => ret tt
  end.

(** [if err := ctx.Err(); err != nil { return err }]. *)
Definition checkDone : M Pass unit := n ← tick; check (ctx_Err a n).

(** * Scopes *)

(** The name a lookup found; a container that does not exist matches nothing. *)
Definition resolved (format id : string) (answer : error + string) (test : string -> bool)
    : M Pass bool :=
  match answer with
  | inl err =>
      if errors_Is err errRuntimeNotFound then ret false
      else throw (Errorf format [AStr id; AErr err])
  | inr name => ret (test name)
  end.

Definition authorizationScopeMatchesForEviction (authorization : Authorization) (info : ProcInfo)
    : M Pass bool :=
  let id := Authorization_ID authorization in
  let mode := Authorization_Mode authorization in
  if mode =s ModeBare then
    ret (bareCgroupMatches (ProcInfo_Cgroup info) (Authorization_CgroupRel authorization)
           (Authorization_CgroupPath authorization))
  else if mode =s ModeDocker then
    if Authorization_ContainerPattern authorization <>s "" then
      if ProcInfo_ContainerID info =s "" then ret false
      else match a_Runtime a with
      | None => throw (Errorf
          "resolve docker scope for authorization %s: runtime resolver is unavailable" [AStr id])
      | Some r =>
          n ← tick;
          resolved "resolve docker scope for authorization %s: %w" id
            (DockerContainerName r n (ProcInfo_ContainerID info))
            (wildcardMatch (Authorization_ContainerPattern authorization))
      end
    else ret (sameContainer (ProcInfo_ContainerID info) (Authorization_ContainerID authorization))
  else if mode =s ModeK8s then
    if ProcInfo_ContainerID info =s "" then ret false
    else match a_Runtime a with
    | None => throw (Errorf
        "resolve k8s scope for authorization %s: runtime resolver is unavailable" [AStr id])
    | Some r =>
        n ← tick;
        resolved "resolve k8s scope for authorization %s: %w" id
          (NamespaceForContainer r n (ProcInfo_ContainerID info))
          (wildcardMatch (Authorization_Namespace authorization))
    end
  else if mode =s ModeUser then
    fail_if (ProcInfo_UID info <? 0)
      (Errorf "resolve user scope for authorization %s: process uid is unavailable" [AStr id]) ;;
    if 0 <=? Authorization_UID authorization
    then ret (ProcInfo_UID info =? Authorization_UID authorization)
    else
      username ← (if ProcInfo_Username info =s "" then
                    n ← tick;
                    match a_UsernameLookup a n (ProcInfo_UID info) with
                    | inl err => throw (Errorf "resolve user scope for authorization %s: %w"
                                               [AStr id; AErr err])
                    | inr username => ret username
                    end
                  else ret (ProcInfo_Username info));
      ret ((Authorization_Username authorization <>s "") &&
           wildcardMatch (Authorization_Username authorization) username)
  else ret false.

Definition authorizationMatchesChecked (authorization : Authorization) (info : ProcInfo)
    : M Pass bool :=
  if negb (Authorization_Active authorization) || Authorization_Revoked authorization ||
     authorizationExpired authorization (a_now a)
  then ret false
  else authorizationScopeMatchesForEviction authorization info.

Definition leaseScopeMatchesForEviction (lease : Lease) (info : ProcInfo) : M Pass bool :=
  let mode := Lease_Mode lease in
  if mode =s ModeBare then
    ret (bareCgroupMatches (ProcInfo_Cgroup info) (Lease_CgroupRel lease)
           (Lease_CgroupPath lease))
  else if mode =s ModeDocker then
    ret (sameContainer (ProcInfo_ContainerID info) (Lease_ContainerID lease))
  else if mode =s ModeK8s then
    if ProcInfo_ContainerID info =s "" then ret false
    else match a_Runtime a with
    | None => throw (Errorf "resolve k8s scope for lease %s: runtime resolver is unavailable"
                            [AStr (Lease_ID lease)])
    | Some r =>
        n ← tick;
        resolved "resolve k8s scope for lease %s: %w" (Lease_ID lease)
          (NamespaceForContainer r n (ProcInfo_ContainerID info))
          (fun ns => ns =s Lease_Namespace lease)
    end
  else ret false.

Definition leaseMatchesChecked (lease : Lease) (info : ProcInfo) : M Pass bool :=
  if negb (Lease_Active lease) || negb (Before (a_now a) (Lease_ExpiresAt lease)) then ret false
  else leaseScopeMatchesForEviction lease info.

(** * Finding an entitlement *)

(** The token an authorization needs: from the index of a pass, or the first
    live token row. *)
Definition tokenFor (state : State) (hash : string) : option Token :=
  match a_activeTokens a with
  | Some index => index !! hash
  | None => activeTokenByHash (State_Tokens state) hash (a_now a)
  end.

(** The row tests of [matchAnyAuthorization] before the scope is resolved: the
    authorization with its token's mode, when it may be considered. *)
Definition eligible (state : State) (tokenFilter : option (gmap string bool))
    (tokenMode : string) (authorization : Authorization) : option Authorization :=
  if negb (Authorization_Active authorization) || Authorization_Revoked authorization ||
     authorizationExpired authorization (a_now a) then None
  else if match tokenFilter with
          | Some f => negb (mem_bool f (Authorization_TokenHash authorization))
          | None => false
          end then None
  else match tokenFor state (Authorization_TokenHash authorization) with
  | None => None
  | Some token =>
      if Token_Revoked token ||
         (timeIsSet (Token_ExpiresAt token) && negb (Before (a_now a) (Token_ExpiresAt token)))
      then None
      else if Token_Managed token &&
              negb (Authorization_TokenVersion authorization =? Token_Version token) then None
      else
        let mode := normalizeTokenMode (Token_Mode token) in
        if (tokenMode <>s "") && (mode <>s tokenMode) &&
           negb ((tokenMode =s TokenModeClaimed) && (mode =s TokenModeManaged))
        then None
        else Some (Authorization_set_TokenMode mode authorization)
  end.

(** The loop over the authorizations, with the errors met so far. *)
Fixpoint matchAuthorizations (state : State) (tokenFilter : option (gmap string bool))
    (tokenMode : string) (info : ProcInfo) (errs : list error)
    (authorizations : list Authorization) : M Pass (option Authorization) :=
  match authorizations with
  | [] => joined errs ;; ret None
  | authorization :: rest =>
      n ← tick;
      match ctx_Err a n with
      | Some err => joined (errs ++ [err]) ;; ret None
      | None =>
          match eligible state tokenFilter tokenMode authorization with
          | None => matchAuthorizations state tokenFilter tokenMode info errs rest
          | Some authorization =>
              r ← try (authorizationMatchesChecked authorization info);
              match r with
              | inl err =>
                  matchAuthorizations state tokenFilter tokenMode info (errs ++ [err]) rest
              | inr true => ret (Some authorization)
              | inr false => matchAuthorizations state tokenFilter tokenMode info errs rest
              end
          end
      end
  end.

Definition matchAnyAuthorization (state : State) (info : ProcInfo)
    (tokenFilter : option (gmap string bool)) (tokenMode : string)
    : M Pass (option Authorization) :=
  matchAuthorizations state tokenFilter tokenMode info [] (State_Authorizations state).

Fixpoint matchLeases (info : ProcInfo) (errs : list error) (leases : list Lease)
    : M Pass (option string) :=
  match leases with
  | [] => joined errs ;; ret None
  | lease :: rest =>
      n ← tick;
      match ctx_Err a n with
      | Some err => joined (errs ++ [err]) ;; ret None
      | None =>
          r ← try (leaseMatchesChecked lease info);
          match r with
          | inl err => matchLeases info (errs ++ [err]) rest
          | inr true => ret (Some (Lease_ID lease))
          | inr false => matchLeases info errs rest
          end
      end
  end.

Definition matchesAnyLease (leases : list Lease) (info : ProcInfo) : M Pass (option string) :=
  matchLeases info [] leases.

Definition singleton (hash : string) : option (gmap string bool) := Some {[ hash := true ]}.

Fixpoint claimMatches (state : State) (claim : SoftClaim) (views : list processView)
    : M Pass bool :=
  match views with
  | [] => ret false
  | view :: rest =>
      checkDone ;;
      if v_Bypassed view then claimMatches state claim rest
      else
        m ← matchAnyAuthorization state (v_Info view) (singleton (SoftClaim_TokenHash claim))
              TokenModeClaimed;
        match m with
        | Some _ => ret true
        | None => claimMatches state claim rest
        end
  end.

Definition claimHasMatchingProcess (state : State) (claim : SoftClaim)
    (views : list processView) : M Pass bool :=
  if SoftClaim_TokenHash claim =s "" then ret false else claimMatches state claim views.

(** * Killing *)

Definition performKill (request : pendingKill) : M Pass unit :=
  match a_Killer a with
  | None => ret tt
  | Some killer =>
      if a_DryRun a then ret tt
      else
        match a_ValidateKill a with
        | None => ret tt
        | Some validate =>
            n ← tick;
            match validate n (v_Process (k_view request)) with
            | Some err => throw (Errorf "revalidate GPU process before kill: %w" [AErr err])
            | None => ret tt
            end
        end ;;
        n ← tick;
        killed (v_Info (k_view request)) ;;
        check (killer n (v_Info (k_view request))
          ("gpuardian killed pid=" +:+ Itoa (GPUProcess_PID (v_Process (k_view request))) +:+
           " on gpu=" +:+ Itoa (GPUProcess_GPU (v_Process (k_view request))) +:+ ": " +:+
           k_reason request))
  end.

(** The audit event of a kill: dry, failed with the error's text, or done. *)
Definition auditKill (request : pendingKill) (killErr : option error) : M Pass unit :=
  let event kind message := mkAuditEvent (UTC (k_now request)) kind message
    (GPUProcess_GPU (v_Process (k_view request))) (GPUProcess_PID (v_Process (k_view request)))
    (k_leaseID request) (k_holder request) in
  if a_DryRun a then audit (event "kill_dry_run" (k_reason request))
  else match killErr with
       | Some err => audit (event "kill_failed" (k_reason request +:+ ": " +:+ Error err))
       | None => audit (event "kill" (k_reason request))
       end.

Definition kill (view : processView) (reason leaseID authID holder tokenHash : string)
    : M Pass unit :=
  p ← get;
  let d action reason := mkDecision (v_Process view) (v_Info view) action reason leaseID authID
                           "" holder tokenHash SoftClaim_zero in
  if a_planning a && negb (a_DryRun a) &&
     (maxKillsPerEnforcementPass <=? llen (p_pending p))
  then decide_ (d Skip "kill budget exhausted; retry on next enforcement pass")
  else
    decide_ (d Kill reason) ;;
    let request := mkPendingKill view reason leaseID authID holder tokenHash (a_now a) in
    if a_planning a && negb (a_DryRun a) then plan request
    else
      r ← try (performKill request);
      let err := match r with inl e => Some e | inr _ => None end in
      auditKill request err ;; check err.

Definition killOnce (view : processView) (reason leaseID authID holder tokenHash : string)
    : M Pass unit :=
  p ← get;
  let pid := GPUProcess_PID (v_Process view) in
  if mem_gpu (p_targeted p) pid
  then decide_ (decision Skip "pid already targeted by enforcement" view)
  else target pid ;; kill view reason leaseID authID holder tokenHash.

(** * One GPU with reservations *)

Definition gpuPid (gpu : Z) (view : processView) : string :=
  "gpu=" +:+ Itoa gpu +:+ " pid=" +:+ Itoa (GPUProcess_PID (v_Process view)).

Definition reservedReason (gpu : Z) (view : processView) (holder : string) : string :=
  "unauthorized GPU access on " +:+ gpuPid gpu view +:+ "; gpu is reserved by " +:+ holder.

Definition tokenFilterOf (reservations : list Reservation) : gmap string bool :=
  foldl (fun f r => <[Reservation_TokenHash r := true]> f) ∅ reservations.

Fixpoint enforceHardViews (state : State) (gpu : Z) (reservations : list Reservation)
    (errs : list error) (views : list processView) : M Pass unit :=
  match views with
  | [] => joined errs
  | view :: rest =>
      checkContext errs ;;
      if v_Bypassed view then enforceHardViews state gpu reservations errs rest
      else
        r ← try (matchAnyAuthorization state (v_Info view)
                   (Some (tokenFilterOf reservations)) "");
        match r with
        | inl err =>
            decide_ (decision Skip "authorization resolution unavailable" view) ;;
            enforceHardViews state gpu reservations (errs ++ [err]) rest
        | inr (Some auth) =>
            decide_ (mkDecision (v_Process view) (v_Info view) Allow "authorization" ""
              (Authorization_ID auth) "" (Authorization_Holder auth)
              (Authorization_TokenHash auth) SoftClaim_zero) ;;
            enforceHardViews state gpu reservations errs rest
        | inr None =>
            let holder := reservationHolder reservations in
            e ← collect (killOnce view (reservedReason gpu view holder)
                  (firstReservationID reservations) "" holder
                  (tokenHashForReservations reservations));
            enforceHardViews state gpu reservations (errs ++ e) rest
        end
  end.

Definition enforceHard (state : State) (gpu : Z) (reservations : list Reservation)
    (views : list processView) : M Pass unit :=
  enforceHardViews state gpu reservations [] views.

(** * One GPU with legacy leases *)

Definition heldReason (gpu : Z) (view : processView) (holder : string) : string :=
  "unauthorized GPU access on " +:+ gpuPid gpu view +:+ "; gpu is held by " +:+ holder.

Fixpoint enforceLeaseViews (gpu : Z) (leases : list Lease) (errs : list error)
    (views : list processView) : M Pass unit :=
  match views with
  | [] => joined errs
  | view :: rest =>
      checkContext errs ;;
      if v_Bypassed view then enforceLeaseViews gpu leases errs rest
      else
        let holder := leaseHolder leases in
        r ← try (matchesAnyLease leases (v_Info view));
        match r with
        | inl err =>
            decide_ (decision Skip "lease resolution unavailable" view) ;;
            enforceLeaseViews gpu leases (errs ++ [err]) rest
        | inr (Some matchedLeaseID) =>
            decide_ (mkDecision (v_Process view) (v_Info view) Allow "lease" matchedLeaseID
              "" "" holder "" SoftClaim_zero) ;;
            enforceLeaseViews gpu leases errs rest
        | inr None =>
            e ← collect (killOnce view (heldReason gpu view holder) (firstLeaseID leases) ""
                  holder "");
            enforceLeaseViews gpu leases (errs ++ e) rest
        end
  end.

Definition enforceLegacyLeases (gpu : Z) (leases : list Lease) (views : list processView)
    : M Pass unit :=
  enforceLeaseViews gpu leases [] views.

(** * One GPU without either *)

Definition claimedReason (gpu : Z) (view : processView) (holder : string) : string :=
  "unauthorized GPU access on " +:+ gpuPid gpu view +:+ "; gpu is claimed by " +:+ holder.

(** The loop under a claim whose holder is still running. *)
Fixpoint enforceClaimViews (state : State) (gpu : Z) (claim : SoftClaim) (errs : list error)
    (views : list processView) : M Pass unit :=
  match views with
  | [] => joined errs
  | view :: rest =>
      checkContext errs ;;
      if v_Bypassed view then enforceClaimViews state gpu claim errs rest
      else
        m ← matchAnyAuthorization state (v_Info view)
              (singleton (SoftClaim_TokenHash claim)) TokenModeClaimed;
        match m with
        | Some auth =>
            decide_ (mkDecision (v_Process view) (v_Info view) Allow "claimed" ""
              (Authorization_ID auth) (SoftClaim_ID claim) (Authorization_Holder auth)
              (Authorization_TokenHash auth) SoftClaim_zero) ;;
            enforceClaimViews state gpu claim errs rest
        | None =>
            e ← collect (killOnce view (claimedReason gpu view (SoftClaim_Holder claim)) ""
                  (SoftClaim_AuthorizationID claim) (SoftClaim_Holder claim)
                  (SoftClaim_TokenHash claim));
            enforceClaimViews state gpu claim (errs ++ e) rest
        end
  end.

(** The views that bear a claimed-mode authorization, and those that do not. *)
Fixpoint classifyViews (state : State) (views : list processView)
    : M Pass (list (processView * Authorization) * list processView) :=
  match views with
  | [] => ret ([], [])
  | view :: rest =>
      checkContext [] ;;
      if v_Bypassed view then classifyViews state rest
      else
        m ← matchAnyAuthorization state (v_Info view) None TokenModeClaimed;
        c ← classifyViews state rest;
        ret (match m with
             | Some auth => ((view, auth) :: fst c, snd c)
             | None => (fst c, view :: snd c)
             end)
  end.

Fixpoint skipViews (reason : string) (views : list processView) : M Pass unit :=
  match views with
  | [] => ret tt
  | view :: rest => decide_ (decision Skip reason view) ;; skipViews reason rest
  end.

(** Authorized processes that came to a GPU others are using already. *)
Fixpoint rejectViews (gpu : Z) (errs : list error)
    (items : list (processView * Authorization)) : M Pass unit :=
  match items with
  | [] => joined errs
  | (view, auth) :: rest =>
      e ← collect (killOnce view
            ("claimed GPU access rejected on " +:+ gpuPid gpu view +:+
             "; gpu already has non-authorized process") "" (Authorization_ID auth)
            "existing GPU process" (Authorization_TokenHash auth));
      rejectViews gpu (errs ++ e) rest
  end.

(** Authorized processes on a GPU just claimed: those of the claiming token
    stay. *)
Fixpoint grantViews (gpu : Z) (claimAuth : Authorization) (errs : list error)
    (items : list (processView * Authorization)) : M Pass unit :=
  match items with
  | [] => joined errs
  | (view, auth) :: rest =>
      if Authorization_TokenHash auth =s Authorization_TokenHash claimAuth then
        decide_ (mkDecision (v_Process view) (v_Info view) Allow "claimed" ""
          (Authorization_ID auth) "" (Authorization_Holder auth)
          (Authorization_TokenHash auth) SoftClaim_zero) ;;
        grantViews gpu claimAuth errs rest
      else
        e ← collect (killOnce view (claimedReason gpu view (Authorization_Holder claimAuth)) ""
              (Authorization_ID claimAuth) (Authorization_Holder claimAuth)
              (Authorization_TokenHash claimAuth));
        grantViews gpu claimAuth (errs ++ e) rest
  end.

Definition newClaim (gpu : Z) (auth : Authorization) : SoftClaim :=
  mkSoftClaim "" gpu (Authorization_TokenHash auth) (Authorization_ID auth)
    (Authorization_Holder auth) (UTC (a_now a)) (UTC (a_now a)).

Definition enforceUnclaimed (state : State) (gpu : Z) (views : list processView)
    : M Pass unit :=
  c ← classifyViews state views;
  let '(authorized, unauthorized) := c in
  match authorized with
  | [] => skipViews "gpu has no active claimed authorization" unauthorized
  | (_, claimAuth) :: _ =>
      match unauthorized with
      | _ :: _ =>
          audit (mkAuditEvent (UTC (a_now a)) "claim_rejected"
            ("claimed-mode authorization rejected on gpu=" +:+ Itoa gpu +:+
             " because non-authorized GPU processes are already present") gpu 0 ""
            (Authorization_Holder claimAuth)) ;;
          skipViews "gpu already has non-authorized process" unauthorized ;;
          rejectViews gpu [] authorized
      | [] =>
          decide_ (mkDecision GPUProcess_zero ProcInfo_zero Claim "claimed" ""
            (Authorization_ID claimAuth) "" (Authorization_Holder claimAuth)
            (Authorization_TokenHash claimAuth) (newClaim gpu claimAuth)) ;;
          audit (mkAuditEvent (UTC (a_now a)) "claim" "GPU claimed" gpu 0 ""
            (Authorization_Holder claimAuth)) ;;
          grantViews gpu claimAuth [] authorized
      end
  end.

Definition enforceSoft (state : State) (gpu : Z) (views : list processView) : M Pass unit :=
  match activeSoftClaimsForGPU state gpu (a_now a) with
  | [] => enforceUnclaimed state gpu views
  | claim :: _ =>
      claimed ← claimHasMatchingProcess state claim views;
      if claimed : bool then enforceClaimViews state gpu claim [] views
      else enforceUnclaimed state gpu views
  end.

(** * The pass *)

(** The first loop: the views of the processes that use a GPU, in order. *)
Fixpoint sampleProcesses (state : State) (processes : list GPUProcess)
    : M Pass (list processView) :=
  match processes with
  | [] => ret []
  | gpuProcess :: rest =>
      checkContext [] ;;
      let skip reason info :=
        decide_ (mkDecision gpuProcess info Skip reason "" "" "" "" "" SoftClaim_zero) ;;
        sampleProcesses state rest in
      if negb (usesGPUResources gpuProcess) then skip "no gpu resource usage" ProcInfo_zero
      else match a_Proc a with
      | None => skip "stale pid" ProcInfo_zero
      | Some reader =>
          n ← tick;
          if negb (proc_Exists reader n (GPUProcess_PID gpuProcess))
          then skip "stale pid" ProcInfo_zero
          else
            n ← tick;
            match proc_Info reader n (GPUProcess_PID gpuProcess) with
            | inl _ => skip "proc info unavailable" ProcInfo_zero
            | inr info =>
                let bypassed := BypassMatch (State_Bypasses state) info (a_now a) (a_BootID a) in
                (if bypassed
                 then decide_ (mkDecision gpuProcess info Allow "bypass" "" "" "" "" ""
                                 SoftClaim_zero)
                 else ret tt) ;;
                views ← sampleProcesses state rest;
                ret (mkView gpuProcess info bypassed :: views)
            end
      end
  end.

(** [byGPU[gpu]]. *)
Definition viewsOn (gpu : Z) (views : list processView) : list processView :=
  filter (fun v => GPUProcess_GPU (v_Process v) = gpu) views.

Definition enforceGPU (state : State) (gpu : Z) (views : list processView) : M Pass unit :=
  match activeReservationsForGPU (State_Reservations state) gpu (a_now a) with
  | (_ :: _) as reservations => enforceHard state gpu reservations views
  | [] =>
      match activeLeasesForGPU (State_Leases state) gpu (a_now a) with
      | (_ :: _) as leases => enforceLegacyLeases gpu leases views
      | [] => enforceSoft state gpu views
      end
  end.

(** The loop over the map [byGPU]: [order] lists its keys in the order the map
    happens to be iterated. *)
Fixpoint enforceGPUs (state : State) (views : list processView) (errs : list error)
    (order : list Z) : M Pass (list error) :=
  match order with
  | [] => ret errs
  | gpu :: rest =>
      checkContext errs ;;
      e ← collect (enforceGPU state gpu (viewsOn gpu views));
      enforceGPUs state views (errs ++ e) rest
  end.

Fixpoint releaseClaims (state : State) (views : list processView) (errs : list error)
    (claims : list SoftClaim) : M Pass unit :=
  match claims with
  | [] => joined errs
  | claim :: rest =>
      checkContext errs ;;
      r ← try (claimHasMatchingProcess state claim (viewsOn (SoftClaim_GPU claim) views));
      match r with
      | inl err => releaseClaims state views (errs ++ [err]) rest
      | inr true => releaseClaims state views errs rest
      | inr false =>
          decide_ (mkDecision GPUProcess_zero ProcInfo_zero ReleaseClaim
            "claimed GPU has no matching process" "" "" (SoftClaim_ID claim) "" ""
            SoftClaim_zero) ;;
          audit (mkAuditEvent (UTC (a_now a)) "claim_released"
            "claimed GPU released after authorized process disappeared"
            (SoftClaim_GPU claim) 0 "" (SoftClaim_Holder claim)) ;;
          releaseClaims state views errs rest
      end
  end.

(** The keys of [byGPU]. *)
Definition gpusOf (views : list processView) : list Z :=
  remove_dups (map (fun v => GPUProcess_GPU (v_Process v)) views).

(** [enforce], with [range] the order in which Go iterates over a map. *)
Definition enforce (range : list Z -> list Z) (state : State) (processes : list GPUProcess)
    : M Pass unit :=
  views ← sampleProcesses state processes;
  errs ← enforceGPUs state views [] (range (gpusOf views));
  releaseClaims state views errs (State_SoftClaims state).

(** * Executing the plan *)

(** One pending kill, unless the context is done. *)
Definition executeKill (request : pendingKill) : M Pass (option error) :=
  n ← tick;
  match ctx_Err a n with
  | Some err => ret (Some err)
  | None => r ← try (performKill request); ret (match r with inl e => Some e | inr _ => None end)
  end.

(** The results by index, as the workers of a pass leave them. *)
Fixpoint executeKills (jobs : list (nat * pendingKill)) : M Pass (gmap nat (option error)) :=
  match jobs with
  | [] => ret ∅
  | (index, request) :: rest =>
      result ← executeKill request;
      more ← executeKills rest;
      ret (<[index := result]> more)
  end.

Definition resultOf (results : gmap nat (option error)) (index : nat) : option error :=
  default None (results !! index).

Fixpoint auditKills (results : gmap nat (option error)) (jobs : list (nat * pendingKill))
    : M Pass unit :=
  match jobs with
  | [] => ret tt
  | (index, request) :: rest =>
      auditKill request (resultOf results index) ;; auditKills results rest
  end.

Definition killErrors (results : gmap nat (option error)) (jobs : list (nat * pendingKill))
    : list error :=
  omap (fun job => resultOf results (fst job)) jobs.

(** [executePendingKills]: the kills in the order [schedule] gives them, that of
    the plan or that in which concurrent workers get to them; then their audit
    events and errors in the order of the plan. *)
Definition executePendingKills
    (schedule : list (nat * pendingKill) -> list (nat * pendingKill))
    (pending : list pendingKill) : M Pass unit :=
  match pending with
  | [] => ret tt
  | _ =>
      let jobs := imap pair pending in
      results ← executeKills (schedule jobs);
      auditKills results jobs ;; joined (killErrors results jobs)
  end.

End authorizer.

(** The copies of the receiver that the two public passes plan with. *)
Definition withIndex (state : State) (a : Authorizer) : Authorizer :=
  mkAuthorizer (ctx_Err a) (a_Proc a) (a_Runtime a) (a_Killer a) (a_ValidateKill a)
    (a_UsernameLookup a) (a_BootID a) (a_now a) (a_DryRun a) (a_planning a)
    (Some (foldl (fun index token => <[Token_Hash token := token]> index) ∅
             (State_Tokens state))).
Definition withPlan (a : Authorizer) : Authorizer :=
  mkAuthorizer (ctx_Err a) (a_Proc a) (a_Runtime a) (a_Killer a) (a_ValidateKill a)
    (a_UsernameLookup a) (a_BootID a) (a_now a) (a_DryRun a) (negb (a_DryRun a))
    (a_activeTokens a).

Definition errorOf {A} (r : error + A) : list error :=
  match r with inl e => [e] | inr _ => [] end.

Definition Enforce (a : Authorizer) (range : list Z -> list Z)
    (schedule : list (nat * pendingKill) -> list (nat * pendingKill))
    (state : State) (processes : list GPUProcess) : M Pass unit :=
  planning ← try (enforce (withPlan (withIndex state a)) range state processes);
  p ← get;
  killing ← try (executePendingKills a schedule (p_pending p));
  joined (errorOf planning ++ errorOf killing).

(** * Before a reservation: who is using the GPU *)

Fixpoint busyProcesses (a : Authorizer) (state : State) (wanted : GPUProcess -> bool)
    (exempt : ProcInfo -> M Pass bool) (processes : list GPUProcess) : M Pass unit :=
  match processes with
  | [] => ret tt
  | gpuProcess :: rest =>
      checkDone a ;;
      let next := busyProcesses a state wanted exempt rest in
      if negb (wanted gpuProcess) || negb (usesGPUResources gpuProcess) then next
      else match a_Proc a with
      | None => next
      | Some reader =>
          n ← tick;
          if negb (proc_Exists reader n (GPUProcess_PID gpuProcess)) then next
          else
            n ← tick;
            match proc_Info reader n (GPUProcess_PID gpuProcess) with
            | inl _ => next
            | inr info =>
                if BypassMatch (State_Bypasses state) info (a_now a) (a_BootID a) then next
                else
                  matches ← exempt info;
                  if matches : bool then next
                  else
                    decide_ (mkDecision gpuProcess info Busy
                      "gpu already has non-bypassed process" "" "" "" "" "" SoftClaim_zero) ;;
                    next
            end
      end
  end.

Definition BusyProcessesForGPU (a : Authorizer) (state : State) (processes : list GPUProcess)
    (gpu : Z) : M Pass unit :=
  busyProcesses a state (fun p => GPUProcess_GPU p =? gpu) (fun _ => ret false) processes.

Definition BusyProcessesForLease (a : Authorizer) (state : State) (processes : list GPUProcess)
    (tentative : option Lease) : M Pass unit :=
  match tentative with
  | None => ret tt
  | Some lease =>
      busyProcesses a state (fun p => GPUProcess_GPU p =? Lease_GPU lease)
        (fun info => if Lease_Mode lease <>s "" then leaseMatchesChecked a lease info
                     else ret false) processes
  end.
