(* ===== verification/EnforceEvict.v ===== *)
(** internal/enforce/enforce.go: evicting the processes whose entitlement has
    expired, been revoked or disappeared, and the assessment that tells the
    daemon which stale scopes it may forget. *)

From S2P Require Export Enforce.

(** * Entitlements by token and GPU *)

(** [gpuTokenKey]. *)
Definition gpuTokenKey : Type := Z * string.

Definition authorizationGloballyValid (tokens : gmap string Token) (now : time)
    (authorization : Authorization) : bool :=
  if negb (Authorization_Active authorization) || Authorization_Revoked authorization ||
     authorizationExpired authorization now then false
  else match tokens !! Authorization_TokenHash authorization with
  | None => false
  | Some token =>
      negb (Token_Revoked token) &&
      (negb (Token_Managed token) ||
       (Authorization_TokenVersion authorization =? Token_Version token)) &&
      (negb (timeIsSet (Token_ExpiresAt token)) || Before now (Token_ExpiresAt token))
  end.

Definition authorizationEvictionMode (tokens : gmap string Token) (authorization : Authorization)
    : string :=
  match tokens !! Authorization_TokenHash authorization with
  | Some token => normalizeTokenMode (Token_Mode token)
  | None => normalizeTokenMode (Authorization_TokenMode authorization)
  end.

Definition mem_key (m : gmap gpuTokenKey bool) (k : gpuTokenKey) : bool := default false (m !! k).

Definition tokenHasKnownReservation (reservations : gmap gpuTokenKey bool) (tokenHash : string)
    : bool :=
  existsb (fun p => snd (fst p) =s tokenHash) (map_to_list reservations).

(** [authorizationEvictionState]: entitled on this GPU, and otherwise whether
    its being stale matters there. *)
Definition authorizationEvictionState (tokens : gmap string Token)
    (validReservations staleReservations : gmap gpuTokenKey bool) (now : time) (gpu : Z)
    (authorization : Authorization) : bool * bool :=
  let globallyValid := authorizationGloballyValid tokens now authorization in
  let mode := authorizationEvictionMode tokens authorization in
  let key := (gpu, Authorization_TokenHash authorization) in
  let valid := mem_key validReservations key in
  let stale := mem_key staleReservations key in
  if mode =s TokenModeReserved then
    if globallyValid then (if valid then (true, false) else (false, stale))
    else (false, valid || stale)
  else if mode =s TokenModeClaimed then (globallyValid, negb globallyValid)
  else if mode =s TokenModeManaged then
    if valid then (globallyValid, negb globallyValid)
    else (globallyValid, negb globallyValid || stale)
  else (false, false).

Definition leaseEntitledOnGPU (tokens : gmap string Token) (now : time) (gpu : Z)
    (lease : Lease) : bool :=
  if negb (Lease_Active lease) || negb (Lease_GPU lease =? gpu) ||
     negb (Before now (Lease_ExpiresAt lease)) then false
  else if Lease_TokenHash lease =s "" then true
  else match tokens !! Lease_TokenHash lease with
  | None => false
  | Some token =>
      negb (Token_Revoked token) &&
      (negb (timeIsSet (Token_ExpiresAt token)) || Before now (Token_ExpiresAt token))
  end.

Definition leaseEvictionState (tokens : gmap string Token) (now : time) (gpu : Z)
    (lease : Lease) : bool * bool :=
  if negb (Lease_GPU lease =? gpu) then (false, false)
  else
    let entitled := leaseEntitledOnGPU tokens now gpu lease in (entitled, negb entitled).

(** * The reservations of each token *)

Record Reserved : Type := mkReserved
  { validReservations : gmap gpuTokenKey bool; staleReservations : gmap gpuTokenKey bool;
    reservationIDs : gmap gpuTokenKey string }.

Definition reservationTokenValid (tokens : gmap string Token) (now : time)
    (reservation : Reservation) : bool :=
  match tokens !! Reservation_TokenHash reservation with
  | None => false
  | Some token =>
      negb (Token_Revoked token) &&
      (normalizeTokenMode (Token_Mode token) =s TokenModeReserved) &&
      (negb (timeIsSet (Token_ExpiresAt token)) || Before now (Token_ExpiresAt token))
  end.

Definition classifyReservation (tokens : gmap string Token) (now : time) (acc : Reserved)
    (reservation : Reservation) : Reserved :=
  if Reservation_TokenHash reservation =s "" then acc
  else
    let key := (Reservation_GPU reservation, Reservation_TokenHash reservation) in
    let ids := if default "" (reservationIDs acc !! key) =s ""
               then <[key := Reservation_ID reservation]> (reservationIDs acc)
               else reservationIDs acc in
    let tokenValid := reservationTokenValid tokens now reservation in
    if tokenValid && ReservationActiveAt reservation now
    then mkReserved (<[key := true]> (validReservations acc)) (staleReservations acc) ids
    else if negb tokenValid || negb (Reservation_Active reservation) ||
            Reservation_Revoked reservation ||
            negb (Before now (Reservation_ExpiresAt reservation))
    then mkReserved (validReservations acc) (<[key := true]> (staleReservations acc)) ids
    else mkReserved (validReservations acc) (staleReservations acc) ids.

Definition classifyReservations (tokens : gmap string Token) (now : time)
    (reservations : list Reservation) : Reserved :=
  foldl (classifyReservation tokens now) (mkReserved ∅ ∅ ∅) reservations.

Definition tokensByHash (tokens : list Token) : gmap string Token :=
  foldl (fun index token => <[Token_Hash token := token]> index) ∅ tokens.

(** * The assessment *)

Record EvictionAssessment : Type := mkAssessment
  { as_Authorizations : gmap string bool; as_Leases : gmap string bool }.

Definition markEvictionAssessmentUncertain (assessment : EvictionAssessment)
    : EvictionAssessment :=
  mkAssessment ((fun _ => false) <$> as_Authorizations assessment)
    ((fun _ => false) <$> as_Leases assessment).

(** The stale non-cgroup scopes, assumed quiescent before the sample is read. *)
Definition initialAssessment (tokens : gmap string Token) (reserved : Reserved) (now : time)
    (state : State) : EvictionAssessment :=
  let authorizations :=
    foldl (fun m authorization =>
      if (Authorization_Mode authorization =s ModeBare) ||
         (Authorization_CgroupPath authorization <>s "") ||
         authorizationGloballyValid tokens now authorization then m
      else
        let mode := authorizationEvictionMode tokens authorization in
        if (mode =s TokenModeClaimed) || (mode =s TokenModeManaged) ||
           tokenHasKnownReservation (staleReservations reserved)
             (Authorization_TokenHash authorization) ||
           tokenHasKnownReservation (validReservations reserved)
             (Authorization_TokenHash authorization)
        then <[Authorization_ID authorization := true]> m else m)
      (∅ : gmap string bool) (State_Authorizations state) in
  let leases :=
    foldl (fun m lease =>
      if (Lease_Mode lease =s ModeBare) || (Lease_CgroupPath lease <>s "") ||
         leaseEntitledOnGPU tokens now (Lease_GPU lease) lease then m
      else <[Lease_ID lease := true]> m) (∅ : gmap string bool) (State_Leases state) in
  mkAssessment authorizations leases.

Definition soilAuthorizations (rows : list Authorization) (m : gmap string bool)
    : gmap string bool :=
  foldl (fun m authorization => <[Authorization_ID authorization := false]> m) m rows.
Definition soilLeases (rows : list Lease) (m : gmap string bool) : gmap string bool :=
  foldl (fun m lease => <[Lease_ID lease := false]> m) m rows.

(** * The pass *)

(** The variables of the loop over the sampled processes. *)
Record Evict : Type := mkEvict
  { e_assessment : EvictionAssessment;
    e_cache : gmap Z (option ProcInfo);         (* processesByPID *)
    e_killed : gmap Z bool;
    e_errors : list error }.

Definition uncertain (err : error) (e : Evict) : Evict :=
  mkEvict (markEvictionAssessmentUncertain (e_assessment e)) (e_cache e) (e_killed e)
    (e_errors e ++ [err]).

(** What the scan of the authorizations, then of the leases, finds for one
    process: an entitlement, a failure, or the stale rows it matches. *)
Inductive Scan : Type :=
  | Entitled
  | Unresolved (err : error)
  | Stale (authorizations : list Authorization) (leases : list Lease).

(** [os.IsNotExist]. *)
Definition os_IsNotExist (err : error) : bool :=
  match err with ErrorString msg => msg =s "file does not exist" | _ => false end.

Section evict.
Context (a : Authorizer).

Fixpoint scanLeases (tokens : gmap string Token) (gpu : Z) (info : ProcInfo)
    (invalidAuthorizations : list Authorization) (invalid : list Lease) (rows : list Lease)
    : M Pass Scan :=
  match rows with
  | [] => ret (Stale invalidAuthorizations invalid)
  | lease :: rest =>
      n ← tick;
      match ctx_Err a n with
      | Some err => ret (Unresolved err)
      | None =>
          let '(entitled, staleRelevant) := leaseEvictionState tokens (a_now a) gpu lease in
          if negb entitled && negb staleRelevant
          then scanLeases tokens gpu info invalidAuthorizations invalid rest
          else
            r ← try (leaseScopeMatchesForEviction a lease info);
            match r with
            | inl err => ret (Unresolved err)
            | inr false => scanLeases tokens gpu info invalidAuthorizations invalid rest
            | inr true =>
                if entitled then ret Entitled
                else scanLeases tokens gpu info invalidAuthorizations (invalid ++ [lease]) rest
            end
      end
  end.

Fixpoint scanAuthorizations (tokens : gmap string Token) (reserved : Reserved) (gpu : Z)
    (info : ProcInfo) (leases : list Lease) (invalid : list Authorization)
    (rows : list Authorization) : M Pass Scan :=
  match rows with
  | [] => scanLeases tokens gpu info invalid [] leases
  | authorization :: rest =>
      n ← tick;
      match ctx_Err a n with
      | Some err => ret (Unresolved err)
      | None =>
          let '(entitled, staleRelevant) :=
            authorizationEvictionState tokens (validReservations reserved)
              (staleReservations reserved) (a_now a) gpu authorization in
          if negb entitled && negb staleRelevant
          then scanAuthorizations tokens reserved gpu info leases invalid rest
          else
            r ← try (authorizationScopeMatchesForEviction a authorization info);
            match r with
            | inl err => ret (Unresolved err)
            | inr false => scanAuthorizations tokens reserved gpu info leases invalid rest
            | inr true =>
                if entitled then ret Entitled
                else scanAuthorizations tokens reserved gpu info leases
                       (invalid ++ [authorization]) rest
            end
      end
  end.

(** The kill of a process that matches only stale rows. *)
Definition evictProcess (reserved : Reserved) (gpuProcess : GPUProcess) (info : ProcInfo)
    (invalidAuthorizations : list Authorization) (invalidLeases : list Lease) : M Pass unit :=
  let reason := "GPU entitlement expired or was revoked on gpu=" +:+
    Itoa (GPUProcess_GPU gpuProcess) +:+ " pid=" +:+ Itoa (GPUProcess_PID gpuProcess) in
  let view := mkView gpuProcess info false in
  let auth := hd Authorization_zero invalidAuthorizations in
  let lease := hd Lease_zero invalidLeases in
  if Authorization_ID auth <>s "" then
    kill a view reason
      (default "" (reservationIDs reserved !!
                     (GPUProcess_GPU gpuProcess, Authorization_TokenHash auth)))
      (Authorization_ID auth) (Authorization_Holder auth) (Authorization_TokenHash auth)
  else kill a view reason (Lease_ID lease) (Authorization_ID auth) (Lease_Holder lease)
         (Lease_TokenHash lease).

(** The body of the loop for one process whose information is at hand. *)
Definition evictKnown (state : State) (tokens : gmap string Token) (reserved : Reserved)
    (gpuProcess : GPUProcess) (info : ProcInfo) (e : Evict) : M Pass Evict :=
  let bypassed := BypassMatch (State_Bypasses state) info (a_now a) (a_BootID a) in
  scan ← scanAuthorizations tokens reserved (GPUProcess_GPU gpuProcess) info
           (State_Leases state) [] (State_Authorizations state);
  match scan with
  | Unresolved err => ret (uncertain err e)
  | Entitled => ret e
  | Stale [] [] => ret e
  | Stale authorizations leases =>
      let e := mkEvict (mkAssessment
        (soilAuthorizations authorizations (as_Authorizations (e_assessment e)))
        (soilLeases leases (as_Leases (e_assessment e)))) (e_cache e) (e_killed e) (e_errors e) in
      if bypassed then ret e
      else
        let e := mkEvict (e_assessment e) (e_cache e)
                   (<[GPUProcess_PID gpuProcess := true]> (e_killed e)) (e_errors e) in
        r ← try (evictProcess reserved gpuProcess info authorizations leases);
        ret (match r with inl err => uncertain err e | inr _ => e end)
  end.

Fixpoint evictLoop (reader : ProcReader) (state : State) (tokens : gmap string Token)
    (reserved : Reserved) (e : Evict) (processes : list GPUProcess) : M Pass Evict :=
  match processes with
  | [] => ret e
  | gpuProcess :: rest =>
      n ← tick;
      match ctx_Err a n with
      | Some err => ret (uncertain err e)
      | None =>
          let pid := GPUProcess_PID gpuProcess in
          if (pid <=? 0) || mem_gpu (e_killed e) pid
          then evictLoop reader state tokens reserved e rest
          else match e_cache e !! pid with
          | Some None => evictLoop reader state tokens reserved e rest
          | Some (Some info) =>
              e ← evictKnown state tokens reserved gpuProcess info e;
              evictLoop reader state tokens reserved e rest
          | None =>
              n ← tick;
              match proc_Info reader n pid with
              | inl err =>
                  if os_IsNotExist err then
                    evictLoop reader state tokens reserved
                      (mkEvict (e_assessment e) (<[pid := None]> (e_cache e)) (e_killed e)
                         (e_errors e)) rest
                  else
                    evictLoop reader state tokens reserved
                      (uncertain (Errorf
                        "inspect sampled pid %d before stale-scope eviction: %w"
                        [AInt pid; AErr err]) e) rest
              | inr info =>
                  e ← evictKnown state tokens reserved gpuProcess info
                        (mkEvict (e_assessment e) (<[pid := Some info]> (e_cache e))
                           (e_killed e) (e_errors e));
                  evictLoop reader state tokens reserved e rest
              end
          end
      end
  end.

Definition evictExpiredReservedProcesses (state : State) (processes : list GPUProcess)
    : M Pass (EvictionAssessment * list error) :=
  match a_Proc a with
  | None => ret (mkAssessment ∅ ∅, [])
  | Some reader =>
      let tokens := tokensByHash (State_Tokens state) in
      let reserved := classifyReservations tokens (a_now a) (State_Reservations state) in
      e ← evictLoop reader state tokens reserved
            (mkEvict (initialAssessment tokens reserved (a_now a) state) ∅ ∅ []) processes;
      ret (e_assessment e, e_errors e)
  end.

End evict.

(** [EvictExpiredReservedProcesses]: the assessment, and the joined error. *)
Definition EvictExpiredReservedProcesses (a : Authorizer)
    (schedule : list (nat * pendingKill) -> list (nat * pendingKill))
    (state : State) (processes : list GPUProcess)
    : M Pass (EvictionAssessment * option error) :=
  r ← evictExpiredReservedProcesses (withPlan a) state processes;
  let '(assessment, planningErrs) := r : EvictionAssessment * list error in
  p ← get;
  killing ← try (executePendingKills a schedule (p_pending p));
  let planning := match errors_Join planningErrs with Some e => [e] | None => [] end in
  ret (match killing with
       | inl err => (markEvictionAssessmentUncertain assessment, errors_Join (planning ++ [err]))
       | inr _ => (assessment, errors_Join planning)
       end).
