(* ===== verification/EnforceRefine.v ===== *)
(** What an enforcement pass may do, as a transition system, and that [enforce] does
    nothing but the steps that it justifies. *)

From S2P Require Export Enforce.

(** What an enforcement pass may do, as a transition system: the steps of a pass
    and the reasons that justify each.  [enforce] refines it. *)

(** * A program logic for passes *)

(** [m] moves the pass along [R] whatever it returns, and a value it returns
    satisfies [Q]. *)
Definition does {A} (R : Pass -> Pass -> Prop) (m : M Pass A) (Q : A -> Prop) : Prop :=
  forall p, rtc R p (final m p) /\ forall x, result m p = inr x -> Q x.

Section does.
Context {R : Pass -> Pass -> Prop}.

Lemma does_ret {A} (x : A) (Q : A -> Prop) : Q x -> does R (ret x) Q.
Proof. intros H p. split; [constructor|]. by intros y [= <-]. Qed.

Lemma does_throw {A} e (Q : A -> Prop) : does R (throw e) Q.
Proof. intros p. split; [constructor|done]. Qed.

Lemma does_check e : does R (check e) (fun _ => e = None).
Proof. destruct e; [apply does_throw|by apply does_ret]. Qed.

Lemma does_fail_if b e : does R (fail_if b e) (fun _ => b = false).
Proof. destruct b; [apply does_throw|by apply does_ret]. Qed.

Lemma does_bind {A B} (m : M Pass A) (k : A -> M Pass B) Q Q' :
  does R m Q -> (forall x, Q x -> does R (k x) Q') -> does R (m ≫= k) Q'.
Proof.
  intros Hm Hk p. destruct (Hm p) as [S V].
  unfold final, result, mbind, M_bind, bind in *. destruct (m p) as [[e|x] p1]; cbn in *.
  - split; [done|by intros ? [=]].
  - destruct (Hk x (V x eq_refl) p1) as [S' V']. unfold final, result in *.
    split; [by etrans|done].
Qed.

Lemma does_weaken {A} (m : M Pass A) (Q Q' : A -> Prop) :
  does R m Q -> (forall x, Q x -> Q' x) -> does R m Q'.
Proof. intros H W p. destruct (H p). split; [done|]. auto. Qed.

Lemma does_try {A} (m : M Pass A) Q :
  does R m Q -> does R (try m) (fun r => forall x, r = inr x -> Q x).
Proof.
  intros H p. destruct (H p) as [S V]. unfold final, result, try in *.
  destruct (m p) as [r p1]. cbn in *. split; [done|]. intros r' [= <-]. done.
Qed.

Lemma does_step (f : Pass -> Pass) :
  (forall p, R p (f p)) -> does R (modify f) (fun _ => True).
Proof. intros H p. split; [|done]. apply rtc_once, H. Qed.

Lemma does_collect (m : M Pass unit) Q :
  does R m Q -> does R (collect m) (fun _ => True).
Proof.
  intros H. eapply does_bind; [by apply does_try|]. intros. by apply does_ret.
Qed.

Lemma does_joined errs : does R (joined errs) (fun _ => errs = []).
Proof. eapply does_weaken; [apply does_check|]. by destruct errs. Qed.

(** A question, in a relation that lets questions be asked. *)
Lemma does_tick_of : (forall p, R p (final tick p)) -> does R tick (fun _ => True).
Proof. intros H p. split; [|done]. apply rtc_once, H. Qed.

(** What a value of [m] tells: [m] answered it. *)
Definition answers {A} (m : M Pass A) (x : A) : Prop := exists p, result m p = inr x.

Lemma does_answers {A} (m : M Pass A) Q : does R m Q -> does R m (fun x => Q x /\ answers m x).
Proof. intros H p. destruct (H p) as [S V]. split; [done|]. intros x E. split; [auto|by exists p]. Qed.

End does.

(** * Why a pass acts *)

Section steps.
Context (a : Authorizer) (state : State) (processes : list GPUProcess).

(** A view the first loop makes. *)
Definition sampled (v : processView) : Prop :=
  v_Process v ∈ processes /\ usesGPUResources (v_Process v) = true /\
  (exists reader n, a_Proc a = Some reader /\
     proc_Info reader n (GPUProcess_PID (v_Process v)) = inr (v_Info v)) /\
  v_Bypassed v = BypassMatch (State_Bypasses state) (v_Info v) (a_now a) (a_BootID a).

(** A view of a process that no bypass rule exempts, on this GPU. *)
Definition watched (gpu : Z) (v : processView) : Prop :=
  sampled v /\ v_Bypassed v = false /\ GPUProcess_GPU (v_Process v) = gpu.

(** Some row that may be considered was found to match the process. *)
Definition grants (tokenFilter : option (gmap string bool)) (tokenMode : string)
    (info : ProcInfo) (auth : Authorization) : Prop :=
  exists row, row ∈ State_Authorizations state /\
    eligible a state tokenFilter tokenMode row = Some auth /\
    answers (authorizationMatchesChecked a auth info) true.

(** Every row that may be considered was found not to match. *)
Definition refuses (tokenFilter : option (gmap string bool)) (tokenMode : string)
    (info : ProcInfo) : Prop :=
  forall row auth, row ∈ State_Authorizations state ->
    eligible a state tokenFilter tokenMode row = Some auth ->
    answers (authorizationMatchesChecked a auth info) false.

Definition reservationsOn (gpu : Z) : list Reservation :=
  activeReservationsForGPU (State_Reservations state) gpu (a_now a).
Definition leasesOn (gpu : Z) : list Lease := activeLeasesForGPU (State_Leases state) gpu (a_now a).
Definition claimsOn (gpu : Z) : list SoftClaim := activeSoftClaimsForGPU state gpu (a_now a).
Definition free (gpu : Z) : Prop := reservationsOn gpu = [] /\ leasesOn gpu = [].
Definition reservedFilter (gpu : Z) : option (gmap string bool) :=
  Some (tokenFilterOf (reservationsOn gpu)).

(** The reasons to let a process use a GPU. *)
Inductive allowed : Decision -> Prop :=
  | allowed_bypass v (S : sampled v) (B : v_Bypassed v = true) :
      allowed (decision Allow "bypass" v)
  | allowed_reservation gpu v auth (W : watched gpu v) (N : reservationsOn gpu <> [])
      (G : grants (reservedFilter gpu) "" (v_Info v) auth) :
      allowed (mkDecision (v_Process v) (v_Info v) Allow "authorization" ""
        (Authorization_ID auth) "" (Authorization_Holder auth) (Authorization_TokenHash auth)
        SoftClaim_zero)
  | allowed_lease gpu v lease holder (W : watched gpu v) (N : reservationsOn gpu = [])
      (I : lease ∈ leasesOn gpu) (G : answers (leaseMatchesChecked a lease (v_Info v)) true) :
      allowed (mkDecision (v_Process v) (v_Info v) Allow "lease" (Lease_ID lease) "" "" holder ""
        SoftClaim_zero)
  | allowed_claim gpu v claim auth (W : watched gpu v) (F : free gpu) (C : claim ∈ claimsOn gpu)
      (G : grants (singleton (SoftClaim_TokenHash claim)) TokenModeClaimed (v_Info v) auth) :
      allowed (mkDecision (v_Process v) (v_Info v) Allow "claimed" "" (Authorization_ID auth)
        (SoftClaim_ID claim) (Authorization_Holder auth) (Authorization_TokenHash auth)
        SoftClaim_zero)
  | allowed_claimant gpu v auth (W : watched gpu v) (F : free gpu)
      (G : grants None TokenModeClaimed (v_Info v) auth) :
      allowed (mkDecision (v_Process v) (v_Info v) Allow "claimed" "" (Authorization_ID auth)
        "" (Authorization_Holder auth) (Authorization_TokenHash auth) SoftClaim_zero).

(** The reasons to kill a process. *)
Inductive killable (v : processView) : Prop :=
  | killable_reserved gpu (W : watched gpu v) (N : reservationsOn gpu <> [])
      (X : refuses (reservedFilter gpu) "" (v_Info v))
  | killable_leased gpu (W : watched gpu v) (N : reservationsOn gpu = [])
      (L : leasesOn gpu <> [])
      (X : forall lease, lease ∈ leasesOn gpu ->
             answers (leaseMatchesChecked a lease (v_Info v)) false)
  | killable_claimed gpu claim (W : watched gpu v) (F : free gpu) (C : claim ∈ claimsOn gpu)
      (X : refuses (singleton (SoftClaim_TokenHash claim)) TokenModeClaimed (v_Info v))
  | killable_rejected gpu other (W : watched gpu v) (F : free gpu) (W' : watched gpu other)
      (X : refuses None TokenModeClaimed (v_Info other))
  | killable_outclaimed gpu claimant auth auth' (W : watched gpu v) (F : free gpu)
      (W' : watched gpu claimant)
      (G' : grants None TokenModeClaimed (v_Info claimant) auth')
      (G : grants None TokenModeClaimed (v_Info v) auth)
      (N : Authorization_TokenHash auth <> Authorization_TokenHash auth').

(** A new claim needs a GPU without reservation or lease and a process on it
    that bears a claimed-mode authorization. *)
Definition claimable (gpu : Z) (auth : Authorization) : Prop :=
  free gpu /\ exists v, watched gpu v /\ grants None TokenModeClaimed (v_Info v) auth.

(** The steps of a pass. *)
Inductive step : Pass -> Pass -> Prop :=
  | step_ask p : step p (final tick p)
  | step_skip p d (S : d_Action d = Skip) : step p (final (decide_ d) p)
  | step_allow p d (J : allowed d) : step p (final (decide_ d) p)
  | step_claim p gpu auth (J : claimable gpu auth) :
      step p (final (decide_ (mkDecision GPUProcess_zero ProcInfo_zero Claim "claimed" ""
        (Authorization_ID auth) "" (Authorization_Holder auth) (Authorization_TokenHash auth)
        (newClaim a gpu auth))) p)
  | step_release p claim (J : claim ∈ State_SoftClaims state) :
      step p (final (decide_ (mkDecision GPUProcess_zero ProcInfo_zero ReleaseClaim
        "claimed GPU has no matching process" "" "" (SoftClaim_ID claim) "" ""
        SoftClaim_zero)) p)
  | step_audit p e (K : AuditEvent_Kind e ∈ ["claim"; "claim_rejected"; "claim_released"]) :
      step p (final (audit e) p)
  | step_kill p v reason leaseID authID holder tokenHash (J : killable v) :
      step p (final (killOnce a v reason leaseID authID holder tokenHash) p).

End steps.

(** * The parts of a pass, as steps *)

Section refinement.
Context (a : Authorizer) (state : State) (processes : list GPUProcess).

#[local] Abbreviation does := (does (step a state processes)).

Lemma does_tick : does tick (fun _ => True).
Proof. intros p. split; [|done]. apply rtc_once. constructor. Qed.

Lemma does_skip d : d_Action d = Skip -> does (decide_ d) (fun _ => True).
Proof. intros S p. split; [|done]. by apply rtc_once, step_skip. Qed.

Lemma does_allow d : allowed a state processes d -> does (decide_ d) (fun _ => True).
Proof. intros J p. split; [|done]. by apply rtc_once, step_allow. Qed.

Lemma does_audit e :
  AuditEvent_Kind e ∈ ["claim"; "claim_rejected"; "claim_released"] ->
  does (audit e) (fun _ => True).
Proof. intros J p. split; [|done]. by apply rtc_once, step_audit. Qed.

Lemma does_kill v reason leaseID authID holder tokenHash :
  killable a state processes v ->
  does (killOnce a v reason leaseID authID holder tokenHash) (fun _ => True).
Proof. intros J p. split; [|done]. by apply rtc_once, step_kill. Qed.

End refinement.

(** Walk through a computation that only asks questions. *)
Ltac asks :=
  lazymatch goal with
  | |- does _ (mbind _ _) _ => apply (does_bind _ _ (fun _ => True)); [asks|intros ? _; asks]
  | |- does _ tick _ => apply does_tick_of; solve [assumption|constructor]
  | |- does _ (match ?x with _ => _ end) _ => destruct x; asks
  | |- does _ (throw _) _ => apply does_throw
  | |- does _ (ret _) _ => by apply does_ret
  | |- does _ (check _) _ => eapply does_weaken; [apply does_check|done]
  | |- does _ (fail_if _ _) _ => eapply does_weaken; [apply does_fail_if|done]
  | |- does _ (let _ := _ in _) _ => cbv zeta; asks
  | |- does _ (resolved _ _ _ _) _ => unfold resolved; asks
  end.

(** * Scope lookups only ask *)

Section scopes.
Context (R : Pass -> Pass -> Prop) (asking : forall p, R p (final tick p)) (a : Authorizer).

Lemma does_scope auth info :
  does R (authorizationScopeMatchesForEviction a auth info)
    (fun b => answers (authorizationScopeMatchesForEviction a auth info) b).
Proof using asking.
  eapply does_weaken; [apply (does_answers _ (fun _ => True))|by intros x [_ H]].
  unfold authorizationScopeMatchesForEviction. asks.
Qed.

Lemma does_leaseScope lease info :
  does R (leaseScopeMatchesForEviction a lease info)
    (fun b => answers (leaseScopeMatchesForEviction a lease info) b).
Proof using asking.
  eapply does_weaken; [apply (does_answers _ (fun _ => True))|by intros x [_ H]].
  unfold leaseScopeMatchesForEviction. asks.
Qed.

End scopes.

Section refines.
Context (a : Authorizer) (state : State) (processes : list GPUProcess).
#[local] Abbreviation does := (does (step a state processes)).
Lemma does_authorizationMatches auth info :
  does (authorizationMatchesChecked a auth info)
    (fun b => answers (authorizationMatchesChecked a auth info) b).
Proof.
  eapply does_weaken; [apply (does_answers _ (fun _ => True))|by intros x [_ H]].
  unfold authorizationMatchesChecked. destruct (_ || _); [by apply does_ret|].
  eapply does_weaken; [apply does_scope; constructor|done].
Qed.

Lemma does_leaseMatches lease info :
  does (leaseMatchesChecked a lease info) (fun b => answers (leaseMatchesChecked a lease info) b).
Proof.
  eapply does_weaken; [apply (does_answers _ (fun _ => True))|by intros x [_ H]].
  unfold leaseMatchesChecked. destruct (_ || _); [by apply does_ret|].
  eapply does_weaken; [apply does_leaseScope; constructor|done].
Qed.

(** What the rows tried so far say of a match. *)
Definition verdict (rows : list Authorization) f mode info (m : option Authorization) : Prop :=
  match m with
  | Some auth => exists row, row ∈ rows /\ eligible a state f mode row = Some auth /\
                   answers (authorizationMatchesChecked a auth info) true
  | None => forall row auth, row ∈ rows -> eligible a state f mode row = Some auth ->
              answers (authorizationMatchesChecked a auth info) false
  end.

Lemma does_matchAuthorizations f mode info errs rows :
  does (matchAuthorizations a state f mode info errs rows)
    (fun m => (errs = [] \/ m <> None) /\ verdict rows f mode info m).
Proof.
  revert errs. induction rows as [|row rows IH]; intros errs; cbn [matchAuthorizations].
  { eapply does_bind; [apply does_joined|]. intros ? E; cbn in E. subst errs. apply does_ret. split; [by left|].
    by intros row auth I%elem_of_nil. }
  eapply does_bind; [apply does_tick|]. intros n _. destruct (ctx_Err a n) as [err|].
  { eapply does_bind; [apply does_joined|]. intros ? E; cbn in E. by apply app_nil in E as [_ ?]. }
  destruct (eligible a state f mode row) as [auth|] eqn:El.
  - eapply does_bind; [apply does_try, does_authorizationMatches|].
    intros [err|[]] V; cbn in V.
    + eapply does_weaken; [apply IH|]. intros [m|] [O X].
      * split; [by right|]. destruct X as (row' & I & X). exists row'. split; [by right|done].
      * destruct O as [O|O]; [by destruct errs|done].
    + apply does_ret. split; [by right|]. exists row. split; [by left|]. eauto.
    + eapply does_weaken; [apply IH|]. intros [m|] [O X]; (split; [done|]).
      * destruct X as (row' & I & X). exists row'. split; [by right|done].
      * intros row' auth' [->|I]%elem_of_cons E; [|by eapply X]. simplify_eq. by apply V.
  - eapply does_weaken; [apply IH|]. intros [m|] [O X]; (split; [done|]).
    + destruct X as (row' & I & X). exists row'. split; [by right|done].
    + intros row' auth' [->|I]%elem_of_cons E; [congruence|by eapply X].
Qed.

Lemma does_matchAny f mode info :
  does (matchAnyAuthorization a state info f mode)
    (fun m => match m with
              | Some auth => grants a state f mode info auth
              | None => refuses a state f mode info
              end).
Proof.
  eapply does_weaken; [apply does_matchAuthorizations|]. intros [m|] [_ V]; exact V.
Qed.

Lemma does_matchLeases info errs leases :
  does (matchLeases a info errs leases)
    (fun m => (errs = [] \/ m <> None) /\ match m with
      | Some id => exists lease, lease ∈ leases /\ id = Lease_ID lease /\
                     answers (leaseMatchesChecked a lease info) true
      | None => forall lease, lease ∈ leases -> answers (leaseMatchesChecked a lease info) false
      end).
Proof.
  revert errs. induction leases as [|l leases IH]; intros errs; cbn [matchLeases].
  { eapply does_bind; [apply does_joined|]. intros ? E; cbn in E. subst errs. apply does_ret. split; [by left|].
    by intros l I%elem_of_nil. }
  eapply does_bind; [apply does_tick|]. intros n _. destruct (ctx_Err a n) as [err|].
  { eapply does_bind; [apply does_joined|]. intros ? E; cbn in E. by apply app_nil in E as [_ ?]. }
  eapply does_bind; [apply does_try, does_leaseMatches|]. intros [err|[]] V; cbn in V.
  - eapply does_weaken; [apply IH|]. intros [m|] [O X].
    + split; [by right|]. destruct X as (l' & I & X). exists l'. split; [by right|done].
    + destruct O as [O|O]; [by destruct errs|done].
  - apply does_ret. split; [by right|]. exists l. split; [by left|]. auto.
  - eapply does_weaken; [apply IH|]. intros [m|] [O X]; (split; [done|]).
    + destruct X as (l' & I & X). exists l'. split; [by right|done].
    + intros l' [->|I]%elem_of_cons; [by apply V|by apply X].
Qed.

(** A view of this pass on this GPU. *)
Definition viewOf (gpu : Z) (v : processView) : Prop :=
  sampled a state processes v /\ GPUProcess_GPU (v_Process v) = gpu.

Lemma viewOf_watched gpu v :
  viewOf gpu v -> v_Bypassed v = false -> watched a state processes gpu v.
Proof. by intros [? ?] ?. Qed.

Lemma does_checkContext errs : does (checkContext a errs) (fun _ => True).
Proof. unfold checkContext. asks. Qed.

Lemma does_checkDone : does (checkDone a) (fun _ => True).
Proof. unfold checkDone. asks. Qed.

Lemma does_claimMatches claim views : does (claimMatches a state claim views) (fun _ => True).
Proof.
  induction views as [|v views IH]; cbn [claimMatches]; [by apply does_ret|].
  eapply does_bind; [apply does_checkDone|]. intros _ _. destruct (v_Bypassed v); [done|].
  eapply does_bind; [apply does_matchAny|]. intros [m|] _; [by apply does_ret|done].
Qed.

Lemma does_claimHas claim views :
  does (claimHasMatchingProcess a state claim views) (fun _ => True).
Proof.
  unfold claimHasMatchingProcess. destruct (_ =s _); [by apply does_ret|].
  apply does_claimMatches.
Qed.

Lemma does_killed v reason l u h k (Q : list error -> Prop) :
  killable a state processes v -> (forall e, Q e) ->
  does (collect (killOnce a v reason l u h k)) Q.
Proof.
  intros K T. eapply does_weaken; [by eapply does_collect, does_kill|]. intros; apply T.
Qed.

(** One view of a loop: the context is asked, and a bypassed view is passed over. *)
Lemma does_view {A} errs (v : processView) (skip act : M Pass A) Q :
  does skip Q -> (v_Bypassed v = false -> does act Q) ->
  does (checkContext a errs ;; if v_Bypassed v then skip else act) Q.
Proof.
  intros S W. eapply does_bind; [apply does_checkContext|]. intros _ _.
  destruct (v_Bypassed v); [done|by apply W].
Qed.

Lemma does_hardViews gpu errs views :
  reservationsOn a state gpu <> [] -> Forall (viewOf gpu) views ->
  does (enforceHardViews a state gpu (reservationsOn a state gpu) errs views)
    (fun _ => errs = []).
Proof.
  intros N F. revert errs. induction F as [|v views V F IH]; intros errs;
    cbn [enforceHardViews]; [apply does_joined|].
  apply does_view; [apply IH|]. intros B. pose proof (viewOf_watched _ _ V B) as W.
  eapply does_bind; [apply does_try, does_matchAny|]. intros [err|[auth|]] M; cbn in M.
  - eapply does_bind; [by apply does_skip|]. intros _ _.
    eapply does_weaken; [apply IH|]. by intros _ [? ?]%app_nil.
  - specialize (M _ eq_refl).
    eapply does_bind; [by eapply does_allow, allowed_reservation|]. intros _ _. apply IH.
  - specialize (M _ eq_refl).
    apply (does_bind _ _ (fun _ => True)); [|intros e _; eapply does_weaken;
      [apply IH|by intros _ [? ?]%app_nil]]. apply does_killed; [|done].
    by eapply killable_reserved.
Qed.

Lemma does_leaseViews gpu errs views :
  reservationsOn a state gpu = [] -> leasesOn a state gpu <> [] -> Forall (viewOf gpu) views ->
  does (enforceLeaseViews a gpu (leasesOn a state gpu) errs views) (fun _ => True).
Proof.
  intros E N F. revert errs. induction F as [|v views V F IH]; intros errs;
    cbn [enforceLeaseViews]; [eapply does_weaken; [apply does_joined|done]|].
  apply does_view; [apply IH|]. intros B. pose proof (viewOf_watched _ _ V B) as W. cbv zeta.
  eapply does_bind; [apply does_try, does_matchLeases|]. intros [err|[id|]] M; cbn in M.
  - eapply does_bind; [by apply does_skip|]. intros _ _. apply IH.
  - destruct (M _ eq_refl) as [_ (l & I & -> & G)].
    eapply does_bind; [by eapply does_allow, allowed_lease|]. intros _ _. apply IH.
  - destruct (M _ eq_refl) as [_ X].
    apply (does_bind _ _ (fun _ => True)); [|intros; apply IH]. apply does_killed; [|done].
    by eapply killable_leased.
Qed.

Lemma does_claimViews gpu claim errs views :
  free a state gpu -> claim ∈ claimsOn a state gpu -> Forall (viewOf gpu) views ->
  does (enforceClaimViews a state gpu claim errs views) (fun _ => True).
Proof.
  intros E N F. revert errs. induction F as [|v views V F IH]; intros errs;
    cbn [enforceClaimViews]; [eapply does_weaken; [apply does_joined|done]|].
  apply does_view; [apply IH|]. intros B. pose proof (viewOf_watched _ _ V B) as W.
  eapply does_bind; [apply does_matchAny|]. intros [auth|] M; cbn in M.
  - eapply does_bind; [by eapply does_allow, allowed_claim|]. intros _ _. apply IH.
  - apply (does_bind _ _ (fun _ => True)); [|intros; apply IH]. apply does_killed; [|done].
    by eapply killable_claimed.
Qed.

(** What the classification of the views tells. *)
Definition classified (gpu : Z) (c : list (processView * Authorization) * list processView)
    : Prop :=
  Forall (fun item => watched a state processes gpu item.1 /\
            grants a state None TokenModeClaimed (v_Info item.1) item.2) c.1 /\
  Forall (fun v => watched a state processes gpu v /\
            refuses a state None TokenModeClaimed (v_Info v)) c.2.

Lemma does_classify gpu views :
  Forall (viewOf gpu) views -> does (classifyViews a state views) (classified gpu).
Proof.
  induction 1 as [|v views V F IH]; cbn [classifyViews];
    [by apply does_ret; split; constructor|].
  apply does_view; [done|]. intros B. pose proof (viewOf_watched _ _ V B) as W.
  eapply does_bind; [apply does_matchAny|]. intros m M.
  eapply does_bind; [apply IH|]. intros c [C1 C2]. apply does_ret.
  destruct m as [auth|]; (split; [|]); cbn; try done; by constructor.
Qed.

Lemma does_skipViews reason views : does (skipViews reason views) (fun _ => True).
Proof.
  induction views as [|v views IH]; cbn [skipViews]; [by apply does_ret|].
  eapply does_bind; [by apply does_skip|]. intros _ _. apply IH.
Qed.

Lemma does_reject gpu other errs items :
  free a state gpu -> watched a state processes gpu other ->
  refuses a state None TokenModeClaimed (v_Info other) ->
  Forall (fun item => watched a state processes gpu item.1 /\
            grants a state None TokenModeClaimed (v_Info item.1) item.2) items ->
  does (rejectViews a gpu errs items) (fun _ => True).
Proof.
  intros E W' X F. revert errs. induction F as [|[v auth] items [W G] F IH]; intros errs;
    cbn [rejectViews]; [eapply does_weaken; [apply does_joined|done]|].
  apply (does_bind _ _ (fun _ => True)); [|intros; apply IH]. apply does_killed; [|done].
  exact (killable_rejected a state processes v gpu other W E W' X).
Qed.

Lemma does_grant gpu claimant claimAuth errs items :
  free a state gpu -> watched a state processes gpu claimant ->
  grants a state None TokenModeClaimed (v_Info claimant) claimAuth ->
  Forall (fun item => watched a state processes gpu item.1 /\
            grants a state None TokenModeClaimed (v_Info item.1) item.2) items ->
  does (grantViews a gpu claimAuth errs items) (fun _ => True).
Proof.
  intros E W' G' F. revert errs. induction F as [|[v auth] items [W G] F IH]; intros errs;
    cbn [grantViews]; [eapply does_weaken; [apply does_joined|done]|].
  destruct (String.eqb_spec (Authorization_TokenHash auth) (Authorization_TokenHash claimAuth)).
  - eapply does_bind; [by eapply does_allow, allowed_claimant|]. intros _ _. apply IH.
  - apply (does_bind _ _ (fun _ => True)); [|intros; apply IH]. apply does_killed; [|done].
    by apply (killable_outclaimed a state processes v gpu claimant auth claimAuth).
Qed.

Lemma does_claim gpu auth :
  claimable a state processes gpu auth ->
  does (decide_ (mkDecision GPUProcess_zero ProcInfo_zero Claim "claimed" ""
    (Authorization_ID auth) "" (Authorization_Holder auth) (Authorization_TokenHash auth)
    (newClaim a gpu auth))) (fun _ => True).
Proof. intros J p. split; [|done]. by apply rtc_once, step_claim. Qed.

Lemma does_unclaimed gpu views :
  free a state gpu -> Forall (viewOf gpu) views ->
  does (enforceUnclaimed a state gpu views) (fun _ => True).
Proof.
  intros E F. eapply does_bind; [by apply does_classify|]. intros [authorized others] [C1 C2].
  destruct authorized as [|[v claimAuth] authorized]; [apply does_skipViews|].
  pose proof C1 as [[W G] _]%Forall_cons. destruct others as [|other others].
  - eapply does_bind; [apply does_claim; split; [done|by exists v]|]. intros _ _.
    eapply does_bind; [apply does_audit, list_elem_of_In; cbn; tauto|]. intros _ _. by eapply does_grant.
  - apply Forall_cons in C2 as [[W' X] _].
    eapply does_bind; [apply does_audit, list_elem_of_In; cbn; tauto|]. intros _ _.
    eapply does_bind; [apply does_skipViews|]. intros _ _.
    by apply (does_reject gpu other [] ((v, claimAuth) :: authorized)).
Qed.

Lemma does_GPU gpu views :
  Forall (viewOf gpu) views -> does (enforceGPU a state gpu views) (fun _ => True).
Proof.
  intros F. unfold enforceGPU, enforceSoft.
  fold (reservationsOn a state gpu) (leasesOn a state gpu) (claimsOn a state gpu).
  destruct (reservationsOn a state gpu) as [|r rs] eqn:R.
  - destruct (leasesOn a state gpu) as [|l ls] eqn:L.
    + assert (free a state gpu) as E by done.
      destruct (claimsOn a state gpu) as [|claim claims] eqn:C; [by apply does_unclaimed|].
      eapply does_bind; [apply does_claimHas|]. intros [] _; [|by apply does_unclaimed].
      apply does_claimViews; [done| |done]. rewrite C. by left.
    + pose proof (does_leaseViews gpu [] views R) as D. rewrite L in D. by apply D.
  - pose proof (does_hardViews gpu [] views) as D. rewrite R in D.
    eapply does_weaken; [by apply D|done].
Qed.

(** The views the first loop makes are those of sampled processes. *)
Lemma does_sample rest :
  rest ⊆ processes ->
  does (sampleProcesses a state rest) (Forall (sampled a state processes)).
Proof.
  induction rest as [|g rest IH]; intros I; cbn [sampleProcesses]; [by apply does_ret|].
  assert (does (sampleProcesses a state rest) (Forall (sampled a state processes))) as D.
  { apply IH. set_solver. }
  assert (forall d, d_Action d = Skip ->
    does (decide_ d ;; sampleProcesses a state rest) (Forall (sampled a state processes))) as K.
  { intros d S. eapply does_bind; [by apply does_skip|]. by intros _ _. }
  eapply does_bind; [apply does_checkContext|]. intros _ _. cbv zeta.
  destruct (usesGPUResources g) eqn:U; cbn [negb]; [|by apply K].
  destruct (a_Proc a) as [reader|] eqn:P; [|by apply K].
  eapply does_bind; [apply does_tick|]. intros n _.
  destruct (negb _); [by apply K|]. eapply does_bind; [apply does_tick|]. intros n' _.
  destruct (proc_Info reader n' (GPUProcess_PID g)) as [err|info] eqn:Q; [by apply K|].
  assert (sampled a state processes
    (mkView g info (BypassMatch (State_Bypasses state) info (a_now a) (a_BootID a)))) as S.
  { split; [cbn; set_solver|]. split; [done|]. split; [by exists reader, n'|done]. }
  apply (does_bind _ _ (fun _ => True)).
  - destruct (BypassMatch _ _ _ _) eqn:B; [|by apply does_ret].
    apply does_allow. by apply (allowed_bypass _ _ _ _ S).
  - intros _ _. eapply does_bind; [apply D|]. intros views F. apply does_ret.
    by constructor.
Qed.

Lemma viewsOn_viewOf gpu views :
  Forall (sampled a state processes) views -> Forall (viewOf gpu) (viewsOn gpu views).
Proof.
  intros F. apply list.Forall_forall. intros v [E I]%list_elem_of_filter.
  split; [by eapply list.Forall_forall in F|done].
Qed.

Lemma does_GPUs views errs order :
  Forall (sampled a state processes) views ->
  does (enforceGPUs a state views errs order) (fun es => es = [] -> errs = []).
Proof.
  intros F. revert errs. induction order as [|gpu order IH]; intros errs;
    cbn [enforceGPUs]; [by apply does_ret|].
  eapply does_bind; [apply does_checkContext|]. intros _ _.
  eapply does_bind; [eapply does_collect, does_GPU, viewsOn_viewOf; done|]. intros e _.
  eapply does_weaken; [apply IH|]. intros es E ->. by specialize (E eq_refl) as [? ?]%app_nil.
Qed.

Lemma does_release claim :
  claim ∈ State_SoftClaims state ->
  does (decide_ (mkDecision GPUProcess_zero ProcInfo_zero ReleaseClaim
    "claimed GPU has no matching process" "" "" (SoftClaim_ID claim) "" "" SoftClaim_zero))
    (fun _ => True).
Proof. intros J p. split; [|done]. by apply rtc_once, step_release. Qed.

Lemma does_releaseClaims views errs claims :
  claims ⊆ State_SoftClaims state ->
  does (releaseClaims a state views errs claims) (fun _ => errs = []).
Proof.
  revert errs. induction claims as [|claim claims IH]; intros errs I; cbn [releaseClaims];
    [apply does_joined|].
  assert (claims ⊆ State_SoftClaims state) as I' by set_solver.
  eapply does_bind; [apply does_checkContext|]. intros _ _.
  eapply does_bind; [apply does_try, does_claimHas|]. intros [err|[]] _; [|by apply IH|].
  { eapply does_weaken; [by apply IH|]. by intros _ [? ?]%app_nil. }
  eapply does_bind; [apply does_release; set_solver|]. intros _ _.
  eapply does_bind; [apply does_audit, list_elem_of_In; cbn; tauto|]. intros _ _. by apply IH.
Qed.

Lemma does_enforce range : does (enforce a range state processes) (fun _ => True).
Proof.
  eapply does_bind; [by apply does_sample|]. intros views F.
  eapply does_bind; [by apply does_GPUs|]. intros errs _.
  eapply does_weaken; [by apply does_releaseClaims|done].
Qed.

End refines.

(** * What the rows promise

    The same again without the tests of the code: the fields of the rows, and the
    answers of the machine, that let a process use a GPU. *)

(** Some line of the cgroup file names the cgroup or one below it. *)
Definition inCgroup (raw relative absolute : string) : Prop :=
  exists line target, line ∈ Split raw (Ascii.ascii_of_nat 10) /\
    target ∈ [relative; unmounted absolute] /\
    TrimSpace target <> "" /\ TrimSpace (cgroupLinePath line) <> "" /\
    cgroupOf target `prefix_of` cgroupOf (cgroupLinePath line).

(** Two ids of one container: the same, or one begins with the other, which has at least
    twelve characters. *)
Definition oneContainer (x y : string) : Prop :=
  let x := ToLower (TrimSpace x) in let y := ToLower (TrimSpace y) in
  x <> "" /\ y <> "" /\
  (x = y \/ exists rest, x = y +:+ rest /\ 12 <= slen y \/ y = x +:+ rest /\ 12 <= slen x).

Definition unexpired (now expiresAt : time) : Prop := expiresAt = 0 \/ now < expiresAt.

Lemma unexpired_spec now t : unexpired now t <-> timeIsSet t && negb (Before now t) = false.
Proof.
  unfold unexpired, timeIsSet, IsZero, Before.
  destruct (Z.eqb_spec t 0), (Z.ltb_spec now t); cbn; split; try done; try lia; auto.
Qed.

Lemma sameContainer_spec x y : sameContainer x y = true <-> oneContainer x y.
Proof.
  unfold sameContainer, oneContainer. set (x' := ToLower (TrimSpace x)). set (y' := ToLower (TrimSpace y)).
  destruct (String.eqb_spec x' ""); [split; [done|tauto]|].
  destruct (String.eqb_spec y' ""); [split; [done|tauto]|]. cbn [orb].
  destruct (String.eqb_spec x' y'); [tauto|].
  assert (forall p q, slen p <= slen q -> p <> q -> forall rest, p <> q +:+ rest) as Long.
  { intros p q L N rest E. apply N. rewrite E in L |- *. rewrite slen_app in L.
    assert (rest = "") as -> by (destruct rest; [done|]; unfold slen in L; cbn [String.length] in L; lia).
    by rewrite string_app_nil_r. }
  destruct (Z.ltb_spec (slen y') (slen x')) as [L|L]; rewrite andb_true_iff, Z.leb_le, HasPrefix_iff.
  - split.
    + intros [P [rest E]]. split; [done|]. split; [done|]. right. exists rest. by left.
    + intros (_ & _ & [E|(rest & [[E P]|[E P]])]); [done|eauto|]. destruct (Long y' x' ltac:(lia) ltac:(done) rest E).
  - split.
    + intros [P [rest E]]. split; [done|]. split; [done|]. right. exists rest. by right.
    + intros (_ & _ & [E|(rest & [[E P]|[E P]])]); [done| |eauto]. destruct (Long x' y' ltac:(lia) ltac:(done) rest E).
Qed.

Section rights.
Context (a : Authorizer) (state : State).

(** A process of the sample that uses its GPU, and what /proc told of it. *)
Definition present (processes : list GPUProcess) (v : processView) : Prop :=
  v_Process v ∈ processes /\
  (GPUProcess_MemBytesUnknown (v_Process v) = true \/ 0 < GPUProcess_MemBytes (v_Process v)) /\
  exists reader n, a_Proc a = Some reader /\ proc_Info reader n (GPUProcess_PID (v_Process v)) = inr (v_Info v).

(** A live bypass rule names the process. *)
Definition exemptBy (rule : BypassRule) (info : ProcInfo) : Prop :=
  BypassRule_Revoked rule = false /\ a_now a < BypassRule_ExpiresAt rule /\
  (BypassRule_Type rule = "pid" /\ a_BootID a <> "" /\ BypassRule_BootID rule = a_BootID a /\
     BypassRule_PID rule = ProcInfo_PID info /\ BypassRule_StartTime rule <> 0 /\
     BypassRule_StartTime rule = ProcInfo_StartTime info \/
   BypassRule_Type rule = "command" /\ BypassRule_UID rule = 0 /\ ProcInfo_UID info = 0 /\
     BypassRule_Command rule <> "" /\ BypassRule_Command rule = ProcInfo_CommandPath info).
Definition exempt (info : ProcInfo) : Prop :=
  exists rule, rule ∈ State_Bypasses state /\ exemptBy rule info.

(** The reservation holds now. *)
Definition reservationInForce (r : Reservation) : Prop :=
  Reservation_Active r = true /\ Reservation_Revoked r = false /\
  ReservationStartsAt r <= a_now a < Reservation_ExpiresAt r.
Definition reservedNow (gpu : Z) : Prop :=
  exists r, r ∈ State_Reservations state /\ Reservation_GPU r = gpu /\ reservationInForce r.
Definition leaseInForce (lease : Lease) : Prop :=
  Lease_Active lease = true /\ a_now a < Lease_ExpiresAt lease.
Definition leasedNow (gpu : Z) : Prop :=
  exists lease, lease ∈ State_Leases state /\ Lease_GPU lease = gpu /\ leaseInForce lease.

(** The token row of a hash: the last one, if there were several. *)
Definition tokenOf (hash : string) (token : Token) : Prop :=
  Token_Hash token = hash /\ exists before after, State_Tokens state = before ++ token :: after /\
    forall later, later ∈ after -> Token_Hash later <> hash.
(** The authorization holds now, and so does its token in the version it was made for. *)
Definition authorizationInForce (row : Authorization) (token : Token) : Prop :=
  Authorization_Active row = true /\ Authorization_Revoked row = false /\
  unexpired (a_now a) (Authorization_ExpiresAt row) /\
  tokenOf (Authorization_TokenHash row) token /\ Token_Revoked token = false /\
  unexpired (a_now a) (Token_ExpiresAt token) /\
  (Token_Managed token = true -> Authorization_TokenVersion row = Token_Version token).
(** A token that claims free GPUs. *)
Definition claiming (token : Token) : Prop :=
  normalizeTokenMode (Token_Mode token) = "claimed" \/ normalizeTokenMode (Token_Mode token) = "managed".

(** An answer of the machine: the name of the container's object matches. *)
Definition nameMatches (answer : error + string) (test : string -> bool) (b : bool) : Prop :=
  match answer with
  | inr name => b = test name
  | inl err => errors_Is err errRuntimeNotFound = true /\ b = false
  end.
(** Whether the process is in the scope of an authorization, by its kind, as far as the
    machine answered. *)
Definition inScope (row : Authorization) (info : ProcInfo) (b : bool) : Prop :=
  let mode := Authorization_Mode row in
  mode = "bare" /\ (b = true <-> inCgroup (ProcInfo_Cgroup info) (Authorization_CgroupRel row) (Authorization_CgroupPath row)) \/
  mode = "docker" /\ Authorization_ContainerPattern row = "" /\
    (b = true <-> oneContainer (ProcInfo_ContainerID info) (Authorization_ContainerID row)) \/
  mode = "docker" /\ Authorization_ContainerPattern row <> "" /\
    (ProcInfo_ContainerID info = "" /\ b = false \/ ProcInfo_ContainerID info <> "" /\
     exists r n, a_Runtime a = Some r /\ nameMatches (DockerContainerName r n (ProcInfo_ContainerID info))
       (wildcardMatch (Authorization_ContainerPattern row)) b) \/
  mode = "k8s" /\
    (ProcInfo_ContainerID info = "" /\ b = false \/ ProcInfo_ContainerID info <> "" /\
     exists r n, a_Runtime a = Some r /\ nameMatches (NamespaceForContainer r n (ProcInfo_ContainerID info))
       (wildcardMatch (Authorization_Namespace row)) b) \/
  mode = "user" /\ 0 <= ProcInfo_UID info /\
    (0 <= Authorization_UID row /\ (b = true <-> ProcInfo_UID info = Authorization_UID row) \/
     Authorization_UID row < 0 /\ exists name,
       (ProcInfo_Username info = name /\ name <> "" \/
        ProcInfo_Username info = "" /\ exists n, a_UsernameLookup a n (ProcInfo_UID info) = inr name) /\
       (b = true <-> Authorization_Username row <> "" /\ wildcardMatch (Authorization_Username row) name = true)) \/
  mode <> "bare" /\ mode <> "docker" /\ mode <> "k8s" /\ mode <> "user" /\ b = false.
Definition inLease (lease : Lease) (info : ProcInfo) (b : bool) : Prop :=
  let mode := Lease_Mode lease in
  mode = "bare" /\ (b = true <-> inCgroup (ProcInfo_Cgroup info) (Lease_CgroupRel lease) (Lease_CgroupPath lease)) \/
  mode = "docker" /\ (b = true <-> oneContainer (ProcInfo_ContainerID info) (Lease_ContainerID lease)) \/
  mode = "k8s" /\
    (ProcInfo_ContainerID info = "" /\ b = false \/ ProcInfo_ContainerID info <> "" /\
     exists r n, a_Runtime a = Some r /\ nameMatches (NamespaceForContainer r n (ProcInfo_ContainerID info))
       (fun namespace => namespace =s Lease_Namespace lease) b) \/
  mode <> "bare" /\ mode <> "docker" /\ mode <> "k8s" /\ b = false.

(** ** The tests of the code decide them *)

Lemma resolved_answers format id answer test b :
  answers (resolved format id answer test) b -> nameMatches answer test b.
Proof.
  unfold resolved, answers, result, nameMatches. intros [p E]. destruct answer as [err|name]; [|by injection E as <-].
  destruct (errors_Is err errRuntimeNotFound); [by injection E as <-|done].
Qed.
Lemma ret_answers {A} (x y : A) : answers (ret x) y -> y = x.
Proof. intros [p E]. by injection E. Qed.
Lemma tick_answers {A} (k : nat -> M Pass A) x : answers (n ← tick; k n) x -> exists n, answers (k n) x.
Proof. intros [p E]. exists (p_tick p), (final tick p). exact E. Qed.

Lemma scope_answers row info b : answers (authorizationScopeMatchesForEviction a row info) b -> inScope row info b.
Proof.
  unfold authorizationScopeMatchesForEviction, inScope. cbv zeta. intros An.
  destruct (String.eqb_spec (Authorization_Mode row) ModeBare) as [E|N1].
  { left. split; [exact E|]. apply ret_answers in An as ->. apply bare_scope_is_subtree. }
  destruct (String.eqb_spec (Authorization_Mode row) ModeDocker) as [E|N2].
  { right. destruct (String.eqb_spec (Authorization_ContainerPattern row) "") as [Ep|Np]; cbn [negb] in An.
    - left. split; [exact E|]. split; [done|]. apply ret_answers in An as ->. apply sameContainer_spec.
    - right; left. split; [exact E|]. split; [done|].
      destruct (String.eqb_spec (ProcInfo_ContainerID info) "") as [Ec|Nc]; [apply ret_answers in An as ->; auto|right].
      destruct (a_Runtime a) as [r|]; [|by destruct An]. apply tick_answers in An as [n An].
      apply resolved_answers in An. eauto 6. }
  destruct (String.eqb_spec (Authorization_Mode row) ModeK8s) as [E|N3].
  { do 3 right; left. split; [exact E|].
    destruct (String.eqb_spec (ProcInfo_ContainerID info) "") as [Ec|Nc]; [apply ret_answers in An as ->; auto|right].
    destruct (a_Runtime a) as [r|]; [|by destruct An]. apply tick_answers in An as [n An].
    apply resolved_answers in An. eauto 6. }
  destruct (String.eqb_spec (Authorization_Mode row) ModeUser) as [E|N4].
  { do 4 right; left. split; [exact E|]. unfold fail_if in An.
    destruct (Z.ltb_spec (ProcInfo_UID info) 0); [by destruct An|]. split; [done|].
    assert (forall A (k : M Pass A) x, answers (ret tt ;; k) x -> answers k x) as Skip by (intros A k x [p X]; by exists p).
    apply Skip in An. destruct (Z.leb_spec 0 (Authorization_UID row)).
    { left. split; [done|]. apply ret_answers in An as ->. apply Z.eqb_eq. }
    right. split; [done|].
    assert (forall name, b = (Authorization_Username row <>s "") && wildcardMatch (Authorization_Username row) name ->
      (b = true <-> Authorization_Username row <> "" /\ wildcardMatch (Authorization_Username row) name = true)) as W.
    { intros name ->. by rewrite andb_true_iff, negb_true_iff, String.eqb_neq. }
    destruct (String.eqb_spec (ProcInfo_Username info) "") as [Eu|Nu].
    - destruct An as [p An]. unfold result, mbind, M_bind, bind, tick in An.
      destruct (a_UsernameLookup a (p_tick p) (ProcInfo_UID info)) as [err|name] eqn:L; [done|].
      injection An as An. exists name. split; [|by apply W]. right. eauto.
    - exists (ProcInfo_Username info). split; [by left|]. apply W. by destruct An as [p [= <-]]. }
  do 5 right. apply ret_answers in An. auto.
Qed.
Lemma lease_answers lease info b : answers (leaseScopeMatchesForEviction a lease info) b -> inLease lease info b.
Proof.
  unfold leaseScopeMatchesForEviction, inLease. cbv zeta. intros An.
  destruct (String.eqb_spec (Lease_Mode lease) ModeBare) as [E|N1].
  { left. split; [exact E|]. apply ret_answers in An as ->. apply bare_scope_is_subtree. }
  destruct (String.eqb_spec (Lease_Mode lease) ModeDocker) as [E|N2].
  { right; left. split; [exact E|]. apply ret_answers in An as ->. apply sameContainer_spec. }
  destruct (String.eqb_spec (Lease_Mode lease) ModeK8s) as [E|N3].
  { right; right; left. split; [exact E|].
    destruct (String.eqb_spec (ProcInfo_ContainerID info) "") as [Ec|Nc]; [apply ret_answers in An as ->; auto|right].
    destruct (a_Runtime a) as [r|]; [|by destruct An]. apply tick_answers in An as [n An].
    apply resolved_answers in An. eauto 6. }
  do 3 right. apply ret_answers in An. auto.
Qed.

Lemma bypass_exempt info : BypassMatch (State_Bypasses state) info (a_now a) (a_BootID a) = true <-> exempt info.
Proof.
  unfold BypassMatch, exempt. rewrite existsb_exists.
  enough (forall rule, bypassRuleMatches rule info (a_now a) (a_BootID a) = true <-> exemptBy rule info) as W.
  { split; intros (rule & I & M); exists rule; rewrite list_elem_of_In in *; split; try done; by apply W. }
  intros rule. unfold bypassRuleMatches, exemptBy, Before.
  destruct (BypassRule_Revoked rule); cbn [orb]; [split; [done|by intros [? _]]|].
  destruct (Z.ltb_spec (a_now a) (BypassRule_ExpiresAt rule)); cbn [negb]; [|split; [done|intros (_ & ? & _); lia]].
  destruct (String.eqb_spec (BypassRule_Type rule) BypassPID) as [E|N].
  { rewrite E, !andb_true_iff, !negb_true_iff, !String.eqb_eq, !Z.eqb_eq, Z.eqb_neq, String.eqb_neq.
    split; [intros; destruct_and?; auto 10|]. intros (_ & _ & [W|(W & _)]); [destruct_and?; auto 10|done]. }
  destruct (String.eqb_spec (BypassRule_Type rule) BypassCommand) as [E|N'].
  { rewrite E, !andb_true_iff, !negb_true_iff, !String.eqb_eq, !Z.eqb_eq, String.eqb_neq.
    split; [intros; destruct_and?; auto 10|]. intros (_ & _ & [(W & _)|W]); [done|destruct_and?; auto 10]. }
  split; [done|]. by intros (_ & _ & [[W _]|[W _]]).
Qed.

Lemma ReservationActiveAt_spec r : ReservationActiveAt r (a_now a) = true <-> reservationInForce r.
Proof.
  unfold ReservationActiveAt, reservationInForce, Before.
  rewrite !andb_true_iff, !negb_true_iff, Z.ltb_ge, Z.ltb_lt. tauto.
Qed.
Lemma reservationsOn_spec gpu r : r ∈ reservationsOn a state gpu <->
  r ∈ State_Reservations state /\ Reservation_GPU r = gpu /\ reservationInForce r.
Proof.
  unfold reservationsOn, activeReservationsForGPU.
  rewrite list_elem_of_filter, andb_true_iff, Z.eqb_eq, ReservationActiveAt_spec. tauto.
Qed.
Lemma leasesOn_spec gpu l : l ∈ leasesOn a state gpu <->
  l ∈ State_Leases state /\ Lease_GPU l = gpu /\ leaseInForce l.
Proof.
  unfold leasesOn, activeLeasesForGPU, leaseInForce, Before.
  rewrite list_elem_of_filter, !andb_true_iff, Z.eqb_eq, Z.ltb_lt. tauto.
Qed.
Lemma none_reserved gpu : reservationsOn a state gpu = [] -> ~ reservedNow gpu.
Proof. intros E (r & W). apply reservationsOn_spec in W. rewrite E in W. by apply elem_of_nil in W. Qed.
Lemma none_leased gpu : leasesOn a state gpu = [] -> ~ leasedNow gpu.
Proof. intros E (l & W). apply leasesOn_spec in W. rewrite E in W. by apply elem_of_nil in W. Qed.

(** The index of a pass holds the last row of each hash. *)
Definition tokensIndex (tokens : list Token) : gmap string Token :=
  foldl (fun index token => <[Token_Hash token := token]> index) ∅ tokens.
Lemma tokensIndex_spec tokens hash token : tokensIndex tokens !! hash = Some token <->
  Token_Hash token = hash /\ exists before after, tokens = before ++ token :: after /\
    forall later, later ∈ after -> Token_Hash later <> hash.
Proof.
  unfold tokensIndex. induction tokens as [|t tokens IH] using rev_ind.
  { cbn. rewrite lookup_empty. split; [done|]. intros (_ & before & after & E & _). by destruct before. }
  rewrite foldl_app. cbn [foldl]. destruct (decide (Token_Hash t = hash)) as [Eh|Nh].
  - rewrite <- Eh at 1. rewrite lookup_insert_eq. split.
    + intros [= <-]. split; [done|]. exists tokens, []. split; [done|]. by intros later I%elem_of_nil.
    + intros (_ & before & after & E & L). destruct after as [|x after _] using rev_ind.
      * by apply app_inj_tail in E as [_ ->].
      * rewrite app_comm_cons, app_assoc in E. apply app_inj_tail in E as [_ ->].
        destruct (L x); [|done]. apply elem_of_app. right. by left.
  - rewrite lookup_insert_ne by done. rewrite IH. split; intros (Et & before & after & E & L); (split; [done|]).
    + exists before, (after ++ [t]). rewrite E, <- app_assoc. split; [done|].
      intros later [I|I%list_elem_of_singleton]%elem_of_app; [by apply L|by subst].
    + destruct after as [|x after _] using rev_ind.
      * apply app_inj_tail in E as [_ <-]. done.
      * rewrite app_comm_cons, app_assoc in E. apply app_inj_tail in E as [-> _].
        exists before, after. split; [done|]. intros later I. apply L, elem_of_app. by left.
Qed.

(** What a row that may be considered fulfils, when the tokens are looked up in the
    index of the state. *)
Lemma eligible_spec b f mode row auth : a_now b = a_now a ->
  a_activeTokens b = Some (tokensIndex (State_Tokens state)) ->
  eligible b state f mode row = Some auth -> exists token,
    authorizationInForce row token /\ auth = Authorization_set_TokenMode (normalizeTokenMode (Token_Mode token)) row /\
    match f with Some f => mem_bool f (Authorization_TokenHash row) = true | None => True end /\
    (mode = TokenModeClaimed -> claiming token).
Proof.
  intros En Ei. unfold eligible, tokenFor. rewrite Ei, En. unfold authorizationExpired.
  destruct (Authorization_Active row) eqn:Ac; cbn [negb orb]; [|done].
  destruct (Authorization_Revoked row) eqn:Re; cbn [orb]; [done|].
  destruct (timeIsSet _ && negb _) eqn:Ex; [done|]. apply unexpired_spec in Ex.
  destruct (match f with Some _ => _ | None => _ end) eqn:Fi; [done|].
  destruct (_ !! _) as [token|] eqn:T; [|done]. apply tokensIndex_spec in T.
  destruct (Token_Revoked token) eqn:Rt; cbn [orb]; [done|].
  destruct (timeIsSet (Token_ExpiresAt token) && _) eqn:Et; [done|]. apply unexpired_spec in Et.
  destruct (Token_Managed token && _) eqn:Ma; [done|]. cbv zeta.
  destruct (_ && negb (_ && _)) eqn:Mo; [done|]. intros [= <-]. exists token. split.
  { repeat (split; [done|]). intros M. rewrite M in Ma. apply negb_false_iff in Ma. by apply Z.eqb_eq. }
  split; [done|]. split; [destruct f; [by apply negb_false_iff in Fi|done]|].
  intros ->. unfold claiming. cbn [negb andb String.eqb] in Mo.
  destruct (String.eqb_spec (normalizeTokenMode (Token_Mode token)) TokenModeClaimed); [by left|right].
  change (TokenModeClaimed =s "") with false in Mo. change (TokenModeClaimed =s TokenModeClaimed) with true in Mo.
  cbn [negb andb] in Mo. apply negb_false_iff in Mo. by apply String.eqb_eq.
Qed.

(** The reasons to let a process use a GPU, on the rows. *)
Inductive permitted (processes : list GPUProcess) : Decision -> Prop :=
  | permitted_exempt v (P : present processes v) (X : exempt (v_Info v)) :
      permitted processes (decision Allow "bypass" v)
  | permitted_reservation v r row token auth (P : present processes v) (N : ~ exempt (v_Info v))
      (Ir : r ∈ State_Reservations state) (G : Reservation_GPU r = GPUProcess_GPU (v_Process v))
      (F : reservationInForce r)
      (Ia : row ∈ State_Authorizations state) (H : Authorization_TokenHash row = Reservation_TokenHash r)
      (A : authorizationInForce row token) (S : inScope row (v_Info v) true)
      (E : auth = Authorization_set_TokenMode (normalizeTokenMode (Token_Mode token)) row) :
      permitted processes (mkDecision (v_Process v) (v_Info v) Allow "authorization" ""
        (Authorization_ID auth) "" (Authorization_Holder auth) (Authorization_TokenHash auth) SoftClaim_zero)
  | permitted_lease v lease holder (P : present processes v) (N : ~ exempt (v_Info v))
      (R : ~ reservedNow (GPUProcess_GPU (v_Process v)))
      (Il : lease ∈ State_Leases state) (G : Lease_GPU lease = GPUProcess_GPU (v_Process v))
      (F : leaseInForce lease) (S : inLease lease (v_Info v) true) :
      permitted processes (mkDecision (v_Process v) (v_Info v) Allow "lease" (Lease_ID lease) "" "" holder ""
        SoftClaim_zero)
  | permitted_claim v claimID row token auth (P : present processes v) (N : ~ exempt (v_Info v))
      (R : ~ reservedNow (GPUProcess_GPU (v_Process v))) (L : ~ leasedNow (GPUProcess_GPU (v_Process v)))
      (C : claimID = "" \/ exists claim, claim ∈ State_SoftClaims state /\ claimID = SoftClaim_ID claim /\
         SoftClaim_GPU claim = GPUProcess_GPU (v_Process v) /\
         SoftClaim_TokenHash claim = Authorization_TokenHash row)
      (Ia : row ∈ State_Authorizations state) (A : authorizationInForce row token) (M : claiming token)
      (S : inScope row (v_Info v) true)
      (E : auth = Authorization_set_TokenMode (normalizeTokenMode (Token_Mode token)) row) :
      permitted processes (mkDecision (v_Process v) (v_Info v) Allow "claimed" "" (Authorization_ID auth)
        claimID (Authorization_Holder auth) (Authorization_TokenHash auth) SoftClaim_zero).

Lemma tokenFilter_of rs h : mem_bool (tokenFilterOf rs) h = true ->
  exists r, r ∈ rs /\ Reservation_TokenHash r = h.
Proof.
  unfold tokenFilterOf.
  enough (forall f, mem_bool (foldl (fun f r => <[Reservation_TokenHash r := true]> f) f rs) h = true ->
    mem_bool f h = true \/ exists r, r ∈ rs /\ Reservation_TokenHash r = h) as K.
  { intros [E|E]%K; [|done]. unfold mem_bool in E. by rewrite lookup_empty in E. }
  induction rs as [|r rs IH]; intros f; cbn [foldl]; [by left|].
  intros [E|(r' & I & E)]%IH; [|right; exists r'; split; [by right|done]].
  unfold mem_bool in E. destruct (decide (Reservation_TokenHash r = h)) as [Eh|Nh].
  - right. exists r. split; [by left|done].
  - left. by rewrite lookup_insert_ne in E.
Qed.

(** The authorizer of a pass, with the index of the state. *)
Definition passing (b : Authorizer) : Prop := b = withPlan (withIndex state a).

Lemma passing_present b processes v : passing b -> sampled b state processes v ->
  present processes v /\ (v_Bypassed v = true <-> exempt (v_Info v)).
Proof.
  intros -> (I & U & R & ->). split; [|apply bypass_exempt]. split; [done|]. split; [|exact R].
  unfold usesGPUResources in U. by rewrite orb_true_iff, Z.ltb_lt in U.
Qed.
Lemma passing_lease lease info x :
  answers (leaseScopeMatchesForEviction (withPlan (withIndex state a)) lease info) x -> inLease lease info x.
Proof. exact (lease_answers lease info x). Qed.
Lemma passing_scope row info x :
  answers (authorizationScopeMatchesForEviction (withPlan (withIndex state a)) row info) x -> inScope row info x.
Proof. exact (scope_answers row info x). Qed.
Lemma passing_grants b f mode info auth : passing b -> grants b state f mode info auth -> exists row token,
  row ∈ State_Authorizations state /\ authorizationInForce row token /\ inScope row info true /\
  auth = Authorization_set_TokenMode (normalizeTokenMode (Token_Mode token)) row /\
  match f with Some f => mem_bool f (Authorization_TokenHash row) = true | None => True end /\
  (mode = TokenModeClaimed -> claiming token).
Proof.
  intros -> (row & I & El & An). apply eligible_spec in El as (token & A & E & F & M); [|done..].
  exists row, token. split; [done|]. split; [done|]. split; [|done].
  unfold authorizationMatchesChecked in An. destruct (_ || _); [by apply ret_answers in An|].
  apply passing_scope in An. by rewrite E in An.
Qed.
Lemma allowed_permitted b processes d : passing b -> allowed b state processes d -> permitted processes d.
Proof.
  intros Pb J. destruct J as [v S B|gpu v auth W N G|gpu v lease holder W N I G|gpu v claim auth W F C G|gpu v auth W F G].
  { destruct (passing_present _ _ _ Pb S) as [P X]. constructor; [done|by apply X]. }
  all: destruct W as (S & B & Eg); destruct (passing_present _ _ _ Pb S) as [P X];
    assert (~ exempt (v_Info v)) as Nx by (rewrite <- X; by rewrite B); subst gpu.
  - destruct (passing_grants _ _ _ _ _ Pb G) as (row & token & Ia & A & Sc & E & Fi & _).
    apply tokenFilter_of in Fi as (r & Ir & H). unfold passing in Pb; subst b. apply reservationsOn_spec in Ir as (Ir & Eg & F).
    by eapply permitted_reservation.
  - assert (leaseMatchesChecked b lease (v_Info v) = leaseScopeMatchesForEviction b lease (v_Info v) \/
      leaseMatchesChecked b lease (v_Info v) = ret false) as [E|E] by (unfold leaseMatchesChecked; destruct (_ || _); auto);
      rewrite E in G; [|by apply ret_answers in G].
    unfold passing in Pb; subst b. apply passing_lease in G. apply leasesOn_spec in I as (I & Eg & F).
    eapply permitted_lease; try done. by apply none_reserved.
  - destruct (passing_grants _ _ _ _ _ Pb G) as (row & token & Ia & A & Sc & E & Fi & M). unfold passing in Pb; subst b.
    destruct F as [Fr Fl]. eapply (permitted_claim _ v (SoftClaim_ID claim) row token); try done;
      [by apply none_reserved|by apply none_leased| |by apply M]. right. exists claim.
    unfold claimsOn, activeSoftClaimsForGPU in C. rewrite list_elem_of_filter, andb_true_iff, Z.eqb_eq in C.
    destruct C as [[Eg _] C]. split; [done|]. split; [done|]. split; [done|].
    unfold singleton, mem_bool in Fi. destruct (decide (SoftClaim_TokenHash claim = Authorization_TokenHash row)) as [|Ne]; [done|].
    by rewrite lookup_singleton_ne in Fi.
  - destruct (passing_grants _ _ _ _ _ Pb G) as (row & token & Ia & A & Sc & E & _ & M). unfold passing in Pb; subst b.
    destruct F as [Fr Fl]. eapply (permitted_claim _ v "" row token); try done;
      [by apply none_reserved|by apply none_leased|by left|by apply M].
Qed.
End rights.
