(* ===== verification/EnforceSafety.v ===== *)
(** Theorems on the enforcement pass: whom it kills, whom it allows, and what
    that makes of a reserved GPU. *)

From S2P Require Export Enforce EnforceRefine.

(** A machine for the witnesses of the enforcement theorems: GPU 0 is reserved by
    ann until 2000 and her job runs in the cgroup /job; bob is on GPU 0 too. *)

Definition sample_state : State := mkState false ""
  [mkToken "t1" "hash-ann" "" "ann" "reserved" 1 false 10 2000 false]
  [mkReservation "r1" "" "" 0 "hash-ann" "ann" "training" 10 10 2000 true false]
  [mkAuthorization "a1" "bare" "hash-ann" "reserved" 1 "ann" 0 0 "" [] 10 "" "/job" "" "" ""
     10 2000 true false]
  [] [] [] [].

Definition sample_processes : list GPUProcess :=
  [mkGPUProcess 0 10 "train" 4096 false; mkGPUProcess 0 11 "mine" 4096 false;
   mkGPUProcess 1 11 "mine" 4096 false; mkGPUProcess 0 12 "idle" 0 false].

Definition sample_info (pid : Z) : ProcInfo :=
  mkProcInfo pid (100 + pid) 1000 "" [] "" (if pid =? 10 then "0::/job/step" else "0::/bob") "" "".

Definition sample_reader : ProcReader :=
  mkProcReader (fun _ _ => true) (fun _ pid => inr (sample_info pid)).

(** At the instant [now], with a killer that always succeeds. *)
Definition sample_authorizer (now : time) : Authorizer :=
  mkAuthorizer (fun _ => None) (Some sample_reader) None (Some (fun _ _ _ => None))
    (Some (fun _ _ => None)) (fun _ _ => inr "bob") "" now false false None.

Definition sample_pass (now : time) : Pass :=
  final (Enforce (sample_authorizer now) id id sample_state sample_processes) newPass.

(** A claimed authorization that was revoked, for a container no process of the
    sample runs in. *)
Definition sample_stale_state : State := mkState false ""
  [mkToken "t2" "hash-eve" "" "eve" "claimed" 1 false 10 0 false] []
  [mkAuthorization "a2" "docker" "hash-eve" "claimed" 1 "eve" 0 0 "" [] 0 "" "" "deadbeefcafe" ""
     "" 10 0 true true]
  [] [] [] [].

(** * Invariants of the steps *)

Lemma rtc_invariant (R : Pass -> Pass -> Prop) (I : Pass -> Prop) p p' :
  (forall q q', R q q' -> I q -> I q') -> rtc R p p' -> I p -> I p'.
Proof. intros K. induction 1; auto. eauto. Qed.

(** The authorizer that plans a pass, and the one that plans an eviction. *)
Definition planner (state : State) (a : Authorizer) : Authorizer :=
  withPlan (withIndex state a).

Definition targetPID (k : pendingKill) : Z := GPUProcess_PID (v_Process (k_view k)).

(** The kills planned so far are few, of distinct pids, justified by [J], and no
    call of the killer was made. *)
Record planned (J : processView -> Prop) (p : Pass) : Prop := mkPlanned
  { planned_few : (length (p_pending p) <= 8)%nat;
    planned_distinct : NoDup (map targetPID (p_pending p));
    planned_justified : Forall (fun k => J (k_view k)) (p_pending p);
    planned_quiet : p_killed p = [] }.

Lemma planned_start J : planned J newPass.
Proof. by split; cbn; [lia|constructor|constructor|]. Qed.

(** Nothing but the plan matters. *)
Lemma planned_same J p q :
  p_pending q = p_pending p -> p_killed q = p_killed p -> planned J p -> planned J q.
Proof. intros E1 E2 [? ? ? ?]. split; congruence. Qed.

(** The pass once a pid is marked as targeted. *)
Definition marked (pid : Z) (p : Pass) : Pass := final (target pid) p.

Lemma killOnce_final b v reason leaseID authID holder tokenHash p :
  final (killOnce b v reason leaseID authID holder tokenHash) p =
  if mem_gpu (p_targeted p) (GPUProcess_PID (v_Process v))
  then final (decide_ (decision Skip "pid already targeted by enforcement" v)) p
  else final (kill b v reason leaseID authID holder tokenHash)
         (marked (GPUProcess_PID (v_Process v)) p).
Proof.
  unfold killOnce, final, mbind, M_bind, bind, get. by destruct (mem_gpu _ _).
Qed.

Section kill.
Context (a : Authorizer) (J : processView -> Prop).

(** The planner, or a dry run, never reaches the killer. *)
Definition harmless : Prop := a_planning a && negb (a_DryRun a) = true \/ a_DryRun a = true.

Lemma planned_kill v reason leaseID authID holder tokenHash p :
  harmless -> J v -> ~ GPUProcess_PID (v_Process v) ∈ map targetPID (p_pending p) ->
  planned J p -> planned J (final (kill a v reason leaseID authID holder tokenHash) p).
Proof.
  intros Hm Jv N P. unfold kill, final, mbind, M_bind, bind, get.
  destruct (a_planning a && negb (a_DryRun a)) eqn:Pl; cbn [andb].
  - destruct (Z.leb_spec maxKillsPerEnforcementPass (llen (p_pending p))) as [|L].
    { by apply (planned_same J p). }
    destruct P as [F D Q K]. unfold llen, maxKillsPerEnforcementPass in L. split; cbn.
    + rewrite length_app. cbn. lia.
    + rewrite map_app. apply NoDup_app. split; [done|]. split; [|by repeat constructor; set_solver].
      intros x X E%list_elem_of_singleton. cbn in E. by subst x.
    + apply Forall_app. by repeat constructor.
    + done.
  - destruct Hm as [Hm|D]; [congruence|]. unfold performKill, auditKill, try. rewrite D.
    destruct (a_Killer a); by apply (planned_same J p).
Qed.

(** A pid is targeted at most once. *)
Record aimed (J' : processView -> Prop) (p : Pass) : Prop := mkAimed
  { aimed_planned : planned J' p;
    aimed_targets : forall k, k ∈ p_pending p -> p_targeted p !! targetPID k = Some true }.

Lemma aimed_killOnce v reason leaseID authID holder tokenHash p :
  harmless -> J v -> aimed J p ->
  aimed J (final (killOnce a v reason leaseID authID holder tokenHash) p).
Proof.
  intros Hm Jv [P T]. rewrite killOnce_final. set (pid := GPUProcess_PID (v_Process v)).
  destruct (mem_gpu (p_targeted p) pid) eqn:M.
  { split; [by apply (planned_same J p)|done]. }
  set (p1 := marked pid p).
  assert (~ pid ∈ map targetPID (p_pending p1)) as N.
  { intros (k & E & I)%list_elem_of_fmap. apply T in I. rewrite <- E in I.
    unfold mem_gpu in M. by rewrite I in M. }
  split; [apply planned_kill; try done; by apply (planned_same J p)|].
  assert (forall k, k ∈ p_pending p -> p_targeted p1 !! targetPID k = Some true) as T1.
  { intros k I. cbn. destruct (decide (pid = targetPID k)) as [<-|D].
    - by rewrite lookup_insert_eq.
    - rewrite lookup_insert_ne by done. by apply T. }
  unfold kill, final, mbind, M_bind, bind, get.
  destruct (a_planning a && negb (a_DryRun a)) eqn:Pl; cbn [andb].
  - destruct (_ <=? _); [exact T1|]. intros k [I|I%list_elem_of_singleton]%elem_of_app;
      [by apply T1|]. subst k. cbn. by rewrite lookup_insert_eq.
  - unfold performKill, auditKill, try. destruct Hm as [Hm|D]; [congruence|]. rewrite D.
    destruct (a_Killer a); exact T1.
Qed.

End kill.

Lemma aimed_step a state processes p q :
  harmless a -> step a state processes p q ->
  aimed (killable a state processes) p -> aimed (killable a state processes) q.
Proof.
  intros Hm S P. destruct S; try by (destruct P as [P T]; split; [by eapply planned_same, P|]).
  by apply aimed_killOnce.
Qed.

Lemma harmless_planner state a : harmless (planner state a).
Proof. unfold harmless. cbn. destruct (a_DryRun a); auto. Qed.

(** * Executing a plan *)

Section execute.
Context (a : Authorizer).

(** The killer is reached for this request: there is one, the run is not dry,
    and the sampled process was found still to be on its GPU. *)
Definition struck (k : pendingKill) : Prop :=
  a_DryRun a = false /\ a_Killer a <> None /\
  forall validate, a_ValidateKill a = Some validate ->
    exists n, validate n (v_Process (k_view k)) = None.

Lemma executeKill_spec k p :
  let p' := final (executeKill a k) p in
  p_decisions p' = p_decisions p /\ p_pending p' = p_pending p /\
  (p_killed p' = p_killed p \/ struck k /\ p_killed p' = p_killed p ++ [v_Info (k_view k)]).
Proof.
  unfold executeKill, performKill, final, try, mbind, M_bind, bind, tick.
  destruct (ctx_Err a (p_tick p)); [cbn; auto|].
  destruct (a_Killer a) as [killer|] eqn:K; [|cbn; auto].
  destruct (a_DryRun a) eqn:D; [cbn; auto|].
  unfold struck. rewrite D, K. destruct (a_ValidateKill a) as [validate|]; cbn.
  - destruct (validate _ _) eqn:V; cbn; [auto|].
    destruct (killer _ _ _); cbn; (split; [done|split; [done|]]); right;
      (split; [|done]); (split; [done|split; [done|]]); intros ? [= <-]; eauto.
  - destruct (killer _ _ _); cbn; (split; [done|split; [done|]]); right; by split.
Qed.

(** The executor reports errors as values: it always comes to an end. *)
Lemma executeKill_returns k p : exists r p1, executeKill a k p = (inr r, p1).
Proof.
  unfold executeKill, try, mbind, M_bind, bind, tick. destruct (ctx_Err a (p_tick p)); [eauto|].
  destruct (performKill a k _) as [[]]; cbn; eauto.
Qed.

Lemma executeKills_returns jobs p : exists rs p1, executeKills a jobs p = (inr rs, p1).
Proof.
  revert p. induction jobs as [|[i k] jobs IH]; intros p; [by eexists _, _|].
  cbn [executeKills]. unfold mbind, M_bind, bind.
  destruct (executeKill_returns k p) as (r & p1 & ->). destruct (IH p1) as (rs & p2 & ->).
  by eexists _, _.
Qed.

Lemma executeKills_spec jobs p :
  let p' := final (executeKills a jobs) p in
  p_decisions p' = p_decisions p /\ p_pending p' = p_pending p /\
  exists requests, requests `sublist_of` map snd jobs /\ Forall struck requests /\
    p_killed p' = p_killed p ++ map (fun k => v_Info (k_view k)) requests.
Proof.
  revert p. induction jobs as [|[i k] jobs IH]; intros p; cbn zeta.
  { split; [done|]. split; [done|]. exists []. split; [constructor|]. split; [constructor|].
    cbn. by rewrite app_nil_r. }
  destruct (executeKill_spec k p) as (E1 & E2 & E3).
  destruct (executeKill_returns k p) as (r & p1 & E).
  unfold final in E1, E2, E3. rewrite E in E1, E2, E3. cbn in E1, E2, E3.
  specialize (IH p1) as (I1 & I2 & requests & S & F & K).
  assert (final (executeKills a ((i, k) :: jobs)) p = final (executeKills a jobs) p1) as ->.
  { unfold final. cbn [executeKills]. unfold mbind, M_bind, bind. rewrite E.
    by destruct (executeKills a jobs p1) as [[]]. }
  rewrite I1, I2, K, E1, E2. split; [done|]. split; [done|].
  destruct E3 as [->|[St ->]].
  - exists requests. split; [by apply sublist_cons|done].
  - exists (k :: requests). split; [by apply sublist_skip|]. split; [by constructor|].
    by rewrite <- app_assoc.
Qed.

Lemma auditKill_spec k r p : exists e, auditKill a k r p = audit e p.
Proof. unfold auditKill. destruct (a_DryRun a); [|destruct r]; by eexists. Qed.

Lemma auditKills_spec results jobs p :
  let p' := final (auditKills a results jobs) p in
  p_decisions p' = p_decisions p /\ p_pending p' = p_pending p /\ p_killed p' = p_killed p.
Proof.
  revert p. induction jobs as [|[i k] jobs IH]; intros p; [done|].
  destruct (auditKill_spec k (resultOf results i) p) as [e E].
  assert (final (auditKills a results ((i, k) :: jobs)) p =
    final (auditKills a results jobs) (final (audit e) p)) as ->.
  { unfold final. cbn [auditKills]. unfold mbind, M_bind, bind. by rewrite E. }
  apply (IH (final (audit e) p)).
Qed.

Lemma snd_imap_pair {A} (l : list A) : map snd (imap pair l) = l.
Proof.
  enough (forall n, map snd (imap (fun i k => (n + i, k)%nat) l) = l) as E by exact (E 0%nat).
  induction l as [|k l IH]; intros n; [done|]. cbn. f_equal.
  rewrite <- (IH (S n)) at 2. f_equal. apply imap_ext. intros i x _. cbn. f_equal. lia.
Qed.

Lemma executePendingKills_spec schedule pending p :
  let p' := final (executePendingKills a schedule pending) p in
  p_decisions p' = p_decisions p /\ p_pending p' = p_pending p /\
  exists requests, Forall struck requests /\
    ((forall jobs, schedule jobs ≡ₚ jobs) -> requests ⊆+ pending) /\
    p_killed p' = p_killed p ++ map (fun k => v_Info (k_view k)) requests.
Proof.
  unfold executePendingKills. destruct pending as [|k0 pending]; cbv zeta.
  { split; [done|]. split; [done|]. exists []. split; [constructor|]. split; [done|].
    cbn. by rewrite app_nil_r. }
  set (pending' := k0 :: pending). set (jobs := imap pair pending').
  destruct (executeKills_spec (schedule jobs) p) as (E1 & E2 & requests & S & F & K).
  destruct (executeKills_returns (schedule jobs) p) as (rs & p1 & E).
  unfold final in E1, E2, K. rewrite E in E1, E2, K. cbn in E1, E2, K.
  destruct (auditKills_spec rs jobs p1) as (A1 & A2 & A3).
  assert (final (executeKills a (schedule jobs) ≫= (fun results =>
      auditKills a results jobs ;; joined (killErrors results jobs))) p =
    final (auditKills a rs jobs) p1) as ->.
  { unfold final, mbind, M_bind, bind. rewrite E. destruct (auditKills a rs jobs p1) as [[]];
      [done|]. unfold joined, check. by destruct (errors_Join _). }
  rewrite A1, A2, A3, E1, E2. split; [done|]. split; [done|]. exists requests.
  split; [done|]. split; [|done]. intros Sch. etrans; [by apply sublist_submseteq|].
  rewrite (Permutation_map snd (Sch jobs)). unfold jobs. by rewrite (snd_imap_pair pending').
Qed.

End execute.

(** The requests carried out are a justified few of distinct pids. *)
Lemma planned_executed a J q p requests :
  planned J q -> requests ⊆+ p_pending q -> Forall (struck a) requests ->
  p_killed p = p_killed q ++ map (fun k => v_Info (k_view k)) requests ->
  p_killed p = map (fun k => v_Info (k_view k)) requests /\
  (length requests <= 8)%nat /\ NoDup (map targetPID requests) /\
  Forall (fun k => J (k_view k) /\ struck a k) requests.
Proof.
  intros [F D Js Q] Sub St K. split; [by rewrite K, Q|]. split; [|split].
  - apply submseteq_length in Sub. lia.
  - apply submseteq_Permutation in Sub as [rest Sub].
    rewrite (Permutation_map targetPID Sub), map_app in D. by apply NoDup_app in D as [? _].
  - apply list.Forall_forall. intros k I. rewrite list.Forall_forall in Js, St.
    split; [|by apply St]. apply Js. by eapply elem_of_submseteq.
Qed.

(** * The decision a kill leaves *)

Lemma kill_settled b v reason leaseID authID holder tokenHash p :
  exists d, d_Process d = v_Process v /\
    (d_Action d = Kill \/
     d_Action d = Skip /\ d_Reason d = "kill budget exhausted; retry on next enforcement pass") /\
    p_decisions (final (kill b v reason leaseID authID holder tokenHash) p) =
      p_decisions p ++ [d].
Proof.
  set (made action reason := mkDecision (v_Process v) (v_Info v) action reason leaseID authID ""
         holder tokenHash SoftClaim_zero).
  unfold kill, final, mbind, M_bind, bind, get.
  destruct (a_planning b && negb (a_DryRun b)); cbn [andb].
  - destruct (_ <=? _).
    + exists (made Skip "kill budget exhausted; retry on next enforcement pass"). auto.
    + exists (made Kill reason). auto.
  - exists (made Kill reason). split; [done|]. split; [by left|]. cbn.
    unfold performKill, auditKill, try, mbind, M_bind, bind, tick, check, throw, ret.
    destruct (a_Killer b), (a_DryRun b); cbn; try done.
    destruct (a_ValidateKill b) as [validate|]; cbn;
      [destruct (validate _ _); cbn; [done|]|]; by destruct (o _ _ _).
Qed.

Lemma kill_decisions b v reason leaseID authID holder tokenHash p :
  exists d, d_Action d <> Allow /\
    p_decisions (final (kill b v reason leaseID authID holder tokenHash) p) =
      p_decisions p ++ [d].
Proof.
  destruct (kill_settled b v reason leaseID authID holder tokenHash p) as (d & _ & A & E).
  exists d. split; [|done]. destruct A as [->|[-> _]]; done.
Qed.

(** * What a whole pass did *)

Section pass.
Context (a : Authorizer) (range : list Z -> list Z)
  (schedule : list (nat * pendingKill) -> list (nat * pendingKill))
  (state : State) (processes : list GPUProcess).

(** The pass when planning is done. *)
Definition planDone : Pass := final (enforce (planner state a) range state processes) newPass.

Lemma Enforce_final :
  final (Enforce a range schedule state processes) newPass =
  final (executePendingKills a schedule (p_pending planDone)) planDone.
Proof.
  unfold Enforce, planDone, final, planner, try, mbind, M_bind, bind, get.
  destruct (enforce _ _ _ _ newPass) as [r p]; cbn.
  destruct (executePendingKills _ _ _ p) as [r' p']; cbn. unfold joined, check.
  by destruct (errors_Join _).
Qed.

Lemma planDone_steps : rtc (step (planner state a) state processes) newPass planDone.
Proof. apply does_enforce. Qed.

Lemma planDone_aimed : aimed (killable (planner state a) state processes) planDone.
Proof.
  eapply rtc_invariant; [|apply planDone_steps|].
  - intros p q S. apply (aimed_step (planner state a)); [apply harmless_planner|done].
  - split; [apply planned_start|]. by intros k I%elem_of_nil.
Qed.

(** Every decision to allow is justified. *)
Definition soundly (p : Pass) : Prop :=
  forall d, d ∈ p_decisions p -> d_Action d = Allow ->
    allowed (planner state a) state processes d.

Lemma soundly_more p q ds :
  p_decisions q = p_decisions p ++ ds ->
  Forall (fun d => d_Action d = Allow -> allowed (planner state a) state processes d) ds ->
  soundly p -> soundly q.
Proof.
  intros E F S d. rewrite E. intros [I|I]%elem_of_app A; [by apply S|].
  rewrite list.Forall_forall in F. by apply F.
Qed.

Lemma soundly_step p q :
  step (planner state a) state processes p q -> soundly p -> soundly q.
Proof.
  intros S. assert (forall d, d_Action d <> Allow ->
    Forall (fun d => d_Action d = Allow -> allowed (planner state a) state processes d) [d]) as N
    by (intros d N; by repeat constructor).
  destruct S.
  - done.
  - eapply soundly_more; [done|]. apply N. by rewrite S.
  - by eapply soundly_more; [done|repeat constructor].
  - by eapply soundly_more; [done|apply N].
  - by eapply soundly_more; [done|apply N].
  - done.
  - rewrite killOnce_final. destruct (mem_gpu _ _); [by eapply soundly_more; [done|apply N]|].
    destruct (kill_decisions (planner state a) v reason leaseID authID holder tokenHash
      (marked (GPUProcess_PID (v_Process v)) p)) as (d & A & E).
    eapply soundly_more; [exact E|by apply N].
Qed.

Lemma planDone_sound : soundly planDone.
Proof.
  eapply (rtc_invariant _ soundly); [apply soundly_step|apply planDone_steps|].
  by intros d I%elem_of_nil.
Qed.

(** Executing the plan decides nothing more. *)
Lemma Enforce_decisions :
  p_decisions (final (Enforce a range schedule state processes) newPass) = p_decisions planDone.
Proof. rewrite Enforce_final. apply executePendingKills_spec. Qed.

(** C6. Only justified kills.  Whatever the processes, the resolvers, the
    clock and cancellations do, the killer is called in one pass for at most
    eight processes, of distinct pids; each was sampled on a GPU it uses, no
    bypass rule exempts it, and the row tests and the scope lookups of this
    pass justify its kill (no live authorization of the reserving tokens, or no
    lease, or no authorization of the claiming token matches it, or it came to
    a GPU that is in use); it was found to be still there when the kill was
    carried out; and a dry run calls the killer for none. *)
Theorem enforcement_kills_justified :
  (forall jobs, schedule jobs ≡ₚ jobs) ->
  let p := final (Enforce a range schedule state processes) newPass in
  exists requests, p_killed p = map (fun k => v_Info (k_view k)) requests /\
    (length requests <= 8)%nat /\ NoDup (map targetPID requests) /\
    Forall (fun k => killable (planner state a) state processes (k_view k) /\ struck a k)
      requests.
Proof.
  intros Sch. rewrite Enforce_final. destruct planDone_aimed as [P _].
  destruct (executePendingKills_spec a schedule (p_pending planDone) planDone)
    as (_ & _ & requests & St & Sub & K).
  exists requests. eapply planned_executed; eauto.
Qed.

(** C7. Only justified permissions.  Every decision to let a process use a GPU
    has its reason in the rows: a live bypass rule names the process; or none does, and a
    reservation holds on the GPU, the process is in the scope of an authorization of the
    same token, and authorization and token hold, in the version the authorization was
    made for; or no reservation holds there and the process is in the scope of a lease
    that does; or neither holds there and it is in the scope of an authorization that
    holds with a token that claims free GPUs. *)
Theorem enforcement_allows_justified :
  let p := final (Enforce a range schedule state processes) newPass in
  forall d, d ∈ p_decisions p -> d_Action d = Allow -> permitted a state processes d.
Proof.
  cbv zeta. rewrite Enforce_decisions. intros d I A.
  eapply allowed_permitted; [reflexivity|]. exact (planDone_sound d I A).
Qed.

End pass.

(** C17 at the sample: bob's process is the one the killer is called for. *)
Lemma enforcement_kills_justified_witness :
  map ProcInfo_PID (p_killed (sample_pass 1000)) = [11] /\
  exists requests, p_killed (sample_pass 1000) = map (fun k => v_Info (k_view k)) requests /\
    (length requests <= 8)%nat /\ NoDup (map targetPID requests) /\
    Forall (fun k => killable (planner sample_state (sample_authorizer 1000)) sample_state
                       sample_processes (k_view k) /\ struck (sample_authorizer 1000) k) requests.
Proof.
  split; [vm_compute; reflexivity|].
  apply (enforcement_kills_justified (sample_authorizer 1000) id id sample_state sample_processes).
  intros jobs. reflexivity.
Defined.

(** C18 at the sample: ann's process is allowed. *)
Lemma enforcement_allows_justified_witness :
  let p := final (Enforce (sample_authorizer 1000) id id sample_state sample_processes) newPass in
  exists d, p_decisions p !! 1%nat = Some d /\ GPUProcess_PID (d_Process d) = 10 /\
    permitted (sample_authorizer 1000) sample_state sample_processes d.
Proof.
  intros p. destruct (p_decisions p !! 1%nat) as [d|] eqn:E; [|vm_compute in E; discriminate].
  exists d. split; [reflexivity|].
  assert (GPUProcess_PID (d_Process d) = 10 /\ d_Action d = Allow) as [E1 E2].
  { vm_compute in E. injection E as <-. split; reflexivity. }
  split; [exact E1|].
  apply (enforcement_allows_justified (sample_authorizer 1000) id id sample_state
    sample_processes); [|exact E2].
  apply list_elem_of_lookup_2 in E. exact E.
Defined.
