(* ===== verification/EnforceComplete.v ===== *)
(** The enforcement of a reserved GPU misses nobody, and with exclusive
    reservations serves one holder. *)

From S2P Require Export StoreSafety EnforceSafety.

(** * Decisions stay *)

Lemma result_bind_inv {A B} (m : M Pass A) (k : A -> M Pass B) p b :
  result (m ≫= k) p = inr b ->
  exists x, result m p = inr x /\ result (k x) (final m p) = inr b /\
    final (m ≫= k) p = final (k x) (final m p).
Proof.
  unfold result, final, mbind, M_bind, bind. destruct (m p) as [[e|x] p1]; cbn; [done|].
  intros E. by exists x.
Qed.

(** How a process on a reserved GPU may fare: it is allowed, it is killed, or
    it is not there, or its kill waits for the next pass or was ordered for
    another GPU. *)
Definition settled (d : Decision) : Prop :=
  d_Action d = Allow \/ d_Action d = Kill \/
  d_Action d = Skip /\
  d_Reason d ∈ ["no gpu resource usage"; "stale pid"; "proc info unavailable";
                "pid already targeted by enforcement";
                "kill budget exhausted; retry on next enforcement pass"].

Definition accounted (g : GPUProcess) (p : Pass) : Prop :=
  exists d, d ∈ p_decisions p /\ d_Process d = g /\ settled d.

Section complete.
Context (a : Authorizer) (state : State) (processes : list GPUProcess).
#[local] Abbreviation does := (does (step a state processes)).

Lemma step_grows p q : step a state processes p q -> p_decisions p `prefix_of` p_decisions q.
Proof.
  intros S. destruct S; try (by eexists); try (by exists []).
  - exists []. cbn. by rewrite app_nil_r.
  - exists []. cbn. by rewrite app_nil_r.
  - rewrite killOnce_final. destruct (mem_gpu _ _); [by eexists|].
    destruct (kill_decisions a v reason leaseID authID holder tokenHash
      (marked (GPUProcess_PID (v_Process v)) p)) as (d & _ & E). by exists [d].
Qed.

Lemma does_accounted {A} (m : M Pass A) Q g p :
  does m Q -> accounted g p -> accounted g (final m p).
Proof.
  intros D (d & I & E). exists d. split; [|done]. destruct (D p) as [S _]. revert I.
  induction S as [|q q' q'' S _ IH]; [done|]. intros I. apply IH.
  apply step_grows in S as [k ->]. apply elem_of_app. by left.
Qed.

Lemma decide_accounted d p : settled d -> accounted (d_Process d) (final (decide_ d) p).
Proof. intros S. exists d. split; [|done]. cbn. apply elem_of_app. right. by left. Qed.

Lemma killOnce_accounted v reason leaseID authID holder tokenHash p :
  accounted (v_Process v) (final (collect (killOnce a v reason leaseID authID holder tokenHash)) p).
Proof.
  assert (final (collect (killOnce a v reason leaseID authID holder tokenHash)) p =
          final (killOnce a v reason leaseID authID holder tokenHash) p) as ->.
  { unfold collect, try, final, mbind, M_bind, bind. by destruct (killOnce _ _ _ _ _ _ _ _). }
  rewrite killOnce_final. destruct (mem_gpu _ _).
  { apply (decide_accounted (decision Skip "pid already targeted by enforcement" v)).
    right; right. split; [done|]. apply list_elem_of_In. cbn. tauto. }
  destruct (kill_settled a v reason leaseID authID holder tokenHash
    (marked (GPUProcess_PID (v_Process v)) p)) as (d & E & S & X).
  exists d. split; [rewrite X; apply elem_of_app; right; by left|]. split; [done|].
  destruct S as [S|[S S']]; [by right; left|]. right; right. split; [done|]. rewrite S'.
  apply list_elem_of_In. cbn. tauto.
Qed.

(** ** The views of a reserved GPU *)

Lemma hardViews_account gpu errs views p :
  reservationsOn a state gpu <> [] -> Forall (viewOf a state processes gpu) views ->
  result (enforceHardViews a state gpu (reservationsOn a state gpu) errs views) p = inr tt ->
  forall v, v ∈ views -> v_Bypassed v = false ->
    accounted (v_Process v)
      (final (enforceHardViews a state gpu (reservationsOn a state gpu) errs views) p).
Proof.
  intros N F. revert errs p. induction F as [|v views V F IH]; intros errs p R w;
    [by intros I%elem_of_nil|].
  pose proof (does_hardViews a state processes gpu) as H.
  set (loop := enforceHardViews a state gpu (reservationsOn a state gpu)) in *.
  cbn in R |- *. fold loop in R |- *.
  apply result_bind_inv in R as ([] & _ & R & ->).
  destruct (v_Bypassed v) eqn:B.
  { intros [->|I]%elem_of_cons W; [congruence|by apply IH]. }
  pose proof (viewOf_watched _ _ _ _ _ V B) as W.
  apply result_bind_inv in R as (r & M & R & ->).
  pose proof (does_try _ _ (does_matchAny a state processes
    (Some (tokenFilterOf (reservationsOn a state gpu))) "" (v_Info v))
    (final (checkContext a errs) p)) as [_ G]. specialize (G r M).
  destruct r as [err|[auth|]].
  - apply result_bind_inv in R as ([] & _ & R & ->).
    destruct (H (errs ++ [err]) views N F (final (decide_
      (decision Skip "authorization resolution unavailable" v)) (final
        (try (matchAnyAuthorization a state (v_Info v)
          (Some (tokenFilterOf (reservationsOn a state gpu))) ""))
        (final (checkContext a errs) p)))) as [_ X].
    by specialize (X _ R) as [? ?]%app_nil.
  - apply result_bind_inv in R as ([] & _ & R & ->).
    intros [->|I]%elem_of_cons B'; [|by apply IH].
    eapply does_accounted; [by apply H|].
    apply (decide_accounted (mkDecision (v_Process v) _ Allow _ _ _ _ _ _ _)). by left.
  - apply result_bind_inv in R as (e & _ & R & ->).
    intros [->|I]%elem_of_cons B'; [|by apply IH].
    eapply does_accounted; [by apply H|]. apply killOnce_accounted.
Qed.

(** ** The processes of the sample *)

Definition sampleReasons : list string :=
  ["no gpu resource usage"; "stale pid"; "proc info unavailable"].

Lemma skip_accounted reason g info p :
  reason ∈ sampleReasons ->
  accounted g (final (decide_ (mkDecision g info Skip reason "" "" "" "" "" SoftClaim_zero)) p).
Proof.
  intros I. apply (decide_accounted (mkDecision g info Skip reason "" "" "" "" "" SoftClaim_zero)).
  right; right. split; [done|]. apply list_elem_of_In in I. apply list_elem_of_In. cbn in *. tauto.
Qed.

Lemma sample_account rest p views :
  rest ⊆ processes ->
  result (sampleProcesses a state rest) p = inr views ->
  forall g, g ∈ rest ->
    accounted g (final (sampleProcesses a state rest) p) \/
    exists v, v ∈ views /\ v_Process v = g /\ v_Bypassed v = false.
Proof.
  revert p views. induction rest as [|g rest IH]; intros p views Sub R g';
    [by intros I%elem_of_nil|].
  assert (rest ⊆ processes) as Sub' by set_solver.
  pose proof (does_sample a state processes rest Sub') as D.
  cbn in R |- *. apply result_bind_inv in R as ([] & _ & R & ->).
  assert (forall reason info q, reason ∈ sampleReasons ->
    result (decide_ (mkDecision g info Skip reason "" "" "" "" "" SoftClaim_zero) ;;
            sampleProcesses a state rest) q = inr views -> g' ∈ g :: rest ->
    accounted g' (final (decide_ (mkDecision g info Skip reason "" "" "" "" "" SoftClaim_zero) ;;
      sampleProcesses a state rest) q) \/
    exists v, v ∈ views /\ v_Process v = g' /\ v_Bypassed v = false) as K.
  { intros reason info q I R' [->|I']%elem_of_cons;
      apply result_bind_inv in R' as ([] & _ & R' & ->).
    - left. eapply does_accounted; [done|]. by apply skip_accounted.
    - by eapply IH. }
  assert (forall x, x ∈ sampleReasons <-> List.In x sampleReasons) as L
    by (intros; apply list_elem_of_In).
  destruct (usesGPUResources g); cbn [negb] in *; [|by apply K; [apply L; cbn; tauto|]].
  destruct (a_Proc a) as [reader|]; [|by apply K; [apply L; cbn; tauto|]].
  apply result_bind_inv in R as (n & _ & R & ->).
  destruct (negb _); [by apply K; [apply L; cbn; tauto|]|].
  apply result_bind_inv in R as (n' & _ & R & ->).
  destruct (proc_Info reader n' (GPUProcess_PID g)) as [err|info];
    [by apply K; [apply L; cbn; tauto|]|].
  apply result_bind_inv in R as ([] & _ & R & ->).
  apply result_bind_inv in R as (more & R & R' & E). rewrite E. clear E.
  injection R' as <-. intros [->|I]%elem_of_cons.
  - destruct (BypassMatch _ _ _ _) eqn:B.
    + left. change (accounted g (final (sampleProcesses a state rest) (final (decide_
        (mkDecision g info Allow "bypass" "" "" "" "" "" SoftClaim_zero)) (final tick (final tick
        (final (checkContext a []) p)))))).
      eapply does_accounted; [done|].
      apply (decide_accounted (mkDecision g info Allow "bypass" "" "" "" "" "" SoftClaim_zero)).
      by left.
    + right. eexists. split; [by left|done].
  - destruct (IH _ _ Sub' R g' I) as [A|(v & Iv & E)]; [by left|].
    right. exists v. split; [by right|done].
Qed.

(** ** The GPUs of the pass *)

Lemma GPUs_account views errs order p :
  Forall (sampled a state processes) views ->
  result (enforceGPUs a state views errs order) p = inr [] ->
  forall gpu v, gpu ∈ order -> reservationsOn a state gpu <> [] ->
    v ∈ viewsOn gpu views -> v_Bypassed v = false ->
    accounted (v_Process v) (final (enforceGPUs a state views errs order) p).
Proof.
  intros F. revert errs p. induction order as [|g order IH]; intros errs p R gpu v;
    [by intros I%elem_of_nil|].
  cbn in R |- *. apply result_bind_inv in R as ([] & _ & R & ->).
  apply result_bind_inv in R as (e & C & R & ->). intros [->|I]%elem_of_cons N Iv B;
    [|by eapply IH].
  pose proof (does_GPUs a state processes views (errs ++ e) order F) as D.
  destruct (D (final (collect (enforceGPU a state g (viewsOn g views)))
    (final (checkContext a errs) p))) as [_ X].
  specialize (X _ R eq_refl) as [_ ->]%app_nil.
  eapply does_accounted; [exact D|].
  set (q := final (checkContext a errs) p) in *.
  assert (result (enforceGPU a state g (viewsOn g views)) q = inr tt /\
          final (collect (enforceGPU a state g (viewsOn g views))) q =
          final (enforceGPU a state g (viewsOn g views)) q) as [R1 ->].
  { clear -C. unfold collect, try, result, final, mbind, M_bind, bind in *.
    by destruct (enforceGPU _ _ _ _ q) as [[err|[]] q']. }
  unfold enforceGPU in R1 |- *. fold (reservationsOn a state g) in R1 |- *.
  destruct (reservationsOn a state g) as [|r rs] eqn:E; [done|]. unfold enforceHard in *.
  rewrite <- E in R1 |- *. apply hardViews_account; [by rewrite E| |done..].
  by apply viewsOn_viewOf.
Qed.

Lemma enforce_account range p :
  (forall gpus, range gpus ≡ₚ gpus) ->
  result (enforce a range state processes) p = inr tt ->
  forall g, g ∈ processes -> reservationsOn a state (GPUProcess_GPU g) <> [] ->
    accounted g (final (enforce a range state processes) p).
Proof.
  intros Rg R g I N. unfold enforce in R |- *.
  apply result_bind_inv in R as (views & S & R & ->).
  apply result_bind_inv in R as (errs & G & R & ->).
  pose proof (does_sample a state processes processes (reflexivity _)) as D.
  destruct (D p) as [_ F]. specialize (F _ S).
  pose proof (does_releaseClaims a state processes views errs (State_SoftClaims state)
    (reflexivity _)) as Dr.
  destruct (Dr (final (enforceGPUs a state views [] (range (gpusOf views)))
    (final (sampleProcesses a state processes) p))) as [_ X].
  specialize (X _ R). cbn in X. subst errs. eapply does_accounted; [exact Dr|].
  destruct (sample_account processes p views (reflexivity _) S g I) as [A|(v & Iv & Ev & B)].
  - eapply does_accounted; [by apply does_GPUs|done].
  - subst g. eapply GPUs_account; try done.
    + rewrite (Rg (gpusOf views)). unfold gpusOf. apply elem_of_remove_dups.
      by apply (list_elem_of_fmap_2 (fun v => GPUProcess_GPU (v_Process v))).
    + by apply list_elem_of_filter.
Qed.

End complete.

(** * The theorems *)

(** C8. Nobody is missed.  When a pass ends without an error, every process of
    the sample that is on a reserved GPU was dealt with: it was allowed (for one
    of the reasons of C18), or killed, or found to be gone or not to use the GPU,
    or its kill was ordered already or waits for the next pass because the
    budget of eight is spent. *)
Theorem reserved_gpu_enforced a range schedule state processes :
  (forall gpus, range gpus ≡ₚ gpus) ->
  result (Enforce a range schedule state processes) newPass = inr tt ->
  forall g, g ∈ processes ->
    reservationsOn (planner state a) state (GPUProcess_GPU g) <> [] ->
    accounted g (final (Enforce a range schedule state processes) newPass).
Proof.
  intros Rg R g I N.
  enough (accounted g (planDone a range state processes)) as (d & Id & X).
  { exists d. by rewrite Enforce_decisions. }
  apply enforce_account; [done| |done..].
  unfold Enforce, result, try, mbind, M_bind, bind, get in R.
  change (withPlan (withIndex state a)) with (planner state a) in R. unfold result.
  destruct (enforce (planner state a) range state processes newPass) as [[err|[]] p]; [|done].
  cbn in R. by destruct (executePendingKills _ _ _ p) as [[] ?].
Qed.

Lemma eligible_hash a state f mode row auth :
  eligible a state (Some f) mode row = Some auth ->
  mem_bool f (Authorization_TokenHash auth) = true.
Proof.
  unfold eligible. destruct (_ || _); [done|].
  destruct (mem_bool f (Authorization_TokenHash row)) eqn:E; cbn [negb]; [|done].
  destruct (tokenFor _ _ _); [|done]. destruct (_ || _); [done|]. destruct (_ && _); [done|].
  cbv zeta. destruct (_ && _); [done|]. by intros [= <-].
Qed.

(** C9. A reserved GPU serves its holder.  When the reservations do not
    conflict (C1: those of the daemon's store never do), each process that a
    pass allows on a reserved GPU by an authorization bears the token of the one
    reservation that is active there: no two holders are ever let in together. *)
Theorem reserved_gpu_serves_one_holder a range schedule state processes :
  exclusive state ->
  let p := final (Enforce a range schedule state processes) newPass in
  forall d, d ∈ p_decisions p -> d_Action d = Allow -> d_Reason d = "authorization" ->
    exists r, activeReservationsForGPU (State_Reservations state)
                (GPUProcess_GPU (d_Process d)) (a_now a) = [r] /\
      d_TokenHash d = Reservation_TokenHash r.
Proof.
  intros X p d I A Rs. assert (allowed (planner state a) state processes d) as J.
  { unfold p in I. rewrite Enforce_decisions in I. by eapply planDone_sound. }
  destruct J; try done. cbn. destruct W as (_ & _ & <-).
  apply pairwise_exclusive in X.
  pose proof (pairwise_active _ (GPUProcess_GPU (v_Process v)) (a_now a) X) as L.
  change (filter _ _) with (reservationsOn (planner state a) state (GPUProcess_GPU (v_Process v)))
    in L.
  change (activeReservationsForGPU _ _ _)
    with (reservationsOn (planner state a) state (GPUProcess_GPU (v_Process v))).
  destruct G as (row & _ & El & _). apply eligible_hash in El.
  apply tokenFilter_of in El as (r & Ir & <-).
  destruct (reservationsOn _ _ _) as [|r0 [|]]; cbn in L; [done| |lia].
  apply list_elem_of_singleton in Ir as ->. by exists r0.
Qed.

Lemma reserved_gpu_enforced_witness :
  Forall (fun g => accounted g (sample_pass 1000))
    (filter (fun g => GPUProcess_GPU g = 0) sample_processes).
Proof.
  apply list.Forall_forall. intros g [G I]%list_elem_of_filter.
  apply (reserved_gpu_enforced (sample_authorizer 1000) id id sample_state sample_processes);
    [intros gpus; reflexivity|vm_compute; reflexivity|exact I|].
  rewrite G. vm_compute. discriminate.
Defined.

Lemma sample_exclusive : exclusive sample_state.
Proof. apply pairwise_exclusive. repeat constructor. Qed.

Lemma reserved_gpu_serves_one_holder_witness :
  exists d r, d ∈ p_decisions (sample_pass 1000) /\ d_Reason d = "authorization" /\
    activeReservationsForGPU (State_Reservations sample_state)
      (GPUProcess_GPU (d_Process d)) 1000 = [r] /\ d_TokenHash d = Reservation_TokenHash r.
Proof.
  unfold sample_pass. destruct (p_decisions (final (Enforce (sample_authorizer 1000) id id sample_state
    sample_processes) newPass) !! 1%nat) as [d|] eqn:E;
    [|vm_compute in E; discriminate].
  assert (d_Action d = Allow /\ d_Reason d = "authorization") as [A Rs].
  { vm_compute in E. injection E as <-. split; reflexivity. }
  apply list_elem_of_lookup_2 in E.
  destruct (reserved_gpu_serves_one_holder (sample_authorizer 1000) id id sample_state
    sample_processes sample_exclusive d E A Rs) as (r & R & H).
  exists d, r. split; [exact E|]. split; [exact Rs|]. split; [exact R|exact H].
Defined.
