(* ===== verification/EnforceEvictFacts.v ===== *)
(** Theorems on eviction: whom it kills, and what its assessment is worth. *)

From S2P Require Export EnforceSafety EnforceEvict.

(** * Questions *)

Inductive asked : Pass -> Pass -> Prop :=
  | asked_once p : asked p (final tick p).

Lemma does_tick_asked : does asked tick (fun _ => True).
Proof. apply does_tick_of. constructor. Qed.

Lemma asked_same p q : rtc asked p q ->
  p_decisions q = p_decisions p /\ p_pending q = p_pending p /\ p_killed q = p_killed p.
Proof. induction 1 as [|p q r S _ (-> & -> & ->)]; [done|]. by destruct S. Qed.

(** * What a scan of rows has established

    [on] tells of a row whether it entitles, and otherwise whether its being
    stale matters; [matches] that a lookup answered for it.  No entitling row of
    those scanned matches, and of the stale ones that matter exactly [found]
    do. *)
Section scan.
Context {A : Type} (on : A -> bool * bool) (matches : A -> bool -> Prop).

Record scanned (rows found : list A) : Prop := mkScanned
  { scanned_entitled : forall x, x ∈ rows -> (on x).1 = true -> matches x false;
    scanned_found : forall x, x ∈ found -> x ∈ rows /\ on x = (false, true) /\ matches x true;
    scanned_stale : forall x, x ∈ rows -> on x = (false, true) -> x ∈ found \/ matches x false }.

Lemma scanned_nil : scanned [] [].
Proof. by split; intros x I%elem_of_nil. Qed.

Lemma scanned_miss rows found x :
  on x = (false, false) \/ matches x false -> scanned rows found -> scanned (rows ++ [x]) found.
Proof.
  intros M [E F S]. split.
  - intros y [I|I%list_elem_of_singleton]%elem_of_app O; [auto|]. subst y.
    destruct M as [M|M]; [by rewrite M in O|done].
  - intros y I. destruct (F y I) as [? ?]. split; [apply elem_of_app; by left|done].
  - intros y [I|I%list_elem_of_singleton]%elem_of_app O; [auto|]. subst y.
    destruct M as [M|M]; [by rewrite M in O|by right].
Qed.

Lemma scanned_hit rows found x :
  on x = (false, true) -> matches x true -> scanned rows found ->
  scanned (rows ++ [x]) (found ++ [x]).
Proof.
  intros O M [E F S]. split.
  - intros y [I|I%list_elem_of_singleton]%elem_of_app O'; [auto|]. subst y. by rewrite O in O'.
  - intros y [I|I%list_elem_of_singleton]%elem_of_app.
    + destruct (F y I) as [? ?]. split; [apply elem_of_app; by left|done].
    + subst y. split; [apply elem_of_app; right; by left|done].
  - intros y [I|I%list_elem_of_singleton]%elem_of_app O'.
    + destruct (S y I O'); [left; apply elem_of_app; by left|by right].
    + subst y. left. apply elem_of_app. right. by left.
Qed.

End scan.

(** * The scans of a pass *)

Section evict.
Context (a : Authorizer) (state : State) (processes : list GPUProcess).

(** The indexes of the pass. *)
Definition tokensOf : gmap string Token := tokensByHash (State_Tokens state).
Definition reservedOf : Reserved :=
  classifyReservations tokensOf (a_now a) (State_Reservations state).

Definition authorizationOn (gpu : Z) (auth : Authorization) : bool * bool :=
  authorizationEvictionState tokensOf (validReservations reservedOf)
    (staleReservations reservedOf) (a_now a) gpu auth.
Definition leaseOn (gpu : Z) (lease : Lease) : bool * bool :=
  leaseEvictionState tokensOf (a_now a) gpu lease.

Definition matchesAuth (info : ProcInfo) (auth : Authorization) (b : bool) : Prop :=
  answers (authorizationScopeMatchesForEviction a auth info) b.
Definition matchesLease (info : ProcInfo) (lease : Lease) (b : bool) : Prop :=
  answers (leaseScopeMatchesForEviction a lease info) b.

(** Some row entitles the process on this GPU. *)
Definition entitledOn (gpu : Z) (info : ProcInfo) : Prop :=
  (exists auth, auth ∈ State_Authorizations state /\ (authorizationOn gpu auth).1 = true /\
     matchesAuth info auth true) \/
  (exists lease, lease ∈ State_Leases state /\ (leaseOn gpu lease).1 = true /\
     matchesLease info lease true).

Definition scan_tells (gpu : Z) (info : ProcInfo) (scan : Scan) : Prop :=
  match scan with
  | Unresolved _ => True
  | Entitled => entitledOn gpu info
  | Stale auths leases =>
      scanned (authorizationOn gpu) (matchesAuth info) (State_Authorizations state) auths /\
      scanned (leaseOn gpu) (matchesLease info) (State_Leases state) leases
  end.

Lemma on_skip (on : bool * bool) :
  negb on.1 && negb on.2 = true -> on = (false, false).
Proof. by destruct on as [[] []]. Qed.

Lemma does_scanLeases gpu info auths before found rows :
  scanned (authorizationOn gpu) (matchesAuth info) (State_Authorizations state) auths ->
  scanned (leaseOn gpu) (matchesLease info) before found ->
  before ++ rows = State_Leases state ->
  does asked (scanLeases a tokensOf gpu info auths found rows) (scan_tells gpu info).
Proof.
  intros A. revert before found. induction rows as [|l rows IH]; intros before found S E;
    cbn [scanLeases].
  { apply does_ret. split; [done|]. by rewrite <- E, app_nil_r. }
  assert (E' : (before ++ [l]) ++ rows = State_Leases state) by by rewrite <- app_assoc.
  eapply does_bind; [apply does_tick_asked|]. intros n _.
  destruct (ctx_Err a n); [by apply does_ret|].
  fold (leaseOn gpu l). destruct (leaseOn gpu l) as [entitled stale] eqn:O.
  destruct (negb entitled && negb stale) eqn:Skip.
  { apply (IH (before ++ [l])); [|done]. apply scanned_miss; [|done]. left.
    rewrite O. by apply on_skip. }
  eapply does_bind; [apply does_try, does_leaseScope; constructor|].
  intros [err|[]] V; [by apply does_ret| |]; specialize (V _ eq_refl).
  - destruct entitled.
    + apply does_ret. right. exists l. rewrite O. split; [|done]. rewrite <- E.
      apply elem_of_app. right. by left.
    + destruct stale; [|done]. apply (IH (before ++ [l])); [by apply scanned_hit|done].
  - apply (IH (before ++ [l])); [by apply scanned_miss; [right|]|done].
Qed.

Lemma does_scanAuthorizations gpu info before found rows :
  scanned (authorizationOn gpu) (matchesAuth info) before found ->
  before ++ rows = State_Authorizations state ->
  does asked (scanAuthorizations a tokensOf reservedOf gpu info (State_Leases state) found rows)
    (scan_tells gpu info).
Proof.
  revert before found. induction rows as [|r rows IH]; intros before found S E;
    cbn [scanAuthorizations].
  { rewrite app_nil_r in E. subst before.
    by apply (does_scanLeases _ _ _ []); [|apply scanned_nil|]. }
  assert (E' : (before ++ [r]) ++ rows = State_Authorizations state) by by rewrite <- app_assoc.
  eapply does_bind; [apply does_tick_asked|]. intros n _.
  destruct (ctx_Err a n); [by apply does_ret|].
  fold (authorizationOn gpu r). destruct (authorizationOn gpu r) as [entitled stale] eqn:O.
  destruct (negb entitled && negb stale) eqn:Skip.
  { apply (IH (before ++ [r])); [|done]. apply scanned_miss; [|done]. left.
    rewrite O. by apply on_skip. }
  eapply does_bind; [apply does_try, does_scope; constructor|].
  intros [err|[]] V; [by apply does_ret| |]; specialize (V _ eq_refl).
  - destruct entitled.
    + apply does_ret. left. exists r. rewrite O. split; [|done]. rewrite <- E.
      apply elem_of_app. right. by left.
    + destruct stale; [|done]. apply (IH (before ++ [r])); [by apply scanned_hit|done].
  - apply (IH (before ++ [r])); [by apply scanned_miss; [right|]|done].
Qed.

(** * Why a process is evicted *)

(** The kinds of process that eviction may kill: sampled, found by its pid, not
    exempt, entitled by no row on its GPU, and matched by a stale row there. *)
Record evictable (v : processView) : Prop := mkEvictable
  { ev_sampled : v_Process v ∈ processes;
    ev_pid : 0 < GPUProcess_PID (v_Process v);
    ev_info : exists reader n, a_Proc a = Some reader /\
      proc_Info reader n (GPUProcess_PID (v_Process v)) = inr (v_Info v);
    ev_bypass : BypassMatch (State_Bypasses state) (v_Info v) (a_now a) (a_BootID a) = false;
    ev_auths : forall auth, auth ∈ State_Authorizations state ->
      (authorizationOn (GPUProcess_GPU (v_Process v)) auth).1 = true ->
      matchesAuth (v_Info v) auth false;
    ev_leases : forall lease, lease ∈ State_Leases state ->
      (leaseOn (GPUProcess_GPU (v_Process v)) lease).1 = true -> matchesLease (v_Info v) lease false;
    ev_stale :
      (exists auth, auth ∈ State_Authorizations state /\
         authorizationOn (GPUProcess_GPU (v_Process v)) auth = (false, true) /\
         matchesAuth (v_Info v) auth true) \/
      (exists lease, lease ∈ State_Leases state /\
         leaseOn (GPUProcess_GPU (v_Process v)) lease = (false, true) /\
         matchesLease (v_Info v) lease true) }.

(** ** The loop over the sample *)

Context (reader : ProcReader) (reads : a_Proc a = Some reader).

(** One sampled process was looked at conclusively: it is gone, or it was
    entitled or free of the rows that [Q] speaks of, or it was evicted for the
    sake of another GPU. *)
Inductive examined (Q : Z -> ProcInfo -> Prop) (g : GPUProcess) : Prop :=
  | examined_pid (L : GPUProcess_PID g <= 0)
  | examined_gone n err (I : proc_Info reader n (GPUProcess_PID g) = inl err)
      (N : os_IsNotExist err = true)
  | examined_entitled n info (I : proc_Info reader n (GPUProcess_PID g) = inr info)
      (E : entitledOn (GPUProcess_GPU g) info)
  | examined_quiet n info (I : proc_Info reader n (GPUProcess_PID g) = inr info)
      (E : Q (GPUProcess_GPU g) info)
  | examined_evicted v (E : evictable v) (S : GPUProcess_PID (v_Process v) = GPUProcess_PID g).

(** No stale row of this id that matters on the GPU matches the process. *)
Definition quietAuth (id : string) (gpu : Z) (info : ProcInfo) : Prop :=
  forall auth, auth ∈ State_Authorizations state -> Authorization_ID auth = id ->
    authorizationOn gpu auth = (false, true) -> matchesAuth info auth false.
Definition quietLease (id : string) (gpu : Z) (info : ProcInfo) : Prop :=
  forall lease, lease ∈ State_Leases state -> Lease_ID lease = id ->
    leaseOn gpu lease = (false, true) -> matchesLease info lease false.

(** A row still said to be quiescent was so for every process looked at. *)
Definition assessed (m0 m : gmap string bool) (errs : list error) (done : list GPUProcess)
    (Q : string -> Z -> ProcInfo -> Prop) : Prop :=
  forall id, m !! id = Some true ->
    m0 !! id = Some true /\ errs = [] /\ Forall (examined (Q id)) done.

Record evicting (as0 : EvictionAssessment) (done : list GPUProcess) (p : Pass) (e : Evict)
    : Prop := mkEvicting
  { ev_planned : planned evictable p;
    ev_targets : forall k, k ∈ p_pending p -> e_killed e !! targetPID k = Some true;
    ev_killed : forall pid, e_killed e !! pid = Some true ->
      exists v, evictable v /\ GPUProcess_PID (v_Process v) = pid;
    ev_cached : forall pid, match e_cache e !! pid with
      | Some (Some info) => exists n, proc_Info reader n pid = inr info
      | Some None => exists n err, proc_Info reader n pid = inl err /\ os_IsNotExist err = true
      | None => True
      end;
    ev_as_auths : assessed (as_Authorizations as0) (as_Authorizations (e_assessment e))
      (e_errors e) done quietAuth;
    ev_as_leases : assessed (as_Leases as0) (as_Leases (e_assessment e)) (e_errors e) done
      quietLease }.

Lemma uncertain_false {K} `{Countable K} (m : gmap K bool) id :
  ((fun _ => false) <$> m) !! id = Some true -> False.
Proof. rewrite lookup_fmap. by destruct (m !! id). Qed.

Lemma evicting_uncertain as0 done done' p q err e :
  p_pending q = p_pending p -> p_killed q = p_killed p ->
  evicting as0 done p e -> evicting as0 done' q (uncertain err e).
Proof.
  intros E1 E2 [P T K C A L]. split; cbn; try done.
  - by eapply planned_same.
  - by rewrite E1.
  - intros id X. by apply uncertain_false in X.
  - intros id X. by apply uncertain_false in X.
Qed.

Lemma evicting_same as0 done p q e :
  p_pending q = p_pending p -> p_killed q = p_killed p ->
  evicting as0 done p e -> evicting as0 done q e.
Proof.
  intros E1 E2 [P T K C A L]. split; try done; [by eapply planned_same|by rewrite E1].
Qed.

(** A process looked at, the rest of the state as it was. *)
Lemma evicting_examined as0 done p q e g :
  p_pending q = p_pending p -> p_killed q = p_killed p ->
  (forall id, as_Authorizations (e_assessment e) !! id = Some true -> examined (quietAuth id) g) ->
  (forall id, as_Leases (e_assessment e) !! id = Some true -> examined (quietLease id) g) ->
  evicting as0 done p e -> evicting as0 (done ++ [g]) q e.
Proof.
  intros E1 E2 X1 X2 [P T K C A L]. split; try done.
  - by eapply planned_same.
  - by rewrite E1.
  - intros id X. destruct (A id X) as (? & ? & F). split; [done|]. split; [done|].
    apply Forall_app. split; [done|]. constructor; [by apply X1|done].
  - intros id X. destruct (L id X) as (? & ? & F). split; [done|]. split; [done|].
    apply Forall_app. split; [done|]. constructor; [by apply X2|done].
Qed.

Lemma soil_spec {A} (idOf : A -> string) rows (m : gmap string bool) id :
  foldl (fun m x => <[idOf x := false]> m) m rows !! id = Some true ->
  m !! id = Some true /\ forall x, x ∈ rows -> idOf x <> id.
Proof.
  revert m. induction rows as [|r rows IH]; intros m; cbn [foldl].
  { intros E. split; [done|]. by intros x I%elem_of_nil. }
  intros [E F]%IH. destruct (decide (idOf r = id)) as [D|D].
  - rewrite D, lookup_insert_eq in E. done.
  - rewrite lookup_insert_ne in E by done. split; [done|].
    by intros x [->|I]%elem_of_cons; [|apply F].
Qed.

Lemma evicting_soiled as0 done p e auths leases :
  evicting as0 done p e ->
  evicting as0 done p (mkEvict (mkAssessment
    (soilAuthorizations auths (as_Authorizations (e_assessment e)))
    (soilLeases leases (as_Leases (e_assessment e)))) (e_cache e) (e_killed e) (e_errors e)).
Proof.
  intros [P T K C A L]. split; try done; cbn.
  - intros id [X _]%soil_spec. by apply A.
  - intros id [X _]%soil_spec. by apply L.
Qed.

Lemma evicting_targeted as0 done p e v :
  evictable v -> evicting as0 done p e ->
  evicting as0 done p (mkEvict (e_assessment e) (e_cache e)
    (<[GPUProcess_PID (v_Process v) := true]> (e_killed e)) (e_errors e)).
Proof.
  intros V [P T K C A L]. split; try done; cbn.
  - intros k I. apply T in I. destruct (decide (GPUProcess_PID (v_Process v) = targetPID k)) as [->|D].
    + by rewrite lookup_insert_eq.
    + by rewrite lookup_insert_ne.
  - intros pid. destruct (decide (GPUProcess_PID (v_Process v) = pid)) as [<-|D].
    + intros _. by exists v.
    + rewrite lookup_insert_ne by done. apply K.
Qed.

(** ** One process of the sample *)

Lemma try_returns {A} (m : M Pass A) p : exists r p', try m p = (inr r, p').
Proof. unfold try. destruct (m p) as [r p']. by exists r, p'. Qed.

Lemma scanLeases_returns gpu info auths found rows p :
  exists r p', scanLeases a tokensOf gpu info auths found rows p = (inr r, p').
Proof.
  revert found p. induction rows as [|l rows IH]; intros found p; cbn [scanLeases];
    [by eexists _, _|].
  unfold mbind, M_bind, bind, tick. destruct (ctx_Err a _); [by eexists _, _|].
  destruct (leaseEvictionState _ _ _ _) as [entitled stale].
  destruct (negb _ && negb _); [apply IH|].
  edestruct (try_returns (leaseScopeMatchesForEviction a l info)) as (r & p' & E).
  rewrite E. destruct r as [err|[]]; [by eexists _, _| |apply IH].
  destruct entitled; [by eexists _, _|apply IH].
Qed.

Lemma scan_returns gpu info found rows p : exists r p',
  scanAuthorizations a tokensOf reservedOf gpu info (State_Leases state) found rows p =
    (inr r, p').
Proof.
  revert found p. induction rows as [|x rows IH]; intros found p; cbn [scanAuthorizations];
    [apply scanLeases_returns|].
  unfold mbind, M_bind, bind, tick. destruct (ctx_Err a _); [by eexists _, _|].
  destruct (authorizationEvictionState _ _ _ _ _ _) as [entitled stale].
  destruct (negb _ && negb _); [apply IH|].
  edestruct (try_returns (authorizationScopeMatchesForEviction a x info)) as (r & p' & E).
  rewrite E. destruct r as [err|[]]; [by eexists _, _| |apply IH].
  destruct entitled; [by eexists _, _|apply IH].
Qed.

Lemma scan_spec gpu info p : exists scan q,
  scanAuthorizations a tokensOf reservedOf gpu info (State_Leases state) []
    (State_Authorizations state) p = (inr scan, q) /\
  p_pending q = p_pending p /\ p_killed q = p_killed p /\ scan_tells gpu info scan.
Proof.
  destruct (scan_returns gpu info [] (State_Authorizations state) p) as (scan & q & E).
  exists scan, q. split; [done|].
  destruct (does_scanAuthorizations gpu info [] [] (State_Authorizations state)
    (scanned_nil _ _) eq_refl p) as [S T].
  unfold final, result in S, T. rewrite E in S, T. cbn in S, T.
  apply asked_same in S as (_ & -> & ->). auto.
Qed.

Context (harmlessly : harmless a).

Lemma kill_pending v reason l u h k p x :
  x ∈ p_pending (final (kill a v reason l u h k) p) ->
  x ∈ p_pending p \/ k_view x = v.
Proof using harmlessly.
  unfold kill, final, mbind, M_bind, bind, get.
  destruct (a_planning a && negb (a_DryRun a)) eqn:Pl; cbn [andb].
  - destruct (_ <=? _); [by left|].
    intros [I|I%list_elem_of_singleton]%elem_of_app; [by left|right]. by subst x.
  - destruct harmlessly as [Hm|D]; [congruence|]. unfold performKill, auditKill, try. rewrite D.
    destruct (a_Killer a); by left.
Qed.

(** The kill of a process that only stale rows match. *)
Lemma evicting_kill as0 done p e v reason l u h k :
  evictable v -> e_killed e !! GPUProcess_PID (v_Process v) = None \/
                 e_killed e !! GPUProcess_PID (v_Process v) = Some false ->
  evicting as0 done p e ->
  evicting as0 done (final (kill a v reason l u h k) p)
    (mkEvict (e_assessment e) (e_cache e) (<[GPUProcess_PID (v_Process v) := true]> (e_killed e))
       (e_errors e)).
Proof using harmlessly.
  intros V N E. pose proof (evicting_targeted as0 done p e v V E) as [P T K C A L].
  split; try done.
  - apply planned_kill; try done. intros (x & X & I)%list_elem_of_fmap.
    apply (ev_targets _ _ _ _ E) in I. rewrite <- X in I. destruct N; congruence.
  - intros x [I|X]%kill_pending; [by apply T|]. cbn. unfold targetPID. rewrite X.
    by rewrite lookup_insert_eq.
Qed.

Lemma evictProcess_kills g info auths leases : exists reason l u h k,
  evictProcess a reservedOf g info auths leases = kill a (mkView g info false) reason l u h k.
Proof.
  unfold evictProcess. cbv zeta. destruct (_ <>s _); by eexists _, _, _, _, _.
Qed.

Lemma evictKnown_spec as0 done g info e p :
  g ∈ processes -> 0 < GPUProcess_PID g ->
  (exists n, proc_Info reader n (GPUProcess_PID g) = inr info) ->
  mem_gpu (e_killed e) (GPUProcess_PID g) = false ->
  evicting as0 done p e ->
  exists e' q, evictKnown a state tokensOf reservedOf g info e p = (inr e', q) /\
    evicting as0 (done ++ [g]) q e'.
Proof using reads harmlessly.
  intros Ig Pos [n R] N E. unfold evictKnown.
  destruct (scan_spec (GPUProcess_GPU g) info p) as (scan & p1 & S & E1 & E2 & T).
  unfold mbind, M_bind, bind. rewrite S.
  destruct scan as [|err|auths leases].
  - eexists _, _. split; [done|]. by eapply evicting_examined; [..|exact E];
      try done; intros; eapply examined_entitled.
  - eexists _, _. split; [done|]. by eapply evicting_uncertain.
  - destruct T as [Ta Tl].
    set (e1 := mkEvict (mkAssessment
      (soilAuthorizations auths (as_Authorizations (e_assessment e)))
      (soilLeases leases (as_Leases (e_assessment e)))) (e_cache e) (e_killed e) (e_errors e)).
    assert (evicting as0 (done ++ [g]) p1 e1) as E'.
    { eapply evicting_examined; [exact E1|exact E2|..|by apply evicting_soiled].
      - intros id [_ X]%soil_spec. eapply examined_quiet; [done|]. intros auth I Ei O.
        destruct (scanned_stale _ _ _ _ Ta auth I O) as [F|F]; [|done]. by destruct (X auth F).
      - intros id [_ X]%soil_spec. eapply examined_quiet; [done|]. intros lease I Ei O.
        destruct (scanned_stale _ _ _ _ Tl lease I O) as [F|F]; [|done]. by destruct (X lease F). }
    destruct (decide (auths = [] /\ leases = [])) as [[-> ->]|NE].
    { exists e, p1. split; [done|]. assert (e1 = e) as Ee by (unfold e1; by destruct e as [[? ?] ? ? ?]).
      by rewrite <- Ee. }
    assert (exists e' q, (if BypassMatch (State_Bypasses state) info (a_now a) (a_BootID a)
      then ret e1 else
        let e2 := mkEvict (e_assessment e1) (e_cache e1)
                    (<[GPUProcess_PID g := true]> (e_killed e1)) (e_errors e1) in
        r ← try (evictProcess a reservedOf g info auths leases);
        ret (match r with inl err => uncertain err e2 | inr _ => e2 end)) p1 = (inr e', q) /\
      evicting as0 (done ++ [g]) q e') as G.
    { destruct (BypassMatch _ _ _ _) eqn:B; [by eexists _, _|]. cbv zeta.
      assert (evictable (mkView g info false)) as V.
      { split; cbn; try done; [by exists reader, n|apply Ta|apply Tl|].
        destruct auths as [|x auths]; [destruct leases as [|x leases]; [tauto|]|].
        - right. exists x. apply (scanned_found _ _ _ _ Tl). by left.
        - left. exists x. apply (scanned_found _ _ _ _ Ta). by left. }
      destruct (evictProcess_kills g info auths leases) as (reason & l & u & h & k & ->).
      pose proof (evicting_kill as0 (done ++ [g]) p1 e1 (mkView g info false) reason l u h k V)
        as K.
      cbn [v_Process] in K. unfold mbind, M_bind, bind, try. unfold final in K.
      destruct (kill a _ reason l u h k p1) as [r q]. cbn in K.
      assert (e_killed e !! GPUProcess_PID g = None \/
              e_killed e !! GPUProcess_PID g = Some false) as N'.
      { unfold mem_gpu in N. destruct (e_killed e !! GPUProcess_PID g) as [[]|]; [done|by right|by left]. }
      specialize (K N' E').
      destruct r; eexists _, _; (split; [reflexivity|]); [by eapply evicting_uncertain|done]. }
    by destruct auths; [destruct leases; [tauto|]|].
Qed.

(** ** The whole loop *)

Lemma evicting_cached as0 done p q e pid r :
  p_pending q = p_pending p -> p_killed q = p_killed p ->
  match r with
  | Some info => exists n, proc_Info reader n pid = inr info
  | None => exists n err, proc_Info reader n pid = inl err /\ os_IsNotExist err = true
  end ->
  evicting as0 done p e ->
  evicting as0 done q (mkEvict (e_assessment e) (<[pid := r]> (e_cache e)) (e_killed e)
    (e_errors e)).
Proof.
  intros E1 E2 X [P T K C A L]. split; try done.
  - by eapply planned_same.
  - by rewrite E1.
  - intros pid'. cbn. destruct (decide (pid = pid')) as [<-|D].
    + rewrite lookup_insert_eq. by destruct r.
    + rewrite lookup_insert_ne by done. apply C.
Qed.

Lemma evictLoop_spec as0 rest done e p :
  rest ⊆ processes -> evicting as0 done p e ->
  exists e' q, evictLoop a reader state tokensOf reservedOf e rest p = (inr e', q) /\
    evicting as0 (done ++ rest) q e'.
Proof using reads harmlessly.
  revert done e p. induction rest as [|g rest IH]; intros done e p Sub E; cbn [evictLoop].
  { eexists _, _. split; [done|]. by rewrite app_nil_r. }
  assert (rest ⊆ processes) as Sub' by set_solver.
  assert (g ∈ processes) as Ig by set_solver.
  rewrite cons_middle, app_assoc. unfold mbind, M_bind, bind, tick.
  destruct (ctx_Err a (p_tick p)) as [err|].
  { eexists _, _. split; [done|]. by apply (evicting_uncertain as0 done _ p). }
  set (p1 := mkPass (S (p_tick p)) _ _ _ _ _).
  destruct ((GPUProcess_PID g <=? 0) || mem_gpu (e_killed e) (GPUProcess_PID g)) eqn:Skip.
  { apply IH; [done|]. assert (forall Q, examined Q g) as X.
    { intros Q. apply orb_true_iff in Skip as [L%Z.leb_le|M]; [by apply examined_pid|].
      unfold mem_gpu in M. destruct (e_killed e !! _) as [[]|] eqn:K; [|done..].
      apply (ev_killed _ _ _ _ E) in K as (v & V & Ev). by eapply examined_evicted. }
    by eapply evicting_examined; [..|exact E]; auto. }
  apply orb_false_iff in Skip as [Pos%Z.leb_gt N].
  destruct (e_cache e !! GPUProcess_PID g) as [[info|]|] eqn:C.
  - pose proof (ev_cached _ _ _ _ E (GPUProcess_PID g)) as X. rewrite C in X.
    destruct (evictKnown_spec as0 done g info e p1) as (e' & q & K & E'); try done;
      [by eapply (evicting_same as0 done p)|].
    rewrite K. by apply IH.
  - pose proof (ev_cached _ _ _ _ E (GPUProcess_PID g)) as X. rewrite C in X.
    destruct X as (n & err & R & G). apply IH; [done|].
    by eapply evicting_examined; [..|exact E]; try done; intros; eapply examined_gone.
  - destruct (proc_Info reader (p_tick p1) (GPUProcess_PID g)) as [err|info] eqn:R.
    + destruct (os_IsNotExist err) eqn:G; (apply IH; [done|]).
      * eapply evicting_examined; [done|done|..|eapply (evicting_cached as0 done p _ e); eauto];
          by intros; eapply examined_gone.
      * by apply (evicting_uncertain as0 done _ p).
    + destruct (evictKnown_spec as0 done g info
        (mkEvict (e_assessment e) (<[GPUProcess_PID g := Some info]> (e_cache e)) (e_killed e)
           (e_errors e)) (mkPass (S (p_tick p1)) (p_decisions p1) (p_targeted p1) (p_pending p1)
           (p_audit p1) (p_killed p1))) as (e' & q & K & E'); try done; [by eexists| |].
      { eapply (evicting_cached as0 done p _ e); try done. by eexists. }
      rewrite K. by apply IH.
Qed.

End evict.

(** * Who is entitled, on the rows

    The tests of eviction in terms of the fields of the rows, as [EnforceRefine] has them
    for the other pass. *)

Section entitlement.
Context (a : Authorizer) (state : State).

(** An authorization that lets its bearer use this GPU: it holds, and its token claims free
    GPUs, or is the reserving token of a reservation that holds here. *)
Definition entitledHere (gpu : Z) (row : Authorization) : Prop :=
  exists token, authorizationInForce a state row token /\
    (claiming token \/
     normalizeTokenMode (Token_Mode token) = "reserved" /\ Authorization_TokenHash row <> "" /\
     exists r, r ∈ State_Reservations state /\ Reservation_GPU r = gpu /\
       Reservation_TokenHash r = Authorization_TokenHash row /\ reservationInForce a r).
Definition tokenInForce (hash : string) (token : Token) : Prop :=
  tokenOf state hash token /\ Token_Revoked token = false /\ unexpired (a_now a) (Token_ExpiresAt token).
(** A reservation whose time is still to come. *)
Definition upcoming (r : Reservation) : Prop :=
  (exists token, tokenInForce (Reservation_TokenHash r) token /\ normalizeTokenMode (Token_Mode token) = "reserved") /\
  Reservation_Active r = true /\ Reservation_Revoked r = false /\
  a_now a < ReservationStartsAt r /\ a_now a < Reservation_ExpiresAt r.
(** The kind of token an authorization was made with: what its row says now, or else what
    the authorization noted. *)
Definition kindOf (row : Authorization) (mode : string) : Prop :=
  (exists token, tokenOf state (Authorization_TokenHash row) token /\ mode = normalizeTokenMode (Token_Mode token)) \/
  (forall token, ~ tokenOf state (Authorization_TokenHash row) token) /\
    mode = normalizeTokenMode (Authorization_TokenMode row).
(** An authorization that has been about this GPU. *)
Definition concerns (gpu : Z) (row : Authorization) : Prop :=
  kindOf row "claimed" \/ kindOf row "managed" \/
  kindOf row "reserved" /\ exists r, r ∈ State_Reservations state /\ Reservation_GPU r = gpu /\
    Reservation_TokenHash r = Authorization_TokenHash row /\ ~ upcoming r.
Definition leaseHere (gpu : Z) (lease : Lease) : Prop :=
  Lease_GPU lease = gpu /\ leaseInForce a lease /\
  (Lease_TokenHash lease = "" \/ exists token, tokenInForce (Lease_TokenHash lease) token).

(** A process that may be evicted: of the sample, known, exempt by no rule, in the scope of
    no authorization or lease that lets it use the GPU, and in the scope of one that has
    been about the GPU and no longer lets it. *)
Record unentitled (processes : list GPUProcess) (v : processView) : Prop := mkUnentitled
  { un_sampled : v_Process v ∈ processes;
    un_pid : 0 < GPUProcess_PID (v_Process v);
    un_info : exists reader n, a_Proc a = Some reader /\
      proc_Info reader n (GPUProcess_PID (v_Process v)) = inr (v_Info v);
    un_exempt : ~ exempt a state (v_Info v);
    un_auths : forall row, row ∈ State_Authorizations state ->
      entitledHere (GPUProcess_GPU (v_Process v)) row -> inScope a row (v_Info v) false;
    un_leases : forall lease, lease ∈ State_Leases state ->
      leaseHere (GPUProcess_GPU (v_Process v)) lease -> inLease a lease (v_Info v) false;
    un_stale :
      (exists row, row ∈ State_Authorizations state /\
         ~ entitledHere (GPUProcess_GPU (v_Process v)) row /\
         concerns (GPUProcess_GPU (v_Process v)) row /\ inScope a row (v_Info v) true) \/
      (exists lease, lease ∈ State_Leases state /\ Lease_GPU lease = GPUProcess_GPU (v_Process v) /\
         ~ leaseHere (GPUProcess_GPU (v_Process v)) lease /\ inLease a lease (v_Info v) true) }.

(** ** The tests of the code decide it *)

Lemma tokensOf_spec hash token : tokensOf state !! hash = Some token <-> tokenOf state hash token.
Proof. exact (tokensIndex_spec (State_Tokens state) hash token). Qed.
Lemma tokenOf_unique hash token token' : tokenOf state hash token -> tokenOf state hash token' -> token = token'.
Proof. rewrite <- !tokensOf_spec. congruence. Qed.

Lemma expiry_spec t : negb (timeIsSet t) || Before (a_now a) t = true <-> unexpired (a_now a) t.
Proof. rewrite unexpired_spec. destruct (timeIsSet t), (Before _ t); cbn; split; done. Qed.

Lemma tokenGood_spec hash good :
  match tokensOf state !! hash with
  | None => false
  | Some token => negb (Token_Revoked token) && good token && (negb (timeIsSet (Token_ExpiresAt token)) || Before (a_now a) (Token_ExpiresAt token))
  end = true <-> exists token, tokenInForce hash token /\ good token = true.
Proof.
  unfold tokenInForce. setoid_rewrite <- tokensOf_spec. destruct (tokensOf state !! hash) as [token|].
  - rewrite !andb_true_iff, negb_true_iff, expiry_spec. split.
    + intros [[R G] E]. by exists token.
    + by intros (t & ([= <-] & R & E) & G).
  - split; [done|]. by intros (t & (E & _) & _).
Qed.
Lemma globallyValid_spec row : authorizationGloballyValid (tokensOf state) (a_now a) row = true <->
  exists token, authorizationInForce a state row token.
Proof.
  unfold authorizationGloballyValid, authorizationInForce, authorizationExpired.
  destruct (Authorization_Active row) eqn:Ac; cbn [negb orb]; [|split; [done|by intros (t & W & _)]].
  destruct (Authorization_Revoked row) eqn:Re; cbn [orb]; [split; [done|by intros (t & _ & W & _)]|].
  destruct (timeIsSet (Authorization_ExpiresAt row) && _) eqn:Ex.
  { split; [done|]. intros (t & _ & _ & W & _). apply unexpired_spec in W. congruence. }
  apply unexpired_spec in Ex.
  rewrite (tokenGood_spec (Authorization_TokenHash row) (fun token => negb (Token_Managed token) ||
    (Authorization_TokenVersion row =? Token_Version token))). unfold tokenInForce.
  split; intros (t & W); exists t.
  - destruct W as ((T & R & E) & V). repeat (split; [done|]). intros M. rewrite M in V. by apply Z.eqb_eq.
  - destruct W as (_ & _ & _ & T & R & E & V). split; [done|]. destruct (Token_Managed t); [|done].
    apply Z.eqb_eq. by apply V.
Qed.
Lemma reservationToken_spec r : reservationTokenValid (tokensOf state) (a_now a) r = true <->
  exists token, tokenInForce (Reservation_TokenHash r) token /\ normalizeTokenMode (Token_Mode token) = "reserved".
Proof.
  unfold reservationTokenValid.
  rewrite (tokenGood_spec _ (fun token => normalizeTokenMode (Token_Mode token) =s TokenModeReserved)).
  by setoid_rewrite String.eqb_eq.
Qed.

(** The reservations of a token on a GPU, as the two maps have them. *)
Lemma classify_spec rs : forall acc key,
  let out := foldl (classifyReservation (tokensOf state) (a_now a)) acc rs in
  let about r := r ∈ rs /\ Reservation_TokenHash r <> "" /\ (Reservation_GPU r, Reservation_TokenHash r) = key in
  (mem_key (validReservations out) key = true <-> mem_key (validReservations acc) key = true \/
    exists r, about r /\ reservationTokenValid (tokensOf state) (a_now a) r = true /\ reservationInForce a r) /\
  (mem_key (staleReservations out) key = true -> mem_key (staleReservations acc) key = true \/
    exists r, about r /\ ~ upcoming r).
Proof.
  induction rs as [|r rs IH]; intros acc key; cbn zeta.
  { split; [|by left]. split; [by left|]. intros [?|(r & (I & _) & _)]; [done|by apply elem_of_nil in I]. }
  cbn [foldl]. destruct (IH (classifyReservation (tokensOf state) (a_now a) acc r) key) as [V S]. cbn zeta in V, S.
  assert (forall m k', mem_key (<[k':=true]> m) key = true <-> k' = key \/ mem_key m key = true) as Ins.
  { intros m k'. unfold mem_key. destruct (decide (k' = key)) as [->|N].
    - rewrite lookup_insert_eq. cbn. tauto.
    - rewrite lookup_insert_ne by done. tauto. }
  assert ((mem_key (validReservations (classifyReservation (tokensOf state) (a_now a) acc r)) key = true <->
      mem_key (validReservations acc) key = true \/
      (Reservation_TokenHash r <> "" /\ (Reservation_GPU r, Reservation_TokenHash r) = key /\
       reservationTokenValid (tokensOf state) (a_now a) r = true /\ reservationInForce a r)) /\
    (mem_key (staleReservations (classifyReservation (tokensOf state) (a_now a) acc r)) key = true ->
      mem_key (staleReservations acc) key = true \/
      (Reservation_TokenHash r <> "" /\ (Reservation_GPU r, Reservation_TokenHash r) = key /\ ~ upcoming r))) as [Vr Sr].
  { unfold classifyReservation. destruct (String.eqb_spec (Reservation_TokenHash r) "") as [E|N]; [tauto|]. cbv zeta.
    rewrite <- ReservationActiveAt_spec.
    destruct (reservationTokenValid _ _ r) eqn:T; cbn [andb negb orb].
    - destruct (ReservationActiveAt r (a_now a)) eqn:Ac; cbn [andb]; [cbn [validReservations staleReservations]; rewrite Ins; tauto|].
      destruct (_ || _) eqn:Ov; cbn [validReservations staleReservations]; [|split; [|tauto]; split; [tauto|by intros [?|(_ & _ & _ & ?)]]].
      split; [split; [tauto|by intros [?|(_ & _ & _ & ?)]]|]. rewrite Ins. intros [K|?]; [right|tauto].
      split; [done|]. split; [done|]. intros (_ & A & R & _ & X). rewrite A, R in Ov. cbn in Ov.
      apply negb_true_iff, Z.ltb_ge in Ov. lia.
    - cbn [validReservations staleReservations]. split; [split; [tauto|by intros [?|(_ & _ & ? & _)]]|].
      rewrite Ins. intros [K|?]; [right|tauto]. split; [done|]. split; [done|]. intros (G & _).
      apply reservationToken_spec in G. congruence. }
  split.
  - rewrite V, Vr. split.
    + intros [[?|W]|(r' & (I & W) & W')]; [by left| |]; right; [exists r|exists r'].
      * split; [|tauto]. split; [by left|tauto].
      * split; [|done]. split; [by right|done].
    + intros [?|(r' & (I & W) & W')]; [tauto|]. apply elem_of_cons in I as [->|I]; [left; right; tauto|].
      right. exists r'. tauto.
  - intros [W|(r' & (I & W) & W')]%S.
    + apply Sr in W as [?|W]; [by left|right]. exists r. split; [|tauto]. split; [by left|tauto].
    + right. exists r'. split; [|done]. split; [by right|done].
Qed.
Lemma reservedHere gpu hash :
  (mem_key (validReservations (reservedOf a state)) (gpu, hash) = true <->
    exists r, (r ∈ State_Reservations state /\ hash <> "" /\ Reservation_GPU r = gpu /\ Reservation_TokenHash r = hash) /\
      reservationTokenValid (tokensOf state) (a_now a) r = true /\ reservationInForce a r) /\
  (mem_key (staleReservations (reservedOf a state)) (gpu, hash) = true ->
    exists r, (r ∈ State_Reservations state /\ hash <> "" /\ Reservation_GPU r = gpu /\ Reservation_TokenHash r = hash) /\ ~ upcoming r).
Proof.
  destruct (classify_spec (State_Reservations state) (mkReserved ∅ ∅ ∅) (gpu, hash)) as [V S].
  unfold reservedOf, classifyReservations. split.
  - rewrite V. split.
    + intros [E|(r & (I & N & [= <- <-]) & W)]; [done|]. by exists r.
    + intros (r & (I & N & <- & <-) & W). right. by exists r.
  - intros [E|(r & (I & N & [= <- <-]) & W)]%S; [done|]. by exists r.
Qed.

Lemma mode_kind row : kindOf row (authorizationEvictionMode (tokensOf state) row).
Proof.
  unfold authorizationEvictionMode. destruct (tokensOf state !! _) as [token|] eqn:T.
  - left. exists token. by rewrite <- tokensOf_spec.
  - right. split; [|done]. intros token W. apply tokensOf_spec in W. congruence.
Qed.
Lemma mode_token row token : tokenOf state (Authorization_TokenHash row) token ->
  authorizationEvictionMode (tokensOf state) row = normalizeTokenMode (Token_Mode token).
Proof. intros T. unfold authorizationEvictionMode. apply tokensOf_spec in T. by rewrite T. Qed.

Lemma authorizationOn_spec gpu row :
  ((authorizationOn a state gpu row).1 = true <-> entitledHere gpu row) /\
  (authorizationOn a state gpu row = (false, true) -> ~ entitledHere gpu row /\ concerns gpu row).
Proof.
  pose proof (mode_kind row) as K. pose proof (globallyValid_spec row) as GV.
  destruct (reservedHere gpu (Authorization_TokenHash row)) as [V S].
  unfold authorizationOn, authorizationEvictionState. cbv zeta.
  set (mode := authorizationEvictionMode (tokensOf state) row) in *.
  set (valid := mem_key (validReservations _) _) in *. set (stale := mem_key (staleReservations _) _) in *.
  set (gv := authorizationGloballyValid _ _ row) in *.
  assert (valid = true -> mode = "reserved" -> entitledHere gpu row \/ gv = false) as Ev.
  { intros (r & (I & N & G & H) & _ & F)%V M. destruct gv; [left|by right].
    destruct (proj1 GV eq_refl) as [token A]. exists token. split; [done|]. right.
    assert (tokenOf state (Authorization_TokenHash row) token) as T by apply A.
    unfold mode in M. rewrite (mode_token row token T) in M. split; [done|]. split; [done|]. by exists r. }
  assert (entitledHere gpu row -> gv = true) as Eg by (intros (token & A & _); apply GV; by exists token).
  assert (entitledHere gpu row -> mode = "claimed" \/ mode = "managed" \/ mode = "reserved" /\ valid = true) as Em.
  { intros (token & A & C). assert (tokenOf state (Authorization_TokenHash row) token) as T by apply A.
    unfold mode. rewrite (mode_token row token T). destruct C as [[C|C]|(M & N & r & I & G & H & F)]; [by left|by right; left|].
    right; right. split; [done|]. apply V. exists r. split; [done|]. split; [|done]. apply reservationToken_spec.
    exists token. split; [|done]. rewrite H. split; [done|]. split; apply A. }
  assert (gv = true -> mode = "claimed" \/ mode = "managed" -> entitledHere gpu row) as Ec.
  { intros (token & A)%GV M. exists token. split; [done|]. left. unfold claiming.
    assert (tokenOf state (Authorization_TokenHash row) token) as T by apply A. unfold mode in M.
    by rewrite (mode_token row token T) in M. }
  assert (valid || stale = true -> exists r, r ∈ State_Reservations state /\ Reservation_GPU r = gpu /\
    Reservation_TokenHash r = Authorization_TokenHash row /\ ~ upcoming r) as Cn.
  { intros [(r & (I & N & G & H) & _ & F)%V|(r & (I & N & G & H) & U)%S]%orb_true_iff; exists r; [|done].
    split; [done|]. split; [done|]. split; [done|]. intros (_ & _ & _ & St & _). destruct F as (_ & _ & F). lia. }
  unfold concerns. destruct (String.eqb_spec mode TokenModeReserved) as [E|N1].
  { rewrite E in K. destruct gv eqn:Gv.
    - destruct valid eqn:Va.
      + destruct (Ev eq_refl E); [|done]. split; [done|done].
      + split.
        * split; [done|]. intros H. destruct (Em H) as [M|[M|[_ M]]]; by rewrite ?E in M.
        * intros [= St]. split; [|right; right; split; [done|apply Cn; by rewrite St]].
          intros H. destruct (Em H) as [M|[M|[_ M]]]; by rewrite ?E in M.
    - split; [split; [done|]; intros H; by apply Eg in H|]. intros [= St].
      split; [intros H; by apply Eg in H|]. right; right. split; [done|by apply Cn]. }
  destruct (String.eqb_spec mode TokenModeClaimed) as [E|N2].
  { rewrite E in K. cbn [fst]. split; [split; [intros G; apply Ec; auto|done]|]. intros [= -> _].
    split; [intros H; by apply Eg in H|by left]. }
  destruct (String.eqb_spec mode TokenModeManaged) as [E|N3].
  { rewrite E in K. assert ((if valid then (gv, negb gv) else (gv, negb gv || stale)).1 = gv) as -> by (by destruct valid).
    split; [split; [intros G; apply Ec; auto|done]|]. intros P. assert (gv = false) as Gv by (destruct valid; congruence).
    split; [|by right; left]. intros H. apply Eg in H. congruence. }
  cbn [fst]. split; [|done]. split; [done|]. intros H. destruct (Em H) as [M|[M|[M _]]]; done.
Qed.
Lemma leaseOn_spec gpu lease :
  ((leaseOn a state gpu lease).1 = true <-> leaseHere gpu lease) /\
  (leaseOn a state gpu lease = (false, true) -> Lease_GPU lease = gpu /\ ~ leaseHere gpu lease).
Proof.
  unfold leaseOn, leaseEvictionState, leaseHere, leaseInForce.
  destruct (Z.eqb_spec (Lease_GPU lease) gpu) as [G|N]; cbn [negb]; [|by split; [split; [done|by intros [? _]]|]]. cbv zeta.
  assert (leaseEntitledOnGPU (tokensOf state) (a_now a) gpu lease = true <->
    Lease_Active lease = true /\ a_now a < Lease_ExpiresAt lease /\
    (Lease_TokenHash lease = "" \/ exists token, tokenInForce (Lease_TokenHash lease) token)) as E.
  { unfold leaseEntitledOnGPU, Before at 1. rewrite (proj2 (Z.eqb_eq _ _) G).
    destruct (Lease_Active lease); cbn [negb orb]; [|split; [done|by intros [? _]]].
    destruct (Z.ltb_spec (a_now a) (Lease_ExpiresAt lease)); cbn [negb]; [|split; [done|intros (_ & ? & _); lia]].
    destruct (String.eqb_spec (Lease_TokenHash lease) "") as [Eh|Nh]; [tauto|].
    assert (match tokensOf state !! Lease_TokenHash lease with
      | None => false
      | Some token => negb (Token_Revoked token) &&
          (negb (timeIsSet (Token_ExpiresAt token)) || Before (a_now a) (Token_ExpiresAt token))
      end = true <-> exists token, tokenInForce (Lease_TokenHash lease) token /\ true = true) as T.
    { rewrite <- (tokenGood_spec (Lease_TokenHash lease) (fun _ => true)).
      destruct (tokensOf state !! _); [by rewrite andb_true_r|done]. }
    rewrite T. split; [intros (t & W & _); eauto|]. intros (_ & _ & [?|(t & W)]); [done|by exists t]. }
  cbn [fst]. rewrite E. split; [tauto|]. intros [= F _]. split; [done|]. intros (_ & [A L] & T).
  assert (leaseEntitledOnGPU (tokensOf state) (a_now a) gpu lease = true) by (by apply E). congruence.
Qed.
End entitlement.

Lemma evictable_unentitled a state processes v : evictable (withPlan a) state processes v -> unentitled a state processes v.
Proof.
  intros [Sa Pid Info By Au Le St]. split; [done|done|done| | | |].
  - intros X. apply bypass_exempt in X. change (BypassMatch (State_Bypasses state) (v_Info v) (a_now a) (a_BootID a) = false) in By.
    congruence.
  - intros row I E. apply (scope_answers a). apply (Au row I). by apply (authorizationOn_spec a state).
  - intros lease I E. apply (lease_answers a). apply (Le lease I). by apply (leaseOn_spec a state).
  - destruct St as [(row & I & O & M)|(lease & I & O & M)]; [left; exists row|right; exists lease].
    + apply (authorizationOn_spec a state) in O as [N C]. split; [done|]. split; [done|]. split; [done|]. by apply (scope_answers a).
    + apply (leaseOn_spec a state) in O as [G N]. split; [done|]. split; [done|]. split; [done|]. by apply (lease_answers a).
Qed.

(** * The theorems *)

(** The authorizer that plans the evictions. *)
Definition evictor (a : Authorizer) : Authorizer := withPlan a.

Lemma harmless_evictor a : harmless (evictor a).
Proof. unfold harmless. cbn. destruct (a_DryRun a); auto. Qed.

Definition firstAssessment (a : Authorizer) (state : State) : EvictionAssessment :=
  initialAssessment (tokensOf state) (reservedOf a state) (a_now a) state.

(** What the planning of the evictions returns. *)
Lemma planEvictions a state processes reader :
  a_Proc a = Some reader ->
  exists e q, evictExpiredReservedProcesses (evictor a) state processes newPass =
    (inr (e_assessment e, e_errors e), q) /\
    evicting (evictor a) state processes reader (firstAssessment a state) processes q e.
Proof.
  intros R. unfold evictExpiredReservedProcesses. change (a_Proc (evictor a)) with (a_Proc a).
  rewrite R. cbv zeta.
  destruct (evictLoop_spec (evictor a) state processes reader R (harmless_evictor a)
    (firstAssessment a state) processes []
    (mkEvict (firstAssessment a state) ∅ ∅ []) newPass) as (e & q & E & I).
  - reflexivity.
  - split; try done; cbn.
    + apply planned_start.
    + by intros k I%elem_of_nil.
  - exists e, q. split; [|done]. unfold mbind, M_bind, bind.
    change (evictLoop _ reader state _ _ _ processes newPass) with
      (evictLoop (evictor a) reader state (tokensOf state) (reservedOf (evictor a) state)
         (mkEvict (firstAssessment a state) ∅ ∅ []) processes newPass).
    by rewrite E.
Qed.

(** C10. Eviction spares the entitled.  Before invalid rows are pruned, the
    killer is called in one pass for at most eight processes, of distinct pids;
    each was sampled on a GPU and identified, no live bypass rule names it; it was found
    outside the scope of every authorization and lease that entitles its bearer to that
    GPU, where an authorization does if it and its token hold in the same version and the
    token claims free GPUs or is that of a reservation that holds there; and it was found
    in the scope of an authorization or a lease that has been about the GPU and no longer
    entitles anybody. *)
Theorem eviction_spares_entitled a schedule state processes :
  (forall jobs, schedule jobs ≡ₚ jobs) ->
  let p := final (EvictExpiredReservedProcesses a schedule state processes) newPass in
  exists requests, p_killed p = map (fun k => v_Info (k_view k)) requests /\
    (length requests <= 8)%nat /\ NoDup (map targetPID requests) /\
    Forall (fun k => unentitled a state processes (k_view k) /\ struck a k) requests.
Proof.
  intros Sch p.
  destruct (a_Proc a) as [reader|] eqn:R.
  2: { exists []. unfold p, EvictExpiredReservedProcesses, evictExpiredReservedProcesses, final.
       cbn. rewrite R. cbn. repeat split; [lia|constructor..]. }
  destruct (planEvictions a state processes reader R) as (e & q & E & [P _ _ _ _ _]).
  destruct (executePendingKills_spec a schedule (p_pending q) q)
    as (_ & _ & requests & St & Sub & K). specialize (Sub Sch).
  assert (p = final (executePendingKills a schedule (p_pending q)) q) as ->.
  { unfold p, EvictExpiredReservedProcesses, final, mbind, M_bind, bind, get, try.
    unfold evictor in E. rewrite E.
    by destruct (executePendingKills _ _ _ q) as [[] ?]. }
  exists requests. apply (planned_executed a _ q); try done.
  destruct P as [F D J Q]. split; try done. eapply Forall_impl; [exact J|].
  intros k. apply evictable_unentitled.
Qed.

(** An assessment is conclusive.  When a pass says that the stale
    authorization of an id is quiescent, no error of any kind occurred, and
    every sampled process was looked at: it is gone, or it is entitled to the
    GPU it is on, or every stale authorization of that id that matters there
    was found not to match it, or it was itself evicted on account of another
    GPU it uses.  The same holds of leases. *)
Theorem assessment_conclusive a schedule state processes reader assessment err :
  a_Proc a = Some reader ->
  result (EvictExpiredReservedProcesses a schedule state processes) newPass =
    inr (assessment, err) ->
  let check m m0 Q := forall id, m !! id = Some true ->
    m0 !! id = Some true /\ err = None /\
    Forall (examined (evictor a) state processes reader (Q id)) processes in
  check (as_Authorizations assessment) (as_Authorizations (firstAssessment a state))
    (quietAuth (evictor a) state) /\
  check (as_Leases assessment) (as_Leases (firstAssessment a state))
    (quietLease (evictor a) state).
Proof.
  intros R E check. destruct (planEvictions a state processes reader R) as (e & q & P & I).
  unfold EvictExpiredReservedProcesses, result, mbind, M_bind, bind, get, try in E.
  unfold evictor in P. rewrite P in E.
  destruct (executePendingKills a schedule (p_pending q) q) as [[kerr|[]] q'];
    injection E as <- <-.
  { split; intros id X; by apply uncertain_false in X. }
  destruct I as [_ _ _ _ A L].
  split; intros id X; [destruct (A id X) as (? & -> & ?)|destruct (L id X) as (? & -> & ?)];
    done.
Qed.

(** C21 at the sample, after the reservation's end: ann's process is evicted. *)
Lemma eviction_spares_entitled_witness :
  let p := final (EvictExpiredReservedProcesses (sample_authorizer 3000) id sample_state
             sample_processes) newPass in
  map ProcInfo_PID (p_killed p) = [10] /\
  exists requests, p_killed p = map (fun k => v_Info (k_view k)) requests /\
    (length requests <= 8)%nat /\ NoDup (map targetPID requests) /\
    Forall (fun k => unentitled (sample_authorizer 3000) sample_state sample_processes
                       (k_view k) /\ struck (sample_authorizer 3000) k) requests.
Proof.
  intros p. split; [vm_compute; reflexivity|].
  apply (eviction_spares_entitled (sample_authorizer 3000) id sample_state sample_processes).
  intros jobs. reflexivity.
Defined.

(** C22 at the revoked authorization of a container nobody runs in. *)
Lemma assessment_conclusive_witness :
  exists assessment,
    result (EvictExpiredReservedProcesses (sample_authorizer 3000) id sample_stale_state
      sample_processes) newPass = inr (assessment, None) /\
    as_Authorizations assessment !! "a2" = Some true /\
    Forall (examined (evictor (sample_authorizer 3000)) sample_stale_state sample_processes
      sample_reader (quietAuth (evictor (sample_authorizer 3000)) sample_stale_state "a2"))
      sample_processes.
Proof.
  exists (mkAssessment {[ "a2" := true ]} ∅).
  assert (result (EvictExpiredReservedProcesses (sample_authorizer 3000) id sample_stale_state
    sample_processes) newPass = inr (mkAssessment {[ "a2" := true ]} ∅, None)) as E
    by (vm_compute; reflexivity).
  split; [exact E|]. split; [vm_compute; reflexivity|].
  destruct (assessment_conclusive (sample_authorizer 3000) id sample_stale_state sample_processes
    sample_reader _ _ eq_refl E) as [C _].
  apply (C "a2"). vm_compute. reflexivity.
Defined.
