(* ===== verification/EnforceKiller.v ===== *)
(** internal/enforce/enforce.go, [RealKiller]: how one process is terminated. *)

From S2P Require Export StoreBounds.

(** * What the killer talks to

    The kernel's answers (/proc, pidfds, signals) and the time that passes
    between two instructions are outside the model: each may depend on how many
    questions were asked before it. *)

Inductive Signal : Type := SIGTERM | SIGKILL.

(** [RealKiller].  [rk_Info] reads /proc, by [Proc] or the default reader;
    [rk_signal] is nil in production, where a pidfd is opened and signalled. *)
Record RealKiller : Type := mkRealKiller
  { rk_Grace : Z;
    rk_Info : nat -> Z -> error + ProcInfo;
    rk_signal : option (nat -> Z -> Signal -> option error);
    rk_pidfdOpen : nat -> Z -> error + Z;
    rk_pidfdSend : nat -> Z -> Signal -> option error;
    rk_alive : nat -> Z -> bool;
    rk_lag : nat -> Z }.

(** What a kill did, in order: a pidfd opened, an identity read, a signal sent
    (to a pid or to a pidfd) at some time, a liveness check. *)
Inductive Event : Type :=
  | EOpen (pid : Z) (answer : error + Z)
  | EInfo (pid : Z) (answer : error + ProcInfo)
  | ESignal (signal : Signal) (target : Z + Z) (at_ : Z)
  | EAlive (pid : Z) (alive : bool).

Record Killing : Type := mkKilling { kl_tick : nat; kl_clock : Z; kl_log : list Event }.

Definition newKilling (clock : Z) : Killing := mkKilling 0 clock [].

(** One question: its number, while time passes. *)
Definition ask (k : RealKiller) : M Killing nat := fun s =>
  (inr (kl_tick s),
   mkKilling (S (kl_tick s)) (kl_clock s + rk_lag k (kl_tick s)) (kl_log s)).
Definition log (e : Event) : M Killing unit := modify (fun s =>
  mkKilling (kl_tick s) (kl_clock s) (kl_log s ++ [e])).
(** [time.Now()], in nanoseconds. *)
Definition Now (k : RealKiller) : M Killing Z := ask k ;; gets kl_clock.
(** [time.Sleep]: the clock moves on by at least [d]. *)
Definition Sleep (d : Z) : M Killing unit := modify (fun s =>
  mkKilling (kl_tick s) (kl_clock s + d) (kl_log s)).

Definition millisecond : Z := 1000000.
Definition second : Z := 1000 * millisecond.

Definition errProcessDone : string := "os: process already finished".
Definition errESRCH : string := "no such process".

(** [isNoSuchProcess]: one of the two sentinels itself, not an error that wraps
    it. *)
Definition isNoSuchProcess (err : error) : bool :=
  match err with
  | ErrorString msg => (msg =s errProcessDone) || (msg =s errESRCH)
  | _ => false
  end.

Section killer.
Context (k : RealKiller).

Definition refusing (reason : string) (pid : Z) : error :=
  Errorf ("refusing to signal pid %d: " +:+ reason) [AInt pid].

Definition validateIdentity (info : ProcInfo) : M Killing unit :=
  let pid := ProcInfo_PID info in
  fail_if ((pid <=? 0) || (ProcInfo_StartTime info =? 0))
    (refusing "process identity is unverifiable" pid) ;;
  n ← ask k;
  log (EInfo pid (rk_Info k n pid)) ;;
  match rk_Info k n pid with
  | inl err => throw (Errorf "refusing to signal pid %d: revalidate process identity: %w"
                        [AInt pid; AErr err])
  | inr current =>
      fail_if (negb (ProcInfo_PID current =? pid) || (ProcInfo_StartTime current =? 0) ||
               negb (ProcInfo_StartTime current =? ProcInfo_StartTime info))
        (refusing "process identity changed" pid)
  end.

Definition sendSignal (pid pidfd : Z) (signal : Signal) : M Killing (option error) :=
  n ← ask k;
  s ← get;
  match rk_signal k with
  | Some send => log (ESignal signal (inl pid) (kl_clock s)) ;; ret (send n pid signal)
  | None => log (ESignal signal (inr pidfd) (kl_clock s)) ;; ret (rk_pidfdSend k n pidfd signal)
  end.

Definition processAlive (pid : Z) : M Killing bool :=
  n ← ask k; log (EAlive pid (rk_alive k n pid)) ;; ret (rk_alive k n pid).

Definition pollInterval : Z := 100 * millisecond.

(** The loop of [waitForProcessExitWith]; [None] when the fuel does not
    suffice. *)
Fixpoint waitLoop (fuel : nat) (pid deadline : Z) : M Killing (option bool) :=
  match fuel with
  | O => ret None
  | S fuel =>
      alive ← processAlive pid;
      if negb alive then ret (Some true)
      else
        now ← Now k;
        let remaining := deadline - now in
        if remaining <=? 0 then ret (Some false)
        else
          Sleep (if remaining <? pollInterval then remaining else pollInterval) ;;
          waitLoop fuel pid deadline
  end.

(** Enough turns for a wait of [timeout]. *)
Definition waitFuel (timeout : Z) : nat := Z.to_nat (timeout / pollInterval) + 3.

Definition errDiverged : error := ErrorString "waitForProcessExitWith does not return".

Definition waitForProcessExitWith (pid timeout : Z) : M Killing bool :=
  now ← Now k;
  r ← waitLoop (waitFuel timeout) pid (now + timeout);
  match r with Some exited => ret exited | None => throw errDiverged end.

(** [if err := k.sendSignal(...); err != nil && !isNoSuchProcess(err)]. *)
Definition signalOrGone (pid pidfd : Z) (signal : Signal) : M Killing unit :=
  r ← sendSignal pid pidfd signal;
  match r with
  | Some err => fail_if (negb (isNoSuchProcess err)) err
  | None => ret tt
  end.

Definition graceOf : Z := if rk_Grace k <=? 0 then 2 * second else rk_Grace k.

Definition Kill (info : ProcInfo) : M Killing unit :=
  let pid := ProcInfo_PID info in
  fail_if ((pid <=? 0) || (ProcInfo_StartTime info =? 0))
    (refusing "process identity is unverifiable" pid) ;;
  pidfd ← (match rk_signal k with
           | Some _ => ret (-1)
           | None =>
               n ← ask k;
               log (EOpen pid (rk_pidfdOpen k n pid)) ;;
               match rk_pidfdOpen k n pid with
               | inl err => throw (Errorf "open pidfd for pid %d: %w" [AInt pid; AErr err])
               | inr fd => ret fd
               end
           end);
  validateIdentity info ;;
  signalOrGone pid pidfd SIGTERM ;;
  exited ← waitForProcessExitWith pid graceOf;
  if exited : bool then ret tt
  else
    validateIdentity info ;;
    signalOrGone pid pidfd SIGKILL ;;
    exited ← waitForProcessExitWith pid (500 * millisecond);
    fail_if (negb exited) (Errorf "pid %d did not exit after SIGKILL" [AInt pid]).

End killer.

(** The killer follows a protocol: no signal without a fresh check that the pid
    is still the process that was sampled, SIGKILL only after the grace period. *)

(** * The protocol *)

Section protocol.
Context (info : ProcInfo) (grace : Z).

(** The process with this pid and this start time, both known. *)
Definition sameProcess (current : ProcInfo) : Prop :=
  0 < ProcInfo_PID info /\ ProcInfo_StartTime info <> 0 /\
  ProcInfo_PID current = ProcInfo_PID info /\
  ProcInfo_StartTime current = ProcInfo_StartTime info.

Inductive phase : Type :=
  | Idle
  | Opened (target : Z + Z)
  | Verified (target : Z + Z)
  | Terminated (target : Z + Z) (since : Z)
  | Reverified (target : Z + Z) (since : Z)
  | Killed
  | Gone
  | Refused.

Inductive moves : phase -> Event -> phase -> Prop :=
  | moves_open fd : moves Idle (EOpen (ProcInfo_PID info) (inr fd)) (Opened (inr fd))
  | moves_unopened err : moves Idle (EOpen (ProcInfo_PID info) (inl err)) Refused
  | moves_verify target cur (S : sameProcess cur) :
      moves (Opened target) (EInfo (ProcInfo_PID info) (inr cur)) (Verified target)
  | moves_unverified target answer :
      moves (Opened target) (EInfo (ProcInfo_PID info) answer) Refused
  | moves_term target now :
      moves (Verified target) (ESignal SIGTERM target now) (Terminated target now)
  | moves_wait target since :
      moves (Terminated target since) (EAlive (ProcInfo_PID info) true) (Terminated target since)
  | moves_exit target since :
      moves (Terminated target since) (EAlive (ProcInfo_PID info) false) Gone
  | moves_reverify target since cur (S : sameProcess cur) :
      moves (Terminated target since) (EInfo (ProcInfo_PID info) (inr cur))
        (Reverified target since)
  | moves_replaced target since answer :
      moves (Terminated target since) (EInfo (ProcInfo_PID info) answer) Refused
  | moves_kill target since now (T : since + grace <= now) :
      moves (Reverified target since) (ESignal SIGKILL target now) Killed
  | moves_linger : moves Killed (EAlive (ProcInfo_PID info) true) Killed
  | moves_die : moves Killed (EAlive (ProcInfo_PID info) false) Gone.

Inductive trace (from : phase) : list Event -> phase -> Prop :=
  | trace_nil : trace from [] from
  | trace_snoc l e p q : trace from l p -> moves p e q -> trace from (l ++ [e]) q.

(** What precedes a signal in a trace. *)
Definition precedes (l : list Event) (p : phase) : Prop :=
  match p with
  | Verified _ | Reverified _ _ =>
      exists before cur, l = before ++ [EInfo (ProcInfo_PID info) (inr cur)] /\ sameProcess cur
  | _ => True
  end.

Lemma trace_precedes from l p :
  match from with Verified _ | Reverified _ _ => False | _ => True end ->
  trace from l p -> precedes l p.
Proof.
  intros F. induction 1 as [|l e p q T _ Mv]; [by destruct from|].
  destruct Mv; cbn; try done; by eexists _, _.
Qed.

Lemma trace_signal from l p before sig target now after :
  match from with Verified _ | Reverified _ _ => False | _ => True end ->
  trace from l p -> l = before ++ ESignal sig target now :: after ->
  exists q, trace from before q /\
    (exists q', moves q (ESignal sig target now) q').
Proof.
  intros F T. revert after. induction T as [|l e p q T IH Mv]; intros after E.
  { by destruct before. }
  destruct after as [|x after] using rev_ind.
  - apply app_inj_tail in E as [-> ->]. exists p. split; [done|by exists q].
  - rewrite app_comm_cons, app_assoc in E. apply app_inj_tail in E as [E _]. by eapply IH.
Qed.

End protocol.

(** * [RealKiller.Kill] follows it *)

Section kill.
Context (k : RealKiller) (monotonic : forall n, 0 <= rk_lag k n).

Lemma pollInterval_pos : 0 < pollInterval.
Proof. done. Qed.

(** What a wait of at most [limit] turns leaves: alive answers, the last one
    aside when the process is seen gone; and when the wait gives up, the deadline
    has passed. *)
Definition waited (limit : nat) (pid deadline : Z) (s : Killing) (r : option bool) (s' : Killing) : Prop :=
  kl_clock s <= kl_clock s' /\
  exists n, (n <= limit)%nat /\
    kl_log s' = kl_log s ++ repeat (EAlive pid true) n ++
                        (if r is Some true then [EAlive pid false] else []) /\
    (r = Some false -> deadline <= kl_clock s').

Lemma waitLoop_spec fuel pid deadline s : exists r s',
  waitLoop k fuel pid deadline s = (inr r, s') /\ waited fuel pid deadline s r s' /\
  ((1 <= fuel)%nat -> deadline - kl_clock s <= (Z.of_nat fuel - 1) * pollInterval -> r <> None).
Proof using monotonic.
  pose proof pollInterval_pos as PP.
  revert s. induction fuel as [|fuel IH]; intros s; cbn [waitLoop].
  { exists None, s. split; [done|]. split; [|lia]. split; [done|]. exists 0%nat. split; [lia|].
    by rewrite app_nil_r. }
  unfold processAlive, Now, ask, log, modify, gets, ret, Sleep, modify, mbind, M_bind, bind.
  cbn [kl_tick kl_clock kl_log].
  pose proof (monotonic (kl_tick s)) as L1. destruct (rk_alive k (kl_tick s) pid); cbn [negb].
  2: { eexists (Some true), _. split; [reflexivity|]. split; [|done]. split; [cbn; lia|].
       exists 0%nat. split; [lia|done]. }
  cbn [kl_tick kl_clock kl_log]. pose proof (monotonic (S (kl_tick s))) as L2.
  set (now := kl_clock s + rk_lag k (kl_tick s) + rk_lag k (S (kl_tick s))).
  destruct (Z.leb_spec (deadline - now) 0) as [D|D].
  { eexists (Some false), _. split; [reflexivity|]. split; [|done]. split; [cbn; lia|].
    exists 1%nat. cbn. split; [lia|]. split; [done|]. lia. }
  cbn [kl_tick kl_clock kl_log].
  set (d := if deadline - now <? pollInterval then deadline - now else pollInterval).
  assert (0 <= d <= deadline - now /\ (d = pollInterval \/ d = deadline - now)) as [Dd Dc].
  { unfold d. destruct (Z.ltb_spec (deadline - now) pollInterval); lia. }
  destruct (IH (mkKilling (S (S (kl_tick s))) (now + d) (kl_log s ++ [EAlive pid true])))
    as (r & s' & E & [C (n & Ln & Lg & T)] & Tm).
  exists r, s'. split; [exact E|]. cbn [kl_clock kl_log] in *. split; [split; [lia|]|].
  - exists (S n). split; [lia|]. split; [|done]. cbn. by rewrite Lg, <- app_assoc.
  - intros _ Fl. assert (1 <= fuel)%nat by nia. apply Tm; nia.
Qed.

Lemma waitForProcessExitWith_spec pid timeout s : exists b s',
  waitForProcessExitWith k pid timeout s = (inr b, s') /\
  waited (waitFuel timeout) pid (kl_clock s + timeout) s (Some b) s'.
Proof using monotonic.
  unfold waitForProcessExitWith, Now, ask, gets, mbind, M_bind, bind.
  cbn [kl_clock kl_tick kl_log]. pose proof (monotonic (kl_tick s)) as L.
  set (s1 := mkKilling _ _ _).
  destruct (waitLoop_spec (waitFuel timeout) pid (kl_clock s1 + timeout) s1)
    as (r & s' & E & [C (n & Ln & Lg & T)] & Tm).
  fold s1. change (kl_clock s + rk_lag k (kl_tick s)) with (kl_clock s1). rewrite E.
  destruct r as [b|].
  - exists b, s'. split; [done|]. cbn in C. split; [lia|]. exists n. split; [done|]. split; [done|].
    intros X. specialize (T X). cbn in T. lia.
  - destruct Tm; [unfold waitFuel; lia| |done]. pose proof pollInterval_pos.
    unfold waitFuel. pose proof (Z_div_mod_eq_full timeout pollInterval) as Dv.
    pose proof (Z.mod_pos_bound timeout pollInterval). destruct (Z.le_gt_cases 0 timeout).
    + assert (0 <= timeout / pollInterval) by (apply Z.div_pos; lia). nia.
    + nia.
Qed.

(** ** The steps of a kill *)

Lemma validateIdentity_spec info s :
  0 < ProcInfo_PID info -> ProcInfo_StartTime info <> 0 ->
  exists r answer s', validateIdentity k info s = (r, s') /\
    kl_clock s <= kl_clock s' /\ kl_log s' = kl_log s ++ [EInfo (ProcInfo_PID info) answer] /\
    (r = inr tt -> exists cur, answer = inr cur /\ sameProcess info cur).
Proof using monotonic.
  intros P St. unfold validateIdentity, ask, log, modify, fail_if, mbind, M_bind, bind.
  destruct (Z.leb_spec (ProcInfo_PID info) 0); [lia|].
  destruct (Z.eqb_spec (ProcInfo_StartTime info) 0); [done|]. cbn [orb].
  pose proof (monotonic (kl_tick s)) as L. cbn [ret kl_tick kl_clock kl_log].
  destruct (rk_Info k (kl_tick s) (ProcInfo_PID info)) as [err|cur] eqn:E.
  - eexists _, _, _. split; [reflexivity|]. cbn. split; [lia|done].
  - destruct (Z.eqb_spec (ProcInfo_PID cur) (ProcInfo_PID info)) as [E1|];
      destruct (Z.eqb_spec (ProcInfo_StartTime cur) 0);
      destruct (Z.eqb_spec (ProcInfo_StartTime cur) (ProcInfo_StartTime info)) as [E2|]; cbn;
      eexists _, _, _; (split; [reflexivity|]); cbn; (split; [lia|]);
      (split; [done|]); try done.
    intros _. exists cur. by repeat split.
Qed.

(** What a signal is sent to: the pid, or the pidfd. *)
Definition targetOf (pid pidfd : Z) : Z + Z :=
  match rk_signal k with Some _ => inl pid | None => inr pidfd end.

Lemma signalOrGone_spec pid pidfd sig s :
  exists r s', signalOrGone k pid pidfd sig s = (r, s') /\
    kl_clock s <= kl_clock s' /\
    kl_log s' = kl_log s ++ [ESignal sig (targetOf pid pidfd) (kl_clock s')].
Proof using monotonic.
  pose proof (monotonic (kl_tick s)) as L.
  unfold signalOrGone, sendSignal, targetOf, ask, get, log, modify, mbind, M_bind, bind.
  destruct (rk_signal k) as [send|]; cbn [ret kl_tick kl_clock kl_log].
  - destruct (send _ _ _) as [err|]; [unfold fail_if; destruct (negb _)|];
      eexists _, _; (split; [reflexivity|]); cbn; (split; [lia|done]).
  - destruct (rk_pidfdSend k _ _ _) as [err|]; [unfold fail_if; destruct (negb _)|];
      eexists _, _; (split; [reflexivity|]); cbn; (split; [lia|done]).
Qed.

(** Where a kill starts: with a test double for the signal no pidfd is opened. *)
Definition startOf (info : ProcInfo) : phase :=
  match rk_signal k with Some _ => Opened (inl (ProcInfo_PID info)) | None => Idle end.

Lemma trace_waiting info from l p n :
  moves info (graceOf k) p (EAlive (ProcInfo_PID info) true) p ->
  trace info (graceOf k) from l p ->
  trace info (graceOf k) from (l ++ repeat (EAlive (ProcInfo_PID info) true) n) p.
Proof.
  intros M. revert l. induction n as [|n IH]; intros l T; [by rewrite app_nil_r|].
  cbn [repeat]. rewrite cons_middle, app_assoc. apply IH. by econstructor.
Qed.

Lemma trace_waited limit info from p deadline s b s' :
  moves info (graceOf k) p (EAlive (ProcInfo_PID info) true) p ->
  moves info (graceOf k) p (EAlive (ProcInfo_PID info) false) Gone ->
  waited limit (ProcInfo_PID info) deadline s (Some b) s' ->
  trace info (graceOf k) from (kl_log s) p ->
  trace info (graceOf k) from (kl_log s') (if b then Gone else p).
Proof.
  intros M1 M2 [_ (n & _ & -> & _)] T. eapply trace_waiting in T; [|exact M1].
  destruct b; cbn; rewrite app_assoc; [by econstructor|by rewrite app_nil_r].
Qed.

(** The second half of a kill, from a SIGTERM that did not help. *)
Lemma kill_hard info target pidfd since s :
  0 < ProcInfo_PID info -> ProcInfo_StartTime info <> 0 ->
  target = targetOf (ProcInfo_PID info) pidfd ->
  since + graceOf k <= kl_clock s ->
  trace info (graceOf k) (startOf info) (kl_log s) (Terminated target since) ->
  exists r s' ph,
    (validateIdentity k info ;;
     signalOrGone k (ProcInfo_PID info) pidfd SIGKILL ;;
     exited ← waitForProcessExitWith k (ProcInfo_PID info) (500 * millisecond);
     fail_if (negb exited) (Errorf "pid %d did not exit after SIGKILL" [AInt (ProcInfo_PID info)]))
    s = (r, s') /\
    trace info (graceOf k) (startOf info) (kl_log s') ph /\ (r = inr tt <-> ph = Gone).
Proof using monotonic.
  intros P St -> G T. unfold mbind, M_bind, bind.
  destruct (validateIdentity_spec info s P St) as (r & answer & s1 & E & C1 & L1 & V).
  rewrite E. destruct r as [err|[]].
  { eexists _, _, Refused. split; [done|]. rewrite L1. split; [|done]. by econstructor; [|constructor]. }
  destruct (V eq_refl) as (cur & -> & S).
  assert (trace info (graceOf k) (startOf info) (kl_log s1)
    (Reverified (targetOf (ProcInfo_PID info) pidfd) since)) as T1.
  { rewrite L1. econstructor; [done|by constructor]. }
  destruct (signalOrGone_spec (ProcInfo_PID info) pidfd SIGKILL s1) as (r & s2 & -> & C2 & L2).
  assert (trace info (graceOf k) (startOf info) (kl_log s2) Killed) as T2.
  { rewrite L2. econstructor; [done|]. constructor. lia. }
  destruct r as [err|[]]; [by eexists _, _, Killed|].
  destruct (waitForProcessExitWith_spec (ProcInfo_PID info) (500 * millisecond) s2)
    as (b & s3 & -> & W).
  eapply trace_waited in T2; [|constructor|constructor|exact W].
  destruct b; cbn; [by eexists _, _, Gone|by eexists _, _, Killed].
Qed.

Lemma kill_traces info s :
  kl_log s = [] ->
  exists r s' ph, Kill k info s = (r, s') /\
    trace info (graceOf k) (startOf info) (kl_log s') ph /\ (r = inr tt <-> ph = Gone).
Proof using monotonic.
  intros L0. unfold Kill, fail_if, mbind, M_bind, bind.
  destruct (Z.leb_spec (ProcInfo_PID info) 0) as [|P]; cbn [orb].
  { eexists _, _, (startOf info). split; [reflexivity|]. rewrite L0.
    split; [constructor|]. unfold startOf. by destruct (rk_signal k). }
  destruct (Z.eqb_spec (ProcInfo_StartTime info) 0) as [|St].
  { eexists _, _, (startOf info). split; [reflexivity|]. rewrite L0.
    split; [constructor|]. unfold startOf. by destruct (rk_signal k). }
  cbn [ret]. set (opening := match rk_signal k with Some _ => _ | None => _ end).
  assert (exists r s1, opening s = (r, s1) /\ match r with
    | inl _ => trace info (graceOf k) (startOf info) (kl_log s1) Refused
    | inr pidfd => trace info (graceOf k) (startOf info) (kl_log s1)
                     (Opened (targetOf (ProcInfo_PID info) pidfd))
    end) as (r & s1 & E & T).
  { unfold opening, startOf, targetOf. clear opening. destruct (rk_signal k) as [send|].
    - eexists _, _. split; [reflexivity|]. cbn. rewrite L0. constructor.
    - unfold ask, log, modify, mbind, M_bind, bind. cbn.
      destruct (rk_pidfdOpen k (kl_tick s) (ProcInfo_PID info)) as [err|fd] eqn:O;
        eexists _, _; (split; [reflexivity|]); cbn; rewrite L0;
        (econstructor; [constructor|constructor]). }
  rewrite E. destruct r as [err|pidfd]; [by eexists _, _, Refused|].
  destruct (validateIdentity_spec info s1 P St) as (r & answer & s2 & -> & C2 & L2 & V).
  destruct r as [err|[]].
  { eexists _, _, Refused. split; [done|]. rewrite L2. split; [|done]. by econstructor; [|constructor]. }
  destruct (V eq_refl) as (cur & -> & S).
  assert (trace info (graceOf k) (startOf info) (kl_log s2)
    (Verified (targetOf (ProcInfo_PID info) pidfd))) as T2.
  { rewrite L2. econstructor; [done|by constructor]. }
  destruct (signalOrGone_spec (ProcInfo_PID info) pidfd SIGTERM s2) as (r & s3 & -> & C3 & L3).
  assert (trace info (graceOf k) (startOf info) (kl_log s3)
    (Terminated (targetOf (ProcInfo_PID info) pidfd) (kl_clock s3))) as T3.
  { rewrite L3. econstructor; [done|constructor]. }
  destruct r as [err|[]]; [by eexists _, _, (Terminated _ _)|].
  destruct (waitForProcessExitWith_spec (ProcInfo_PID info) (graceOf k) s3) as (b & s4 & -> & W).
  pose proof W as [_ (n & _ & _ & D)].
  eapply trace_waited in T3; [|constructor|constructor|exact W].
  destruct b; [by eexists _, _, Gone|].
  eapply kill_hard; try done. by apply D.
Qed.

End kill.

(** * The theorems *)

(** The signals of a log, in order. *)
Definition signals (l : list Event) : list Signal :=
  omap (fun e => if e is ESignal sig _ _ then Some sig else None) l.

(** What the trace up to a phase contains. *)
Definition told (info : ProcInfo) (from : phase) (l : list Event) (p : phase) : Prop :=
  let opened target := from = Opened target \/
    exists fd rest, l = EOpen (ProcInfo_PID info) (inr fd) :: rest /\ target = inr fd in
  let since target t := exists before mid, l = before ++ ESignal SIGTERM target t :: mid /\
    EAlive (ProcInfo_PID info) false ∉ mid in
  match p with
  | Idle => signals l = [] /\ l = []
  | Opened target | Verified target => signals l = [] /\ opened target
  | Terminated target t | Reverified target t =>
      signals l = [SIGTERM] /\ opened target /\ since target t
  | Killed => signals l = [SIGTERM; SIGKILL]
  | Gone | Refused => signals l ∈ [[]; [SIGTERM]; [SIGTERM; SIGKILL]]
  end.

Lemma signals_snoc l e :
  signals (l ++ [e]) = signals l ++ (if e is ESignal sig _ _ then [sig] else []).
Proof. unfold signals. rewrite omap_app. by destruct e. Qed.

Lemma trace_told info grace from l p :
  match from with Idle | Opened _ => True | _ => False end ->
  trace info grace from l p -> told info from l p.
Proof.
  intros F. induction 1 as [|l e p q T IH Mv].
  { destruct from; try done. split; [done|by left]. }
  assert (forall x, x ∈ [[]; [SIGTERM]; [SIGTERM; SIGKILL]] <->
    List.In x [[]; [SIGTERM]; [SIGTERM; SIGKILL]]) as In by (intros; apply list_elem_of_In).
  assert (forall (t : Z + Z),
    (from = Opened t \/ exists fd rest, l = EOpen (ProcInfo_PID info) (inr fd) :: rest /\ t = inr fd) ->
    (from = Opened t \/ exists fd rest, l ++ [e] = EOpen (ProcInfo_PID info) (inr fd) :: rest /\
       t = inr fd)) as Op.
  { intros t [|(fd & rest & -> & ->)]; [by left|right]. by eexists _, _. }
  assert (forall t since, e <> EAlive (ProcInfo_PID info) false ->
    (exists before mid, l = before ++ ESignal SIGTERM t since :: mid /\
       EAlive (ProcInfo_PID info) false ∉ mid) ->
    exists before mid, l ++ [e] = before ++ ESignal SIGTERM t since :: mid /\
      EAlive (ProcInfo_PID info) false ∉ mid) as Sn.
  { intros t since N (before & mid & -> & M). exists before, (mid ++ [e]).
    rewrite <- app_assoc. split; [done|]. intros [I|I%list_elem_of_singleton]%elem_of_app; auto. }
  destruct Mv; cbn in IH |- *; rewrite signals_snoc; cbn; rewrite ?app_nil_r.
  - destruct IH as [-> ->]. split; [done|]. right. by eexists _, _.
  - destruct IH as [-> _]. apply In. by left.
  - destruct IH as [-> O]. auto.
  - destruct IH as [-> O]. apply In. by left.
  - destruct IH as [-> O]. split; [done|]. split; [by apply Op|].
    exists l, []. split; [done|]. apply not_elem_of_nil.
  - destruct IH as (-> & O & Sc). split; [done|]. split; [by apply Op|by apply Sn].
  - destruct IH as (-> & _). apply In. by right; left.
  - destruct IH as (-> & O & Sc). split; [done|]. split; [by apply Op|by apply Sn].
  - destruct IH as (-> & _). apply In. by right; left.
  - by destruct IH as (-> & _).
  - done.
  - rewrite IH. apply In. by right; right; left.
Qed.

(** C11. The killer signals only the sampled process.  In every run of
    [RealKiller.Kill], whatever the kernel answers: the signals are none, one
    SIGTERM, or a SIGTERM and then a SIGKILL; each is sent immediately after the
    pid was read to be still the process that was sampled, with the same,
    known, start time, so a reused pid is never signalled on the strength of an
    old check; in production each goes to the pidfd that was opened before the
    first check; and the SIGKILL is sent only when the grace period has passed
    since the SIGTERM and no liveness check found the process gone. *)
Theorem killer_signals_only_the_sampled_process k info s r s' :
  (forall n, 0 <= rk_lag k n) -> kl_log s = [] -> Kill k info s = (r, s') ->
  signals (kl_log s') ∈ [[]; [SIGTERM]; [SIGTERM; SIGKILL]] /\
  forall before sig target now after,
    kl_log s' = before ++ ESignal sig target now :: after ->
    (exists earlier cur, before = earlier ++ [EInfo (ProcInfo_PID info) (inr cur)] /\
       sameProcess info cur) /\
    (rk_signal k = None -> exists fd rest,
       kl_log s' = EOpen (ProcInfo_PID info) (inr fd) :: rest /\ target = inr fd) /\
    (sig = SIGKILL -> exists earlier since mid,
       before = earlier ++ ESignal SIGTERM target since :: mid /\
       since + graceOf k <= now /\ EAlive (ProcInfo_PID info) false ∉ mid).
Proof.
  intros Mono L0 E. destruct (kill_traces k Mono info s L0) as (r' & s1 & ph & E' & T & _).
  rewrite E in E'. injection E' as <- <-.
  assert (match startOf k info with Idle | Opened _ => True | _ => False end) as F
    by (unfold startOf; by destruct (rk_signal k)).
  assert (match startOf k info with Verified _ | Reverified _ _ => False | _ => True end) as F'
    by (unfold startOf; by destruct (rk_signal k)).
  split.
  - apply trace_told in T; [|done]. destruct ph; cbn in T; try done; apply list_elem_of_In; cbn;
      destruct T as [-> ?] || rewrite T; tauto.
  - intros before sig target now after L.
    destruct (trace_signal _ _ _ _ _ _ _ _ _ _ F' T L) as (q & Tq & q' & Mv).
    pose proof (trace_precedes _ _ _ _ _ F' Tq) as P. pose proof (trace_told _ _ _ _ _ F Tq) as U.
    inversion Mv; subst; cbn in P, U; (split; [done|]).
    + destruct U as (_ & O). split; [|done]. intros N. unfold startOf in O. rewrite N in O.
      destruct O as [|(fd & rest & -> & ->)]; [done|]. rewrite L. by eexists _, _.
    + destruct U as (_ & O & since' & mid & -> & M). split.
      * intros N. unfold startOf in O. rewrite N in O.
        destruct O as [|(fd & rest & Eb & ->)]; [done|]. rewrite L, Eb. by eexists _, _.
      * intros _. by eexists _, _, _.
Qed.

(** A kill comes to an end.  Every wait for a process returns, after at
    most one liveness check per 100 ms of its timeout and three more: [true]
    when the last check found the process gone, [false] only when the timeout
    has passed and every check found it alive. *)
Theorem kill_comes_to_an_end k pid timeout s :
  (forall n, 0 <= rk_lag k n) ->
  exists exited s' n,
    waitForProcessExitWith k pid timeout s = (inr exited, s') /\
    (n <= waitFuel timeout)%nat /\
    kl_log s' = kl_log s ++ repeat (EAlive pid true) n ++
                  (if exited then [EAlive pid false] else []) /\
    (exited = false -> kl_clock s + timeout <= kl_clock s').
Proof.
  intros Mono. destruct (waitForProcessExitWith_spec k Mono pid timeout s)
    as (b & s' & E & _ & n & Ln & L & D).
  exists b, s', n. split; [done|]. split; [done|].
  split; [by destruct b|]. intros ->. by apply D.
Qed.

(** A kill succeeds exactly when the process is gone.  [RealKiller.Kill]
    returns no error if and only if the last thing it saw is a liveness check
    that found the process gone; in every other case it says why. *)
Theorem kill_succeeds_iff_gone k info s r s' :
  (forall n, 0 <= rk_lag k n) -> kl_log s = [] -> Kill k info s = (r, s') ->
  r = inr tt <-> exists before, kl_log s' = before ++ [EAlive (ProcInfo_PID info) false].
Proof.
  intros Mono L0 E. destruct (kill_traces k Mono info s L0) as (r' & s1 & ph & E' & T & G).
  rewrite E in E'. injection E' as <- <-. rewrite G. clear G E. split.
  - intros ->. inversion T as [S|l e p q T' Mv S]; [unfold startOf in *; by destruct (rk_signal k)|].
    subst. inversion Mv; subst; by exists l.
  - intros [before L]. inversion T as [S|l e p q T' Mv S]; subst.
    + rewrite L in S. by destruct before.
    + rewrite L in S. apply app_inj_tail in S as [-> ->]. by inversion Mv.
Qed.

(** ** A run *)

Definition sample_target : ProcInfo := mkProcInfo 42 7 1000 "" [] "" "" "" "".

(** A process that ignores SIGTERM, and dies of SIGKILL. *)
Definition sample_killer : RealKiller :=
  mkRealKiller (250 * millisecond) (fun _ _ => inr sample_target) None (fun _ _ => inr 5)
    (fun _ _ _ => None) (fun n _ => (n <? 14)%nat) (fun _ => 1000).

Definition sample_kill : (error + unit) * Killing :=
  Kill sample_killer sample_target (newKilling 0).

Lemma sample_lag : forall n, 0 <= rk_lag sample_killer n.
Proof. intros n. cbn. lia. Qed.

Lemma killer_signals_only_the_sampled_process_witness :
  let log := kl_log (snd sample_kill) in
  signals log = [SIGTERM; SIGKILL] /\
  forall before sig target now after, log = before ++ ESignal sig target now :: after ->
    exists earlier cur, before = earlier ++ [EInfo 42 (inr cur)] /\ sameProcess sample_target cur.
Proof.
  intros log. split; [vm_compute; reflexivity|].
  intros before sig target now after E.
  destruct (killer_signals_only_the_sampled_process sample_killer sample_target (newKilling 0)
    (fst sample_kill) (snd sample_kill) sample_lag eq_refl eq_refl) as [_ K].
  destruct (K before sig target now after E) as [V _]. exact V.
Defined.

Lemma kill_comes_to_an_end_witness :
  exists exited s' n,
    waitForProcessExitWith sample_killer 42 (250 * millisecond) (newKilling 0) =
      (inr exited, s') /\
    (n <= waitFuel (250 * millisecond))%nat /\
    kl_log s' = repeat (EAlive 42 true) n ++ (if exited then [EAlive 42 false] else []) /\
    (exited = false -> 250 * millisecond <= kl_clock s').
Proof.
  exact (kill_comes_to_an_end sample_killer 42 (250 * millisecond) (newKilling 0) sample_lag).
Defined.

Lemma kill_succeeds_iff_gone_witness :
  fst sample_kill = inr tt /\
  (fst sample_kill = inr tt <->
   exists before, kl_log (snd sample_kill) = before ++ [EAlive 42 false]).
Proof.
  split; [vm_compute; reflexivity|].
  apply (kill_succeeds_iff_gone sample_killer sample_target (newKilling 0));
    [exact sample_lag|reflexivity|].
  unfold sample_kill. destruct (Kill _ _ _). reflexivity.
Defined.
