(* ===== verification/DaemonConn.v ===== *)
(** internal/daemon/server.go: admission of connections to the daemon's socket,
    and the limits it keeps. *)

From S2P Require Export Prelude.

Definition maxRPCConnections : Z := 256.
Definition maxRPCConnectionsUID : Z := 32.
Definition reservedRootRPCConnections : Z := 16.

(** The verified credentials of a client. *)
Record peer : Type := mkPeer { peer_PID : Z; peer_UID : Z; peer_GID : Z; peer_Groups : list Z }.

(** The counters that [connectionMu] guards. *)
Record Connections : Type := mkConnections
  { uidConnections : gmap Z Z; connections : Z; nonRootConnections : Z }.

Definition noConnections : Connections := mkConnections ∅ 0 0.

(** [s.uidConnections[uid]]. *)
Definition uidCount (c : Connections) (uid : Z) : Z := default 0 (uidConnections c !! uid).

Definition acquireConnection (uid : Z) : M Connections bool :=
  c ← get;
  if maxRPCConnections <=? connections c then ret false
  else if negb (uid =? 0) &&
          ((maxRPCConnections - reservedRootRPCConnections <=? nonRootConnections c) ||
           (maxRPCConnectionsUID <=? uidCount c uid))
  then ret false
  else
    modify (fun c => mkConnections (<[uid := uidCount c uid + 1]> (uidConnections c))
      (connections c + 1)
      (if uid =? 0 then nonRootConnections c else nonRootConnections c + 1)) ;;
    ret true.

Definition releaseConnection (uid : Z) : M Connections unit :=
  c ← get;
  if uidCount c uid <=? 0 then ret tt
  else modify (fun c => mkConnections
    (if uidCount c uid <=? 1 then delete uid (uidConnections c)
     else <[uid := uidCount c uid - 1]> (uidConnections c))
    (connections c - 1)
    (if uid =? 0 then nonRootConnections c else nonRootConnections c - 1)).

(** * The accept loop

    The counters with the user ids of the connections being served, as the loop
    of [Run] and the handlers it starts leave them. *)

Record Serving : Type := mkServing { served : list Z; counters : Connections }.

Definition idle : Serving := mkServing [] noConnections.

(** One accepted connection: its peer is resolved, a slot is taken, and when the
    daemon is stopping the slot is given back at once. *)
Definition accept (resolved : error + peer) (stopping : bool) (s : Serving) : Serving :=
  match resolved with
  | inl _ => s
  | inr p =>
      if (peer_UID p <? 0) || (peer_GID p <? 0) then s
      else match acquireConnection (peer_UID p) (counters s) with
      | (inr true, c) =>
          if stopping then mkServing (served s) (final (releaseConnection (peer_UID p)) c)
          else mkServing (peer_UID p :: served s) c
      | (_, c) => mkServing (served s) c
      end
  end.

(** A handler returns: the connection at this place is closed. *)
Definition finish (i : nat) (s : Serving) : Serving :=
  match served s !! i with
  | Some uid => mkServing (delete i (served s)) (final (releaseConnection uid) (counters s))
  | None => s
  end.

Inductive serves : Serving -> Prop :=
  | serves_start : serves idle
  | serves_accept s resolved stopping : serves s -> serves (accept resolved stopping s)
  | serves_finish s i : serves s -> serves (finish i s).

(** * The counters count *)

(** The connections of a user id, and those of any user but root. *)
Definition ofUID (uid : Z) (l : list Z) : Z := llen (filter (fun u => u = uid) l).
Definition nonRoot (l : list Z) : Z := llen (filter (fun u => u <> 0) l).

(** The counters are those of the open connections, and within the limits. *)
Record counted (l : list Z) (c : Connections) : Prop := mkCounted
  { counted_all : connections c = llen l;
    counted_nonRoot : nonRootConnections c = nonRoot l;
    counted_uid : forall uid, uidConnections c !! uid =
      if ofUID uid l =? 0 then None else Some (ofUID uid l);
    counted_limit : llen l <= maxRPCConnections;
    counted_reserve : nonRoot l <= maxRPCConnections - reservedRootRPCConnections;
    counted_share : forall uid, uid <> 0 -> ofUID uid l <= maxRPCConnectionsUID }.

Lemma ofUID_nonneg uid l : 0 <= ofUID uid l.
Proof. unfold ofUID, llen. lia. Qed.

Lemma counted_count l c uid : counted l c -> uidCount c uid = ofUID uid l.
Proof.
  intros C. unfold uidCount. rewrite (counted_uid _ _ C uid).
  destruct (Z.eqb_spec (ofUID uid l) 0) as [->|]; done.
Qed.

Lemma ofUID_cons uid u l : ofUID uid (u :: l) = (if u =? uid then 1 else 0) + ofUID uid l.
Proof.
  unfold ofUID, llen. rewrite filter_cons.
  destruct (Z.eqb_spec u uid); case_decide; try done; cbn [length]; lia.
Qed.

Lemma nonRoot_cons u l : nonRoot (u :: l) = (if u =? 0 then 0 else 1) + nonRoot l.
Proof.
  unfold nonRoot, llen. rewrite filter_cons.
  destruct (Z.eqb_spec u 0); case_decide; try done; cbn [length]; lia.
Qed.

Lemma acquire_counted uid l c :
  counted l c ->
  match acquireConnection uid c with
  | (inr true, c') => counted (uid :: l) c'
  | (inr false, c') => c' = c
  | (inl _, _) => False
  end.
Proof.
  intros C. unfold acquireConnection, mbind, M_bind, bind, get, modify, ret.
  rewrite (counted_count _ _ _ C), (counted_all _ _ C), (counted_nonRoot _ _ C).
  destruct (Z.leb_spec maxRPCConnections (llen l)) as [|L]; [done|].
  destruct (negb (uid =? 0) && _) eqn:G; [done|]. cbn.
  assert (uid <> 0 -> nonRoot l < maxRPCConnections - reservedRootRPCConnections /\
                      ofUID uid l < maxRPCConnectionsUID) as Q.
  { intros N. apply Z.eqb_neq in N. rewrite N in G. cbn in G.
    apply orb_false_iff in G as [?%Z.leb_gt ?%Z.leb_gt]. lia. }
  destruct C as [A N U La R S]. split; cbn.
  - by rewrite llen_cons, A, Z.add_comm.
  - rewrite nonRoot_cons, N. destruct (uid =? 0); lia.
  - intros u. rewrite ofUID_cons. pose proof (ofUID_nonneg u l).
    destruct (Z.eqb_spec uid u) as [->|D].
    + rewrite lookup_insert_eq. unfold uidCount. rewrite U.
      destruct (Z.eqb_spec (1 + ofUID u l) 0); [lia|].
      destruct (Z.eqb_spec (ofUID u l) 0) as [->|]; [done|]. cbn. f_equal. lia.
    + by rewrite lookup_insert_ne, U.
  - rewrite llen_cons. lia.
  - rewrite nonRoot_cons. destruct (Z.eqb_spec uid 0); [lia|]. by destruct Q; [|lia].
  - intros u Nu. rewrite ofUID_cons. destruct (Z.eqb_spec uid u) as [->|]; [|by apply S].
    destruct Q; [done|lia].
Qed.

Lemma release_counted uid l l' c :
  l ≡ₚ uid :: l' -> counted l c -> counted l' (final (releaseConnection uid) c).
Proof.
  intros P C. pose proof (counted_count _ _ uid C) as E.
  assert (forall u, ofUID u l = (if uid =? u then 1 else 0) + ofUID u l') as Q.
  { intros u. rewrite <- ofUID_cons. unfold ofUID. by rewrite P. }
  assert (nonRoot l = (if uid =? 0 then 0 else 1) + nonRoot l') as Qn.
  { rewrite <- nonRoot_cons. unfold nonRoot. by rewrite P. }
  assert (llen l = 1 + llen l') as Ql by (by rewrite <- (llen_cons uid), P).
  pose proof (Q uid) as Qu. rewrite Z.eqb_refl in Qu. pose proof (ofUID_nonneg uid l').
  unfold releaseConnection, final, mbind, M_bind, bind, get, modify.
  rewrite E. destruct (Z.leb_spec (ofUID uid l) 0); [lia|].
  destruct C as [A N U La R S]. split; cbn.
  - lia.
  - destruct (uid =? 0); lia.
  - intros u. rewrite E. specialize (Q u). destruct (Z.eqb_spec uid u) as [->|D].
    + destruct (Z.leb_spec (ofUID u l) 1).
      * rewrite lookup_delete_eq. destruct (Z.eqb_spec (ofUID u l') 0); [done|lia].
      * rewrite lookup_insert_eq. destruct (Z.eqb_spec (ofUID u l') 0); [lia|]. f_equal. lia.
    + assert (forall m : gmap Z Z, m = delete uid (uidConnections c) \/
        m = <[uid := ofUID uid l - 1]> (uidConnections c) ->
        m !! u = uidConnections c !! u) as F.
      { intros m [->| ->]; [by apply lookup_delete_ne|by apply lookup_insert_ne]. }
      rewrite F by (destruct (_ <=? _); auto). rewrite U. replace (ofUID u l) with (ofUID u l') by lia.
      done.
  - lia.
  - destruct (uid =? 0); lia.
  - intros u Nu. specialize (Q u). specialize (S u Nu). destruct (uid =? u); lia.
Qed.

Lemma serves_counted s : serves s -> counted (served s) (counters s).
Proof.
  induction 1 as [|s resolved stopping _ C|s i _ C].
  - split; try done.
  - unfold accept. destruct resolved as [|p]; [done|]. destruct (_ || _); [done|].
    pose proof (acquire_counted (peer_UID p) _ _ C) as A.
    destruct (acquireConnection _ _) as [[err|[]] c]; [done| |by subst c].
    destruct stopping; cbn; [by eapply release_counted|done].
  - unfold finish. destruct (served s !! i) as [uid|] eqn:E; [|done]. cbn.
    eapply release_counted; [|done]. by apply delete_Permutation.
Qed.

(** * The theorems *)

(** Whether there is room for another connection of a user id. *)
Definition room (uid : Z) (l : list Z) : bool :=
  (llen l <? 256) && ((uid =? 0) || ((nonRoot l <? 240) && (ofUID uid l <? 32))).

Lemma accept_room s p : counted (served s) (counters s) -> 0 <= peer_UID p -> 0 <= peer_GID p ->
  served (accept (inr p) false s) =
    if room (peer_UID p) (served s) then peer_UID p :: served s else served s.
Proof.
  intros C U G. unfold accept. destruct (Z.ltb_spec (peer_UID p) 0), (Z.ltb_spec (peer_GID p) 0); try lia.
  cbn [orb]. unfold room, acquireConnection, mbind, M_bind, bind, get, modify, ret.
  rewrite (counted_count _ _ _ C), (counted_all _ _ C), (counted_nonRoot _ _ C).
  change maxRPCConnections with 256. change maxRPCConnectionsUID with 32. change reservedRootRPCConnections with 16.
  destruct (Z.leb_spec 256 (llen (served s))), (Z.ltb_spec (llen (served s)) 256); try lia; [done|].
  destruct (Z.eqb_spec (peer_UID p) 0); [done|]. cbn [negb andb orb]. change (256 - 16) with 240.
  destruct (Z.leb_spec 240 (nonRoot (served s))), (Z.ltb_spec (nonRoot (served s)) 240); try lia; [done|].
  destruct (Z.leb_spec 32 (ofUID (peer_UID p) (served s))),
    (Z.ltb_spec (ofUID (peer_UID p) (served s)) 32); try lia; done.
Qed.

Lemma llen_root l : llen l = ofUID 0 l + nonRoot l.
Proof.
  induction l as [|u l IH]; [done|]. rewrite llen_cons, ofUID_cons, nonRoot_cons. destruct (u =? 0); lia.
Qed.

(** C16. The limits on connections to the socket.  However clients connect,
    disconnect and fail to identify themselves, and whenever the daemon stops, it
    serves at most 256 connections at once, at most 240 of them for other users
    than root, and at most 32 for each of those; its counters are exactly those
    of the connections being served, so that none is lost or counted twice; a
    client that is identified is served exactly when these limits leave room for
    it; and so root is never locked out: as long as it has fewer than sixteen
    connections open itself, its next one is served, whatever the others do. *)
Theorem connection_limits s :
  serves s ->
  (llen (served s) <= 256 /\ nonRoot (served s) <= 240 /\
   forall uid, uid <> 0 -> ofUID uid (served s) <= 32) /\
  (connections (counters s) = llen (served s) /\
   nonRootConnections (counters s) = nonRoot (served s) /\
   forall uid, uidCount (counters s) uid = ofUID uid (served s)) /\
  (forall p, 0 <= peer_UID p -> 0 <= peer_GID p ->
   served (accept (inr p) false s) =
     if room (peer_UID p) (served s) then peer_UID p :: served s else served s) /\
  (ofUID 0 (served s) < 16 -> forall p, peer_UID p = 0 -> 0 <= peer_GID p ->
   served (accept (inr p) false s) = 0 :: served s).
Proof.
  intros C%serves_counted. split; [|split; [|split]].
  - split; [apply C|]. split; apply C.
  - split; [apply C|]. split; [apply C|]. intros uid. by apply counted_count.
  - intros p. by apply accept_room.
  - intros L p U G. rewrite (accept_room _ _ C), U by lia. unfold room. rewrite Z.eqb_refl.
    pose proof (counted_reserve _ _ C) as R. unfold maxRPCConnections, reservedRootRPCConnections in R.
    pose proof (llen_root (served s)). by destruct (Z.ltb_spec (llen (served s)) 256); [|lia].
Qed.

Definition sample_client (uid : Z) : peer := mkPeer 100 uid 0 [].
(** One user asks for forty connections. *)
Definition sample_serving : Serving :=
  Nat.iter 40 (accept (inr (sample_client 1000)) false) idle.

Lemma sample_serves : serves sample_serving.
Proof. unfold sample_serving. repeat apply serves_accept. apply serves_start. Qed.

Lemma connection_limits_witness :
  ofUID 1000 (served sample_serving) = 32 /\
  served (accept (inr (sample_client 1000)) false sample_serving) = served sample_serving /\
  served (accept (inr (sample_client 0)) false sample_serving) = 0 :: served sample_serving.
Proof.
  split; [vm_compute; reflexivity|].
  destruct (connection_limits sample_serving sample_serves) as (_ & _ & A & B). split.
  - rewrite (A (sample_client 1000)); [vm_compute; reflexivity|vm_compute; discriminate|vm_compute; discriminate].
  - apply B; [vm_compute; reflexivity|reflexivity|vm_compute; discriminate].
Defined.
