(* ===== verification/GoConv.v ===== *)
(** More of Go's standard library, as the daemon uses it: strconv, strings,
    unicode/utf8, sort, time formatting and path/filepath on Unix. *)

From stdpp Require Export sorting.
From S2P Require Export GoTime GoString EnforceMatch.
From Stdlib Require Import Ascii.
#[global] Open Scope Z_scope.

(** * strconv *)

(** Decimal digits, all of the string; [None] for anything else. *)
Fixpoint digits (acc : Z) (s : string) : option Z :=
  match s with
  | EmptyString => Some acc
  | String c rest => if is_digit c then digits (acc * 10 + (byte_val c - 48)) rest else None
  end.

(** [strconv.Atoi], on 64 bits; [None] is its error. *)
Definition Atoi (s : string) : option Z :=
  let '(sign, body) :=
    match s with
    | String c rest =>
        if byte_val c =? 45 then (-1, rest) else if byte_val c =? 43 then (1, rest) else (1, s)
    | EmptyString => (1, s)
    end in
  if body =s "" then None
  else match digits 0 body with
       | Some v => let z := sign * v in
                   if (- 2 ^ 63 <=? z) && (z <? 2 ^ 63) then Some z else None
       | None => None
       end.

(** [strconv.ParseBool]. *)
Definition ParseBool (s : string) : option bool :=
  if existsb (String.eqb s) ["1"; "t"; "T"; "true"; "TRUE"; "True"] then Some true
  else if existsb (String.eqb s) ["0"; "f"; "F"; "false"; "FALSE"; "False"] then Some false
  else None.

(** * strings and unicode/utf8 *)

(** The length of the valid UTF-8 sequence a byte string starts with; 0 when
    its first byte starts none. *)
Definition runeLen (l : list Z) : nat :=
  match l with
  | [] => O
  | a :: _ =>
      if a <? 128 then 1%nat
      else match decode_runes (take 2 l), decode_runes (take 3 l), decode_runes (take 4 l) with
           | [_], _, _ => if (length l <? 2)%nat then O else 2%nat
           | _, [_], _ => 3%nat
           | _, _, [_] => 4%nat
           | _, _, _ => O
           end
  end.

(** [strings.ToValidUTF8]: each maximal run of invalid bytes becomes one
    [replacement].  [fuel] is the number of bytes. *)
Fixpoint toValid (fuel : nat) (replacement : list Z) (bad : bool) (l : list Z) : list Z :=
  match fuel, l with
  | S fuel, a :: rest =>
      match runeLen l with
      | O => (if bad then [] else replacement) ++ toValid fuel replacement true rest
      | n => take n l ++ toValid fuel replacement false (drop n l)
      end
  | _, _ => []
  end.
Definition ToValidUTF8 (s replacement : string) : string :=
  let l := bytes_of_string s in
  string_of_bytes (toValid (length l) (bytes_of_string replacement) false l).

Fixpoint validBytes (fuel : nat) (l : list Z) : bool :=
  match fuel, l with
  | _, [] => true
  | S fuel, _ => match runeLen l with O => false | n => validBytes fuel (drop n l) end
  | O, _ => false
  end.
Definition ValidString (s : string) : bool :=
  let l := bytes_of_string s in validBytes (length l) l.

(** [strings.Fields], with the bytes of the field being read; a byte that starts
    no valid sequence is a rune of its own. *)
Fixpoint fieldsOf (fuel : nat) (current l : list Z) : list string :=
  let flush := match current with [] => [] | _ => [string_of_bytes current] end in
  match fuel, l with
  | S fuel, _ :: _ =>
      let n := Nat.max 1 (runeLen l) in
      if unicode_IsSpace (List.hd 0 (decode_runes (take n l)))
      then app flush (fieldsOf fuel [] (drop n l))
      else fieldsOf fuel (app current (take n l)) (drop n l)
  | _, _ => flush
  end.
Definition Fields (s : string) : list string :=
  let l := bytes_of_string s in fieldsOf (length l) [] l.

(** [strings.Cut(s, sep)] for a one-byte separator, the part before it. *)
Fixpoint cutHead (s : string) (sep : ascii) : string :=
  match s with
  | EmptyString => EmptyString
  | String c rest => if Ascii.eqb c sep then EmptyString else String c (cutHead rest sep)
  end.

(** * sort *)

Definition stringLe (s t : string) : Prop :=
  match String.compare s t with Gt => False | _ => True end.
#[export] Instance stringLe_dec s t : Decision (stringLe s t).
Proof. unfold stringLe. destruct (String.compare s t); apply _. Defined.

Lemma stringLe_le s t : stringLe s t <-> String.le s t.
Proof.
  unfold stringLe, String.le, String.leb. by destruct (String.compare s t).
Qed.

#[export] Instance stringLe_po : PartialOrder stringLe.
Proof.
  split; [split|].
  - intros s. by apply stringLe_le.
  - intros s t u. rewrite !stringLe_le. by intros; etrans.
  - intros s t. rewrite !stringLe_le. intros A B. by apply (anti_symm String.le).
Qed.

#[export] Instance stringLe_total : Total stringLe.
Proof. intros s t. rewrite !stringLe_le. apply String.le_total. Qed.

Definition sort_Strings : list string -> list string := merge_sort stringLe.
Definition sort_Ints : list Z -> list Z := merge_sort Z.le.

(** * time.RFC3339, in UTC *)

Definition daysOfMonth (leap : bool) : list Z :=
  [31; if leap then 29 else 28; 31; 30; 31; 30; 31; 31; 30; 31; 30; 31].

Fixpoint monthDay (month day : Z) (lengths : list Z) : Z * Z :=
  match lengths with
  | [] => (month, day)
  | n :: rest => if day <? n then (month, day) else monthDay (month + 1) (day - n) rest
  end.

(** The year, month and day of a day counted from January 1, year 1. *)
Definition civil (day : Z) : Z * Z * Z :=
  let n400 := day / 146097 in
  let r := day mod 146097 in
  let n100 := Z.min 3 (r / 36524) in
  let r := r - n100 * 36524 in
  let n4 := r / 1461 in
  let r := r mod 1461 in
  let n1 := Z.min 3 (r / 365) in
  let r := r - n1 * 365 in
  let year := 400 * n400 + 100 * n100 + 4 * n4 + n1 + 1 in
  let leap := (n1 =? 3) && (negb (n4 =? 24) || (n100 =? 3)) in
  let '(month, d) := monthDay 1 r (daysOfMonth leap) in (year, month, d + 1).

Fixpoint zeros (n : nat) : string := match n with O => "" | S n => "0" +:+ zeros n end.
Definition padded (width : nat) (z : Z) : string :=
  let s := Itoa z in zeros (width - String.length s) +:+ s.

Definition FormatRFC3339 (t : time) : string :=
  let seconds := t / Second in
  let '(year, month, day) := civil (seconds / 86400) in
  let s := seconds mod 86400 in
  padded 4 year +:+ "-" +:+ padded 2 month +:+ "-" +:+ padded 2 day +:+ "T" +:+
  padded 2 (s / 3600) +:+ ":" +:+ padded 2 (s / 60 mod 60) +:+ ":" +:+ padded 2 (s mod 60) +:+
  "Z".

Example rfc3339_epoch : FormatRFC3339 (62135596800 * Second) = "1970-01-01T00:00:00Z".
Proof. vm_compute. reflexivity. Qed.
Example rfc3339_leap :
  FormatRFC3339 ((62135596800 + 1709204401) * Second + 5) = "2024-02-29T11:00:01Z".
Proof. vm_compute. reflexivity. Qed.

(** * path/filepath *)

Definition IsAbs (path : string) : bool := HasPrefix path "/".

(** [filepath.Join] of two elements: empty ones are dropped. *)
Definition PathJoin (a b : string) : string :=
  if a =s "" then (if b =s "" then "" else Clean b)
  else if b =s "" then Clean a else Clean (a +:+ "/" +:+ b).

(** The components of a path. *)
Definition components (path : string) : list string :=
  filter (fun c => c <> "") (Split path "/"%char).

Definition PathBase (path : string) : string :=
  if path =s "" then "."
  else match components path with [] => "/" | cs => List.last cs "" end.

(** [filepath.Abs], with the answer of [os.Getwd]. *)
Definition PathAbs (cwd : error + string) (path : string) : error + string :=
  if IsAbs path then inr (Clean path)
  else match cwd with inl e => inl e | inr dir => inr (PathJoin dir path) end.

(** What two paths leave after their common components. *)
Fixpoint stripCommon (base target : list string) : list string * list string :=
  match base, target with
  | b :: base', t :: target' => if b =s t then stripCommon base' target' else (base, target)
  | _, _ => (base, target)
  end.

(** [filepath.Rel] of two clean absolute paths. *)
Definition PathRel (base target : string) : string :=
  if target =s base then "."
  else let '(up, down) := stripCommon (components base) (components target) in
       Join (app (map (fun _ => "..") up) down) "/".
