(* ===== verification/Telemetry.v ===== *)
(** internal/telemetry/telemetry.go: the payloads of the events a node records, and what it says of
    itself. *)

From S2P Require Export Model.

Record Info : Type := mkInfo
  { Info_NodeID : string; Info_BootID : string; Info_StreamID : string;
    Info_TelemetrySchema : Z; Info_Capabilities : list string }.

Record ReservationMember : Type := mkReservationMember
  { ReservationMember_ReservationID : string; ReservationMember_GPU : Z }.

Record ReservationUpsert : Type := mkReservationUpsert
  { ReservationUpsert_ExternalSessionID : string; ReservationUpsert_HistoryQuality : string;
    ReservationUpsert_GroupID : string; ReservationUpsert_Holder : string;
    ReservationUpsert_Purpose : string; ReservationUpsert_CreatedAt : time;
    ReservationUpsert_StartsAt : time; ReservationUpsert_ExpiresAt : time;
    ReservationUpsert_Members : list ReservationMember }.

Record ReservationEnded : Type := mkReservationEnded
  { ReservationEnded_GroupID : string; ReservationEnded_EndedAt : time;
    ReservationEnded_Reason : string }.

Record AuthorizationUpsert : Type := mkAuthorizationUpsert
  { AuthorizationUpsert_AuthorizationID : string; AuthorizationUpsert_GroupID : string;
    AuthorizationUpsert_GroupIDs : list string; AuthorizationUpsert_Mode : string;
    AuthorizationUpsert_Holder : string; AuthorizationUpsert_Command : list string;
    AuthorizationUpsert_ContainerID : string; AuthorizationUpsert_ContainerPattern : string;
    AuthorizationUpsert_Namespace : string; AuthorizationUpsert_Username : string;
    AuthorizationUpsert_CreatedAt : time; AuthorizationUpsert_ExpiresAt : time }.

Record AuthorizationEnded : Type := mkAuthorizationEnded
  { AuthorizationEnded_AuthorizationID : string; AuthorizationEnded_EndedAt : time;
    AuthorizationEnded_Reason : string }.

Record JobEvent : Type := mkJobEvent
  { JobEvent_ExecutionID : string; JobEvent_AuthorizationID : string; JobEvent_GroupID : string;
    JobEvent_GroupIDs : list string; JobEvent_TokenMode : string; JobEvent_Source : string;
    JobEvent_Mode : string; JobEvent_Holder : string; JobEvent_PID : Z;
    JobEvent_ProcStartTicks : Z; JobEvent_Command : list string; JobEvent_GPUs : list Z;
    JobEvent_StartedAt : option time; JobEvent_RootExitedAt : option time;
    JobEvent_FinishedAt : option time; JobEvent_StartPrecision : string;
    JobEvent_FinishPrecision : string; JobEvent_ExitCode : option Z; JobEvent_Reason : string }.

Record GPUSampleEntry : Type := mkGPUSampleEntry
  { GPUSampleEntry_GPU : Z; GPUSampleEntry_GroupID : string;
    GPUSampleEntry_UtilizationPct : option float64; GPUSampleEntry_MemoryUsedBytes : option Z;
    GPUSampleEntry_MemoryTotalBytes : option Z }.

Record GPUSample : Type := mkGPUSample
  { GPUSample_WindowStart : time; GPUSample_WindowEnd : time; GPUSample_Status : string;
    GPUSample_GPUs : list GPUSampleEntry }.

Record Gap : Type := mkGap
  { Gap_From : time; Gap_To : time; Gap_Reason : string }.

(** The events, by their type and payload. *)
Inductive TelemetryEvent : Type :=
  | EventDaemonStarted (started_at : time)
  | EventReservationUpsert (payload : ReservationUpsert)
  | EventReservationEnded (payload : ReservationEnded)
  | EventAuthorizationUpsert (payload : AuthorizationUpsert)
  | EventAuthorizationEnded (payload : AuthorizationEnded)
  | EventJobStarted (payload : JobEvent)
  | EventJobUpdated (payload : JobEvent)
  | EventJobFinished (payload : JobEvent)
  | EventGPUSample (payload : GPUSample)
  | EventGap (payload : Gap).
