(* ===== verification/DaemonDecode.v ===== *)
(** internal/daemon/request_args.go: decoding the arguments of a request, within
    limits that hold while decoding, after the checks of decoded arguments and the small
    pure helpers of internal/daemon/server.go.

    The values of encoding/json are trees here: [ParseJSON] is the tokens of
    [json.Decoder] put together, and fails where the decoder would; since
    decoding has no other effect than its answer, reading the whole value first
    changes only which of two errors is reported. *)

From S2P Require Export StoreRegister EnforceMatch GoConv.

(** * The checks of a request's arguments *)

From Stdlib Require Import Ascii.

(** * Limits *)

Definition maxRPCIDBytes : Z := 128.
Definition maxRPCMethodBytes : Z := 64.
Definition maxRPCTokenBytes : Z := 256.
Definition maxGPUIndex : Z := 1023.
Definition maxGPUsPerRequest : Z := 64.
Definition maxRequestValue : Z := 4096.
Definition maxRunCommandArgs : Z := 1024.
Definition maxRunCommandBytes : Z := 256 * 1024.
Definition maxRunEnvEntries : Z := 4096.
Definition maxRunEnvBytes : Z := 512 * 1024.

(** * The arguments of the methods (internal/protocol) *)

Record RegisterArgs : Type := mkRegisterArgs
  { RegisterArgs_RootKey : string; RegisterArgs_Mode : string; RegisterArgs_Name : string;
    RegisterArgs_Purpose : string; RegisterArgs_ExternalSessionID : string;
    RegisterArgs_UserKeyID : string; RegisterArgs_GPUs : list Z; RegisterArgs_TTL : string;
    RegisterArgs_StartsAt : option time; RegisterArgs_ExpiresAt : option time }.

Record RunArgs : Type := mkRunArgs
  { RunArgs_Command : list string; RunArgs_Workdir : string; RunArgs_Env : list string }.

Record BypassAddArgs : Type := mkBypassAddArgs
  { BypassAddArgs_RootKey : string; BypassAddArgs_Type : string; BypassAddArgs_PID : Z;
    BypassAddArgs_Command : string; BypassAddArgs_UID : Z; BypassAddArgs_TTL : string;
    BypassAddArgs_Reason : string }.

Record RevokeArgs : Type := mkRevokeArgs { RevokeArgs_RootKey : string; RevokeArgs_ID : string }.

Record AllowArgs : Type := mkAllowArgs
  { AllowArgs_ID : string; AllowArgs_UserKeyID : string; AllowArgs_Mode : string;
    AllowArgs_Container : string; AllowArgs_Namespace : string; AllowArgs_User : string }.

Record TokenInfoArgs : Type := mkTokenInfoArgs { TokenInfoArgs_Token : string }.
Record RootKeyArgs : Type := mkRootKeyArgs { RootKeyArgs_RootKey : string }.
Record DockerAllowArgs : Type := mkDockerAllowArgs { DockerAllowArgs_Container : string }.
Record K8sAllowArgs : Type := mkK8sAllowArgs { K8sAllowArgs_Namespace : string }.
Record UserAllowArgs : Type := mkUserAllowArgs { UserAllowArgs_User : string }.

(** model.AllowResult. *)
Record AllowResult : Type := mkAllowResult
  { AllowResult_AuthorizationID : string; AllowResult_Mode : string;
    AllowResult_ContainerID : string; AllowResult_ContainerPattern : string;
    AllowResult_Namespace : string; AllowResult_Username : string;
    AllowResult_ExpiresAt : option time }.

(** * Values *)

Definition hasWildcard (value : string) : bool := Contains value "*".

Definition validateRequestValue (label value : string) : option error :=
  if maxRequestValue <? slen value
  then Some (Errorf "%s must be at most %d bytes" [AStr label; AInt maxRequestValue]) else None.

(** The loop of [validateStringArray], with the bytes so far. *)
Fixpoint validateStrings (maxBytes totalBytes : Z) (label : string) (values : list string)
    : option error :=
  match values with
  | [] => None
  | value :: rest =>
      if maxBytes - totalBytes <? slen value
      then Some (Errorf "%s exceeds %d bytes" [AStr label; AInt maxBytes])
      else validateStrings maxBytes (totalBytes + slen value) label rest
  end.

Definition validateStringArray (values : list string) (maxEntries maxBytes : Z) (label : string)
    : option error :=
  if maxEntries <? llen values
  then Some (Errorf "%s has more than %d entries" [AStr label; AInt maxEntries])
  else validateStrings maxBytes 0 label values.

Definition validateRunArgs (args : RunArgs) : option error :=
  if llen (RunArgs_Command args) =? 0 then Some (ErrorString "command is required")
  else orElse (validateStringArray (RunArgs_Command args) maxRunCommandArgs maxRunCommandBytes
                 "command")
         (orElse (validateStringArray (RunArgs_Env args) maxRunEnvEntries maxRunEnvBytes "env")
            (validateRequestValue "workdir" (RunArgs_Workdir args))).

(** * GPUs *)

(** The loop of [validateGPUs], with the map of those seen. *)
Fixpoint validateEach (seen : gmap Z bool) (gpus : list Z) : option error :=
  match gpus with
  | [] => None
  | gpu :: rest =>
      if (gpu <? 0) || (maxGPUIndex <? gpu)
      then Some (Errorf "gpu must be between 0 and %d" [AInt maxGPUIndex])
      else if mem_gpu seen gpu then Some (Errorf "duplicate gpu %d" [AInt gpu])
      else validateEach (<[gpu := true]> seen) rest
  end.

Definition validateGPUs (gpus : list Z) : option error :=
  if llen gpus =? 0 then Some (ErrorString "at least one gpu is required")
  else if maxGPUsPerRequest <? llen gpus
  then Some (Errorf "at most %d gpus may be requested" [AInt maxGPUsPerRequest])
  else validateEach ∅ gpus.

(** [s.Cfg.GPUCount]: 0 when the inventory is not configured. *)
Definition validateConfiguredGPUs (gpuCount : Z) (gpus : list Z) : option error :=
  orElse (validateGPUs gpus)
    (if 0 <? gpuCount then
       match find (fun gpu => gpuCount <=? gpu) gpus with
       | Some gpu => Some (Errorf "gpu %d is outside configured inventory of %d GPUs"
                                  [AInt gpu; AInt gpuCount])
       | None => None
       end
     else None).

(** * The environment and the groups of a command *)

Definition commandEnv (env : list string) : list string :=
  filter (fun item => negb (HasPrefix item "KEY=" || HasPrefix item "ROOT_KEY=" ||
                            HasPrefix item "GPUARDIAN_WEB_PASSWORD=") = true) env.

(** [strconv.ParseUint(field, 10, 32)]: decimal digits, no sign, below 2^32. *)
Fixpoint parseDigits (acc : Z) (s : string) : option Z :=
  match s with
  | EmptyString => Some acc
  | String c rest =>
      let d := byte_val c - 48 in
      if (0 <=? d) && (d <=? 9)
      then let acc := acc * 10 + d in if acc <? 2 ^ 32 then parseDigits acc rest else None
      else None
  end.
Definition ParseUint32 (s : string) : option Z :=
  if s =s "" then None else parseDigits 0 s.

(** The loop of [normalizePeerGroups] after the primary group. *)
Fixpoint addGroups (seen : gmap Z bool) (fields : list string) : list Z :=
  match fields with
  | [] => []
  | field :: rest =>
      match ParseUint32 field with
      | None => addGroups seen rest
      | Some gid =>
          if mem_gpu seen gid then addGroups seen rest
          else gid :: addGroups (<[gid := true]> seen) rest
      end
  end.

(** [uint32(primaryGID)]. *)
Definition uint32 (z : Z) : Z := z mod 2 ^ 32.

Definition normalizePeerGroups (primaryGID : Z) (groupIDs : list string) : list Z :=
  uint32 primaryGID :: addGroups {[ uint32 primaryGID := true ]} groupIDs.

(** * The boot id *)

Definition hexDigit (c : ascii) : bool :=
  let v := byte_val c in
  ((48 <=? v) && (v <=? 57)) || ((97 <=? v) && (v <=? 102)) || ((65 <=? v) && (v <=? 70)).

(** The loop over the characters, all of which must be ASCII to pass. *)
Fixpoint bootIDShape (i : Z) (value : string) : bool :=
  match value with
  | EmptyString => true
  | String c rest =>
      (if (i =? 8) || (i =? 13) || (i =? 18) || (i =? 23) then byte_val c =? 45 else hexDigit c)
      && bootIDShape (i + 1) rest
  end.

(** [readBootID] on what the file holds, at most 129 bytes of it being read. *)
Definition parseBootID (data : string) : option string :=
  let value := TrimSpace (stake 129 data) in
  if negb (slen value =? 36) then None
  else if bootIDShape 0 value then Some (ToLower value) else None.

(** * Validity of tokens for the clean-up *)

Definition tokenValidityByHash (tokens : list Token) (now : time) : gmap string bool :=
  foldl (fun valid token => <[Token_Hash token :=
    negb (Token_Revoked token) &&
    (negb (timeIsSet (Token_ExpiresAt token)) || Before now (Token_ExpiresAt token))]> valid)
    ∅ tokens.

Definition tokenValidForCleanup (valid : gmap string bool) (tokenHash : string) : bool :=
  (tokenHash =s "") || mem_bool valid tokenHash.

Definition authorizationExpiredAt (authorization : Authorization) (now : time) : bool :=
  timeIsSet (Authorization_ExpiresAt authorization) &&
  negb (Before now (Authorization_ExpiresAt authorization)).

Inductive jvalue : Type :=
  | JNull
  | JBool (b : bool)
  | JNumber (literal : string)
  | JString (s : string)
  | JArray (values : list jvalue)
  | JObject (members : list (string * jvalue)).

(** encoding/json, a parameter: the value in a text, the time in an RFC 3339
    string, and [json.Unmarshal] into the argument structures that the daemon
    decodes without limits of its own; the arguments of token_info are used even
    when decoding them fails. *)
Class ArgsJSON : Type := {
  ParseJSON : string -> error + jvalue;
  UnmarshalTime : string -> error + time;
  UnmarshalDocker : string -> error + DockerAllowArgs;
  UnmarshalK8s : string -> error + K8sAllowArgs;
  UnmarshalUser : string -> error + UserAllowArgs;
  UnmarshalWho : string -> error + Z;
  UnmarshalTokenInfo : string -> TokenInfoArgs;
  UnmarshalRootKey : string -> error + RootKeyArgs;
  UnmarshalBypass : string -> error + BypassAddArgs;
  UnmarshalRevoke : string -> error + RevokeArgs
}.

(** protocol.Request *)
Record Request : Type := mkRequest
  { Request_ID : string; Request_Method : string; Request_Token : string;
    Request_Args : string }.

(** [decoder.Decode] into a zero string, int or time pointer: null leaves it. *)
Definition unmarshalTypeError (kind : string) : error :=
  Errorf "json: cannot unmarshal value into Go value of type %s" [AStr kind].

Definition decodeString (v : jvalue) : error + string :=
  match v with
  | JNull => inr ""
  | JString s => inr s
  | _ => inl (unmarshalTypeError "string")
  end.

Definition decodeInt (v : jvalue) : error + Z :=
  match v with
  | JNull => inr 0
  | JNumber literal =>
      match Atoi literal with Some z => inr z | None => inl (unmarshalTypeError "int") end
  | _ => inl (unmarshalTypeError "int")
  end.

Definition decodeTime `{ArgsJSON} (v : jvalue) : error + option time :=
  match v with
  | JNull => inr None
  | JString s => match UnmarshalTime s with inr t => inr (Some t) | inl e => inl e end
  | _ => inl (unmarshalTypeError "time.Time")
  end.

(** * Arrays *)

Definition tooMany (label : string) (maxEntries : Z) : error :=
  Errorf "%s has more than %d entries" [AStr label; AInt maxEntries].

Fixpoint decodeInts (maxEntries : Z) (label : string) (count : Z) (values : list jvalue)
    : error + list Z :=
  match values with
  | [] => inr []
  | v :: rest =>
      if maxEntries <=? count then inl (tooMany label maxEntries)
      else match decodeInt v with
           | inl e => inl (Errorf "decode %s entry: %w" [AStr label; AErr e])
           | inr z => match decodeInts maxEntries label (count + 1) rest with
                      | inl e => inl e
                      | inr zs => inr (z :: zs)
                      end
           end
  end.

Definition decodeBoundedIntArray (v : jvalue) (maxEntries : Z) (label : string)
    : error + list Z :=
  match v with
  | JNull => inr []
  | JArray values => decodeInts maxEntries label 0 values
  | _ => inl (Errorf "%s must be an array" [AStr label])
  end.

Fixpoint decodeStrings (maxEntries maxBytes : Z) (label : string) (count totalBytes : Z)
    (values : list jvalue) : error + list string :=
  match values with
  | [] => inr []
  | v :: rest =>
      if maxEntries <=? count then inl (tooMany label maxEntries)
      else match decodeString v with
           | inl e => inl (Errorf "decode %s entry: %w" [AStr label; AErr e])
           | inr s =>
               if maxBytes - totalBytes <? slen s
               then inl (Errorf "%s exceeds %d bytes" [AStr label; AInt maxBytes])
               else match decodeStrings maxEntries maxBytes label (count + 1)
                            (totalBytes + slen s) rest with
                    | inl e => inl e
                    | inr ss => inr (s :: ss)
                    end
           end
  end.

Definition decodeBoundedStringArray (v : jvalue) (maxEntries maxBytes : Z) (label : string)
    : error + list string :=
  match v with
  | JNull => inr []
  | JArray values => decodeStrings maxEntries maxBytes label 0 0 values
  | _ => inl (Errorf "%s must be an array" [AStr label])
  end.

(** * Objects *)

(** The loop over the members: no name twice, each decoded into the arguments
    read so far. *)
Fixpoint decodeMembers {A} (decodeField : string -> jvalue -> A -> error + A)
    (seen : gmap string bool) (args : A) (members : list (string * jvalue)) : error + A :=
  match members with
  | [] => inr args
  | (field, v) :: rest =>
      if mem_bool seen field then inl (Errorf "duplicate RPC argument %q" [AStr field])
      else match decodeField field v args with
           | inl e => inl e
           | inr args => decodeMembers decodeField (<[field := true]> seen) args rest
           end
  end.

Definition decodeRPCArgsObject `{ArgsJSON} {A} (decodeField : string -> jvalue -> A -> error + A)
    (zero : A) (raw : string) : error + A :=
  match ParseJSON raw with
  | inl e => inl e
  | inr (JObject members) => decodeMembers decodeField ∅ zero members
  | inr _ => inl (ErrorString "RPC arguments must be a JSON object")
  end.

(** [decoder.Decode(&args.Field)]: the decoded value put into the arguments. *)
Definition into {A B} (r : error + A) (set : A -> B) : error + B :=
  match r with inl e => inl e | inr x => inr (set x) end.

Definition RegisterArgs_zero : RegisterArgs := mkRegisterArgs "" "" "" "" "" "" [] "" None None.
Definition RunArgs_zero : RunArgs := mkRunArgs [] "" [].

Definition decodeRegisterField `{ArgsJSON} (field : string) (v : jvalue) (a : RegisterArgs)
    : error + RegisterArgs :=
  let 'mkRegisterArgs rootKey mode name purpose session userKey gpus ttl startsAt expiresAt := a in
  if field =s "root_key" then into (decodeString v) (fun x =>
    mkRegisterArgs x mode name purpose session userKey gpus ttl startsAt expiresAt)
  else if field =s "mode" then into (decodeString v) (fun x =>
    mkRegisterArgs rootKey x name purpose session userKey gpus ttl startsAt expiresAt)
  else if field =s "name" then into (decodeString v) (fun x =>
    mkRegisterArgs rootKey mode x purpose session userKey gpus ttl startsAt expiresAt)
  else if field =s "purpose" then into (decodeString v) (fun x =>
    mkRegisterArgs rootKey mode name x session userKey gpus ttl startsAt expiresAt)
  else if field =s "external_session_id" then into (decodeString v) (fun x =>
    mkRegisterArgs rootKey mode name purpose x userKey gpus ttl startsAt expiresAt)
  else if field =s "user_key_id" then into (decodeString v) (fun x =>
    mkRegisterArgs rootKey mode name purpose session x gpus ttl startsAt expiresAt)
  else if field =s "gpus" then into (decodeBoundedIntArray v maxGPUsPerRequest "gpus") (fun x =>
    mkRegisterArgs rootKey mode name purpose session userKey x ttl startsAt expiresAt)
  else if field =s "ttl" then into (decodeString v) (fun x =>
    mkRegisterArgs rootKey mode name purpose session userKey gpus x startsAt expiresAt)
  else if field =s "starts_at" then into (decodeTime v) (fun x =>
    mkRegisterArgs rootKey mode name purpose session userKey gpus ttl x expiresAt)
  else if field =s "expires_at" then into (decodeTime v) (fun x =>
    mkRegisterArgs rootKey mode name purpose session userKey gpus ttl startsAt x)
  else inl (Errorf "unknown register argument %q" [AStr field]).

Definition decodeRegisterArgs `{ArgsJSON} (raw : string) : error + RegisterArgs :=
  decodeRPCArgsObject decodeRegisterField RegisterArgs_zero raw.

Definition decodeRunField (field : string) (v : jvalue) (a : RunArgs) : error + RunArgs :=
  let 'mkRunArgs command workdir env := a in
  if field =s "command" then
    into (decodeBoundedStringArray v maxRunCommandArgs maxRunCommandBytes "command")
      (fun x => mkRunArgs x workdir env)
  else if field =s "workdir" then into (decodeString v) (fun x => mkRunArgs command x env)
  else if field =s "env" then
    into (decodeBoundedStringArray v maxRunEnvEntries maxRunEnvBytes "env")
      (fun x => mkRunArgs command workdir x)
  else inl (Errorf "unknown run argument %q" [AStr field]).

Definition decodeRunArgs `{ArgsJSON} (raw : string) : error + RunArgs :=
  match decodeRPCArgsObject decodeRunField RunArgs_zero raw with
  | inl e => inl e
  | inr args => match validateRunArgs args with Some e => inl e | None => inr args end
  end.
