(* ===== verification/Daemon.v ===== *)
(** internal/daemon/server.go: the state of the daemon, what it talks to, and
    the operations its handlers share. *)

From S2P Require Export StoreInv Config Telemetry DaemonDecode DaemonConn EnforceEvict.

(** The parts of an [exec.Cmd] that the daemon sets: what to run, where, with
    which environment, whether it is born in the cgroup that is open, and the
    user, group and groups it runs as. *)
Record Cmd : Type := mkCmd
  { cmd_Args : list string; cmd_Dir : string; cmd_Env : list string; cmd_UseCgroupFD : bool;
    cmd_Credential : option (Z * Z * list Z) }.

(** * What happens

    The events of a handler: the critical sections of [enforceMu], the answers
    that later steps rely on, the calls of the store that change its rows, and
    what is done to processes and cgroups.  The trace is a history variable: no
    handler reads it. *)
Inductive event : Type :=
  | Locked
  | Unlocked
  | Clock (now : time)
  | RootKeyAccepted (key : string)
  | TokenAccepted (secret : string) (now : time) (token : Token) (hash : string)
  | ManagedAccepted (id : string) (now : time) (token : Token)
  | Snapshotted (state : State)
  | FoundFree (state : State) (gpu : Z)
  | Identified (pid : Z) (info : ProcInfo)
  | Called (m : method) (err : option error)
  | Assessed (assessment : EvictionAssessment) (err : option error)
  | Enforced (processes : list GPUProcess) (decisions : list Decision)
  | FoundEmpty (path : string)
  | CgroupCreated (path : string)
  | CgroupKilled (path : string)
  | CgroupRemoved (path : string)
  | Opened (path : string)
  | Started (pid : Z) (path : string) (cmd : Cmd)
  | FoundGone (pid : Z)
  | FoundExited (path : string) (pid : Z)
  | Signalled (pid signal : Z)
  | Terminated (pid : Z)
  | Emitted (e : TelemetryEvent).

(** * The daemon *)

Record observedTelemetryJob : Type := mkObservedJob
  { oj_event : JobEvent; oj_lastSeen : time; oj_missed : Z }.

(** The fields of [Server] that its handlers change, with the number of
    questions asked so far and whether this handler holds [enforceMu]. *)
Record Server : Type := mkServer
  { sv_Store : Store;
    sv_tick : nat;
    sv_locked : bool;
    sv_evictionClean : gmap string Z;
    sv_GPUError : string * time;
    sv_KillError : string * time;
    sv_processRead : option (list GPUProcess * option error);
    sv_telemetryGapFrom : time;
    sv_observedJobs : gmap string observedTelemetryJob;
    sv_runJobs : gmap string JobEvent;
    sv_trace : list event }.

Definition set_Store st s := mkServer st (sv_tick s) (sv_locked s) (sv_evictionClean s)
  (sv_GPUError s) (sv_KillError s) (sv_processRead s) (sv_telemetryGapFrom s) (sv_observedJobs s)
  (sv_runJobs s) (sv_trace s).
Definition set_tick n s := mkServer (sv_Store s) n (sv_locked s) (sv_evictionClean s)
  (sv_GPUError s) (sv_KillError s) (sv_processRead s) (sv_telemetryGapFrom s) (sv_observedJobs s)
  (sv_runJobs s) (sv_trace s).
Definition set_locked b s := mkServer (sv_Store s) (sv_tick s) b (sv_evictionClean s)
  (sv_GPUError s) (sv_KillError s) (sv_processRead s) (sv_telemetryGapFrom s) (sv_observedJobs s)
  (sv_runJobs s) (sv_trace s).
Definition set_evictionClean m s := mkServer (sv_Store s) (sv_tick s) (sv_locked s) m
  (sv_GPUError s) (sv_KillError s) (sv_processRead s) (sv_telemetryGapFrom s) (sv_observedJobs s)
  (sv_runJobs s) (sv_trace s).
Definition set_GPUError e s := mkServer (sv_Store s) (sv_tick s) (sv_locked s)
  (sv_evictionClean s) e (sv_KillError s) (sv_processRead s) (sv_telemetryGapFrom s)
  (sv_observedJobs s) (sv_runJobs s) (sv_trace s).
Definition set_KillError e s := mkServer (sv_Store s) (sv_tick s) (sv_locked s)
  (sv_evictionClean s) (sv_GPUError s) e (sv_processRead s) (sv_telemetryGapFrom s)
  (sv_observedJobs s) (sv_runJobs s) (sv_trace s).
Definition set_processRead r s := mkServer (sv_Store s) (sv_tick s) (sv_locked s)
  (sv_evictionClean s) (sv_GPUError s) (sv_KillError s) r (sv_telemetryGapFrom s)
  (sv_observedJobs s) (sv_runJobs s) (sv_trace s).
Definition set_telemetryGapFrom t s := mkServer (sv_Store s) (sv_tick s) (sv_locked s)
  (sv_evictionClean s) (sv_GPUError s) (sv_KillError s) (sv_processRead s) t
  (sv_observedJobs s) (sv_runJobs s) (sv_trace s).
Definition set_observedJobs j s := mkServer (sv_Store s) (sv_tick s) (sv_locked s)
  (sv_evictionClean s) (sv_GPUError s) (sv_KillError s) (sv_processRead s)
  (sv_telemetryGapFrom s) j (sv_runJobs s) (sv_trace s).
Definition set_runJobs j s := mkServer (sv_Store s) (sv_tick s) (sv_locked s)
  (sv_evictionClean s) (sv_GPUError s) (sv_KillError s) (sv_processRead s)
  (sv_telemetryGapFrom s) (sv_observedJobs s) j (sv_trace s).
Definition set_trace t s := mkServer (sv_Store s) (sv_tick s) (sv_locked s)
  (sv_evictionClean s) (sv_GPUError s) (sv_KillError s) (sv_processRead s)
  (sv_telemetryGapFrom s) (sv_observedJobs s) (sv_runJobs s) t.

(** * What the daemon talks to

    Everything outside the daemon answers a question that bears its number:
    the clock, the context, the GPU process list, /proc, the runtimes, the user
    database, the file system, the processes it starts, and the other
    goroutines, which may call the store between any two calls of this one. *)
Record World : Type := mkWorld
  { x_cfg : Config;
    x_bootID : string;
    x_Now : nat -> time;
    x_Done : nat -> option error;
    x_others : nat -> list (method + string);
    x_Processes : nat -> error + list GPUProcess;
    x_Proc : option (nat -> ProcReader);
    x_Resolver : option (nat -> Resolver);
    x_ResolveDockerContainer : nat -> string -> error + string;
    x_Killer : option (nat -> nat -> ProcInfo -> string -> option error);
    x_UsernameLookup : nat -> nat -> Z -> error + string;
    x_passDone : nat -> nat -> option error;
    x_schedule : nat -> list (nat * pendingKill) -> list (nat * pendingKill);
    x_range : nat -> forall A, list A -> list A;
    x_LookPath : nat -> string -> option error;
    x_LookupUser : nat -> string -> error + string;
    x_slotFree : nat -> bool;
    x_Append : option (nat -> option error);
    x_Getwd : error + string;
    x_ReadFile : nat -> string -> error + string;
    x_sys : nat -> option error;
    x_bool : nat -> bool;
    x_Geteuid : Z;
    x_pid : nat -> Z;
    x_ExitCode : nat -> option Z }.

(** The methods that no handler guards with [enforceMu]: those that only read,
    issue a claimed-mode token or append audit events. *)
Definition lockFree (m : method) : bool :=
  match m with
  | MLoad | MSnapshot | MEnforcementSnapshot | MManagedKeysEnabled
  | MEnforcementSnapshotForToken _ | MManagedTokenByID _ _ | MValidateToken _ _
  | MTokenView _ _ | MStatus _ | MStatusForToken _ _ | MKeyStatus _ _
  | MRegisterSoftToken _ _ _ | MAppendAudits _ => true
  | _ => false
  end.

Section daemon.
Context `{JSON} (W : World).

(** * Questions and the trace *)

Definition question : M Server nat := fun s => (inr (sv_tick s), set_tick (S (sv_tick s)) s).
Definition asking {A} (f : nat -> A) : M Server A := n ← question; ret (f n).
Definition happened (e : event) : M Server unit := modify (fun s =>
  set_trace (sv_trace s ++ [e]) s).
Definition Now : M Server time := now ← asking (x_Now W); happened (Clock now) ;; ret now.

(** * The store, shared with the other goroutines *)

(** What the other goroutines do to the store before a call of this one: while
    it holds [enforceMu] they cannot call what is guarded by it. *)
Definition interferes (locked : bool) (st : Store) (o : method + string) : Store :=
  match o with
  | inl m => if (if locked then lockFree m else daemon_method m) then final (call m) st else st
  | inr key => final (ValidateRootKey key) st
  end.

Definition interfere : M Server unit := fun s =>
  (inr tt, set_Store (foldl (interferes (sv_locked s)) (sv_Store s) (x_others W (sv_tick s)))
             (set_tick (S (sv_tick s)) s)).

(** The call itself. *)
Definition lift {A} (m : M Store A) : M Server A := fun s =>
  let '(r, st) := m (sv_Store s) in (r, set_Store st s).

Definition onStore {A} (m : M Store A) : M Server A := interfere ;; lift m.

(** A call of the store that changes its rows. *)
Definition perform {A} (m : method) (c : M Store A) : M Server A :=
  r ← try (onStore c);
  match r with
  | inl e => happened (Called m (Some e)) ;; throw e
  | inr x => happened (Called m None) ;; ret x
  end.

(** [_ = s.Store.F(...)]. *)
Definition ignoring {A} (m : M Server A) : M Server unit := try m ;; ret tt.

(** [s.enforceMu.Lock(); defer s.enforceMu.Unlock()]. *)
Definition holding {A} (m : M Server A) : M Server A :=
  modify (set_locked true) ;; happened Locked ;;
  r ← try m;
  modify (set_locked false) ;; happened Unlocked ;;
  match r with inl e => throw e | inr x => ret x end.

Definition EnforcementSnapshot_ : M Server State :=
  state ← onStore EnforcementSnapshot; happened (Snapshotted state) ;; ret state.

Definition requireRootKey_ (key : string) : M Server unit :=
  ok ← onStore (ValidateRootKey key);
  if ok : bool then happened (RootKeyAccepted key) else throw ErrInvalidRootKey.

Definition validateToken (secret : string) (now : time) : M Server (Token * string) :=
  if TrimSpace secret =s "" then throw (ErrorString "KEY token is required")
  else
    r ← onStore (ValidateToken secret now);
    let '(token, hash, err) := r : Token * string * option error in
    match err with
    | Some e => throw e
    | None => happened (TokenAccepted secret now token hash) ;; ret (token, hash)
    end.

Definition ManagedTokenByID_ (id : string) (now : time) : M Server Token :=
  token ← onStore (ManagedTokenByID id now);
  happened (ManagedAccepted id now token) ;; ret token.

Definition AppendAudit_ (e : AuditEvent) : M Server unit :=
  ignoring (perform (MAppendAudits [e]) (AppendAudit e)).

(** * Telemetry *)

(** The audit row of a failure to record telemetry. *)
Definition telemetryError (message : string) (now : time) : AuditEvent :=
  mkAuditEvent (UTC now) "telemetry_error" message 0 0 "" "".

(** [s.Telemetry.Append]. *)
Definition Append (append : nat -> option error) (e : TelemetryEvent) : M Server (option error) :=
  err ← asking append;
  (match err with None => happened (Emitted e) | Some _ => ret tt end) ;; ret err.

Definition emitTelemetry (e : TelemetryEvent) (at_ : time) : M Server unit :=
  match x_Append W with
  | None => ret tt
  | Some append =>
      s ← get;
      gap ← (if IsZero (sv_telemetryGapFrom s) then ret None
             else Append append (EventGap (mkGap (sv_telemetryGapFrom s) (UTC at_)
                                             "outbox_write_failure")));
      match gap with
      | Some err =>
          now ← Now;
          AppendAudit_ (telemetryError ("append telemetry recovery gap: " +:+ Error err) now)
      | None =>
          modify (set_telemetryGapFrom zeroTime) ;;
          err ← Append append e;
          match err with
          | None => ret tt
          | Some err =>
              modify (set_telemetryGapFrom (UTC at_)) ;;
              now ← Now;
              AppendAudit_ (telemetryError ("append telemetry: " +:+ Error err) now)
          end
      end
  end.

(** * Reporting an unavailable GPU process list *)

Definition auditGPUProcessError (processErr : error) : M Server unit :=
  now ← Now;
  let now := UTC now in
  let message := Error processErr in
  s ← get;
  if (message =s fst (sv_GPUError s)) && (TimeSub now (snd (sv_GPUError s)) <? Minute) then ret tt
  else
    modify (set_GPUError (message, now)) ;;
    AppendAudit_ (mkAuditEvent now "error" ("GPU process list failed: " +:+ message) 0 0 "" "").

Definition auditGPUProcessRecovery : M Server unit :=
  s ← get;
  if fst (sv_GPUError s) =s "" then ret tt
  else
    modify (set_GPUError ("", zeroTime)) ;;
    now ← Now;
    AppendAudit_ (mkAuditEvent (UTC now) "recovery" "GPU process list recovered" 0 0 "" "").

(** A failed kill that repeats the last one is not reported again for a minute. *)
Definition acceptEnforcementAudit (e : AuditEvent) : M Server bool :=
  if AuditEvent_Kind e =s "kill_failed" then
    let key := Itoa (AuditEvent_PID e) +:+ ":" +:+ AuditEvent_Message e in
    now ← Now;
    s ← get;
    if (key =s fst (sv_KillError s)) && (TimeSub (UTC now) (snd (sv_KillError s)) <? Minute)
    then ret false
    else modify (set_KillError (key, UTC now)) ;; ret true
  else ret true.

(** * The authorizer *)

(** [validateKill], once the process list has been sampled again. *)
Definition validateKill (sample : error + list GPUProcess) (process : GPUProcess)
    : option error :=
  match sample with
  | inl e => Some e
  | inr present =>
      if existsb (fun current => (0 <? GPUProcess_PID current) &&
                                 (GPUProcess_GPU current =? GPUProcess_GPU process) &&
                                 (GPUProcess_PID current =? GPUProcess_PID process)) present
      then None
      else Some (ErrorString "pid is no longer present in the GPU process inventory")
  end.

(** [s.authorizer()] as one of its methods sees it: [n] numbers the call, and
    [sample] is what the first [validateKill] of the authorizer finds. *)
Definition authorizer (sample : error + list GPUProcess) (n : nat) : Authorizer :=
  mkAuthorizer (x_passDone W n) ((fun f => f n) <$> x_Proc W) ((fun f => f n) <$> x_Resolver W)
    ((fun f => f n) <$> x_Killer W) (Some (fun _ => validateKill sample))
    (x_UsernameLookup W n) (x_bootID W) (x_Now W n) (DryRun (x_cfg W)) false None.

(** Whether [validateKill] failed, as the error of a pass shows: every failed
    kill is in it. *)
Fixpoint revalidationFailed (err : error) : bool :=
  match err with
  | ErrorString _ => false
  | Errorf format args =>
      (format =s "revalidate GPU process before kill: %w") ||
      existsb (fun a => match a with AErr e => revalidationFailed e | _ => false end) args
  | ErrorJoin errs => existsb revalidationFailed errs
  end.

(** The audit of a sample that failed when it was taken. *)
Definition auditSample (sample : error + list GPUProcess) (errs : list error)
    : M Server unit :=
  match sample with
  | inl e => if existsb revalidationFailed errs then auditGPUProcessError e else ret tt
  | inr _ => ret tt
  end.

(** * Cgroups *)

Definition ReadFile (path : string) : M Server (error + string) :=
  asking (fun n => x_ReadFile W n path).
Definition sys : M Server (option error) := asking (x_sys W).

Definition cgroupEmpty (path : string) : M Server bool :=
  data ← ReadFile (PathJoin path "cgroup.procs");
  match data with
  | inl err =>
      if errors_Is err errNotExist then happened (FoundEmpty path) ;; ret true else ret false
  | inr data =>
      if TrimSpace data =s "" then happened (FoundEmpty path) ;; ret true else ret false
  end.

Definition cgroup2 : M Server bool := asking (x_bool W).

(** [removeCgroup]: an ordinary directory that stands for a cgroup is emptied of
    its control file first. *)
Definition removeCgroup (path : string) : M Server unit :=
  err ← sys;
  match err with
  | None => happened (CgroupRemoved path)
  | Some err =>
      if errors_Is err errNotExist then throw err
      else
        statErr ← sys;
        v2 ← cgroup2;
        if (match statErr with Some _ => true | None => false end) || (v2 : bool) then throw err
        else
          lstatErr ← sys;
          regular ← asking (x_bool W);
          if (match lstatErr with Some _ => true | None => false end) || negb (regular : bool)
          then throw err
          else
            removeErr ← sys;
            match removeErr with
            | Some _ => throw err
            | None =>
                last ← sys;
                match last with
                | None => happened (CgroupRemoved path)
                | Some last => throw last
                end
            end
  end.

(** [filepath.Rel(root, candidate)] leads down from the root. *)
Definition cgroupPathWithinRoot (root candidate : string) : error + bool :=
  match PathAbs (x_Getwd W) (Clean root) with
  | inl e => inl e
  | inr root =>
      match PathAbs (x_Getwd W) (Clean candidate) with
      | inl e => inl e
      | inr candidate =>
          let relative := PathRel root candidate in
          inr ((relative <>s ".") && (relative <>s "") && (relative <>s "..") &&
               negb (HasPrefix relative "../"))
      end
  end.

(** A removal that finds nothing left is as good as done. *)
Definition removeOrGone (path : string) : M Server unit :=
  r ← try (removeCgroup path);
  match r with
  | inl err => if errors_Is err errNotExist then ret tt else throw err
  | inr _ => ret tt
  end.

Definition stopAndRemoveManagedCgroup (path : string) : M Server unit :=
  match cgroupPathWithinRoot (CgroupRoot (x_cfg W)) path with
  | inl e => throw e
  | inr false =>
      throw (Errorf "refusing to manage cgroup outside configured root: %s" [AStr path])
  | inr true =>
      empty ← cgroupEmpty path;
      if DryRun (x_cfg W) then
        if empty : bool then removeCgroup path
        else throw (Errorf "dry-run left nonempty managed cgroup %s untouched" [AStr path])
      else
        (if empty : bool then ret tt
         else
           opened ← sys; check opened ;;
           file ← sys; check file ;;
           written ← sys; closed ← sys;
           (match written with None => happened (CgroupKilled path) | Some _ => ret tt end) ;;
           check written ;; check closed ;;
           drained ← cgroupEmpty path;
           if drained : bool then ret tt
           else throw (Errorf "cgroup %s is still draining" [AStr path])) ;;
        removeOrGone path
  end.

End daemon.
