(* ===== verification/DaemonTelemetry.v ===== *)
(** internal/daemon/telemetry.go: the events the daemon records, and the jobs it
    follows from sample to sample. *)

From S2P Require Export Daemon.

Definition reservationTelemetryGroup (reservation : Reservation) (fallback : string) : string :=
  if Reservation_GroupID reservation <>s "" then Reservation_GroupID reservation else fallback.

(** [addString] and [addGPU]: the slice, and whether it grew. *)
Definition addString (values : list string) (value : string) : list string * bool :=
  if existsb (String.eqb value) values then (values, false) else (values ++ [value], true).
Definition addGPU (values : list Z) (gpu : Z) : list Z * bool :=
  if existsb (Z.eqb gpu) values then (values, false) else (sort_Ints (values ++ [gpu]), true).

(** [gpu] is -1 for any GPU. *)
Definition reservationGroupsForToken (reservations : list Reservation) (tokenHash : string)
    (gpu : Z) (at_ : time) : list string :=
  sort_Strings (foldl (fun groups r =>
    if (Reservation_TokenHash r <>s tokenHash) ||
       ((0 <=? gpu) && negb (Reservation_GPU r =? gpu)) || negb (ReservationActiveAt r at_)
    then groups
    else if Reservation_GroupID r <>s "" then fst (addString groups (Reservation_GroupID r))
    else groups) [] reservations).

(** The longest valid prefix, cut byte by byte from the end. *)
Fixpoint trimInvalid (fuel : nat) (s : string) : string :=
  match fuel with
  | O => s
  | S fuel => if ValidString s then s else trimInvalid fuel (stake (String.length s - 1) s)
  end.

Fixpoint boundedTelemetryLoop (command out : list string) (remaining : Z) : list string :=
  match command with
  | [] => out
  | argument :: rest =>
      if (128 <=? llen out) || (remaining <=? 0) then out
      else
        let argument := ToValidUTF8 argument "?" in
        let argument := if remaining <? slen argument
                        then let cut := stake (Z.to_nat remaining) argument in
                             trimInvalid (String.length cut) cut
                        else argument in
        boundedTelemetryLoop rest (out ++ [argument]) (remaining - slen argument)
  end.
Definition boundedTelemetryCommand (command : list string) : list string :=
  boundedTelemetryLoop command [] (16 * 1024).

Definition NUL : string := String (byte_of 0) EmptyString.

Definition observedExecutionID (bootID authID : string) (pid start : Z) : string :=
  "exec_" +:+ HexEncode (take 12 (Sum256 (bytes_of_string
    (bootID +:+ NUL +:+ authID +:+ NUL +:+ Itoa pid +:+ NUL +:+ Itoa start)))).

Section telemetry.
Context `{JSON} (W : World).

Abbreviation emitTelemetry := (emitTelemetry W).
Abbreviation Now := (Now W).

(** * Reservations and authorizations *)

Definition membersOf (reservations : list Reservation) : list ReservationMember :=
  map (fun r => mkReservationMember (Reservation_ID r) (Reservation_GPU r)) reservations.

Definition emitReservation (token : Token) (reservations : list Reservation) : M Server unit :=
  match reservations with
  | [] => ret tt
  | first :: _ =>
      now ← Now;
      emitTelemetry (EventReservationUpsert
        (mkReservationUpsert (Reservation_ExternalSessionID first) "complete"
           (reservationTelemetryGroup first (Token_ID token)) (Reservation_Holder first)
           (Reservation_Purpose first) (Reservation_CreatedAt first)
           (ReservationStartsAt first) (Reservation_ExpiresAt first)
           (membersOf reservations))) now
  end.

(** The group ids of an event: those of the token's reservations, or the token's
    own id for a reserving token without a group. *)
Definition groupsOrToken (groupIDs : list string) (tokenMode tokenID : string) : list string :=
  if (llen groupIDs =? 0) && (tokenMode =s TokenModeReserved) then [tokenID] else groupIDs.

Definition upsertOf (a : Authorization) (groupIDs : list string) : AuthorizationUpsert :=
  mkAuthorizationUpsert (Authorization_ID a) (List.hd "" groupIDs) groupIDs
    (Authorization_Mode a) (Authorization_Holder a)
    (boundedTelemetryCommand (Authorization_Command a)) (Authorization_ContainerID a)
    (Authorization_ContainerPattern a) (Authorization_Namespace a) (Authorization_Username a)
    (Authorization_CreatedAt a) (Authorization_ExpiresAt a).

Definition emitAuthorization (tokenID : string) (authorization : Authorization)
    : M Server unit :=
  r ← try (EnforcementSnapshot_ W);
  let groupIDs :=
    match r with
    | inl _ => []
    | inr state => reservationGroupsForToken (State_Reservations state)
                     (Authorization_TokenHash authorization) (-1)
                     (Authorization_CreatedAt authorization)
    end in
  emitTelemetry (EventAuthorizationUpsert (upsertOf authorization
    (groupsOrToken groupIDs (Authorization_TokenMode authorization) tokenID)))
    (Authorization_CreatedAt authorization).

Definition emitAuthorizationEnded (id reason : string) (at_ : time) : M Server unit :=
  emitTelemetry (EventAuthorizationEnded (mkAuthorizationEnded id (UTC at_) reason)) at_.

(** * The jobs of [gpuardian run] *)

Definition rememberRunJob (token : Token) (authorization : Authorization) (pid : Z)
    (command : list string) (at_ : time) : M Server JobEvent :=
  r ← try (EnforcementSnapshot_ W);
  let groupIDs :=
    match r with
    | inl _ => []
    | inr state => reservationGroupsForToken (State_Reservations state) (Token_Hash token) (-1) at_
    end in
  let groupIDs := groupsOrToken groupIDs (Token_Mode token) (Token_ID token) in
  let event := mkJobEvent ("exec_" +:+ Authorization_ID authorization)
    (Authorization_ID authorization) (List.hd "" groupIDs) groupIDs
    (Authorization_TokenMode authorization) "gpuardian_run" (Authorization_Mode authorization)
    (Authorization_Holder authorization) pid 0 (boundedTelemetryCommand command) []
    (Some (UTC at_)) None None "exact" "" None "" in
  match x_Append W with
  | None => ret event
  | Some _ =>
      modify (fun s => set_runJobs (<[Authorization_ID authorization := event]> (sv_runJobs s)) s) ;;
      emitTelemetry (EventJobStarted event) at_ ;;
      ret event
  end.

Definition updateRunJobRootExit (authorizationID : string) (exitCode : Z) (at_ : time)
    : M Server unit :=
  match x_Append W with
  | None => ret tt
  | Some _ =>
      s ← get;
      match sv_runJobs s !! authorizationID with
      | None => ret tt
      | Some j =>
          let event := mkJobEvent (JobEvent_ExecutionID j) (JobEvent_AuthorizationID j)
            (JobEvent_GroupID j) (JobEvent_GroupIDs j) (JobEvent_TokenMode j) (JobEvent_Source j)
            (JobEvent_Mode j) (JobEvent_Holder j) (JobEvent_PID j) (JobEvent_ProcStartTicks j)
            (JobEvent_Command j) (JobEvent_GPUs j) (JobEvent_StartedAt j) (Some (UTC at_))
            (JobEvent_FinishedAt j) (JobEvent_StartPrecision j) (JobEvent_FinishPrecision j)
            (Some exitCode) (JobEvent_Reason j) in
          modify (fun s => set_runJobs (<[authorizationID := event]> (sv_runJobs s)) s) ;;
          emitTelemetry (EventJobUpdated event) at_
      end
  end.

(** An event with its end. *)
Definition finished (j : JobEvent) (at_ : time) (precision reason : string) : JobEvent :=
  mkJobEvent (JobEvent_ExecutionID j) (JobEvent_AuthorizationID j) (JobEvent_GroupID j)
    (JobEvent_GroupIDs j) (JobEvent_TokenMode j) (JobEvent_Source j) (JobEvent_Mode j)
    (JobEvent_Holder j) (JobEvent_PID j) (JobEvent_ProcStartTicks j) (JobEvent_Command j)
    (JobEvent_GPUs j) (JobEvent_StartedAt j) (JobEvent_RootExitedAt j) (Some (UTC at_))
    (JobEvent_StartPrecision j) precision (JobEvent_ExitCode j) reason.

Definition finishRunJob (authorizationID reason : string) (at_ : time) : M Server unit :=
  match x_Append W with
  | None => ret tt
  | Some _ =>
      s ← get;
      match sv_runJobs s !! authorizationID with
      | None => ret tt
      | Some j =>
          modify (fun s => set_runJobs (delete authorizationID (sv_runJobs s)) s) ;;
          emitTelemetry (EventJobFinished (finished j at_ "exact" reason)) at_
      end
  end.

(** * The jobs observed on the GPUs *)

(** The key of an observed job, its row and its groups, when the decision is
    about one: an authorized process that is not a [gpuardian run]. *)
Definition observedJobOf (tokens : gmap string Token)
    (authorizations : gmap string Authorization) (state : State) (now : time) (d : Decision)
    : option (string * Authorization * list string) :=
  if match d_Action d with Allow => false | _ => true end || (d_Reason d =s "bypass") ||
     (d_AuthID d =s "") || (GPUProcess_PID (d_Process d) <=? 0) ||
     (ProcInfo_StartTime (d_Info d) =? 0) then None
  else match authorizations !! d_AuthID d with
  | None => None
  | Some a =>
      if (Authorization_Mode a =s ModeBare) ||
         ((Authorization_TokenMode a <>s TokenModeReserved) &&
          (Authorization_TokenMode a <>s TokenModeManaged) &&
          (Authorization_TokenMode a <>s TokenModeClaimed)) then None
      else match tokens !! Authorization_TokenHash a with
      | None => None
      | Some token =>
          if Token_ID token =s "" then None
          else
            let groupIDs := groupsOrToken
              (reservationGroupsForToken (State_Reservations state) (Authorization_TokenHash a)
                 (GPUProcess_GPU (d_Process d)) now)
              (Authorization_TokenMode a) (Token_ID token) in
            if (llen groupIDs =? 0) && (Authorization_TokenMode a =s TokenModeReserved) then None
            else Some (Authorization_ID a +:+ "/" +:+ Itoa (GPUProcess_PID (d_Process d)) +:+ "/"
                       +:+ Itoa (ProcInfo_StartTime (d_Info d)), a, groupIDs)
      end
  end.

Definition newJobEvent (a : Authorization) (groupIDs : list string) (d : Decision) (now : time)
    : JobEvent :=
  let pid := GPUProcess_PID (d_Process d) in
  let start := ProcInfo_StartTime (d_Info d) in
  mkJobEvent (observedExecutionID (x_bootID W) (Authorization_ID a) pid start)
    (Authorization_ID a) (List.hd "" groupIDs) groupIDs (Authorization_TokenMode a)
    "authorized_process" (Authorization_Mode a) (Authorization_Holder a) pid start
    (boundedTelemetryCommand (ProcInfo_Cmdline (d_Info d))) [GPUProcess_GPU (d_Process d)]
    (Some (UTC now)) None None "observed" "" None "".

(** The groups and the GPU of a job seen again. *)
Definition seenAgain (j : JobEvent) (groupIDs : list string) (gpu : Z) : JobEvent * bool :=
  let '(groups, changed) := foldl (fun acc g =>
    let '(groups, changed) := acc : list string * bool in
    let '(groups, added) := addString groups g in (groups, added || changed))
    (JobEvent_GroupIDs j, false) groupIDs in
  let '(gpus, added) := addGPU (JobEvent_GPUs j) gpu in
  (mkJobEvent (JobEvent_ExecutionID j) (JobEvent_AuthorizationID j) (JobEvent_GroupID j)
     groups (JobEvent_TokenMode j) (JobEvent_Source j) (JobEvent_Mode j) (JobEvent_Holder j)
     (JobEvent_PID j) (JobEvent_ProcStartTicks j) (JobEvent_Command j) gpus
     (JobEvent_StartedAt j) (JobEvent_RootExitedAt j) (JobEvent_FinishedAt j)
     (JobEvent_StartPrecision j) (JobEvent_FinishPrecision j) (JobEvent_ExitCode j)
     (JobEvent_Reason j), added || changed).

Definition putJob (key : string) (j : observedTelemetryJob) : M Server unit :=
  modify (fun s => set_observedJobs (<[key := j]> (sv_observedJobs s)) s).

Fixpoint observeDecisions (tokens : gmap string Token)
    (authorizations : gmap string Authorization) (state : State) (now : time)
    (seen : gmap string bool) (decisions : list Decision) : M Server (gmap string bool) :=
  match decisions with
  | [] => ret seen
  | d :: rest =>
      match observedJobOf tokens authorizations state now d with
      | None => observeDecisions tokens authorizations state now seen rest
      | Some (key, a, groupIDs) =>
          s ← get;
          (match sv_observedJobs s !! key with
           | None =>
               let event := newJobEvent a groupIDs d now in
               putJob key (mkObservedJob event now 0) ;;
               emitTelemetry (EventJobStarted event) now
           | Some job =>
               let '(event, changed) :=
                 seenAgain (oj_event job) groupIDs (GPUProcess_GPU (d_Process d)) in
               putJob key (mkObservedJob event now 0) ;;
               if changed then emitTelemetry (EventJobUpdated event) now else ret tt
           end) ;;
          observeDecisions tokens authorizations state now (<[key := true]> seen) rest
      end
  end.

(** A job missed in two samples in a row has finished when it was last seen. *)
Fixpoint missJobs (seen : gmap string bool) (keys : list string) : M Server unit :=
  match keys with
  | [] => ret tt
  | key :: rest =>
      s ← get;
      (match sv_observedJobs s !! key with
       | None => ret tt
       | Some job =>
           if mem_bool seen key then ret tt
           else
             let missed := oj_missed job + 1 in
             putJob key (mkObservedJob (oj_event job) (oj_lastSeen job) missed) ;;
             if missed <? 2 then ret tt
             else
               let at_ := UTC (oj_lastSeen job) in
               emitTelemetry (EventJobFinished
                 (finished (oj_event job) at_ "observed" "process_gone")) at_ ;;
               modify (fun s => set_observedJobs (delete key (sv_observedJobs s)) s)
       end) ;;
      missJobs seen rest
  end.

Definition indexBy {A} (key : A -> string) (l : list A) : gmap string A :=
  foldl (fun m x => <[key x := x]> m) ∅ l.

Definition trackObservedTelemetryJobs (state : State) (decisions : list Decision) (now : time)
    : M Server unit :=
  match x_Append W with
  | None => ret tt
  | Some _ =>
      seen ← observeDecisions (indexBy Token_Hash (State_Tokens state))
               (indexBy Authorization_ID (State_Authorizations state)) state now ∅ decisions;
      s ← get;
      n ← question;
      missJobs seen (x_range W n _ (map fst (map_to_list (sv_observedJobs s))))
  end.

(** * Recording what there is at start-up *)

(** The reservations of a status by group, in the order the map is iterated. *)
Definition viewsOfGroup (id : string) (views : list ReservationView) : list ReservationView :=
  filter (fun v => ReservationView_GroupID v = id) views.

Definition emitGroup (groupID : string) (views : list ReservationView) : M Server unit :=
  match viewsOfGroup groupID views with
  | [] => ret tt
  | (first :: _) as members =>
      if groupID =s "" then ret tt
      else
        now ← Now;
        emitTelemetry (EventReservationUpsert
          (mkReservationUpsert (ReservationView_ExternalSessionID first) "partial" groupID
             (ReservationView_Holder first) (ReservationView_Purpose first)
             (ReservationView_CreatedAt first) (ReservationView_StartsAt first)
             (ReservationView_ExpiresAt first)
             (map (fun v => mkReservationMember (ReservationView_ID v) (ReservationView_GPU v))
                members))) now
  end.

Fixpoint emitGroups (views : list ReservationView) (groupIDs : list string) : M Server unit :=
  match groupIDs with
  | [] => ret tt
  | id :: rest => emitGroup id views ;; emitGroups views rest
  end.

Definition viewGroups (a : AuthorizationView) (reservations : list ReservationView)
    : list string :=
  sort_Strings (foldl (fun groups r =>
    if (ReservationView_GroupID r =s "") ||
       negb (EqualFold (TrimSpace (ReservationView_Holder r))
                       (TrimSpace (AuthorizationView_Holder a))) then groups
    else if (AuthorizationView_TokenMode a =s TokenModeReserved) &&
            (ReservationView_GroupID r <>s AuthorizationView_TokenID a) then groups
    else fst (addString groups (ReservationView_GroupID r))) [] reservations).

Definition emitAuthorizationView (a : AuthorizationView) (reservations : list ReservationView)
    : M Server unit :=
  let groupIDs := viewGroups a reservations in
  emitTelemetry (EventAuthorizationUpsert
    (mkAuthorizationUpsert (AuthorizationView_ID a) (List.hd "" groupIDs) groupIDs
       (AuthorizationView_Mode a) (AuthorizationView_Holder a)
       (boundedTelemetryCommand (AuthorizationView_Command a)) (AuthorizationView_ContainerID a)
       (AuthorizationView_ContainerPattern a) (AuthorizationView_Namespace a)
       (AuthorizationView_Username a) (AuthorizationView_CreatedAt a)
       (default zeroTime (AuthorizationView_ExpiresAt a)))) (AuthorizationView_CreatedAt a).

Fixpoint emitViews (reservations : list ReservationView) (views : list AuthorizationView)
    : M Server unit :=
  match views with
  | [] => ret tt
  | a :: rest => emitAuthorizationView a reservations ;; emitViews reservations rest
  end.

Definition bootstrapTelemetry : M Server unit :=
  now ← Now;
  r ← try (onStore W (StatusAll now));
  match r with
  | inl _ => ret tt
  | inr status =>
      n ← question;
      emitGroups (Status_Reservations status)
        (x_range W n _ (remove_dups (map ReservationView_GroupID (Status_Reservations status)))) ;;
      emitViews (Status_Reservations status) (Status_Authorizations status)
  end.

End telemetry.
