(* ===== verification/DaemonAuth.v ===== *)
(** internal/daemon/server.go: the requests that issue, use and withdraw tokens,
    authorizations and bypass rules. *)

From S2P Require Export DaemonTelemetry.

Definition ensureActive (tokenHash : string) (now : time) (reservations : list Reservation)
    : bool :=
  existsb (fun r => (Reservation_TokenHash r =s tokenHash) && ReservationActiveAt r now)
    reservations.

Section auth.
Context `{JSON} `{ArgsJSON} (W : World).

#[local] Abbreviation Now := (Now W).
#[local] Abbreviation onStore := (onStore W).
#[local] Abbreviation perform := (perform W).
#[local] Abbreviation validateToken := (validateToken W).

(** * Authorizations *)

(** A reserving token needs a reservation that is active now. *)
Definition ensureTokenCanAuthorize (tokenHash : string) (token : Token) (now : time)
    : M Server unit :=
  if NormalizeTokenMode (Token_Mode token) <>s TokenModeReserved then ret tt
  else
    state ← EnforcementSnapshot_ W;
    if ensureActive tokenHash now (State_Reservations state) then ret tt
    else throw (ErrorString "reserved token has no valid reservation").

(** An authorization bound to a token row. *)
Definition boundTo (token : Token) (hash mode : string) (expiresAt : time) (a : Authorization)
    : Authorization :=
  mkAuthorization (Authorization_ID a) (Authorization_Mode a) hash mode (Token_Version token)
    (Token_Name token) (Authorization_UID a) (Authorization_GID a) (Authorization_Username a)
    (Authorization_Command a) (Authorization_RootPID a) (Authorization_CgroupPath a)
    (Authorization_CgroupRel a) (Authorization_ContainerID a) (Authorization_ContainerPattern a)
    (Authorization_Namespace a) (Authorization_CreatedAt a) expiresAt (Authorization_Active a)
    (Authorization_Revoked a).

Definition AddAuthorization_ (a : Authorization) : M Server unit :=
  clock ← Now;
  perform (MAddAuthorization a clock) (AddAuthorization a clock).

(** [addAuthorizationLocked]: the authorization as it was persisted. *)
Definition addAuthorizationLocked (tokenSecret : string) (authorization : Authorization)
    : M Server Authorization :=
  now ← Now;
  t ← validateToken tokenSecret now;
  let '(token, tokenHash) := t : Token * string in
  fail_if (tokenHash <>s Authorization_TokenHash authorization)
    (ErrorString "token identity changed during authorization") ;;
  ensureTokenCanAuthorize tokenHash token now ;;
  let a := boundTo token (Authorization_TokenHash authorization)
             (NormalizeTokenMode (Token_Mode token)) (Token_ExpiresAt token) authorization in
  AddAuthorization_ a ;;
  emitAuthorization W (Token_ID token) a ;;
  ret a.

Definition addAuthorization (tokenSecret : string) (authorization : Authorization)
    : M Server Authorization :=
  holding (addAuthorizationLocked tokenSecret authorization).

Definition persistAuthorization (tokenSecret : string) (token : Token)
    (authorization : Authorization) : M Server Authorization :=
  if (TrimSpace tokenSecret <>s "") || negb (Token_Managed token)
  then addAuthorization tokenSecret authorization
  else
    holding (
      now ← Now;
      current ← ManagedTokenByID_ W (Token_ID token) now;
      fail_if ((Token_Hash current <>s Token_Hash token) ||
               negb (Token_Version current =? Token_Version token))
        (ErrorString "managed key identity changed during authorization") ;;
      let a := boundTo current (Token_Hash current) TokenModeManaged zeroTime authorization in
      AddAuthorization_ a ;;
      emitAuthorization W (Token_ID current) a ;;
      ret a).

(** The authorization a request asks for, before it is bound and persisted. *)
Definition newAuthorization (id mode : string) (token : Token) (tokenHash : string)
    (uid gid : Z) (username containerID containerPattern namespace : string) (now : time)
    : Authorization :=
  mkAuthorization id mode tokenHash (NormalizeTokenMode (Token_Mode token))
    (Token_Version token) (Token_Name token) uid gid username [] 0 "" "" containerID
    containerPattern namespace (UTC now) (Token_ExpiresAt token) true false.

Definition wildcardError : error :=
  ErrorString "wildcard authorization requires root/admin access".

(** [acquireDockerResolve]: one of four slots, or an error at once. *)
Definition acquireDockerResolve : M Server unit :=
  done ← asking (x_Done W);
  check done ;;
  free ← asking (x_slotFree W);
  if free : bool then ret tt else throw (ErrorString "docker resolver is busy; retry shortly").

Definition createDockerAuthorization (tokenSecret : string) (token : Token)
    (tokenHash : string) (p : peer) (args : DockerAllowArgs) : M Server AllowResult :=
  now ← Now;
  ensureTokenCanAuthorize tokenHash token now ;;
  let container := TrimSpace (DockerAllowArgs_Container args) in
  fail_if (container =s "") (ErrorString "container is required") ;;
  check (validateRequestValue "container" container) ;;
  fail_if (hasWildcard container && negb (peer_UID p =? 0)) wildcardError ;;
  ids ← (if hasWildcard container then ret ("", container)
         else
           acquireDockerResolve ;;
           r ← asking (fun n => x_ResolveDockerContainer W n container);
           match r with
           | inl err => throw (Errorf "resolve docker container: %w" [AErr err])
           | inr id => ret (id, "")
           end);
  let '(containerID, containerPattern) := ids : string * string in
  now ← Now;
  id ← lift NewAuthorizationID;
  a ← persistAuthorization tokenSecret token
        (newAuthorization id ModeDocker token tokenHash (peer_UID p) (peer_GID p) ""
           containerID containerPattern "" now);
  ret (mkAllowResult (Authorization_ID a) (Authorization_Mode a) containerID containerPattern
         "" "" (timePtrIfSet (Authorization_ExpiresAt a))).

Definition createK8sAuthorization (tokenSecret : string) (token : Token) (tokenHash : string)
    (p : peer) (args : K8sAllowArgs) : M Server AllowResult :=
  now ← Now;
  ensureTokenCanAuthorize tokenHash token now ;;
  let namespace := K8sAllowArgs_Namespace args in
  fail_if (TrimSpace namespace =s "") (ErrorString "namespace is required") ;;
  check (validateRequestValue "namespace" namespace) ;;
  fail_if (hasWildcard namespace && negb (peer_UID p =? 0)) wildcardError ;;
  crictl ← asking (fun n => x_LookPath W n "crictl");
  (match crictl with
   | None => ret tt
   | Some _ =>
       kubectl ← asking (fun n => x_LookPath W n "kubectl");
       match kubectl with
       | None => ret tt
       | Some _ => throw (ErrorString "k8s mode requires crictl or kubectl")
       end
   end) ;;
  now ← Now;
  id ← lift NewAuthorizationID;
  a ← persistAuthorization tokenSecret token
        (newAuthorization id ModeK8s token tokenHash (peer_UID p) (peer_GID p) "" "" ""
           (TrimSpace namespace) now);
  ret (mkAllowResult (Authorization_ID a) (Authorization_Mode a) "" "" (Authorization_Namespace a)
         "" (timePtrIfSet (Authorization_ExpiresAt a))).

Definition lookupUID (username : string) : M Server Z :=
  u ← asking (fun n => x_LookupUser W n username);
  match u with
  | inl err => throw err
  | inr uid => match Atoi uid with
               | Some uid => ret uid
               | None => throw (Errorf "strconv.Atoi: parsing %q: invalid syntax" [AStr uid])
               end
  end.

Definition createUserAuthorization (tokenSecret : string) (token : Token) (tokenHash : string)
    (p : peer) (args : UserAllowArgs) : M Server AllowResult :=
  now ← Now;
  ensureTokenCanAuthorize tokenHash token now ;;
  let username := TrimSpace (UserAllowArgs_User args) in
  fail_if (username =s "") (ErrorString "user is required") ;;
  check (validateRequestValue "user" username) ;;
  fail_if (hasWildcard username && negb (peer_UID p =? 0)) wildcardError ;;
  uid ← (if negb (hasWildcard username) then lookupUID username else ret (-1));
  now ← Now;
  id ← lift NewAuthorizationID;
  a ← persistAuthorization tokenSecret token
        (newAuthorization id ModeUser token tokenHash uid (peer_GID p) username "" "" "" now);
  ret (mkAllowResult (Authorization_ID a) (Authorization_Mode a) "" "" ""
         (Authorization_Username a) (timePtrIfSet (Authorization_ExpiresAt a))).

(** * Bypass rules *)

Definition addBypassLocked (args : BypassAddArgs) (now : time) : M Server BypassRule :=
  fail_if (TrimSpace (BypassAddArgs_Reason args) =s "") (ErrorString "bypass reason is required") ;;
  check (validateRequestValue "reason" (BypassAddArgs_Reason args)) ;;
  fail_if (Bool.eqb (0 <? BypassAddArgs_PID args) (TrimSpace (BypassAddArgs_Command args) <>s ""))
    (ErrorString "exactly one pid or command bypass selector is required") ;;
  match ParseTTL (BypassAddArgs_TTL args) DefaultTokenTTL NoTTLMaximum with
  | inl err => throw err
  | inr ttl =>
      id ← lift NewBypassID;
      let rule start boot := mkBypassRule id (BypassAddArgs_Type args) (BypassAddArgs_PID args)
        start boot (BypassAddArgs_Command args) (BypassAddArgs_UID args)
        (BypassAddArgs_Reason args) (UTC now) (TimeAdd (UTC now) ttl) false in
      rule ← (if BypassAddArgs_Type args =s BypassPID then
          fail_if (BypassAddArgs_PID args <=? 0) (ErrorString "pid bypass requires --pid") ;;
          match x_Proc W with
          | None => throw (ErrorString "process identity reader is unavailable")
          | Some reader =>
              r ← asking (fun n => proc_Info (reader n) 0 (BypassAddArgs_PID args));
              let unverified := Errorf "cannot verify pid %d identity"
                                  [AInt (BypassAddArgs_PID args)] in
              match r with
              | inl _ => throw unverified
              | inr info =>
                  fail_if (negb (ProcInfo_PID info =? BypassAddArgs_PID args) ||
                           (ProcInfo_StartTime info =? 0)) unverified ;;
                  happened (Identified (BypassAddArgs_PID args) info) ;;
                  fail_if (x_bootID W =s "")
                    (ErrorString "cannot create pid bypass without a verified boot id") ;;
                  ret (rule (ProcInfo_StartTime info) (x_bootID W))
              end
          end
        else if BypassAddArgs_Type args =s BypassCommand then
          fail_if ((BypassAddArgs_Command args =s "") || negb (IsAbs (BypassAddArgs_Command args)))
            (ErrorString "command bypass requires absolute --command") ;;
          fail_if (negb (BypassAddArgs_UID args =? 0)) (ErrorString
            "command bypass is restricted to uid 0; use a PID bypass for non-root processes") ;;
          ret (rule 0 "")
        else throw (ErrorString "bypass type must be pid or command"));
      perform (MAddBypass rule) (AddBypass rule) ;;
      ret rule
  end.

Definition addBypass (args : BypassAddArgs) (now : time) : M Server BypassRule :=
  holding (addBypassLocked args now).

(** * Revocation *)

Definition revoke (id : string) : M Server unit :=
  holding (clock ← Now; perform (MRevoke id clock) (Revoke id clock)).

Definition releaseAuthorization (id : string) : M Server unit :=
  holding (
    perform (MReleaseAuthorization id) (ReleaseAuthorization id) ;;
    now ← Now;
    emitAuthorizationEnded W id "released" now).

(** * Reservations *)

Definition overlapping (requested : gmap Z bool) (startsAt expiresAt : time) (r : Reservation)
    : bool :=
  mem_gpu requested (Reservation_GPU r) && ReservationOverlaps r startsAt expiresAt.
Definition leasedNow (requested : gmap Z bool) (startsAt now : time) (lease : Lease) : bool :=
  mem_gpu requested (Lease_GPU lease) && Lease_Active lease &&
  Before now (Lease_ExpiresAt lease) && Before startsAt (Lease_ExpiresAt lease).

(** No process but a bypassed one may be using any of the GPUs. *)
Fixpoint ensureIdle (state : State) (processes : list GPUProcess) (gpus : list Z)
    : M Server unit :=
  match gpus with
  | [] => ret tt
  | gpu :: rest =>
      n ← question;
      let '(r, p) := BusyProcessesForGPU (authorizer W (inr []) n) state processes gpu newPass in
      match r with
      | inl err => throw err
      | inr _ =>
          fail_if (0 <? llen (p_decisions p)) (Errorf "gpu %d is busy" [AInt gpu]) ;;
          happened (FoundFree state gpu) ;;
          ensureIdle state processes rest
      end
  end.

Definition ensureGPUsCanReserveWindow (gpus : list Z) (startsAt expiresAt : time)
    : M Server unit :=
  check (validateConfiguredGPUs (GPUCount (x_cfg W)) gpus) ;;
  let startsAt := UTC startsAt in
  let expiresAt := UTC expiresAt in
  startsAt ← (if IsZero startsAt then now ← Now; ret (UTC now) else ret startsAt);
  fail_if (negb (After expiresAt startsAt)) (ErrorString "reservation end must be after start") ;;
  now ← Now;
  fail_if (negb (After expiresAt now)) (ErrorString "reservation end must be in the future") ;;
  state ← EnforcementSnapshot_ W;
  let requested := gpuSet gpus in
  check ((fun r => Errorf "gpu %d already reserved by %s"
                     [AInt (Reservation_GPU r); AStr (Reservation_ID r)]) <$>
         find (overlapping requested startsAt expiresAt) (State_Reservations state)) ;;
  check ((fun l => Errorf "gpu %d already held by legacy lease %s"
                     [AInt (Lease_GPU l); AStr (Lease_ID l)]) <$>
         find (leasedNow requested startsAt now) (State_Leases state)) ;;
  if Before now startsAt || negb (Before now expiresAt) then ret tt
  else
    r ← asking (x_Processes W);
    match r with
    | inl err => throw (Errorf "GPU process list: %w" [AErr err])
    | inr processes => ensureIdle state processes gpus
    end.

Definition ensureGPUCanReserveWindow (gpu : Z) (startsAt expiresAt : time) : M Server unit :=
  ensureGPUsCanReserveWindow [gpu] startsAt expiresAt.

Definition ensureGPUCanReserve (gpu : Z) : M Server unit :=
  now ← Now; ensureGPUCanReserveWindow gpu now (TimeAdd now DefaultHardTTL).

End auth.
