(* ===== verification/DaemonPs.v ===== *)
(** internal/daemon/server.go: the list of processes and reservations a caller
    may see. *)

From S2P Require Export DaemonAuth.

Definition maxPSRows : Z := 4096.
Definition maxPSRetainedTextBytes : Z := 512 * 1024.
Definition maxPSFieldBytes : Z := 4096.

(** The loop of [boundedPSField] over the runes, with the bytes written. *)
Fixpoint boundedRunes (written : Z) (rs : list Z) : list Z :=
  match rs with
  | [] => []
  | r :: rest =>
      let bytes := encode_rune (if unicode_IsControl r then 63 else r) in
      if maxPSFieldBytes <? written + llen bytes then []
      else app bytes (boundedRunes (written + llen bytes) rest)
  end.
Definition boundedPSField (value : string) : string :=
  string_of_bytes (boundedRunes 0 (runes (ToValidUTF8 value "?"))).

(** [psRowBuilder], and the map of rows being built. *)
Record psRowBuilder : Type := mkPSRowBuilder
  { rb_ID : string; rb_User : string; rb_Command : string; rb_gpus : gmap Z bool }.

(** The values of [ps]'s first loop. *)
Record psAcc : Type := mkPsAcc
  { liveRows : gmap string psRowBuilder; liveHard : gmap string bool; retainedTextBytes : Z }.

Definition reservationLiveKey (gpu : Z) (tokenHash : string) : string :=
  Itoa gpu +:+ ":" +:+ tokenHash.

Definition keysOf (gpus : gmap Z bool) : list Z := map fst (map_to_list gpus).
Definition formatGPUSet (gpus : gmap Z bool) : string :=
  Join (map Itoa (sort_Ints (keysOf gpus))) ",".

Definition firstGPU (value : string) : Z :=
  default (2 ^ 31 - 1) (Atoi (TrimSpace (cutHead value (byte_of 44)))).

Definition gpuListContains (value : string) (want : Z) : bool :=
  existsb (fun part => match Atoi (TrimSpace part) with Some gpu => gpu =? want | None => false end)
    (Split value (byte_of 44)).

Definition budgetError : error := ErrorString "ps result exceeds response budget".

Definition commandOf (d : Decision) : string :=
  let command := boundedPSField (Join (ProcInfo_Cmdline (d_Info d)) " ") in
  let command := if command =s "" then boundedPSField (GPUProcess_Name (d_Process d))
                 else command in
  if command =s "" then "pid " +:+ Itoa (GPUProcess_PID (d_Process d)) else command.

(** One decision of the pass. *)
Definition psDecision (allowedTokenHash : string) (all : bool) (acc : psAcc) (d : Decision)
    : error + psAcc :=
  if match d_Action d with Allow => false | _ => true end || (d_Reason d =s "bypass") then inr acc
  else if negb all && ((allowedTokenHash =s "") || (d_TokenHash d <>s allowedTokenHash))
  then inr acc
  else
    let id := if d_AuthID d =s "" then d_LeaseID d else d_AuthID d in
    if id =s "" then inr acc
    else
      let holder := boundedPSField (TrimSpace (d_Holder d)) in
      let holder := if holder =s "" then "unknown" else holder in
      let command := commandOf d in
      let rowID := id +:+ "/" +:+ Itoa (GPUProcess_PID (d_Process d)) in
      let gpu := GPUProcess_GPU (d_Process d) in
      let live := if d_TokenHash d <>s ""
                  then <[reservationLiveKey gpu (d_TokenHash d) := true]> (liveHard acc)
                  else liveHard acc in
      match liveRows acc !! rowID with
      | Some row =>
          inr (mkPsAcc (<[rowID := mkPSRowBuilder (rb_ID row) (rb_User row) (rb_Command row)
                                     (<[gpu := true]> (rb_gpus row))]> (liveRows acc))
                 live (retainedTextBytes acc))
      | None =>
          if (maxPSRows <=? Z.of_nat (size (liveRows acc))) ||
             (maxPSRetainedTextBytes <? retainedTextBytes acc + slen holder + slen command)
          then inl budgetError
          else inr (mkPsAcc (<[rowID := mkPSRowBuilder rowID holder command {[gpu := true]}]>
                               (liveRows acc))
                      live (retainedTextBytes acc + slen holder + slen command))
      end.

Fixpoint psDecisions (allowedTokenHash : string) (all : bool) (acc : psAcc)
    (decisions : list Decision) : error + psAcc :=
  match decisions with
  | [] => inr acc
  | d :: rest => match psDecision allowedTokenHash all acc d with
                 | inl e => inl e
                 | inr acc => psDecisions allowedTokenHash all acc rest
                 end
  end.

Definition rowOf (b : psRowBuilder) : PSRow :=
  mkPSRow (rb_ID b) (formatGPUSet (rb_gpus b)) (rb_User b) (rb_Command b).

(** The second loop: the active reservations without a process of their own. *)
Fixpoint psReservations (now : time) (allowedTokenHash : string) (all : bool)
    (live : gmap string bool) (rows : list PSRow) (retained : Z) (reservations : list Reservation)
    : error + list PSRow :=
  match reservations with
  | [] => inr rows
  | r :: rest =>
      if (negb all && (Reservation_TokenHash r <>s allowedTokenHash)) ||
         negb (ReservationActiveAt r now) ||
         mem_bool live (reservationLiveKey (Reservation_GPU r) (Reservation_TokenHash r))
      then psReservations now allowedTokenHash all live rows retained rest
      else
        let holder := boundedPSField (Reservation_Holder r) in
        let command := "reserved until " +:+ FormatRFC3339 (Reservation_ExpiresAt r) in
        if (maxPSRows <=? llen rows) ||
           (maxPSRetainedTextBytes <? retained + slen holder + slen command)
        then inl budgetError
        else psReservations now allowedTokenHash all live
               (rows ++ [mkPSRow (Reservation_ID r) (Itoa (Reservation_GPU r)) holder command])
               (retained + slen holder + slen command) rest
  end.

(** The order of the result: by first GPU, then by id. *)
Definition psLe (a b : PSRow) : Prop :=
  let left := firstGPU (PSRow_GPU a) in
  let right := firstGPU (PSRow_GPU b) in
  left < right \/ left = right /\ stringLe (PSRow_ID a) (PSRow_ID b).
#[export] Instance psLe_dec a b : base.Decision (psLe a b).
Proof. unfold psLe. apply _. Defined.

(** What [ps] answers from the state and the decisions. *)
Definition psRows (now : time) (allowedTokenHash : string) (all : bool) (state : State)
    (decisions : list Decision) : error + list PSRow :=
  match psDecisions allowedTokenHash all (mkPsAcc ∅ ∅ 0) decisions with
  | inl e => inl e
  | inr acc =>
      let rows := map (fun kv => rowOf kv.2) (map_to_list (liveRows acc)) in
      match psReservations now allowedTokenHash all (liveHard acc) rows (retainedTextBytes acc)
              (State_Reservations state) with
      | inl e => inl e
      | inr rows => inr (merge_sort psLe rows)
      end
  end.

Section ps.
Context `{JSON} (W : World).

(** [processesForRead]: the last sample, or one of its own before the first. *)
Definition processesForRead : M Server (list GPUProcess * option error) :=
  s ← get;
  match sv_processRead s with
  | Some sample => ret sample
  | None =>
      r ← asking (x_Processes W);
      let sample := match r with inl e => ([], Some e) | inr rows => (rows, None) end in
      modify (set_processRead (Some sample)) ;;
      ret sample
  end.

(** [s.authorizer()] with no killer, in a dry run. *)
Definition readOnly (n : nat) : Authorizer :=
  let a := authorizer W (inr []) n in
  mkAuthorizer (ctx_Err a) (a_Proc a) (a_Runtime a) None (a_ValidateKill a)
    (a_UsernameLookup a) (a_BootID a) (a_now a) true false None.

Definition ps (now : time) (allowedTokenHash : string) (all : bool) : M Server (list PSRow) :=
  slot ← asking (x_Done W);
  check slot ;;
  state ← (if all then onStore W EnforcementSnapshot
           else onStore W (EnforcementSnapshotForToken allowedTokenHash));
  sample ← processesForRead;
  let '(rows, err) := sample : list GPUProcess * option error in
  let processes := match err with Some _ => [] | None => rows end in
  n ← question;
  let '(r, p) := Enforce (readOnly n) (x_range W n Z) (x_schedule W n) state processes newPass in
  match r with
  | inl e => throw e
  | inr _ =>
      match psRows now allowedTokenHash all state (p_decisions p) with
      | inl e => throw e
      | inr rows => ret rows
      end
  end.

Definition readScopeTokenHash (secret : string) (p : peer) (now : time) : M Server string :=
  if (peer_UID p =? 0) && (TrimSpace secret =s "") then ret ""
  else
    t ← validateToken W secret now;
    ret (snd t).

End ps.

(** The list of processes shows a caller only what its own token may see, and
    keeps within its limits. *)

(** * Only the rows of the token *)

Definition ownDecisions (hash : string) (decisions : list Decision) : list Decision :=
  filter (fun d => d_TokenHash d = hash) decisions.
Definition ownReservations (hash : string) (rows : list Reservation) : list Reservation :=
  filter (fun r => Reservation_TokenHash r = hash) rows.

Lemma psDecision_other hash acc d :
  d_TokenHash d <> hash -> psDecision hash false acc d = inr acc.
Proof.
  intros N. unfold psDecision. case_match; [done|].
  apply String.eqb_neq in N. by rewrite N, orb_true_r.
Qed.

Lemma psDecisions_own hash decisions : forall acc,
  psDecisions hash false acc decisions = psDecisions hash false acc (ownDecisions hash decisions).
Proof.
  unfold ownDecisions. induction decisions as [|d ds IH]; intros acc; [done|].
  rewrite filter_cons. case_decide as D; cbn [psDecisions].
  - destruct (psDecision hash false acc d); [done|apply IH].
  - rewrite psDecision_other by done. apply IH.
Qed.

Lemma psReservations_own now hash live reservations : forall rows retained,
  psReservations now hash false live rows retained reservations =
  psReservations now hash false live rows retained (ownReservations hash reservations).
Proof.
  unfold ownReservations. induction reservations as [|r rs IH]; intros rows retained; [done|].
  rewrite filter_cons. case_decide as D; cbn [psReservations].
  - destruct (_ || _); [apply IH|]. cbv zeta. destruct (_ || _); [done|apply IH].
  - apply String.eqb_neq in D. rewrite D. cbn. apply IH.
Qed.

(** * Limits *)

Definition textOf (rows : list PSRow) : Z :=
  foldr (fun row total => slen (PSRow_User row) + slen (PSRow_Command row) + total) 0 rows.

Definition withinLimits (rows : list PSRow) : Prop :=
  llen rows <= maxPSRows /\ textOf rows <= maxPSRetainedTextBytes.

Lemma textOf_app a b : textOf (app a b) = textOf a + textOf b.
Proof. unfold textOf. induction a as [|row a IH]; cbn; [done|]. rewrite IH. lia. Qed.

Lemma textOf_perm a b : a ≡ₚ b -> textOf a = textOf b.
Proof. unfold textOf. induction 1; cbn; lia. Qed.

Definition rowsOf (acc : psAcc) : list PSRow :=
  map (fun kv => rowOf kv.2) (map_to_list (liveRows acc)).

(** The accumulated rows are within the limits, and their text is counted. *)
Definition tallied (acc : psAcc) : Prop :=
  llen (rowsOf acc) = Z.of_nat (size (liveRows acc)) /\ llen (rowsOf acc) <= maxPSRows /\
  textOf (rowsOf acc) = retainedTextBytes acc /\ retainedTextBytes acc <= maxPSRetainedTextBytes.

Lemma llen_rowsOf acc : llen (rowsOf acc) = Z.of_nat (size (liveRows acc)).
Proof. unfold rowsOf, llen. by rewrite length_map, length_map_to_list. Qed.

Lemma rowsOf_insert key row live acc retained :
  liveRows acc !! key = None ->
  rowsOf (mkPsAcc (<[key := row]> (liveRows acc)) live retained) ≡ₚ rowOf row :: rowsOf acc.
Proof.
  intros N. unfold rowsOf. cbn [liveRows]. by rewrite (map_to_list_insert _ _ _ N).
Qed.

Lemma rowsOf_update key row row' live acc retained :
  liveRows acc !! key = Some row -> rb_User row' = rb_User row -> rb_Command row' = rb_Command row ->
  textOf (rowsOf (mkPsAcc (<[key := row']> (liveRows acc)) live retained)) = textOf (rowsOf acc) /\
  size (<[key := row']> (liveRows acc)) = size (liveRows acc).
Proof.
  intros L U C. split; [|by apply map_size_insert_Some].
  assert (liveRows acc = <[key := row]> (delete key (liveRows acc))) as E.
  { by rewrite insert_delete_id. }
  unfold rowsOf. cbn [liveRows]. rewrite E at 1. rewrite insert_insert_eq.
  rewrite (textOf_perm _ (rowOf row' :: map (fun kv => rowOf kv.2) (map_to_list (delete key (liveRows acc))))).
  2: { by rewrite map_to_list_insert by (by rewrite lookup_delete_eq). }
  rewrite (textOf_perm (map _ (map_to_list (liveRows acc)))
    (rowOf row :: map (fun kv => rowOf kv.2) (map_to_list (delete key (liveRows acc))))).
  2: { rewrite E at 1. by rewrite map_to_list_insert by (by rewrite lookup_delete_eq). }
  cbn. by rewrite U, C.
Qed.

Lemma psDecision_tallied hash all acc d acc' :
  psDecision hash all acc d = inr acc' -> tallied acc -> tallied acc'.
Proof.
  intros E (L & LE & T & TE). unfold psDecision in E.
  do 3 (cbv zeta in E; match type of E with (if ?b then _ else _) = _ => destruct b end;
    [by injection E as <-|]).
  cbv zeta in E.
  match type of E with context [liveRows acc !! ?k] => destruct (liveRows acc !! k) as [row|] eqn:Lk end.
  - injection E as <-. edestruct rowsOf_update as [T' S']; [exact Lk| | |].
    3: unfold tallied; rewrite llen_rowsOf; cbn [liveRows retainedTextBytes];
       rewrite T', S', <- L; done.
    all: done.
  - destruct (_ || _) eqn:B; [done|]. injection E as <-.
    apply orb_false_iff in B as [B1%Z.leb_gt B2%Z.ltb_ge].
    unfold tallied. rewrite llen_rowsOf. cbn [retainedTextBytes].
    rewrite (textOf_perm _ _ (rowsOf_insert _ _ _ _ _ Lk)). cbn [liveRows].
    rewrite map_size_insert_None by done. cbn [textOf foldr rowOf PSRow_User PSRow_Command rb_User rb_Command].
    fold (textOf (rowsOf acc)). lia.
Qed.

Lemma psDecisions_tallied hash all decisions : forall acc acc',
  psDecisions hash all acc decisions = inr acc' -> tallied acc -> tallied acc'.
Proof.
  induction decisions as [|d ds IH]; intros acc acc' E T; cbn in E; [by injection E as <-|].
  destruct (psDecision hash all acc d) as [e|a] eqn:D; [done|].
  eapply IH; [exact E|]. by eapply psDecision_tallied.
Qed.

Lemma psReservations_limits now hash all live reservations : forall rows retained rows',
  psReservations now hash all live rows retained reservations = inr rows' ->
  textOf rows = retained -> withinLimits rows -> withinLimits rows'.
Proof.
  induction reservations as [|r rs IH]; intros rows retained rows' E T [L B]; cbn in E.
  { by injection E as <-. }
  destruct (_ || _); [by eapply IH|].
  destruct (_ || _) eqn:G in E; [done|].
  apply orb_false_iff in G as [G1%Z.leb_gt G2%Z.ltb_ge].
  eapply IH; [exact E| |].
  - rewrite textOf_app. cbn. lia.
  - split; [unfold llen in *; rewrite length_app; cbn; lia|]. rewrite textOf_app. cbn. lia.
Qed.

(** The process list of a token.  What a caller with a key sees depends on
    the decisions and the reservations of its own token alone, whatever other
    users run; and every list that is returned, the whole one of root included,
    has at most 4096 rows, whose users and commands are at most half a megabyte
    of text together. *)
Theorem ps_isolated_and_bounded now hash all state decisions :
  psRows now hash false state decisions =
    psRows now hash false
      (State_set_Reservations (ownReservations hash (State_Reservations state)) state)
      (ownDecisions hash decisions) /\
  (forall rows, psRows now hash all state decisions = inr rows -> withinLimits rows).
Proof.
  unfold psRows. split.
  - rewrite <- psDecisions_own. destruct (psDecisions _ _ _ _) as [e|acc]; [done|].
    change (State_Reservations (State_set_Reservations ?rs state)) with rs.
    by rewrite <- psReservations_own.
  - intros rows. destruct (psDecisions _ _ _ _) as [e|acc] eqn:D; [done|].
    apply psDecisions_tallied in D as (L & LE & T & TE); [|by vm_compute].
    destruct (psReservations _ _ _ _ _ _ _) as [e|rows'] eqn:R; [done|]. intros [= <-].
    apply psReservations_limits in R; [|exact T|split; [exact LE|]; change (textOf (rowsOf acc) <= maxPSRetainedTextBytes); lia].
    assert (merge_sort psLe rows' ≡ₚ rows') as P by apply merge_sort_Permutation.
    destruct R as [R1 R2]. split; [unfold llen; by rewrite P|]. by rewrite (textOf_perm _ _ P).
Qed.

(** * Witness *)

Definition sample_held (id hash : string) (gpu : Z) : Reservation :=
  mkReservation id id "" gpu hash "alice" "" 0 10 1000 true false.
Definition sample_allowed (pid : Z) (id hash : string) : Decision :=
  mkDecision (mkGPUProcess 0 pid "python" 0 false) (mkProcInfo pid 1 1000 "" [] "" "" "" "")
    Allow "reserved authorization" "" id "" "bob" hash SoftClaim_zero.
Definition sample_state : State :=
  State_set_Reservations [sample_held "res_1" "h1" 0; sample_held "res_2" "h2" 1] State_zero.
Definition sample_decisions : list Decision :=
  [sample_allowed 7 "auth_1" "h1"; sample_allowed 8 "auth_2" "h2"].

(** C33 where two tokens have a process and a reservation each. *)
Lemma ps_isolated_and_bounded_witness :
  psRows 100 "h2" false sample_state sample_decisions =
    inr [mkPSRow "auth_2/8" "0" "bob" "python";
         mkPSRow "res_2" "1" "alice" "reserved until 0001-01-01T00:00:00Z"] /\
  psRows 100 "h2" false sample_state sample_decisions =
    psRows 100 "h2" false
      (State_set_Reservations (ownReservations "h2" (State_Reservations sample_state)) sample_state)
      (ownDecisions "h2" sample_decisions) /\
  (forall rows, psRows 100 "h2" true sample_state sample_decisions = inr rows -> withinLimits rows).
Proof.
  split; [vm_compute; reflexivity|].
  exact (ps_isolated_and_bounded 100 "h2" true sample_state sample_decisions).
Defined.
