(* ===== verification/DaemonDispatch.v ===== *)
(** internal/daemon/server.go: the dispatcher of requests. *)

From S2P Require Export DaemonPs.

(** What a result is sent back as. *)
Inductive reply : Type :=
  | RegisterReply (r : RegisterResult)
  | AllowReply (r : AllowResult)
  | StatusReply (s : Status)
  | PSReply (rows : list PSRow)
  | TokenReply (v : TokenView)
  | KeysReply (k : KeyStatus)
  | BypassReply (r : BypassRule)
  | RevokedReply (id : string).

Section dispatch.
Context `{JSON} `{ArgsJSON} (W : World).

#[local] Abbreviation Now := (Now W).
#[local] Abbreviation onStore := (onStore W).
#[local] Abbreviation perform := (perform W).
#[local] Abbreviation validateToken := (validateToken W).

(** [if err := json.Unmarshal(req.Args, &args); err != nil { return nil, err }]. *)
Definition decoded {A} (r : error + A) : M Server A :=
  match r with inl e => throw e | inr args => ret args end.

(** * register *)

(** The end of a new reservation: as asked for, or from its time to live. *)
Definition reservationEnd (args : RegisterArgs) (startsAt : time) : error + time :=
  let expiresAt := match RegisterArgs_ExpiresAt args with Some t => UTC t | None => zeroTime end in
  if IsZero expiresAt then
    match ParseTTL (RegisterArgs_TTL args) DefaultHardTTL MaxHardTTL with
    | inl err => inl err
    | inr ttl => inr (TimeAdd startsAt ttl)
    end
  else inr expiresAt.

(** The store's part of a reservation: for a managed key, or with a token of its
    own. *)
Definition reserve (args : RegisterArgs) (startsAt expiresAt now : time)
    : M Server (string * Token * string * list Reservation) :=
  let key := RegisterArgs_RootKey args in
  let purpose := RegisterArgs_Purpose args in
  let session := RegisterArgs_ExternalSessionID args in
  let gpus := RegisterArgs_GPUs args in
  if TrimSpace (RegisterArgs_UserKeyID args) <>s "" then
    r ← perform (MRegisterManaged key (RegisterArgs_UserKeyID args) purpose session gpus
                   startsAt expiresAt now)
          (RegisterManagedReservations key (RegisterArgs_UserKeyID args) purpose session gpus
             startsAt expiresAt now);
    let '(token, groupID, reservations) := r : Token * string * list Reservation in
    ret ("", token, groupID, reservations)
  else
    managed ← onStore ManagedKeysEnabled;
    fail_if managed
      (ErrorString "user_key_id is required; keys are managed by the web gateway") ;;
    r ← perform (MRegisterScheduled key (RegisterArgs_Name args) purpose session gpus
                   startsAt expiresAt now)
          (RegisterScheduledReservationsWithSession key (RegisterArgs_Name args) purpose session
             gpus startsAt expiresAt now);
    let '(secret, token, reservations) := r : string * Token * list Reservation in
    ret (secret, token, "", reservations).

Definition registerReserved (args : RegisterArgs) (now : time) : M Server RegisterResult :=
  check (validateConfiguredGPUs (GPUCount (x_cfg W)) (RegisterArgs_GPUs args)) ;;
  let startsAt := match RegisterArgs_StartsAt args with Some t => UTC t | None => now end in
  expiresAt ← decoded (reservationEnd args startsAt);
  fail_if (negb (After expiresAt now)) (ErrorString "reservation end must be in the future") ;;
  holding (
    ensureGPUsCanReserveWindow W (RegisterArgs_GPUs args) startsAt expiresAt ;;
    r ← reserve args startsAt expiresAt now;
    let '(secret, token, groupID, reservations) := r : string * Token * string * list Reservation in
    emitReservation W token reservations ;;
    ret (mkRegisterResult secret (Token_ID token)
           (if groupID =s "" then Token_ID token else groupID) (Token_Mode token)
           (map Reservation_ID reservations) (map Reservation_GPU reservations)
           (timePtrIfSet startsAt) (timePtrIfSet expiresAt))).

Definition registerClaimed (args : RegisterArgs) (now : time) : M Server RegisterResult :=
  managed ← onStore ManagedKeysEnabled;
  fail_if managed (ErrorString "claim keys are managed by the web gateway") ;;
  let key := RegisterArgs_RootKey args in
  let name := RegisterArgs_Name args in
  r ← perform (MRegisterSoftToken key name now) (RegisterSoftToken key name now);
  let '(secret, token) := r : string * Token in
  ret (mkRegisterResult secret "" "" (Token_Mode token) [] [] None None).

Definition register (args : RegisterArgs) (now : time) : M Server RegisterResult :=
  let wrongMode := ErrorString "mode must be reserved or claimed" in
  fail_if (TrimSpace (RegisterArgs_Mode args) =s "") wrongMode ;;
  check (validateRequestValue "name" (RegisterArgs_Name args)) ;;
  check (validateRequestValue "purpose" (RegisterArgs_Purpose args)) ;;
  check (validateRequestValue "external session id" (RegisterArgs_ExternalSessionID args)) ;;
  requireRootKey_ W (RegisterArgs_RootKey args) ;;
  let mode := NormalizeTokenMode (RegisterArgs_Mode args) in
  if mode =s TokenModeReserved then registerReserved args now
  else if mode =s TokenModeClaimed then registerClaimed args now
  else throw wrongMode.

(** * The dispatcher *)

Definition dispatch (p : peer) (req : Request) : M Server reply :=
  now ← Now;
  let method := Request_Method req in
  let secret := Request_Token req in
  if method =s "register" then
    args ← decoded (decodeRegisterArgs (Request_Args req));
    r ← register args now; ret (RegisterReply r)
  else if method =s "allow_docker" then
    t ← validateToken secret now;
    args ← decoded (UnmarshalDocker (Request_Args req));
    r ← createDockerAuthorization W secret (fst t) (snd t) p args; ret (AllowReply r)
  else if method =s "allow_k8s" then
    t ← validateToken secret now;
    args ← decoded (UnmarshalK8s (Request_Args req));
    r ← createK8sAuthorization W secret (fst t) (snd t) p args; ret (AllowReply r)
  else if method =s "allow_user" then
    t ← validateToken secret now;
    args ← decoded (UnmarshalUser (Request_Args req));
    r ← createUserAuthorization W secret (fst t) (snd t) p args; ret (AllowReply r)
  else if method =s "status" then
    if peer_UID p =? 0 then s ← onStore (StatusAll now); ret (StatusReply s)
    else
      t ← validateToken secret now;
      s ← onStore (StatusForToken (snd t) now); ret (StatusReply s)
  else if method =s "ps" then
    tokenHash ← readScopeTokenHash W secret p now;
    rows ← ps W now tokenHash (peer_UID p =? 0); ret (PSReply rows)
  else if method =s "who" then
    gpu ← decoded (UnmarshalWho (Request_Args req));
    tokenHash ← readScopeTokenHash W secret p now;
    rows ← ps W now tokenHash (peer_UID p =? 0);
    ret (PSReply (filter (fun row => gpuListContains (PSRow_GPU row) gpu = true) rows))
  else if method =s "token_info" then
    let args := if 0 <? slen (Request_Args req) then UnmarshalTokenInfo (Request_Args req)
                else mkTokenInfoArgs "" in
    let token := if TokenInfoArgs_Token args =s "" then secret else TokenInfoArgs_Token args in
    v ← onStore (tokenView token now); ret (TokenReply v)
  else if method =s "show_keys" then
    args ← decoded (UnmarshalRootKey (Request_Args req));
    k ← onStore (KeyStatusReport (RootKeyArgs_RootKey args) now); ret (KeysReply k)
  else if method =s "bypass_add" then
    args ← decoded (UnmarshalBypass (Request_Args req));
    requireRootKey_ W (BypassAddArgs_RootKey args) ;;
    r ← addBypass W args now; ret (BypassReply r)
  else if method =s "revoke" then
    args ← decoded (UnmarshalRevoke (Request_Args req));
    requireRootKey_ W (RevokeArgs_RootKey args) ;;
    revoke W (RevokeArgs_ID args) ;; ret (RevokedReply (RevokeArgs_ID args))
  else throw (Errorf "unknown method %q" [AStr method]).

End dispatch.
