(* ===== verification/DaemonMonitor.v ===== *)
(** internal/daemon/server.go: the monitor, which enforces the rows of the store
    on the processes of the GPUs every second and cleans up after them. *)

From S2P Require Export DaemonTelemetry.

Definition evictionCleanSamples : Z := 3.

(** * How often a scope was found without a process *)

(** One of the two loops over an assessment: [s.evictionClean[key]] goes up by
    one for a scope found clean, and back to zero otherwise. *)
Definition countSamples (kind : string) (assessed : gmap string bool) (counts : gmap string Z)
    : gmap string Z :=
  map_fold (fun id clean acc =>
    <[kind +:+ id := if clean : bool then default 0 (acc !! (kind +:+ id)) + 1 else 0]> acc)
    counts assessed.

Definition seenKeys (kind : string) (assessed seen : gmap string bool) : gmap string bool :=
  map_fold (fun id _ acc => <[kind +:+ id := true]> acc) seen assessed.

(** Both loops, and the deletion of what neither saw. *)
Definition recordAssessment (assessment : EvictionAssessment) (counts : gmap string Z)
    : gmap string Z :=
  let seen := seenKeys "lease:" (as_Leases assessment)
                (seenKeys "authorization:" (as_Authorizations assessment) ∅) in
  filter (fun kv => mem_bool seen kv.1 = true)
    (countSamples "lease:" (as_Leases assessment)
       (countSamples "authorization:" (as_Authorizations assessment) counts)).

(** The decisions name the processes that eviction has dealt with. *)
Definition targetedPIDs (decisions : list Decision) : gmap Z bool :=
  foldl (fun m d => if 0 <? GPUProcess_PID (d_Process d)
                    then <[GPUProcess_PID (d_Process d) := true]> m else m) ∅ decisions.
Definition untargeted (decisions : list Decision) (processes : list GPUProcess)
    : list GPUProcess :=
  filter (fun p => negb (mem_gpu (targetedPIDs decisions) (GPUProcess_PID p)) = true) processes.

Section monitor.
Context `{JSON} (W : World).

#[local] Abbreviation Now := (Now W).
#[local] Abbreviation perform := (perform W).
#[local] Abbreviation AppendAudit_ := (AppendAudit_ W).

Definition recordEvictionAssessment (assessment : EvictionAssessment) (err : option error)
    : M Server unit :=
  happened (Assessed assessment err) ;;
  modify (fun s => set_evictionClean (recordAssessment assessment (sv_evictionClean s)) s).

Definition evictionScopeReady (kind id : string) : M Server bool :=
  gets (fun s => evictionCleanSamples <=? default 0 (sv_evictionClean s !! (kind +:+ ":" +:+ id))).

(** * Cleaning up

    Each loop goes on after a row it could not clean up; its answer says whether
    there was one. *)

(** One iteration: [Some true] when the row is cleaned up, [Some false] when it
    could not be, and the remaining rows follow in any case. *)
Fixpoint cleaning {A} (body : A -> M Server bool) (rows : list A) : M Server bool :=
  match rows with
  | [] => ret true
  | row :: rest =>
      ok ← body row;
      others ← cleaning body rest;
      ret ((ok : bool) && (others : bool))
  end.

(** [if err := f(); err != nil { ok = false; continue }] before [k]. *)
Definition orSkip {A} (m : M Server A) (k : M Server unit) : M Server bool :=
  r ← try m;
  match r with inl _ => ret false | inr _ => k ;; ret true end.

Definition auditRow (now : time) (kind message : string) (gpu : Z) (id user : string)
    : M Server unit :=
  AppendAudit_ (mkAuditEvent (UTC now) kind message gpu 0 id user).

(** The scope of an invalid row: its managed cgroup is stopped and removed, any
    other scope but a bare one must have been quiescent three times in a row. *)
Definition stopScope (kind id cgroupPath mode : string) : M Server unit :=
  if cgroupPath <>s "" then stopAndRemoveManagedCgroup W cgroupPath
  else if mode <>s ModeBare then
    ready ← evictionScopeReady kind id;
    fail_if (negb (ready : bool)) (ErrorString "scope is not quiescent")
  else ret tt.

Definition authorizationValid (now : time) (tokens : gmap string bool) (a : Authorization)
    : bool :=
  negb (Authorization_Revoked a) && negb (authorizationExpiredAt a now) &&
  tokenValidForCleanup tokens (Authorization_TokenHash a).

Definition cleanupExpiredAuthorization (now : time) (tokens : gmap string bool)
    (a : Authorization) : M Server bool :=
  if negb (Authorization_Active a) || authorizationValid now tokens a then ret true
  else
    orSkip (stopScope "authorization" (Authorization_ID a) (Authorization_CgroupPath a)
              (Authorization_Mode a) ;;
            perform (MReleaseAuthorization (Authorization_ID a))
              (ReleaseAuthorization (Authorization_ID a)))
      (let revoked := Authorization_Revoked a ||
                      negb (tokenValidForCleanup tokens (Authorization_TokenHash a)) in
       let reason := if revoked then "revoked" else "expired" in
       emitAuthorizationEnded W (Authorization_ID a) reason now ;;
       (if Authorization_Mode a =s ModeBare
        then finishRunJob W (Authorization_ID a) reason now else ret tt) ;;
       auditRow now (if revoked then "authorization_revoked" else "authorization_expired")
         (if revoked then "authorization revoked" else "authorization expired") 0
         (Authorization_ID a) (Authorization_Holder a)).

Definition cleanupExpiredAuthorizationsState (state : State) : M Server bool :=
  now ← Now;
  let tokens := tokenValidityByHash (State_Tokens state) now in
  cleaning (cleanupExpiredAuthorization now tokens) (State_Authorizations state).

(** The reservations of one group end in one telemetry event. *)
Fixpoint cleanupReservations (now : time) (tokenIDs : gmap string string)
    (emitted : gmap string bool) (ok : bool) (rows : list Reservation) : M Server bool :=
  match rows with
  | [] => ret ok
  | r :: rest =>
      if negb (Reservation_Active r) ||
         (negb (Reservation_Revoked r) && Before now (Reservation_ExpiresAt r))
      then cleanupReservations now tokenIDs emitted ok rest
      else
        released ← try (perform (MReleaseReservation (Reservation_ID r))
                          (ReleaseReservation (Reservation_ID r)));
        match released with
        | inl _ => cleanupReservations now tokenIDs emitted false rest
        | inr _ =>
            let groupID := if Reservation_GroupID r <>s "" then Reservation_GroupID r
                           else lookup_string tokenIDs (Reservation_TokenHash r) in
            let emits := (groupID <>s "") && negb (mem_bool emitted groupID) in
            (if emits
             then emitTelemetry W (EventReservationEnded (mkReservationEnded groupID (UTC now)
                    (if Reservation_Revoked r then "revoked" else "expired"))) now
             else ret tt) ;;
            auditRow now "reservation_expired" "reserved GPU reservation expired"
              (Reservation_GPU r) (Reservation_ID r) (Reservation_Holder r) ;;
            cleanupReservations now tokenIDs
              (if emits then <[groupID := true]> emitted else emitted) ok rest
        end
  end.

Definition cleanupExpiredReservationsState (state : State) : M Server bool :=
  now ← Now;
  cleanupReservations now
    (foldl (fun m t => <[Token_Hash t := Token_ID t]> m) ∅ (State_Tokens state)) ∅ true
    (State_Reservations state).

Definition cleanupExpiredLease (now : time) (tokens : gmap string bool) (lease : Lease)
    : M Server bool :=
  if negb (Lease_Active lease) ||
     (Before now (Lease_ExpiresAt lease) && tokenValidForCleanup tokens (Lease_TokenHash lease))
  then ret true
  else
    orSkip (stopScope "lease" (Lease_ID lease) (Lease_CgroupPath lease) (Lease_Mode lease) ;;
            perform (MReleaseLease (Lease_ID lease)) (ReleaseLease (Lease_ID lease)))
      (auditRow now "lease_expired" "lease expired" (Lease_GPU lease) (Lease_ID lease) "").

Definition cleanupExpiredLeasesState (state : State) : M Server bool :=
  now ← Now;
  let tokens := tokenValidityByHash (State_Tokens state) now in
  cleaning (cleanupExpiredLease now tokens) (State_Leases state).

(** A bare scope is over when its cgroup is empty and removed, or, without a
    cgroup, when its root process is gone. *)
Definition finishedBareScope (cgroupPath : string) (rootPID : Z) : M Server unit :=
  if cgroupPath <>s "" then
    empty ← cgroupEmpty W cgroupPath;
    fail_if (negb (empty : bool)) (ErrorString "cgroup is not empty") ;;
    match cgroupPathWithinRoot W (CgroupRoot (x_cfg W)) cgroupPath with
    | inr true => removeOrGone W cgroupPath
    | _ => throw (ErrorString "cgroup is not managed")
    end
  else
    match x_Proc W with
    | None => ret tt
    | Some reader =>
        exists_ ← asking (fun n => proc_Exists (reader n) 0 rootPID);
        fail_if exists_ (ErrorString "root process is running") ;;
        happened (FoundGone rootPID)
    end.

Definition cleanupFinishedBareAuthorization (now : time) (a : Authorization) : M Server bool :=
  if negb (Authorization_Active a) || (Authorization_Mode a <>s ModeBare) ||
     (Authorization_RootPID a <=? 0) then ret true
  else
    orSkip (finishedBareScope (Authorization_CgroupPath a) (Authorization_RootPID a) ;;
            perform (MReleaseAuthorization (Authorization_ID a))
              (ReleaseAuthorization (Authorization_ID a)))
      (emitAuthorizationEnded W (Authorization_ID a) "released" now ;;
       finishRunJob W (Authorization_ID a) "cgroup_empty" now ;;
       auditRow now "authorization_released" "bare authorization released after process exit" 0
         (Authorization_ID a) (Authorization_Holder a)).

Definition cleanupFinishedBareAuthorizationsState (state : State) : M Server unit :=
  now ← Now;
  cleaning (cleanupFinishedBareAuthorization now) (State_Authorizations state) ;; ret tt.

Definition cleanupFinishedBareLease (now : time) (lease : Lease) : M Server bool :=
  if negb (Lease_Active lease) || (Lease_Mode lease <>s ModeBare) || (Lease_RootPID lease <=? 0)
  then ret true
  else
    orSkip (finishedBareScope (Lease_CgroupPath lease) (Lease_RootPID lease) ;;
            perform (MReleaseLease (Lease_ID lease)) (ReleaseLease (Lease_ID lease)))
      (auditRow now "lease_released" "bare lease released after process exit" (Lease_GPU lease)
         (Lease_ID lease) (Lease_Holder lease)).

Definition cleanupFinishedBareLeasesState (state : State) : M Server unit :=
  now ← Now;
  cleaning (cleanupFinishedBareLease now) (State_Leases state) ;; ret tt.

(** * Without a list of GPU processes *)

Definition inactiveManagedCgroupReadyForPrune (path : string) : M Server bool :=
  match cgroupPathWithinRoot W (CgroupRoot (x_cfg W)) path with
  | inr true =>
      empty ← cgroupEmpty W path;
      if empty : bool then
        r ← try (removeOrGone W path);
        ret (match r with inl _ => false | inr _ => true end)
      else ret false
  | _ => ret false
  end.

(** The ids of the rows that are inactive, in a managed cgroup that is gone. *)
Fixpoint readyIDs {A} (active : A -> bool) (path id : A -> string) (rows : list A)
    : M Server (list string) :=
  match rows with
  | [] => ret []
  | row :: rest =>
      ready ← (if negb (active row) && (path row <>s "")
               then inactiveManagedCgroupReadyForPrune (path row) else ret false);
      ids ← readyIDs active path id rest;
      ret (if ready : bool then id row :: ids else ids)
  end.

Definition withCgroup (state : State) : State :=
  State_set_Leases (filter (fun l => Lease_CgroupPath l <> "") (State_Leases state))
    (State_set_Authorizations (filter (fun a => Authorization_CgroupPath a <> "")
       (State_Authorizations state)) state).

Definition cleanupExpiredManagedCgroups : M Server unit :=
  holding (
    r ← try (EnforcementSnapshot_ W);
    match r with
    | inl _ => ret tt
    | inr state =>
        cleanupExpiredAuthorizationsState (withCgroup state) ;;
        cleanupExpiredLeasesState (withCgroup state) ;;
        r ← try (EnforcementSnapshot_ W);
        match r with
        | inl _ => ret tt
        | inr state =>
            authorizationIDs ← readyIDs Authorization_Active Authorization_CgroupPath
                                 Authorization_ID (State_Authorizations state);
            leaseIDs ← readyIDs Lease_Active Lease_CgroupPath Lease_ID (State_Leases state);
            ignoring (perform (MPruneInactiveManagedScopes authorizationIDs leaseIDs)
                        (PruneInactiveManagedScopes authorizationIDs leaseIDs)) ;;
            now ← Now;
            ignoring (perform (MPruneUnreferenced now) (PruneUnreferencedInvalidEntitlements now))
        end
    end).

(** * One pass of the monitor *)

(** The audit events of the passes that are kept. *)
Fixpoint acceptAudits (events : list AuditEvent) : M Server (list AuditEvent) :=
  match events with
  | [] => ret []
  | e :: rest =>
      ok ← acceptEnforcementAudit W e;
      more ← acceptAudits rest;
      ret (if ok : bool then e :: more else more)
  end.

(** The claims that the pass made and released. *)
Fixpoint applyClaims (now : time) (decisions : list Decision) : M Server unit :=
  match decisions with
  | [] => ret tt
  | d :: rest =>
      match d_Action d with
      | Claim => ignoring (perform (MUpsertSoftClaim (d_Claim d) now)
                             (UpsertSoftClaim (d_Claim d) now))
      | ReleaseClaim => ignoring (perform (MReleaseSoftClaim (d_ClaimID d))
                                    (ReleaseSoftClaim (d_ClaimID d)))
      | _ => ret tt
      end ;;
      applyClaims now rest
  end.

(** Eviction and enforcement with one authorizer, and what follows from their
    decisions: when they were done, and whether eviction failed. *)
Definition enforcePasses (state : State) (processes : list GPUProcess)
    : M Server (time * option error) :=
  sample ← asking (x_Processes W);
  n ← question;
  let '(r, p) := EvictExpiredReservedProcesses (authorizer W sample n) (x_schedule W n) state
                   processes newPass in
  let '(assessment, evictionErr) :=
    match r with inl e => (mkAssessment ∅ ∅, Some e) | inr a => a end in
  recordEvictionAssessment assessment evictionErr ;;
  let processes := untargeted (p_decisions p) processes in
  n ← question;
  let '(r', p') := Enforce (authorizer W sample n) (x_range W n Z) (x_schedule W n) state
                     processes newPass in
  let decisions := p_decisions p ++ p_decisions p' in
  happened (Enforced processes decisions) ;;
  audits ← acceptAudits (p_audit p ++ p_audit p');
  auditSample W sample (match evictionErr with Some e => [e] | None => [] end ++ errorOf r') ;;
  now ← Now;
  trackObservedTelemetryJobs W state decisions now ;;
  applyClaims now decisions ;;
  ignoring (perform (MAppendAudits audits) (AppendAudits audits)) ;;
  ret (now, evictionErr).

(** The pass under [enforceMu]; the store is pruned only when nothing is left
    that still needs a row. *)
Definition monitorLocked (processes : list GPUProcess) : M Server unit :=
  r ← try (EnforcementSnapshot_ W);
  match r with
  | inl _ => ret tt
  | inr state =>
      d ← enforcePasses state processes;
      let '(now, evictionErr) := d : time * option error in
      reservationsOK ← cleanupExpiredReservationsState state;
      authorizationsOK ← cleanupExpiredAuthorizationsState state;
      cleanupFinishedBareAuthorizationsState state ;;
      leasesOK ← cleanupExpiredLeasesState state;
      cleanupFinishedBareLeasesState state ;;
      match evictionErr with
      | None =>
          if (reservationsOK : bool) && (authorizationsOK : bool) && (leasesOK : bool)
          then ignoring (perform (MPrune now) (Prune now)) else ret tt
      | Some _ => ret tt
      end
  end.

Definition monitorOnce : M Server unit :=
  r ← asking (x_Processes W);
  modify (set_processRead (Some (match r with inl e => ([], Some e) | inr rows => (rows, None) end))) ;;
  match r with
  | inl err => auditGPUProcessError W err ;; cleanupExpiredManagedCgroups
  | inr processes => auditGPUProcessRecovery W ;; holding (monitorLocked processes)
  end.

(** [monitor]: a pass at the start and one per tick. *)
Fixpoint monitor (ticks : nat) : M Server unit :=
  monitorOnce ;; match ticks with O => ret tt | S ticks => monitor ticks end.

End monitor.
