(* ===== verification/DaemonRun.v ===== *)
(** internal/daemon/server.go: running a command under an authorization of its
    own, in a cgroup of its own. *)

From S2P Require Export DaemonAuth.

(** model.RunResult *)
Record RunResult : Type := mkRunResult
  { RunResult_AuthorizationID : string; RunResult_ExitCode : Z }.

(** What [runCommand] leaves to its deferred function: whether its
    authorization is active, whether to keep it, whether to remove the cgroup;
    and what it returns. *)
Record Leaving : Type := mkLeaving
  { authorizationActive : bool; keepAuthorization : bool; cleanupCgroup : bool;
    returns : error + RunResult }.

Section run.
Context `{JSON} `{ArgsJSON} (W : World).

(** [s.allowUnsafeCgroupFallback], which only tests set. *)
Context (allowUnsafeCgroupFallback : bool).

#[local] Abbreviation Now := (Now W).
#[local] Abbreviation sys := (sys W).

Definition isSome {A} (o : option A) : bool := match o with Some _ => true | None => false end.

(** * The cgroup of a command *)

Definition createCgroup (leaseID : string) : M Server (string * string) :=
  let root := CgroupRoot (x_cfg W) in
  let path := PathJoin root leaseID in
  err ← sys; check err ;;
  happened (CgroupCreated path) ;;
  let rel := TrimPrefix path "/sys/fs/cgroup/" in
  ret (path, if rel =s path then PathJoin (PathBase root) leaseID else rel).

(** Whether processes can be born in the cgroup, which is opened if so. *)
Definition openCgroupFD (path : string) : M Server bool :=
  stat ← sys;
  match stat with
  | Some err => if errors_Is err errNotExist then ret false else throw err
  | None =>
      err ← sys; check err ;;
      happened (Opened path) ;; ret true
  end.

Definition processExists (pid : Z) : M Server bool := asking (x_bool W).

Definition cgroupEmptyOrOnlyExitedRoot (path : string) (rootPID : Z) : M Server bool :=
  empty ← cgroupEmpty W path;
  if empty : bool then ret true
  else
    data ← ReadFile W (PathJoin path "cgroup.procs");
    match data with
    | inl _ => ret false
    | inr data =>
        let fields := Fields data in
        if llen fields =? 0 then ret false
        else
          alive ← processExists rootPID;
          if alive : bool then ret false
          else if forallb (fun f => match Atoi f with Some pid => pid =? rootPID | None => false end)
                    fields
          then happened (FoundExited path rootPID) ;; ret true
          else ret false
    end.

(** * Stopping a command *)

Definition SIGTERM : Z := 15.
Definition SIGKILL : Z := 9.
Definition killPolls : nat := 11.

Definition errNoSuchProcess : string := "no such process".

(** [syscall.Kill(-pid, signal)] of a process group: a group that is gone is no
    error, and after any other the process itself is killed. *)
Definition killGroup (pid signal : Z) : M Server unit :=
  happened (Signalled (- pid) signal) ;;
  err ← sys;
  match err with
  | None => ret tt
  | Some err =>
      if errors_Is err errNoSuchProcess then ret tt
      else happened (Signalled pid SIGKILL) ;; throw err
  end.

Definition processGroupAlive (pid : Z) : M Server bool :=
  if pid <=? 0 then ret false else asking (x_bool W).

(** The wait for the group, half a second in steps of 50 milliseconds, each of
    which takes at least that long. *)
Fixpoint waitForGroup (fuel : nat) (deadline : time) (pid : Z) : M Server unit :=
  match fuel with
  | O => ret tt
  | S fuel =>
      alive ← processGroupAlive pid;
      if alive : bool then
        now ← Now;
        if Before now deadline then waitForGroup fuel deadline pid else ret tt
      else ret tt
  end.

Definition terminateProcessGroup (pid : Z) : M Server unit :=
  if pid <=? 0 then ret tt
  else
    killGroup pid SIGTERM ;;
    now ← Now;
    waitForGroup killPolls (TimeAdd now (500 * Millisecond)) pid ;;
    alive ← processGroupAlive pid;
    if alive : bool then killGroup pid SIGKILL else ret tt.

(** [terminateStartedCommand]: its errors are dropped, and the command waited for. *)
Definition terminateStartedCommand (pid : Z) : M Server unit :=
  ignoring (terminateProcessGroup pid) ;; happened (Terminated pid).

(** * A command *)

(** Only the pipes of a command can fail while it is prepared. *)
Definition prepareRunCommand (args : RunArgs) (p : peer) (useCgroupFD : bool) : M Server Cmd :=
  out ← sys; check out ;; err ← sys; check err ;;
  ret (mkCmd (RunArgs_Command args) (RunArgs_Workdir args) (commandEnv (RunArgs_Env args))
         useCgroupFD
         (if (x_Geteuid W =? 0) && (0 <=? peer_UID p) && (0 <=? peer_GID p)
          then Some (uint32 (peer_UID p), uint32 (peer_GID p), peer_Groups p) else None)).

(** The command is started, in its cgroup when that is open; the answer tells
    its pid and where it was born. *)
Definition startCommand (args : RunArgs) (p : peer) (cmd : Cmd) (path : string)
    : M Server (Z * bool) :=
  err ← sys;
  cmd ← (match err with
    | None => ret cmd
    | Some err =>
        if negb (cmd_UseCgroupFD cmd) || negb allowUnsafeCgroupFallback then throw err
        else
          cmd ← prepareRunCommand args p false;
          err ← sys; check err ;; ret cmd
    end);
  pid ← asking (x_pid W);
  happened (Started pid path cmd) ;;
  ret (pid, cmd_UseCgroupFD cmd).

(** The token is validated again now that the process runs. *)
Definition activate (tokenSecret : string) (a : Authorization) (pid : Z)
    : M Server Authorization :=
  holding (
    now ← Now;
    t ← validateToken W tokenSecret now;
    let '(token, hash) := t : Token * string in
    fail_if (hash <>s Authorization_TokenHash a)
      (ErrorString "token identity changed while command was starting") ;;
    ensureTokenCanAuthorize W hash token now ;;
    perform W (MActivateAuthorization (Authorization_ID a) pid)
      (ActivateAuthorization (Authorization_ID a) pid)).

(** The command runs to its end; its output is copied meanwhile. *)
Definition waitCommand (token : Token) (a : Authorization) (pid : Z) (path : string)
    (command : list string) : M Server Leaving :=
  now ← Now;
  rememberRunJob W token a (Authorization_RootPID a) command now ;;
  waitErr ← sys;
  code ← asking (x_ExitCode W);
  let exitCode := default 0 code in
  now ← Now;
  updateRunJobRootExit W (Authorization_ID a) exitCode now ;;
  let answer := match waitErr with
                | Some err => if exitCode =? 0 then inl err
                              else inr (mkRunResult (Authorization_ID a) exitCode)
                | None => inr (mkRunResult (Authorization_ID a) exitCode)
                end in
  over ← cgroupEmptyOrOnlyExitedRoot path (Authorization_RootPID a);
  if over : bool then
    released ← try (releaseAuthorization W (Authorization_ID a));
    match released with
    | inl err => ret (mkLeaving true false true (inl err))
    | inr _ =>
        removed ← try (removeOrGone W path);
        match removed with
        | inl err => ret (mkLeaving false false true (inl err))
        | inr _ =>
            now ← Now;
            finishRunJob W (Authorization_ID a) "exited" now ;;
            ret (mkLeaving false false false answer)
        end
    end
  else ret (mkLeaving true true true answer).

(** From the start of the process on. *)
Definition runStarted (tokenSecret : string) (token : Token) (a : Authorization) (path : string)
    (command : list string) (pid : Z) (inCgroup : bool) : M Server Leaving :=
  moved ← (if inCgroup then ret None else sys);
  match moved with
  | Some err =>
      terminateStartedCommand pid ;;
      ret (mkLeaving true false true (inl err))
  | None =>
      activated ← try (activate tokenSecret a pid);
      match activated with
      | inl err =>
          terminateStartedCommand pid ;;
          stopped ← try (stopAndRemoveManagedCgroup W path);
          ret (mkLeaving true (match stopped with inl _ => true | inr _ => false end) true (inl err))
      | inr a => waitCommand token a pid path command
      end
  end.

(** The body under the deferred function. *)
Definition runInCgroup (tokenSecret : string) (token : Token) (a : Authorization) (p : peer)
    (args : RunArgs) (path : string) : M Server Leaving :=
  let leave err := ret (mkLeaving false false true (inl err)) in
  opened ← try (openCgroupFD path);
  match opened with
  | inl err => leave err
  | inr useCgroupFD =>
      if negb useCgroupFD && negb allowUnsafeCgroupFallback
      then leave (ErrorString
        "atomic cgroup placement is unavailable; refusing to start command")
      else
        prepared ← try (prepareRunCommand args p useCgroupFD);
        match prepared with
        | inl err => leave err
        | inr cmd =>
            added ← try (addAuthorization W tokenSecret a);
            match added with
            | inl err => leave err
            | inr a =>
                started ← try (startCommand args p cmd path);
                match started with
                | inl err => ret (mkLeaving true false true (inl err))
                | inr (pid, inCgroup) =>
                    runStarted tokenSecret token a path (RunArgs_Command args) pid inCgroup
                end
            end
        end
  end.

(** The deferred function of [runCommand]. *)
Definition afterRun (id path : string) (l : Leaving) : M Server unit :=
  (if authorizationActive l && negb (keepAuthorization l)
   then ignoring (releaseAuthorization W id) else ret tt) ;;
  if cleanupCgroup l && negb (keepAuthorization l)
  then ignoring (removeCgroup W path) else ret tt.

Definition runCommand (tokenSecret : string) (token : Token) (tokenHash : string) (p : peer)
    (args : RunArgs) : M Server RunResult :=
  fail_if ((peer_UID p <? 0) || (peer_GID p <? 0))
    (ErrorString "verified peer credentials are required") ;;
  now ← Now;
  ensureTokenCanAuthorize W tokenHash token now ;;
  check (validateRunArgs args) ;;
  now ← Now;
  id ← lift NewAuthorizationID;
  c ← createCgroup id;
  let '(path, rel) := c : string * string in
  let a := mkAuthorization id ModeBare tokenHash (NormalizeTokenMode (Token_Mode token))
    (Token_Version token) (Token_Name token) (peer_UID p) (peer_GID p) "" (RunArgs_Command args)
    0 path rel "" "" "" (UTC now) (Token_ExpiresAt token) true false in
  l ← runInCgroup tokenSecret token a p args path;
  afterRun id path l ;;
  match returns l with inl err => throw err | inr r => ret r end.

(** [handleRun], up to the response it writes. *)
Definition handleRun (p : peer) (req : Request) : M Server RunResult :=
  now ← Now;
  t ← validateToken W (Request_Token req) now;
  let '(token, tokenHash) := t : Token * string in
  match decodeRunArgs (Request_Args req) with
  | inl e => throw e
  | inr args => runCommand (Request_Token req) token tokenHash p args
  end.

End run.
