(* ===== verification/DaemonServe.v ===== *)
(** internal/daemon/server.go and http.go: where requests come from, the daemon's
    socket and the HTTP interface of the node. *)

From S2P Require Export DaemonDispatch DaemonRun.

(** * The socket *)

(** The groups of a process, from its status file: the loop over its lines, with
    whether the user id has been seen and the groups read so far. *)
Fixpoint statusGroups (uid : Z) (verified : bool) (groups : list string) (lines : list string)
    : error + list string :=
  match lines with
  | [] => if verified then inr groups
          else inl (ErrorString "peer process status is missing uid")
  | line :: rest =>
      match Fields line with
      | [] => statusGroups uid verified groups rest
      | head :: fields =>
          if head =s "Uid:" then
            match fields with
            | first :: _ =>
                if first =s Itoa uid then statusGroups uid true groups rest
                else inl (ErrorString "peer process identity changed before group lookup")
            | [] => inl (ErrorString "peer process identity changed before group lookup")
            end
          else if head =s "Groups:" then statusGroups uid verified fields rest
          else statusGroups uid verified groups rest
      end
  end.

Inductive answer : Type :=
  | Dispatched (r : reply)
  | Ran (r : RunResult).

(** protocol.AllowArgs *)
(** An HTTP request, as net/http presents it; the media type is the answer of
    [mime.ParseMediaType] on its content type. *)
Record httpRequest : Type := mkHttpRequest
  { h_Method : string; h_Path : string; h_Authorization : string; h_hasBody : bool;
    h_ContentLength : Z; h_TransferEncoding : list string; h_mediaType : option string;
    h_Body : string }.

(** encoding/json for the bodies, with unknown fields refused: the first value
    and what follows it; and for the arguments that are passed on to the
    dispatcher. *)
Class NodeJSON : Type := {
  DecodeRegister : string -> error + RegisterArgs * string;
  DecodeAllow : string -> error + AllowArgs * string;
  DecodeRevoke : string -> error + RevokeArgs * string;
  DecodeSync : string -> error + ManagedUserKeySnapshot * string;
  DecodeEmpty : string -> option error;
  MarshalRegister : RegisterArgs -> string;
  MarshalDocker : DockerAllowArgs -> string;
  MarshalK8s : K8sAllowArgs -> string;
  MarshalUser : UserAllowArgs -> string;
  MarshalRevoke : RevokeArgs -> string
}.

(** The responses: a status and what it carries; what the routes that only read
    answer is not modelled. *)
Inductive httpReply : Type :=
  | HTTPError (status : Z) (message : string)
  | HTTPDispatched (status : Z) (r : reply)
  | HTTPAllowed (status : Z) (r : AllowResult)
  | HTTPSynced (status : Z) (r : ManagedUserKeySyncResult)
  | HTTPOK (status : Z)
  | HTTPRead (path : string).

Definition StatusOK : Z := 200.
Definition StatusCreated : Z := 201.
Definition StatusBadRequest : Z := 400.
Definition StatusUnauthorized : Z := 401.
Definition StatusNotFound : Z := 404.
Definition StatusMethodNotAllowed : Z := 405.
Definition StatusUnsupportedMediaType : Z := 415.
Definition StatusInternalServerError : Z := 500.
Definition StatusServiceUnavailable : Z := 503.

Definition bearerToken (header : string) : option string :=
  let header := TrimSpace header in
  if negb (HasPrefix header "Bearer ") then None
  else let token := TrimSpace (TrimPrefix header "Bearer ") in
       if token <>s "" then Some token else None.

Definition nodeRequestHasBody (r : httpRequest) : bool :=
  h_hasBody r && (negb (h_ContentLength r =? 0) || (0 <? llen (h_TransferEncoding r))).

Definition nodeRequestHasJSONContentType (r : httpRequest) : bool :=
  match h_mediaType r with Some t => EqualFold t "application/json" | None => false end.

Definition errEOF : string := "EOF".

(** [decodeNodeJSON], on what the first [Decode] answered. *)
Definition decodeNodeJSON `{NodeJSON} {A} (first : error + A * string) : error + A :=
  match first with
  | inl e => inl e
  | inr (x, rest) =>
      match DecodeEmpty rest with
      | Some e => if errors_Is e errEOF then inr x else inl e
      | None => inl (ErrorString "request body must contain one JSON value")
      end
  end.

Definition dispatchError (err : error) : httpReply :=
  HTTPError (if errors_Is err errInvalidRootKey then StatusUnauthorized else StatusBadRequest)
    (Error err).

(** [peer{}]: the web gateway acts with root's rights. *)
Definition nodePeer : peer := mkPeer 0 0 0 [].

Section serve.
Context `{JSON} `{ArgsJSON} `{NodeJSON} (W : World) (allowUnsafeCgroupFallback : bool).

#[local] Abbreviation Now := (Now W).

Definition peerProcessGroups (pid uid primaryGID : Z) : M Server (list Z) :=
  let root := if ProcRoot (x_cfg W) =s "" then "/proc" else ProcRoot (x_cfg W) in
  data ← ReadFile W (PathJoin (PathJoin root (Itoa pid)) "status");
  match data with
  | inl err => throw (Errorf "read peer process groups: %w" [AErr err])
  | inr data =>
      match statusGroups uid false [] (Split data (byte_of 10)) with
      | inl err => throw err
      | inr groups => ret (normalizePeerGroups primaryGID groups)
      end
  end.

(** One request of a connection, as [serveConn] answers it. *)
Definition serveRequest (p : peer) (req : Request) : M Server answer :=
  fail_if ((maxRPCIDBytes <? slen (Request_ID req)) ||
           (maxRPCMethodBytes <? slen (Request_Method req)) ||
           (maxRPCTokenBytes <? slen (Request_Token req)))
    (ErrorString "RPC request field exceeds size limit") ;;
  if Request_Method req =s "run" then
    groups ← (if llen (peer_Groups p) =? 0
              then peerProcessGroups (peer_PID p) (peer_UID p) (peer_GID p)
              else ret (peer_Groups p));
    r ← handleRun W allowUnsafeCgroupFallback
          (mkPeer (peer_PID p) (peer_UID p) (peer_GID p) groups) req;
    ret (Ran r)
  else r ← dispatch W p req; ret (Dispatched r).

(** * The HTTP interface *)

(** An error of the handler becomes the response. *)
Definition orDispatchError (m : M Server httpReply) : M Server httpReply :=
  r ← try m; ret (match r with inl err => dispatchError err | inr x => x end).

Definition badRequest (e : error) : httpReply := HTTPError StatusBadRequest (Error e).
Definition notAllowed : httpReply := HTTPError StatusMethodNotAllowed "method not allowed".

Definition protocolRequest (method args secret : string) : Request :=
  mkRequest "http" method secret args.

(** [if r.Method != want { ... }]. *)
Definition onMethod (want : string) (r : httpRequest) (k : M Server httpReply)
    : M Server httpReply :=
  if h_Method r =s want then k else ret notAllowed.

Definition handleNodeUserKeySync (r : httpRequest) (rootKey : string) : M Server httpReply :=
  onMethod "PUT" r
    (match decodeNodeJSON (DecodeSync (h_Body r)) with
     | inl e => ret (badRequest e)
     | inr snapshot =>
         orDispatchError (
           result ← holding (
             now ← Now;
             perform W (MSyncManagedUserKeys rootKey snapshot now)
               (SyncManagedUserKeys rootKey snapshot now));
           ret (HTTPSynced StatusOK result))
     end).

(** The arguments of the two kinds of registration over HTTP. *)
Definition nodeRegisterArgs (rootKey mode : string) (a : RegisterArgs) : RegisterArgs :=
  mkRegisterArgs rootKey mode (TrimSpace (RegisterArgs_Name a)) (RegisterArgs_Purpose a)
    (RegisterArgs_ExternalSessionID a) (RegisterArgs_UserKeyID a) (RegisterArgs_GPUs a)
    (RegisterArgs_TTL a) (RegisterArgs_StartsAt a) (RegisterArgs_ExpiresAt a).

Definition handleNodeRegister (mode : string) (args : RegisterArgs) (rootKey : string)
    : M Server httpReply :=
  let args := nodeRegisterArgs rootKey mode args in
  if RegisterArgs_Name args =s "" then ret (HTTPError StatusBadRequest "name is required")
  else orDispatchError (
    result ← dispatch W nodePeer (protocolRequest "register" (MarshalRegister args) "");
    ret (HTTPDispatched StatusCreated result)).

Definition handleNodeReservations (r : httpRequest) (rootKey : string) : M Server httpReply :=
  onMethod "POST" r
    (match decodeNodeJSON (DecodeRegister (h_Body r)) with
     | inl e => ret (badRequest e)
     | inr args => handleNodeRegister TokenModeReserved args rootKey
     end).

(** An empty body stands for arguments that are all missing. *)
Definition handleNodeClaimKeys (r : httpRequest) (rootKey : string) : M Server httpReply :=
  onMethod "POST" r
    (match decodeNodeJSON (DecodeRegister (h_Body r)) with
     | inl e => if errors_Is e errEOF
                then handleNodeRegister TokenModeClaimed RegisterArgs_zero rootKey
                else ret (badRequest e)
     | inr args => handleNodeRegister TokenModeClaimed args rootKey
     end).

Definition handleNodeShowKeys (r : httpRequest) (rootKey : string) : M Server httpReply :=
  onMethod "POST" r
    (orDispatchError (
       now ← Now;
       k ← onStore W (KeyStatusReport rootKey now);
       ret (HTTPDispatched StatusOK (KeysReply k)))).

(** The secret stored for a token id. *)
Definition storedSecret (tokenID : string) (tokens : list TokenView) : string :=
  match find (fun candidate => TokenView_ID candidate =s tokenID) tokens with
  | Some candidate => TokenView_Key candidate
  | None => ""
  end.

(** An authorization through the dispatcher, with the secret of the key. *)
Definition allowWithSecret (mode secret : string) (args : AllowArgs) : M Server httpReply :=
  let '(method, raw) :=
    if mode =s ModeDocker
    then ("allow_docker", MarshalDocker (mkDockerAllowArgs (AllowArgs_Container args)))
    else if mode =s ModeK8s
    then ("allow_k8s", MarshalK8s (mkK8sAllowArgs (AllowArgs_Namespace args)))
    else ("allow_user", MarshalUser (mkUserAllowArgs (AllowArgs_User args))) in
  result ← dispatch W nodePeer (protocolRequest method raw secret);
  ret (HTTPDispatched StatusCreated result).

(** An authorization for a managed key, whose secret the node does not have. *)
Definition allowManaged (mode : string) (token : Token) (args : AllowArgs)
    : M Server httpReply :=
  let hash := Token_Hash token in
  result ← (if mode =s ModeDocker
            then createDockerAuthorization W "" token hash nodePeer
                   (mkDockerAllowArgs (AllowArgs_Container args))
            else if mode =s ModeK8s
            then createK8sAuthorization W "" token hash nodePeer
                   (mkK8sAllowArgs (AllowArgs_Namespace args))
            else createUserAuthorization W "" token hash nodePeer
                   (mkUserAllowArgs (AllowArgs_User args)));
  ret (HTTPAllowed StatusCreated result).

Definition allowedModes : list string := [ModeDocker; ModeK8s; ModeUser].

Definition handleNodeAllow (r : httpRequest) (rootKey : string) : M Server httpReply :=
  onMethod "POST" r
    (match decodeNodeJSON (DecodeAllow (h_Body r)) with
     | inl e => ret (badRequest e)
     | inr args =>
         let tokenID := TrimSpace (AllowArgs_UserKeyID args) in
         let tokenID := if tokenID =s "" then TrimSpace (AllowArgs_ID args) else tokenID in
         if tokenID =s "" then ret (HTTPError StatusBadRequest "id is required")
         else
           let mode := TrimSpace (AllowArgs_Mode args) in
           let wrongMode := ret (HTTPError StatusBadRequest "mode must be docker, k8s, or user") in
           now ← Now;
           managed ← try (ManagedTokenByID_ W tokenID now);
           match managed with
           | inr token =>
               if existsb (String.eqb mode) allowedModes
               then orDispatchError (allowManaged mode token args) else wrongMode
           | inl _ =>
               now ← Now;
               status ← try (onStore W (KeyStatusReport rootKey now));
               match status with
               | inl err => ret (dispatchError err)
               | inr status =>
                   let secret := storedSecret tokenID (KeyStatus_Tokens status) in
                   if secret =s ""
                   then ret (HTTPError StatusNotFound "key not found or secret is not stored")
                   else if existsb (String.eqb mode) allowedModes
                   then orDispatchError (allowWithSecret mode secret args) else wrongMode
               end
           end
     end).

Definition handleNodeRevoke (r : httpRequest) (rootKey : string) : M Server httpReply :=
  onMethod "POST" r
    (match decodeNodeJSON (DecodeRevoke (h_Body r)) with
     | inl e => ret (badRequest e)
     | inr args =>
         orDispatchError (
           result ← dispatch W nodePeer (protocolRequest "revoke"
                      (MarshalRevoke (mkRevokeArgs rootKey (RevokeArgs_ID args))) "");
           ret (HTTPDispatched StatusOK result))
     end).

(** [nodeAuth]: every route needs the root key. *)
Definition nodeAuth (r : httpRequest) (next : string -> M Server httpReply)
    : M Server httpReply :=
  match bearerToken (h_Authorization r) with
  | None => ret (HTTPError StatusUnauthorized "bearer root key is required")
  | Some rootKey =>
      valid ← try (requireRootKey_ W rootKey);
      match valid with
      | inr _ => next rootKey
      | inl err => ret (HTTPError (if errors_Is err errInvalidRootKey then StatusUnauthorized
                                   else StatusInternalServerError) (Error err))
      end
  end.

(** The routes that only read. *)
Definition readRoutes : list string :=
  ["/healthz"; "/api/v1/snapshot"; "/api/v1/info"; "/api/v1/telemetry"].

Definition route (path : string) : option (httpRequest -> string -> M Server httpReply) :=
  if path =s "/api/v1/user-keys/sync" then Some handleNodeUserKeySync
  else if path =s "/api/v1/reservations" then Some handleNodeReservations
  else if path =s "/api/v1/claim-keys" then Some handleNodeClaimKeys
  else if path =s "/api/v1/show-keys" then Some handleNodeShowKeys
  else if path =s "/api/v1/allow" then Some handleNodeAllow
  else if path =s "/api/v1/revoke" then Some handleNodeRevoke
  else if existsb (String.eqb path) readRoutes
  then Some (fun r _ => onMethod "GET" r (ret (HTTPRead path)))
  else None.

(** The handler of [nodeHTTPHandler], with a slot for the request or none left. *)
Definition nodeHTTPHandler (r : httpRequest) : M Server httpReply :=
  slot ← asking (x_slotFree W);
  if negb (slot : bool)
  then ret (HTTPError StatusServiceUnavailable "too many concurrent node requests; retry shortly")
  else if nodeRequestHasBody r && negb (nodeRequestHasJSONContentType r)
  then ret (HTTPError StatusUnsupportedMediaType "Content-Type must be application/json")
  else match route (h_Path r) with
       | Some handler => nodeAuth r (handler r)
       | None => ret (HTTPError StatusNotFound "404 page not found")
       end.

End serve.
