(* ===== verification/DaemonTrace.v ===== *)
(** What the daemon may do, as a condition on its history: what must have
    happened before each event. *)

From S2P Require Export DaemonServe DaemonMonitor.

(** * Critical sections *)

(** The events since [enforceMu] was locked, while it is held. *)
Definition sectionStep (acc : option (list event)) (e : event) : option (list event) :=
  match e with
  | Locked => Some []
  | Unlocked => None
  | _ => (fun since => since ++ [e]) <$> acc
  end.
Definition sectionFrom (acc : option (list event)) (h : list event) : option (list event) :=
  foldl sectionStep acc h.
Definition section (h : list event) : option (list event) := sectionFrom None h.

(** The mutex is held; and this happened since it was locked. *)
Definition held (h : list event) : Prop := section h <> None.
Definition inSection (e : event) (h : list event) : Prop :=
  exists since, section h = Some since /\ e ∈ since.

(** * The assessments so far *)

Definition assessmentsOf (h : list event) : list EvictionAssessment :=
  omap (fun e => match e with Assessed a _ => Some a | _ => None end) h.
Definition countsAfter (counts : gmap string Z) (h : list event) : gmap string Z :=
  foldl (fun c a => recordAssessment a c) counts (assessmentsOf h).

#[global] Arguments section : simpl never.
#[global] Arguments countsAfter : simpl never.

(** * Justifications *)

Section justified.
Context (W : World).

(** Whether the request comes from root, and the counts the handler found. *)
Context (root : bool) (counts : gmap string Z).

Definition cgroupManaged (path : string) : Prop :=
  cgroupPathWithinRoot W (CgroupRoot (x_cfg W)) path = inr true.

(** A reservation of these GPUs: in the state of this critical section no
    reservation overlaps its window and no legacy lease holds a GPU then, and
    its window starts later than the present, or no process but bypassed ones
    was found on any of the GPUs. *)
Definition reservable (h : list event) (gpus : list Z) (startsAt expiresAt : time) : Prop :=
  exists start now state, inSection (Clock now) h /\ inSection (Snapshotted state) h /\
    (start = startsAt \/ IsZero startsAt = true /\ inSection (Clock start) h) /\
    Before now expiresAt = true /\
    (forall r, r ∈ State_Reservations state ->
       overlapping (gpuSet gpus) start expiresAt r = false) /\
    (forall l, l ∈ State_Leases state -> leasedNow (gpuSet gpus) start now l = false) /\
    (Before now start = true \/ Forall (fun gpu => inSection (FoundFree state gpu) h) gpus).

(** A reserving token has a reservation that is active now. *)
Definition entitled (h : list event) (token : Token) (hash : string) (now : time) : Prop :=
  NormalizeTokenMode (Token_Mode token) = TokenModeReserved ->
  exists state r, inSection (Snapshotted state) h /\ r ∈ State_Reservations state /\
    Reservation_TokenHash r = hash /\ ReservationActiveAt r now = true.

(** The authorization repeats the token that was validated for it under the
    lock, whose reservation is active if it is a reserving one; patterns are for
    root alone. *)
Definition authorized (h : list event) (a : Authorization) : Prop :=
  Authorization_Active a = true /\ Authorization_Revoked a = false /\
  (root = false -> Authorization_ContainerPattern a = "" /\
                   hasWildcard (Authorization_Namespace a) = false /\
                   hasWildcard (Authorization_Username a) = false) /\
  ((exists secret now token hash, inSection (TokenAccepted secret now token hash) h /\
      Authorization_TokenHash a = hash /\ Authorization_TokenVersion a = Token_Version token /\
      Authorization_TokenMode a = NormalizeTokenMode (Token_Mode token) /\
      Authorization_Holder a = Token_Name token /\
      Authorization_ExpiresAt a = Token_ExpiresAt token /\
      entitled h token hash now) \/
   (exists id now token, inSection (ManagedAccepted id now token) h /\
      Authorization_TokenHash a = Token_Hash token /\
      Authorization_TokenVersion a = Token_Version token /\
      Authorization_TokenMode a = TokenModeManaged /\ Authorization_Holder a = Token_Name token)).

(** A bypass names a process that was identified, or a command of root's. *)
Definition bypassable (h : list event) (rule : BypassRule) : Prop :=
  (BypassRule_Type rule = BypassPID /\ x_bootID W <> "" /\ BypassRule_BootID rule = x_bootID W /\
   exists info, inSection (Identified (BypassRule_PID rule) info) h /\
     ProcInfo_PID info = BypassRule_PID rule /\ BypassRule_StartTime rule <> 0 /\
     BypassRule_StartTime rule = ProcInfo_StartTime info) \/
  (BypassRule_Type rule = BypassCommand /\ IsAbs (BypassRule_Command rule) = true /\
   BypassRule_UID rule = 0).

(** An invalid scope was stopped: its cgroup was found empty, or three
    assessments in a row found it quiescent; a bare one without a cgroup has
    nothing to stop. *)
Definition stopped (h : list event) (kind id path mode : string) : Prop :=
  (path <> "" /\ cgroupManaged path /\ inSection (FoundEmpty path) h) \/
  (path = "" /\ mode = ModeBare) \/
  (path = "" /\ evictionCleanSamples <=
     default 0 (countsAfter counts h !! (kind +:+ ":" +:+ id))).

(** A bare scope is over: its cgroup was found empty, or its root process gone. *)
Definition over (h : list event) (path : string) (rootPID : Z) : Prop :=
  (path = "" /\ (x_Proc W = None \/ inSection (FoundGone rootPID) h)) \/
  (cgroupManaged path /\ inSection (FoundEmpty path) h).

Definition mayReleaseAuthorization (h : list event) (id : string) : Prop :=
  (exists a clock, Called (MAddAuthorization a clock) None ∈ h /\ Authorization_ID a = id) \/
  (exists state a, inSection (Snapshotted state) h /\ a ∈ State_Authorizations state /\
     Authorization_ID a = id /\ Authorization_Active a = true /\
     ((exists now, inSection (Clock now) h /\
         authorizationValid now (tokenValidityByHash (State_Tokens state) now) a = false /\
         stopped h "authorization" id (Authorization_CgroupPath a) (Authorization_Mode a)) \/
      (Authorization_Mode a = ModeBare /\ over h (Authorization_CgroupPath a) (Authorization_RootPID a)))).

Definition mayReleaseLease (h : list event) (id : string) : Prop :=
  exists state l, inSection (Snapshotted state) h /\ l ∈ State_Leases state /\
    Lease_ID l = id /\ Lease_Active l = true /\
    ((exists now, inSection (Clock now) h /\
        (Before now (Lease_ExpiresAt l) && tokenValidForCleanup
           (tokenValidityByHash (State_Tokens state) now) (Lease_TokenHash l)) = false /\
        stopped h "lease" id (Lease_CgroupPath l) (Lease_Mode l)) \/
     (Lease_Mode l = ModeBare /\ over h (Lease_CgroupPath l) (Lease_RootPID l))).

Definition mayReleaseReservation (h : list event) (id : string) : Prop :=
  exists state r now, inSection (Snapshotted state) h /\ r ∈ State_Reservations state /\
    Reservation_ID r = id /\ inSection (Clock now) h /\
    (Reservation_Revoked r = true \/ Before now (Reservation_ExpiresAt r) = false).

(** A claim comes from a decision of the enforcement pass. *)
Definition decided (h : list event) (test : Decision -> Prop) : Prop :=
  exists processes decisions d, inSection (Enforced processes decisions) h /\
    d ∈ decisions /\ test d.

(** Nothing in the snapshot is left that a pruned row could still be needed for:
    each active row is in force, or was released in this critical section. *)
Definition settled {A} (h : list event) (rows : list A) (active : A -> bool)
    (inForce : time -> A -> bool) (release : A -> method) : Prop :=
  exists now, inSection (Clock now) h /\ forall row, row ∈ rows -> active row = true ->
    inForce now row = true \/ inSection (Called (release row) None) h.

Definition leaseValid (state : State) (now : time) (l : Lease) : bool :=
  Before now (Lease_ExpiresAt l) &&
  tokenValidForCleanup (tokenValidityByHash (State_Tokens state) now) (Lease_TokenHash l).

Definition cleaned (h : list event) (state : State) : Prop :=
  settled h (State_Reservations state) Reservation_Active
    (fun now r => negb (Reservation_Revoked r) && Before now (Reservation_ExpiresAt r))
    (fun r => MReleaseReservation (Reservation_ID r)) /\
  settled h (State_Authorizations state) Authorization_Active
    (fun now a => authorizationValid now (tokenValidityByHash (State_Tokens state) now) a)
    (fun a => MReleaseAuthorization (Authorization_ID a)) /\
  settled h (State_Leases state) Lease_Active (leaseValid state)
    (fun l => MReleaseLease (Lease_ID l)).

Definition prunable {A} (h : list event) (rows : State -> list A) (active : A -> bool)
    (path id : A -> string) (which : string) : Prop :=
  exists state row, inSection (Snapshotted state) h /\ row ∈ rows state /\ id row = which /\
    active row = false /\ path row <> "" /\ cgroupManaged (path row) /\
    inSection (FoundEmpty (path row)) h.

(** The calls of the store, each with what must have happened before it. *)
Definition mayCall (h : list event) (m : method) : Prop :=
  match m with
  | MAppendAudits _ => True
  | MRegisterSoftToken key _ _ => RootKeyAccepted key ∈ h
  | MRegisterScheduled key _ _ _ gpus startsAt expiresAt _
  | MRegisterManaged key _ _ _ gpus startsAt expiresAt _ =>
      RootKeyAccepted key ∈ h /\ reservable h gpus startsAt expiresAt
  | MSyncManagedUserKeys key _ _ => held h /\ RootKeyAccepted key ∈ h
  | MAddBypass rule => (exists key, RootKeyAccepted key ∈ h) /\ held h /\ bypassable h rule
  | MRevoke _ _ => held h /\ exists key, RootKeyAccepted key ∈ h
  | MAddAuthorization a _ => authorized h a
  | MActivateAuthorization id pid =>
      exists a clock path cmd secret now token, Called (MAddAuthorization a clock) None ∈ h /\
        Authorization_ID a = id /\ Authorization_CgroupPath a = path /\ Started pid path cmd ∈ h /\
        inSection (TokenAccepted secret now token (Authorization_TokenHash a)) h /\
        entitled h token (Authorization_TokenHash a) now
  | MReleaseAuthorization id => held h /\ mayReleaseAuthorization h id
  | MReleaseLease id => mayReleaseLease h id
  | MReleaseReservation id => mayReleaseReservation h id
  | MUpsertSoftClaim claim _ => decided h (fun d => d_Action d = Claim /\ d_Claim d = claim)
  | MReleaseSoftClaim id => decided h (fun d => d_Action d = ReleaseClaim /\ d_ClaimID d = id)
  | MPrune _ => exists state assessment, inSection (Snapshotted state) h /\
      inSection (Assessed assessment None) h /\ cleaned h state
  | MPruneInactiveManagedScopes authorizationIDs leaseIDs =>
      Forall (prunable h State_Authorizations Authorization_Active Authorization_CgroupPath
                Authorization_ID) authorizationIDs /\
      Forall (prunable h State_Leases Lease_Active Lease_CgroupPath Lease_ID) leaseIDs
  | MPruneUnreferenced _ => held h
  | _ => False
  end.

(** A process is started only for an authorization that is already persisted. *)
Definition mayStart (h : list event) (path : string) (cmd : Cmd) : Prop :=
  exists a clock, Called (MAddAuthorization a clock) None ∈ h /\
    Authorization_Mode a = ModeBare /\ Authorization_CgroupPath a = path /\
    Authorization_Command a = cmd_Args cmd /\ CgroupCreated path ∈ h.

Definition justified (h : list event) (e : event) : Prop :=
  match e with
  | Called m _ => mayCall h m
  | Started _ path cmd => mayStart h path cmd
  | CgroupKilled path => cgroupManaged path /\ DryRun (x_cfg W) = false
  | CgroupRemoved path => cgroupManaged path \/ CgroupCreated path ∈ h
  | Signalled _ _ => exists pid path cmd, Started pid path cmd ∈ h
  | _ => True
  end.

(** Every event of the history is justified by what happened before it. *)
Definition lawful (h : list event) : Prop :=
  forall before e after, h = before ++ e :: after -> justified before e.

End justified.
