(* ===== verification/DaemonLogic.v ===== *)
(** A program logic for the handlers of the daemon: what a computation adds to
    the history is justified, and what its answer tells. *)

From S2P Require Export DaemonTrace.

#[local] Set Default Proof Using "Type*".

(** * Extensions of a history inside one critical section *)

Definition neverLocks (e : event) : Prop := e <> Locked /\ e <> Unlocked.
Definition ext (h h' : list event) : Prop :=
  exists new, h' = h ++ new /\ Forall neverLocks new.

#[export] Instance ext_preorder : PreOrder ext.
Proof.
  split.
  - intros h. exists []. by rewrite app_nil_r.
  - intros h1 h2 h3 (n1 & -> & F1) (n2 & -> & F2). exists (n1 ++ n2).
    rewrite app_assoc. split; [done|]. by apply Forall_app.
Qed.

Lemma section_snoc h e : section (h ++ [e]) = sectionStep (section h) e.
Proof. unfold section, sectionFrom. by rewrite foldl_app. Qed.

Lemma section_ext h h' since :
  ext h h' -> section h = Some since -> exists new, h' = h ++ new /\ section h' = Some (since ++ new).
Proof.
  intros (new & -> & F) S. exists new. split; [done|]. revert h since S.
  induction F as [|e new [L U] F IH]; intros h since S; [by rewrite !app_nil_r|].
  assert (section (h ++ [e]) = Some (since ++ [e])) as S'.
  { rewrite section_snoc, S. by destruct e. }
  specialize (IH _ _ S'). by rewrite <- !app_assoc in IH.
Qed.

Lemma elem_ext e h h' : ext h h' -> e ∈ h -> e ∈ h'.
Proof. intros (new & -> & _) I. apply elem_of_app. by left. Qed.

Lemma held_ext h h' : ext h h' -> held h -> held h'.
Proof.
  unfold held. intros X S. destruct (section h) as [since|] eqn:E; [|done].
  destruct (section_ext _ _ _ X E) as (new & _ & ->). done.
Qed.

Lemma inSection_ext e h h' : ext h h' -> inSection e h -> inSection e h'.
Proof.
  intros X (since & S & I). destruct (section_ext _ _ _ X S) as (new & _ & S').
  exists (since ++ new). split; [done|]. apply elem_of_app. by left.
Qed.

Lemma inSection_held e h : inSection e h -> held h.
Proof. intros (since & S & _). unfold held. by rewrite S. Qed.

Lemma inSection_new e h : neverLocks e -> held h -> inSection e (h ++ [e]).
Proof.
  unfold held. intros [L U] S. destruct (section h) as [since|] eqn:E; [|done].
  exists (since ++ [e]). rewrite section_snoc, E. split; [by destruct e|].
  apply elem_of_app. right. by apply list_elem_of_singleton.
Qed.

Lemma held_locked h : held (h ++ [Locked]).
Proof. unfold held. by rewrite section_snoc. Qed.

(** An event the caller may rely on: it is in the history, and in the critical
    section when there is one. *)
Definition told (h : list event) (e : event) : Prop := e ∈ h /\ (held h -> inSection e h).

Lemma told_new h e : neverLocks e -> told (h ++ [e]) e.
Proof.
  intros N. split; [apply elem_of_app; right; by apply list_elem_of_singleton|].
  intros Hd. apply inSection_new; [done|]. revert Hd. unfold held. rewrite section_snoc.
  destruct N as [L U]. destruct (section h), e; cbn; congruence.
Qed.

Lemma held_ext_back h h' : ext h h' -> held h' -> held h.
Proof.
  unfold held. intros (new & -> & F) Hd S. apply Hd. revert h S Hd.
  induction F as [|e new [L U] F IH]; intros h S Hd; [by rewrite app_nil_r|].
  rewrite cons_middle, app_assoc in Hd |- *. apply IH; [|done].
  rewrite section_snoc, S. by destruct e.
Qed.

Lemma told_ext h h' e : ext h h' -> told h e -> told h' e.
Proof.
  intros X [I S]. split; [by eapply elem_ext|]. intros Hd.
  eapply inSection_ext; [exact X|]. apply S. by eapply held_ext_back.
Qed.

(** * Specifications *)

Section logic.
Context (W : World) (root : bool) (counts : gmap string Z).

Definition okay (s : Server) : Prop :=
  lawful W root counts (sv_trace s) /\ sv_evictionClean s = countsAfter counts (sv_trace s).

(** From a good history [h], [m] leaves a good history that extends it along
    [R], and a value it returns satisfies [Q] with that history. *)
Definition along {A} (R : relation (list event)) (h : list event) (m : M Server A)
    (Q : A -> list event -> Prop) : Prop :=
  forall s, sv_trace s = h -> okay s ->
    okay (final m s) /\ R h (sv_trace (final m s)) /\
    forall x, result m s = inr x -> Q x (sv_trace (final m s)).

(** Inside a critical section, or outside any. *)
#[local] Abbreviation spec := (along ext).
#[local] Abbreviation whole := (along prefix).

Section rules.
Context (R : relation (list event)) `{!PreOrder R}.

Lemma along_ret {A} h (x : A) (Q : A -> list event -> Prop) : Q x h -> along R h (ret x) Q.
Proof. intros q s E O. cbn. split; [done|]. rewrite E. split; [done|]. by intros y [= <-]. Qed.

Lemma along_throw {A} h e (Q : A -> list event -> Prop) : along R h (throw e) Q.
Proof. intros s E O. cbn. split; [done|]. rewrite E. split; [done|]. by intros y [=]. Qed.

Lemma along_bind {A B} h (m : M Server A) (k : A -> M Server B) Q Q' :
  along R h m Q -> (forall x h', R h h' -> Q x h' -> along R h' (k x) Q') ->
  along R h (m ≫= k) Q'.
Proof.
  intros Hm Hk s E O. destruct (Hm s E O) as (O1 & X1 & V1).
  unfold final, result, mbind, M_bind, bind in *. destruct (m s) as [[e|x] s1]; cbn in *.
  - split; [done|]. split; [done|by intros ? [=]].
  - destruct (Hk x _ X1 (V1 x eq_refl) s1 eq_refl O1) as (O2 & X2 & V2).
    split; [done|]. split; [by etrans|done].
Qed.

Lemma along_weaken {A} h (m : M Server A) (Q Q' : A -> list event -> Prop) :
  along R h m Q -> (forall x h', R h h' -> Q x h' -> Q' x h') -> along R h m Q'.
Proof. intros H Hw s E O. destruct (H s E O) as (O1 & X1 & V). eauto 6. Qed.

(** The same, for a computation whose answer tells nothing. *)
Lemma along_then {A B} h (m : M Server A) (k : A -> M Server B) Q' :
  along R h m (fun _ _ => True) -> (forall x h', R h h' -> along R h' (k x) Q') ->
  along R h (m ≫= k) Q'.
Proof. intros Hm Hk. eapply along_bind; [exact Hm|]. auto. Qed.

Lemma along_try {A} h (m : M Server A) Q :
  along R h m Q -> along R h (try m) (fun r h' => forall x, r = inr x -> Q x h').
Proof.
  intros H s E O. specialize (H s E O). unfold final, result, try in *.
  destruct (m s) as [r s1]. cbn in *. destruct H as (O1 & X1 & V). split; [done|].
  split; [done|]. by intros r' [= <-].
Qed.

Lemma along_check {A} h e (k : unit -> M Server A) Q :
  (e = None -> along R h (k tt) Q) -> along R h (check e ≫= k) Q.
Proof. destruct e; intros H; [apply along_throw|by apply H]. Qed.

Lemma along_fail_if {A} h b e (k : unit -> M Server A) Q :
  (b = false -> along R h (k tt) Q) -> along R h (fail_if b e ≫= k) Q.
Proof. destruct b; intros H; [apply along_throw|by apply H]. Qed.

(** A computation that leaves the history and the counts alone. *)
Definition quiet {A} (m : M Server A) : Prop := forall s,
  sv_trace (final m s) = sv_trace s /\ sv_evictionClean (final m s) = sv_evictionClean s.

Lemma along_quiet {A B} h (m : M Server A) (k : A -> M Server B) Q :
  quiet m -> (forall x, along R h (k x) Q) -> along R h (m ≫= k) Q.
Proof.
  intros q Hk s E O. destruct (q s) as [Et Ec].
  unfold final, result, mbind, M_bind, bind in *. destruct (m s) as [[e|x] s1]; cbn in *.
  - unfold okay. rewrite Et, Ec. split; [done|]. rewrite E. split; [done|by intros ? [=]].
  - apply Hk; [congruence|]. unfold okay in *. by rewrite Et, Ec.
Qed.

Lemma along_done {A} h (m : M Server A) : quiet m -> along R h m (fun _ _ => True).
Proof.
  intros q s E O. destruct (q s) as [Et Ec]. unfold okay in *. rewrite Et, Ec, E in *.
  split; [done|]. by split.
Qed.

End rules.

Lemma spec_whole {A} h (m : M Server A) Q : spec h m Q -> whole h m Q.
Proof.
  intros H s E O. destruct (H s E O) as (O1 & (new & X & _) & V). split; [done|].
  split; [by exists new|done].
Qed.

(** * Events *)

Lemma lawful_snoc h e :
  lawful W root counts h -> justified W root counts h e -> lawful W root counts (h ++ [e]).
Proof.
  intros L J before e' after E.
  destruct after as [|x after _] using rev_ind.
  - apply app_inj_tail in E as [-> ->]. done.
  - rewrite app_comm_cons, app_assoc in E. apply app_inj_tail in E as [-> _].
    by eapply L.
Qed.

Lemma countsAfter_snoc h e :
  (forall a err, e <> Assessed a err) -> countsAfter counts (h ++ [e]) = countsAfter counts h.
Proof.
  intros N. unfold countsAfter, assessmentsOf. rewrite omap_app.
  destruct e; cbn; try by rewrite app_nil_r. by destruct (N assessment err).
Qed.

Lemma spec_happened h e :
  neverLocks e -> (forall a err, e <> Assessed a err) -> justified W root counts h e ->
  spec h (happened e) (fun _ h' => h' = h ++ [e]).
Proof.
  intros N NA J s E [L C]. cbn. rewrite E in *. split; [split|split; [|done]]; cbn.
  - by apply lawful_snoc.
  - by rewrite countsAfter_snoc.
  - exists [e]. split; [done|]. by apply Forall_singleton.
Qed.

End logic.

(** Apply a rule of the logic. *)
Ltac rule L := eapply L; [apply _|..].

(** * The operations the handlers share *)

(** Closure of the quiet computations. *)
Section quiet.

Lemma quiet_ret {A} (x : A) : quiet (ret x).
Proof. done. Qed.
Lemma quiet_throw {A} e : quiet (throw (A := A) e).
Proof. done. Qed.
Lemma quiet_get : quiet get.
Proof. done. Qed.
Lemma quiet_gets {A} (f : Server -> A) : quiet (gets f).
Proof. done. Qed.
Lemma quiet_question : quiet question.
Proof. done. Qed.
Lemma quiet_asking {A} (f : nat -> A) : quiet (asking f).
Proof. done. Qed.
Lemma quiet_lift {A} (m : M Store A) : quiet (lift m).
Proof. intros s. unfold lift, final. by destruct (m (sv_Store s)). Qed.
Lemma quiet_interfere `{JSON} W : quiet (interfere W).
Proof. done. Qed.

Lemma quiet_modify (f : Server -> Server) :
  (forall s, sv_trace (f s) = sv_trace s /\ sv_evictionClean (f s) = sv_evictionClean s) ->
  quiet (modify f).
Proof. done. Qed.

Lemma quiet_bind {A B} (m : M Server A) (k : A -> M Server B) :
  quiet m -> (forall x, quiet (k x)) -> quiet (m ≫= k).
Proof.
  intros Hm Hk s. destruct (Hm s) as [E1 E2]. unfold final, mbind, M_bind, bind in *.
  destruct (m s) as [[e|x] s1]; cbn in *; [done|].
  destruct (Hk x s1) as [E3 E4]. unfold final in *. split; congruence.
Qed.

Lemma quiet_try {A} (m : M Server A) : quiet m -> quiet (try m).
Proof. intros Hm s. specialize (Hm s). unfold final, try in *. by destruct (m s). Qed.

Lemma quiet_onStore `{JSON} W {A} (m : M Store A) : quiet (onStore W m).
Proof. apply quiet_bind; [apply quiet_interfere|]. intros _. apply quiet_lift. Qed.

End quiet.
Create HintDb quiet.
#[export] Hint Resolve quiet_ret quiet_throw quiet_get quiet_gets quiet_question quiet_asking
  quiet_lift quiet_interfere quiet_onStore quiet_try quiet_bind : quiet.
#[export] Hint Extern 3 (quiet (modify _)) => by apply quiet_modify : quiet.

Section shared.
Context `{JSON} (W : World) (root : bool) (counts : gmap string Z).

#[local] Abbreviation spec := (along W root counts ext).
#[local] Abbreviation whole := (along W root counts prefix).

Lemma spec_perform {A} h m (c : M Store A) :
  mayCall W root counts h m ->
  spec h (perform W m c) (fun _ h' => told h' (Called m None) /\ exists err, h' = h ++ [Called m err]).
Proof.
  intros J. assert (forall err, neverLocks (Called m err)) as N by done.
  unfold perform. rule along_quiet; [auto with quiet|]. intros [e|x].
  - rule along_bind; [by apply spec_happened|]. intros. rule along_throw.
  - rule along_bind; [by apply spec_happened|]. intros _ h' _ ->. rule along_ret.
    split; [by apply told_new|by eexists].
Qed.

Lemma spec_Now h : spec h (Now W) (fun now h' => told h' (Clock now) /\ h' = h ++ [Clock now]).
Proof.
  unfold Now. rule along_quiet; [auto with quiet|]. intros now.
  rule along_bind; [by apply spec_happened|]. intros _ h' _ ->. rule along_ret.
  split; [by apply told_new|done].
Qed.

Lemma spec_ignoring {A} h (m : M Server A) Q :
  spec h m Q -> spec h (ignoring m) (fun _ _ => True).
Proof.
  intros S. unfold ignoring. rule along_bind; [by rule along_try|].
  intros. by rule along_ret.
Qed.

Lemma spec_tell h e (x : unit) :
  neverLocks e -> (forall a err, e <> Assessed a err) -> justified W root counts h e ->
  spec h (happened e) (fun _ h' => told h' e).
Proof.
  intros N NA J. rule along_weaken; [by apply spec_happened|]. intros ? ? _ ->.
  by apply told_new.
Qed.

Lemma spec_snapshot h :
  spec h (EnforcementSnapshot_ W) (fun state h' => told h' (Snapshotted state)).
Proof.
  unfold EnforcementSnapshot_. rule along_quiet; [auto with quiet|]. intros state.
  rule along_bind; [by apply spec_tell|]. intros. by rule along_ret.
Qed.

Lemma spec_requireRootKey h key :
  spec h (requireRootKey_ W key) (fun _ h' => told h' (RootKeyAccepted key)).
Proof.
  unfold requireRootKey_. rule along_quiet; [auto with quiet|]. intros [].
  - by apply spec_tell.
  - rule along_throw.
Qed.

Lemma spec_validateToken h secret now :
  spec h (validateToken W secret now) (fun t h' => told h' (TokenAccepted secret now t.1 t.2)).
Proof.
  unfold validateToken. destruct (_ =s _); [rule along_throw|].
  rule along_quiet; [auto with quiet|]. intros [[token hash] [e|]]; [rule along_throw|].
  rule along_bind; [by apply spec_tell|]. intros. by rule along_ret.
Qed.

Lemma spec_managed h id now :
  spec h (ManagedTokenByID_ W id now) (fun t h' => told h' (ManagedAccepted id now t)).
Proof.
  unfold ManagedTokenByID_. rule along_quiet; [auto with quiet|]. intros token.
  rule along_bind; [by apply spec_tell|]. intros. by rule along_ret.
Qed.

Lemma spec_AppendAudit h e : spec h (AppendAudit_ W e) (fun _ _ => True).
Proof. by eapply spec_ignoring, spec_perform. Qed.

(** A critical section opens one in the history and closes it. *)
Lemma whole_holding {A} h (m : M Server A) Q :
  spec (h ++ [Locked]) m Q ->
  whole h (holding m) (fun x h' => exists h1, Q x h1 /\ h' = h1 ++ [Unlocked]).
Proof.
  intros S s E [L C]. pose (s0 := set_trace (sv_trace s ++ [Locked]) (set_locked true s)).
  assert (holding m s = let '(r, s1) := m s0 in
            (r, set_trace (sv_trace s1 ++ [Unlocked]) (set_locked false s1))) as Hh.
  { change (holding m s) with ((r ← try m; modify (set_locked false) ;; happened Unlocked ;;
      match r with inl e => throw e | inr x => ret x end) s0).
    unfold mbind, M_bind, bind, try. by destruct (m s0) as [[e|x] s1]. }
  assert (okay W root counts s0) as O0.
  { split; [by apply lawful_snoc|].
    change (sv_evictionClean s = countsAfter counts (sv_trace s ++ [Locked])).
    by rewrite countsAfter_snoc. }
  destruct (S s0) as ([L1 C1] & (new & X & _) & V); [by subst h|done|].
  unfold final, result in *. rewrite Hh. destruct (m s0) as [r s1]. cbn [fst snd] in *.
  split; [|split].
  - split; [by apply lawful_snoc|]. cbn [set_trace set_locked sv_trace sv_evictionClean].
    by rewrite countsAfter_snoc.
  - exists ([Locked] ++ new ++ [Unlocked]). cbn [set_trace sv_trace]. by rewrite X, <- !app_assoc.
  - intros x ->. eexists. by split; [apply V|].
Qed.

End shared.

(** * Walking through a handler *)

Lemma elem_prefix e (h h' : list event) : h `prefix_of` h' -> e ∈ h -> e ∈ h'.
Proof. intros [new ->] I. apply elem_of_app. by left. Qed.

(** The facts about a history hold of its extension. *)
Ltac carry X :=
  lazymatch type of X with
  | ?h `prefix_of` ?h' =>
      repeat match goal with
      | I : ?e ∈ h |- _ => apply (elem_prefix e h h' X) in I
      end
  | ext ?h ?h' =>
      repeat match goal with
      | I : ?e ∈ h |- _ => apply (elem_ext e h h' X) in I
      | I : inSection ?e h |- _ => apply (inSection_ext e h h' X) in I
      | I : held h |- _ => apply (held_ext h h' X) in I
      end
  end.

(** What a computation told is in the critical section, when there is one. *)
Ltac learn :=
  repeat match goal with
  | T : told ?h ?e |- _ =>
      let I := fresh "I" in let S := fresh "S" in destruct T as [I S]
  | Hd : held ?h, S : held ?h -> _ |- _ => specialize (S Hd)
  | C : _ /\ _ |- _ => destruct C
  end.

Lemma spec_try_any {A} W root counts h (m : M Server A) :
  along W root counts ext h m (fun _ _ => True) ->
  along W root counts ext h (try m) (fun _ _ => True).
Proof. intros S. rule along_weaken; [rule along_try; exact S|done]. Qed.

Lemma spec_any {A} W root counts h (m : M Server A) Q :
  along W root counts ext h m Q -> along W root counts ext h m (fun _ _ => True).
Proof. intros S. rule along_weaken; [exact S|done]. Qed.

Create HintDb spec.
#[export] Hint Resolve spec_try_any | 3 : spec.
#[export] Hint Resolve spec_Now spec_snapshot spec_requireRootKey spec_validateToken spec_managed
  spec_AppendAudit : spec.

Ltac sps := repeat sp
with sp :=
  lazymatch goal with
  | |- along _ _ _ _ _ (ret _) _ => rule along_ret
  | |- along _ _ _ _ _ (throw _) _ => rule along_throw
  | |- along _ _ _ _ _ (mbind _ (check _)) _ => rule along_check; intros ?
  | |- along _ _ _ _ _ (mbind _ (fail_if _ _)) _ => rule along_fail_if; intros ?
  | |- along _ _ _ _ _ (mbind _ _) _ =>
      first [ rule along_quiet; [solve [auto with quiet]|intros ?]
            | rule along_bind; [solve [eauto with spec]|
                let X := fresh "X" in let T := fresh "T" in intros ? ? X T; cbn beta in T;
                carry X; learn]
            | rule along_bind; [solve [eapply spec_whole; eauto with spec]|
                let X := fresh "X" in let T := fresh "T" in intros ? ? X T; cbn beta in T;
                carry X; learn]
            | rule along_then; [solve [sps|eapply spec_try_any, spec_any; solve [eauto with spec]]|let X := fresh "X" in intros ? ? X; carry X] ]
  | |- along _ _ _ _ _ (let _ := _ in _) _ => cbv zeta
  | |- along _ _ _ _ _ (match ?x with _ => _ end) _ => destruct x eqn:?
  | |- along _ _ _ _ _ (happened _) (fun _ _ => True) =>
      first [ by eapply spec_any, spec_happened | by eapply spec_whole, spec_any, spec_happened ]
  | |- along _ _ _ _ _ _ (fun _ _ => True) => solve [eauto with spec|rule along_done; auto with quiet|eapply spec_any; solve [eauto with spec]|eapply spec_whole; solve [eauto with spec]]
  | |- True => exact I
  end.
