(* ===== verification/DaemonLawful.v ===== *)
(** Every request keeps to the law of the daemon's history. *)

From S2P Require Export DaemonLogic.
From S2P Require Import EnforceMatch.

#[local] Set Default Proof Using "Type*".

Section telemetry.
Context `{JSON} (W : World) (root : bool) (counts : gmap string Z).

#[local] Abbreviation spec := (along W root counts ext).

Lemma spec_Append h append e : spec h (Append append e) (fun _ _ => True).
Proof. unfold Append. sps. Qed.
#[local] Hint Resolve spec_Append : spec.

Lemma spec_emitTelemetry h e at_ : spec h (emitTelemetry W e at_) (fun _ _ => True).
Proof. unfold emitTelemetry. sps. Qed.

#[local] Hint Resolve spec_emitTelemetry : spec.

Lemma spec_emitReservation h token rs : spec h (emitReservation W token rs) (fun _ _ => True).
Proof. unfold emitReservation. sps. Qed.

Lemma spec_emitAuthorization h id a : spec h (emitAuthorization W id a) (fun _ _ => True).
Proof. unfold emitAuthorization. sps. Qed.

Lemma spec_emitAuthorizationEnded h id reason at_ :
  spec h (emitAuthorizationEnded W id reason at_) (fun _ _ => True).
Proof. unfold emitAuthorizationEnded. sps. Qed.

Lemma spec_rememberRunJob h token a pid command at_ :
  spec h (rememberRunJob W token a pid command at_) (fun _ _ => True).
Proof. unfold rememberRunJob. sps. Qed.

Lemma spec_updateRunJobRootExit h id code at_ :
  spec h (updateRunJobRootExit W id code at_) (fun _ _ => True).
Proof. unfold updateRunJobRootExit. sps. Qed.

Lemma spec_finishRunJob h id reason at_ : spec h (finishRunJob W id reason at_) (fun _ _ => True).
Proof. unfold finishRunJob. sps. Qed.

Lemma spec_observeDecisions tokens authorizations state now decisions : forall h seen,
  spec h (observeDecisions W tokens authorizations state now seen decisions) (fun _ _ => True).
Proof.
  induction decisions as [|d decisions IH]; intros h seen; cbn [observeDecisions]; [sps|].
  unfold putJob. sps; try apply IH.
Qed.

Lemma spec_missJobs seen keys : forall h, spec h (missJobs W seen keys) (fun _ _ => True).
Proof.
  induction keys as [|key keys IH]; intros h; cbn [missJobs]; [sps|].
  unfold putJob. sps; apply IH.
Qed.

Lemma spec_trackObserved h state decisions now :
  spec h (trackObservedTelemetryJobs W state decisions now) (fun _ _ => True).
Proof.
  unfold trackObservedTelemetryJobs. sp; [|sps].
  rule along_then; [apply spec_observeDecisions|]. intros seen h' _. sps. apply spec_missJobs.
Qed.

End telemetry.
#[export] Hint Resolve spec_emitTelemetry spec_emitReservation spec_emitAuthorization
  spec_emitAuthorizationEnded spec_rememberRunJob spec_updateRunJobRootExit spec_finishRunJob
  spec_trackObserved : spec.

(** * Authorizations *)

Section auth.
Context `{JSON} `{ArgsJSON} (W : World) (root : bool) (counts : gmap string Z).

#[local] Abbreviation spec := (along W root counts ext).
#[local] Abbreviation whole := (along W root counts prefix).

Lemma entitled_ext h h' token hash now :
  ext h h' -> entitled h token hash now -> entitled h' token hash now.
Proof.
  intros X E M. destruct (E M) as (state & r & I & Q). exists state, r.
  split; [by eapply inSection_ext|done].
Qed.

Lemma spec_ensureTokenCanAuthorize h hash token now :
  spec h (ensureTokenCanAuthorize W hash token now)
    (fun _ h' => held h' -> entitled h' token hash now).
Proof.
  unfold ensureTokenCanAuthorize. sp.
  - sp. intros _ M. apply negb_true_iff, String.eqb_neq in Heqb. done.
  - sp. sp; [|by sp]. sp. intros Hd _. learn. exists x.
    unfold ensureActive in Heqb0. apply existsb_exists in Heqb0 as (r & I' & Q).
    apply andb_true_iff in Q as [E%String.eqb_eq A]. exists r.
    split; [done|]. split; [by apply list_elem_of_In|done].
Qed.

(** What a request may ask for. *)
Definition askable (a : Authorization) : Prop :=
  Authorization_Active a = true /\ Authorization_Revoked a = false /\
  (root = false -> Authorization_ContainerPattern a = "" /\
     hasWildcard (Authorization_Namespace a) = false /\
     hasWildcard (Authorization_Username a) = false).

(** The authorization is in the store, and is the one asked for, bound. *)
Definition added (h : list event) (asked a : Authorization) : Prop :=
  (exists clock, Called (MAddAuthorization a clock) None ∈ h) /\
  exists token hash mode expiresAt, a = boundTo token hash mode expiresAt asked /\
    hash = Authorization_TokenHash asked.

Lemma added_ext h h' asked a : h `prefix_of` h' -> added h asked a -> added h' asked a.
Proof.
  intros [new ->] [[clock I] B]. split; [|done]. exists clock. apply elem_of_app. by left.
Qed.

Lemma spec_AddAuthorization h a :
  (forall h', ext h h' -> authorized root h' a) ->
  spec h (AddAuthorization_ W a) (fun _ h' => exists clock, Called (MAddAuthorization a clock) None ∈ h').
Proof.
  intros A. unfold AddAuthorization_. sp.
  rule along_weaken; [apply spec_perform; cbn; by apply A|].
  intros ? ? _ [[I2 _] _]. by eexists.
Qed.

Lemma spec_addAuthorizationLocked h secret asked :
  held h -> askable asked ->
  spec h (addAuthorizationLocked W secret asked) (fun a h' => added h' asked a).
Proof.
  intros Hd (Ac & Rv & Wc). unfold addAuthorizationLocked. sp. sp. sp. sp.
  rule along_bind; [apply spec_ensureTokenCanAuthorize|]. intros [] h2 X2 En. carry X2.
  specialize (En ltac:(done)).
  match goal with E : (_ <>s _) = false |- _ => apply negb_false_iff, String.eqb_eq in E end.
  cbn [fst snd] in *.
  rule along_bind; [apply spec_AddAuthorization|].
  - intros h3 X3. pose proof (entitled_ext _ _ _ _ _ X3 En) as En3. carry X3.
    split; [done|]. split; [done|]. split; [done|]. left. cbn. eauto 12.
  - intros [] h3 X3 [clock C]. sp. sp. split; [by exists clock|]. cbn. eauto 6.
Qed.

Lemma whole_addAuthorization h secret asked :
  askable asked ->
  whole h (addAuthorization W secret asked) (fun a h' => added h' asked a).
Proof.
  intros A. rule along_weaken.
  { apply whole_holding, spec_addAuthorizationLocked; [apply held_locked|done]. }
  intros a h' _ (h1 & D & ->). eapply added_ext, D. by exists [Unlocked].
Qed.

Lemma whole_persistAuthorization h secret token asked :
  askable asked ->
  whole h (persistAuthorization W secret token asked) (fun _ _ => True).
Proof.
  intros A. unfold persistAuthorization. sp.
  { rule along_weaken; [by apply whole_addAuthorization|done]. }
  rule along_weaken; [apply whole_holding with (Q := fun _ _ => True)|done].
  pose proof (held_locked h) as Hd. destruct A as (Ac & Rv & Wc). sp. sp. sp.
  rule along_bind; [apply spec_AddAuthorization|].
  - intros h2 X2. carry X2. split; [done|]. split; [done|]. split; [done|]. right. cbn. eauto 9.
  - intros [] h2 X2 _. sps.
Qed.

Lemma askable_new id mode token hash uid gid username containerID pattern namespace now :
  (root = false -> pattern = "" /\ hasWildcard namespace = false /\ hasWildcard username = false) ->
  askable (newAuthorization id mode token hash uid gid username containerID pattern namespace now).
Proof. done. Qed.

(** A wildcard in a request that is not root's is refused. *)
Lemma wildcard_refused value p :
  root = (peer_UID p =? 0) ->
  hasWildcard value && negb (peer_UID p =? 0) = false -> root = false -> hasWildcard value = false.
Proof. intros -> E N. rewrite N in E. by destruct (hasWildcard value). Qed.

(** The end of each of the three requests. *)
Lemma whole_persisting {A} h secret token asked (k : Authorization -> A) :
  askable asked ->
  whole h (a ← persistAuthorization W secret token asked; ret (k a)) (fun _ _ => True).
Proof.
  intros A'. rule along_then; [by apply whole_persistAuthorization|]. intros. by rule along_ret.
Qed.

Lemma whole_ensureTokenCanAuthorize h hash token now :
  whole h (ensureTokenCanAuthorize W hash token now) (fun _ _ => True).
Proof. eapply spec_whole, spec_any, spec_ensureTokenCanAuthorize. Qed.
#[local] Hint Resolve whole_ensureTokenCanAuthorize : spec.

(** A wildcard in a request that is not root's is refused. *)
Ltac refused Rt Wc :=
  match goal with
  | E : hasWildcard ?v && negb (peer_UID ?p =? 0) = false |- _ =>
      pose proof (wildcard_refused v p Rt E) as Wc
  end.

Lemma whole_createDocker h secret token hash p args :
  root = (peer_UID p =? 0) ->
  whole h (createDockerAuthorization W secret token hash p args) (fun _ _ => True).
Proof.
  intros Rt. unfold createDockerAuthorization, acquireDockerResolve. sp. sp. sp. sp. sp.
  refused Rt Wc.
  destruct (hasWildcard _) eqn:Hw.
  - sp. sp. sp. sp. apply whole_persisting, askable_new. intros N. by specialize (Wc N).
  - eapply along_bind with (Q := fun ids _ => snd ids = ""); [apply _| |].
    { rule along_then; [rule along_then; [sps|intros; sps]|]. intros. sps. done. }
    intros [containerID pattern] ? ? E. cbn in E. subst pattern. sp. sp.
    by apply whole_persisting, askable_new.
Qed.

Lemma whole_createK8s h secret token hash p args :
  root = (peer_UID p =? 0) ->
  whole h (createK8sAuthorization W secret token hash p args) (fun _ _ => True).
Proof.
  intros Rt. unfold createK8sAuthorization. sp. sp. sp. sp. sp. refused Rt Wc. sp.
  rule along_then; [sps|]. intros [] ? ?. sp. sp. apply whole_persisting, askable_new.
  intros N. split; [done|]. split; [|done]. apply not_true_iff_false. intros C.
  apply Contains_TrimSpace in C. unfold hasWildcard in Wc. by rewrite Wc in C.
Qed.

Lemma whole_createUser h secret token hash p args :
  root = (peer_UID p =? 0) ->
  whole h (createUserAuthorization W secret token hash p args) (fun _ _ => True).
Proof.
  intros Rt. unfold createUserAuthorization. sp. sp. sp. sp. sp. refused Rt Wc.
  rule along_then; [unfold lookupUID; sps|]. intros uid ? ?. sp. sp.
  apply whole_persisting, askable_new. auto.
Qed.

(** Inside the critical section that a handler opens. *)
Lemma whole_section {A} h (m : M Server A) :
  (held (h ++ [Locked]) -> spec (h ++ [Locked]) m (fun _ _ => True)) ->
  whole h (holding m) (fun _ _ => True).
Proof.
  intros S. rule along_weaken; [eapply whole_holding, S, held_locked|done].
Qed.

Lemma spec_performed {A} h m (c : M Store A) :
  mayCall W root counts h m -> spec h (perform W m c) (fun _ _ => True).
Proof. intros. by eapply spec_any, spec_perform. Qed.

Lemma whole_addBypass h key args now :
  RootKeyAccepted key ∈ h -> whole h (addBypass W args now) (fun _ _ => True).
Proof.
  intros K. apply whole_section. intros Hd. unfold addBypassLocked. sp. sp. sp. sp. sp. sp.
  assert (RootKeyAccepted key ∈ h ++ [Locked]) as K' by (apply elem_of_app; by left).
  eapply along_bind with (Q := fun rule h' => bypassable W h' rule); [apply _| |].
  - destruct (_ =s BypassPID) eqn:T; [|destruct (_ =s BypassCommand) eqn:T'; [|rule along_throw]].
    + apply String.eqb_eq in T. sp. destruct (x_Proc W); [|rule along_throw]. sp.
      match goal with |- context [match ?r with _ => _ end] => destruct r as [|info] end;
        [rule along_throw|]. sp.
      match goal with E : _ || _ = false |- _ =>
        apply orb_false_iff in E as [E1%negb_false_iff%Z.eqb_eq E2%Z.eqb_neq] end.
      rule along_bind; [by apply spec_tell|]. intros [] h1 X1 To. carry X1. learn. sp.
      match goal with E : (x_bootID W =s "") = false |- _ => apply String.eqb_neq in E end.
      rule along_ret. left. eauto 8.
    + apply String.eqb_eq in T'. sp. sp. rule along_ret. right. split; [done|].
      cbn. repeat match goal with
        | E : _ || _ = false |- _ => apply orb_false_iff in E as [_ ?%negb_false_iff]
        | E : negb (_ =? 0) = false |- _ => apply negb_false_iff, Z.eqb_eq in E
        end. done.
  - intros rule h1 X1 B. carry X1. rule along_then; [apply spec_performed; split; [by exists key|done]|intros; sps].
Qed.

Lemma whole_revoke h key id :
  RootKeyAccepted key ∈ h -> whole h (revoke W id) (fun _ _ => True).
Proof.
  intros K. apply whole_section. intros Hd. sp. apply spec_performed. split; [done|].
  exists key. subst. rewrite !elem_of_app. auto.
Qed.

Lemma whole_releaseAuthorization h a clock id :
  Called (MAddAuthorization a clock) None ∈ h -> Authorization_ID a = id ->
  whole h (releaseAuthorization W id) (fun _ _ => True).
Proof.
  intros C E. apply whole_section. intros Hd.
  rule along_then; [apply spec_performed|intros; sps].
  split; [done|]. left. exists a, clock. split; [|done]. apply elem_of_app. by left.
Qed.

(** * Reservations *)

Lemma free_ext h h' state gpus :
  ext h h' -> Forall (fun gpu => inSection (FoundFree state gpu) h) gpus ->
  Forall (fun gpu => inSection (FoundFree state gpu) h') gpus.
Proof. intros X F. eapply Forall_impl; [exact F|]. intros gpu I. by eapply inSection_ext. Qed.

Lemma spec_ensureIdle state processes gpus h :
  held h ->
  spec h (ensureIdle W state processes gpus)
    (fun _ h' => Forall (fun gpu => inSection (FoundFree state gpu) h') gpus).
Proof.
  revert h. induction gpus as [|gpu gpus IH]; intros h Hd; cbn [ensureIdle]; [by rule along_ret|].
  sp. destruct (BusyProcessesForGPU _ _ _ _ _) as [[err|n] pass]; [rule along_throw|]. sp.
  rule along_bind; [by apply spec_tell|]. intros [] h1 X1 To. carry X1. learn.
  rule along_weaken; [by apply IH|]. intros [] h2 X2 F. carry X2. by constructor.
Qed.

(** A search through rows that finds none. *)
Lemma check_find {A} (f : A -> bool) (e : A -> error) (rows : list A) :
  e <$> find f rows = None -> forall x, x ∈ rows -> f x = false.
Proof.
  destruct (find f rows) eqn:F; [done|]. intros _ x I. by eapply find_none, list_elem_of_In.
Qed.

Lemma spec_ensureGPUsCanReserveWindow h gpus startsAt expiresAt :
  held h ->
  spec h (ensureGPUsCanReserveWindow W gpus startsAt expiresAt)
    (fun _ h' => reservable h' gpus startsAt expiresAt).
Proof.
  intros Hd. unfold ensureGPUsCanReserveWindow. sp. cbv zeta.
  eapply along_bind with (Q := fun start h' => start = startsAt \/
    IsZero startsAt = true /\ inSection (Clock start) h'); [apply _| |].
  { destruct (IsZero (UTC startsAt)) eqn:Z; [|rule along_ret; by left].
    sp. rule along_ret. right. by split. }
  intros start h1 X1 St. carry X1. sp. sp. sp. sp. sp. sp.
  match goal with E : _ <$> find (overlapping _ _ _) _ = None |- _ =>
    pose proof (check_find _ _ _ E) as NoR end.
  match goal with E : _ <$> find (leasedNow _ _ _) _ = None |- _ =>
    pose proof (check_find _ _ _ E) as NoL end.
  match goal with E : negb (After _ ?now) = false, _ : Clock ?now ∈ _ |- _ =>
    apply negb_false_iff in E; rename E into Future end.
  assert (start = startsAt \/ IsZero startsAt = true /\ inSection (Clock start) h'0) as St'.
  { destruct St as [|[Z St]]; [by left|right]. carry X. carry X0. done. }
  sp.
  - rule along_ret. exists start, x, x0. split_and!; try done. left.
    apply orb_true_iff in Heqb as [|E]; [done|]. change (Before x (UTC expiresAt)) with
      (After (UTC expiresAt) x) in E. by rewrite Future in E.
  - sp. sp; [rule along_throw|]. rule along_weaken; [by apply spec_ensureIdle|].
    intros [] h2 X2 F. exists start, x, x0. carry X2. split_and!; try done; [|by right].
    destruct St' as [|[Z S']]; [by left|right]. by carry X2.
Qed.

(** * register *)

Lemma spec_reserve h args startsAt expiresAt now :
  RootKeyAccepted (RegisterArgs_RootKey args) ∈ h ->
  reservable h (RegisterArgs_GPUs args) startsAt expiresAt ->
  spec h (reserve W args startsAt expiresAt now) (fun _ _ => True).
Proof.
  intros K R. unfold reserve. destruct (_ <>s "").
  - rule along_then; [by apply spec_performed|]. intros [[token group] rs] h1 X1. by rule along_ret.
  - sp. sp. rule along_then; [by apply spec_performed|].
    intros [[secret token] rs] h1 X1. by rule along_ret.
Qed.

Lemma whole_registerReserved h args now :
  RootKeyAccepted (RegisterArgs_RootKey args) ∈ h ->
  whole h (registerReserved W args now) (fun _ _ => True).
Proof.
  intros K. unfold registerReserved. sp. cbv zeta.
  destruct (reservationEnd args _) as [err|expiresAt]; cbn [decoded]; [rule along_throw|].
  rule along_quiet; [auto with quiet|]. intros at_. sp.
  apply whole_section. intros Hd.
  rule along_bind; [by apply spec_ensureGPUsCanReserveWindow|]. intros [] h1 X1 R.
  assert (RootKeyAccepted (RegisterArgs_RootKey args) ∈ h1) as K'.
  { carry X1. eapply elem_ext; [exact X1|]. apply elem_of_app. by left. }
  rule along_then; [by apply spec_reserve|]. intros [[[secret token] group] rs] h2 X2. sps.
Qed.

Lemma whole_register h args now : whole h (register W args now) (fun _ _ => True).
Proof.
  unfold register. cbv zeta. sp. sp. sp. sp. sp. sp; [by apply whole_registerReserved|]. sp.
  - unfold registerClaimed. sp. sp. rule along_then; [by apply spec_whole, spec_performed|].
    intros [secret token] h1 X1. by rule along_ret.
  - rule along_throw.
Qed.

(** * The dispatcher *)

Lemma quiet_decoded {A} (r : error + A) : quiet (decoded r).
Proof. by destruct r. Qed.
#[local] Hint Resolve quiet_decoded : quiet.

Lemma quiet_check e : quiet (check e).
Proof. by destruct e. Qed.
#[local] Hint Resolve quiet_check : quiet.

Lemma whole_ps h now hash all : whole h (ps W now hash all) (fun _ _ => True).
Proof.
  unfold ps, processesForRead. sp. sp. rule along_then; [destruct all; sps|]. intros state h1 X1.
  rule along_then; [sps|]. intros [rows err] h2 X2. sp.
  destruct (Enforce _ _ _ _ _ _) as [[e|n] pass]; sps.
Qed.

Lemma whole_readScopeTokenHash h secret p now :
  whole h (readScopeTokenHash W secret p now) (fun _ _ => True).
Proof. unfold readScopeTokenHash. sps. Qed.
#[local] Hint Resolve whole_ps whole_readScopeTokenHash whole_register : spec.

Lemma whole_dispatch h p req :
  root = (peer_UID p =? 0) -> whole h (dispatch W p req) (fun _ _ => True).
Proof.
  intros Rt. unfold dispatch. sp. cbv zeta.
  repeat match goal with |- along _ _ _ _ _ (if _ =s _ then _ else _) _ => case_match end.
  - sps.
  - sp. sp. rule along_then; [by apply whole_createDocker|intros; sps].
  - sp. sp. rule along_then; [by apply whole_createK8s|intros; sps].
  - sp. sp. rule along_then; [by apply whole_createUser|intros; sps].
  - sps.
  - sps.
  - sps.
  - sps.
  - sps.
  - sp. sp. rule along_then; [by eapply whole_addBypass|intros; sps].
  - sp. sp. rule along_then; [by eapply whole_revoke|intros; sps].
  - sps.
Qed.

End auth.
