(* ===== verification/DaemonServeLawful.v ===== *)
(** Every request, over the socket and over HTTP, keeps to the law of the
    daemon's history. *)

From S2P Require Export DaemonLawful.

(** Running a command keeps to the law of the daemon's history. *)

#[local] Set Default Proof Using "Type*".

(** * Cgroups *)

Section cgroups.
Context `{JSON} (W : World) (root : bool) (counts : gmap string Z).

#[local] Abbreviation spec := (along W root counts ext).

Lemma spec_removeCgroup h path :
  cgroupManaged W path \/ CgroupCreated path ∈ h ->
  spec h (removeCgroup W path) (fun _ _ => True).
Proof.
  intros G.
  assert (spec h (happened (CgroupRemoved path)) (fun _ _ => True)).
  { by eapply spec_any, spec_happened. }
  unfold removeCgroup, sys, cgroup2. repeat first [done|sp].
Qed.

Lemma spec_removeOrGone h path :
  cgroupManaged W path \/ CgroupCreated path ∈ h ->
  spec h (removeOrGone W path) (fun _ _ => True).
Proof.
  intros G. unfold removeOrGone.
  rule along_then; [by apply spec_try_any, spec_removeCgroup|]. intros r h1 X1. destruct r; sps.
Qed.

Lemma spec_cgroupEmpty h path :
  spec h (cgroupEmpty W path) (fun e h' => e = true -> told h' (FoundEmpty path)).
Proof.
  assert (spec h (happened (FoundEmpty path) ;; ret true)
            (fun e h' => e = true -> told h' (FoundEmpty path))) as S.
  { rule along_bind; [by apply spec_tell|]. intros. by rule along_ret. }
  unfold cgroupEmpty, ReadFile. sp.
  match goal with |- context [match ?r with _ => _ end] => destruct r end;
    case_match; (exact S || by rule along_ret).
Qed.

(** A managed cgroup that was stopped was found empty. *)
Lemma spec_stopAndRemoveManagedCgroup h path :
  spec h (stopAndRemoveManagedCgroup W path)
    (fun _ h' => cgroupManaged W path /\ told h' (FoundEmpty path)).
Proof.
  unfold stopAndRemoveManagedCgroup, sys.
  destruct (cgroupPathWithinRoot _ _ _) as [e|[]] eqn:M; [rule along_throw| |rule along_throw].
  rule along_bind; [apply spec_cgroupEmpty|]. intros empty h1 X1 E.
  assert (cgroupManaged W path) as G by done.
  destruct (DryRun (x_cfg W)) eqn:Dry.
  - destruct empty; [|rule along_throw]. specialize (E eq_refl).
    rule along_weaken; [apply spec_removeCgroup; by left|].
    intros [] h2 X2 _. split; [done|by eapply told_ext].
  - eapply along_bind with (Q := fun _ h' => told h' (FoundEmpty path)); [apply _| |].
    { destruct empty; [rule along_ret; by apply E|]. sp. sp. sp. sp. sp. sp.
      rule along_then; [destruct x1; [by rule along_ret|by eapply spec_any, spec_happened]|].
      intros [] h2 X2. sp. sp. rule along_bind; [apply spec_cgroupEmpty|].
      intros drained h3 X3 D. destruct drained; [rule along_ret; by apply D|rule along_throw]. }
    intros [] h2 X2 To. rule along_weaken; [apply spec_removeOrGone; by left|].
    intros [] h3 X3 _. split; [done|by eapply told_ext].
Qed.

End cgroups.

Section run.
Context `{JSON} `{ArgsJSON} (W : World) (root : bool) (counts : gmap string Z) (fallback : bool).

#[local] Abbreviation spec := (along W root counts ext).
#[local] Abbreviation whole := (along W root counts prefix).

(** The command of an authorization that is persisted runs in its cgroup. *)
Definition running (h : list event) (a : Authorization) (pid : Z) (path : string) : Prop :=
  (exists clock, Called (MAddAuthorization a clock) None ∈ h) /\
  Authorization_CgroupPath a = path /\ CgroupCreated path ∈ h /\
  exists cmd, Started pid path cmd ∈ h.

Lemma running_prefix h h' a pid path :
  h `prefix_of` h' -> running h a pid path -> running h' a pid path.
Proof.
  intros X ((clock & C) & P & G & cmd & S). carry X. unfold running. eauto 8.
Qed.

Lemma whole_prepareRunCommand h args p fd :
  whole h (prepareRunCommand W args p fd) (fun cmd _ => cmd_Args cmd = RunArgs_Command args).
Proof. unfold prepareRunCommand, sys. sp. sp. sp. sp. by rule along_ret. Qed.

Lemma whole_startCommand h args p cmd a path :
  (exists clock, Called (MAddAuthorization a clock) None ∈ h) -> CgroupCreated path ∈ h ->
  Authorization_Mode a = ModeBare -> Authorization_CgroupPath a = path ->
  Authorization_Command a = RunArgs_Command args -> cmd_Args cmd = RunArgs_Command args ->
  whole h (startCommand W fallback args p cmd path) (fun r h' => running h' a (fst r) path).
Proof.
  intros (clock & C) G Mo Pa Co Ca. unfold startCommand, sys. sp.
  eapply along_bind with (Q := fun cmd _ => cmd_Args cmd = RunArgs_Command args); [apply _| |].
  { destruct x; [|by rule along_ret]. destruct (_ || _); [rule along_throw|].
    rule along_bind; [apply whole_prepareRunCommand|]. intros cmd' h1 X1 E. sp. sp.
    by rule along_ret. }
  intros cmd' h1 X1 E. carry X1. sp.
  rule along_bind; [apply spec_whole, spec_tell; [done|done|done|]|].
  { exists a, clock. split_and!; congruence. }
  intros [] h2 X2 [To _]. carry X2. rule along_ret. unfold running. eauto 10.
Qed.

(** * Stopping it *)

Definition started (h : list event) (pid : Z) : Prop :=
  exists path cmd, Started pid path cmd ∈ h.

Lemma spec_signal h pid at_ signal :
  started h pid -> spec h (happened (Signalled at_ signal)) (fun _ _ => True).
Proof.
  intros (path & cmd & S). eapply spec_any, spec_happened; [done|done|]. by exists pid, path, cmd.
Qed.

Lemma started_ext h h' pid : ext h h' -> started h pid -> started h' pid.
Proof. intros X (path & cmd & S). carry X. by exists path, cmd. Qed.

Lemma spec_killGroup h pid signal :
  started h pid -> spec h (killGroup W pid signal) (fun _ _ => True).
Proof.
  intros S. unfold killGroup, sys. rule along_then; [by eapply spec_signal|]. intros [] h1 X1.
  sp. destruct x as [err|]; [|by rule along_ret]. case_match; [by rule along_ret|].
  rule along_then; [eapply spec_signal, started_ext; done|]. intros. rule along_throw.
Qed.

Lemma spec_waitForGroup h fuel deadline pid :
  spec h (waitForGroup W fuel deadline pid) (fun _ _ => True).
Proof.
  revert h. induction fuel as [|fuel IH]; intros h; cbn [waitForGroup]; [by rule along_ret|].
  unfold processGroupAlive. rule along_then; [sps|]. intros alive h1 X1.
  destruct alive; [|by rule along_ret]. sp. case_match; [apply IH|by rule along_ret].
Qed.

Lemma spec_terminateProcessGroup h pid :
  started h pid -> spec h (terminateProcessGroup W pid) (fun _ _ => True).
Proof.
  intros S. unfold terminateProcessGroup, processGroupAlive. case_match; [by rule along_ret|].
  rule along_then; [by apply spec_killGroup|]. intros [] h1 X1. sp.
  rule along_then; [apply spec_waitForGroup|]. intros [] h2 X2.
  rule along_then; [sps|]. intros alive h3 X3. destruct alive; [|by rule along_ret].
  apply spec_killGroup. eapply started_ext; [|exact S]. by repeat (etrans; [eassumption|]).
Qed.

Lemma whole_terminateStartedCommand h pid :
  started h pid -> whole h (terminateStartedCommand W pid) (fun _ _ => True).
Proof.
  intros S. unfold terminateStartedCommand.
  rule along_then; [by eapply spec_whole, spec_ignoring, spec_terminateProcessGroup|].
  intros. by eapply spec_whole, spec_any, spec_happened.
Qed.

(** * Its authorization *)

(** What a computation answers, whatever the state. *)
Definition always {S A} (m : M S A) (P : A -> Prop) : Prop :=
  forall s x, result m s = inr x -> P x.

Lemma always_bind {S A B} (m : M S A) (k : A -> M S B) P :
  (forall x, always (k x) P) -> always (m ≫= k) P.
Proof.
  intros Hk s y. unfold result, mbind, M_bind, bind. destruct (m s) as [[e|x] s1]; [done|].
  apply (Hk x s1 y).
Qed.

Lemma ActivateAuthorization_id id pid :
  always (ActivateAuthorization id pid) (fun a => Authorization_ID a = id).
Proof.
  unfold ActivateAuthorization. do 3 (apply always_bind; intros ?).
  destruct (findIndex _ _) as [[i a]|] eqn:F; [|done].
  apply findIndex_lookup in F as [_ E%String.eqb_eq].
  do 4 (apply always_bind; intros ?). by intros s y [= <-].
Qed.

Lemma always_perform {A} m (c : M Store A) P : always c P -> always (perform W m c) P.
Proof.
  intros Hc s x. unfold perform, onStore, result, mbind, M_bind, bind, try, lift, interfere. cbn.
  match goal with |- context [c ?st] => specialize (Hc st); unfold result in Hc;
    destruct (c st) as [[e|y] st'] end; [done|].
  cbn. intros [= <-]. by apply Hc.
Qed.

Lemma along_always {A} R h (m : M Server A) P Q :
  always m P -> along W root counts R h m Q ->
  along W root counts R h m (fun x h' => P x /\ Q x h').
Proof.
  intros Al S s E O. destruct (S s E O) as (O' & X & V). split; [done|]. split; [done|].
  intros x V'. split; [by eapply Al|by apply V].
Qed.

Lemma whole_activate h secret a pid path :
  running h a pid path ->
  whole h (activate W secret a pid) (fun a' _ => Authorization_ID a' = Authorization_ID a).
Proof.
  intros ((clock & C) & Pa & G & cmd & S).
  assert (h `prefix_of` h ++ [Locked]) as X0 by (by eexists). carry X0.
  rule along_weaken; [apply whole_holding with (Q := fun a' _ => Authorization_ID a' = Authorization_ID a)|].
  2: { intros a' h' _ (h1 & E & _). done. }
  pose proof (held_locked h) as Hd. sp. sp. sp. sp. cbn [fst snd] in *.
  match goal with E : (_ <>s _) = false |- _ => apply negb_false_iff, String.eqb_eq in E end.
  rule along_bind; [apply spec_ensureTokenCanAuthorize|]. intros [] h3 X3 En. carry X3.
  specialize (En ltac:(done)).
  rule along_weaken; [apply along_always; [apply always_perform, ActivateAuthorization_id|]|].
  - apply spec_performed. exists a, clock, path, cmd. do 3 eexists. subst s. split_and!; done.
  - by intros ? ? _ [E _].
Qed.

(** * The whole of it *)

Lemma whole_try {A} h (m : M Server A) Q :
  whole h m Q -> whole h (try m) (fun _ _ => True).
Proof. intros S. rule along_weaken; [rule along_try; exact S|done]. Qed.

Lemma whole_ignoring {A} h (m : M Server A) Q :
  whole h m Q -> whole h (ignoring m) (fun _ _ => True).
Proof. intros S. unfold ignoring. rule along_then; [by eapply whole_try|]. intros. by rule along_ret. Qed.

Lemma whole_over h path pid :
  whole h (cgroupEmptyOrOnlyExitedRoot W path pid) (fun _ _ => True).
Proof.
  unfold cgroupEmptyOrOnlyExitedRoot, ReadFile, processExists.
  rule along_then; [eapply spec_whole, spec_any, spec_cgroupEmpty|]. intros e h1 X1. sps.
Qed.

Lemma whole_waitCommand h token a a' clock pid path command :
  Called (MAddAuthorization a clock) None ∈ h -> CgroupCreated path ∈ h ->
  Authorization_ID a' = Authorization_ID a ->
  whole h (waitCommand W token a' pid path command) (fun _ _ => True).
Proof.
  intros C G E. unfold waitCommand, sys.
  sp. sp. sp. sp. sp. sp. cbv zeta.
  rule along_then; [apply whole_over|]. intros over h3 Y1. carry Y1.
  destruct over; [|by rule along_ret].
  rule along_then; [by eapply whole_try, whole_releaseAuthorization|]. intros r h4 Y2. carry Y2.
  destruct r; [by rule along_ret|].
  rule along_then; [eapply whole_try, spec_whole, spec_removeOrGone; by right|].
  intros r' h5 Y3. destruct r'; [by rule along_ret|]. sps.
Qed.

Lemma whole_runStarted h secret token a path command pid inCgroup :
  running h a pid path ->
  whole h (runStarted W secret token a path command pid inCgroup) (fun _ _ => True).
Proof.
  intros Ru. pose proof Ru as ((clock & C) & Pa & G & cmd & S). unfold runStarted, sys.
  assert (forall h', h `prefix_of` h' -> started h' pid) as St.
  { intros h' X. carry X. by exists path, cmd. }
  rule along_then; [destruct inCgroup; sps|]. intros moved h1 X1. carry X1. destruct moved as [err|].
  - rule along_then; [by apply whole_terminateStartedCommand, St|]. intros. by rule along_ret.
  - rule along_bind; [rule along_try; eapply whole_activate, running_prefix; done|].
    intros r h2 X2 E. carry X2. destruct r as [err|a']; [|by eapply whole_waitCommand, E].
    rule along_then; [apply whole_terminateStartedCommand, St; by etrans|]. intros [] h3 X3.
    rule along_then; [by eapply whole_try, spec_whole, spec_stopAndRemoveManagedCgroup|].
    intros. by rule along_ret.
Qed.

Lemma whole_runInCgroup h secret token a p args path :
  CgroupCreated path ∈ h -> askable root a -> Authorization_Mode a = ModeBare ->
  Authorization_CgroupPath a = path -> Authorization_Command a = RunArgs_Command args ->
  whole h (runInCgroup W fallback secret token a p args path)
    (fun l h' => authorizationActive l = true ->
       exists a' clock, Called (MAddAuthorization a' clock) None ∈ h' /\
                        Authorization_ID a' = Authorization_ID a).
Proof.
  intros G As Mo Pa Co. unfold runInCgroup, openCgroupFD, sys. cbv zeta.
  rule along_then; [eapply whole_try with (Q := fun _ _ => True); sps|].
  intros [err|fd] h1 X1; [by rule along_ret|]. carry X1. case_match; [by rule along_ret|].
  rule along_bind; [rule along_try; apply whole_prepareRunCommand|].
  intros [err|cmd] h2 X2 Ca; [by rule along_ret|]. carry X2. specialize (Ca _ eq_refl).
  rule along_bind; [rule along_try; by apply whole_addAuthorization|].
  intros [err|a'] h3 X3 Ad; [by rule along_ret|]. carry X3.
  destruct (Ad _ eq_refl) as [[clock C] (token' & hash & mode & expiresAt & -> & _)].
  rule along_bind; [rule along_try; eapply whole_startCommand; [eexists; exact C|done..]|].
  intros [err|[pid inCgroup]] h4 X4 Ru; carry X4; [rule along_ret; eauto|].
  specialize (Ru _ eq_refl). cbn [fst] in Ru.
  rule along_weaken; [by apply whole_runStarted|].
  intros l h5 X5 _ _. carry X5. eauto.
Qed.

Lemma whole_runCommand h secret token hash p args :
  whole h (runCommand W fallback secret token hash p args) (fun _ _ => True).
Proof.
  unfold runCommand, createCgroup, sys. cbv zeta. sp. sp.
  rule along_then; [apply whole_ensureTokenCanAuthorize|]. intros [] ? ?. sp. sp. sp.
  eapply along_bind with (Q := fun c h' => CgroupCreated (fst c) ∈ h'); [apply _| |].
  { sp. sp. rule along_bind; [by apply spec_whole, spec_tell|]. intros [] h5 X5 [To _].
    rule along_ret. exact To. }
  intros [path rel] h6 X6 G. cbn [fst] in G.
  rule along_bind; [by apply whole_runInCgroup|]. intros l h7 X7 L. cbn beta in L. carry X7.
  rule along_then.
  - unfold afterRun. rule along_then.
    + destruct (authorizationActive l) eqn:A; [|by rule along_ret].
      destruct (keepAuthorization l); [by rule along_ret|]. cbn [andb negb].
      destruct (L eq_refl) as (a & clock & C & E).
      by eapply whole_ignoring, whole_releaseAuthorization.
    + intros [] h8 X8. carry X8. case_match; [|by rule along_ret].
      eapply whole_ignoring, spec_whole, spec_removeCgroup. by right.
  - intros [] h9 X9. sps.
Qed.

Lemma whole_handleRun h p req : whole h (handleRun W fallback p req) (fun _ _ => True).
Proof.
  unfold handleRun. sp. sp. sp. sp; [rule along_throw|]. apply whole_runCommand.
Qed.

End run.

#[local] Set Default Proof Using "Type*".

Section serve.
Context `{JSON} `{ArgsJSON} `{NodeJSON} (W : World) (counts : gmap string Z) (fallback : bool).

(** * The socket *)

Lemma whole_serveRequest h p req :
  along W (peer_UID p =? 0) counts prefix h (serveRequest W fallback p req) (fun _ _ => True).
Proof.
  unfold serveRequest, peerProcessGroups, ReadFile. sp. sp.
  - cbv zeta. rule along_then; [sps|]. intros groups h1 X1.
    rule along_then; [by apply whole_handleRun|]. intros. by rule along_ret.
  - rule along_then; [by apply whole_dispatch|]. intros. by rule along_ret.
Qed.

(** * The HTTP interface *)

#[local] Abbreviation whole := (along W true counts prefix).

Lemma whole_orDispatchError h m Q :
  whole h m Q -> whole h (orDispatchError m) (fun _ _ => True).
Proof.
  intros S. unfold orDispatchError. rule along_then; [by eapply whole_try|].
  intros. by rule along_ret.
Qed.

Lemma whole_onMethod h want r k :
  whole h k (fun _ _ => True) -> whole h (onMethod want r k) (fun _ _ => True).
Proof. intros S. unfold onMethod. case_match; [done|by rule along_ret]. Qed.

Lemma whole_dispatching {A} h req (k : reply -> A) :
  whole h (r ← dispatch W nodePeer req; ret (k r)) (fun _ _ => True).
Proof. rule along_then; [by apply whole_dispatch|]. intros. by rule along_ret. Qed.

Lemma whole_handleNodeUserKeySync h r key :
  RootKeyAccepted key ∈ h ->
  whole h (handleNodeUserKeySync W r key) (fun _ _ => True).
Proof.
  intros K. apply whole_onMethod. destruct (decodeNodeJSON _) as [e|snapshot]; [by rule along_ret|].
  eapply whole_orDispatchError with (Q := fun _ _ => True).
  rule along_then; [|intros; by rule along_ret]. apply whole_section. intros Hd. sp.
  apply spec_performed. split; [done|]. subst. rewrite !elem_of_app. auto.
Qed.

Lemma whole_handleNodeRegister h mode args key :
  whole h (handleNodeRegister W mode args key) (fun _ _ => True).
Proof.
  unfold handleNodeRegister. cbv zeta. case_match; [by rule along_ret|].
  eapply whole_orDispatchError, whole_dispatching.
Qed.

Lemma whole_allowManaged h mode token args :
  whole h (allowManaged W mode token args) (fun _ _ => True).
Proof.
  unfold allowManaged. cbv zeta. rule along_then; [|intros; by rule along_ret].
  repeat case_match; [by apply whole_createDocker|by apply whole_createK8s|by apply whole_createUser].
Qed.

Lemma whole_allowWithSecret h mode secret args :
  whole h (allowWithSecret W mode secret args) (fun _ _ => True).
Proof.
  unfold allowWithSecret. repeat case_match; simplify_eq; apply whole_dispatching.
Qed.

Lemma whole_handleNodeAllow h r key :
  whole h (handleNodeAllow W r key) (fun _ _ => True).
Proof.
  apply whole_onMethod. destruct (decodeNodeJSON _) as [e|args]; [by rule along_ret|].
  cbv zeta. sp; [by rule along_ret|]. sp.
  rule along_then; [eapply whole_try, spec_whole, spec_managed|]. intros managed h1 X1.
  destruct managed as [e|token].
  - sp. rule along_then; [eapply spec_whole, spec_try_any; rule along_done; auto with quiet|].
    intros [e'|status] h2 X2; [by rule along_ret|]. sp; [by rule along_ret|].
    sp; [|by rule along_ret]. eapply whole_orDispatchError, whole_allowWithSecret.
  - sp; [|by rule along_ret]. eapply whole_orDispatchError, whole_allowManaged.
Qed.

Lemma whole_handleNodeRevoke h r key :
  whole h (handleNodeRevoke W r key) (fun _ _ => True).
Proof.
  apply whole_onMethod. destruct (decodeNodeJSON _) as [e|args]; [by rule along_ret|].
  eapply whole_orDispatchError, whole_dispatching.
Qed.

Lemma whole_handleNodeShowKeys h r key :
  whole h (handleNodeShowKeys W r key) (fun _ _ => True).
Proof.
  apply whole_onMethod. eapply whole_orDispatchError with (Q := fun _ _ => True). sps.
Qed.

Lemma whole_nodeAuth h r next :
  (forall key h', RootKeyAccepted key ∈ h' -> whole h' (next key) (fun _ _ => True)) ->
  whole h (nodeAuth W r next) (fun _ _ => True).
Proof.
  intros Hn. unfold nodeAuth. destruct (bearerToken _) as [key|]; [|by rule along_ret].
  rule along_bind; [rule along_try; apply spec_whole, spec_requireRootKey|].
  intros [e|u] h1 X1 To; [by rule along_ret|]. apply Hn. by apply (To u eq_refl).
Qed.

Lemma whole_route path handler key h r :
  route W path = Some handler -> RootKeyAccepted key ∈ h ->
  whole h (handler r key) (fun _ _ => True).
Proof.
  intros Ro K. unfold route in Ro.
  repeat match type of Ro with (if ?b then _ else _) = _ => destruct b end; simplify_eq.
  - by apply whole_handleNodeUserKeySync.
  - apply whole_onMethod. destruct (decodeNodeJSON _); [by rule along_ret|].
    apply whole_handleNodeRegister.
  - apply whole_onMethod. destruct (decodeNodeJSON _); [|apply whole_handleNodeRegister].
    case_match; [apply whole_handleNodeRegister|by rule along_ret].
  - apply whole_handleNodeShowKeys.
  - apply whole_handleNodeAllow.
  - apply whole_handleNodeRevoke.
  - apply whole_onMethod. by rule along_ret.
Qed.

Lemma whole_nodeHTTPHandler h r :
  whole h (nodeHTTPHandler W r) (fun _ _ => True).
Proof.
  unfold nodeHTTPHandler. sp. case_match; [by rule along_ret|]. case_match; [by rule along_ret|].
  destruct (route W (h_Path r)) as [handler|] eqn:Ro; [|by rule along_ret].
  apply whole_nodeAuth. intros key h1 K. by eapply whole_route.
Qed.

(** A request that is let through leaves a history that begins with the root
    key of its header. *)
Definition keyFirst (r : httpRequest) (h : list event) : Prop :=
  h = [] \/ exists key rest, bearerToken (h_Authorization r) = Some key /\
    h = RootKeyAccepted key :: rest.

Lemma requireRootKey_keyed key s :
  sv_trace s = [] ->
  match result (requireRootKey_ W key) s with
  | inr _ => sv_trace (final (requireRootKey_ W key) s) = [RootKeyAccepted key]
  | inl _ => sv_trace (final (requireRootKey_ W key) s) = []
  end.
Proof.
  intros E. pose proof (quiet_onStore W (ValidateRootKey key) s) as Q.
  unfold requireRootKey_, result, final, mbind, M_bind, bind in *.
  destruct (onStore W (ValidateRootKey key) s) as [[e|[]] s1]; cbn in Q |- *; destruct Q as [Q _];
    by rewrite Q, E.
Qed.

Lemma nodeAuth_keyFirst r next s :
  sv_trace s = [] -> okay W true counts s ->
  (forall key h, RootKeyAccepted key ∈ h -> whole h (next key) (fun _ _ => True)) ->
  keyFirst r (sv_trace (final (nodeAuth W r next) s)).
Proof.
  intros E O Hn. unfold nodeAuth. destruct (bearerToken _) as [key|] eqn:B; [|by left].
  pose proof (requireRootKey_keyed key s E) as K.
  destruct (spec_requireRootKey W true counts [] key s E O) as (O1 & _ & _).
  unfold result, final, mbind, M_bind, bind, try in *.
  destruct (requireRootKey_ W key s) as [[e|u] s1]; cbn [fst snd] in *; [by left|].
  right. destruct (Hn key [RootKeyAccepted key] ltac:(by left) s1 K O1) as (_ & [rest X] & _).
  exists key, rest. by split.
Qed.

Lemma nodeHTTPHandler_keyFirst r s :
  sv_trace s = [] -> okay W true counts s ->
  keyFirst r (sv_trace (final (nodeHTTPHandler W r) s)).
Proof.
  intros E O. unfold nodeHTTPHandler.
  set (k := fun slot : bool => _).
  assert (final (asking (x_slotFree W) ≫= k) s =
          final (k (x_slotFree W (sv_tick s))) (set_tick (S (sv_tick s)) s)) as -> by done.
  set (s1 := set_tick (S (sv_tick s)) s).
  assert (sv_trace s1 = [] /\ okay W true counts s1) as [E1 O1] by done. unfold k. clearbody s1.
  case_match; [by left|]. case_match; [by left|].
  destruct (route W (h_Path r)) as [handler|] eqn:Ro; [|by left].
  apply nodeAuth_keyFirst; [done..|]. intros key h K. by eapply whole_route.
Qed.

End serve.
