(* ===== verification/DaemonMonitorLawful.v ===== *)
(** Every pass of the monitor keeps to the law of the daemon's history. *)

From S2P Require Export DaemonServeLawful.

#[local] Set Default Proof Using "Type*".

Section monitor.
Context `{JSON} (W : World) (root : bool) (counts : gmap string Z).

#[local] Abbreviation spec := (along W root counts ext).
#[local] Abbreviation whole := (along W root counts prefix).

(** * Assessments *)

Lemma spec_recordEvictionAssessment h a err :
  held h -> spec h (recordEvictionAssessment a err) (fun _ h' => inSection (Assessed a err) h').
Proof.
  intros Hd s E [L C].
  change (final _ s) with (set_evictionClean (recordAssessment a (sv_evictionClean s))
    (set_trace (sv_trace s ++ [Assessed a err]) s)).
  rewrite E in *. split; [split|split].
  - cbn. by apply lawful_snoc.
  - cbn. rewrite C. unfold countsAfter, assessmentsOf. rewrite omap_app, foldl_app. done.
  - cbn. exists [Assessed a err]. split; [done|]. by apply Forall_singleton.
  - intros [] _. cbn. by apply inSection_new.
Qed.

Lemma spec_evictionScopeReady h kind id :
  spec h (evictionScopeReady kind id) (fun b h' => h' = h /\
    b = (evictionCleanSamples <=? default 0 (countsAfter counts h !! (kind +:+ ":" +:+ id)))).
Proof.
  intros s E O. pose proof O as [L C]. split; [done|]. cbn. rewrite E in *. split; [done|]. intros b [= <-]. by rewrite C.
Qed.

(** * Loops over rows *)

Definition stable (Q : list event -> Prop) : Prop := forall h h', ext h h' -> Q h -> Q h'.

Lemma spec_cleaning {A} (I : list event -> Prop) (Q : A -> list event -> Prop) body rows :
  stable I -> (forall row, stable (Q row)) ->
  (forall row h, row ∈ rows -> I h -> spec h (body row) (fun ok h' => ok = true -> Q row h')) ->
  forall h, I h ->
  spec h (cleaning body rows) (fun ok h' => ok = true -> forall row, row ∈ rows -> Q row h').
Proof.
  intros SI SQ. induction rows as [|row rows IH]; intros B h Ih; cbn [cleaning].
  - rule along_ret. intros _ row I'. by apply not_elem_of_nil in I'.
  - rule along_bind; [apply B; [left|done]|]. intros ok h1 X1 Q1.
    rule along_bind; [apply IH; [|by eapply SI]|].
    { intros row' h' I'. apply B. by right. }
    intros others h2 X2 Q2. rule along_ret. intros [Ok1 Ok2]%andb_true_iff row'.
    intros [->|I']%elem_of_cons; [|by apply Q2]. eapply SQ; [done|]. by apply Q1.
Qed.

Lemma spec_orSkip {A} h (m : M Server A) (k : M Server unit) (Q : list event -> Prop) :
  stable Q -> spec h m (fun _ h' => Q h') -> (forall h', spec h' k (fun _ _ => True)) ->
  spec h (orSkip m k) (fun ok h' => ok = true -> Q h').
Proof.
  intros SQ Sm Sk. unfold orSkip. rule along_bind; [rule along_try; exact Sm|].
  intros [e|x] h1 X1 V; [by rule along_ret|]. rule along_then; [apply Sk|].
  intros [] h2 X2. rule along_ret. intros _. eapply SQ, V; done.
Qed.

Lemma stable_inSection e : stable (inSection e).
Proof. intros h h' X. by apply inSection_ext. Qed.

Lemma stable_or (P : Prop) Q : stable Q -> stable (fun h => P \/ Q h).
Proof. intros S h h' X [Hp|Hq]; [by left|right]. by eapply S. Qed.

Lemma spec_auditRow h now kind message gpu id user :
  spec h (auditRow W now kind message gpu id user) (fun _ _ => True).
Proof. apply spec_AppendAudit. Qed.
Hint Resolve spec_auditRow : spec.

(** * Scopes *)

Lemma spec_stopScope h kind id path mode :
  held h -> spec h (stopScope W kind id path mode) (fun _ h' => held h' /\ stopped W counts h' kind id path mode).
Proof.
  intros Hd. unfold stopScope. destruct (path =s "") eqn:P.
  - apply String.eqb_eq in P. cbn [negb]. destruct (mode =s ModeBare) eqn:Mo; cbn [negb].
    + rule along_ret. split; [done|right; left]. by apply String.eqb_eq in Mo.
    + rule along_bind; [apply spec_evictionScopeReady|]. intros b h1 X1 [-> ->].
      destruct (_ <=? _) eqn:L; [|rule along_throw]. rule along_ret. split; [done|].
      right; right. split; [done|]. by apply Z.leb_le.
  - apply String.eqb_neq in P. cbn [negb].
    rule along_weaken; [apply spec_stopAndRemoveManagedCgroup|]. intros [] h1 X1 [G To].
    carry X1. learn. split; [done|left]. done.
Qed.

Lemma spec_finishedBareScope h path pid :
  held h -> spec h (finishedBareScope W path pid) (fun _ h' => held h' /\ over W h' path pid).
Proof.
  intros Hd. unfold finishedBareScope. destruct (path =s "") eqn:P; cbn [negb].
  - apply String.eqb_eq in P. destruct (x_Proc W) as [reader|] eqn:R.
    + sp. sp. rule along_weaken; [by apply spec_tell|]. intros [] h1 X1 To. carry X1. learn.
      split; [done|]. left. auto.
    + rule along_ret. split; [done|]. left. auto.
  - rule along_bind; [apply spec_cgroupEmpty|]. intros e h1 X1 To. carry X1. sp.
    apply negb_false_iff in H0. specialize (To H0).
    destruct (cgroupPathWithinRoot _ _ _) as [err|[]] eqn:G; [rule along_throw| |rule along_throw].
    rule along_weaken; [apply spec_removeOrGone; by left|]. intros [] h2 X2 _.
    carry X2. apply (told_ext _ _ _ X2) in To. learn. split; [done|]. by right.
Qed.

(** * Cleaning up

    The rows come from a snapshot of this critical section. *)

Section cleanup.
Context (state : State) (now : time).

#[local] Abbreviation tokens := (tokenValidityByHash (State_Tokens state) now).

Definition known (h : list event) : Prop :=
  held h /\ inSection (Snapshotted state) h /\ inSection (Clock now) h.

Lemma stable_known : stable known.
Proof. intros h h' X (Hd & S & C). by carry X. Qed.

Lemma spec_stopped_or_over {A} h (m : M Server unit) (c : M Store A) (Q : list event -> Prop) call :
  known h -> spec h m (fun _ h' => held h' /\ Q h') ->
  (forall h', known h' -> Q h' -> mayCall W root counts h' call) ->
  spec h (m ;; perform W call c) (fun _ h' => inSection (Called call None) h').
Proof.
  intros K Sm J. rule along_bind; [exact Sm|]. intros [] h1 X1 [Hd HQ].
  apply (stable_known _ _ X1) in K.
  rule along_weaken; [apply spec_perform; by apply J|]. intros ? h2 X2 [To _]. carry X2. by learn.
Qed.

Lemma spec_cleanupExpiredAuthorization h a :
  known h -> a ∈ State_Authorizations state ->
  spec h (cleanupExpiredAuthorization W now tokens a)
    (fun ok h' => ok = true -> Authorization_Active a = true ->
       authorizationValid now tokens a = true \/
       inSection (Called (MReleaseAuthorization (Authorization_ID a)) None) h').
Proof.
  intros K I. unfold cleanupExpiredAuthorization.
  destruct (Authorization_Active a) eqn:Ac; [|by rule along_ret]. cbn [negb orb].
  destruct (authorizationValid now tokens a) eqn:V; [rule along_ret; by left|].
  rule along_weaken.
  - apply spec_orSkip with (Q := inSection (Called (MReleaseAuthorization (Authorization_ID a)) None));
      [apply stable_inSection| |].
    + eapply spec_stopped_or_over; [done|apply spec_stopScope, K|].
      intros h' (Hd & S & C) St. split; [done|]. right. exists state, a. split_and!; [done..|].
      left. by exists now.
    + intros h'. case_match; sps.
  - intros ok h' X Q Ok _. right. by apply Q.
Qed.

Lemma spec_cleanupExpiredLease h l :
  known h -> l ∈ State_Leases state ->
  spec h (cleanupExpiredLease W now tokens l)
    (fun ok h' => ok = true -> Lease_Active l = true ->
       leaseValid state now l = true \/ inSection (Called (MReleaseLease (Lease_ID l)) None) h').
Proof.
  intros K I. unfold cleanupExpiredLease. fold (leaseValid state now l).
  destruct (Lease_Active l) eqn:Ac; [|by rule along_ret]. cbn [negb orb].
  destruct (leaseValid state now l) eqn:V; [rule along_ret; by left|].
  rule along_weaken.
  - apply spec_orSkip with (Q := inSection (Called (MReleaseLease (Lease_ID l)) None));
      [apply stable_inSection| |].
    + eapply spec_stopped_or_over; [done|apply spec_stopScope, K|].
      intros h' (Hd & S & C) St. exists state, l. split_and!; [done..|]. left. by exists now.
    + intros h'. apply spec_auditRow.
  - intros ok h' X Q Ok _. right. by apply Q.
Qed.

Lemma spec_cleanupFinishedBareAuthorization h a :
  known h -> a ∈ State_Authorizations state ->
  spec h (cleanupFinishedBareAuthorization W now a) (fun _ _ => True).
Proof.
  intros K I. unfold cleanupFinishedBareAuthorization.
  destruct (Authorization_Active a) eqn:Ac; [|by rule along_ret].
  destruct (Authorization_Mode a =s ModeBare) eqn:Mo; [|by rule along_ret].
  case_match; [by rule along_ret|]. eapply spec_any.
  apply spec_orSkip with (Q := inSection (Called (MReleaseAuthorization (Authorization_ID a)) None));
    [apply stable_inSection| |intros h'; sps].
  eapply spec_stopped_or_over; [done|apply spec_finishedBareScope, K|].
  intros h' (Hd & S & C) O. split; [done|]. right. exists state, a. apply String.eqb_eq in Mo.
  split_and!; [done..|]. by right.
Qed.

Lemma spec_cleanupFinishedBareLease h l :
  known h -> l ∈ State_Leases state ->
  spec h (cleanupFinishedBareLease W now l) (fun _ _ => True).
Proof.
  intros K I. unfold cleanupFinishedBareLease.
  destruct (Lease_Active l) eqn:Ac; [|by rule along_ret].
  destruct (Lease_Mode l =s ModeBare) eqn:Mo; [|by rule along_ret].
  case_match; [by rule along_ret|]. eapply spec_any.
  apply spec_orSkip with (Q := inSection (Called (MReleaseLease (Lease_ID l)) None));
    [apply stable_inSection| |intros h'; apply spec_auditRow].
  eapply spec_stopped_or_over; [done|apply spec_finishedBareScope, K|].
  intros h' (Hd & S & C) O. exists state, l. apply String.eqb_eq in Mo.
  split_and!; [done..|]. by right.
Qed.

(** The reservations: what is left to do, and what was done so far. *)
Lemma spec_cleanupReservations ids rows : forall h emitted ok,
  known h -> (forall r, r ∈ rows -> r ∈ State_Reservations state) ->
  spec h (cleanupReservations W now ids emitted ok rows)
    (fun ok' h' => ok' = true -> ok = true /\ forall r, r ∈ rows -> Reservation_Active r = true ->
       negb (Reservation_Revoked r) && Before now (Reservation_ExpiresAt r) = true \/
       inSection (Called (MReleaseReservation (Reservation_ID r)) None) h').
Proof.
  induction rows as [|r rows IH]; intros h emitted ok K Sub; cbn [cleanupReservations].
  { rule along_ret. intros ->. split; [done|]. intros r I. by apply not_elem_of_nil in I. }
  assert (forall r', r' ∈ rows -> r' ∈ State_Reservations state) as Sub' by (intros; apply Sub; by right).
  destruct (_ || _) eqn:Skip.
  - rule along_weaken; [by apply IH|]. intros ok' h' X V Ok. destruct (V Ok) as [-> Q].
    split; [done|]. intros r' [->|I]%elem_of_cons Ac; [left|by apply Q].
    apply orb_true_iff in Skip as [F|E]; [by rewrite Ac in F|done].
  - apply orb_false_iff in Skip as [Ac%negb_false_iff V].
    assert (mayReleaseReservation h (Reservation_ID r)) as May.
    { destruct K as (Hd & S & C). exists state, r, now. split_and!; [done|apply Sub; by left|done..|].
      destruct (Reservation_Revoked r); [by left|right]. done. }
    rule along_bind; [rule along_try; by apply spec_perform|].
    intros [e|x] h1 X1 To; apply (stable_known _ _ X1) in K.
    + rule along_weaken; [by apply IH|]. intros ok' h' X Q Ok. by destruct (Q Ok).
    + destruct (To _ eq_refl) as [T _]. cbv zeta.
      rule along_then; [case_match; sps|]. intros [] h2 X2.
      rule along_then; [apply spec_auditRow|]. intros [] h3 X3.
      assert (ext h1 h3) as X13 by by etrans. apply (stable_known _ _ X13) in K.
      rule along_weaken; [by apply IH|]. intros ok' h' X Q Ok. destruct (Q Ok) as [-> All].
      split; [done|]. intros r' [->|I]%elem_of_cons Ac'; [right|by apply All].
      apply (told_ext _ _ _ X13) in T. destruct K as (Hd & _). learn. by eapply inSection_ext.
Qed.

End cleanup.

(** * The snapshot *)

Section pass.
Context (state : State).

Definition seen (h : list event) : Prop := held h /\ inSection (Snapshotted state) h.

Lemma stable_seen : stable seen.
Proof. intros h h' X (Hd & S). by carry X. Qed.

(** A loop over the rows of the snapshot, at a time that is asked first. *)
Lemma spec_rows {A} h (rows : list A) (body : time -> A -> M Server bool)
    (Q : time -> A -> list event -> Prop) :
  seen h -> (forall now row, stable (Q now row)) ->
  (forall now h' row, known state now h' -> row ∈ rows ->
     spec h' (body now row) (fun ok h'' => ok = true -> Q now row h'')) ->
  spec h (now ← Now W; cleaning (body now) rows)
    (fun ok h' => ok = true -> exists now, inSection (Clock now) h' /\
       forall row, row ∈ rows -> Q now row h').
Proof.
  intros [Hd S] SQ B. sp. rule along_weaken.
  - apply (spec_cleaning (known state x) (Q x) (body x) rows); [apply stable_known|done| |done].
    intros row h3 I3 K. by apply B.
  - intros ok h'' X' Q' Ok. carry X'. exists x. split; [done|]. by apply Q'.
Qed.

(** Rows of the snapshot, in an order of their own. *)
Context (rows : State).
Context (tokensSame : State_Tokens rows = State_Tokens state).
Context (authorizationsKnown : forall a, a ∈ State_Authorizations rows -> a ∈ State_Authorizations state).
Context (leasesKnown : forall l, l ∈ State_Leases rows -> l ∈ State_Leases state).

Lemma spec_cleanupExpiredAuthorizationsState h :
  seen h -> spec h (cleanupExpiredAuthorizationsState W rows) (fun ok h' => ok = true ->
    settled h' (State_Authorizations rows) Authorization_Active
      (fun now a => authorizationValid now (tokenValidityByHash (State_Tokens state) now) a)
      (fun a => MReleaseAuthorization (Authorization_ID a))).
Proof.
  intros K. unfold cleanupExpiredAuthorizationsState. rewrite tokensSame. unfold settled.
  apply (spec_rows h _ (fun now => cleanupExpiredAuthorization W now _) (fun now a h' =>
    Authorization_Active a = true -> authorizationValid now _ a = true \/
    inSection (Called (MReleaseAuthorization (Authorization_ID a)) None) h')); [done| |].
  - intros now a h1 h2 X Q Ac. destruct (Q Ac); [by left|right; by carry X].
  - intros now h' a Kn I. by apply spec_cleanupExpiredAuthorization, authorizationsKnown.
Qed.

Lemma spec_cleanupExpiredLeasesState h :
  seen h -> spec h (cleanupExpiredLeasesState W rows) (fun ok h' => ok = true ->
    settled h' (State_Leases rows) Lease_Active (leaseValid state)
      (fun l => MReleaseLease (Lease_ID l))).
Proof.
  intros K. unfold cleanupExpiredLeasesState. rewrite tokensSame. unfold settled.
  apply (spec_rows h _ (fun now => cleanupExpiredLease W now _) (fun now l h' =>
    Lease_Active l = true -> leaseValid state now l = true \/
    inSection (Called (MReleaseLease (Lease_ID l)) None) h')); [done| |].
  - intros now a h1 h2 X Q Ac. destruct (Q Ac); [by left|right; by carry X].
  - intros now h' l Kn I. by apply spec_cleanupExpiredLease, leasesKnown.
Qed.

Lemma spec_cleanupFinishedBareAuthorizationsState h :
  seen h -> spec h (cleanupFinishedBareAuthorizationsState W rows) (fun _ _ => True).
Proof.
  intros [Hd K]. unfold cleanupFinishedBareAuthorizationsState. sp.
  rule along_then; [|intros; by rule along_ret]. eapply spec_any.
  apply (spec_cleaning (known state x) (fun _ _ => True)); [apply stable_known|done| |done].
  intros a h1 I1 K1. rule along_weaken; [by eapply spec_cleanupFinishedBareAuthorization, authorizationsKnown|done].
Qed.

Lemma spec_cleanupFinishedBareLeasesState h :
  seen h -> spec h (cleanupFinishedBareLeasesState W rows) (fun _ _ => True).
Proof.
  intros [Hd K]. unfold cleanupFinishedBareLeasesState. sp.
  rule along_then; [|intros; by rule along_ret]. eapply spec_any.
  apply (spec_cleaning (known state x) (fun _ _ => True)); [apply stable_known|done| |done].
  intros a h1 I1 K1. rule along_weaken; [by eapply spec_cleanupFinishedBareLease, leasesKnown|done].
Qed.

End pass.

Lemma spec_cleanupExpiredReservationsState h state :
  seen state h -> spec h (cleanupExpiredReservationsState W state) (fun ok h' => ok = true ->
    settled h' (State_Reservations state) Reservation_Active
      (fun now r => negb (Reservation_Revoked r) && Before now (Reservation_ExpiresAt r))
      (fun r => MReleaseReservation (Reservation_ID r))).
Proof.
  intros [Hd S']. unfold cleanupExpiredReservationsState. sp.
  rule along_weaken; [by apply spec_cleanupReservations with (state := state) (now := x)|].
  intros ok h1 X1 Q Ok. carry X1. exists x. split; [done|]. by apply Q.
Qed.

(** * Without a list of GPU processes *)

Lemma spec_inactiveReady h path :
  held h -> spec h (inactiveManagedCgroupReadyForPrune W path)
    (fun b h' => b = true -> cgroupManaged W path /\ inSection (FoundEmpty path) h').
Proof.
  intros Hd. unfold inactiveManagedCgroupReadyForPrune.
  destruct (cgroupPathWithinRoot _ _ _) as [e|[]] eqn:G; [by rule along_ret| |by rule along_ret].
  rule along_bind; [apply spec_cgroupEmpty|]. intros e h1 X1 To. carry X1.
  destruct e; [|by rule along_ret]. specialize (To eq_refl).
  rule along_then; [apply spec_try_any, spec_removeOrGone; by left|]. intros r h2 X2.
  rule along_ret. intros _. carry X2. apply (told_ext _ _ _ X2) in To. learn. by split.
Qed.

Lemma prunable_ext {A} h h' rows (active : A -> bool) path id which :
  ext h h' -> prunable W h rows active path id which -> prunable W h' rows active path id which.
Proof.
  intros X (state & row & S & I & E & Ac & P & G & F). exists state, row. carry X. by split_and!.
Qed.

Lemma spec_readyIDs {A} state (proj : State -> list A) active path id rows : forall h,
  seen state h -> (forall row, row ∈ rows -> row ∈ proj state) ->
  spec h (readyIDs W active path id rows)
    (fun ids h' => Forall (prunable W h' proj active path id) ids).
Proof.
  induction rows as [|row rows IH]; intros h K Sub; cbn [readyIDs]; [by rule along_ret|].
  eapply along_bind with (Q := fun b h' => b = true -> active row = false /\ path row <> "" /\
    cgroupManaged W (path row) /\ inSection (FoundEmpty (path row)) h'); [apply _| |].
  { destruct (active row) eqn:Ac; [by rule along_ret|]. cbn [negb andb].
    destruct (path row =s "") eqn:P; [by rule along_ret|]. apply String.eqb_neq in P. cbn [negb].
    rule along_weaken; [apply spec_inactiveReady, K|]. intros b h1 X1 Q B.
    destruct (Q B). by split_and!. }
  intros ready h1 X1 Q. apply (stable_seen _ _ _ X1) in K.
  rule along_bind; [apply IH; [done|intros; apply Sub; by right]|].
  intros ids h2 X2 F. rule along_ret. destruct ready; [|done]. constructor; [|done].
  destruct (Q eq_refl) as (Ac & P & G & E). destruct K as [Hd S]. exists state, row. carry X2.
  split_and!; [done|apply Sub; by left|done..].
Qed.

Lemma spec_performing h {A} m (c : M Store A) :
  mayCall W root counts h m -> spec h (ignoring (perform W m c)) (fun _ _ => True).
Proof. intros J. by eapply spec_ignoring, spec_perform. Qed.

Lemma whole_cleanupExpiredManagedCgroups h :
  whole h (cleanupExpiredManagedCgroups W) (fun _ _ => True).
Proof.
  apply whole_section. intros Hd. rule along_bind; [rule along_try; apply spec_snapshot|].
  intros [e|state] h1 X1 T1; [by rule along_ret|]. specialize (T1 _ eq_refl). carry X1. learn.
  assert (seen state h1) as K by done.
  rule along_then; [eapply spec_any, (spec_cleanupExpiredAuthorizationsState state); [done| | |done];
    intros ?; cbn; by intros [_ ?]%list_elem_of_filter|].
  intros ok1 h2 X2. apply (stable_seen _ _ _ X2) in K.
  rule along_then; [eapply spec_any, (spec_cleanupExpiredLeasesState state); [done| | |done];
    intros ?; cbn; by intros [_ ?]%list_elem_of_filter|].
  intros ok2 h3 X3. apply (stable_seen _ _ _ X3) in K. destruct K as [Hd3 _].
  rule along_bind; [rule along_try; apply spec_snapshot|].
  intros [e|state'] h4 X4 T4; [by rule along_ret|]. specialize (T4 _ eq_refl). carry X4. learn.
  assert (seen state' h4) as K by done.
  rule along_bind; [by apply spec_readyIDs with (state := state') (proj := State_Authorizations)|].
  intros ids1 h5 X5 F1. apply (stable_seen _ _ _ X5) in K.
  rule along_bind; [by apply spec_readyIDs with (state := state') (proj := State_Leases)|].
  intros ids2 h6 X6 F2. apply (stable_seen _ _ _ X6) in K. destruct K as [Hd6 _].
  rule along_then.
  { apply spec_performing. split; [|done]. eapply Forall_impl; [exact F1|].
    intros id. by apply prunable_ext. }
  intros [] h7 X7. carry X7. sp. by apply spec_performing.
Qed.

(** * A pass *)

Lemma spec_acceptAudits h events : spec h (acceptAudits W events) (fun _ _ => True).
Proof.
  revert h. induction events as [|e events IH]; intros h; cbn [acceptAudits]; [by rule along_ret|].
  rule along_then; [unfold acceptEnforcementAudit; sps|]. intros ok h1 X1.
  rule along_then; [apply IH|]. intros. by rule along_ret.
Qed.

Lemma spec_auditSample h sample errs : spec h (auditSample W sample errs) (fun _ _ => True).
Proof. unfold auditSample, auditGPUProcessError. sps. Qed.

Lemma spec_applyClaims now processes all decisions : forall h,
  inSection (Enforced processes all) h -> (forall d, d ∈ decisions -> d ∈ all) ->
  spec h (applyClaims W now decisions) (fun _ _ => True).
Proof.
  induction decisions as [|d decisions IH]; intros h I Sub; cbn [applyClaims]; [by rule along_ret|].
  rule along_then.
  - destruct (d_Action d) eqn:Ac; try (by rule along_ret); apply spec_performing;
      exists processes, all, d; (split; [done|split; [apply Sub; by left|done]]).
  - intros [] h1 X1. apply IH; [by carry X1|]. intros d' I'. apply Sub. by right.
Qed.

Lemma spec_enforcePasses h state processes :
  held h -> spec h (enforcePasses W state processes)
    (fun r h' => snd r = None -> exists a, inSection (Assessed a None) h').
Proof.
  intros Hd. unfold enforcePasses. sp. sp.
  destruct (EvictExpiredReservedProcesses _ _ _ _ _) as [r pass].
  destruct (match r with inl e => _ | inr a => a end) as [assessment evictionErr].
  rule along_bind; [by apply spec_recordEvictionAssessment|]. intros [] h1 X1 As. carry X1. sp.
  destruct (Enforce _ _ _ _ _ _) as [r' pass']. cbv zeta.
  rule along_bind; [by apply spec_tell|]. intros [] h2 X2 To. carry X2. learn.
  rule along_then; [apply spec_acceptAudits|]. intros audits h3 X3. carry X3.
  rule along_then; [apply spec_auditSample|]. intros [] h4 X4. carry X4. sp. sp.
  rule along_then; [by eapply spec_applyClaims|]. intros [] h5 X5. carry X5.
  rule along_then; [by apply spec_performing|]. intros [] h6 X6. carry X6. rule along_ret.
  cbn [snd]. intros ->. by exists assessment.
Qed.

Lemma settled_ext {A} h h' (rows : list A) active inForce release :
  ext h h' -> settled h rows active inForce release -> settled h' rows active inForce release.
Proof.
  intros X (now & C & Q). exists now. carry X. split; [done|]. intros row I Ac.
  destruct (Q row I Ac); [by left|right; by carry X].
Qed.

Lemma spec_monitorLocked h processes :
  held h -> spec h (monitorLocked W processes) (fun _ _ => True).
Proof.
  intros Hd. unfold monitorLocked. rule along_bind; [rule along_try; apply spec_snapshot|].
  intros [e|state] h1 X1 T1; [by rule along_ret|]. specialize (T1 _ eq_refl). carry X1. learn.
  assert (seen state h1) as K by done.
  rule along_bind; [by apply spec_enforcePasses|]. intros [now err] h2 X2 As. cbn [snd] in As.
  apply (stable_seen _ _ _ X2) in K.
  rule along_bind; [by apply spec_cleanupExpiredReservationsState|]. intros ok1 h3 X3 C1.
  apply (stable_seen _ _ _ X3) in K.
  rule along_bind; [by apply spec_cleanupExpiredAuthorizationsState|]. intros ok2 h4 X4 C2.
  apply (stable_seen _ _ _ X4) in K.
  rule along_then; [by eapply spec_cleanupFinishedBareAuthorizationsState|]. intros [] h5 X5.
  apply (stable_seen _ _ _ X5) in K.
  rule along_bind; [by apply spec_cleanupExpiredLeasesState|]. intros ok3 h6 X6 C3.
  apply (stable_seen _ _ _ X6) in K.
  rule along_then; [by eapply spec_cleanupFinishedBareLeasesState|]. intros [] h7 X7.
  apply (stable_seen _ _ _ X7) in K.
  destruct err; [by rule along_ret|]. case_match; [|by rule along_ret].
  repeat match goal with E : _ && _ = true |- _ => apply andb_true_iff in E as [? ->] end.
  subst ok1. specialize (As eq_refl). specialize (C1 eq_refl). specialize (C2 eq_refl).
  specialize (C3 eq_refl). destruct As as [a As]. carry X3. carry X4. carry X5. carry X6. carry X7.
  apply spec_performing. exists state, a. split; [apply K|]. split; [done|].
  assert (ext h3 h7) as X37 by (etrans; [|exact X7]; etrans; [|exact X6]; by etrans).
  assert (ext h4 h7) as X47 by (etrans; [|exact X7]; by etrans).
  split; [|split]; [eapply settled_ext, C1|eapply settled_ext, C2|eapply settled_ext, C3]; done.
Qed.

Lemma whole_monitorOnce h : whole h (monitorOnce W) (fun _ _ => True).
Proof.
  unfold monitorOnce. sp. sp. destruct x as [err|processes].
  - rule along_then; [unfold auditGPUProcessError; sps|]. intros [] h1 X1.
    apply whole_cleanupExpiredManagedCgroups.
  - rule along_then; [unfold auditGPUProcessRecovery; sps|]. intros [] h1 X1.
    apply whole_section, spec_monitorLocked.
Qed.

Lemma whole_monitor h ticks : whole h (monitor W ticks) (fun _ _ => True).
Proof.
  revert h. induction ticks as [|ticks IH]; intros h; cbn [monitor].
  - rule along_then; [apply whole_monitorOnce|]. intros. by rule along_ret.
  - rule along_then; [apply whole_monitorOnce|]. intros. apply IH.
Qed.

End monitor.
