(* ===== verification/DaemonStore.v ===== *)
(** The handlers change the rows of the store through its methods alone, so that
    what the methods keep, the daemon keeps. *)

From S2P Require Export DaemonServe DaemonMonitor StoreSafety.

#[local] Set Default Proof Using "Type*".

Section guards.
Context `{JSON} `{ArgsJSON} `{NodeJSON}.

(** * What the methods keep *)

(** An invariant of the store that every method the daemon calls keeps, and
    every computation that leaves the rows alone. *)
Class StoreInvariant (I : Store -> Prop) : Prop := {
  si_call m st : daemon_method m = true -> I st -> I (final (call m) st);
  si_frame A (m : M Store A) st : frame m -> I st -> I (final m st)
}.

Context (I : Store -> Prop) `{!StoreInvariant I}.

Definition guards {A} (m : M Server A) : Prop := forall s,
  I (sv_Store s) -> I (sv_Store (final m s)).

Lemma guards_ret {A} (x : A) : guards (ret x).
Proof. by intros s Is. Qed.
Lemma guards_throw {A} e : guards (throw (A := A) e).
Proof. by intros s Is. Qed.
Lemma guards_get : guards get.
Proof. by intros s Is. Qed.
Lemma guards_gets {A} (f : Server -> A) : guards (gets f).
Proof. by intros s Is. Qed.
Lemma guards_check e : guards (check e).
Proof. by destruct e; intros s Is. Qed.
Lemma guards_fail_if b e : guards (fail_if b e).
Proof. by destruct b; intros s Is. Qed.
Lemma guards_decoded {A} (r : error + A) : guards (decoded r).
Proof. by destruct r; intros s Is. Qed.
Lemma guards_asking {A} (f : nat -> A) : guards (asking f).
Proof. by intros s Is. Qed.
Lemma guards_question : guards question.
Proof. by intros s Is. Qed.
Lemma guards_happened e : guards (happened e).
Proof. by intros s Is. Qed.

Lemma guards_modify (f : Server -> Server) :
  (forall s, sv_Store (f s) = sv_Store s) -> guards (modify f).
Proof. intros E s. cbn. by rewrite E. Qed.

Lemma guards_bind {A B} (m : M Server A) (k : A -> M Server B) :
  guards m -> (forall x, guards (k x)) -> guards (m ≫= k).
Proof.
  intros Hm Hk s Is. specialize (Hm s Is). unfold final, mbind, M_bind, bind in *.
  destruct (m s) as [[e|x] s1]; [done|]. by apply Hk.
Qed.

Lemma guards_try {A} (m : M Server A) : guards m -> guards (try m).
Proof. intros Hm s Is. specialize (Hm s Is). unfold final, try in *. by destruct (m s). Qed.

Lemma guards_ignoring {A} (m : M Server A) : guards m -> guards (ignoring m).
Proof. intros G. apply guards_bind; [by apply guards_try|]. intros. apply guards_ret. Qed.

(** * Calls of the store *)

Context (W : World).

Lemma guards_interfere : guards (interfere W).
Proof.
  intros s Is. cbn. generalize (x_others W (sv_tick s)) as os. intros os.
  revert Is. generalize (sv_Store s) as st. induction os as [|o os IH]; intros st Is; [done|].
  cbn. apply IH. destruct o as [m|key]; cbn.
  - destruct (if sv_locked s then _ else _) eqn:D; [|done]. apply si_call; [|done].
    destruct (sv_locked s); [by destruct m|done].
  - apply si_frame; [auto with store|done].
Qed.

Lemma guards_lift {A} (m : M Store A) :
  (forall st, I st -> I (final m st)) -> guards (lift m).
Proof.
  intros Hm s Is. specialize (Hm _ Is). unfold final, lift in *. by destruct (m (sv_Store s)).
Qed.

Lemma guards_frame {A} (m : M Store A) : frame m -> guards (lift m).
Proof. intros F. apply guards_lift. intros st. by apply si_frame. Qed.

(** [c] is the method [m], with its answer. *)
Definition implements {A} (m : method) (c : M Store A) : Prop :=
  daemon_method m = true /\ forall st, final (call m) st = final c st.

Lemma final_then_ret {A} (c : M Store A) st : final (c ;; ret tt) st = final c st.
Proof. unfold final, mbind, M_bind, bind. by destruct (c st) as [[e|x] s1]. Qed.

Lemma guards_onStore {A} m (c : M Store A) : implements m c -> guards (onStore W c).
Proof.
  intros [D E]. apply guards_bind; [apply guards_interfere|]. intros _. apply guards_lift.
  intros st Is. rewrite <- E. by apply si_call.
Qed.

Lemma guards_perform {A} m (c : M Store A) : implements m c -> guards (perform W m c).
Proof.
  intros Im. unfold perform. apply guards_bind; [by eapply guards_try, guards_onStore|].
  intros [e|x]; (apply guards_bind; [apply guards_happened|intros]);
    [apply guards_throw|apply guards_ret].
Qed.

Lemma guards_onStore_frame {A} (c : M Store A) : frame c -> guards (onStore W c).
Proof. intros F. apply guards_bind; [apply guards_interfere|]. intros _. by apply guards_frame. Qed.

Lemma guards_holding {A} (m : M Server A) : guards m -> guards (holding m).
Proof.
  intros Hm. unfold holding. apply guards_bind; [by apply guards_modify|]. intros _.
  apply guards_bind; [apply guards_happened|]. intros _.
  apply guards_bind; [by apply guards_try|]. intros r.
  apply guards_bind; [by apply guards_modify|]. intros _.
  apply guards_bind; [apply guards_happened|]. intros _.
  destruct r; [apply guards_throw|apply guards_ret].
Qed.

(** * The handlers *)

Create HintDb guards.
#[local] Hint Resolve guards_ret guards_throw guards_get guards_gets guards_check guards_fail_if
  guards_decoded guards_asking guards_question guards_happened guards_modify guards_try
  guards_ignoring guards_holding guards_onStore_frame guards_frame : guards.
#[local] Hint Extern 2 (guards (perform W _ _)) =>
  apply guards_perform; split; [done|intros ?; (done || apply final_then_ret)] : guards.

Ltac solve_guards :=
  repeat lazymatch goal with
  | |- guards (mbind _ _) => apply guards_bind; [|intros ?]
  | |- guards (let _ := _ in _) => cbv zeta
  | |- guards (try _) => apply guards_try
  | |- guards (ignoring _) => apply guards_ignoring
  | |- guards (holding _) => apply guards_holding
  | |- guards (match ?x with _ => _ end) => destruct x
  | |- guards (modify _) => apply guards_modify; done
  | |- guards _ => solve [auto with guards store]
  end.

Lemma guards_Now : guards (Now W).
Proof. unfold Now. solve_guards. Qed.
#[local] Hint Resolve guards_Now : guards.

Lemma guards_snapshot : guards (EnforcementSnapshot_ W).
Proof.
  unfold EnforcementSnapshot_. apply guards_bind; [|intros; solve_guards].
  apply (guards_onStore MEnforcementSnapshot). split; [done|]. intros. apply final_then_ret.
Qed.
Lemma guards_requireRootKey key : guards (requireRootKey_ W key).
Proof. unfold requireRootKey_. solve_guards. Qed.

Lemma guards_validateToken secret now : guards (Daemon.validateToken W secret now).
Proof.
  unfold Daemon.validateToken. case_match; [solve_guards|]. apply guards_bind; [|intros; solve_guards].
  apply (guards_onStore (MValidateToken secret now)). split; [done|]. intros. apply final_then_ret.
Qed.
Lemma guards_managed id now : guards (ManagedTokenByID_ W id now).
Proof.
  unfold ManagedTokenByID_. apply guards_bind; [|intros; solve_guards].
  apply (guards_onStore (MManagedTokenByID id now)). split; [done|]. intros. apply final_then_ret.
Qed.
Lemma guards_AppendAudit e : guards (AppendAudit_ W e).
Proof. unfold AppendAudit_. solve_guards. Qed.
#[local] Hint Resolve guards_snapshot guards_requireRootKey guards_validateToken guards_managed
  guards_AppendAudit : guards.

Lemma guards_emitTelemetry e at_ : guards (emitTelemetry W e at_).
Proof. unfold emitTelemetry, Append. solve_guards. Qed.
#[local] Hint Resolve guards_emitTelemetry : guards.

Lemma guards_rememberRunJob token a pid command at_ :
  guards (rememberRunJob W token a pid command at_).
Proof. unfold rememberRunJob. solve_guards. Qed.
Lemma guards_updateRunJobRootExit id code at_ : guards (updateRunJobRootExit W id code at_).
Proof. unfold updateRunJobRootExit. solve_guards. Qed.
Lemma guards_finishRunJob id reason at_ : guards (finishRunJob W id reason at_).
Proof. unfold finishRunJob. solve_guards. Qed.
Lemma guards_emitAuthorization id a : guards (emitAuthorization W id a).
Proof. unfold emitAuthorization. solve_guards. Qed.
Lemma guards_emitAuthorizationEnded id reason at_ : guards (emitAuthorizationEnded W id reason at_).
Proof. unfold emitAuthorizationEnded. solve_guards. Qed.
Lemma guards_emitReservation token rs : guards (emitReservation W token rs).
Proof. unfold emitReservation. solve_guards. Qed.
#[local] Hint Resolve guards_rememberRunJob guards_updateRunJobRootExit guards_finishRunJob
  guards_emitAuthorization guards_emitAuthorizationEnded guards_emitReservation : guards.

(** ** Authorizations, bypass rules and reservations *)

Lemma guards_ensureTokenCanAuthorize hash token now :
  guards (ensureTokenCanAuthorize W hash token now).
Proof. unfold ensureTokenCanAuthorize. solve_guards. Qed.
#[local] Hint Resolve guards_ensureTokenCanAuthorize : guards.

Lemma guards_addAuthorization secret a : guards (addAuthorization W secret a).
Proof. unfold addAuthorization, addAuthorizationLocked, AddAuthorization_. solve_guards. Qed.
#[local] Hint Resolve guards_addAuthorization : guards.

Lemma guards_persistAuthorization secret token a : guards (persistAuthorization W secret token a).
Proof. unfold persistAuthorization, AddAuthorization_. solve_guards. Qed.
#[local] Hint Resolve guards_persistAuthorization : guards.

Lemma guards_createDocker secret token hash p args :
  guards (createDockerAuthorization W secret token hash p args).
Proof. unfold createDockerAuthorization, acquireDockerResolve, NewAuthorizationID. solve_guards. Qed.
Lemma guards_createK8s secret token hash p args :
  guards (createK8sAuthorization W secret token hash p args).
Proof. unfold createK8sAuthorization, NewAuthorizationID. solve_guards. Qed.
Lemma guards_createUser secret token hash p args :
  guards (createUserAuthorization W secret token hash p args).
Proof. unfold createUserAuthorization, lookupUID, NewAuthorizationID. solve_guards. Qed.
Lemma guards_addBypass args now : guards (addBypass W args now).
Proof. unfold addBypass, addBypassLocked, NewBypassID. solve_guards. Qed.
Lemma guards_revoke id : guards (revoke W id).
Proof. unfold revoke. solve_guards. Qed.
Lemma guards_releaseAuthorization id : guards (releaseAuthorization W id).
Proof. unfold releaseAuthorization. solve_guards. Qed.
#[local] Hint Resolve guards_createDocker guards_createK8s guards_createUser guards_addBypass
  guards_revoke guards_releaseAuthorization : guards.

Lemma guards_ensureIdle state processes gpus : guards (ensureIdle W state processes gpus).
Proof. induction gpus; cbn [ensureIdle]; solve_guards; done. Qed.
#[local] Hint Resolve guards_ensureIdle : guards.

Lemma guards_ensureGPUsCanReserveWindow gpus startsAt expiresAt :
  guards (ensureGPUsCanReserveWindow W gpus startsAt expiresAt).
Proof. unfold ensureGPUsCanReserveWindow. solve_guards. Qed.
#[local] Hint Resolve guards_ensureGPUsCanReserveWindow : guards.

Lemma guards_ManagedKeysEnabled : guards (onStore W ManagedKeysEnabled).
Proof. apply (guards_onStore MManagedKeysEnabled). split; [done|]. intros. apply final_then_ret. Qed.
#[local] Hint Resolve guards_ManagedKeysEnabled : guards.

Lemma guards_register args now : guards (register W args now).
Proof. unfold register, registerReserved, registerClaimed, reserve. solve_guards. Qed.
#[local] Hint Resolve guards_register : guards.

(** ** Requests *)

Lemma guards_call {A} m (c : M Store A) :
  daemon_method m = true -> (forall st, final (call m) st = final c st) -> guards (onStore W c).
Proof. intros. by eapply guards_onStore. Qed.

Lemma guards_EnforcementSnapshot : guards (onStore W EnforcementSnapshot).
Proof. apply (guards_call MEnforcementSnapshot); [done|]. intros. apply final_then_ret. Qed.
Lemma guards_SnapshotForToken hash : guards (onStore W (EnforcementSnapshotForToken hash)).
Proof.
  apply (guards_call (MEnforcementSnapshotForToken hash)); [done|]. intros. apply final_then_ret.
Qed.
#[local] Hint Resolve guards_EnforcementSnapshot guards_SnapshotForToken : guards.
Lemma guards_ps now hash all : guards (ps W now hash all).
Proof. unfold ps, processesForRead. solve_guards. Qed.
Lemma guards_readScopeTokenHash secret p now : guards (readScopeTokenHash W secret p now).
Proof. unfold readScopeTokenHash. solve_guards. Qed.
Lemma guards_StatusAll now : guards (onStore W (StatusAll now)).
Proof. apply (guards_call (MStatus now)); [done|]. intros. apply final_then_ret. Qed.
Lemma guards_StatusForToken hash now : guards (onStore W (StatusForToken hash now)).
Proof. apply (guards_call (MStatusForToken hash now)); [done|]. intros. apply final_then_ret. Qed.
Lemma guards_tokenView secret now : guards (onStore W (tokenView secret now)).
Proof. apply (guards_call (MTokenView secret now)); [done|]. intros. apply final_then_ret. Qed.
Lemma guards_KeyStatus key now : guards (onStore W (KeyStatusReport key now)).
Proof. apply (guards_call (MKeyStatus key now)); [done|]. intros. apply final_then_ret. Qed.
#[local] Hint Resolve guards_ps guards_readScopeTokenHash guards_StatusAll guards_StatusForToken
  guards_tokenView guards_KeyStatus : guards.

Lemma guards_dispatch p req : guards (dispatch W p req).
Proof. unfold dispatch. solve_guards. Qed.
#[local] Hint Resolve guards_dispatch : guards.

(** ** Commands *)

Lemma guards_cgroupEmpty path : guards (cgroupEmpty W path).
Proof. unfold cgroupEmpty, ReadFile. solve_guards. Qed.
Lemma guards_removeCgroup path : guards (removeCgroup W path).
Proof. unfold removeCgroup, sys, cgroup2. solve_guards. Qed.
#[local] Hint Resolve guards_cgroupEmpty guards_removeCgroup : guards.
Lemma guards_removeOrGone path : guards (removeOrGone W path).
Proof. unfold removeOrGone. solve_guards. Qed.
#[local] Hint Resolve guards_removeOrGone : guards.
Lemma guards_stopAndRemove path : guards (stopAndRemoveManagedCgroup W path).
Proof. unfold stopAndRemoveManagedCgroup, sys. solve_guards. Qed.
Lemma guards_waitForGroup fuel deadline pid : guards (waitForGroup W fuel deadline pid).
Proof.
  induction fuel; cbn [waitForGroup]; unfold processGroupAlive; solve_guards; done.
Qed.
#[local] Hint Resolve guards_stopAndRemove guards_waitForGroup : guards.
Lemma guards_terminate pid : guards (terminateStartedCommand W pid).
Proof.
  unfold terminateStartedCommand, terminateProcessGroup, killGroup, processGroupAlive, sys.
  solve_guards.
Qed.
#[local] Hint Resolve guards_terminate : guards.

Lemma guards_activate secret a pid : guards (activate W secret a pid).
Proof. unfold activate. solve_guards. Qed.
#[local] Hint Resolve guards_activate : guards.

Context (fallback : bool).

Lemma guards_waitCommand token a pid path command : guards (waitCommand W token a pid path command).
Proof.
  unfold waitCommand, sys, cgroupEmptyOrOnlyExitedRoot, ReadFile, processExists. solve_guards.
Qed.
#[local] Hint Resolve guards_waitCommand : guards.

Lemma guards_runInCgroup secret token a p args path :
  guards (runInCgroup W fallback secret token a p args path).
Proof.
  unfold runInCgroup, openCgroupFD, startCommand, prepareRunCommand, runStarted, sys. solve_guards.
Qed.
#[local] Hint Resolve guards_runInCgroup : guards.

Lemma guards_handleRun p req : guards (handleRun W fallback p req).
Proof.
  unfold handleRun, runCommand, createCgroup, afterRun, NewAuthorizationID, sys. solve_guards.
Qed.
#[local] Hint Resolve guards_handleRun : guards.

(** ** Connections *)

Lemma guards_serveRequest p req : guards (serveRequest W fallback p req).
Proof. unfold serveRequest, peerProcessGroups, ReadFile. solve_guards. Qed.

Lemma guards_nodeHTTPHandler r : guards (nodeHTTPHandler W r).
Proof.
  unfold nodeHTTPHandler, nodeAuth. apply guards_bind; [solve_guards|intros slot].
  do 2 (case_match; [solve_guards|]).
  destruct (route W (h_Path r)) as [handler|] eqn:Ro; [|solve_guards].
  destruct (bearerToken _) as [key|]; [|solve_guards].
  apply guards_bind; [solve_guards|]. intros [e|u]; [solve_guards|]. unfold route in Ro.
  repeat match type of Ro with (if ?b then _ else _) = _ => destruct b end; simplify_eq;
    unfold handleNodeUserKeySync, handleNodeReservations, handleNodeClaimKeys,
      handleNodeShowKeys, handleNodeAllow, handleNodeRevoke, handleNodeRegister,
      allowWithSecret, allowManaged, orDispatchError, onMethod; solve_guards.
Qed.

(** ** The monitor *)

Lemma guards_cleaning {A} (body : A -> M Server bool) rows :
  (forall row, guards (body row)) -> guards (cleaning body rows).
Proof using Type* W. intros B. induction rows; cbn [cleaning]; solve_guards; done. Qed.

Lemma guards_orSkip {A} (m : M Server A) k : guards m -> guards k -> guards (orSkip m k).
Proof using Type* W. intros Gm Gk. unfold orSkip. solve_guards; done. Qed.

Lemma guards_auditRow now kind message gpu id user :
  guards (auditRow W now kind message gpu id user).
Proof. apply guards_AppendAudit. Qed.
Lemma guards_stopScope kind id path mode : guards (stopScope W kind id path mode).
Proof. unfold stopScope, evictionScopeReady. solve_guards. Qed.
Lemma guards_finishedBareScope path pid : guards (finishedBareScope W path pid).
Proof. unfold finishedBareScope. solve_guards. Qed.
#[local] Hint Resolve guards_cleaning guards_orSkip guards_auditRow guards_stopScope
  guards_finishedBareScope : guards.

Lemma guards_cleanupAuthorizations state : guards (cleanupExpiredAuthorizationsState W state).
Proof.
  unfold cleanupExpiredAuthorizationsState. solve_guards. apply guards_cleaning. intros a.
  unfold cleanupExpiredAuthorization. case_match; [solve_guards|]. apply guards_orSkip; solve_guards.
Qed.
Lemma guards_cleanupLeases state : guards (cleanupExpiredLeasesState W state).
Proof.
  unfold cleanupExpiredLeasesState. solve_guards. apply guards_cleaning. intros a.
  unfold cleanupExpiredLease. case_match; [solve_guards|]. apply guards_orSkip; solve_guards.
Qed.
Lemma guards_finishedAuthorizations state : guards (cleanupFinishedBareAuthorizationsState W state).
Proof.
  unfold cleanupFinishedBareAuthorizationsState. solve_guards. apply guards_cleaning. intros a.
  unfold cleanupFinishedBareAuthorization. case_match; [solve_guards|].
  apply guards_orSkip; solve_guards.
Qed.
Lemma guards_finishedLeases state : guards (cleanupFinishedBareLeasesState W state).
Proof.
  unfold cleanupFinishedBareLeasesState. solve_guards. apply guards_cleaning. intros a.
  unfold cleanupFinishedBareLease. case_match; [solve_guards|]. apply guards_orSkip; solve_guards.
Qed.

Lemma guards_cleanupReservations now ids rows : forall emitted ok,
  guards (cleanupReservations W now ids emitted ok rows).
Proof.
  induction rows; intros emitted ok; cbn [cleanupReservations]; solve_guards; auto.
Qed.
#[local] Hint Resolve guards_cleanupAuthorizations guards_cleanupLeases
  guards_finishedAuthorizations guards_finishedLeases guards_cleanupReservations : guards.

Lemma guards_readyIDs {A} (active : A -> bool) path id rows :
  guards (readyIDs W active path id rows).
Proof.
  induction rows; cbn [readyIDs]; unfold inactiveManagedCgroupReadyForPrune; solve_guards; auto.
Qed.
#[local] Hint Resolve guards_readyIDs : guards.

Lemma guards_cleanupExpiredManagedCgroups : guards (cleanupExpiredManagedCgroups W).
Proof. unfold cleanupExpiredManagedCgroups. solve_guards. Qed.
#[local] Hint Resolve guards_cleanupExpiredManagedCgroups : guards.

Lemma guards_acceptAudits events : guards (acceptAudits W events).
Proof. induction events; cbn [acceptAudits]; unfold acceptEnforcementAudit; solve_guards; auto. Qed.

Lemma guards_applyClaims now decisions : guards (applyClaims W now decisions).
Proof. induction decisions; cbn [applyClaims]; solve_guards; auto. Qed.

Lemma guards_observeDecisions tokens authorizations state now decisions : forall seen,
  guards (observeDecisions W tokens authorizations state now seen decisions).
Proof. induction decisions; intros seen; cbn [observeDecisions]; unfold putJob; solve_guards; auto. Qed.

Lemma guards_missJobs seen keys : guards (missJobs W seen keys).
Proof. induction keys; cbn [missJobs]; unfold putJob; solve_guards; auto. Qed.
#[local] Hint Resolve guards_acceptAudits guards_applyClaims guards_observeDecisions
  guards_missJobs : guards.

Lemma guards_monitorOnce : guards (monitorOnce W).
Proof.
  unfold monitorOnce, monitorLocked, enforcePasses, recordEvictionAssessment, auditSample,
    auditGPUProcessError, auditGPUProcessRecovery, trackObservedTelemetryJobs,
    cleanupExpiredReservationsState.
  solve_guards.
Qed.

End guards.
