(* ===== verification/DaemonSafety.v ===== *)
(** What the daemon promises about requests, enforcement and its rows. *)

From S2P Require Export DaemonMonitorLawful DaemonStore.
From S2P Require Import StoreTokens.

#[local] Set Default Proof Using "Type*".

Section safety.
Context `{JSON} `{ArgsJSON} `{NodeJSON}.

(** * Justified histories *)

Lemma lawful_run {A} W root (m : M Server A) s Q :
  sv_trace s = [] -> along W root (sv_evictionClean s) prefix [] m Q ->
  lawful W root (sv_evictionClean s) (sv_trace (final m s)).
Proof.
  intros E S. destruct (S s E) as ([L _] & _); [|exact L]. split; rewrite E; [|done].
  intros before e after N. by destruct before.
Qed.

(** C13. Requests over the socket are justified.  Whatever the other goroutines
    do and whatever fails, everything that a request to the daemon's socket does
    has its justification in what happened before: rows are issued, bypassed or
    revoked only after the root key was accepted; a reservation is made only in
    a critical section that found the window free of reservations and leases and,
    if it starts now, every GPU free of unbypassed processes; an authorization
    repeats the token validated in the same critical section, which has an
    active reservation if it is a reserving one, and bears a wildcard only for
    root; a command is started only in a cgroup made for it, under its persisted
    authorization, and activated only while the token is still good; only
    started processes are signalled; and only cgroups of the configured subtree,
    or made by the request, are killed or removed. *)
Theorem requests_justified W fallback p req s :
  sv_trace s = [] ->
  lawful W (peer_UID p =? 0) (sv_evictionClean s) (sv_trace (final (serveRequest W fallback p req) s)).
Proof. intros E. eapply lawful_run; [done|]. apply whole_serveRequest. Qed.

(** C14. The same of requests over HTTP, which act with the rights of root; and
    on no route does anything happen before the root key in the request's header
    was accepted: the history of the request is empty, or its first event is the
    acceptance of the key of its [Authorization] header, so that no row is
    changed, no process started and no cgroup touched for a request without it. *)
Theorem http_requests_justified W r s :
  sv_trace s = [] ->
  let h := sv_trace (final (nodeHTTPHandler W r) s) in
  lawful W true (sv_evictionClean s) h /\
  (h = [] \/ exists key rest, bearerToken (h_Authorization r) = Some key /\
                             h = RootKeyAccepted key :: rest).
Proof.
  intros E h. split; [eapply lawful_run; [done|]; apply whole_nodeHTTPHandler|].
  apply (nodeHTTPHandler_keyFirst W (sv_evictionClean s)); [done|]. split; rewrite E; [|done].
  intros before e after N. by destruct before.
Qed.

(** C15. The same of the monitor, however many passes it makes: an authorization
    or lease is released only when it is invalid and its scope was stopped (its
    managed cgroup found empty, or three assessments in a row found it
    quiescent), or when its command is over; a reservation only when revoked or
    expired; claims follow the decisions of the pass; and rows are pruned only
    after an assessment without an error, when every row that is no longer in
    force has been released in the same critical section. *)
Theorem monitor_justified W ticks s :
  sv_trace s = [] ->
  lawful W false (sv_evictionClean s) (sv_trace (final (monitor W ticks) s)).
Proof. intros E. eapply lawful_run; [done|]. apply whole_monitor. Qed.

(** * The rows *)

(** What the daemon works on, one after the other. *)
Inductive task : Type :=
  | Socket (p : peer) (req : Request)
  | HTTP (r : httpRequest)
  | Pass.

Definition work (W : World) (fallback : bool) (t : task) : M Server unit :=
  match t with
  | Socket p req => serveRequest W fallback p req ;; ret tt
  | HTTP r => nodeHTTPHandler W r ;; ret tt
  | Pass => monitorOnce W
  end.

Definition works (fallback : bool) (ts : list (World * task)) (s : Server) : Server :=
  foldl (fun s Wt => final (work Wt.1 fallback Wt.2) s) s ts.

(** Loaded, and good with reservations that do not conflict. *)
Definition sound (st : Store) : Prop := s_loaded st = true /\ Ok (overRows pairwise) st.

#[export] Instance sound_invariant : StoreInvariant sound.
Proof.
  split.
  - intros m st D [L O]. split; [by apply conserves_call|]. by apply (keepsOk_call pairwise).
  - intros A m st F [L O]. split; [|by apply keepsOk_frame].
    specialize (F st). unfold mem in F. congruence.
Qed.

Lemma works_sound fallback ts s : sound (sv_Store s) -> sound (sv_Store (works fallback ts s)).
Proof.
  unfold works. revert s. induction ts as [|[W t] ts IH]; intros s S; [done|]. cbn.
  apply IH. revert s S. change (guards sound (work W fallback t)). destruct t; cbn [work].
  - apply guards_bind; [apply _|exact (guards_serveRequest sound W fallback p req)|intros; apply guards_ret, _].
  - apply guards_bind; [apply _|exact (guards_nodeHTTPHandler sound W r)|intros; apply guards_ret, _].
  - exact (guards_monitorOnce sound W).
Qed.

(** The daemon keeps its rows sound.  When its start-up [Load] succeeded on
    reservations that do not conflict, then after any sequence of requests,
    HTTP requests and monitor passes, with any interference by other goroutines
    and any failure: the reservations do not conflict, at most one entitles a
    holder to a GPU at any instant, the rows in memory are those last committed,
    and they are within every limit on a state file. *)
Theorem daemon_rows_sound cfg file key log backup os rand fallback ts s :
  let start := New cfg file key log backup os rand in
  result Load start = inr tt ->
  exclusive (s_state (final Load start)) ->
  sv_Store s = final Load start ->
  let st := sv_Store (works fallback ts s) in
  exclusive (s_state st) /\
  (forall gpu now, (length (filter (fun r => activeOn gpu now r = true)
                              (State_Reservations (s_state st))) <= 1)%nat) /\
  s_state st = s_committed st /\ validateStateBounds (s_state st) = None.
Proof.
  intros start R E Es st.
  destruct (Good_Load start eq_refl R) as (L & C & B & _).
  assert (sound (sv_Store s)) as S0.
  { rewrite Es. split; [done|]. right. repeat split; try done. by apply pairwise_exclusive. }
  destruct (works_sound fallback ts s S0) as [L' O]. fold st in L', O.
  destruct (Good_loaded _ _ L' O) as (_ & C' & B' & P). split; [by apply pairwise_exclusive|].
  split; [|done]. intros gpu now. by apply pairwise_active.
Qed.

End safety.

(** A machine for the witnesses about the daemon: one clock reading, no failing
    call and an idle machine. *)

Definition sample_world (now : time) (others : list (method + string)) : World :=
  {| x_cfg := Default (fun key => if key =s "GPUARDIAN_CGROUP_ROOT" then "/cg" else "");
     x_bootID := "boot";
     x_Now _ := now;
     x_Done _ := None;
     x_others _ := others;
     x_Processes _ := inr [];
     x_Proc := None;
     x_Resolver := None;
     x_ResolveDockerContainer _ _ := inl (ErrorString "no docker");
     x_Killer := None;
     x_UsernameLookup _ _ _ := inr "alice";
     x_passDone _ _ := None;
     x_schedule _ l := l;
     x_range _ _ l := l;
     x_LookPath _ _ := None;
     x_LookupUser _ _ := inr "1000";
     x_slotFree _ := true;
     x_Append := None;
     x_Getwd := inr "/";
     x_ReadFile _ _ := inl ErrNotExist;
     x_sys _ := None;
     x_bool _ := true;
     x_Geteuid := 0;
     x_pid n := 4000 + Z.of_nat n;
     x_ExitCode _ := Some 0 |}.

Definition sample_server (st : Store) : Server :=
  mkServer st 0 false ∅ ("", zeroTime) ("", zeroTime) None zeroTime ∅ ∅ [].

(** A codec that knows two texts, and times as decimal numbers. *)
#[export] Instance sample_args : ArgsJSON := {
  ParseJSON raw :=
    if raw =s "register" then inr (JObject
      [("root_key", JString sample_key); ("mode", JString "reserved"); ("name", JString "alice");
       ("purpose", JString "train"); ("external_session_id", JString "job-7");
       ("gpus", JArray [JNumber "0"; JNumber "3"]); ("starts_at", JString "1000");
       ("expires_at", JString "5000")])
    else if raw =s "run" then inr (JObject [("command", JArray [JString "/bin/train"])])
    else inl (ErrorString "unexpected end of JSON input");
  UnmarshalTime s :=
    match Atoi s with Some t => inr t | None => inl (ErrorString "parsing time") end;
  UnmarshalDocker raw := inr (mkDockerAllowArgs raw);
  UnmarshalK8s raw := inr (mkK8sAllowArgs raw);
  UnmarshalUser raw := inr (mkUserAllowArgs raw);
  UnmarshalWho raw := inl (ErrorString "unexpected end of JSON input");
  UnmarshalTokenInfo raw := mkTokenInfoArgs raw;
  UnmarshalRootKey raw := inr (mkRootKeyArgs raw);
  UnmarshalBypass raw := inl (ErrorString "unexpected end of JSON input");
  UnmarshalRevoke raw := inr (mkRevokeArgs sample_key raw)
}.

#[export] Instance sample_node : NodeJSON := {
  DecodeRegister raw := match decodeRegisterArgs raw with
                        | inl e => inl e | inr args => inr (args, "") end;
  DecodeAllow raw := inr (mkAllowArgs raw "" "user" "" "" "alice", "");
  DecodeRevoke raw := inr (mkRevokeArgs "" raw, "");
  DecodeSync raw := inl (ErrorString "unexpected end of JSON input");
  DecodeEmpty rest := Some (ErrorString errEOF);
  MarshalRegister args := "register";
  MarshalDocker args := DockerAllowArgs_Container args;
  MarshalK8s args := K8sAllowArgs_Namespace args;
  MarshalUser args := UserAllowArgs_User args;
  MarshalRevoke args := RevokeArgs_ID args
}.

Definition sample_peer : peer := mkPeer 77 1000 1000 [1000].

(** [gpuardian run] with the key of the sample reservation, while it is active. *)
Definition sample_run : Request := mkRequest "1" "run" (fst (fst sample_answer)) "run".

Definition startedPaths (h : list event) : list (Z * string) :=
  omap (fun e => match e with Started pid path _ => Some (pid, path) | _ => None end) h.
Definition callsOf (h : list event) : list (method * option error) :=
  omap (fun e => match e with Called m err => Some (m, err) | _ => None end) h.

(** * Witnesses *)

(** C28 at a command that runs under the key of the sample reservation: it is
    started in a cgroup of its own. *)
Lemma requests_justified_witness :
  let W := sample_world 2000 [] in
  let s := sample_server sample_store in
  startedPaths (sv_trace (final (serveRequest W false sample_peer sample_run) s)) =
    [(4017, "/cg/auth_5051525354555657")] /\
  lawful W false ∅ (sv_trace (final (serveRequest W false sample_peer sample_run) s)).
Proof.
  split; [vm_compute; reflexivity|].
  exact (requests_justified (sample_world 2000 []) false sample_peer sample_run
           (sample_server sample_store) eq_refl).
Defined.

(** C29 at a reservation over HTTP. *)
Definition sample_post : httpRequest :=
  mkHttpRequest "POST" "/api/v1/reservations" ("Bearer " +:+ sample_key) true 8 []
    (Some "application/json") "register".

Lemma http_requests_justified_witness :
  let W := sample_world 10 [] in
  let s := sample_server sample_loaded in
  let h := sv_trace (final (nodeHTTPHandler W sample_post) s) in
  length (State_Reservations (s_state (sv_Store (final (nodeHTTPHandler W sample_post) s)))) = 2%nat /\
  lawful W true ∅ h /\
  (h = [] \/ exists key rest, bearerToken (h_Authorization sample_post) = Some key /\
                             h = RootKeyAccepted key :: rest).
Proof.
  split; [vm_compute; reflexivity|].
  exact (http_requests_justified (sample_world 10 []) sample_post (sample_server sample_loaded)
           eq_refl).
Defined.

(** C30 at two passes after the sample reservations have ended: they are released
    and pruned. *)
Lemma monitor_justified_witness :
  let W := sample_world 6000 [] in
  let s := sample_server sample_store in
  State_Reservations (s_state (sv_Store (final (monitor W 1) s))) = [] /\
  lawful W false ∅ (sv_trace (final (monitor W 1) s)).
Proof.
  split; [vm_compute; reflexivity|].
  exact (monitor_justified (sample_world 6000 []) 1 (sample_server sample_store) eq_refl).
Defined.

(** A registration, its repetition, a command and a pass, with another
    goroutine that revokes the token meanwhile. *)
Definition sample_tasks : list (World * task) :=
  [(sample_world 10 [], Socket sample_peer (mkRequest "1" "register" "" "register"));
   (sample_world 20 [], HTTP sample_post);
   (sample_world 2000 [inl (MRevoke "alice" 2000)], Socket sample_peer sample_run);
   (sample_world 2100 [], Pass)].

Lemma daemon_rows_sound_witness :
  let st := sv_Store (works false sample_tasks (sample_server sample_loaded)) in
  exclusive (s_state st) /\
  (forall gpu now, (length (filter (fun r => activeOn gpu now r = true)
                              (State_Reservations (s_state st))) <= 1)%nat) /\
  s_state st = s_committed st /\ validateStateBounds (s_state st) = None.
Proof.
  apply (daemon_rows_sound sample_cfg None None None None (fun _ => None)
           (fun n => Z.of_nat n)).
  - reflexivity.
  - intros i j r1 r2 _ E. vm_compute in E. discriminate.
  - reflexivity.
Defined.

(** A reservation request that is repeated. *)

Section replay.
Context `{JSON} `{ArgsJSON} (W : World) (alone : forall n, x_others W n = []) (rows : State).

(** * Computations that leave the rows, and computations that fail on them *)

Definition holds (s : Server) : Prop :=
  s_loaded (sv_Store s) = true /\ s_state (sv_Store s) = rows.
Definition stays {A} (m : M Server A) : Prop := forall s, holds s -> holds (final m s).
Definition refuses {A} (m : M Server A) : Prop := forall s, holds s ->
  holds (final m s) /\ exists e, result m s = inl e.

Lemma refuses_throw {A} e : refuses (throw (A := A) e).
Proof. intros s Hs. split; [done|by exists e]. Qed.

Lemma refuses_bind {A B} (m : M Server A) (k : A -> M Server B) :
  stays m -> (forall x, refuses (k x)) -> refuses (m ≫= k).
Proof.
  intros Hm Hk s Hs. specialize (Hm s Hs). unfold final, result, mbind, M_bind, bind in *.
  destruct (m s) as [[e|x] s1]; cbn in *; [split; [done|by exists e]|]. by apply Hk.
Qed.

Lemma refuses_ret {A B} (x : A) (k : A -> M Server B) : refuses (k x) -> refuses (ret x ≫= k).
Proof. intros F s Hs. apply (F s Hs). Qed.

Lemma refuses_first {A B} (m : M Server A) (k : A -> M Server B) :
  refuses m -> refuses (m ≫= k).
Proof.
  intros Hm s Hs. destruct (Hm s Hs) as [F [e R]].
  unfold final, result, mbind, M_bind, bind in *. destruct (m s) as [[e'|x] s1]; [|done].
  split; [done|by exists e'].
Qed.

Lemma refuses_checked {A} e (k : unit -> M Server A) :
  (e = None -> refuses (k tt)) -> refuses (check e ≫= k).
Proof. destruct e; intros F; [by apply refuses_first, refuses_throw|by apply F]. Qed.

Lemma refuses_unless {A} b e (k : unit -> M Server A) :
  (b = false -> refuses (k tt)) -> refuses (fail_if b e ≫= k).
Proof. destruct b; intros F; [by apply refuses_first, refuses_throw|by apply F]. Qed.

Lemma stays_bind {A B} (m : M Server A) (k : A -> M Server B) :
  stays m -> (forall x, stays (k x)) -> stays (m ≫= k).
Proof.
  intros Hm Hk s Hs. specialize (Hm s Hs). unfold final, mbind, M_bind, bind in *.
  destruct (m s) as [[e|x] s1]; [done|]. by apply Hk.
Qed.

Lemma stays_plain {A} (m : M Server A) :
  (forall s, sv_Store (final m s) = sv_Store s) -> stays m.
Proof. intros E s. unfold holds. by rewrite E. Qed.

Lemma interfere_alone s : sv_Store (final (interfere W) s) = sv_Store s.
Proof using alone. cbn. by rewrite alone. Qed.

Lemma stays_onStore {A} (m : M Store A) : frame m -> stays (onStore W m).
Proof using alone.
  intros F. apply stays_bind; [apply stays_plain, interfere_alone|]. intros _ s [L E].
  specialize (F (sv_Store s)). unfold holds, lift, final, mem in *.
  destruct (m (sv_Store s)) as [r st]. cbn in *. split; congruence.
Qed.

Lemma stays_Now : stays (Now W).
Proof. by apply stays_plain. Qed.

Lemma stays_requireRootKey key : stays (requireRootKey_ W key).
Proof using alone.
  apply stays_bind; [apply stays_onStore; auto with store|]. intros [].
  - by apply stays_plain.
  - intros s Hs. exact Hs.
Qed.

(** The snapshot of a loaded store shows its reservations. *)
Lemma snapshot_rows {A} (k : State -> M Server A) :
  (forall state, State_Reservations state = State_Reservations rows -> refuses (k state)) ->
  refuses (EnforcementSnapshot_ W ≫= k).
Proof using alone.
  intros Hk s Hs.
  pose (s1 := final (interfere W) s).
  assert (holds s1) as [L1 E1] by (by apply (stays_plain _ interfere_alone)).
  pose (state := cloneEnforcementState (s_state (sv_Store s1))).
  pose (s2 := set_trace (sv_trace (set_Store (sv_Store s1) s1) ++ [Snapshotted state])
                (set_Store (sv_Store s1) s1)).
  assert ((EnforcementSnapshot_ W ≫= k) s = k state s2) as Q.
  { unfold EnforcementSnapshot_, onStore, mbind, M_bind, bind, lift.
    change (interfere W s) with (@inr error unit tt, s1). cbn [fst snd].
    unfold EnforcementSnapshot. change (sv_Store (final (interfere W) s)) with (sv_Store s1) in *.
    cbn [sv_Store set_Store]. rewrite load_skip by exact L1. done. }
  assert (holds s2) as H2 by done. destruct (Hk state) with (s := s2) as [F [e R]]; [|done|].
  { change (State_Reservations (s_state (sv_Store s1)) = State_Reservations rows). by rewrite E1. }
  unfold final, result in *. rewrite Q. split; [done|by exists e].
Qed.

(** * The window of a reservation that is already there *)

Context (r : Reservation) (startsAt expiresAt : time).
Context (present : r ∈ State_Reservations rows).
Context (overlaps : ReservationOverlaps r startsAt expiresAt = true).
Context (starts : IsZero startsAt = false).

Lemma refuses_window gpus :
  Reservation_GPU r ∈ gpus -> refuses (ensureGPUsCanReserveWindow W gpus startsAt expiresAt).
Proof using alone present overlaps starts.
  intros G. unfold ensureGPUsCanReserveWindow. apply refuses_checked. intros _. cbv zeta.
  unfold UTC. rewrite starts. apply refuses_ret, refuses_unless. intros _.
  apply refuses_bind; [apply stays_Now|]. intros now. apply refuses_unless. intros _.
  apply snapshot_rows. intros state E. apply refuses_checked.
  destruct (find _ _) as [found|] eqn:F; [done|]. intros _. exfalso.
  assert (r ∈ State_Reservations state) as I by by rewrite E.
  apply list_elem_of_In, (find_none _ _ F) in I. unfold overlapping in I.
  by rewrite gpuSet_mem, overlaps in I.
Qed.

(** A repeated registration is refused.  The store answers a registration
    that repeats an external session with the rows and the secret it already
    issued, but the daemon does not get that far: with no other goroutine at
    work, a reserving registration for a window that a live reservation on one
    of its GPUs overlaps, and so every repetition of one that succeeded, fails
    and leaves the rows as they are, whatever external session it names. *)
Theorem replayed_registration_refused args now s :
  holds s -> NormalizeTokenMode (RegisterArgs_Mode args) = TokenModeReserved ->
  RegisterArgs_StartsAt args = Some startsAt -> RegisterArgs_ExpiresAt args = Some expiresAt ->
  IsZero expiresAt = false -> Reservation_GPU r ∈ RegisterArgs_GPUs args ->
  (exists e, result (register W args now) s = inl e) /\
  s_state (sv_Store (final (register W args now) s)) = rows.
Proof using alone present overlaps starts.
  intros Hs Mo St En Ze G.
  assert (refuses (register W args now)) as R.
  { unfold register. cbv zeta. do 4 (first [apply refuses_unless|apply refuses_checked]; intros _).
    apply refuses_bind; [apply stays_requireRootKey|]. intros []. rewrite Mo. cbn [String.eqb].
    change (TokenModeReserved =s TokenModeReserved) with true.
    unfold registerReserved. apply refuses_checked. intros _. cbv zeta. rewrite St.
    unfold reservationEnd. rewrite En. unfold UTC. rewrite Ze. apply refuses_ret, refuses_unless.
    intros _.
    assert (forall (m : M Server RegisterResult), refuses m -> refuses (holding m)) as Hold.
    { intros m Rm. apply refuses_bind; [by apply stays_plain|]. intros _.
      apply refuses_bind; [by apply stays_plain|]. intros _ s' Hs'.
      destruct (Rm s' Hs') as [F [e E]]. unfold final, result, try, mbind, M_bind, bind in *.
      destruct (m s') as [[e'|x] s1]; [|done]. cbn in *. split; [done|by exists e']. }
    apply Hold, refuses_first. by apply refuses_window. }
  destruct (R s Hs) as [[_ F] E]. by split.
Qed.

End replay.

(** * Witness *)

Definition sample_register : RegisterArgs :=
  mkRegisterArgs sample_key "reserved" "alice" "train" "job-7" "" [0; 3] "" (Some 1000) (Some 5000).
Definition sample_reservation : option Reservation := Eval vm_compute in
  List.head (snd sample_answer).

(** C34 on the sample store, which answers the repetition itself. *)
Lemma replayed_registration_refused_witness :
  let s := sample_server sample_store in
  let W := sample_world 10 [] in
  succeeds (RegisterScheduledReservationsWithSession sample_key "alice" "train" "job-7" [0; 3]
              1000 5000 10) sample_store = true /\
  (exists e, result (register W sample_register 10) s = inl e) /\
  s_state (sv_Store (final (register W sample_register 10) s)) = s_state sample_store.
Proof.
  split; [vm_compute; reflexivity|].
  destruct sample_reservation as [r|] eqn:E; [|discriminate].
  apply (replayed_registration_refused (sample_world 10 []) (fun _ => eq_refl)
           (s_state sample_store) r 1000 5000).
  - injection E as <-. apply list_elem_of_In. vm_compute. by left.
  - injection E as <-. vm_compute. reflexivity.
  - reflexivity.
  - split; vm_compute; reflexivity.
  - vm_compute. reflexivity.
  - reflexivity.
  - reflexivity.
  - reflexivity.
  - injection E as <-. by left.
Defined.
