(* ===== verification/DaemonCgroup.v ===== *)
(** Two facts behind the monitor's releases: its counters say in how many assessments
    in a row, up to the last, a scope was found without a process; and the cgroups the
    daemon stops and removes are those strictly below the configured root, component
    by component. *)

From S2P Require Export DaemonMonitor Daemon.
From S2P Require Import EnforceMatch DaemonSafety.

(** * The runs of clean assessments *)

(** How many assessments at the end of the list find the scope clean. *)
Fixpoint leading (cleanIn : EvictionAssessment -> option bool) (latest : list EvictionAssessment)
    : Z :=
  match latest with
  | [] => 0
  | a :: earlier => match cleanIn a with Some true => leading cleanIn earlier + 1 | _ => 0 end
  end.
Definition streak cleanIn (assessments : list EvictionAssessment) : Z :=
  leading cleanIn (rev assessments).

(** What an assessment says of a scope, by the kind of its row. *)
Definition cleanIn (kind id : string) (a : EvictionAssessment) : option bool :=
  if kind =s "authorization" then as_Authorizations a !! id
  else if kind =s "lease" then as_Leases a !! id
  else None.

Definition scopeKey (kind id : string) : string := kind +:+ ":" +:+ id.

(** * One assessment *)

Lemma prefix_inj (p s t : string) : p +:+ s = p +:+ t -> s = t.
Proof. induction p as [|c p IH]; intros E; [done|]. injection E as E. by apply IH. Qed.

Lemma countSamples_lookup kind assessed counts key :
  (forall id, key <> kind +:+ id) -> countSamples kind assessed counts !! key = counts !! key.
Proof.
  intros N. unfold countSamples.
  apply (map_fold_weak_ind (fun acc _ => acc !! key = counts !! key)); [done|].
  intros id clean m acc _ IH. by rewrite lookup_insert_ne by (intros E; by apply (N id)).
Qed.

Lemma countSamples_own kind assessed counts id :
  countSamples kind assessed counts !! (kind +:+ id) =
  match assessed !! id with
  | Some true => Some (default 0 (counts !! (kind +:+ id)) + 1)
  | Some false => Some 0
  | None => counts !! (kind +:+ id)
  end.
Proof.
  unfold countSamples.
  apply (map_fold_weak_ind (fun acc m => acc !! (kind +:+ id) =
    match m !! id with
    | Some true => Some (default 0 (counts !! (kind +:+ id)) + 1)
    | Some false => Some 0
    | None => counts !! (kind +:+ id)
    end)); [by rewrite lookup_empty|].
  intros i clean m acc Fr IH. destruct (decide (i = id)) as [->|N].
  - rewrite !lookup_insert_eq. rewrite Fr in IH. by rewrite IH; destruct clean.
  - rewrite (lookup_insert_ne m i id) by done. rewrite lookup_insert_ne; [done|].
    intros E. by apply prefix_inj in E.
Qed.

Lemma seenKeys_lookup kind assessed seen key :
  (forall id, key <> kind +:+ id) -> seenKeys kind assessed seen !! key = seen !! key.
Proof.
  intros N. unfold seenKeys.
  apply (map_fold_weak_ind (fun acc _ => acc !! key = seen !! key)); [done|].
  intros id clean m acc _ IH. by rewrite lookup_insert_ne by (intros E; by apply (N id)).
Qed.

Lemma seenKeys_own kind assessed seen id :
  seenKeys kind assessed seen !! (kind +:+ id) =
  match assessed !! id with Some _ => Some true | None => seen !! (kind +:+ id) end.
Proof.
  unfold seenKeys.
  apply (map_fold_weak_ind (fun acc m => acc !! (kind +:+ id) =
    match m !! id with Some _ => Some true | None => seen !! (kind +:+ id) end));
    [by rewrite lookup_empty|].
  intros i clean m acc Fr IH. destruct (decide (i = id)) as [->|N].
  - by rewrite !lookup_insert_eq.
  - rewrite (lookup_insert_ne m i id) by done. rewrite lookup_insert_ne; [done|].
    intros E. by apply prefix_inj in E.
Qed.

Lemma lookup_seen (seen : gmap string bool) (counts : gmap string Z) key :
  filter (fun kv => mem_bool seen kv.1 = true) counts !! key =
  if mem_bool seen key then counts !! key else None.
Proof.
  destruct (mem_bool seen key) eqn:S.
  - destruct (counts !! key) as [n|] eqn:C.
    + by apply map_lookup_filter_Some.
    + apply map_lookup_filter_None. by left.
  - apply map_lookup_filter_None. right. intros n _. cbn. congruence.
Qed.

(** The counter of a scope after an assessment, from its counter before. *)
Lemma recordAssessment_count kind id a counts :
  kind = "authorization" \/ kind = "lease" ->
  default 0 (recordAssessment a counts !! scopeKey kind id) =
  match cleanIn kind id a with
  | Some true => default 0 (counts !! scopeKey kind id) + 1
  | _ => 0
  end.
Proof.
  intros K. unfold recordAssessment. rewrite lookup_seen. unfold mem_bool.
  destruct K as [-> | ->]; unfold cleanIn; cbn [String.eqb Ascii.eqb Bool.eqb].
  - change (scopeKey "authorization" id) with ("authorization:" +:+ id).
    assert (forall i, "authorization:" +:+ id <> "lease:" +:+ i) as N by discriminate.
    rewrite seenKeys_lookup, seenKeys_own by done. rewrite countSamples_lookup by done.
    rewrite countSamples_own.
    destruct (as_Authorizations a !! id) as [[]|]; [done..|by rewrite lookup_empty].
  - change (scopeKey "lease" id) with ("lease:" +:+ id).
    assert (forall i, "lease:" +:+ id <> "authorization:" +:+ i) as N by discriminate.
    rewrite seenKeys_own. rewrite seenKeys_lookup by done. rewrite countSamples_own.
    rewrite countSamples_lookup by done.
    destruct (as_Leases a !! id) as [[]|]; [done..|by rewrite lookup_empty].
Qed.

Definition countsOf (assessments : list EvictionAssessment) : gmap string Z :=
  foldl (fun counts a => recordAssessment a counts) ∅ assessments.

Lemma countsOf_streak kind id assessments :
  kind = "authorization" \/ kind = "lease" ->
  default 0 (countsOf assessments !! scopeKey kind id) = streak (cleanIn kind id) assessments.
Proof.
  intros K. unfold countsOf, streak. induction assessments as [|a l IH] using rev_ind.
  - cbn. by rewrite lookup_empty.
  - rewrite foldl_app, rev_app_distr. cbn. rewrite recordAssessment_count by done.
    by rewrite IH.
Qed.

Section ready.
Context (counts : list EvictionAssessment).

(** A scope is ready to be released exactly when the last three assessments
    found it clean: the counters that the monitor keeps over its passes, with
    the scopes that an assessment does not mention starting again, equal the
    number of clean assessments in a row up to the last one. *)
Theorem ready_after_three_clean_assessments kind id s :
  kind = "authorization" \/ kind = "lease" -> sv_evictionClean s = countsOf counts ->
  result (evictionScopeReady kind id) s = inr (3 <=? streak (cleanIn kind id) counts) /\
  final (evictionScopeReady kind id) s = s.
Proof.
  intros K E. unfold evictionScopeReady, result, final, gets. cbn. split; [|done].
  rewrite E. change (kind +:+ ":" +:+ id) with (scopeKey kind id).
  by rewrite countsOf_streak.
Qed.

End ready.

(** C32 at four assessments, of which the second found the authorization busy. *)
Definition sample_assessment (clean : bool) : EvictionAssessment :=
  mkAssessment {[ "auth_1" := clean ]} {[ "lease_1" := true ]}.

Lemma ready_after_three_clean_assessments_witness :
  let counts := map sample_assessment [true; false; true; true] in
  let s := set_evictionClean (countsOf counts)
    (mkServer (New (mkStoreConfig "" "" "") None None None None (fun _ => None) (fun _ => 0)) 0
       false ∅ ("", zeroTime) ("", zeroTime) None zeroTime ∅ ∅ []) in
  streak (cleanIn "authorization" "auth_1") counts = 2 /\
  streak (cleanIn "lease" "lease_1") counts = 4 /\
  result (evictionScopeReady "lease" "lease_1") s =
    inr (3 <=? streak (cleanIn "lease" "lease_1") counts) /\
  final (evictionScopeReady "lease" "lease_1") s = s.
Proof.
  split; [vm_compute; reflexivity|]. split; [vm_compute; reflexivity|].
  apply (ready_after_three_clean_assessments (map sample_assessment [true; false; true; true])
           "lease" "lease_1"); [by right|reflexivity].
Defined.

From Stdlib Require Import Ascii.

(** * Clean paths *)

(** The components an absolute path leads through. *)
Definition pathOf (path : string) : list string :=
  rev (foldl (cleanStep true) [] (Split path "/"%char)).

Definition proper (c : string) : Prop := component c /\ c <> "." /\ c <> "..".

Lemma Split_app c s : (forall a b, c <> a +:+ String "/"%char b) ->
  Split (c +:+ String "/"%char s) "/"%char = c :: Split s "/"%char.
Proof.
  induction c as [|k c IH]; intros F; [done|].
  change (String k c +:+ String "/" s) with (String k (c +:+ String "/" s)). cbn [Split].
  destruct (Ascii.eqb_spec k "/"%char) as [->|N]; [by destruct (F "" c)|].
  rewrite IH; [done|]. intros a b E. apply (F (String k a) b). by rewrite E.
Qed.

Lemma Split_single c : (forall a b, c <> a +:+ String "/"%char b) -> Split c "/"%char = [c].
Proof.
  induction c as [|k c IH]; intros F; [done|]. cbn [Split].
  destruct (Ascii.eqb_spec k "/"%char) as [->|N]; [by destruct (F "" c)|].
  rewrite IH; [done|]. intros a b E. apply (F (String k a) b). by rewrite E.
Qed.

Lemma Split_Join cs : Forall component cs -> cs <> [] -> Split (Join cs "/") "/"%char = cs.
Proof.
  induction 1 as [|c cs [N F] Fcs IH]; intros NE; [done|]. destruct cs as [|d cs].
  - by apply Split_single.
  - change (Join (c :: d :: cs) "/") with (c +:+ String "/"%char (Join (d :: cs) "/")).
    rewrite Split_app by done. by rewrite IH.
Qed.

Lemma Split_absolutePath cs : Forall component cs -> cs <> [] ->
  Split (absolutePath cs) "/"%char = "" :: cs.
Proof.
  intros F N. change (absolutePath cs) with (String "/"%char (Join cs "/")).
  transitivity ("" :: Split (Join cs "/") "/"%char); [done|]. by rewrite Split_Join.
Qed.

Lemma proper_component cs : Forall proper cs -> Forall component cs.
Proof. intros F. eapply Forall_impl; [exact F|]. by intros c [? _]. Qed.

Lemma cleanStep_proper cs : Forall proper cs -> forall kept,
  foldl (cleanStep true) kept cs = rev cs ++ kept.
Proof.
  induction 1 as [|c cs [[N _] [N1 N2]] F IH]; intros kept; [done|]. cbn.
  assert (cleanStep true kept c = c :: kept) as ->.
  { unfold cleanStep. apply String.eqb_neq in N, N1, N2. by rewrite N, N1, N2. }
  by rewrite IH, <- app_assoc.
Qed.

Lemma cleaned_proper parts : forall kept,
  Forall (fun p => forall a b, p <> a +:+ String "/"%char b) parts ->
  Forall proper kept -> Forall proper (foldl (cleanStep true) kept parts).
Proof.
  induction parts as [|p parts IH]; intros kept F K; [done|]. cbn.
  inversion_clear F as [|? ? Fp Fps]. apply IH; [done|]. unfold cleanStep.
  destruct (String.eqb_spec p "") as [|NE]; cbn; [done|].
  destruct (String.eqb_spec p ".") as [|N1]; cbn; [done|].
  destruct (String.eqb_spec p "..") as [|N2]; [|by repeat constructor].
  destruct K as [|l kept [[_ _] [_ N]] Kk]; [constructor|].
  apply String.eqb_neq in N. by rewrite N.
Qed.

Lemma pathOf_proper path : Forall proper (pathOf path).
Proof. apply Forall_rev, cleaned_proper; [apply Split_no_sep|constructor]. Qed.

Lemma Clean_absolute path : IsAbs path = true -> Clean path = absolutePath (pathOf path).
Proof.
  unfold IsAbs, Clean, absolutePath, pathOf. intros A. rewrite A.
  destruct (String.eqb_spec path "") as [->|]; done.
Qed.

Lemma pathOf_absolutePath cs : Forall proper cs -> pathOf (absolutePath cs) = cs.
Proof.
  intros F. unfold pathOf. destruct cs as [|c cs]; [done|].
  rewrite Split_absolutePath; [|by apply proper_component|done].
  change (foldl (cleanStep true) [] ("" :: c :: cs)) with (foldl (cleanStep true) [] (c :: cs)).
  by rewrite cleanStep_proper, app_nil_r, rev_involutive.
Qed.

Lemma components_absolutePath cs : Forall proper cs -> components (absolutePath cs) = cs.
Proof.
  intros F. unfold components. destruct cs as [|c cs]; [done|].
  rewrite Split_absolutePath; [|by apply proper_component|done].
  rewrite filter_cons_False by auto. revert F. generalize (c :: cs) as l. clear. intros l.
  induction 1 as [|c l [[N _] _] F IH]; [done|]. rewrite filter_cons_True by done. by rewrite IH.
Qed.

(** * The way from the root *)

Lemma stripCommon_spec xs ys :
  let '(up, down) := stripCommon xs ys in
  exists common, xs = common ++ up /\ ys = common ++ down /\
    match up, down with b :: _, t :: _ => b <> t | _, _ => True end.
Proof.
  revert ys. induction xs as [|x xs IH]; intros [|y ys]; cbn.
  1-3: by exists [].
  destruct (String.eqb_spec x y) as [->|N]; [|by exists []].
  specialize (IH ys). destruct (stripCommon xs ys) as [up down].
  destruct IH as (common & -> & -> & D). by exists (y :: common).
Qed.

Definition leadsDown (relative : string) : bool :=
  (relative <>s ".") && (relative <>s "") && (relative <>s "..") &&
  negb (HasPrefix relative "../").

Lemma leadsDown_up (up down : list string) : leadsDown (Join (".." :: app (map (fun _ => "..") up) down) "/") = false.
Proof.
  destruct (app (map (fun _ : string => "..") up) down) as [|c l]; [done|].
  change (Join (".." :: c :: l) "/") with ("../" +:+ Join (c :: l) "/").
  unfold leadsDown. rewrite HasPrefix_app. by rewrite !andb_false_r.
Qed.

Lemma leadsDown_down c down : proper c -> leadsDown (Join (c :: down) "/") = true.
Proof.
  intros [C [N1 N2]]. assert (exists s, boundary s /\ Join (c :: down) "/" = c +:+ s) as (s & B & ->).
  { destruct down as [|d down]; [exists ""|exists ("/" +:+ Join (d :: down) "/")].
    - split; [by left|]. by rewrite string_app_nil_r.
    - split; [|done]. right. by eexists. }
  assert (forall d, component d -> c <> d -> forall t, boundary t -> c +:+ s <> d +:+ t) as Ne.
  { intros d Cd N t Bt E. destruct (component_split c d s t); try done. }
  assert (component "." /\ component "..") as [D1 D2].
  { split; split; try done; intros [|? [|? [|? ?]]] b; done. }
  unfold leadsDown. rewrite !andb_true_iff, !negb_true_iff, !String.eqb_neq. split_and!.
  - intros E. apply (Ne "." D1 N1 ""); [by left|done].
  - destruct C as [NE _]. by destruct c.
  - intros E. apply (Ne ".." D2 N2 ""); [by left|done].
  - apply not_true_iff_false. intros [r E]%HasPrefix_iff.
    apply (Ne ".." D2 N2 ("/" +:+ r)); [right; by eexists|done].
Qed.

Lemma PathRel_down xs ys : Forall proper xs -> Forall proper ys ->
  leadsDown (PathRel (absolutePath xs) (absolutePath ys)) = true <->
  exists rest, rest <> [] /\ ys = xs ++ rest.
Proof.
  intros Fx Fy. unfold PathRel.
  destruct (String.eqb_spec (absolutePath ys) (absolutePath xs)) as [E|N].
  - split; [done|]. intros (rest & NE & ->). exfalso. apply (f_equal components) in E.
    rewrite !components_absolutePath in E by done.
    apply (f_equal length) in E. rewrite length_app in E. destruct rest; [done|]. cbn in E. lia.
  - rewrite !components_absolutePath by done. pose proof (stripCommon_spec xs ys) as S.
    destruct (stripCommon xs ys) as [up down]. destruct S as (common & -> & -> & D).
    apply Forall_app in Fx as [Fc Fu]. apply Forall_app in Fy as [_ Fd].
    destruct up as [|u up]; cbn [map app].
    + rewrite app_nil_r in *. destruct down as [|d down]; [by rewrite app_nil_r in N|].
      split; [intros _; by exists (d :: down)|]. intros _. apply leadsDown_down. by inversion Fd.
    + rewrite leadsDown_up. split; [done|]. intros (rest & NE & E).
      rewrite <- app_assoc in E. apply app_inv_head in E. subst down.
      cbn in D. done.
Qed.

(** Only cgroups of the configured subtree are managed.  For absolute paths
    the test that guards every kill and every removal never fails, and holds
    exactly of the paths that lead strictly below the root, whatever dots,
    double slashes and climbing components either path is written with. *)
Theorem managed_cgroups_below_root W root candidate :
  IsAbs root = true -> IsAbs candidate = true ->
  exists managed, cgroupPathWithinRoot W root candidate = inr managed /\
    (managed = true <-> exists rest, rest <> [] /\ pathOf candidate = pathOf root ++ rest).
Proof.
  intros Ar Ac.
  assert (forall path, IsAbs path = true ->
    PathAbs (x_Getwd W) (Clean path) = inr (absolutePath (pathOf path))) as P.
  { intros path A. rewrite Clean_absolute by done. unfold PathAbs.
    assert (IsAbs (absolutePath (pathOf path)) = true) as A' by (apply HasPrefix_app).
    rewrite A', Clean_absolute by done. rewrite pathOf_absolutePath by apply pathOf_proper. done. }
  unfold cgroupPathWithinRoot. rewrite !P by done. eexists. split; [done|].
  apply PathRel_down; apply pathOf_proper.
Qed.

(** C35 at two paths, written in a roundabout way. *)
Lemma managed_cgroups_below_root_witness :
  let W := sample_world 10 [] in
  (exists managed, cgroupPathWithinRoot W "/cg" "//cg/./run_1/" = inr managed /\
     (managed = true <-> exists rest, rest <> [] /\ pathOf "//cg/./run_1/" = pathOf "/cg" ++ rest)) /\
  (exists managed, cgroupPathWithinRoot W "/cg" "/cg/../cgx/run_1" = inr managed /\
     (managed = true <->
        exists rest, rest <> [] /\ pathOf "/cg/../cgx/run_1" = pathOf "/cg" ++ rest)).
Proof. split; apply managed_cgroups_below_root; reflexivity. Defined.
