(* ===== verification/GoBase64.v ===== *)
(** encoding/base64: [base64.RawURLEncoding] and [base64.RawStdEncoding], both
    without padding, and that decoding inverts encoding. *)

From S2P Require Export StringFacts.
From Stdlib Require Import Ascii.

Inductive encoding : Type := RawURLEncoding | RawStdEncoding.

(** The characters that stand for 62 and 63. *)
Definition char62 (enc : encoding) : Z := match enc with RawURLEncoding => 45 | RawStdEncoding => 43 end.
Definition char63 (enc : encoding) : Z := match enc with RawURLEncoding => 95 | RawStdEncoding => 47 end.

(** The six-bit value of a character of the alphabet. *)
Definition b64_value (enc : encoding) (c : ascii) : option Z :=
  let v := byte_val c in
  if (65 <=? v) && (v <=? 90) then Some (v - 65)
  else if (97 <=? v) && (v <=? 122) then Some (v - 71)
  else if (48 <=? v) && (v <=? 57) then Some (v + 4)
  else if v =? char62 enc then Some 62
  else if v =? char63 enc then Some 63
  else None.

Definition b64_digit (enc : encoding) (z : Z) : ascii :=
  byte_of (if z <? 26 then z + 65 else if z <? 52 then z + 71 else if z <? 62 then z - 4
           else if z =? 62 then char62 enc else char63 enc).

Fixpoint b64_chars (enc : encoding) (l : list Z) : string :=
  match l with
  | [] => EmptyString
  | z :: r => String (b64_digit enc z) (b64_chars enc r)
  end.

(** The sextets of a byte list; a final group of one or two bytes is completed
    with zero bits. *)
Fixpoint b64_sextets (bs : list Z) : list Z :=
  match bs with
  | a :: b :: c :: r =>
      a / 4 :: a mod 4 * 16 + b / 16 :: b mod 16 * 4 + c / 64 :: c mod 64 :: b64_sextets r
  | [a; b] => [a / 4; a mod 4 * 16 + b / 16; b mod 16 * 4]
  | [a] => [a / 4; a mod 4 * 16]
  | [] => []
  end.

(** [EncodeToString]. *)
Definition EncodeToString (enc : encoding) (data : string) : string :=
  b64_chars enc (b64_sextets (bytes_of_string data)).

(** The decoder ignores line breaks, and the surplus bits of a last group. *)
Fixpoint b64_values (enc : encoding) (s : string) : option (list Z) :=
  match s with
  | EmptyString => Some []
  | String c r =>
      if (byte_val c =? 10) || (byte_val c =? 13) then b64_values enc r
      else match b64_value enc c, b64_values enc r with
           | Some z, Some l => Some (z :: l)
           | _, _ => None
           end
  end.

Fixpoint b64_quanta (l : list Z) : option (list Z) :=
  match l with
  | a :: b :: c :: d :: r =>
      match b64_quanta r with
      | Some bs => Some (a * 4 + b / 16 :: b mod 16 * 16 + c / 4 :: c mod 4 * 64 + d :: bs)
      | None => None
      end
  | [a; b; c] => Some [a * 4 + b / 16; b mod 16 * 16 + c / 4]
  | [a; b] => Some [a * 4 + b / 16]
  | [_] => None
  | [] => Some []
  end.

(** [DecodeString], [None] standing for its error. *)
Definition DecodeString (enc : encoding) (s : string) : option string :=
  match b64_values enc s with
  | Some l => option_map string_of_bytes (b64_quanta l)
  | None => None
  end.

(** * Decoding what was encoded *)

Definition sextet (z : Z) : Prop := 0 <= z < 64.

Lemma b64_value_digit enc z : sextet z ->
  b64_value enc (b64_digit enc z) = Some z /\
  (byte_val (b64_digit enc z) =? 10) || (byte_val (b64_digit enc z) =? 13) = false /\
  visible (b64_digit enc z) = true /\ b64_digit enc z <> "."%char.
Proof.
  intros S. assert (In z (map Z.of_nat (seq 0 64))) as I.
  { apply in_map_iff. exists (Z.to_nat z). unfold sextet in S. rewrite in_seq. split; lia. }
  cbn -[b64_value b64_digit] in I.
  repeat destruct I as [<-|I]; try (destruct enc; repeat apply conj; first [reflexivity|vm_compute; discriminate]). done.
Qed.

Lemma b64_values_chars enc l : Forall sextet l -> b64_values enc (b64_chars enc l) = Some l.
Proof.
  induction 1 as [|z l S _ IH]; [done|]. cbn.
  destruct (b64_value_digit enc z S) as (-> & -> & _). by rewrite IH.
Qed.

Ltac divmod := Z.to_euclidean_division_equations; lia.

Lemma list_ind3 {A} (P : list A -> Prop) :
  P [] -> (forall a, P [a]) -> (forall a b, P [a; b]) ->
  (forall a b c l, P l -> P (a :: b :: c :: l)) -> forall l, P l.
Proof.
  intros H0 H1 H2 H3. assert (forall n l, (length l <= n)%nat -> P l) as G.
  { induction n as [|n IH]; intros l N.
    - by destruct l; cbn in N; [|lia].
    - destruct l as [|a [|b [|c l]]]; auto. apply H3, IH. cbn in N. lia. }
  intros l. by apply (G (length l)).
Qed.

Lemma b64_sextets_range bs : byte_list bs -> Forall sextet (b64_sextets bs).
Proof.
  unfold byte_list, sextet. induction bs as [|a|a b|a b c l IH] using list_ind3; intros B;
    repeat match goal with H : Forall _ (_ :: _) |- _ => inversion_clear H end;
    cbn; repeat constructor; try divmod. by apply IH.
Qed.

Lemma b64_quanta_sextets bs : byte_list bs -> b64_quanta (b64_sextets bs) = Some bs.
Proof.
  unfold byte_list. induction bs as [|a|a b|a b c l IH] using list_ind3; intros B;
    repeat match goal with H : Forall _ (_ :: _) |- _ => inversion_clear H end;
    cbn; [done|..].
  - repeat f_equal; divmod.
  - repeat f_equal; divmod.
  - rewrite IH by done. repeat f_equal; divmod.
Qed.

Lemma DecodeString_Encode enc s : DecodeString enc (EncodeToString enc s) = Some s.
Proof.
  unfold DecodeString, EncodeToString. pose proof (bytes_of_string_range s) as B.
  rewrite b64_values_chars by by apply b64_sextets_range.
  rewrite b64_quanta_sextets by done. cbn. by rewrite string_of_bytes_of.
Qed.

(** Three bytes become four characters. *)
Lemma slen_EncodeToString enc s : 3 * slen (EncodeToString enc s) <= 4 * slen s + 2.
Proof.
  assert (forall l, slen (b64_chars enc l) = llen l) as C.
  { induction l as [|z l IH]; [done|]. unfold slen, llen in *. cbn. lia. }
  assert (forall t, llen (bytes_of_string t) = slen t) as D.
  { induction t as [|c t IH]; [done|]. unfold slen, llen in *. cbn. lia. }
  unfold EncodeToString. rewrite C, <- (D s). generalize (bytes_of_string s). intros l.
  induction l as [|a|a b|a b c l IH] using list_ind3; unfold llen in *; cbn in *; lia.
Qed.

Example rawurl_example : EncodeToString RawURLEncoding (string_of_bytes [251; 255; 254; 1]) = "-__-AQ".
Proof. vm_compute. reflexivity. Qed.
