(* ===== verification/Outbox.v ===== *)
(** internal/telemetry/telemetry.go, the outbox: events are numbered, appended to
    segment files, served to the consumers page by page, and dropped segment by
    segment when they are too old or too many.

    The outbox's methods are values of [M Box], where a [Box] is an [Outbox] and
    the machine under it.  Each system call asks the oracle [k_os] whether it
    fails; a write that fails may have written a part of its bytes.  The paths of
    segments are relative to the outbox's directory. *)

From S2P Require Export Telemetry GoBase64 GoConv.

Definition SchemaVersion : Z := 1.
Definition DefaultPageLimit : Z := 128.
Definition MaxPageLimit : Z := 256.
Definition MaxPageBytes : Z := Z.shiftl 1 20.
Definition maxSegmentBytes : Z := Z.shiftl 8 20.
Definition maxSegmentAge : duration := Hour.
Definition maxOutboxBytes : Z := Z.shiftl 256 20.
Definition maxRetention : duration := 24 * Hour.

(** [uint64] arithmetic wraps around. *)
Definition u64 (z : Z) : Z := z mod 2 ^ 64.

(** * Data *)

Record Event : Type := mkEvent
  { Event_Seq : Z; Event_OccurredAt : time; Event_BootID : string; Event_Type : string;
    Event_Payload : string }.

Record Page : Type := mkPage
  { Page_SchemaVersion : Z; Page_NodeID : string; Page_StreamID : string; Page_BootID : string;
    Page_Events : list Event; Page_NextCursor : string; Page_HasMore : bool;
    Page_EarliestSeq : Z; Page_LatestSeq : Z }.

Record CursorGap : Type := mkCursorGap
  { CursorGap_Code : string; CursorGap_Reason : string; CursorGap_StreamID : string;
    CursorGap_ResumeCursor : string; CursorGap_EarliestSeq : Z; CursorGap_LatestSeq : Z;
    CursorGap_FirstRetainedAt : time }.

Record storedEvent : Type := mkStoredEvent
  { storedEvent_Event : Event; storedEvent_segment : string }.

Record segment : Type := mkSegment
  { segment_path : string; segment_first : Z; segment_last : Z; segment_size : Z;
    segment_created : time }.

Record cursor : Type := mkCursor
  { cursor_Version : Z; cursor_StreamID : string; cursor_Seq : Z }.

(** An [os.File] open for writing: the path it was opened at, and whether it was
    closed since. *)
Record osFile : Type := mkOsFile { osFile_path : string; osFile_closed : bool }.

Record Outbox : Type := mkOutbox
  { o_nodeID : string; o_streamID : string; o_bootID : string; o_nextSeq : Z;
    o_events : list storedEvent; o_segments : list segment; o_current : option osFile }.

Definition o_set_streamID (x : string) (o : Outbox) : Outbox :=
  mkOutbox (o_nodeID o) x (o_bootID o) (o_nextSeq o) (o_events o) (o_segments o) (o_current o).
Definition o_set_nextSeq (x : Z) (o : Outbox) : Outbox :=
  mkOutbox (o_nodeID o) (o_streamID o) (o_bootID o) x (o_events o) (o_segments o) (o_current o).
Definition o_set_events (x : list storedEvent) (o : Outbox) : Outbox :=
  mkOutbox (o_nodeID o) (o_streamID o) (o_bootID o) (o_nextSeq o) x (o_segments o) (o_current o).
Definition o_set_segments (x : list segment) (o : Outbox) : Outbox :=
  mkOutbox (o_nodeID o) (o_streamID o) (o_bootID o) (o_nextSeq o) (o_events o) x (o_current o).
Definition o_set_current (x : option osFile) (o : Outbox) : Outbox :=
  mkOutbox (o_nodeID o) (o_streamID o) (o_bootID o) (o_nextSeq o) (o_events o) (o_segments o) x.

(** The types of the events: [EventDaemonStarted] and its siblings. *)
Definition EventType (e : TelemetryEvent) : string :=
  match e with
  | EventDaemonStarted _ => "daemon.started"
  | EventReservationUpsert _ => "reservation.upsert"
  | EventReservationEnded _ => "reservation.ended"
  | EventAuthorizationUpsert _ => "authorization.upsert"
  | EventAuthorizationEnded _ => "authorization.ended"
  | EventJobStarted _ => "job.started"
  | EventJobUpdated _ => "job.updated"
  | EventJobFinished _ => "job.finished"
  | EventGPUSample _ => "gpu.sample"
  | EventGap _ => "telemetry.gap"
  end.

(** encoding/json, a parameter; [None] is an error of [json.Unmarshal]. *)
Class OutboxJSON : Type := {
  MarshalPayload : TelemetryEvent -> error + string;
  MarshalEvent : Event -> error + string;
  UnmarshalEvent : string -> option Event;
  MarshalMetadata : string -> string;
  UnmarshalMetadata : string -> option string;
  MarshalCursor : cursor -> string;
  UnmarshalCursor : string -> option cursor
}.

(** * The machine *)

Record segmentFile : Type := mkSegmentFile
  { segmentFile_data : string; segmentFile_mtime : time }.

Record Machine : Type := mkMachine
  { k_node : option string;                    (* the file at nodeIDPath *)
    k_meta : option string;                    (* meta.json *)
    k_files : gmap string segmentFile;         (* the other files of the directory *)
    k_os : nat -> option error; k_calls : nat; k_partial : nat -> nat;
    k_clock : nat -> time; k_ticks : nat; k_rand : nat -> Z; k_drawn : nat }.

Definition k_set_node (x : option string) (k : Machine) : Machine :=
  mkMachine x (k_meta k) (k_files k) (k_os k) (k_calls k) (k_partial k) (k_clock k) (k_ticks k)
    (k_rand k) (k_drawn k).
Definition k_set_meta (x : option string) (k : Machine) : Machine :=
  mkMachine (k_node k) x (k_files k) (k_os k) (k_calls k) (k_partial k) (k_clock k) (k_ticks k)
    (k_rand k) (k_drawn k).
Definition k_set_files (x : gmap string segmentFile) (k : Machine) : Machine :=
  mkMachine (k_node k) (k_meta k) x (k_os k) (k_calls k) (k_partial k) (k_clock k) (k_ticks k)
    (k_rand k) (k_drawn k).
Definition k_set_calls (n : nat) (k : Machine) : Machine :=
  mkMachine (k_node k) (k_meta k) (k_files k) (k_os k) n (k_partial k) (k_clock k) (k_ticks k)
    (k_rand k) (k_drawn k).
Definition k_set_ticks (n : nat) (k : Machine) : Machine :=
  mkMachine (k_node k) (k_meta k) (k_files k) (k_os k) (k_calls k) (k_partial k) (k_clock k) n
    (k_rand k) (k_drawn k).
Definition k_set_drawn (n : nat) (k : Machine) : Machine :=
  mkMachine (k_node k) (k_meta k) (k_files k) (k_os k) (k_calls k) (k_partial k) (k_clock k)
    (k_ticks k) (k_rand k) n.

(** One system call that has no result beside its success. *)
Definition syscall : M Machine unit := fun k =>
  let k' := k_set_calls (S (k_calls k)) k in
  match k_os k (k_calls k) with
  | Some e => (inl e, k')
  | None => (inr tt, k')
  end.

(** [time.Now()]. *)
Definition clockNow : M Machine time := fun k =>
  (inr (k_clock k (k_ticks k)), k_set_ticks (S (k_ticks k)) k).

(** [os.ReadFile]. *)
Definition os_ReadFile (f : option string) : M Machine string :=
  syscall ;; match f with Some data => ret data | None => throw ErrNotExist end.

Definition ErrClosed : error := ErrorString "file already closed".

(** [randomID]: twelve random bytes in hexadecimal. *)
Definition randomID (prefix : string) : M Machine string := fun k =>
  (inr (prefix +:+ HexEncode (map (fun i => k_rand k (k_drawn k + i)%nat mod 256) (seq 0 12))),
   k_set_drawn (k_drawn k + 12) k).

(** [writeAtomic]: the temporary file is seen by nobody before the rename, which
    [install] carries out. *)
Definition writeAtomic (install : string -> Machine -> Machine) (data : string)
    : M Machine unit :=
  clockNow ;;
  syscall ;;                                   (* os.WriteFile *)
  r ← try syscall;                             (* os.Rename *)
  match r with
  | inl e => try syscall ;; throw e            (* os.Remove *)
  | inr _ => modify (install data)
  end.

Definition loadOrCreateID (path prefix : string) : M Machine string :=
  k ← get;
  r ← try (os_ReadFile (k_node k));
  match r with
  | inr data =>
      let value := TrimSpace data in
      if (value =s "") || (128 <? slen value) then throw (Errorf "invalid id in %s" [AStr path])
      else ret value
  | inl err =>
      if negb (errors_Is err errNotExist) then throw err
      else
        syscall ;;                             (* os.MkdirAll *)
        value ← randomID prefix;
        writeAtomic (fun data => k_set_node (Some data)) (value +:+ newline) ;;
        ret value
  end.

(** [File.Write] of a file open with O_APPEND: when it fails, a part of the bytes
    may be in the file. *)
Definition os_Write (f : osFile) (line : string) : M Machine unit :=
  if osFile_closed f then throw ErrClosed
  else
    k ← get;
    t ← clockNow;
    r ← try syscall;
    let written := match r with inr _ => line | inl _ => stake (k_partial k (k_calls k)) line end in
    modify (fun k => k_set_files (alter (fun file =>
      mkSegmentFile (segmentFile_data file +:+ written) t) (osFile_path f) (k_files k)) k) ;;
    match r with inr _ => ret tt | inl e => throw e end.

(** [os.OpenFile(path, O_CREATE|O_APPEND|O_WRONLY)]. *)
Definition os_OpenAppend (path : string) : M Machine osFile :=
  syscall ;;
  t ← clockNow;
  modify (fun k => match k_files k !! path with
                   | Some _ => k
                   | None => k_set_files (<[path := mkSegmentFile "" t]> (k_files k)) k
                   end) ;;
  ret (mkOsFile path false).

(** [_ = os.Remove(path)]. *)
Definition os_Remove (path : string) : M Machine unit :=
  r ← try syscall;
  match r with
  | inl _ => ret tt
  | inr _ => modify (fun k => k_set_files (delete path (k_files k)) k)
  end.

(** [filepath.Glob(dir/*.jsonl)], sorted.  Glob ignores the errors of its three
    calls; a listing that breaks off keeps the names read so far. *)
Definition globSegments : M Machine (list string) :=
  r ← try (syscall ;; syscall);                (* os.Stat, os.Open *)
  match r with
  | inl _ => ret []
  | inr _ =>
      k ← get;
      r ← try syscall;                         (* Readdirnames *)
      let names := map fst (map_to_list (k_files k)) in
      let names := match r with inr _ => names | inl _ => take (k_partial k (k_calls k)) names end in
      ret (sort_Strings (filter (fun name => HasSuffix name ".jsonl" = true) names))
  end.

(** * The outbox's methods *)

Record Box : Type := mkBox { bx_outbox : Outbox; bx_machine : Machine }.

Definition onMachine {A} (m : M Machine A) : M Box A := fun b =>
  let '(r, k) := m (bx_machine b) in (r, mkBox (bx_outbox b) k).
Definition updating (f : Outbox -> Outbox) : M Box unit :=
  modify (fun b => mkBox (f (bx_outbox b)) (bx_machine b)).
Definition this : M Box Outbox := gets bx_outbox.

(** ** Retention *)

(** When the last event of the segment occurred; when it was created if it has none. *)
Definition lastTimeOf (events : list storedEvent) (seg : segment) : time :=
  match last (filter (fun e => storedEvent_segment e = segment_path seg) events) with
  | Some e => Event_OccurredAt (storedEvent_Event e)
  | None => segment_created seg
  end.

(** The paths [pruneLocked] removes, and the segments it keeps: at least one. *)
Fixpoint pruneLoop (events : list storedEvent) (cutoff : time) (total : Z) (segments : list segment)
    : list string * list segment :=
  match segments with
  | seg :: ((_ :: _) as rest) =>
      if (total <=? maxOutboxBytes) && negb (Before (lastTimeOf events seg) cutoff)
      then ([], segments)
      else let '(removed, kept) := pruneLoop events cutoff (total - segment_size seg) rest
           in (segment_path seg :: removed, kept)
  | _ => ([], segments)
  end.

Fixpoint removeAll (paths : list string) : M Machine unit :=
  match paths with
  | [] => ret tt
  | path :: rest => os_Remove path ;; removeAll rest
  end.

Definition totalSize (segments : list segment) : Z :=
  foldl (fun total seg => total + segment_size seg) 0 segments.

(** The outbox [pruneLocked] leaves. *)
Definition pruned (now : time) (o : Outbox) : list string * Outbox :=
  let '(removed, kept) := pruneLoop (o_events o) (TimeAdd now (- maxRetention))
                            (totalSize (o_segments o)) (o_segments o) in
  (removed,
   o_set_events (filter (fun e => storedEvent_segment e ∉ removed) (o_events o))
     (o_set_segments kept o)).

Definition Outbox_pruneLocked (now : time) : M Box unit :=
  o ← this;
  let '(removed, o') := pruned now o in
  onMachine (removeAll removed) ;;
  updating (fun _ => o').

(** ** Opening *)

Section json.
Context `{OutboxJSON}.

(** bufio.Scanner's lines: a final line may lack its line break; a line that
    fills the buffer is an error. *)
Definition maxTokenSize : Z := Z.shiftl 512 10.

Fixpoint splitLines (data : string) : list string :=
  match data with
  | EmptyString => []
  | String c rest =>
      if byte_val c =? 10 then EmptyString :: splitLines rest
      else match splitLines rest with
           | [] => [String c EmptyString]
           | line :: lines => String c line :: lines
           end
  end.

(** [bufio.ScanLines] drops one trailing carriage return. *)
Definition dropCR (line : string) : string := TrimSuffix line (String (byte_of 13) EmptyString).

(** [io.LimitReader]. *)
Definition LimitReader (data : string) (n : Z) : string :=
  if slen data <=? n then data else stake (Z.to_nat n) data.

(** The loop of [loadSegment]. *)
Fixpoint loadEvents (seg : segment) (lines : list string) : M Box segment :=
  match lines with
  | [] => ret seg
  | line :: rest =>
      if maxTokenSize <=? slen line then throw (ErrorString "bufio.Scanner: token too long")
      else
        let invalid := throw (Errorf "invalid telemetry segment %s" [AStr (segment_path seg)]) in
        match UnmarshalEvent (dropCR line) with
        | None => invalid
        | Some event =>
            if (Event_Seq event =? 0) || (Event_Type event =s "") then invalid
            else
              updating (fun o => o_set_events
                (o_events o ++ [mkStoredEvent event (segment_path seg)]) o) ;;
              loadEvents (mkSegment (segment_path seg)
                            (if segment_first seg =? 0 then Event_Seq event else segment_first seg)
                            (Event_Seq event) (segment_size seg) (segment_created seg)) rest
        end
  end.

Definition Outbox_loadSegment (path : string) : M Box unit :=
  onMachine syscall ;;                         (* os.Open *)
  b ← get;
  match k_files (bx_machine b) !! path with
  | None => throw ErrNotExist
  | Some file =>
      onMachine syscall ;;                     (* file.Stat *)
      onMachine syscall ;;                     (* file.Read *)
      seg ← loadEvents (mkSegment path 0 0 (slen (segmentFile_data file))
                          (UTC (segmentFile_mtime file)))
              (splitLines (LimitReader (segmentFile_data file) (maxSegmentBytes + 1)));
      if negb (segment_first seg =? 0)
      then updating (fun o => o_set_segments (o_segments o ++ [seg]) o)
      else ret tt
  end.

Fixpoint loadSegments (paths : list string) : M Box unit :=
  match paths with
  | [] => ret tt
  | path :: rest => Outbox_loadSegment path ;; loadSegments rest
  end.

(** The stream's identity, created on the first start. *)
Definition loadMetadata : M Box unit :=
  b ← get;
  r ← try (onMachine (os_ReadFile (k_meta (bx_machine b))));
  match r with
  | inl err =>
      if errors_Is err errNotExist then
        id ← onMachine (randomID "stream_");
        updating (o_set_streamID id) ;;
        onMachine (writeAtomic (fun data => k_set_meta (Some data))
                     (MarshalMetadata id +:+ newline))
      else throw err
  | inr data =>
      match UnmarshalMetadata data with
      | Some id => if TrimSpace id =s "" then throw (ErrorString "invalid telemetry metadata")
                   else updating (o_set_streamID id)
      | None => throw (ErrorString "invalid telemetry metadata")
      end
  end.

Definition Outbox_load : M Box unit :=
  loadMetadata ;;
  paths ← onMachine globSegments;
  loadSegments paths ;;
  o ← this;
  (match last (o_events o) with
   | Some e => updating (o_set_nextSeq (u64 (Event_Seq (storedEvent_Event e) + 1)))
   | None => ret tt
   end) ;;
  now ← onMachine clockNow;
  Outbox_pruneLocked (UTC now).

Definition loadBox (nodeID bootID : string) : M Machine Outbox := fun k =>
  let '(r, b) := Outbox_load (mkBox (mkOutbox nodeID "" bootID 1 [] [] None) k) in
  (match r with inl e => inl e | inr _ => inr (bx_outbox b) end, bx_machine b).

(** [Open]; its caller gets the outbox only when nothing failed. *)
Definition Open (nodeIDPath bootID : string) : M Machine Outbox :=
  nodeID ← loadOrCreateID nodeIDPath "node_";
  syscall ;;                                   (* os.MkdirAll *)
  syscall ;;                                   (* os.Chmod *)
  loadBox nodeID bootID.

(** ** Appending *)

(** [o.current.Close()]: the file counts as closed even when close reports an
    error, and a second close is one. *)
Definition closeCurrent (f : osFile) : M Box unit :=
  if osFile_closed f then throw ErrClosed
  else
    updating (o_set_current (Some (mkOsFile (osFile_path f) true))) ;;
    onMachine syscall.

Definition Outbox_Close : M Box unit :=
  o ← this;
  match o_current o with
  | None => ret tt
  | Some f =>
      r ← try (closeCurrent f);
      updating (o_set_current None) ;;
      fromResult r
  end.

Definition segmentName (first : Z) : string := padded 20 first +:+ ".jsonl".

Definition Outbox_rotateLocked (first : Z) : M Box unit :=
  o ← this;
  (match o_current o with
   | Some f => closeCurrent f
   | None => ret tt
   end) ;;
  file ← onMachine (os_OpenAppend (segmentName first));
  updating (o_set_current (Some file)) ;;
  now ← onMachine clockNow;
  updating (fun o => o_set_segments
    (o_segments o ++ [mkSegment (segmentName first) first 0 0 (UTC now)]) o).

(** Must the line go to a new segment?  The clock is read last. *)
Definition rotationDue (size : Z) : M Box bool :=
  o ← this;
  match o_current o, last (o_segments o) with
  | Some _, Some seg =>
      if maxSegmentBytes <? segment_size seg + size then ret true
      else now ← onMachine clockNow;
           ret (maxSegmentAge <=? TimeSub now (segment_created seg))
  | _, _ => ret true
  end.

(** [o.segments[len(o.segments)-1]] updated. *)
Definition updateLast (f : segment -> segment) (segments : list segment) : list segment :=
  alter f (length segments - 1)%nat segments.

Definition Outbox_Append (payload : TelemetryEvent) (occurredAt : time) : M Box Event :=
  raw ← fromResult (MarshalPayload payload);
  occurredAt ← (if IsZero occurredAt then onMachine clockNow else ret occurredAt);
  o ← this;
  let event := mkEvent (o_nextSeq o) (UTC occurredAt) (o_bootID o) (EventType payload) raw in
  line ← fromResult (MarshalEvent event);
  let line := line +:+ newline in
  due ← rotationDue (slen line);
  (if due : bool then Outbox_rotateLocked (Event_Seq event) else ret tt) ;;
  o ← this;
  match o_current o with
  | None => throw ErrInvalid
  | Some file =>
      onMachine (os_Write file line) ;;
      onMachine syscall ;;                     (* Sync *)
      updating (fun o =>
        let segments := updateLast (fun seg => mkSegment (segment_path seg) (segment_first seg)
                          (Event_Seq event) (segment_size seg + slen line) (segment_created seg))
                          (o_segments o) in
        let path := match last segments with Some seg => segment_path seg | None => "" end in
        o_set_nextSeq (u64 (o_nextSeq o + 1))
          (o_set_events (o_events o ++ [mkStoredEvent event path]) (o_set_segments segments o))) ;;
      now ← onMachine clockNow;
      Outbox_pruneLocked (UTC now) ;;
      ret event
  end.

(** ** Serving *)

Definition Outbox_Info (o : Outbox) : Info :=
  mkInfo (o_nodeID o) (o_bootID o) (o_streamID o) SchemaVersion
    ["telemetry_v1"; "reservation_external_session_id"; "job_tracking"; "gpu_samples";
     "managed_user_keys_v1"].

Definition encodeCursor (value : cursor) : string := EncodeToString RawURLEncoding (MarshalCursor value).

(** [None] stands for any of its errors. *)
Definition decodeCursor (value : string) : option cursor :=
  if 512 <? slen value then None
  else match DecodeString RawURLEncoding value with
       | None => None
       | Some data =>
           match UnmarshalCursor data with
           | Some out => if cursor_StreamID out =s "" then None else Some out
           | None => None
           end
       end.

Definition Outbox_boundsLocked (o : Outbox) : Z * Z :=
  match o_events o, last (o_events o) with
  | first :: _, Some final =>
      (Event_Seq (storedEvent_Event first), Event_Seq (storedEvent_Event final))
  | _, _ => (0, 0)
  end.

Definition Outbox_gapLocked (reason : string) (earliest latest : Z) (o : Outbox) : CursorGap :=
  let '(resume, first) :=
    if 0 <? earliest
    then (earliest - 1, match o_events o with
                        | e :: _ => Event_OccurredAt (storedEvent_Event e)
                        | [] => zeroTime
                        end)
    else (0, zeroTime) in
  mkCursorGap "telemetry_cursor_gap" reason (o_streamID o)
    (encodeCursor (mkCursor SchemaVersion (o_streamID o) resume)) earliest latest first.

(** What [Page] returns: a page, [ErrInvalidCursor], or a gap. *)
Inductive PageAnswer : Type :=
  | PageOK (page : Page) | PageInvalid | PageGap (gap : CursorGap).

Definition eventSize (e : Event) : Z := slen (Event_Payload e) + slen (Event_Type e) + 160.

(** The loop over the events: those of the page, and the last position. *)
Fixpoint pageLoop (limit position : Z) (events : list storedEvent) (page : list Event)
    (used final : Z) : list Event * Z :=
  match events with
  | [] => (page, final)
  | stored :: rest =>
      let e := storedEvent_Event stored in
      if Event_Seq e <=? position then pageLoop limit position rest page used final
      else if (limit <=? llen page) || (MaxPageBytes <? used + eventSize e) then (page, final)
      else pageLoop limit position rest (page ++ [e]) (used + eventSize e) (Event_Seq e)
  end.

Definition pageFrom (o : Outbox) (limit earliest latest position : Z) : Page :=
  let '(events, final) := pageLoop limit position (o_events o) [] 512 position in
  mkPage SchemaVersion (o_nodeID o) (o_streamID o) (o_bootID o) events
    (encodeCursor (mkCursor SchemaVersion (o_streamID o) final)) (final <? latest)
    earliest latest.

Definition pageLimit (limit : Z) : Z :=
  let limit := if limit <=? 0 then DefaultPageLimit else limit in
  if MaxPageLimit <? limit then MaxPageLimit else limit.

Definition Outbox_Page (o : Outbox) (encoded : string) (limit : Z) : PageAnswer :=
  let limit := pageLimit limit in
  let '(earliest, latest) := Outbox_boundsLocked o in
  if encoded <>s "" then
    match decodeCursor encoded with
    | None => PageInvalid
    | Some decoded =>
        if negb (cursor_Version decoded =? SchemaVersion) then PageInvalid
        else if cursor_StreamID decoded <>s o_streamID o
        then PageGap (Outbox_gapLocked "stream_reset" earliest latest o)
        else
          let position := cursor_Seq decoded in
          if (0 <? latest) && (latest <? position) then PageInvalid
          else if (0 <? earliest) && (u64 (position + 1) <? earliest)
          then PageGap (Outbox_gapLocked "retention" earliest latest o)
          else PageOK (pageFrom o limit earliest latest position)
    end
  else PageOK (pageFrom o limit earliest latest (if 0 <? earliest then earliest - 1 else 0)).

End json.
