(* ===== verification/OutboxPages.v ===== *)
(** The names of the outbox's segment files, which sort as the numbers they are made
    of; and paging: what the loop of [Page] selects, and where its cursor points. *)

From S2P Require Export Outbox.

(** * sort.Strings *)

(** Sorting a permutation of a sorted list gives that list. *)
Lemma sort_Strings_unique l l' :
  StronglySorted stringLe l -> l' ≡ₚ l -> sort_Strings l' = l.
Proof.
  intros S P. apply (StronglySorted_unique stringLe).
  - apply StronglySorted_merge_sort; apply _.
  - done.
  - etrans; [apply merge_sort_Permutation|done].
Qed.

(** * Digits of a fixed width *)

Definition digit_char (d : Z) : Ascii.ascii := pretty_N_char (Z.to_N d).

Fixpoint dec (width : nat) (z : Z) : string :=
  match width with
  | O => EmptyString
  | S n => dec n (z / 10) +:+ String (digit_char (z mod 10)) EmptyString
  end.

Lemma string_app_nil s : s +:+ "" = s.
Proof. induction s as [|c s IH]; [done|]. change (String c s +:+ "") with (String c (s +:+ "")).
  by rewrite IH. Qed.

Lemma string_length_app s t : String.length (s +:+ t) = (String.length s + String.length t)%nat.
Proof. pose proof (slen_app s t). unfold slen in *. lia. Qed.

Lemma length_dec n z : String.length (dec n z) = n.
Proof. revert z. induction n as [|n IH]; intros z; [done|]. cbn. rewrite string_length_app, IH.
  cbn. lia. Qed.

Lemma length_zeros n : String.length (zeros n) = n.
Proof. induction n as [|n IH]; [done|]. cbn. by rewrite <- IH at 2. Qed.

Lemma zeros_dec n : zeros n = dec n 0.
Proof.
  assert (forall m, zeros m +:+ "0" = zeros (S m)) as Z0.
  { induction m as [|m IH]; [done|]. cbn [zeros] in *. by rewrite string_app_assoc, IH. }
  induction n as [|n IH]; [done|]. rewrite <- Z0, IH. done.
Qed.

(** Printing pads to the fixed width. *)
Lemma go_dec n x s : (x < 10 ^ N.of_nat n)%N ->
  (String.length (pretty_N_go x s) <= n + String.length s)%nat /\
  zeros (n + String.length s - String.length (pretty_N_go x s)) +:+ pretty_N_go x s =
    dec n (Z.of_N x) +:+ s.
Proof.
  revert x s. induction n as [|n IH]; intros x s L.
  - assert (x = 0)%N as -> by (cbn in L; lia). rewrite pretty_N_go_0. split; [lia|].
    cbn [plus dec]. by rewrite Nat.sub_diag.
  - destruct (N.eq_dec x 0%N) as [->|P].
    + rewrite pretty_N_go_0. split; [lia|].
      replace (S n + String.length s - String.length s)%nat with (S n) by lia.
      by rewrite zeros_dec.
    + rewrite pretty_N_go_step by lia. destruct (IH (x / 10)%N
        (String (pretty_N_char (x mod 10)) s)) as [A B].
      { apply N.Div0.div_lt_upper_bound. rewrite Nat2N.inj_succ, N.pow_succ_r' in L. lia. }
      cbn [String.length] in *. split; [lia|].
      replace (S n + String.length s)%nat with (n + S (String.length s))%nat by lia. rewrite B.
      cbn [dec]. rewrite string_app_assoc. unfold digit_char.
      rewrite N2Z.inj_div, <- (N2Z.id (x mod 10)), N2Z.inj_mod. done.
Qed.

Lemma padded_dec n z : (0 < n)%nat -> 0 <= z < 10 ^ Z.of_nat n -> padded n z = dec n z.
Proof.
  intros N Z. unfold padded, Itoa. destruct z as [|p|p]; [|..|lia].
  - destruct n as [|n]; [lia|]. change (pretty 0) with (dec 1 0). rewrite length_dec.
    replace (S n - 1)%nat with n by lia. by rewrite zeros_dec.
  - destruct (go_dec n (N.pos p) "") as [A B].
    { apply N2Z.inj_lt. rewrite N2Z.inj_pow, nat_N_Z. apply Z. }
    rewrite string_app_nil in B. change (Z.of_N (N.pos p)) with (Z.pos p) in B.
    rewrite <- B. cbn [String.length].
    change (pretty (Z.pos p)) with (pretty_N_go (N.pos p) "").
    by rewrite Nat.add_0_r.
Qed.

Lemma compare_app s t u v : String.length s = String.length t ->
  String.compare (s +:+ u) (t +:+ v) =
    match String.compare s t with Eq => String.compare u v | c => c end.
Proof.
  revert t. induction s as [|c s IH]; intros [|d t] L; try done.
  change (String c s +:+ u) with (String c (s +:+ u)).
  change (String d t +:+ v) with (String d (t +:+ v)). cbn.
  destruct (Ascii.compare c d); [|done..]. apply IH. by injection L.
Qed.

Lemma compare_digit a b : 0 <= a < 10 -> 0 <= b < 10 ->
  Ascii.compare (digit_char a) (digit_char b) = (a ?= b).
Proof.
  intros A B.
  assert (In a (map Z.of_nat (seq 0 10)) /\ In b (map Z.of_nat (seq 0 10))) as [I J].
  { split; apply in_map_iff; [exists (Z.to_nat a)|exists (Z.to_nat b)]; rewrite in_seq;
      split; lia. }
  cbn in I, J. clear A B.
  repeat destruct I as [<-|I]; try done; repeat destruct J as [<-|J]; done.
Qed.

Lemma compare_dec n a b : 0 <= a < 10 ^ Z.of_nat n -> 0 <= b < 10 ^ Z.of_nat n ->
  String.compare (dec n a) (dec n b) = (a ?= b).
Proof.
  revert a b. induction n as [|n IH]; intros a b A B.
  - assert (a = 0 /\ b = 0) as [-> ->] by (cbn in *; lia). done.
  - cbn [dec]. rewrite compare_app by by rewrite !length_dec.
    rewrite Nat2Z.inj_succ, Z.pow_succ_r in A, B by lia. rewrite IH by divmod. cbn.
    rewrite compare_digit by divmod.
    destruct (Z.compare_spec (a / 10) (b / 10)) as [E|E|E];
      [|symmetry; apply Z.compare_lt_iff; divmod|symmetry; apply Z.compare_gt_iff; divmod].
    destruct (Z.compare_spec (a mod 10) (b mod 10)) as [F|F|F]; symmetry;
      [apply Z.compare_eq_iff|apply Z.compare_lt_iff|apply Z.compare_gt_iff]; divmod.
Qed.

(** A number that fits in the twenty digits: every [uint64]. *)
Definition nameable (z : Z) : Prop := 0 <= z < 10 ^ 20.

Lemma compare_segmentName a b : nameable a -> nameable b ->
  String.compare (segmentName a) (segmentName b) = (a ?= b).
Proof.
  intros A B. unfold segmentName. rewrite !padded_dec by (done || lia).
  rewrite compare_app by by rewrite !length_dec. rewrite compare_dec by done.
  by destruct (a ?= b).
Qed.

Lemma segmentName_le a b : nameable a -> nameable b ->
  stringLe (segmentName a) (segmentName b) <-> a <= b.
Proof.
  intros A B. unfold stringLe. rewrite compare_segmentName by done.
  unfold Z.le. by destruct (a ?= b).
Qed.

Lemma segmentName_inj a b : nameable a -> nameable b -> segmentName a = segmentName b -> a = b.
Proof.
  intros A B E. apply Z.compare_eq_iff. rewrite <- compare_segmentName by done. rewrite E.
  by rewrite compare_segmentName, Z.compare_refl.
Qed.

Lemma HasSuffix_app s t : HasSuffix (s +:+ t) t = true.
Proof.
  unfold HasSuffix. rewrite string_length_app, Nat.add_sub, sdrop_app, String.eqb_refl, andb_true_r.
  apply Nat.leb_le. lia.
Qed.

Lemma segmentName_suffix a : HasSuffix (segmentName a) ".jsonl" = true.
Proof. apply HasSuffix_app. Qed.

(** * What the outbox relies on of encoding/json *)

(** No line break and no carriage return. *)
Fixpoint noBreaks (s : string) : bool :=
  match s with
  | EmptyString => true
  | String c r => negb (byte_val c =? 10) && negb (byte_val c =? 13) && noBreaks r
  end.

(** Values whose strings are valid UTF-8 survive a round trip; an object is
    printed on one line; a byte of a string takes at most six. *)
Class OutboxLaws (J : OutboxJSON) : Prop := {
  cursor_roundtrip id seq : ValidString id = true -> 0 <= seq < 2 ^ 64 ->
    UnmarshalCursor (MarshalCursor (mkCursor SchemaVersion id seq)) =
      Some (mkCursor SchemaVersion id seq);
  cursor_length id seq : 0 <= seq < 2 ^ 64 ->
    0 < slen (MarshalCursor (mkCursor SchemaVersion id seq)) <= 48 + 6 * slen id;
  metadata_roundtrip id : ValidString id = true ->
    UnmarshalMetadata (MarshalMetadata id +:+ newline) = Some id;
  event_roundtrip payload raw seq t boot line :
    MarshalPayload payload = inr raw -> ValidString boot = true -> 0 <= seq < 2 ^ 64 ->
    MarshalEvent (mkEvent seq t boot (EventType payload) raw) = inr line ->
    UnmarshalEvent line = Some (mkEvent seq t boot (EventType payload) raw);
  event_line e line : MarshalEvent e = inr line -> noBreaks line = true /\ line <> ""
}.

(** A stream identity whose cursors are short enough to be read back. *)
Definition goodStream (id : string) : Prop := ValidString id = true /\ 0 < slen id <= 55.

(** * The page *)

(** The events of an outbox, in order. *)
Definition evs (o : Outbox) : list Event := map storedEvent_Event (o_events o).

(** [es] are numbered from [first] on. *)
Definition consecutive (first : Z) (es : list Event) : Prop :=
  forall i e, es !! i = Some e -> Event_Seq e = first + Z.of_nat i.

(** The specification of a page: the longest prefix of [es] with at most [count]
    events and [budget] bytes. *)
Fixpoint fitting (count budget : Z) (es : list Event) : list Event :=
  match es with
  | e :: r =>
      if (0 <? count) && (eventSize e <=? budget)
      then e :: fitting (count - 1) (budget - eventSize e) r
      else []
  | [] => []
  end.

Definition totalEventSize (es : list Event) : Z := foldr (fun e n => eventSize e + n) 0 es.

Lemma eventSize_nonneg e : 0 <= eventSize e.
Proof.
  unfold eventSize. pose proof (slen_nonneg (Event_Payload e)).
  pose proof (slen_nonneg (Event_Type e)). lia.
Qed.

Lemma fitting_prefix count budget es : fitting count budget es `prefix_of` es.
Proof.
  revert count budget. induction es as [|e es IH]; intros c b; cbn; [done|].
  destruct (_ && _); [by apply prefix_cons|apply prefix_nil].
Qed.

Lemma fitting_bounds count budget es : 0 <= count -> 0 <= budget ->
  llen (fitting count budget es) <= count /\ totalEventSize (fitting count budget es) <= budget.
Proof.
  revert count budget. induction es as [|e es IH]; intros c b C B; cbn; [by split|].
  destruct (_ && _) eqn:E; [|by split].
  apply andb_true_iff in E as [E1%Z.ltb_lt E2%Z.leb_le].
  destruct (IH (c - 1) (b - eventSize e)) as [L S]; [lia..|]. rewrite llen_cons.
  unfold totalEventSize in *. cbn [foldr]. lia.
Qed.

Lemma fitting_progress count budget e es : 0 < count -> eventSize e <= budget ->
  0 < llen (fitting count budget (e :: es)).
Proof.
  intros C%Z.ltb_lt B%Z.leb_le. cbn. rewrite C, B. cbn. rewrite llen_cons.
  pose proof (llen_nonneg (fitting (count - 1) (budget - eventSize e) es)). lia.
Qed.

Lemma consecutive_cons first e es :
  consecutive first (e :: es) <-> Event_Seq e = first /\ consecutive (first + 1) es.
Proof.
  unfold consecutive. split.
  - intros C. split; [rewrite (C 0%nat e) by done; lia|]. intros i x L.
    rewrite (C (S i) x) by done. lia.
  - intros [E C] [|i] x L; [injection L as <-; lia|]. rewrite (C i x) by done. lia.
Qed.

Lemma consecutive_drop first es n : consecutive first es ->
  consecutive (first + Z.of_nat n) (drop n es).
Proof. intros C i e L. rewrite lookup_drop in L. rewrite (C _ _ L). lia. Qed.

Lemma consecutive_snoc first es e : consecutive first es -> Event_Seq e = first + llen es ->
  consecutive first (es ++ [e]).
Proof.
  intros C E i x L. apply lookup_app_Some in L as [L|[N L]]; [by apply C|].
  destruct (i - length es)%nat eqn:I; [|done]. injection L as <-. unfold llen in E.
  rewrite E. lia.
Qed.

(** The events the page skips. *)
Lemma pageLoop_skip limit position first events page used final :
  consecutive first (map storedEvent_Event events) ->
  pageLoop limit position events page used final =
  pageLoop limit position (drop (Z.to_nat (position + 1 - first)) events) page used final.
Proof.
  revert first. induction events as [|e events IH]; intros first C; [by rewrite drop_nil|].
  apply consecutive_cons in C as [E C]. cbn [pageLoop]. rewrite E.
  destruct (Z.leb_spec first position) as [L|L].
  - rewrite (IH _ C). replace (Z.to_nat (position + 1 - first))
      with (S (Z.to_nat (position + 1 - (first + 1)))) by lia. done.
  - replace (Z.to_nat (position + 1 - first)) with O by lia. cbn [drop pageLoop]. rewrite E.
    by destruct (Z.leb_spec first position); [lia|].
Qed.

Lemma pageLoop_fitting limit position first events page used final :
  consecutive first (map storedEvent_Event events) -> position < first -> final = first - 1 ->
  let f := fitting (limit - llen page) (MaxPageBytes - used) (map storedEvent_Event events) in
  pageLoop limit position events page used final = (page ++ f, final + llen f).
Proof.
  revert first page used final.
  induction events as [|e events IH]; intros first page used final C P F; cbn [map fitting pageLoop].
  - by rewrite app_nil_r, Z.add_0_r.
  - apply consecutive_cons in C as [E C]. rewrite E. destruct (Z.leb_spec first position); [lia|].
    set (size := eventSize _).
    destruct ((limit <=? _) || _) eqn:D.
    + apply orb_true_iff in D. rewrite Z.leb_le, Z.ltb_lt in D.
      destruct (_ && _) eqn:G; [apply andb_true_iff in G; lia|]. by rewrite app_nil_r, Z.add_0_r.
    + apply orb_false_iff in D. rewrite Z.leb_gt, Z.ltb_ge in D.
      destruct (_ && _) eqn:G; [|apply andb_false_iff in G; lia].
      rewrite (IH (first + 1)) by (done || lia). rewrite <- app_assoc, !llen_cons.
      unfold llen at 1 3. rewrite length_app. cbn [length].
      rewrite Nat2Z.inj_add. change (Z.of_nat 1) with 1. rewrite Z.sub_add_distr.
      unfold llen. rewrite Z.sub_add_distr. f_equal. lia.
Qed.

Section pages.
Context `{OutboxJSON}.

(** The bounds of a consecutive outbox. *)
Lemma bounds_spec first o : consecutive first (evs o) -> 0 < first ->
  Outbox_boundsLocked o =
    (if llen (evs o) =? 0 then (0, 0) else (first, first + llen (evs o) - 1)).
Proof.
  unfold evs, Outbox_boundsLocked, llen. rewrite length_map. intros C P.
  destruct (o_events o) as [|e es]; [done|].
  destruct (last (e :: es)) as [x|] eqn:E; [|by apply last_None in E].
  rewrite last_lookup in E. cbn [pred length] in E.
  assert (Event_Seq (storedEvent_Event x) = first + Z.of_nat (length es)) as ->.
  { apply (C (length es)). by rewrite list_lookup_fmap, E. }
  apply consecutive_cons in C as [-> _]. cbn [length].
  destruct (Z.eqb_spec (Z.of_nat (S (length es))) 0); [lia|]. f_equal. lia.
Qed.

Definition pageBudget : Z := MaxPageBytes - 512.

(** The events a page holds for a position within the outbox or at its end. *)
Definition pageEvents (o : Outbox) (limit first position : Z) : list Event :=
  fitting limit pageBudget (drop (Z.to_nat (position + 1 - first)) (evs o)).

Lemma pageFrom_spec o limit first earliest latest position :
  consecutive first (evs o) -> first - 1 <= position ->
  position <= first + llen (evs o) - 1 ->
  let f := pageEvents o limit first position in
  pageFrom o limit earliest latest position =
    mkPage SchemaVersion (o_nodeID o) (o_streamID o) (o_bootID o) f
      (encodeCursor (mkCursor SchemaVersion (o_streamID o) (position + llen f)))
      (position + llen f <? latest) earliest latest.
Proof.
  intros C A B. cbv zeta. unfold pageFrom. rewrite (pageLoop_skip _ _ first) by done.
  rewrite (pageLoop_fitting _ _ (position + 1)); [|..|lia|lia].
  - change (llen []) with 0. rewrite Z.sub_0_r. unfold pageEvents, pageBudget, evs.
    by rewrite skipn_map.
  - rewrite <- skipn_map. replace (position + 1)
      with (first + Z.of_nat (Z.to_nat (position + 1 - first))) at 1 by lia.
    by apply consecutive_drop.
Qed.

(** A cursor the outbox made is read back. *)
Lemma decode_encode `{!OutboxLaws _} id seq : goodStream id -> 0 <= seq < 2 ^ 64 ->
  decodeCursor (encodeCursor (mkCursor SchemaVersion id seq)) =
    Some (mkCursor SchemaVersion id seq) /\
  encodeCursor (mkCursor SchemaVersion id seq) <> "".
Proof.
  intros [V G] B. unfold encodeCursor. set (c := mkCursor _ _ _).
  assert (DecodeString RawURLEncoding (EncodeToString RawURLEncoding (MarshalCursor c)) =
    Some (MarshalCursor c)) as D
    by apply DecodeString_Encode.
  pose proof (cursor_roundtrip id seq V B) as R.
  pose proof (cursor_length id seq B) as N. fold c in R, N.
  pose proof (slen_EncodeToString RawURLEncoding (MarshalCursor c)) as K. split.
  - unfold decodeCursor.
    destruct (512 <? _) eqn:E; [lia|]. rewrite D, R. cbn.
    destruct (String.eqb_spec id "") as [->|]; [unfold slen in G; cbn in G; lia|done].
  - intros E. rewrite E in D. injection D as D. rewrite <- D in N. unfold slen in N. cbn in N. lia.
Qed.

(** The page of an outbox for a position. *)
Definition pageOf (o : Outbox) (limit first position : Z) : Page :=
  let f := pageEvents o limit first position in
  let '(earliest, latest) := Outbox_boundsLocked o in
  mkPage SchemaVersion (o_nodeID o) (o_streamID o) (o_bootID o) f
    (encodeCursor (mkCursor SchemaVersion (o_streamID o) (position + llen f)))
    (position + llen f <? latest) earliest latest.

(** The outbox holds consecutive events from [first] on, of a stream whose
    cursors can be read. *)
Record readable (first : Z) (o : Outbox) : Prop := {
  readable_stream : goodStream (o_streamID o);
  readable_first : 0 < first;
  readable_events : consecutive first (evs o);
  readable_room : first + llen (evs o) < 2 ^ 64
}.

Definition cursorAt (o : Outbox) (position : Z) : string :=
  encodeCursor (mkCursor SchemaVersion (o_streamID o) position).

Lemma Page_at `{!OutboxLaws _} o first position limit : readable first o ->
  first - 1 <= position <= first + llen (evs o) - 1 ->
  Outbox_Page o (cursorAt o position) limit =
    PageOK (pageOf o (pageLimit limit) first position).
Proof.
  intros [G P C R] B. unfold Outbox_Page, cursorAt.
  destruct (decode_encode (o_streamID o) position G) as [D N]; [lia|].
  rewrite (proj2 (String.eqb_neq _ _) N), D. cbn [negb cursor_Version cursor_StreamID cursor_Seq].
  rewrite String.eqb_refl. cbn [negb Z.eqb SchemaVersion Pos.eqb]. unfold pageOf.
  rewrite (bounds_spec first) by done.
  assert (u64 (position + 1) = position + 1) as U by (unfold u64; apply Z.mod_small; lia).
  pose proof (llen_nonneg (evs o)).
  destruct (Z.eqb_spec (llen (evs o)) 0) as [E|E]; cbn [Z.ltb Z.compare andb].
  - by rewrite (pageFrom_spec _ _ first) by (done || lia).
  - destruct (_ && _) eqn:X; [lia|]. rewrite U. destruct (_ && _) eqn:Y in |- *; [lia|].
    by rewrite (pageFrom_spec _ _ first) by (done || lia).
Qed.

Lemma Page_start o first limit : readable first o ->
  Outbox_Page o "" limit =
    PageOK (pageOf o (pageLimit limit) (if llen (evs o) =? 0 then 1 else first)
              (if llen (evs o) =? 0 then 0 else first - 1)).
Proof.
  intros [G P C R]. unfold Outbox_Page. cbn [String.eqb negb]. unfold pageOf.
  rewrite (bounds_spec first) by done. pose proof (llen_nonneg (evs o)).
  destruct (Z.eqb_spec (llen (evs o)) 0) as [E|E]; cbn [Z.ltb Z.compare].
  - rewrite (pageFrom_spec _ _ 1); [done| |lia|lia].
    assert (evs o = []) as -> by (apply length_zero_iff_nil; unfold llen in E; lia). done.
  - replace (0 <? first) with true by lia. by rewrite (pageFrom_spec _ _ first) by (done || lia).
Qed.

(** A position before the retained events is answered with a gap. *)
Lemma Page_behind `{!OutboxLaws _} o first position limit : readable first o ->
  0 <= position < first - 1 -> 0 < llen (evs o) ->
  exists gap, Outbox_Page o (cursorAt o position) limit = PageGap gap /\
    CursorGap_Reason gap = "retention" /\ CursorGap_EarliestSeq gap = first /\
    CursorGap_ResumeCursor gap = cursorAt o (first - 1).
Proof.
  intros [G P C R] B N0. unfold Outbox_Page, cursorAt.
  destruct (decode_encode (o_streamID o) position G) as [D N]; [lia|].
  rewrite (proj2 (String.eqb_neq _ _) N), D. cbn [negb cursor_Version cursor_StreamID cursor_Seq].
  rewrite String.eqb_refl. cbn [negb Z.eqb SchemaVersion Pos.eqb].
  rewrite (bounds_spec first) by done.
  destruct (Z.eqb_spec (llen (evs o)) 0); [lia|].
  destruct (_ && _) eqn:X; [lia|].
  assert (u64 (position + 1) = position + 1) as U by (unfold u64; apply Z.mod_small; lia).
  rewrite U. destruct (_ && _) eqn:Y in |- *; [|lia]. eexists. split; [done|].
  unfold Outbox_gapLocked. by replace (0 <? first) with true by lia.
Qed.

(** * Following the cursors *)

(** The pages a consumer gets that asks page by page while there is more, with at
    most [fuel] requests; nothing when there is still more after them, or when a
    request is refused. *)
Fixpoint readAll (fuel : nat) (o : Outbox) (encoded : string) (limit : Z)
    : option (list Event) :=
  match fuel with
  | O => None
  | S fuel =>
      match Outbox_Page o encoded limit with
      | PageOK page =>
          if Page_HasMore page
          then app (Page_Events page) <$> readAll fuel o (Page_NextCursor page) limit
          else Some (Page_Events page)
      | _ => None
      end
  end.

Lemma pageLimit_range limit : 1 <= pageLimit limit <= MaxPageLimit.
Proof.
  unfold pageLimit, MaxPageLimit, DefaultPageLimit. destruct (limit <=? 0) eqn:E;
    destruct (256 <? _) eqn:F; lia.
Qed.

Lemma pageEvents_progress o limit first position : 
  first - 1 <= position -> 0 < limit ->
  Forall (fun e => eventSize e <= pageBudget) (evs o) ->
  position + 1 - first < llen (evs o) -> 0 < llen (pageEvents o limit first position).
Proof.
  intros A L F B. unfold pageEvents. set (n := Z.to_nat _).
  destruct (drop n (evs o)) as [|e es] eqn:D.
  - apply (f_equal length) in D. rewrite length_drop in D. unfold llen in B. cbn in D. lia.
  - apply fitting_progress; [done|]. apply (Forall_drop _ n) in F. rewrite D in F.
    by inversion F.
Qed.

Lemma readAll_from `{!OutboxLaws _} o first limit position fuel : readable first o ->
  Forall (fun e => eventSize e <= pageBudget) (evs o) ->
  0 < llen (evs o) -> first - 1 <= position <= first + llen (evs o) - 1 ->
  first + llen (evs o) - 1 - position < Z.of_nat fuel ->
  readAll fuel o (cursorAt o position) limit =
    Some (drop (Z.to_nat (position + 1 - first)) (evs o)).
Proof.
  intros R F N. revert position. induction fuel as [|fuel IH]; intros position B Fu; [lia|].
  cbn [readAll]. rewrite (Page_at o first) by done. unfold pageOf.
  rewrite (bounds_spec first) by apply R. destruct (Z.eqb_spec (llen (evs o)) 0); [lia|].
  cbn [Page_Events Page_HasMore Page_NextCursor].
  pose proof (pageLimit_range limit) as PL.
  pose proof (fitting_prefix (pageLimit limit) pageBudget
                (drop (Z.to_nat (position + 1 - first)) (evs o))) as [tl T].
  fold (pageEvents o (pageLimit limit) first position) in T.
  set (f := pageEvents _ _ _ _) in *.
  assert (llen f + llen tl = first + llen (evs o) - 1 - position) as Len.
  { apply (f_equal length) in T. rewrite length_drop, length_app in T. unfold llen in *. lia. }
  rewrite T. pose proof (llen_nonneg tl). pose proof (llen_nonneg f).
  destruct (Z.ltb_spec (position + llen f) (first + llen (evs o) - 1)) as [M|M].
  - assert (0 < llen f) as Pf by (apply pageEvents_progress; done || lia).
    fold (cursorAt o (position + llen f)). rewrite IH by lia.
    replace (Z.to_nat (position + llen f + 1 - first))
      with (Z.to_nat (position + 1 - first) + length f)%nat by (unfold llen; lia).
    rewrite <- drop_drop, T, drop_app_length. done.
  - destruct tl; [by rewrite app_nil_r|]. rewrite llen_cons in Len. pose proof (llen_nonneg tl). lia.
Qed.

End pages.
