(* ===== verification/OutboxRun.v ===== *)
(** The invariant of the outbox in memory, whatever system calls fail: it holds a
    suffix of the stream's numbered history; and what each method leaves of it.  First
    the program logic of the methods: the rules for the machine, whatever system calls
    fail, and when none does; and that the methods leave the oracle alone. *)

From S2P Require Export MonadLogic OutboxPages.

(** * Rules for the machine, whatever fails *)

(** The machine's operations leave the outbox alone. *)
Lemma triple_onMachine {A} (P : Outbox -> Prop) (m : M Machine A) :
  triple (fun b => P (bx_outbox b)) (onMachine m) (fun _ b => P (bx_outbox b))
    (fun b => P (bx_outbox b)).
Proof. intros b Pb. unfold onMachine. by destruct (m (bx_machine b)) as [[|] ?]. Qed.

Lemma triple_updating (P : Outbox -> Prop) (Q : Outbox -> Prop) f E :
  (forall o, P o -> Q (f o)) ->
  triple (fun b => P (bx_outbox b)) (updating f) (fun _ b => Q (bx_outbox b)) E.
Proof. intros W b. apply W. Qed.

(** Reading the outbox fixes it. *)
Lemma triple_this {B} (P : Outbox -> Prop) (k : Outbox -> M Box B) Q E :
  (forall o, P o -> triple (fun b => bx_outbox b = o) (k o) Q E) ->
  triple (fun b => P (bx_outbox b)) (this ≫= k) Q E.
Proof. intros W b Pb. by apply (W (bx_outbox b)). Qed.

(** * When nothing fails *)

(** What is on the disk. *)
Record Disk : Type := mkDisk
  { d_node : option string; d_meta : option string; d_files : gmap string segmentFile }.
Definition disk (k : Machine) : Disk := mkDisk (k_node k) (k_meta k) (k_files k).

(** No system call fails. *)
Definition reliable (k : Machine) : Prop := forall n, k_os k n = None.

(** The disk is [d], and no call fails. *)
Definition diskIs (d : Disk) (k : Machine) : Prop := disk k = d /\ reliable k.
(** The same, and the outbox is [o]. *)
Definition at_ (o : Outbox) (d : Disk) (b : Box) : Prop :=
  bx_outbox b = o /\ diskIs d (bx_machine b).

Lemma triple_onMachine_at {A} o d (m : M Machine A) (Q : A -> Machine -> Prop) EB :
  triple (diskIs d) m Q (fun _ => False) ->
  triple (at_ o d) (onMachine m) (fun a b => bx_outbox b = o /\ Q a (bx_machine b)) EB.
Proof.
  intros T [o' k] [Eo Dk]. cbn in *. specialize (T k Dk). unfold onMachine. cbn.
  by destruct (m k) as [[|] k'].
Qed.

Lemma triple_syscall d E : triple (diskIs d) syscall (fun _ => diskIs d) E.
Proof. intros k [D R]. unfold syscall. by rewrite (R (k_calls k)). Qed.

Lemma triple_clock d E : triple (diskIs d) clockNow (fun _ => diskIs d) E.
Proof. by intros k. Qed.

Lemma triple_updating_at o d f EB : triple (at_ o d) (updating f) (fun _ => at_ (f o) d) EB.
Proof. by intros [o' k] [<- D]. Qed.

Lemma triple_this_at {B} o d (k : Outbox -> M Box B) Q EB :
  triple (at_ o d) (k o) Q EB -> triple (at_ o d) (this ≫= k) Q EB.
Proof. intros W [o' k'] [Eo D]. cbn in Eo. subst o'. by apply (W (mkBox o k')). Qed.

(** A system call, a clock reading, by the outbox. *)
Lemma triple_syscall_at o d EB : triple (at_ o d) (onMachine syscall) (fun _ => at_ o d) EB.
Proof. exact (triple_onMachine_at o d _ _ EB (triple_syscall d _)). Qed.

Lemma triple_clock_at o d E : triple (at_ o d) (onMachine clockNow) (fun _ => at_ o d) E.
Proof. exact (triple_onMachine_at o d _ _ E (triple_clock d _)). Qed.

(** * The oracle *)

Class HasOracle (St : Type) : Type := oracle : St -> nat -> option error.
#[export] Instance Machine_oracle : HasOracle Machine := k_os.
#[export] Instance Box_oracle : HasOracle Box := fun b => k_os (bx_machine b).

Section keepsOracle.
Context {St : Type} `{HasOracle St}.

Definition keepsOracle {A} (m : M St A) : Prop := forall s, oracle (snd (m s)) = oracle s.

Lemma keepsOracle_ret {A} (a : A) : keepsOracle (ret a).
Proof. done. Qed.
Lemma keepsOracle_throw {A} e : keepsOracle (A := A) (throw e).
Proof. done. Qed.
Lemma keepsOracle_get : keepsOracle get.
Proof. done. Qed.
Lemma keepsOracle_gets {A} (f : St -> A) : keepsOracle (gets f).
Proof. done. Qed.
Lemma keepsOracle_fromResult {A} (r : error + A) : keepsOracle (fromResult r).
Proof. by destruct r. Qed.
Lemma keepsOracle_bind {A B} (m : M St A) (k : A -> M St B) :
  keepsOracle m -> (forall a, keepsOracle (k a)) -> keepsOracle (m ≫= k).
Proof.
  intros Hm Hk s. specialize (Hm s). unfold mbind, M_bind, bind.
  destruct (m s) as [[e|a] s1]; cbn in *; [done|]. by rewrite (Hk a s1).
Qed.
Lemma keepsOracle_try {A} (m : M St A) : keepsOracle m -> keepsOracle (try m).
Proof. intros Hm s. specialize (Hm s). unfold try. by destruct (m s). Qed.
End keepsOracle.

Lemma keepsOracle_syscall : keepsOracle syscall.
Proof. intros k. unfold syscall. by destruct (k_os k (k_calls k)). Qed.
Lemma keepsOracle_clockNow : keepsOracle clockNow.
Proof. done. Qed.
Lemma keepsOracle_updating f : keepsOracle (updating f).
Proof. done. Qed.
Lemma keepsOracle_this : keepsOracle this.
Proof. done. Qed.
Lemma keepsOracle_onMachine {A} (m : M Machine A) : keepsOracle m -> keepsOracle (onMachine m).
Proof. intros K b. specialize (K (bx_machine b)). unfold onMachine. by destruct (m (bx_machine b)). Qed.
Lemma keepsOracle_files f : keepsOracle (modify (fun k => k_set_files (f k) k)).
Proof. done. Qed.

Create HintDb oracle.
#[export] Hint Resolve keepsOracle_ret keepsOracle_throw keepsOracle_get keepsOracle_gets keepsOracle_fromResult keepsOracle_syscall
  keepsOracle_clockNow keepsOracle_updating keepsOracle_this keepsOracle_files : oracle.

Ltac solve_keepsOracle :=
  repeat (intros; cbv zeta;
    lazymatch goal with
    | |- keepsOracle (match ?x with _ => _ end) => destruct x
    | |- keepsOracle (try _) => apply keepsOracle_try
    | |- keepsOracle (onMachine _) => apply keepsOracle_onMachine
    | |- keepsOracle _ => first [solve [auto with oracle] | apply keepsOracle_bind]
    end).

Lemma keepsOracle_Write f line : keepsOracle (os_Write f line).
Proof. unfold os_Write. solve_keepsOracle. Qed.
Lemma keepsOracle_OpenAppend path : keepsOracle (os_OpenAppend path).
Proof.
  unfold os_OpenAppend. solve_keepsOracle. intros k. unfold modify. cbn.
  by destruct (k_files k !! path).
Qed.
Lemma keepsOracle_removeAll paths : keepsOracle (removeAll paths).
Proof. induction paths; cbn [removeAll]; [done|]. unfold os_Remove. solve_keepsOracle. Qed.
#[export] Hint Resolve keepsOracle_Write keepsOracle_OpenAppend keepsOracle_removeAll : oracle.

Lemma keepsOracle_closeCurrent f : keepsOracle (closeCurrent f).
Proof. unfold closeCurrent. solve_keepsOracle. Qed.
Lemma keepsOracle_pruneLocked now : keepsOracle (Outbox_pruneLocked now).
Proof. unfold Outbox_pruneLocked. solve_keepsOracle. Qed.
#[export] Hint Resolve keepsOracle_closeCurrent keepsOracle_pruneLocked : oracle.

Lemma keepsOracle_rotateLocked n : keepsOracle (Outbox_rotateLocked n).
Proof. unfold Outbox_rotateLocked. solve_keepsOracle. Qed.
Lemma keepsOracle_rotationDue size : keepsOracle (rotationDue size).
Proof. unfold rotationDue. solve_keepsOracle. Qed.
#[export] Hint Resolve keepsOracle_rotateLocked keepsOracle_rotationDue : oracle.

Lemma keepsOracle_Append `{OutboxJSON} payload t : keepsOracle (Outbox_Append payload t).
Proof. unfold Outbox_Append. solve_keepsOracle. Qed.
Lemma keepsOracle_Close : keepsOracle Outbox_Close.
Proof. unfold Outbox_Close. solve_keepsOracle. Qed.

(** The history is numbered from one. *)
Definition numbered (H : list Event) : Prop := consecutive 1 H /\ llen H + 1 < 2 ^ 64.

Definition segmentPaths (o : Outbox) : list string := map segment_path (o_segments o).
Definition eventPaths (o : Outbox) : list string := map storedEvent_segment (o_events o).

Record retains (H : list Event) (o : Outbox) : Prop := {
  retains_numbered : numbered H;
  retains_next : o_nextSeq o = llen H + 1;
  retains_suffix : exists n, (n <= length H)%nat /\ evs o = drop n H;
  retains_names : forall path, path ∈ segmentPaths o ->
    exists f, 0 <= f <= o_nextSeq o /\ path = segmentName f;
  retains_sorted : StronglySorted stringLe (segmentPaths o);
  retains_grouped : StronglySorted stringLe (eventPaths o);
  retains_tags : forall path, path ∈ eventPaths o -> path ∈ segmentPaths o
}.

(** * Retention drops a prefix *)

(** Filtering out a class that comes first is dropping. *)
Lemma filter_is_drop {A} (P : A -> Prop) `{forall x, Decision (P x)} (l : list A) :
  (forall i j x y, (i <= j)%nat -> l !! i = Some x -> l !! j = Some y -> P y -> P x) ->
  exists n, (n <= length l)%nat /\ filter (fun x => ~ P x) l = drop n l.
Proof.
  induction l as [|x l IH]; intros D; [by exists O|].
  destruct (decide (P x)) as [Px|Nx].
  - destruct IH as (n & N & E).
    { intros i j a b L Ia Jb. apply (D (S i) (S j)); [lia|done..]. }
    exists (S n). cbn [length drop]. split; [lia|]. rewrite filter_cons_False by tauto. done.
  - exists O. split; [lia|]. cbn [drop]. apply filter_all.
    apply Forall_lookup. intros i y L Py. apply Nx. by apply (D O i x y); [lia|..].
Qed.

Lemma pruneLoop_cons events cutoff total seg rest :
  pruneLoop events cutoff total (seg :: rest) =
    if (llen rest =? 0) ||
       (total <=? maxOutboxBytes) && negb (Before (lastTimeOf events seg) cutoff)
    then ([], seg :: rest)
    else let '(removed, kept) := pruneLoop events cutoff (total - segment_size seg) rest in
         (segment_path seg :: removed, kept).
Proof. by destruct rest. Qed.

Lemma pruneLoop_split events cutoff total segs removed kept :
  pruneLoop events cutoff total segs = (removed, kept) ->
  exists pre, segs = pre ++ kept /\ removed = map segment_path pre /\
    (segs <> [] -> kept <> []).
Proof.
  revert total removed kept. induction segs as [|seg rest IH]; intros total removed kept.
  - intros [= <- <-]. by exists [].
  - rewrite pruneLoop_cons. destruct (Z.eqb_spec (llen rest) 0) as [|Ne]; cbn [orb];
      [intros [= <- <-]; by exists []|].
    destruct (_ && _); [intros [= <- <-]; by exists []|].
    destruct (pruneLoop _ _ _ _) as [r k] eqn:E. intros [= <- <-].
    destruct (IH _ _ _ E) as (pre & S & Rm & N). exists (seg :: pre).
    rewrite S, Rm. split; [done|]. split; [done|]. intros _. apply N. by intros ->.
Qed.

Lemma pruned_split now o : exists pre kept,
  o_segments o = pre ++ kept /\ (o_segments o <> [] -> kept <> []) /\
  fst (pruned now o) = map segment_path pre /\
  snd (pruned now o) = o_set_events
    (filter (fun e => storedEvent_segment e ∉ map segment_path pre) (o_events o))
    (o_set_segments kept o).
Proof.
  unfold pruned. destruct (pruneLoop _ _ _ _) as [removed kept] eqn:E.
  destruct (pruneLoop_split _ _ _ _ _ _ E) as (pre & S & -> & N). exists pre, kept. auto.
Qed.

Lemma StronglySorted_snoc {A} (R : relation A) l x :
  StronglySorted R l -> (forall y, y ∈ l -> R y x) -> StronglySorted R (l ++ [x]).
Proof.
  intros S F. apply StronglySorted_app_2; [|done|by repeat constructor].
  intros y z Y ->%list_elem_of_singleton. by apply F.
Qed.

Lemma sorted_lookup_le {A} (R : relation A) `{!Reflexive R} l i j x y :
  StronglySorted R l -> (i <= j)%nat -> l !! i = Some x -> l !! j = Some y -> R x y.
Proof.
  intros S L X Y. destruct (Nat.eq_dec i j) as [->|N]; [by simplify_eq|].
  apply (StronglySorted_app_1_elem_of R (take (i + 1) l) (drop (i + 1) l)); [by rewrite take_drop| |].
  - apply list_elem_of_lookup_2 with i. rewrite lookup_take_lt by lia. done.
  - apply list_elem_of_lookup_2 with (j - (i + 1))%nat. rewrite lookup_drop.
    by replace (i + 1 + (j - (i + 1)))%nat with j by lia.
Qed.

Lemma sorted_drop {A} (R : relation A) l n : StronglySorted R l -> StronglySorted R (drop n l).
Proof.
  revert n. induction l as [|x l IH]; intros [|n] S; cbn; [done..|].
  apply IH. by apply StronglySorted_inv in S as [S _].
Qed.

(** The events [pruned] drops are a prefix. *)
Lemma pruned_events H now o : retains H o -> exists n, (n <= length (o_events o))%nat /\
  o_events (snd (pruned now o)) = drop n (o_events o).
Proof.
  intros R. destruct (pruned_split now o) as (pre & kept & S & _ & _ & ->). cbn [o_events o_set_events].
  apply filter_is_drop. intros i j x y L X Y Ry.
  assert (stringLe (storedEvent_segment x) (storedEvent_segment y)) as Le.
  { apply (sorted_lookup_le _ (eventPaths o) i j); [apply R|done|..];
      unfold eventPaths; rewrite list_lookup_fmap; by rewrite ?X, ?Y. }
  assert (storedEvent_segment x ∈ segmentPaths o) as T.
  { apply R. unfold eventPaths. apply list_elem_of_fmap. exists x. split; [done|].
    by apply list_elem_of_lookup_2 with i. }
  pose proof (retains_sorted _ _ R) as So. unfold segmentPaths in T, So.
  rewrite S, map_app in T, So. apply elem_of_app in T as [T|T]; [done|].
  assert (stringLe (storedEvent_segment y) (storedEvent_segment x)) as Ge
    by by eapply StronglySorted_app_1_elem_of.
  by rewrite (anti_symm stringLe _ _ Le Ge).
Qed.

Lemma pruned_rest now o : let o' := snd (pruned now o) in
  o_nodeID o' = o_nodeID o /\ o_streamID o' = o_streamID o /\ o_bootID o' = o_bootID o /\
  o_nextSeq o' = o_nextSeq o /\ o_current o' = o_current o.
Proof. by destruct (pruned_split now o) as (pre & kept & _ & _ & _ & ->). Qed.

Lemma retains_pruned H now o : retains H o -> retains H (snd (pruned now o)).
Proof.
  intros R. destruct (pruned_events H now o R) as (n & N & E).
  destruct (pruned_split now o) as (pre & kept & S & _ & _ & P).
  assert (forall path, path ∈ map segment_path kept -> path ∈ segmentPaths o) as In1.
  { intros path I. unfold segmentPaths. rewrite S, map_app, elem_of_app. by right. }
  destruct R as [Nu Ne (m & M & Su) Na So Gr Ta]. split; [done|..].
  - by rewrite P.
  - exists (m + n)%nat. assert (length (o_events o) = length H - m)%nat as Len.
    { rewrite <- length_drop, <- Su. unfold evs. by rewrite length_map. }
    split; [lia|]. unfold evs in *. by rewrite E, <- skipn_map, Su, drop_drop.
  - intros path. rewrite P. intros I. by apply Na, In1.
  - rewrite P. unfold segmentPaths in *. cbn. rewrite S, map_app in So. by apply StronglySorted_app_1_r in So.
  - unfold eventPaths in *. rewrite E, <- skipn_map. by apply sorted_drop.
  - intros path I. rewrite P in I |- *. unfold eventPaths in I. cbn in I.
    apply list_elem_of_fmap in I as (e & -> & I).
    apply list_elem_of_filter in I as [X I].
    assert (storedEvent_segment e ∈ segmentPaths o) as T.
    { apply Ta. unfold eventPaths. apply list_elem_of_fmap. by exists e. }
    unfold segmentPaths in *. rewrite S, map_app in T. cbn.
    by apply elem_of_app in T as [T|T].
Qed.

(** * The operations *)

Lemma updateLast_snoc f pre seg : updateLast f (pre ++ [seg]) = pre ++ [f seg].
Proof.
  unfold updateLast. rewrite length_app. cbn [length].
  replace (length pre + 1 - 1)%nat with (length pre + 0)%nat by lia. by rewrite alter_app_r.
Qed.

Lemma retains_nameable H o : retains H o -> nameable (o_nextSeq o).
Proof.
  intros R. rewrite (retains_next _ _ R). destruct (retains_numbered _ _ R) as [_ B].
  unfold nameable. pose proof (llen_nonneg H). lia.
Qed.

Lemma retains_current H x o : retains H o -> retains H (o_set_current x o).
Proof. by intros []. Qed.

(** A new segment's path comes last. *)
Lemma retains_rotate H last size created o : retains H o ->
  retains H (o_set_segments
    (o_segments o ++ [mkSegment (segmentName (o_nextSeq o)) (o_nextSeq o) last size created]) o).
Proof.
  intros R. pose proof (retains_nameable _ _ R) as Nm. destruct R as [Nu Ne Su Na So Gr Ta].
  split; [done..| | |done|]; unfold segmentPaths in *; cbn.
  - intros path I. rewrite map_app, elem_of_app in I.
    destruct I as [I| ->%list_elem_of_singleton]; [by apply Na|]. exists (o_nextSeq o). unfold nameable in Nm. split; [lia|done].
  - rewrite map_app. cbn. apply StronglySorted_snoc; [done|]. intros path I.
    destruct (Na path I) as (f & F & ->). apply segmentName_le; unfold nameable in *; lia.
  - intros path I. rewrite map_app, elem_of_app. left. by apply Ta.
Qed.

(** What [Append] does when the line is in the file. *)
Definition appended (event : Event) (size : Z) (o : Outbox) : Outbox :=
  let segments := updateLast (fun seg => mkSegment (segment_path seg) (segment_first seg)
                    (Event_Seq event) (segment_size seg + size) (segment_created seg))
                    (o_segments o) in
  let path := match last segments with Some seg => segment_path seg | None => "" end in
  o_set_nextSeq (u64 (o_nextSeq o + 1))
    (o_set_events (o_events o ++ [mkStoredEvent event path]) (o_set_segments segments o)).

Lemma appended_snoc event size o pre seg : o_segments o = pre ++ [seg] ->
  appended event size o =
    o_set_nextSeq (u64 (o_nextSeq o + 1))
      (o_set_events (o_events o ++ [mkStoredEvent event (segment_path seg)])
        (o_set_segments (pre ++ [mkSegment (segment_path seg) (segment_first seg)
                    (Event_Seq event) (segment_size seg + size) (segment_created seg)]) o)).
Proof. intros E. unfold appended. by rewrite E, updateLast_snoc, last_snoc. Qed.

Lemma appended_paths event size o : o_segments o <> [] -> exists pre path,
  segmentPaths o = pre ++ [path] /\ segmentPaths (appended event size o) = segmentPaths o /\
  o_events (appended event size o) = o_events o ++ [mkStoredEvent event path] /\
  o_nextSeq (appended event size o) = u64 (o_nextSeq o + 1).
Proof.
  intros NE. destruct (exists_last NE) as (pre & seg & E).
  rewrite (appended_snoc _ _ _ _ _ E). exists (map segment_path pre), (segment_path seg).
  unfold segmentPaths. cbn. rewrite E, !map_app. done.
Qed.

Lemma retains_appended H event size o : retains H o -> o_segments o <> [] ->
  Event_Seq event = o_nextSeq o -> llen H + 2 < 2 ^ 64 ->
  retains (H ++ [event]) (appended event size o).
Proof.
  intros R NE Q B. destruct (appended_paths event size o NE) as (pre & path & P & Mp & Ev & Nx).
  destruct R as [[Nu Bd] Ne (m & M & Su) Na So Gr Ta].
  assert (llen (H ++ [event]) = llen H + 1) as Len by (unfold llen; rewrite length_app; cbn; lia).
  assert (u64 (o_nextSeq o + 1) = o_nextSeq o + 1) as U.
  { unfold u64. apply Z.mod_small. pose proof (llen_nonneg H). lia. }
  assert (path ∈ segmentPaths o) as Ip by (rewrite P; apply elem_of_app; right; by left).
  split; rewrite ?Mp, ?Nx, ?U; [| | | |done|..].
  - split; [|lia]. apply consecutive_snoc; [done|]. lia.
  - lia.
  - exists m. rewrite length_app. split; [lia|]. unfold evs in *. rewrite Ev, map_app, Su. cbn.
    by rewrite drop_app_le by lia.
  - intros x I. destruct (Na x I) as (f & F & ->). exists f. split; [lia|done].
  - unfold eventPaths in *. rewrite Ev, map_app. cbn. apply StronglySorted_snoc; [done|].
    intros x I%Ta. rewrite P in So, I.
    apply elem_of_app in I as [I| ->%list_elem_of_singleton]; [|done].
    eapply StronglySorted_app_1_elem_of; [exact So|done|by left].
  - intros x. unfold eventPaths in *. rewrite Ev, map_app, elem_of_app.
    by intros [I%Ta| ->%list_elem_of_singleton].
Qed.

(** The outbox holds a suffix of [H], and [P] of its settings. *)
Definition remembering (H : list Event) (P : Outbox -> Prop) : Box -> Prop :=
  fun b => retains H (bx_outbox b) /\ P (bx_outbox b).

(** Properties that depend on the identities and the next number alone. *)
Definition settled (P : Outbox -> Prop) : Prop := forall o o',
  o_nodeID o' = o_nodeID o -> o_streamID o' = o_streamID o -> o_bootID o' = o_bootID o ->
  o_nextSeq o' = o_nextSeq o -> P o -> P o'.

(** [Box] predicates on the outbox alone. *)
Definition onBox (P : Outbox -> Prop) : Box -> Prop := fun b => P (bx_outbox b).

(** The outbox was fixed: put what it is for its name. *)
Ltac fixed := intros; subst; unfold remembering, onBox in *; subst; naive_solver.

Lemma triple_closeCurrent H P f : settled P ->
  triple (remembering H P) (closeCurrent f) (fun _ => remembering H P) (remembering H P).
Proof.
  intros St. unfold closeCurrent. destruct (osFile_closed f); [apply triple_throw; tauto|].
  eapply triple_bind.
  - apply (triple_updating (fun o => retains H o /\ P o) (fun o => retains H o /\ P o)).
    intros o [R Po]. split; [by apply retains_current|]. by apply (St o).
  - intros []. apply (triple_onMachine (fun o => retains H o /\ P o)).
Qed.

Lemma triple_rotate H P n : settled P -> (forall o, P o -> o_nextSeq o = n) ->
  triple (remembering H P) (Outbox_rotateLocked n)
    (fun _ => remembering H (fun o => P o /\ o_segments o <> [])) (remembering H P).
Proof.
  intros St N. unfold Outbox_rotateLocked.
  apply (triple_this (fun o => retains H o /\ P o)). intros o [R Po].
  eapply triple_bind with (R := fun _ => remembering H P).
  { destruct (o_current o); [|by apply triple_ret; fixed].
    eapply triple_weaken; [by apply (triple_closeCurrent H P)|by fixed|done|done]. }
  intros []. eapply triple_bind; [apply (triple_onMachine (fun o => retains H o /\ P o))|].
  intros file. eapply triple_bind.
  { apply (triple_updating (fun o => retains H o /\ P o) (fun o => retains H o /\ P o)).
    intros o' [R' P']. split; [by apply retains_current|]. by apply (St o'). }
  intros []. eapply triple_bind; [apply (triple_onMachine (fun o => retains H o /\ P o))|].
  intros now. apply (triple_updating (fun o => retains H o /\ P o)
    (fun o => retains H o /\ P o /\ o_segments o <> [])). intros o' [R' P'].
  rewrite <- (N _ P'). split; [by apply retains_rotate|].
  split; [by apply (St o')|]. cbn. by destruct (o_segments o').
Qed.

Lemma triple_rotationDue (P : Outbox -> Prop) size :
  triple (onBox P) (rotationDue size)
    (fun due => onBox (fun o => P o /\ (due = false -> o_segments o <> []))) (onBox P).
Proof.
  unfold rotationDue. apply triple_this. intros o Po.
  destruct (o_current o); [|by apply triple_ret; fixed].
  destruct (last (o_segments o)) as [seg|] eqn:L; [|by apply triple_ret; fixed].
  assert (o_segments o <> []) as NE by (intros E; by rewrite E in L).
  destruct (_ <? _); [by apply triple_ret; fixed|].
  eapply triple_bind; [eapply triple_weaken;
    [apply (triple_onMachine (eq o))|done|done|by fixed]|].
  intros now. apply triple_ret. by fixed.
Qed.

(** ** Appending *)

(** The settings [Append] starts from. *)
Definition startsAs (o0 : Outbox) (o : Outbox) : Prop :=
  o_nodeID o = o_nodeID o0 /\ o_streamID o = o_streamID o0 /\ o_bootID o = o_bootID o0 /\
  o_nextSeq o = o_nextSeq o0.

Lemma settled_startsAs o0 : settled (startsAs o0).
Proof. unfold settled, startsAs. intuition congruence. Qed.

(** The event a successful [Append] returns. *)
Definition eventOf `{J : OutboxJSON} (o0 : Outbox) (payload : TelemetryEvent) (event : Event) : Prop :=
  exists t raw line, MarshalPayload payload = inr raw /\
    event = mkEvent (o_nextSeq o0) t (o_bootID o0) (EventType payload) raw /\
    MarshalEvent event = inr line.

(** Reading the clock does not fail. *)
Lemma triple_clockNow (P : Outbox -> Prop) E :
  triple (onBox P) (onMachine clockNow) (fun _ => onBox P) E.
Proof. by intros b. Qed.

Lemma os_Remove_total path k : exists k', os_Remove path k = (inr tt, k').
Proof.
  unfold os_Remove, mbind, M_bind, bind, try.
  destruct (syscall k) as [[e|[]] k1]; by eexists.
Qed.

Lemma removeAll_total paths k : exists k', removeAll paths k = (inr tt, k').
Proof.
  revert k. induction paths as [|path rest IH]; intros k; [by eexists|]. cbn.
  destruct (os_Remove_total path k) as [k1 E]. unfold mbind, M_bind, bind. rewrite E. apply IH.
Qed.

(** Retention keeps the invariant and the settings. *)
Lemma triple_pruneLocked (P : Outbox -> Prop) now E :
  (forall o, P o -> P (snd (pruned now o))) ->
  triple (onBox P) (Outbox_pruneLocked now) (fun _ => onBox P) E.
Proof.
  intros W. unfold Outbox_pruneLocked. apply (triple_this P). intros o Po. specialize (W o Po).
  destruct (pruned now o) as [removed o']. intros b' <-. unfold onMachine, updating, modify, mbind, M_bind, bind.
  unfold onBox in *. cbn in *.
  destruct (removeAll_total removed (bx_machine b')) as [k' ->]. done.
Qed.

(** A failed [Append] records nothing; a successful one records the event under
    the next number, and may drop old events. *)
Lemma triple_Append `{J : OutboxJSON} H o0 payload t :
  triple (remembering H (startsAs o0)) (Outbox_Append payload t)
    (fun event b => eventOf o0 payload event /\
       (llen H + 2 < 2 ^ 64 -> retains (H ++ [event]) (bx_outbox b)) /\
       o_nodeID (bx_outbox b) = o_nodeID o0 /\ o_streamID (bx_outbox b) = o_streamID o0 /\
       o_bootID (bx_outbox b) = o_bootID o0)
    (remembering H (startsAs o0)).
Proof.
  set (I := fun o => retains H o /\ startsAs o0 o). unfold Outbox_Append.
  eapply triple_bind with (R := fun raw b => MarshalPayload payload = inr raw /\ I (bx_outbox b)).
  { apply triple_fromResult. intros b Ib. by destruct (MarshalPayload payload). }
  intros raw. apply triple_pre. intros b0 [Mp Ib0].
  eapply triple_bind with (R := fun _ => onBox I).
  { destruct (IsZero t); [|by apply triple_ret; fixed].
    eapply triple_weaken; [apply (triple_onMachine I)|by fixed|done|done]. }
  intros at_. apply (triple_this I). intros o [R S].
  eapply triple_bind with (R := fun line b => MarshalEvent (mkEvent (o_nextSeq o) (UTC at_)
    (o_bootID o) (EventType payload) raw) = inr line /\ I (bx_outbox b)).
  { apply triple_fromResult. intros b <-. destruct (MarshalEvent _); [exact (conj R S)|exact (conj eq_refl (conj R S))]. }
  set (event := mkEvent _ _ _ _ _). intros line. apply triple_pre. intros b1 [Me Ib1].
  assert (eventOf o0 payload event) as Eo.
  { exists (UTC at_), raw, line. split; [done|]. split; [|done]. unfold event.
    destruct S as (_ & _ & -> & ->). done. }
  assert (Event_Seq event = o_nextSeq o0) as Sq by apply S.
  clearbody event. clear R S o Mp Me Ib0 b0.
  eapply triple_bind.
  { eapply triple_weaken; [apply (triple_rotationDue I)|by fixed|done|done]. }
  intros due. eapply triple_bind with (R := fun _ => onBox (fun o => I o /\ o_segments o <> [])).
  { destruct due.
    - eapply triple_weaken; [apply (triple_rotate H (startsAs o0))|..].
      + apply settled_startsAs.
      + intros o' S. rewrite Sq. apply S.
      + by intros b [? _].
      + intros [] b (? & ? & ?). done.
      + done.
    - apply triple_ret. intros b [? E]. split; [done|]. by apply E. }
  intros []. apply (triple_this (fun o => I o /\ o_segments o <> [])). intros o [Io NE].
  destruct (o_current o) as [file|]; [|by apply triple_throw; fixed].
  eapply triple_bind; [eapply triple_weaken;
    [apply (triple_onMachine (eq o))|done|done|by fixed]|]. intros [].
  eapply triple_bind; [eapply triple_weaken;
    [apply (triple_onMachine (eq o))|done|done|by fixed]|]. intros [].
  set (J1 := fun o' => (llen H + 2 < 2 ^ 64 -> retains (H ++ [event]) o') /\
    o_nodeID o' = o_nodeID o0 /\ o_streamID o' = o_streamID o0 /\ o_bootID o' = o_bootID o0).
  destruct Io as [R (Sn & Ss & Sb & Sx)].
  eapply triple_bind with (R := fun _ => onBox J1).
  { apply (triple_updating (eq o) J1). intros o' <-.
    destruct (exists_last NE) as (pre & seg & E).
    pose proof (appended_snoc event (slen (line +:+ newline)) o pre seg E) as A.
    unfold J1. split; [intros Room; apply retains_appended; congruence|].
    fold (appended event (slen (line +:+ newline)) o). by rewrite A. }
  intros []. eapply triple_bind with (R := fun _ => onBox J1); [by apply triple_clockNow|].
  intros now. eapply triple_bind.
  { apply (triple_pruneLocked J1). intros o' (A & B).
    split; [intros Room; by apply retains_pruned, A|].
    destruct (pruned_rest (UTC now) o') as (-> & -> & -> & _). done. }
  intros []. apply triple_ret. done.
Qed.

(** ** Closing *)

Lemma triple_Close H P : settled P ->
  triple (remembering H P) Outbox_Close (fun _ => remembering H P) (remembering H P).
Proof.
  intros St. unfold Outbox_Close. apply (triple_this (fun o => retains H o /\ P o)). intros o [R Po].
  destruct (o_current o) as [f|]; [|by apply triple_ret; fixed].
  eapply triple_bind with (R := fun _ => remembering H P).
  { apply triple_try. eapply triple_weaken; [by apply (triple_closeCurrent H P)|by fixed|..].
    - done.
    - done. }
  intros r. eapply triple_bind.
  { apply (triple_updating (fun o => retains H o /\ P o) (fun o => retains H o /\ P o)).
    intros o' [R' P']. split; [by apply retains_current|]. by apply (St o'). }
  intros []. apply triple_fromResult. intros b Hb. by destruct r.
Qed.

