(* ===== verification/OutboxDisk.v ===== *)
(** The text of a segment file, which the scanner reads back line by line; and the
    invariant that ties the outbox to its directory, and what opening an
    outbox finds there when no system call fails. *)

From S2P Require Export OutboxRun.

Section text.
Context `{OutboxJSON}.

Definition lineOf (e : Event) : string :=
  match MarshalEvent e with inr line => line | inl _ => "" end.

(** A segment file with the events [es]. *)
Fixpoint fileText (es : list Event) : string :=
  match es with
  | [] => EmptyString
  | e :: r => (lineOf e +:+ newline) +:+ fileText r
  end.

(** An event that its line gives back, and that fits the scanner's buffer. *)
Record storable (e : Event) : Prop := {
  storable_printed : MarshalEvent e = inr (lineOf e);
  storable_read : UnmarshalEvent (lineOf e) = Some e;
  storable_line : noBreaks (lineOf e) = true;
  storable_short : slen (lineOf e) < maxTokenSize;
  storable_seq : Event_Seq e <> 0;
  storable_type : Event_Type e <> ""
}.

Lemma fileText_app es es' : fileText (es ++ es') = fileText es +:+ fileText es'.
Proof. induction es as [|e es IH]; [done|]. cbn. by rewrite IH, !string_app_assoc. Qed.

Lemma fileText_snoc es e : fileText (es ++ [e]) = fileText es +:+ (lineOf e +:+ newline).
Proof. rewrite fileText_app. cbn. by rewrite string_app_nil. Qed.

Lemma splitLines_line line rest : noBreaks line = true ->
  splitLines ((line +:+ newline) +:+ rest) = line :: splitLines rest.
Proof.
  induction line as [|c line IH]; intros N; [done|].
  change ((String c line +:+ newline) +:+ rest)
    with (String c ((line +:+ newline) +:+ rest)).
  cbn in N. apply andb_true_iff in N as [[N1 N2]%andb_true_iff N].
  cbn [splitLines]. rewrite IH by done. by destruct (byte_val c =? 10).
Qed.

(** A last line without its line break. *)
Lemma splitLines_last tail : noBreaks tail = true -> tail <> "" -> splitLines tail = [tail].
Proof.
  induction tail as [|c tail IH]; intros N E; [done|]. cbn in N.
  apply andb_true_iff in N as [[N1 N2]%andb_true_iff N]. cbn [splitLines].
  destruct (byte_val c =? 10); [done|]. destruct tail as [|d tail]; [done|]. by rewrite IH.
Qed.

Lemma splitLines_text es tail : Forall storable es ->
  splitLines (fileText es +:+ tail) = map lineOf es ++ splitLines tail.
Proof.
  induction 1 as [|e es S _ IH]; [done|]. cbn [fileText map]. rewrite string_app_assoc.
  rewrite splitLines_line by apply S. cbn. by rewrite IH.
Qed.

Lemma stake_sdrop n s : stake n s +:+ sdrop n s = s.
Proof.
  revert s. induction n as [|n IH]; intros [|c s]; [done..|]. cbn [stake sdrop].
  change (String c (stake n s) +:+ sdrop n s) with (String c (stake n s +:+ sdrop n s)).
  by rewrite IH.
Qed.

Lemma noBreaks_app s t : noBreaks (s +:+ t) = noBreaks s && noBreaks t.
Proof.
  induction s as [|c s IH]; [done|].
  change (String c s +:+ t) with (String c (s +:+ t)). cbn. by rewrite IH, andb_assoc.
Qed.

Lemma noBreaks_stake n s : noBreaks s = true -> noBreaks (stake n s) = true.
Proof.
  intros N. rewrite <- (stake_sdrop n s), noBreaks_app in N. by apply andb_true_iff in N as [N _].
Qed.

Lemma dropCR_noBreaks line : noBreaks line = true -> dropCR line = line.
Proof.
  intros N. unfold dropCR, TrimSuffix. destruct (HasSuffix line _) eqn:E; [|done].
  unfold HasSuffix in E. apply andb_true_iff in E as [_ E%String.eqb_eq].
  rewrite <- (stake_sdrop (String.length line - 1) line), noBreaks_app in N.
  cbn [String.length] in E. rewrite E in N. by apply andb_true_iff in N as [_ N].
Qed.

Lemma LimitReader_all data n : slen data <= n -> LimitReader data n = data.
Proof. unfold LimitReader. intros L. by destruct (Z.leb_spec (slen data) n); [|lia]. Qed.

(** * Loading a segment *)

Definition tag (path : string) (es : list Event) : list storedEvent :=
  map (fun e => mkStoredEvent e path) es.

Definition addEvents (es : list storedEvent) (o : Outbox) : Outbox :=
  o_set_events (o_events o ++ es) o.

(** The scanner's loop over good lines, and whatever follows them. *)
Lemma loadEvents_good es rest seg b : Forall storable es ->
  exists seg', loadEvents seg (map lineOf es ++ rest) b =
    loadEvents seg' rest (mkBox (addEvents (tag (segment_path seg) es) (bx_outbox b)) (bx_machine b)) /\
  segment_path seg' = segment_path seg /\ segment_size seg' = segment_size seg /\
  (es <> [] -> segment_first seg' <> 0) /\ (segment_first seg <> 0 -> segment_first seg' <> 0).
Proof.
  intros F. revert seg b. induction F as [|e es S _ IH]; intros seg [o k].
  - exists seg. unfold addEvents. cbn. rewrite app_nil_r. by destruct o.
  - cbn [map app loadEvents]. destruct (Z.leb_spec maxTokenSize (slen (lineOf e))) as [X|_];
      [pose proof (storable_short _ S); lia|].
    rewrite dropCR_noBreaks by apply S. rewrite (storable_read _ S).
    rewrite (proj2 (Z.eqb_neq _ _) (storable_seq _ S)).
    rewrite (proj2 (String.eqb_neq _ _) (storable_type _ S)). cbn [orb].
    unfold updating, modify, mbind, M_bind, bind.
    set (seg1 := mkSegment _ _ _ _ _). edestruct (IH seg1) as (seg' & E & P & Z1 & Fi & Fi').
    exists seg'. rewrite E. cbn [bx_outbox bx_machine]. split; [|split; [done|split; [done|]]].
    + do 2 f_equal. unfold addEvents. destruct o; cbn. by rewrite <- app_assoc.
    + assert (segment_first seg1 <> 0) as N1.
      { cbn. destruct (Z.eqb_spec (segment_first seg) 0); [by apply S|done]. }
      split; intros _; by apply Fi'.
Qed.
End text.

(** A segment: the number it is named after and its events. *)
Record group : Type := mkGroup { g_first : Z; g_events : list Event }.
Definition g_path (g : group) : string := segmentName (g_first g).
Definition tagged (g : group) : list storedEvent := tag (g_path g) (g_events g).

Section disk.
Context `{OutboxJSON}.

Definition goodGroup (next : Z) (g : group) : Prop :=
  g_events g <> [] /\ Forall storable (g_events g) /\
  slen (fileText (g_events g)) <= maxSegmentBytes /\ 0 <= g_first g < next.

Definition groupOnDisk (d : Disk) (g : group) : Prop := exists t,
  d_files d !! g_path g = Some (mkSegmentFile (fileText (g_events g)) t).

Definition segmentOf (seg : segment) (g : group) : Prop :=
  segment_path seg = g_path g /\ segment_size seg = slen (fileText (g_events g)).

(** The identities on the disk are those of the outbox. *)
Record identified (o : Outbox) (d : Disk) : Prop := {
  id_node : exists data, d_node d = Some data /\ TrimSpace data = o_nodeID o;
  id_node_size : 0 < slen (o_nodeID o) <= 128;
  id_meta : exists data, d_meta d = Some data /\ UnmarshalMetadata data = Some (o_streamID o);
  id_stream : goodStream (o_streamID o) /\ TrimSpace (o_streamID o) <> ""
}.

(** [G] are the segments of the directory, in order. *)
Record laidOut (G : list group) (next : Z) (d : Disk) : Prop := {
  lo_groups : Forall (goodGroup next) G;
  lo_files : Forall (groupOnDisk d) G;
  lo_sorted : StronglySorted Z.lt (map g_first G);
  lo_listed : forall name, is_Some (d_files d !! name) -> HasSuffix name ".jsonl" = true ->
    name ∈ map g_path G;
  lo_room : 0 < next < 2 ^ 64
}.

Record stored (G : list group) (o : Outbox) (d : Disk) : Prop := {
  st_layout : laidOut G (o_nextSeq o) d;
  st_ids : identified o d;
  st_events : o_events o = flat_map tagged G;
  st_segments : Forall2 segmentOf (o_segments o) G;
  st_next : o_nextSeq o = match last (evs o) with Some e => Event_Seq e + 1 | None => 1 end;
  st_current : match o_current o with
               | None => True
               | Some f => osFile_closed f = false /\ last (map g_path G) = Some (osFile_path f)
               end
}.

(** * The names *)

Lemma group_nameable G next d g : laidOut G next d -> g ∈ G -> nameable (g_first g).
Proof.
  intros [Gr _ _ _ Ro] I. rewrite Forall_forall in Gr. apply Gr in I as (_ & _ & _ & B).
  unfold nameable. lia.
Qed.

Lemma next_nameable G next d : laidOut G next d -> nameable next.
Proof. intros [_ _ _ _ Ro]. unfold nameable. lia. Qed.

Lemma paths_sorted G next d : laidOut G next d -> StronglySorted stringLe (map g_path G).
Proof.
  intros L. pose proof (lo_sorted _ _ _ L) as S. assert (Forall (fun g => nameable (g_first g)) G) as N.
  { apply Forall_forall. intros g. by apply (group_nameable _ _ _ _ L). }
  clear L. induction N as [|g G Ng N IH]; [constructor|]. cbn in *.
  apply StronglySorted_inv in S as [S F]. constructor; [by apply IH|].
  rewrite Forall_map in F |- *. rewrite Forall_forall in N, F |- *. intros g' I.
  apply segmentName_le; [done|by apply N|]. specialize (F g' I). cbn in F. lia.
Qed.

Lemma firsts_NoDup (l : list Z) : StronglySorted Z.lt l -> NoDup l.
Proof.
  induction l as [|x l IH]; intros S; constructor.
  - apply StronglySorted_inv in S as [_ F]. rewrite Forall_forall in F. intros I.
    specialize (F x I). lia.
  - apply IH. by apply StronglySorted_inv in S as [S _].
Qed.

Lemma paths_NoDup G next d : laidOut G next d -> NoDup (map g_path G).
Proof.
  intros L. pose proof (firsts_NoDup _ (lo_sorted _ _ _ L)) as N.
  assert (forall g, g ∈ G -> nameable (g_first g)) as Nm
    by (intros g; by apply (group_nameable _ _ _ _ L)).
  clear L. induction G as [|g G IH]; [constructor|]. cbn in *.
  apply NoDup_cons in N as [N1 N]. constructor.
  - intros I. apply N1. apply list_elem_of_fmap in I as (g' & E & I).
    apply segmentName_inj in E; [|by apply Nm; left|by apply Nm; right].
    apply list_elem_of_fmap. by exists g'.
  - apply IH; [done|]. intros g' I. apply Nm. by right.
Qed.

(** The path of a segment still to come is new. *)
Lemma next_path_fresh G next d : laidOut G next d -> d_files d !! segmentName next = None.
Proof.
  intros L. destruct (d_files d !! segmentName next) eqn:E; [|done].
  assert (segmentName next ∈ map g_path G) as I.
  { apply (lo_listed _ _ _ L); [by eexists|apply segmentName_suffix]. }
  apply list_elem_of_fmap in I as (g & X & I).
  apply segmentName_inj in X; [|by eapply next_nameable|by eapply group_nameable].
  pose proof (lo_groups _ _ _ L) as Gr. rewrite Forall_forall in Gr.
  apply Gr in I as (_ & _ & _ & B). lia.
Qed.

(** * Reading the directory *)

(** The names are sorted, whatever the files hold. *)
Lemma triple_globNames names d E : StronglySorted stringLe names -> NoDup names ->
  (forall name, name ∈ names <-> is_Some (d_files d !! name) /\ HasSuffix name ".jsonl" = true) ->
  triple (diskIs d) globSegments (fun l k => l = names /\ diskIs d k) E.
Proof.
  intros So Nd Same k [D R]. unfold globSegments, try, mbind, M_bind, bind, syscall, get. cbn.
  rewrite R. cbn. rewrite R. cbn. rewrite R. cbn. split; [|by split].
  assert (k_files k = d_files d) as -> by by rewrite <- D.
  apply sort_Strings_unique; [done|]. apply NoDup_Permutation; [|done|].
  - apply NoDup_filter. apply (NoDup_fst_map_to_list (d_files d)).
  - intros name. rewrite list_elem_of_filter, Same. split.
    + intros [S I]. split; [|done]. apply list_elem_of_fmap in I as ([n f] & -> & I).
      apply elem_of_map_to_list in I. by eexists.
    + intros [[f Ef] S]. split; [done|]. apply elem_of_map_to_list in Ef.
      apply list_elem_of_fmap. by exists (name, f).
Qed.

Lemma paths_listed G next d : laidOut G next d -> forall name,
  name ∈ map g_path G <-> is_Some (d_files d !! name) /\ HasSuffix name ".jsonl" = true.
Proof.
  intros L name. split.
  - intros I. apply list_elem_of_fmap in I as (g & -> & I). split; [|apply segmentName_suffix].
    pose proof (lo_files _ _ _ L) as F. rewrite Forall_forall in F. destruct (F g I) as [t Ft].
    by eexists.
  - intros [S X]. by apply (lo_listed _ _ _ L).
Qed.

Lemma triple_globSegments G next d E : laidOut G next d ->
  triple (diskIs d) globSegments (fun names k => names = map g_path G /\ diskIs d k) E.
Proof.
  intros L. apply triple_globNames; [by eapply paths_sorted|by eapply paths_NoDup|].
  by eapply paths_listed.
Qed.

Definition addSegment (seg : segment) (o : Outbox) : Outbox :=
  o_set_segments (o_segments o ++ [seg]) o.

Lemma triple_loadSegment o d g next E : goodGroup next g -> groupOnDisk d g ->
  triple (at_ o d) (Outbox_loadSegment (g_path g))
    (fun _ b => exists seg, segmentOf seg g /\ at_ (addSegment seg (addEvents (tagged g) o)) d b) E.
Proof.
  intros (NE & St & Sz & _) [t Ft]. unfold Outbox_loadSegment.
  eapply triple_bind; [apply triple_syscall_at|]. intros [].
  apply triple_get. intros b [Eo [Dk _]].
  replace (k_files (bx_machine b)) with (d_files d) by by rewrite <- Dk.
  rewrite Ft. cbn [segmentFile_data segmentFile_mtime].
  eapply triple_bind; [apply triple_syscall_at|]. intros [].
  eapply triple_bind; [apply triple_syscall_at|]. intros [].
  rewrite LimitReader_all by lia.
  rewrite <- (string_app_nil (fileText _)), splitLines_text by done. cbn [splitLines].
  rewrite string_app_nil. clear b Eo Dk. intros b [Eo Db].
  unfold mbind, M_bind, bind.
  edestruct (loadEvents_good (g_events g) [] (mkSegment (g_path g) 0 0
    (slen (fileText (g_events g))) (UTC t)) b St) as (seg & -> & P & Q & Fi & _).
  cbn [loadEvents]. unfold ret. cbn in P, Q. rewrite (proj2 (Z.eqb_neq _ _) (Fi NE)). cbn.
  exists seg. split; [by split|]. split; [|done]. by rewrite <- Eo.
Qed.

Lemma triple_loadSegments o d G next E : Forall (goodGroup next) G -> Forall (groupOnDisk d) G ->
  triple (at_ o d) (loadSegments (map g_path G))
    (fun _ b => exists segs, Forall2 segmentOf segs G /\
       at_ (o_set_segments (o_segments o ++ segs) (addEvents (flat_map tagged G) o)) d b) E.
Proof.
  intros Gg. revert o. induction Gg as [|g G Hg Gg IH]; intros o F; cbn [map loadSegments].
  - apply triple_ret. intros b B. exists []. split; [constructor|].
    unfold addEvents. cbn. rewrite !app_nil_r. by destruct o.
  - apply Forall_cons in F as [Fg F]. eapply triple_bind; [by eapply triple_loadSegment|].
    intros []. apply triple_exists. intros seg. apply triple_fact. intros Sg.
    eapply triple_weaken; [by apply IH|done| |done].
    intros [] b (segs & S & B). exists (seg :: segs). split; [by constructor|].
    unfold addSegment, addEvents in *. cbn in *. by rewrite <- !app_assoc in B.
Qed.
End disk.

(** Retention on the disk, and opening an outbox that was used before. *)

(** * Removing segments *)

Definition removeFiles (paths : list string) (d : Disk) : Disk :=
  mkDisk (d_node d) (d_meta d) (foldl (fun files path => delete path files) (d_files d) paths).

Lemma triple_removeAll paths d E :
  triple (diskIs d) (removeAll paths) (fun _ => diskIs (removeFiles paths d)) E.
Proof.
  revert d. induction paths as [|path rest IH]; intros d; cbn [removeAll].
  - apply triple_ret. intros k. by destruct d.
  - eapply triple_bind with (R := fun _ => diskIs (removeFiles [path] d)).
    + intros k [<- R]. unfold os_Remove, try, mbind, M_bind, bind, syscall. rewrite R. done.
    + intros []. apply (IH (removeFiles [path] d)).
Qed.

Lemma triple_pruneLocked_at o d now E :
  triple (at_ o d) (Outbox_pruneLocked now)
    (fun _ => at_ (snd (pruned now o)) (removeFiles (fst (pruned now o)) d)) E.
Proof.
  unfold Outbox_pruneLocked. apply triple_this_at. destruct (pruned now o) as [removed o'].
  eapply triple_bind; [exact (triple_onMachine_at o d _ _ E (triple_removeAll removed d _))|].
  intros []. intros b [_ D]. by split.
Qed.

Lemma removeFiles_lookup paths d path :
  d_files (removeFiles paths d) !! path =
    if decide (path ∈ paths) then None else d_files d !! path.
Proof.
  unfold removeFiles. cbn [d_files]. generalize (d_files d). induction paths as [|p paths IH];
    intros m; cbn [foldl]; [by destruct (decide _) as [I%not_elem_of_nil|]|].
  rewrite IH. destruct (decide (path ∈ paths)) as [I|N];
    [by rewrite decide_True by by right|].
  destruct (decide (path = p)) as [->|Ne].
  - rewrite lookup_delete_eq. by rewrite decide_True by by left.
  - rewrite lookup_delete_ne by done. rewrite decide_False; [done|].
    rewrite elem_of_cons. tauto.
Qed.

Section reopen.
Context `{OutboxJSON}.

Lemma evs_tagged G o : o_events o = flat_map tagged G -> evs o = flat_map g_events G.
Proof.
  unfold evs. intros ->. induction G as [|g G IH]; [done|]. cbn. rewrite map_app, IH. f_equal.
  unfold tagged, tag. rewrite map_map. apply map_id.
Qed.

(** The events of the segments that are not removed. *)
Lemma filter_tagged G1 G2 : NoDup (map g_path (G1 ++ G2)) ->
  filter (fun e => storedEvent_segment e ∉ map g_path G1) (flat_map tagged (G1 ++ G2)) =
  flat_map tagged G2.
Proof.
  intros N. rewrite flat_map_app, filter_app, map_app in *.
  apply NoDup_app in N as (_ & D & _).
  assert (forall G, (forall g, g ∈ G -> g_path g ∈ map g_path G1) ->
    filter (fun e => storedEvent_segment e ∉ map g_path G1) (flat_map tagged G) = []) as F1.
  { intros G. induction G as [|g G IH]; intros I; [done|]. cbn. rewrite filter_app, IH by (intros; apply I; by right).
    rewrite app_nil_r. unfold tagged, tag. assert (g_path g ∈ map g_path G1) as Ig by (apply I; by left).
    induction (g_events g) as [|e es IHe]; [done|]. cbn [map].
    by rewrite filter_cons_False by (cbn; tauto). }
  rewrite F1 by (intros g I; by apply list_elem_of_fmap_2). cbn.
  apply filter_all. apply Forall_forall. intros e I%list_elem_of_In%in_flat_map.
  destruct I as (g & Ig & Ie). unfold tagged, tag in Ie. apply in_map_iff in Ie as (x & <- & _). cbn.
  intros I1. apply (D _ I1). apply list_elem_of_fmap_2. by apply list_elem_of_In.
Qed.

Lemma last_app_r {A} (l k : list A) : k <> [] -> last (l ++ k) = last k.
Proof.
  intros N. destruct (exists_last N) as (k' & x & ->). by rewrite app_assoc, !last_snoc.
Qed.

Lemma segmentOf_paths segs G : Forall2 segmentOf segs G -> map segment_path segs = map g_path G.
Proof. induction 1 as [|seg g segs G [P _] _ IH]; [done|]. cbn. by rewrite P, IH. Qed.

Lemma stored_paths G o d : stored G o d -> segmentPaths o = map g_path G.
Proof. intros S. apply segmentOf_paths, S. Qed.

Lemma laidOut_removed G1 G2 next d : laidOut (G1 ++ G2) next d ->
  laidOut G2 next (removeFiles (map g_path G1) d).
Proof.
  intros L. pose proof (paths_NoDup _ _ _ L) as N. rewrite map_app in N.
  apply NoDup_app in N as (_ & D & _). destruct L as [Gr Fi So Li Ro].
  apply Forall_app in Gr as [_ Gr]. apply Forall_app in Fi as [_ Fi].
  rewrite map_app in So. apply StronglySorted_app_1_r in So. split; [done| |done| |done].
  - rewrite Forall_forall in Fi |- *. intros g I. destruct (Fi g I) as [t Ft]. exists t.
    rewrite removeFiles_lookup, decide_False; [done|]. intros I1.
    apply (D _ I1). by apply list_elem_of_fmap_2.
  - intros name. rewrite removeFiles_lookup. destruct (decide _) as [I|Ni]; [by intros []|].
    intros S X. specialize (Li name S X). rewrite map_app in Li.
    by apply elem_of_app in Li as [Li|Li].
Qed.

Lemma stored_pruned G o d now : stored G o d -> exists G1 G2,
  G = G1 ++ G2 /\ (G <> [] -> G2 <> []) /\
  stored G2 (snd (pruned now o)) (removeFiles (fst (pruned now o)) d).
Proof.
  intros S. destruct (pruned_split now o) as (pre & kept & E & Ne & P1 & P2).
  destruct (pruned_rest now o) as (In1 & In2 & In3 & In4 & In5).
  pose proof (st_segments _ _ _ S) as Sg. rewrite E in Sg.
  apply Forall2_app_inv_l in Sg as (G1 & G2 & S1 & S2 & ->). exists G1, G2.
  assert (G1 ++ G2 <> [] -> G2 <> []) as N2.
  { intros N ->. apply N. assert (o_segments o <> []) as N'.
    { intros Eo. rewrite Eo in E. symmetry in E. apply app_eq_nil in E as [-> ->].
      inversion S1; subst. done. }
    apply Ne in N'. by apply Forall2_nil_inv_r in S2. }
  split; [done|]. split; [done|].
  assert (map segment_path pre = map g_path G1) as Pp by by apply segmentOf_paths.
  destruct S as [Lo Id Ev _ Nx Cu].
  assert (o_events (snd (pruned now o)) = flat_map tagged G2) as Ev2.
  { rewrite P2. cbn. rewrite Ev, Pp. apply filter_tagged. by eapply paths_NoDup. }
  split.
  - rewrite In4, P1, Pp. by apply laidOut_removed.
  - destruct Id as [I1 I2 I3 I4]. by split; rewrite ?In1, ?In2.
  - done.
  - rewrite P2. exact S2.
  - rewrite In4, Nx. f_equal. rewrite (evs_tagged _ _ Ev), (evs_tagged _ _ Ev2).
    rewrite flat_map_app. destruct G2 as [|g G2].
    + destruct G1 as [|g G1]; [done|]. by destruct N2.
    + rewrite last_app_r; [done|]. pose proof (lo_groups _ _ _ Lo) as Gr.
      apply Forall_app in Gr as [_ Gr]. apply Forall_cons in Gr as [(NE & _) _]. cbn.
      by destruct (g_events g).
  - rewrite In5. destruct (o_current o) as [f|]; [|done]. destruct Cu as [Cl La].
    split; [done|]. rewrite <- La, map_app. symmetry. apply last_app_r. intros X.
    apply map_eq_nil in X. subst. destruct G1 as [|g G1]; [by rewrite app_nil_r in La|by destruct N2].
Qed.

(** * Opening *)

(** The number after the last event of the segments. *)
Definition nextOf (G : list group) : Z :=
  match last (flat_map g_events G) with Some e => Event_Seq e + 1 | None => 1 end.

(** What the directory is loaded into. *)
Record loaded (G : list group) (nodeID streamID bootID : string) (o : Outbox) : Prop := {
  ld_ids : o_nodeID o = nodeID /\ o_streamID o = streamID /\ o_bootID o = bootID;
  ld_events : o_events o = flat_map tagged G;
  ld_segments : Forall2 segmentOf (o_segments o) G;
  ld_current : o_current o = None;
  ld_next : o_nextSeq o = nextOf G
}.

Lemma triple_loadMetadata o d id : (exists data, d_meta d = Some data /\
    UnmarshalMetadata data = Some id) -> TrimSpace id <> "" -> 
  triple (at_ o d) loadMetadata (fun _ => at_ (o_set_streamID id o) d) (fun _ => False).
Proof.
  intros (data & Dm & U) T b [Eo [Dk R]]. unfold loadMetadata, os_ReadFile, onMachine, syscall, try,
    mbind, M_bind, bind, get. cbn -[TrimSpace]. rewrite R. cbn.
  assert (k_meta (bx_machine b) = Some data) as -> by by rewrite <- Dm, <- Dk.
  cbn -[TrimSpace]. rewrite U. rewrite (proj2 (String.eqb_neq _ _) T). cbn -[TrimSpace]. by rewrite <- Eo.
Qed.

Lemma last_tagged G : last (flat_map tagged G) = None <-> last (flat_map g_events G) = None.
Proof.
  rewrite !last_None. induction G as [|g G IH]; [done|]. cbn. unfold tagged, tag.
  destruct (g_events g); cbn; [done|]. by split.
Qed.

Lemma last_map {A B} (f : A -> B) l : last (map f l) = option_map f (last l).
Proof.
  destruct l as [|x l] using rev_ind; [done|]. rewrite map_app. cbn [map]. by rewrite !last_snoc.
Qed.

(** Loading, from what is known of the stream's identity. *)
Lemma triple_load (P : Box -> Prop) (X : string -> Disk -> Prop) G o :
  triple P loadMetadata (fun _ b => exists id d, X id d /\ at_ (o_set_streamID id o) d b)
    (fun _ => False) ->
  (forall id d, X id d -> laidOut G (nextOf G) d) ->
  o_nextSeq o = 1 -> o_events o = [] -> o_segments o = [] -> o_current o = None ->
  triple P Outbox_load
    (fun _ b => exists id d o1 now, X id d /\ loaded G (o_nodeID o) id (o_bootID o) o1 /\
       at_ (snd (pruned now o1)) (removeFiles (fst (pruned now o1)) d) b) (fun _ => False).
Proof.
  intros Me Lx N1 E0 S0 C0. unfold Outbox_load.
  eapply triple_bind; [exact Me|]. intros []. apply triple_exists. intros id.
  apply triple_exists. intros d. apply triple_fact. intros Xd. pose proof (Lx id d Xd) as L.
  eapply triple_bind.
  { apply (triple_onMachine_at _ d globSegments (fun names k => names = map g_path G /\ diskIs d k)).
    by eapply triple_globSegments. }
  intros names. eapply triple_bind with (R := fun _ b => exists segs, Forall2 segmentOf segs G /\
    at_ (o_set_segments segs (o_set_events (flat_map tagged G) (o_set_streamID id o))) d b).
  { intros b (Eo & -> & D). pose proof (triple_loadSegments (o_set_streamID id o) d G (nextOf G)
      (fun _ => False) (lo_groups _ _ _ L) (lo_files _ _ _ L) b (conj Eo D)) as Y.
    destruct (loadSegments _ b) as [[e|[]] b']; [done|]. destruct Y as (segs & Sg & A).
    exists segs. split; [done|]. unfold addEvents in A. cbn in A. by rewrite S0, E0 in A. }
  intros []. apply triple_exists. intros segs. apply triple_fact. intros Sg.
  set (o1 := o_set_segments _ _). apply triple_this_at.
  eapply triple_bind with (R := fun _ => at_ (o_set_nextSeq (nextOf G) o1) d).
  { assert (evs o1 = flat_map g_events G) as Ev by by apply evs_tagged.
    unfold nextOf in *. rewrite <- Ev in *. unfold evs in *. rewrite last_map in *.
    destruct (last (o_events o1)) as [e|]; cbn in *.
    - replace (u64 (Event_Seq (storedEvent_Event e) + 1)) with (Event_Seq (storedEvent_Event e) + 1).
      { apply triple_updating_at. }
      symmetry. unfold u64. apply Z.mod_small. pose proof (lo_room _ _ _ L). lia.
    - apply triple_ret. intros b [Eo D]. split; [|done]. rewrite Eo. unfold o1. cbn.
      destruct o; cbn in *. by subst. }
  intros []. eapply triple_bind; [apply triple_clock_at|]. intros now.
  eapply triple_weaken; [apply (triple_pruneLocked_at (o_set_nextSeq (nextOf G) o1) d (UTC now) (fun _ => False))
    |done| |done].
  intros [] b B. exists id, d, (o_set_nextSeq (nextOf G) o1), (UTC now).
  split; [done|]. split; [|exact B]. by split.
Qed.

(** [Open], from what is known of the two identities. *)
Lemma triple_Open (P : Machine -> Prop) (P1 : string -> Machine -> Prop)
    (X : string -> string -> Disk -> Prop) G path boot :
  triple P (loadOrCreateID path "node_") P1 (fun _ => False) ->
  (forall nodeID k, P1 nodeID k -> reliable k) ->
  (forall nodeID k n, P1 nodeID k -> P1 nodeID (k_set_calls n k)) ->
  (forall nodeID,
     triple (fun b => bx_outbox b = mkOutbox nodeID "" boot 1 [] [] None /\ P1 nodeID (bx_machine b))
       loadMetadata (fun _ b => exists id d, X nodeID id d /\
         at_ (o_set_streamID id (mkOutbox nodeID "" boot 1 [] [] None)) d b) (fun _ => False)) ->
  (forall nodeID id d, X nodeID id d -> laidOut G (nextOf G) d) ->
  triple P (Open path boot)
    (fun o k => exists nodeID id d o1 now, X nodeID id d /\ loaded G nodeID id boot o1 /\
       o = snd (pruned now o1) /\ diskIs (removeFiles (fst (pruned now o1)) d) k) (fun _ => False).
Proof.
  intros Lid Rel Calls Me Lx. unfold Open. eapply triple_bind; [exact Lid|]. intros nodeID.
  assert (triple (P1 nodeID) syscall (fun _ => P1 nodeID) (fun _ => False)) as Sy.
  { intros k Pk. unfold syscall. rewrite (Rel _ _ Pk). by apply Calls. }
  eapply triple_bind; [exact Sy|]. intros []. eapply triple_bind; [exact Sy|]. intros [].
  intros k Pk. unfold loadBox. set (o0 := mkOutbox _ _ _ _ _ _ _).
  pose proof (triple_load _ (X nodeID) G o0 (Me nodeID) (Lx nodeID) eq_refl eq_refl eq_refl eq_refl
    (mkBox o0 k) (conj eq_refl Pk)) as Y.
  destruct (Outbox_load _) as [[e|[]] [o' k']]; [done|].
  destruct Y as (id & d & o1 & now & Xd & Lo & Eo & D'). by exists nodeID, id, d, o1, now.
Qed.

(** Reading the identity of the node back. *)
Lemma triple_knownNode d path nodeID : (exists data, d_node d = Some data /\ TrimSpace data = nodeID) ->
  0 < slen nodeID <= 128 ->
  triple (diskIs d) (loadOrCreateID path "node_") (fun id k => id = nodeID /\ diskIs d k)
    (fun _ => False).
Proof.
  intros (data & Dn & Tn) Sn k [Dk R]. unfold loadOrCreateID, os_ReadFile, syscall, try, mbind,
    M_bind, bind, get.
  cbn -[TrimSpace]. rewrite R. cbn -[TrimSpace].
  assert (k_node k = Some data) as -> by by rewrite <- Dn, <- Dk.
  cbn -[TrimSpace]. rewrite Tn. destruct (String.eqb_spec nodeID "") as [->|];
    [unfold slen in Sn; cbn in Sn; lia|]. cbn. destruct (Z.ltb_spec 128 (slen nodeID)); [lia|]. done.
Qed.

(** Opening the outbox of a directory that [stored] describes. *)
Lemma triple_Reopen G o d path boot : stored G o d ->
  triple (diskIs d) (Open path boot)
    (fun o' k => exists o1 now, loaded G (o_nodeID o) (o_streamID o) boot o1 /\
       o' = snd (pruned now o1) /\ diskIs (removeFiles (fst (pruned now o1)) d) k) (fun _ => False).
Proof.
  intros [L Id Ev Sg Nx Cu]. rewrite (evs_tagged _ _ Ev) in Nx. fold (nextOf G) in Nx.
  destruct Id as [In Is Im [Gs Ts]].
  eapply triple_weaken;
    [eapply (triple_Open _ _ (fun n i d' => n = o_nodeID o /\ i = o_streamID o /\ d' = d) G)|..].
  - by apply triple_knownNode.
  - by intros nodeID k (_ & _ & R).
  - done.
  - intros nodeID b (Eo & -> & D).
    pose proof (triple_loadMetadata (mkOutbox (o_nodeID o) "" boot 1 [] [] None) d (o_streamID o) Im Ts
      b (conj Eo D)) as X.
    destruct (loadMetadata b) as [[e|[]] b']; [done|]. by exists (o_streamID o), d.
  - intros nodeID id d' (_ & _ & ->). by rewrite Nx in L.
  - done.
  - intros o' k (nodeID & id & d' & o1 & now & (-> & -> & ->) & Lo & Eo & D). by exists o1, now.
  - done.
Qed.

Lemma loaded_stored G next d nodeID id boot o : laidOut G next d -> nextOf G = next ->
  (exists data, d_node d = Some data /\ TrimSpace data = nodeID) -> 0 < slen nodeID <= 128 ->
  (exists data, d_meta d = Some data /\ UnmarshalMetadata data = Some id) ->
  goodStream id -> TrimSpace id <> "" ->
  loaded G nodeID id boot o -> stored G o d.
Proof.
  intros L Nx Dn Sn Dm Gs T [(I1 & I2 & I3) Ev Sg Cu Ne]. split; [| |done|done| |by rewrite Cu].
  - by rewrite Ne, Nx.
  - by split; rewrite ?I1, ?I2.
  - by rewrite Ne, (evs_tagged _ _ Ev).
Qed.

(** Retention looks at the paths, the sizes and the events of the segments. *)
Lemma pruneLoop_same G events cutoff total segs segs' :
  Forall2 segmentOf segs G -> Forall2 segmentOf segs' G ->
  (forall g, g ∈ G -> exists e, e ∈ events /\ storedEvent_segment e = g_path g) ->
  fst (pruneLoop events cutoff total segs) = fst (pruneLoop events cutoff total segs').
Proof.
  intros F. revert total segs'. induction F as [|seg g segs G [P Z1] F IH]; intros total segs' F' X.
  - by inversion F'.
  - apply Forall2_cons_inv_r in F' as (seg' & rest' & [P' Z1'] & F' & ->).
    rewrite !pruneLoop_cons, P, P', Z1, Z1'.
    assert (llen segs = llen rest') as Ln.
    { unfold llen. apply Forall2_length in F, F'. lia. }
    rewrite Ln.
    assert (lastTimeOf events seg = lastTimeOf events seg') as Lt.
    { destruct (X g) as (e & I & Pe); [by left|]. unfold lastTimeOf. rewrite P, P'.
      destruct (last (filter _ events)) eqn:La; [done|]. apply last_None in La.
      assert (e ∈ filter (fun e => storedEvent_segment e = g_path g) events) as I'.
      { apply list_elem_of_filter. by split. }
      rewrite La in I'. by apply not_elem_of_nil in I'. }
    rewrite Lt. destruct (_ || _); [done|].
    specialize (IH (total - slen (fileText (g_events g))) rest' F').
    destruct (pruneLoop _ _ _ segs), (pruneLoop _ _ _ rest'). cbn in *. f_equal. apply IH.
    intros g' I. apply X. by right.
Qed.

Lemma totalSize_same G segs segs' n : Forall2 segmentOf segs G -> Forall2 segmentOf segs' G ->
  foldl (fun total seg => total + segment_size seg) n segs =
  foldl (fun total seg => total + segment_size seg) n segs'.
Proof.
  intros F. revert n segs'. induction F as [|seg g segs G [P Z1] F IH]; intros n segs' F'.
  - by inversion F'.
  - apply Forall2_cons_inv_r in F' as (seg' & rest' & [P' Z1'] & F' & ->). cbn.
    rewrite Z1, Z1'. by apply IH.
Qed.

(** Two outboxes over the same directory keep the same events. *)
Lemma pruned_same G d next now o o' : laidOut G next d ->
  o_events o = flat_map tagged G -> Forall2 segmentOf (o_segments o) G ->
  o_events o' = flat_map tagged G -> Forall2 segmentOf (o_segments o') G ->
  o_events (snd (pruned now o)) = o_events (snd (pruned now o')).
Proof.
  intros L E F E' F'. unfold pruned, totalSize. rewrite E, E', (totalSize_same G _ _ _ F F').
  pose proof (pruneLoop_same G (flat_map tagged G) (TimeAdd now (- maxRetention))
    (foldl (fun total seg => total + segment_size seg) 0 (o_segments o')) _ _ F F') as X.
  destruct (pruneLoop _ _ _ (o_segments o)), (pruneLoop _ _ _ (o_segments o')). cbn in *.
  rewrite X; [done|]. intros g I. pose proof (lo_groups _ _ _ L) as Gr. rewrite Forall_forall in Gr.
  destruct (Gr g I) as (NE & _). destruct (g_events g) as [|e es] eqn:Eg; [done|].
  exists (mkStoredEvent e (g_path g)). split; [|done]. apply list_elem_of_In, in_flat_map.
  exists g. split; [by apply list_elem_of_In|]. unfold tagged, tag. rewrite Eg. by left.
Qed.
End reopen.
