(* ===== verification/OutboxPersist.v ===== *)
(** Appending on the disk: when no system call fails, the directory holds what
    the outbox holds after every [Append]. *)

From S2P Require Export OutboxDisk.

Definition setFiles (files : gmap string segmentFile) (d : Disk) : Disk :=
  mkDisk (d_node d) (d_meta d) files.
Definition addFile (path : string) (file : segmentFile) (d : Disk) : Disk :=
  setFiles (<[path := file]> (d_files d)) d.
Definition appendFile (path text : string) (t : time) (d : Disk) : Disk :=
  setFiles (alter (fun file => mkSegmentFile (segmentFile_data file +:+ text) t) path (d_files d)) d.

Section persist.
Context `{OutboxJSON}.

(** * The steps of an [Append] *)

Definition rotated (n : Z) (t : time) (o : Outbox) : Outbox :=
  o_set_segments (o_segments o ++ [mkSegment (segmentName n) n 0 0 t])
    (o_set_current (Some (mkOsFile (segmentName n) false)) o).

Lemma triple_rotateLocked_at o d n E :
  d_files d !! segmentName n = None ->
  (forall f, o_current o = Some f -> osFile_closed f = false) ->
  triple (at_ o d) (Outbox_rotateLocked n)
    (fun _ b => exists t1 t2, at_ (rotated n t2 o) (addFile (segmentName n) (mkSegmentFile "" t1) d) b) E.
Proof.
  intros Fr Cl. unfold Outbox_rotateLocked. apply triple_this_at.
  eapply triple_bind with (R := fun _ b => exists x, at_ (o_set_current x o) d b).
  { destruct (o_current o) as [f|] eqn:Ec.
    - unfold closeCurrent. rewrite (Cl f) by done.
      eapply triple_bind; [apply triple_updating_at|]. intros [].
      eapply triple_weaken; [apply triple_syscall_at|done| |done]. intros [] b B. by eexists.
    - apply triple_ret. intros b B. exists None. by destruct o; cbn in *; subst. }
  intros []. apply triple_exists. intros x.
  eapply triple_bind with (R := fun file b => exists t1, file = mkOsFile (segmentName n) false /\
    at_ (o_set_current x o) (addFile (segmentName n) (mkSegmentFile "" t1) d) b).
  { intros b [Eo [<- R]]. unfold onMachine, os_OpenAppend, syscall, clockNow, modify, ret,
      mbind, M_bind, bind. rewrite R. cbn.
    cbn in Fr. rewrite Fr. by eexists. }
  intros file. apply triple_exists. intros t1. apply triple_fact. intros ->.
  eapply triple_bind; [apply triple_updating_at|]. intros [].
  eapply triple_bind; [apply triple_clock_at|]. intros now.
  eapply triple_weaken; [apply triple_updating_at|done| |done]. intros [] b B.
  exists t1, (UTC now). exact B.
Qed.

Lemma triple_Write_at o d f line E : osFile_closed f = false ->
  triple (at_ o d) (onMachine (os_Write f line))
    (fun _ b => exists t, at_ o (appendFile (osFile_path f) line t d) b) E.
Proof.
  intros Cl b [Eo [Dk R]]. unfold onMachine, os_Write. rewrite Cl.
  unfold syscall, clockNow, try, get, modify, ret, mbind, M_bind, bind. cbn. rewrite R. cbn.
  eexists. split; [done|]. split; [|done]. by rewrite <- Dk.
Qed.

(** What [rotationDue] answers [false] for. *)
Lemma triple_rotationDue_at o d size E :
  triple (at_ o d) (rotationDue size) (fun due b => (due = false -> exists f seg,
      o_current o = Some f /\ last (o_segments o) = Some seg /\
      segment_size seg + size <= maxSegmentBytes) /\ at_ o d b) E.
Proof.
  unfold rotationDue. apply triple_this_at.
  destruct (o_current o) as [f|]; [|by apply triple_ret].
  destruct (last (o_segments o)) as [seg|] eqn:L; [|by apply triple_ret].
  destruct (Z.ltb_spec maxSegmentBytes (segment_size seg + size)) as [|B]; [by apply triple_ret|].
  eapply triple_bind; [apply triple_clock_at|]. intros now. apply triple_ret.
  intros b Hb. split; [|done]. intros _. by exists f, seg.
Qed.

(** * The state between rotation and writing *)

(** The line may be appended to the last group, which may still be empty. *)
Record ready (G : list group) (g : group) (size : Z) (o : Outbox) (d : Disk) : Prop := {
  rd_groups : Forall (goodGroup (o_nextSeq o)) G;
  rd_files : Forall (groupOnDisk d) (G ++ [g]);
  rd_sorted : StronglySorted Z.lt (map g_first (G ++ [g]));
  rd_listed : forall name, is_Some (d_files d !! name) -> HasSuffix name ".jsonl" = true ->
    name ∈ map g_path (G ++ [g]);
  rd_ids : identified o d;
  rd_events : o_events o = flat_map tagged (G ++ [g]);
  rd_segments : Forall2 segmentOf (o_segments o) (G ++ [g]);
  rd_current : exists f, o_current o = Some f /\ osFile_closed f = false /\ osFile_path f = g_path g;
  rd_storable : Forall storable (g_events g);
  rd_size : slen (fileText (g_events g)) + size <= maxSegmentBytes;
  rd_first : 0 <= g_first g <= o_nextSeq o
}.

(** Without rotation: the last segment has room. *)
Lemma stored_ready G o d size f seg : stored G o d -> o_current o = Some f ->
  last (o_segments o) = Some seg -> segment_size seg + size <= maxSegmentBytes ->
  exists G0 g, G = G0 ++ [g] /\ ready G0 g size o d.
Proof.
  intros S Ec La Sz. pose proof (st_segments _ _ _ S) as Sg.
  apply last_Some in La as (pre & Es). rewrite Es in Sg.
  apply Forall2_app_inv_l in Sg as (G0 & G1 & S0 & S1 & EG).
  apply Forall2_cons_inv_l in S1 as (g & nil & [P Z1] & N & ->). inversion N; subst nil G.
  exists G0, g. split; [done|]. destruct S as [[Gr Fi So Li Ro] Id Ev Sg Nx Cu].
  pose proof Gr as Gr'. apply Forall_app in Gr' as [Gr0 Gr1].
  apply Forall_cons in Gr1 as [(NE & St & Sz1 & Fr) _]. split; try done.
  - exists f. rewrite Ec in Cu. destruct Cu as [Cl Lp]. split; [done|]. split; [done|].
    rewrite map_app in Lp. cbn in Lp. rewrite last_snoc in Lp. by injection Lp.
  - lia.
  - lia.
Qed.

(** After rotation: a new group, named after the next number. *)
Lemma stored_rotated G o d size t1 t2 : stored G o d -> size <= maxSegmentBytes ->
  ready G (mkGroup (o_nextSeq o) []) size (rotated (o_nextSeq o) t2 o)
    (addFile (segmentName (o_nextSeq o)) (mkSegmentFile "" t1) d).
Proof.
  intros [L Id Ev Sg Nx Cu] Sz. pose proof (next_path_fresh _ _ _ L) as Fr.
  destruct L as [Gr Fi So Li Ro]. split; cbn; [done| | | | | | | |constructor|exact Sz|lia].
  - apply Forall_app. split.
    + rewrite Forall_forall in Fi |- *. intros g I. destruct (Fi g I) as [t Ft]. exists t. cbn.
      rewrite lookup_insert_ne; [done|]. intros X. rewrite <- X in Ft. by rewrite Fr in Ft.
    + constructor; [|constructor]. exists t1. cbn. by rewrite lookup_insert_eq.
  - rewrite map_app. cbn. apply StronglySorted_snoc; [done|].
    intros y I. apply list_elem_of_fmap in I as (g & -> & I). rewrite Forall_forall in Gr.
    apply Gr in I as (_ & _ & _ & B). lia.
  - intros name X S. rewrite map_app, elem_of_app. destruct (decide (name = segmentName (o_nextSeq o)))
      as [->|Ne]; [right; by left|]. left. apply Li; [|done]. by rewrite lookup_insert_ne in X.
  - by destruct Id as [I1 I2 I3 I4].
  - rewrite flat_map_app, Ev. cbn. by rewrite app_nil_r.
  - apply Forall2_app; [done|]. by repeat constructor.
  - by eexists.
Qed.

(** Writing the line and counting the event restores the invariant. *)
Lemma ready_appended G g o d e t : ready G g (slen (lineOf e +:+ newline)) o d ->
  storable e -> Event_Seq e = o_nextSeq o -> o_nextSeq o + 1 < 2 ^ 64 -> 0 < o_nextSeq o ->
  stored (G ++ [mkGroup (g_first g) (g_events g ++ [e])])
    (appended e (slen (lineOf e +:+ newline)) o)
    (appendFile (g_path g) (lineOf e +:+ newline) t d).
Proof.
  intros [Gr Fi So Li Id Ev Sg Cu St Sz Fr] Se Sq Ro Po. set (g' := mkGroup _ _).
  assert (g_path g' = g_path g) as Pg by done.
  assert (forall G, map g_path (G ++ [g']) = map g_path (G ++ [g])) as Mp by (intros; by rewrite !map_app).
  pose proof Sg as Sg'. apply Forall2_app_inv_r in Sg' as (pre & one & S0 & S1 & Es).
  apply Forall2_cons_inv_r in S1 as (seg & nil & [P Z1] & N & ->). inversion N; subst nil.
  rewrite (appended_snoc _ _ _ _ _ Es).
  assert (u64 (o_nextSeq o + 1) = o_nextSeq o + 1) as U by (unfold u64; apply Z.mod_small; lia).
  rewrite U. split; cbn [o_nextSeq o_set_nextSeq o_set_events o_set_segments o_events o_segments o_current].
  - split.
    + apply Forall_app. split.
      * eapply Forall_impl; [exact Gr|]. intros g0 (A & B & C & D). repeat split; try done; lia.
      * constructor; [|constructor]. split; [by destruct (g_events g)|]. cbn.
        split; [by apply Forall_app; split; [|constructor]|]. rewrite fileText_snoc, slen_app. lia.
    + rewrite Forall_app in Fi |- *. destruct Fi as [Fi Fg]. split.
      * rewrite Forall_forall in Fi |- *. intros g0 I. destruct (Fi g0 I) as [t0 Ft].
        destruct (decide (g_path g0 = g_path g)) as [X|X].
        -- exfalso. assert (nameable (g_first g)) as N1 by (unfold nameable; lia).
           rewrite Forall_forall in Gr. destruct (Gr g0 I) as (_ & _ & _ & B).
           assert (nameable (g_first g0)) as N0 by (unfold nameable; lia).
           apply segmentName_inj in X; [|done..]. rewrite map_app in So.
           assert (g_first g0 < g_first g); [|lia].
           eapply StronglySorted_app_1_elem_of; [exact So|by apply list_elem_of_fmap_2|by left].
        -- exists t0. cbn. by rewrite lookup_alter_ne.
      * apply Forall_cons in Fg as [[t0 Ft] _]. constructor; [|constructor]. exists t. cbn.
        rewrite Pg, lookup_alter_eq, Ft. cbn. by rewrite fileText_snoc.
    + by rewrite map_app in *.
    + intros name X Sx. rewrite Mp. apply Li; [|done]. cbn in X.
      destruct (decide (name = g_path g)) as [->|Ne]; [|by rewrite lookup_alter_ne in X].
      rewrite lookup_alter_eq in X. by destruct (d_files d !! g_path g).
    + lia.
  - by destruct Id as [I1 I2 I3 I4].
  - rewrite Ev, !flat_map_app. cbn. rewrite !app_nil_r, <- app_assoc. f_equal.
    unfold tagged, tag. cbn. rewrite map_app. cbn. by rewrite P.
  - apply Forall2_app; [done|]. constructor; [|constructor]. split; [done|]. cbn.
    rewrite fileText_snoc, (slen_app (fileText _)). lia.
  - unfold evs. cbn. rewrite map_app. cbn. rewrite last_snoc. cbn. lia.
  - destruct Cu as (f & -> & Cl & Pf). split; [done|]. rewrite Mp, map_app. cbn.
    by rewrite last_snoc, Pf.
Qed.

(** * Append and Close *)

Lemma stored_open G o d f : stored G o d -> o_current o = Some f -> osFile_closed f = false.
Proof. intros S E. pose proof (st_current _ _ _ S) as C. rewrite E in C. apply C. Qed.

Lemma storable_size e : storable e -> slen (lineOf e +:+ newline) <= maxSegmentBytes.
Proof.
  intros S. pose proof (storable_short _ S). rewrite slen_app.
  change (slen newline) with 1. change maxTokenSize with 524288 in *.
  change maxSegmentBytes with 8388608. lia.
Qed.

(** The file is open, and the line of a storable event may go there. *)
Definition writable (event : Event) (n : Z) (o : Outbox) (d : Disk) : Prop :=
  o_nextSeq o = n /\ exists f, o_current o = Some f /\ osFile_closed f = false /\
  (storable event -> exists G g, ready G g (slen (lineOf event +:+ newline)) o d /\
     osFile_path f = g_path g).

Lemma triple_makeRoom G o d event E : stored G o d -> Event_Seq event = o_nextSeq o ->
  triple (at_ o d)
    (due ← rotationDue (slen (lineOf event +:+ newline));
     if due : bool then Outbox_rotateLocked (Event_Seq event) else ret tt)
    (fun _ b => exists o2 d2, writable event (o_nextSeq o) o2 d2 /\ at_ o2 d2 b) E.
Proof.
  intros S Sq. eapply triple_bind; [apply triple_rotationDue_at|].
  intros due. apply triple_fact. intros Q. destruct due.
  - rewrite Sq. eapply triple_weaken; [apply (triple_rotateLocked_at o d _ E)|done| |done].
    + eapply next_path_fresh, S.
    + intros f. by eapply stored_open.
    + intros [] b (t1 & t2 & B). eexists _, _. split; [|exact B]. split; [done|].
      eexists. split; [done|]. split; [done|]. intros St. eexists _, _.
      split; [by apply stored_rotated, storable_size|done].
  - destruct (Q eq_refl) as (f & seg & Ec & La & Sz). apply triple_ret. intros b B. exists o, d.
    split; [|done]. split; [done|]. exists f. split; [done|]. split; [by eapply stored_open|].
    intros _. destruct (stored_ready _ _ _ _ _ _ S Ec La Sz) as (G0 & g & _ & R). exists G0, g.
    split; [done|]. destruct (rd_current _ _ _ _ _ R) as (f' & Ec' & _ & Pf). congruence.
Qed.

Lemma triple_writeEvent event n o d E : writable event n o d -> Event_Seq event = n ->
  0 < n -> forall f, o_current o = Some f ->
  triple (at_ o d)
    (onMachine (os_Write f (lineOf event +:+ newline)) ;;
     onMachine syscall ;;
     updating (appended event (slen (lineOf event +:+ newline))) ;;
     now ← onMachine clockNow;
     Outbox_pruneLocked (UTC now) ;;
     ret event)
    (fun r b => r = event /\ (storable event -> n + 1 < 2 ^ 64 -> exists G d',
       stored G (bx_outbox b) d' /\ diskIs d' (bx_machine b))) E.
Proof.
  intros (Nx & f' & Ec' & Cl & W) Sq Po f Ec. assert (f' = f) as -> by congruence.
  eapply triple_bind; [by apply triple_Write_at|]. intros []. apply triple_exists. intros t.
  eapply triple_bind; [apply triple_syscall_at|]. intros [].
  eapply triple_bind; [apply triple_updating_at|]. intros [].
  eapply triple_bind; [apply triple_clock_at|]. intros now.
  eapply triple_bind; [apply triple_pruneLocked_at|]. intros []. apply triple_ret.
  intros b [Eo D]. split; [done|]. intros St Ro. destruct (W St) as (G & g & R & Pf).
  rewrite Pf in D. pose proof (ready_appended _ _ _ _ _ t R St) as S. rewrite Nx in S.
  specialize (S Sq Ro Po). destruct (stored_pruned _ _ _ (UTC now) S) as (G1 & G2 & _ & _ & S2).
  eexists G2, _. rewrite Eo. split; [exact S2|exact D].
Qed.

(** After an [Append] the directory holds what the outbox holds; it fails only
    when the event cannot be printed, and then nothing has happened. *)
Lemma triple_Append_at G o d payload t : stored G o d ->
  triple (at_ o d) (Outbox_Append payload t)
    (fun event b => storable event -> o_nextSeq o + 1 < 2 ^ 64 -> exists G' d',
       stored G' (bx_outbox b) d' /\ diskIs d' (bx_machine b))
    (at_ o d).
Proof.
  intros S. unfold Outbox_Append.
  eapply triple_bind with (R := fun _ => at_ o d).
  { apply triple_fromResult. intros b B. by destruct (MarshalPayload payload). }
  intros raw. eapply triple_bind with (R := fun _ => at_ o d).
  { destruct (IsZero t); [apply triple_clock_at|by apply triple_ret]. }
  intros at'. apply triple_this_at. set (event := mkEvent _ _ _ _ _).
  eapply triple_bind with (R := fun line b => MarshalEvent event = inr line /\ at_ o d b).
  { apply triple_fromResult. intros b B. by destruct (MarshalEvent event). }
  intros line. apply triple_fact. intros Me.
  assert (line = lineOf event) as -> by (unfold lineOf; by rewrite Me).
  assert (Event_Seq event = o_nextSeq o) as Sq by done. clearbody event.
  pose proof (triple_makeRoom G o d event (at_ o d) S Sq) as Mr.
  intros b B. specialize (Mr b B). unfold mbind, M_bind, bind in *.
  destruct (rotationDue _ b) as [[e|due] b1]; [done|].
  destruct ((if due : bool then Outbox_rotateLocked (Event_Seq event) else ret tt) b1)
    as [[e|[]] b2]; [done|].
  destruct Mr as (o2 & d2 & Wr & B2). unfold this, gets.
  destruct Wr as (Nx & f & Ec & Rest).
  pose proof (triple_writeEvent event (o_nextSeq o) o2 d2 (at_ o d)) as We.
  assert (0 < o_nextSeq o) as Po by apply (st_layout _ _ _ S).
  specialize (We (conj Nx (ex_intro _ f (conj Ec Rest))) Sq Po f Ec b2 B2).
  destruct B2 as [Eo _]. rewrite Eo, Ec. unfold mbind, M_bind, bind in We.
  fold (appended event (slen (lineOf event +:+ newline))).
  match goal with |- match ?x with _ => _ end => set (run := x) in * end.
  destruct run as [[e|r] b3]; [done|]. destruct We as [-> We]. exact We.
Qed.

Lemma triple_Close_at G o d : stored G o d ->
  triple (at_ o d) Outbox_Close (fun _ b => bx_outbox b = o_set_current None o /\
    diskIs d (bx_machine b)) (fun _ => False).
Proof.
  intros S. unfold Outbox_Close. apply triple_this_at. destruct (o_current o) as [f|] eqn:Ec.
  - eapply triple_bind with (R := fun r b => r = inr tt /\ exists x, at_ (o_set_current x o) d b).
    { apply triple_try. unfold closeCurrent. rewrite (stored_open _ _ _ _ S Ec).
      eapply triple_bind; [apply triple_updating_at|]. intros [].
      eapply triple_weaken;
        [apply (triple_syscall_at (o_set_current (Some (mkOsFile (osFile_path f) true)) o) d
                  (fun _ => False))|done| |done].
      intros [] b B. split; [done|]. by eexists. }
    intros r. apply triple_fact. intros ->. apply triple_exists. intros x.
    eapply triple_bind; [apply triple_updating_at|]. intros []. by apply triple_ret.
  - apply triple_ret. intros b [Eo D]. split; [|done]. rewrite Eo. by destruct o; cbn in *; subst.
Qed.

Lemma stored_closed G o d : stored G o d -> stored G (o_set_current None o) d.
Proof. by intros [L [I1 I2 I3 I4] Ev Sg Nx Cu]. Qed.
End persist.

(** The first start: an outbox opened in a directory without segments. *)

(** * Identities of printable characters *)

Lemma ValidString_visible s : all_visible s = true -> ValidString s = true.
Proof.
  intros V. unfold ValidString.
  assert (forall n, (length (bytes_of_string s) <= n)%nat -> validBytes n (bytes_of_string s) = true) as X;
    [|by apply X].
  induction s as [|c s IH]; intros n N; [by destruct n|]. cbn in V.
  apply andb_true_iff in V as [Vc V]. cbn [bytes_of_string length] in *. destruct n as [|n]; [lia|].
  cbn [validBytes].
  assert (runeLen (byte_val c :: bytes_of_string s) = 1%nat) as ->.
  { unfold runeLen. unfold visible in Vc. apply andb_true_iff in Vc as [_ B%Z.leb_le].
    by destruct (Z.ltb_spec (byte_val c) 128); [|lia]. }
  cbn [drop]. apply IH; [done|lia].
Qed.

(** An identity as [randomID] makes it. *)
Lemma randomID_spec prefix k : all_visible prefix = true -> slen prefix <= 31 -> exists id,
  randomID prefix k = (inr id, k_set_drawn (k_drawn k + 12) k) /\
  all_visible id = true /\ 0 < slen id <= 55 /\ id <> "".
Proof.
  intros V L. unfold randomID. set (bytes := map _ _). eexists. split; [done|].
  assert (byte_list bytes) as B.
  { apply Forall_forall. intros x I. apply list_elem_of_fmap in I as (i & -> & _).
    by apply Z.mod_pos_bound. }
  assert (slen (HexEncode bytes) = 24) as N by by rewrite slen_HexEncode.
  assert (0 < slen (prefix +:+ HexEncode bytes) <= 55) as S.
  { rewrite slen_app, N. pose proof (slen_nonneg prefix). lia. }
  split; [by rewrite all_visible_app, V, HexEncode_visible|]. split; [done|].
  intros E. rewrite E in S. unfold slen in S. cbn in S. lia.
Qed.

Section fresh.
Context `{OutboxJSON}.

(** No stream and no segment yet; the node may have its identity. *)
Record freshMachine (k : Machine) : Prop := {
  fresh_meta : k_meta k = None;
  fresh_files : forall name, is_Some (k_files k !! name) -> HasSuffix name ".jsonl" = false;
  fresh_node : match k_node k with
               | None => True
               | Some data => 0 < slen (TrimSpace data) <= 128
               end
}.

(** The machine after the identity of the node is known. *)
Definition nodeKnown (files : gmap string segmentFile) (nodeID : string) (k : Machine) : Prop :=
  (exists data, k_node k = Some data /\ TrimSpace data = nodeID) /\ 0 < slen nodeID <= 128 /\
  k_meta k = None /\ k_files k = files /\ reliable k.

Lemma triple_newNode files path :
  triple (fun k => freshMachine k /\ k_files k = files /\ reliable k) (loadOrCreateID path "node_")
    (nodeKnown files) (fun _ => False).
Proof.
  intros k ([Fm Ff Fn] & Kf & R).
  destruct (k_node k) as [data|] eqn:En.
  - assert (diskIs (disk k) k) as D by by split.
    pose proof (triple_knownNode (disk k) path (TrimSpace data)
      (ex_intro _ data (conj En eq_refl)) Fn k D) as X.
    destruct (loadOrCreateID path "node_" k) as [[e|id] k']; [done|].
    destruct X as (-> & Dk & R'). injection Dk as E1 E2 E3.
    split; [exists data; split; congruence|]. split; [done|]. split; [congruence|]. by split; [congruence|].
  - unfold loadOrCreateID, os_ReadFile, syscall, try, mbind, M_bind, bind, get. cbn -[randomID]. rewrite R. cbn -[randomID].
    rewrite En. cbn -[randomID]. rewrite R. cbn -[randomID].
    match goal with |- context [randomID _ ?k1] =>
      destruct (randomID_spec "node_" k1) as (id & -> & V & N & Ne); [done..|] end.
    unfold writeAtomic, syscall, clockNow, try, modify, mbind, M_bind, bind, ret. cbn -[newline].
    rewrite R. cbn -[newline]. rewrite R. cbn -[newline].
    split; [|split; [lia|done]]. eexists. split; [done|]. by apply TrimSpace_line.
Qed.

(** The identities and the empty directory. *)
Definition started (files : gmap string segmentFile) (nodeID id : string) (d : Disk) : Prop :=
  (exists data, d_node d = Some data /\ TrimSpace data = nodeID) /\ 0 < slen nodeID <= 128 /\
  (exists data, d_meta d = Some data /\ UnmarshalMetadata data = Some id) /\
  goodStream id /\ TrimSpace id <> "" /\ d_files d = files.

Lemma triple_newStream `{!OutboxLaws _} files nodeID o :
  triple (fun b => bx_outbox b = o /\ nodeKnown files nodeID (bx_machine b)) loadMetadata
    (fun _ b => exists id d, started files nodeID id d /\ at_ (o_set_streamID id o) d b)
    (fun _ => False).
Proof.
  intros [o' k] [Eo (Nd & Sn & Km & Kf & R)]. cbn in Eo, Nd, Km, Kf, R. subst o'.
  unfold loadMetadata, os_ReadFile, onMachine, syscall, try, mbind, M_bind, bind, get. cbn -[randomID].
  rewrite R. cbn -[randomID]. rewrite Km. cbn -[randomID].
  match goal with |- context [randomID _ ?k1] =>
      destruct (randomID_spec "stream_" k1) as (id & -> & V & N & Ne); [done..|] end.
  cbn -[newline]. unfold writeAtomic, syscall, clockNow, try, modify, mbind, M_bind, bind, ret.
  cbn -[newline]. rewrite R. cbn -[newline]. rewrite R. cbn -[newline].
  exists id. eexists. split; [|split; [done|by split]].
  split; [exact Nd|]. split; [done|]. split.
  { eexists. split; [done|]. apply metadata_roundtrip. by apply ValidString_visible. }
  split; [split; [by apply ValidString_visible|lia]|].
  split; [by rewrite TrimSpace_visible|done].
Qed.

Lemma stored_loaded G next d nodeID id boot o now : 
  (exists data, d_node d = Some data /\ TrimSpace data = nodeID) -> 0 < slen nodeID <= 128 ->
  (exists data, d_meta d = Some data /\ UnmarshalMetadata data = Some id) ->
  goodStream id -> TrimSpace id <> "" -> laidOut G next d -> nextOf G = next ->
  loaded G nodeID id boot o -> exists G' d',
    stored G' (snd (pruned now o)) d' /\ d' = removeFiles (fst (pruned now o)) d.
Proof.
  intros Dn Sn Dm Gs T L Nx Lo. eapply loaded_stored in Lo; [|done..].
  destruct (stored_pruned _ _ _ now Lo) as (G1 & G2 & _ & _ & S). eauto.
Qed.

(** The first [Open] leaves an empty outbox that its directory describes. *)
Lemma triple_firstOpen `{!OutboxLaws _} path boot :
  triple (fun k => freshMachine k /\ reliable k) (Open path boot)
    (fun o k => exists d, stored [] o d /\ diskIs d k /\ o_bootID o = boot) (fun _ => False).
Proof.
  apply triple_pre. intros k0 [F R].
  assert (forall nodeID id d, started (k_files k0) nodeID id d -> laidOut [] (nextOf []) d) as Lx.
  { intros nodeID id d (_ & _ & _ & _ & _ & Ef). split; [done|done|constructor| |done].
    intros name Is Sf. rewrite Ef in Is. by rewrite (fresh_files _ F name Is) in Sf. }
  eapply triple_weaken;
    [eapply (triple_Open _ _ (started (k_files k0)) [] path boot (triple_newNode (k_files k0) path))|..].
  - by intros nodeID k (_ & _ & _ & _ & Rk).
  - done.
  - intros nodeID. apply triple_newStream.
  - exact Lx.
  - by intros k <-.
  - intros o k (nodeID & id & d & o1 & now & St & Lo & -> & D).
    pose proof (Lx _ _ _ St) as L. destruct St as (Dn & Sn & Dm & Gs & T & _).
    assert (loaded [] nodeID id boot o1) as Lo' by done.
    destruct Lo as [(_ & _ & Eb) Ev Sg _ _]. inversion Sg as [Es|].
    assert (pruned now o1 = ([], o1)) as Ep.
    { unfold pruned. rewrite <- Es. cbn. rewrite Ev. cbn. by destruct o1; cbn in *; subst. }
    rewrite Ep in *. cbn in *. exists d. split; [by eapply loaded_stored|].
    split; [by destruct d|done].
  - done.
Qed.
End fresh.
