(* ===== verification/OutboxConsumer.v ===== *)
(** The outbox and a consumer that follows its cursors, across restarts: what the
    consumer received is the history, and what it missed it was told. *)

From S2P Require Export OutboxPersist.

(** * The system *)

(** What the consumer got, in order. *)
Inductive item : Type :=
  | Received (e : Event)
  | Missed (gap : CursorGap).

(** The events appended so far are a history variable. *)
Record system : Type := mkSystem
  { sys_box : Box; sys_history : list Event; sys_cursor : string; sys_log : list item }.

Definition k_set_os (os : nat -> option error) (k : Machine) : Machine :=
  mkMachine (k_node k) (k_meta k) (k_files k) os (k_calls k) (k_partial k) (k_clock k) (k_ticks k)
    (k_rand k) (k_drawn k).

Section consumer.
Context `{OutboxJSON}.

(** The line of the event is one that [loadSegment] can read.  [Append] does not
    check this; the daemon bounds what it puts into an event. *)
Definition short (e : Event) : Prop := slen (lineOf e) < maxTokenSize.

(** Appends and closes succeed or fail as the oracle has it.  The consumer asks
    for a page whenever it likes and takes over the cursor it is given.  A process
    may be replaced by a new one when none of its calls, and none of [Open]'s,
    fails, and every line written is short; what fails under the new one is
    arbitrary again. *)
Inductive step : system -> system -> Prop :=
  | step_append payload t b event b' h c l :
      Outbox_Append payload t b = (inr event, b') ->
      llen h + 2 < 2 ^ 64 ->
      step (mkSystem b h c l) (mkSystem b' (h ++ [event]) c l)
  | step_append_fails payload t b e b' h c l :
      Outbox_Append payload t b = (inl e, b') ->
      step (mkSystem b h c l) (mkSystem b' h c l)
  | step_close b r b' h c l :
      Outbox_Close b = (r, b') -> step (mkSystem b h c l) (mkSystem b' h c l)
  | step_page b h c l limit page :
      Outbox_Page (bx_outbox b) c limit = PageOK page ->
      step (mkSystem b h c l)
        (mkSystem b h (Page_NextCursor page) (l ++ map Received (Page_Events page)))
  | step_gap b h c l limit gap :
      Outbox_Page (bx_outbox b) c limit = PageGap gap ->
      step (mkSystem b h c l) (mkSystem b h (CursorGap_ResumeCursor gap) (l ++ [Missed gap]))
  | step_restart b h c l path boot o k os :
      reliable (bx_machine b) -> Forall short h -> ValidString boot = true ->
      Open path boot (bx_machine b) = (inr o, k) ->
      step (mkSystem b h c l) (mkSystem (mkBox o (k_set_os os k)) h c l).

(** From the first start in a fresh directory. *)
Inductive reachable : system -> Prop :=
  | reach_start path boot k0 o k os :
      freshMachine k0 -> reliable k0 -> ValidString boot = true ->
      Open path boot k0 = (inr o, k) ->
      reachable (mkSystem (mkBox o (k_set_os os k)) [] "" [])
  | reach_step s s' : reachable s -> step s s' -> reachable s'.

(** [accounts h n l m]: [l] accounts for the events of [h] from number [n + 1] up
    to number [m]: each was received, in order and once, or lies in a gap that was
    reported. *)
Inductive accounts (h : list Event) (n : Z) : list item -> Z -> Prop :=
  | acc_start : accounts h n [] n
  | acc_received l m e : accounts h n l m -> h !! Z.to_nat m = Some e ->
      accounts h n (l ++ [Received e]) (m + 1)
  | acc_missed l m gap : accounts h n l m -> CursorGap_Reason gap = "retention" ->
      m + 1 < CursorGap_EarliestSeq gap ->
      accounts h n (l ++ [Missed gap]) (CursorGap_EarliestSeq gap - 1).

Lemma accounts_more h h' n l m : accounts h n l m -> accounts (h ++ h') n l m.
Proof.
  induction 1; [apply acc_start|apply acc_received; [done|by apply lookup_app_l_Some]|
    by eapply acc_missed].
Qed.

(** A page's events continue the account. *)
Lemma accounts_page h n l m es : accounts h n l m -> 0 <= m ->
  es `prefix_of` drop (Z.to_nat m) h -> accounts h n (l ++ map Received es) (m + llen es).
Proof.
  revert l m. induction es as [|e es IH]; intros l m A M [tl T].
  - cbn. by rewrite app_nil_r, Z.add_0_r.
  - rewrite llen_cons, Z.add_assoc. cbn [map].
    replace (l ++ Received e :: map Received es) with ((l ++ [Received e]) ++ map Received es)
      by by rewrite <- app_assoc.
    apply IH; [|lia|].
    + constructor; [done|]. rewrite <- (Nat.add_0_r (Z.to_nat m)), <- lookup_drop, T. done.
    + exists tl. replace (Z.to_nat (m + 1)) with (Z.to_nat m + 1)%nat by lia.
      rewrite <- drop_drop, T. done.
Qed.

(** * The invariant *)

Definition described (h : list Event) (b : Box) : Prop :=
  reliable (bx_machine b) -> Forall short h -> exists G d, stored G (bx_outbox b) d /\ diskIs d (bx_machine b).

(** The consumer has not begun, or its cursor points behind what it accounts for. *)
Definition follows (h : list Event) (o : Outbox) (c : string) (l : list item) : Prop :=
  (c = "" /\ l = []) \/
  (exists n m, 0 <= m <= llen h /\ c = cursorAt o m /\ accounts h n l m).

Record invariant (s : system) : Prop := {
  inv_retains : retains (sys_history s) (bx_outbox (sys_box s));
  inv_stream : goodStream (o_streamID (bx_outbox (sys_box s)));
  inv_boot : ValidString (o_bootID (bx_outbox (sys_box s))) = true;
  inv_described : described (sys_history s) (sys_box s);
  inv_follows : follows (sys_history s) (bx_outbox (sys_box s)) (sys_cursor s) (sys_log s)
}.

(** The outbox reads as events from some number on. *)
Lemma retains_readable h o : retains h o -> goodStream (o_streamID o) -> exists n,
  (n <= length h)%nat /\ evs o = drop n h /\ readable (1 + Z.of_nat n) o.
Proof.
  intros R G. destruct (retains_suffix _ _ R) as (n & N & E). exists n. split; [done|].
  split; [done|]. destruct (retains_numbered _ _ R) as [C B]. split; [done|lia| |].
  - rewrite E. by apply consecutive_drop.
  - rewrite E. unfold llen in *. rewrite length_drop. lia.
Qed.

(** What a consumer at position [m] is answered. *)
Lemma Page_cases `{!OutboxLaws _} h o m limit : retains h o -> goodStream (o_streamID o) -> 0 <= m <= llen h ->
  (exists page, Outbox_Page o (cursorAt o m) limit = PageOK page /\
     Page_Events page `prefix_of` drop (Z.to_nat m) h /\
     Page_NextCursor page = cursorAt o (m + llen (Page_Events page))) \/
  (exists gap, Outbox_Page o (cursorAt o m) limit = PageGap gap /\
     CursorGap_Reason gap = "retention" /\ m + 1 < CursorGap_EarliestSeq gap <= llen h /\
     CursorGap_ResumeCursor gap = cursorAt o (CursorGap_EarliestSeq gap - 1)).
Proof.
  intros R G M. destruct (retains_readable h o R G) as (n & N & E & Rd).
  assert (llen (evs o) = llen h - Z.of_nat n) as Ln
    by (rewrite E; unfold llen; rewrite length_drop; lia).
  destruct (Z_lt_le_dec m (Z.of_nat n)) as [Lt|Ge].
  - destruct (Z.eq_dec (llen (evs o)) 0) as [Z0|Ne].
    + left. assert (evs o = []) as E0 by (apply length_zero_iff_nil; unfold llen in Z0; lia).
      assert (readable (m + 1) o) as Rm.
      { destruct Rd as [Gs _ _ Rm]. split; [done|lia|by rewrite E0|].
        rewrite Z0. destruct (retains_numbered _ _ R). lia. }
      rewrite (Page_at o (m + 1)) by (done || lia). eexists. split; [done|].
      unfold pageOf. destruct (Outbox_boundsLocked o). cbn [Page_Events Page_NextCursor].
      split; [|done]. unfold pageEvents. rewrite E0, drop_nil. apply prefix_nil.
    + right. pose proof (llen_nonneg (evs o)).
      destruct (Page_behind o (1 + Z.of_nat n) m limit) as (gap & Pg & Rs & Ea & Rc);
        [done|lia|lia|].
      exists gap. split; [done|]. split; [done|]. rewrite Ea. split; [lia|done].
  - left. rewrite (Page_at o (1 + Z.of_nat n)) by (done || lia). eexists. split; [done|].
    unfold pageOf. destruct (Outbox_boundsLocked o). cbn [Page_Events Page_NextCursor].
    split; [|done]. unfold pageEvents.
    replace (Z.to_nat m) with (n + Z.to_nat (m + 1 - (1 + Z.of_nat n)))%nat by lia.
    rewrite <- drop_drop, <- E. apply fitting_prefix.
Qed.

(** What a consumer without a cursor is answered. *)
Lemma Page_first h o limit : retains h o -> goodStream (o_streamID o) ->
  exists page m, Outbox_Page o "" limit = PageOK page /\ 0 <= m <= llen h /\
    Page_Events page `prefix_of` drop (Z.to_nat m) h /\
    Page_NextCursor page = cursorAt o (m + llen (Page_Events page)).
Proof.
  intros R G. destruct (retains_readable h o R G) as (n & N & E & Rd).
  rewrite (Page_start o (1 + Z.of_nat n)) by done. unfold pageOf.
  destruct (Outbox_boundsLocked o) as [e la].
  assert (evs o = drop (Z.to_nat (Z.of_nat n)) h) as E' by by rewrite Nat2Z.id.
  destruct (Z.eqb_spec (llen (evs o)) 0) as [Z0|Ne].
  - assert (evs o = []) as E0 by (apply length_zero_iff_nil; unfold llen in Z0; lia).
    eexists _, 0. split; [done|]. cbn [Page_Events Page_NextCursor]. unfold pageEvents.
    rewrite E0, drop_nil. split; [pose proof (llen_nonneg h); lia|]. split; [apply prefix_nil|done].
  - eexists _, (1 + Z.of_nat n - 1). split; [done|]. cbn [Page_Events Page_NextCursor].
    split; [unfold llen; lia|]. split; [|done]. unfold pageEvents.
    replace (1 + Z.of_nat n - 1) with (Z.of_nat n) by lia. rewrite <- E'.
    replace (Z.to_nat (Z.of_nat n + 1 - (1 + Z.of_nat n))) with O by lia. apply fitting_prefix.
Qed.

(** * The steps keep it *)

(** An event that the outbox printed gives itself back. *)
Lemma storable_of `{!OutboxLaws _} o payload event : eventOf o payload event ->
  ValidString (o_bootID o) = true -> 0 < o_nextSeq o < 2 ^ 64 ->
  slen (lineOf event) < maxTokenSize -> storable event.
Proof.
  intros (t & raw & line & Mp & -> & Me) V B S.
  assert (lineOf (mkEvent (o_nextSeq o) t (o_bootID o) (EventType payload) raw) = line) as El
    by (unfold lineOf; by rewrite Me).
  destruct (event_line _ _ Me) as [N Ne]. rewrite El in S.
  split; rewrite ?El; [done| |done|done|cbn; lia|by destruct payload].
  eapply event_roundtrip; [done..|lia|done].
Qed.

Lemma follows_more h h' o o' c l : o_streamID o' = o_streamID o ->
  follows h o c l -> follows (h ++ h') o' c l.
Proof.
  intros E [F|(n & m & M & C & A)]; [by left|]. right. exists n, m.
  split; [unfold llen in *; rewrite length_app; lia|].
  split; [unfold cursorAt; by rewrite E|by apply accounts_more].
Qed.

Lemma follows_same h o o' c l : o_streamID o' = o_streamID o ->
  follows h o c l -> follows h o' c l.
Proof. intros E F. rewrite <- (app_nil_r h). by eapply follows_more. Qed.

Lemma retains_room h o : retains h o -> 0 < o_nextSeq o < 2 ^ 64 /\ o_nextSeq o = llen h + 1.
Proof.
  intros R. rewrite (retains_next _ _ R). destruct (retains_numbered _ _ R).
  pose proof (llen_nonneg h). lia.
Qed.

Lemma invariant_append `{!OutboxLaws _} payload t b event b' h c l :
  invariant (mkSystem b h c l) -> Outbox_Append payload t b = (inr event, b') ->
  llen h + 2 < 2 ^ 64 ->
  invariant (mkSystem b' (h ++ [event]) c l).
Proof.
  intros [R Gs Vb D F] E Room. cbn in *. destruct (retains_room _ _ R) as [B Nx].
  pose proof (triple_Append h (bx_outbox b) payload t b (conj R (conj eq_refl (conj eq_refl
    (conj eq_refl eq_refl))))) as T.
  pose proof (keepsOracle_Append payload t b) as K. rewrite E in T, K. cbn in K.
  destruct T as (Ev & R' & E1 & E2 & E3). split; cbn; [by apply R'|by rewrite E2|by rewrite E3| |].
  - intros Rel Short. unfold reliable in Rel.
    change (k_os (bx_machine b')) with (oracle b') in Rel. rewrite K in Rel.
    apply Forall_app in Short as [Short Sh]. apply Forall_cons in Sh as [Sh _].
    destruct (D Rel Short) as (G & d & S & Dk).
    pose proof (triple_Append_at G (bx_outbox b) d payload t S b (conj eq_refl Dk)) as T2.
    rewrite E in T2. apply T2; [by eapply storable_of|lia].
  - by eapply follows_more.
Qed.

Lemma invariant_append_fails payload t b e b' h c l :
  invariant (mkSystem b h c l) -> Outbox_Append payload t b = (inl e, b') ->
  invariant (mkSystem b' h c l).
Proof.
  intros [R Gs Vb D F] E. cbn in *.
  pose proof (triple_Append h (bx_outbox b) payload t b (conj R (conj eq_refl (conj eq_refl
    (conj eq_refl eq_refl))))) as T.
  pose proof (keepsOracle_Append payload t b) as K. rewrite E in T, K. cbn in K.
  destruct T as (R' & E1 & E2 & E3 & E4). split; cbn; [done|by rewrite E2|by rewrite E3| |].
  - intros Rel Short. unfold reliable in Rel.
    change (k_os (bx_machine b')) with (oracle b') in Rel. rewrite K in Rel.
    destruct (D Rel Short) as (G & d & S & Dk).
    pose proof (triple_Append_at G (bx_outbox b) d payload t S b (conj eq_refl Dk)) as T2.
    rewrite E in T2. destruct T2 as [Eo Dk']. exists G, d. by rewrite Eo.
  - by eapply follows_same.
Qed.

Lemma invariant_close b r b' h c l :
  invariant (mkSystem b h c l) -> Outbox_Close b = (r, b') -> invariant (mkSystem b' h c l).
Proof.
  intros [R Gs Vb D F] E. cbn in *.
  pose proof (triple_Close h (startsAs (bx_outbox b)) (settled_startsAs _) b (conj R (conj eq_refl
    (conj eq_refl (conj eq_refl eq_refl))))) as T.
  pose proof (keepsOracle_Close b) as K. rewrite E in T, K. cbn in K.
  assert (remembering h (startsAs (bx_outbox b)) b') as (R' & E1 & E2 & E3 & E4) by by destruct r.
  split; cbn; [done|by rewrite E2|by rewrite E3| |by eapply follows_same].
  intros Rel Short. unfold reliable in Rel.
  change (k_os (bx_machine b')) with (oracle b') in Rel. rewrite K in Rel.
  destruct (D Rel Short) as (G & d & S & Dk).
  pose proof (triple_Close_at G (bx_outbox b) d S b (conj eq_refl Dk)) as T2. rewrite E in T2.
  destruct r; [done|]. destruct T2 as [Eo Dk']. exists G, d. rewrite Eo. split; [by apply stored_closed|done].
Qed.

(** The directory determines the invariant of the memory. *)
Lemma eventPaths_sorted G : StronglySorted stringLe (map g_path G) ->
  StronglySorted stringLe (map storedEvent_segment (flat_map tagged G)).
Proof.
  induction G as [|g G IH]; intros S; [constructor|]. cbn in *.
  apply StronglySorted_inv in S as [S F]. rewrite map_app. apply StronglySorted_app_2; [|..].
  - intros x y X Y. apply list_elem_of_fmap in X as (e & -> & X), Y as (e' & -> & Y).
    unfold tagged, tag in X. apply list_elem_of_fmap in X as (ev & -> & _). cbn.
    apply list_elem_of_In, in_flat_map in Y as (g' & I & Y). unfold tagged, tag in Y.
    apply in_map_iff in Y as (ev' & <- & _). cbn. rewrite Forall_forall in F. apply F.
    apply list_elem_of_fmap_2. by apply list_elem_of_In.
  - unfold tagged, tag. rewrite map_map. cbn. clear IH S F.
    induction (g_events g) as [|e es IHe]; [constructor|]. cbn. constructor; [done|].
    apply Forall_forall. intros x X. by apply list_elem_of_fmap in X as (e' & -> & _).
  - by apply IH.
Qed.

Lemma stored_retains G o d h n : stored G o d -> numbered h -> o_nextSeq o = llen h + 1 ->
  (n <= length h)%nat -> evs o = drop n h -> retains h o.
Proof.
  intros S Nu Nx N E. pose proof (stored_paths _ _ _ S) as Sp.
  pose proof (paths_sorted _ _ _ (st_layout _ _ _ S)) as Ps. split; [done|done|by exists n| | | |].
  - intros path. rewrite Sp. intros I. apply list_elem_of_fmap in I as (g & -> & I).
    pose proof (lo_groups _ _ _ (st_layout _ _ _ S)) as Gr. rewrite Forall_forall in Gr.
    apply Gr in I as (_ & _ & _ & B). exists (g_first g). split; [lia|done].
  - by rewrite Sp.
  - unfold eventPaths. rewrite (st_events _ _ _ S). by apply eventPaths_sorted.
  - intros path. rewrite Sp. unfold eventPaths. rewrite (st_events _ _ _ S). intros I.
    apply list_elem_of_fmap in I as (e & -> & I).
    apply list_elem_of_In, in_flat_map in I as (g & Ig & I). unfold tagged, tag in I.
    apply in_map_iff in I as (ev & <- & _). cbn. apply list_elem_of_fmap_2. by apply list_elem_of_In.
Qed.

(** What a restart finds: the same stream and the same events, less what retention
    drops now. *)
Lemma reopened h o G d path boot k : retains h o -> stored G o d -> diskIs d k ->
  exists o1 now k', Open path boot k = (inr (snd (pruned now o1)), k') /\
    stored G o1 d /\ retains h o1 /\ o_streamID o1 = o_streamID o /\ o_nodeID o1 = o_nodeID o /\
    o_bootID o1 = boot /\ diskIs (removeFiles (fst (pruned now o1)) d) k'.
Proof.
  intros R S D. pose proof (triple_Reopen G o d path boot S k D) as T.
  destruct (Open path boot k) as [[e|o'] k'] eqn:E; [done|].
  destruct T as (o1 & now & Lo & -> & D'). exists o1, now, k'. split; [done|].
  assert (nextOf G = o_nextSeq o) as Nx.
  { rewrite (st_next _ _ _ S), (evs_tagged _ _ (st_events _ _ _ S)). done. }
  pose proof (st_layout _ _ _ S) as L. destruct (st_ids _ _ _ S) as [In Is Im [Gs Ts]].
  assert (stored G o1 d) as S1 by by eapply loaded_stored.
  split; [done|]. destruct (retains_suffix _ _ R) as (n & N & Ev).
  destruct Lo as [(I1 & I2 & I3) Ev1 _ _ Nx1]. split; [|done].
  eapply (stored_retains G o1 d h n); [done|apply R| |done|].
  - rewrite Nx1, Nx. apply R.
  - rewrite <- Ev. unfold evs. by rewrite Ev1, (st_events _ _ _ S).
Qed.

Lemma stored_same_disk G o d os k h : stored G o d -> diskIs d k ->
  described h (mkBox o (k_set_os os k)).
Proof. intros S [D _] R _. exists G, d. split; [done|]. by split. Qed.

Lemma invariant_restart b h c l path boot o k os :
  invariant (mkSystem b h c l) -> reliable (bx_machine b) -> Forall short h ->
  ValidString boot = true ->
  Open path boot (bx_machine b) = (inr o, k) ->
  invariant (mkSystem (mkBox o (k_set_os os k)) h c l).
Proof.
  intros [R Gs Vb D F] Rel Short V E. cbn in *. destruct (D Rel Short) as (G & d & S & Dk).
  destruct (reopened _ _ _ _ path boot _ R S Dk) as (o1 & now & k' & E' & S1 & R1 & Es & _ & Eb & Dk').
  rewrite E in E'. injection E' as -> ->. destruct (pruned_rest now o1) as (_ & P2 & P3 & _).
  destruct (stored_pruned _ _ _ now S1) as (G1 & G2 & _ & _ & S2).
  split; cbn; [by apply retains_pruned|by rewrite P2, Es|by rewrite P3, Eb| |].
  - by eapply stored_same_disk.
  - eapply follows_same; [|done]. congruence.
Qed.

Lemma invariant_start `{!OutboxLaws _} path boot k0 o k os :
  freshMachine k0 -> reliable k0 -> ValidString boot = true -> Open path boot k0 = (inr o, k) ->
  invariant (mkSystem (mkBox o (k_set_os os k)) [] "" []).
Proof.
  intros F R V E. pose proof (triple_firstOpen path boot k0 (conj F R)) as T. rewrite E in T.
  destruct T as (d & S & D & Eb). pose proof (st_events _ _ _ S) as Ev. cbn in Ev.
  assert (evs o = []) as Ev0 by (unfold evs; by rewrite Ev).
  split; cbn.
  - eapply (stored_retains [] o d [] 0); [exact S|split; [by intros i e|done]| |done|by rewrite Ev0].
    by rewrite (st_next _ _ _ S), Ev0.
  - apply (st_ids _ _ _ S).
  - by rewrite Eb.
  - by eapply stored_same_disk.
  - by left.
Qed.

Lemma invariant_page `{!OutboxLaws _} b h c l limit page :
  invariant (mkSystem b h c l) -> Outbox_Page (bx_outbox b) c limit = PageOK page ->
  invariant (mkSystem b h (Page_NextCursor page) (l ++ map Received (Page_Events page))).
Proof.
  intros [R Gs Vb D F] E. split; cbn in *; try done. right.
  destruct F as [[-> ->]|(n & m & M & -> & A)].
  - destruct (Page_first h _ limit R Gs) as (page' & m & E' & M & P & C).
    rewrite E in E'. injection E' as <-. exists m, (m + llen (Page_Events page)).
    split; [|split; [done|by apply (accounts_page h m [] m); [constructor|lia|]]].
    apply prefix_length in P. rewrite length_drop in P. unfold llen in *. lia.
  - destruct (Page_cases h _ m limit R Gs M) as [(page' & E' & P & C)|(gap & E' & _)];
      rewrite E in E'; [|done]. injection E' as <-. exists n, (m + llen (Page_Events page)).
    split; [|split; [done|by apply accounts_page; [|lia|]]].
    apply prefix_length in P. rewrite length_drop in P. unfold llen in *. lia.
Qed.

Lemma invariant_gap `{!OutboxLaws _} b h c l limit gap :
  invariant (mkSystem b h c l) -> Outbox_Page (bx_outbox b) c limit = PageGap gap ->
  invariant (mkSystem b h (CursorGap_ResumeCursor gap) (l ++ [Missed gap])).
Proof.
  intros [R Gs Vb D F] E. split; cbn in *; try done. right.
  destruct F as [[-> ->]|(n & m & M & -> & A)].
  - destruct (Page_first h _ limit R Gs) as (page' & m & E' & _). by rewrite E in E'.
  - destruct (Page_cases h _ m limit R Gs M) as [(page' & E' & _)|(gap' & E' & Rs & B & C)];
      rewrite E in E'; [done|]. injection E' as <-. exists n, (CursorGap_EarliestSeq gap - 1).
    split; [lia|]. split; [done|]. eapply acc_missed; [done|done|lia].
Qed.

Lemma reachable_invariant `{!OutboxLaws _} s : reachable s -> invariant s.
Proof.
  induction 1 as [path boot k0 o k os F R V E|s s' _ IH St].
  - by eapply invariant_start.
  - destruct St.
    + by eapply invariant_append.
    + by eapply invariant_append_fails.
    + by eapply invariant_close.
    + by eapply invariant_page.
    + by eapply invariant_gap.
    + by eapply invariant_restart.
Qed.
End consumer.
