(* ===== verification/OutboxSafety.v ===== *)
(** What the outbox promises: its consumers, across restarts and failures. *)

From S2P Require Export OutboxConsumer.

(** * Bounds of a page *)

Lemma totalEventSize_snoc es e : totalEventSize (es ++ [e]) = totalEventSize es + eventSize e.
Proof.
  unfold totalEventSize. induction es as [|x es IH]; cbn [app foldr]; [lia|]. rewrite IH. lia.
Qed.

Lemma pageLoop_bounds limit position events page used final :
  0 <= limit -> llen page <= limit -> used = 512 + totalEventSize page -> used <= MaxPageBytes ->
  let es := fst (pageLoop limit position events page used final) in
  llen es <= limit /\ 512 + totalEventSize es <= MaxPageBytes.
Proof.
  intros L0. revert page used final. induction events as [|e events IH]; intros page used final L U B;
    cbn [pageLoop]; [cbn [fst]; lia|].
  destruct (_ <=? position); [by apply IH|]. destruct (_ || _) eqn:D; [cbn [fst]; lia|].
  apply orb_false_iff in D. rewrite Z.leb_gt, Z.ltb_ge in D. apply IH; [| |lia].
  - unfold llen in *. rewrite length_app. cbn. lia.
  - rewrite totalEventSize_snoc. lia.
Qed.

Lemma Page_bounds `{OutboxJSON} o encoded limit page : Outbox_Page o encoded limit = PageOK page ->
  llen (Page_Events page) <= MaxPageLimit /\ totalEventSize (Page_Events page) <= pageBudget.
Proof.
  assert (forall earliest latest position,
    let page := pageFrom o (pageLimit limit) earliest latest position in
    llen (Page_Events page) <= MaxPageLimit /\ totalEventSize (Page_Events page) <= pageBudget) as B.
  { intros earliest latest position. unfold pageFrom. pose proof (pageLimit_range limit) as R.
    pose proof (pageLoop_bounds (pageLimit limit) position (o_events o) [] 512 position) as X.
    destruct (pageLoop _ _ _ _ _ _) as [es final]. cbn in *. unfold pageBudget.
    change (llen []) with 0 in X. specialize (X ltac:(lia) ltac:(lia) eq_refl ltac:(done)). lia. }
  unfold Outbox_Page. destruct (Outbox_boundsLocked o) as [earliest latest].
  destruct (encoded <>s ""); [|by intros [= <-]].
  destruct (decodeCursor encoded) as [decoded|]; [|done].
  destruct (negb _); [done|]. destruct (_ <>s _); [done|].
  do 2 (destruct (_ && _); [done|]). by intros [= <-].
Qed.

(** * The promises *)


(** After a session without failed calls or long lines the directory opens. *)
Lemma reachable_reopens `{J : OutboxJSON} `{!OutboxLaws J} s path boot r k :
  reachable s -> reliable (bx_machine (sys_box s)) -> Forall short (sys_history s) ->
  Open path boot (bx_machine (sys_box s)) = (r, k) -> exists o, r = inr o.
Proof.
  intros R%reachable_invariant Rel Sh E. destruct R as [R _ _ D _].
  destruct (D Rel Sh) as (G & d & S & Dk).
  destruct (reopened _ _ _ _ path boot _ R S Dk) as (o1 & now & k' & E' & _).
  rewrite E in E'. injection E' as -> _. by eexists.
Qed.

(** C18. A restart loses nothing.  When no system call has failed, neither of the
    old process nor of those before it, and every line written is under the
    512 KiB that [loadSegment] can read, which [Append] leaves to its callers,
    then opening the directory again succeeds; the new outbox has the identities,
    the next number and the events of the old one, less those that retention
    would have dropped from the old one at that time. *)
Theorem restart_keeps_events `{J : OutboxJSON} `{!OutboxLaws J} s path boot r k :
  reachable s -> reliable (bx_machine (sys_box s)) -> Forall short (sys_history s) ->
  Open path boot (bx_machine (sys_box s)) = (r, k) ->
  exists o now, r = inr o /\
    o_nodeID o = o_nodeID (bx_outbox (sys_box s)) /\
    o_streamID o = o_streamID (bx_outbox (sys_box s)) /\ o_bootID o = boot /\
    o_nextSeq o = o_nextSeq (bx_outbox (sys_box s)) /\
    o_events o = o_events (snd (pruned now (bx_outbox (sys_box s)))).
Proof.
  intros R%reachable_invariant Rel Sh E. destruct R as [R Gs _ D _].
  destruct (D Rel Sh) as (G & d & S & Dk).
  destruct (reopened _ _ _ _ path boot _ R S Dk) as (o1 & now & k' & E' & S1 & R1 & Es & En & Eb & _).
  rewrite E in E'. injection E' as -> ->. exists (snd (pruned now o1)), now. split; [done|].
  destruct (pruned_rest now o1) as (-> & -> & -> & -> & _). split; [done|]. split; [done|].
  split; [done|]. split.
  - rewrite (retains_next _ _ R1), (retains_next _ _ R). done.
  - eapply (pruned_same G); [apply S|apply S1..|apply S|apply S].
Qed.

(** C19. Paging delivers everything.  When each retained event fits a page (its
    payload, its type and 160 bytes are within one mebibyte less 512), a consumer
    that starts without a cursor and follows the pages while there are more comes
    to an end: after at most one page more than there are events it is told that
    there is no more, and has exactly the retained events in order.  No page has
    more than 256 events or one mebibyte. *)
Theorem pages_deliver_everything `{J : OutboxJSON} `{!OutboxLaws J} s limit : reachable s ->
  let o := bx_outbox (sys_box s) in
  Forall (fun e => eventSize e <= pageBudget) (evs o) ->
  readAll (S (length (evs o))) o "" limit = Some (evs o) /\
  (forall encoded page, Outbox_Page o encoded limit = PageOK page ->
     llen (Page_Events page) <= MaxPageLimit /\ totalEventSize (Page_Events page) <= pageBudget).
Proof.
  intros R%reachable_invariant o F. split; [|intros encoded page; apply Page_bounds].
  destruct R as [R Gs _ _ _]. destruct (retains_readable _ _ R Gs) as (n & N & E & Rd). fold o in Rd, E, Gs.
  destruct (Z.eq_dec (llen (evs o)) 0) as [Z0|Ne].
  - assert (evs o = []) as E0 by (apply length_zero_iff_nil; unfold llen in Z0; lia).
    rewrite E0. cbn [readAll length]. rewrite (Page_start o (1 + Z.of_nat n)) by done.
    unfold pageOf. rewrite (bounds_spec (1 + Z.of_nat n)) by apply Rd. rewrite E0.
    cbn. unfold pageEvents. by rewrite E0.
  - assert (0 < llen (evs o)) as P by (pose proof (llen_nonneg (evs o)); lia).
    pose proof (readAll_from o (1 + Z.of_nat n) limit (1 + Z.of_nat n - 1) (S (length (evs o))) Rd F P) as A.
    replace (Z.to_nat (1 + Z.of_nat n - 1 + 1 - (1 + Z.of_nat n))) with O in A by lia.
    etransitivity; [|apply A; unfold llen in *; lia]. cbn [readAll].
    rewrite (Page_start o (1 + Z.of_nat n)) by done.
    rewrite (Page_at o (1 + Z.of_nat n)) by (done || lia).
    by rewrite (proj2 (Z.eqb_neq _ _) Ne).
Qed.

(** What failing system calls do to the outbox for good: a rotation that fails
    half-way ends recording, and a line that was torn refuses every restart. *)

(** * A failed rotation *)

(** The outbox's file is one that was closed. *)
Definition wedged (o : Outbox) : Prop :=
  exists f, o_current o = Some f /\ osFile_closed f = true.

Lemma closeCurrent_wedges f b e b' : closeCurrent f b = (inl e, b') -> o_current (bx_outbox b) = Some f ->
  wedged (bx_outbox b').
Proof.
  unfold closeCurrent. destruct (osFile_closed f) eqn:C; [intros [= _ <-] E; by exists f|].
  unfold updating, modify, onMachine, mbind, M_bind, bind. destruct (syscall _) as [r k].
  intros [= _ <-] _. by eexists.
Qed.

Lemma closeCurrent_closed f b b' : closeCurrent f b = (inr tt, b') -> wedged (bx_outbox b').
Proof.
  unfold closeCurrent. destruct (osFile_closed f) eqn:C; [done|].
  unfold updating, modify, onMachine, mbind, M_bind, bind. destruct (syscall _) as [r k].
  intros [= _ <-]. by eexists.
Qed.

(** A rotation away from an open file fails only after that file was closed. *)
Lemma failed_rotation_wedges f n b e b' : o_current (bx_outbox b) = Some f ->
  Outbox_rotateLocked n b = (inl e, b') -> wedged (bx_outbox b').
Proof.
  intros Ec. unfold Outbox_rotateLocked. unfold this, gets, mbind at 1, M_bind, bind at 1. rewrite Ec.
  unfold mbind, M_bind, bind. destruct (closeCurrent f b) as [[e1|[]] b1] eqn:E1.
  - intros [= _ <-]. by eapply closeCurrent_wedges.
  - apply closeCurrent_closed in E1. unfold onMachine.
    destruct (os_OpenAppend (segmentName n) (bx_machine b1)) as [[e2|file] k2] eqn:E2;
      [by intros [= _ <-]|done].
Qed.

(** Every later [Append] fails on the closed file and leaves it in place. *)
Lemma wedged_rotate n : triple (onBox wedged) (Outbox_rotateLocked n) (fun _ _ => False) (onBox wedged).
Proof.
  intros b (f & Ec & C). unfold Outbox_rotateLocked, this, gets, mbind, M_bind, bind. rewrite Ec.
  unfold closeCurrent. rewrite C. by exists f.
Qed.

Lemma wedged_Append `{OutboxJSON} payload t :
  triple (onBox wedged) (Outbox_Append payload t) (fun _ _ => False) (onBox wedged).
Proof.
  unfold Outbox_Append. eapply triple_bind with (R := fun _ => onBox wedged).
  { apply triple_fromResult. intros b W. by destruct (MarshalPayload payload). }
  intros raw. eapply triple_bind with (R := fun _ => onBox wedged).
  { destruct (IsZero t); [apply triple_clockNow|by apply triple_ret]. }
  intros at'. apply triple_this. intros o W.
  eapply triple_bind with (R := fun _ => onBox wedged).
  { apply triple_fromResult. intros b <-. by destruct (MarshalEvent _). }
  intros line. eapply triple_bind with (R := fun _ => onBox wedged).
  { eapply triple_weaken; [apply (triple_rotationDue wedged)|done|by intros a b [? _]|done]. }
  intros due. eapply triple_bind with (R := fun _ => onBox wedged).
  { destruct due; [|by apply triple_ret]. eapply triple_weaken; [apply wedged_rotate|done..]. }
  intros []. apply triple_this. clear W. intros o2 (f & Ec & C). rewrite Ec.
  intros b Eo. unfold onMachine, os_Write, mbind, M_bind, bind. rewrite C. cbn. exists f.
  by rewrite Eo.
Qed.

Section damage.
Context `{J : OutboxJSON}.

(** A list of appends, one after the other. *)
Fixpoint appendAll (l : list (TelemetryEvent * time)) (b : Box) : list (error + Event) :=
  match l with
  | [] => []
  | (payload, t) :: l' =>
      let '(r, b') := Outbox_Append payload t b in r :: appendAll l' b'
  end.

(** A rotation that fails ends recording for the life of the process.  When
    the outbox had a file open and opening the next segment fails once, say
    because the process was out of file descriptors, then every later [Append]
    fails, of any event and at any time, even if no system call fails any more:
    [rotateLocked] has closed the old file but [o.current] still refers to it. *)
Theorem failed_rotation_ends_recording n b e b' f k later :
  o_current (bx_outbox b) = Some f -> Outbox_rotateLocked n b = (inl e, b') ->
  Forall (fun r => exists e', r = inl e') (appendAll later (mkBox (bx_outbox b') k)).
Proof.
  intros Ec E. assert (onBox wedged (mkBox (bx_outbox b') k)) as W
    by exact (failed_rotation_wedges _ _ _ _ _ Ec E).
  revert W. generalize (mkBox (bx_outbox b') k). clear. induction later as [|[payload t] later IH];
    intros b W; [constructor|]. cbn. pose proof (wedged_Append payload t b W) as T.
  destruct (Outbox_Append payload t b) as [[e'|ev] b1]; [|done]. constructor; [by eexists|].
  by apply IH.
Qed.

(** * A torn line *)

(** What a write or a crash may leave of a line. *)
Record torn (tail : string) : Prop := {
  torn_some : tail <> "";
  torn_line : noBreaks tail = true;
  torn_unreadable : UnmarshalEvent tail = None
}.

Lemma torn_loadSegment o d g next t tail : goodGroup next g ->
  d_files d !! g_path g = Some (mkSegmentFile (fileText (g_events g) +:+ tail) t) -> torn tail ->
  slen (fileText (g_events g) +:+ tail) <= maxSegmentBytes + 1 ->
  triple (at_ o d) (Outbox_loadSegment (g_path g)) (fun _ _ => False)
    (fun b => diskIs d (bx_machine b)).
Proof.
  intros (NE & St & _ & _) Ft [T1 T2 T3] Sz. unfold Outbox_loadSegment.
  eapply triple_bind; [apply triple_syscall_at|]. intros [].
  apply triple_get. intros b [Eo [Dk _]].
  replace (k_files (bx_machine b)) with (d_files d) by by rewrite <- Dk.
  rewrite Ft. cbn [segmentFile_data segmentFile_mtime].
  eapply triple_bind; [apply triple_syscall_at|]. intros [].
  eapply triple_bind; [apply triple_syscall_at|]. intros [].
  rewrite LimitReader_all, splitLines_text, splitLines_last by done.
  clear b Eo Dk. intros b [Eo Db]. unfold mbind, M_bind, bind.
  edestruct (loadEvents_good (g_events g) [tail] (mkSegment (g_path g) 0 0
    (slen (fileText (g_events g) +:+ tail)) (UTC t)) b St) as (seg & -> & _).
  cbn [loadEvents]. destruct (maxTokenSize <=? slen tail); [by apply Db|].
  rewrite dropCR_noBreaks, T3 by done. apply Db.
Qed.

Lemma torn_loadSegments o d G g next t tail : Forall (goodGroup next) (G ++ [g]) ->
  Forall (groupOnDisk d) G ->
  d_files d !! g_path g = Some (mkSegmentFile (fileText (g_events g) +:+ tail) t) -> torn tail ->
  slen (fileText (g_events g) +:+ tail) <= maxSegmentBytes + 1 ->
  triple (at_ o d) (loadSegments (map g_path (G ++ [g]))) (fun _ _ => False)
    (fun b => diskIs d (bx_machine b)).
Proof.
  intros Gg Fi Ft T Sz. revert o. induction Fi as [|g0 G F0 Fi IH]; intros o; cbn [app map loadSegments].
  - apply Forall_cons in Gg as [Gg _]. eapply triple_bind; [by eapply torn_loadSegment|].
    by intros [] b.
  - apply Forall_cons in Gg as [G0 Gg]. eapply triple_bind; [by eapply triple_loadSegment|].
    intros []. apply triple_exists. intros seg. apply triple_fact. intros _. by apply IH.
Qed.

(** The directory but for the last file. *)
Lemma torn_directory G g next d tail t : laidOut (G ++ [g]) next d ->
  let d2 := appendFile (g_path g) tail t d in
  Forall (groupOnDisk d2) G /\
  d_files d2 !! g_path g = Some (mkSegmentFile (fileText (g_events g) +:+ tail) t) /\
  (forall name, name ∈ map g_path (G ++ [g]) <->
     is_Some (d_files d2 !! name) /\ HasSuffix name ".jsonl" = true).
Proof.
  intros L. pose proof (paths_listed _ _ _ L) as Li. pose proof (paths_NoDup _ _ _ L) as N.
  destruct L as [_ Fi _ _ _]. apply Forall_app in Fi as [Fi Fg].
  apply Forall_cons in Fg as [[t0 Fg] _]. rewrite map_app in N.
  apply NoDup_app in N as (_ & N & _). split; [|split].
  - rewrite Forall_forall in Fi |- *. intros g0 I. destruct (Fi g0 I) as [t1 Ft]. exists t1. cbn.
    rewrite lookup_alter_ne; [done|]. intros E. apply (N (g_path g0));
      [by apply list_elem_of_fmap_2|rewrite <- E; by left].
  - cbn. by rewrite lookup_alter_eq, Fg.
  - intros name. rewrite Li. cbn. destruct (decide (name = g_path g)) as [->|Ne].
    + rewrite lookup_alter_eq, Fg. cbn. split; intros [_ X]; (split; [by eexists|done]).
    + by rewrite lookup_alter_ne.
Qed.

(** Opening a directory that is in order except for that line. *)
Lemma torn_Open G g o d tail t path boot k :
  stored (G ++ [g]) o d -> torn tail ->
  slen (fileText (g_events g)) + slen tail <= maxSegmentBytes + 1 ->
  diskIs (appendFile (g_path g) tail t d) k ->
  exists e k', Open path boot k = (inl e, k') /\ k_files k' = k_files k.
Proof.
  intros S T Sz D. set (d2 := appendFile _ _ _ _) in *.
  assert (triple (diskIs d2) (Open path boot) (fun _ _ => False) (diskIs d2)) as X.
  { destruct (st_ids _ _ _ S) as [In Is Im [_ Ts]].
    pose proof (torn_directory _ _ _ _ tail t (st_layout _ _ _ S)) as (Lg & Lf & Ld). fold d2 in Lg, Lf, Ld.
    unfold Open. eapply triple_bind with (R := fun id k => id = o_nodeID o /\ diskIs d2 k).
    { eapply triple_weaken; [by apply (triple_knownNode d2 path (o_nodeID o))|done..]. }
    intros id. apply triple_fact. intros ->.
    eapply triple_bind; [apply triple_syscall|]. intros [].
    eapply triple_bind; [apply triple_syscall|]. intros [].
    intros k1 D1. unfold loadBox. set (b0 := mkBox _ k1).
    assert (triple (at_ (bx_outbox b0) d2) Outbox_load (fun _ _ => False)
      (fun b => diskIs d2 (bx_machine b))) as Ld2.
    { unfold Outbox_load. eapply triple_bind.
      { eapply triple_weaken; [by apply (triple_loadMetadata (bx_outbox b0) d2 (o_streamID o))|done..]. }
      intros []. eapply triple_bind.
      { apply (triple_onMachine_at _ d2 globSegments
          (fun l k => l = map g_path (G ++ [g]) /\ diskIs d2 k)).
        apply triple_globNames; [eapply paths_sorted, S|eapply paths_NoDup, S|done]. }
      intros names. eapply triple_bind with (R := fun _ _ => False); [|by intros [] b].
      intros b (Eo & -> & Db). eapply (torn_loadSegments _ d2 G g (o_nextSeq o) t tail);
        [apply S|done|done|done|by rewrite slen_app|by split]. }
    specialize (Ld2 b0 (conj eq_refl D1)). by destruct (Outbox_load b0) as [[e|[]] b']. }
  specialize (X k D). destruct (Open path boot k) as [[e|o'] k']; [|done]. exists e, k'.
  split; [done|]. destruct X as [X _], D as [D _]. rewrite <- D in X. by injection X.
Qed.

(** C20. A torn line refuses every restart.  When a write that failed, or a crash,
    has left a part of a line at the end of the open segment of a session whose
    own lines are all under 512 KiB, then [Open] fails although no system call
    does; and since it does not change the files, it fails however often it is
    tried. *)
Theorem torn_line_refuses_restart `{!OutboxLaws J} s f seg tail t path boot k :
  reachable s -> reliable (bx_machine (sys_box s)) -> Forall short (sys_history s) ->
  o_current (bx_outbox (sys_box s)) = Some f ->
  last (o_segments (bx_outbox (sys_box s))) = Some seg ->
  torn tail -> segment_size seg + slen tail <= maxSegmentBytes + 1 ->
  diskIs (appendFile (osFile_path f) tail t (disk (bx_machine (sys_box s)))) k ->
  exists e k', Open path boot k = (inl e, k') /\ k_files k' = k_files k.
Proof.
  intros R%reachable_invariant Rel Sh Ec La T Sz D. destruct R as [_ _ _ De _].
  destruct (De Rel Sh) as (G & d & S & [Dk _]). rewrite Dk in D.
  pose proof (st_current _ _ _ S) as C. rewrite Ec in C. destruct C as [_ Lp].
  apply last_Some in Lp as (ps & Ep). destruct G as [|g G _] using rev_ind; [by destruct ps|].
  rewrite map_app in Ep. apply app_inj_tail in Ep as [_ Ep].
  pose proof (st_segments _ _ _ S) as Sg. apply last_Some in La as (pre & La). rewrite La in Sg.
  apply Forall2_app_inv_l in Sg as (G1 & G2 & _ & Sg & E).
  apply Forall2_cons_inv_l in Sg as (g' & nil & [_ Z1] & N & ->). inversion N; subst nil.
  apply app_inj_tail in E as [_ <-].
  eapply (torn_Open G g _ _ tail t); [done|done|lia|]. by rewrite Ep.
Qed.
End damage.
