(* ===== verification/OutboxSample.v ===== *)
(** A codec with the laws the outbox relies on, and a machine on which the outbox
    runs: the witnesses of the outbox's theorems. *)

From S2P Require Export OutboxSafety.
From S2P Require Import StoreCodec.

(** * A codec *)

(** [n] bytes, the least significant first. *)
Fixpoint bytesOf (n : nat) (z : Z) : list Z :=
  match n with O => [] | S n => z mod 256 :: bytesOf n (z / 256) end.
Fixpoint numberOf (bs : list Z) : Z :=
  match bs with [] => 0 | b :: r => b + 256 * numberOf r end.

Lemma bytesOf_range n z : byte_list (bytesOf n z).
Proof.
  revert z. induction n as [|n IH]; intros z; constructor; [by apply Z.mod_pos_bound|apply IH].
Qed.

Lemma numberOf_bytesOf n z : 0 <= z < 256 ^ Z.of_nat n -> numberOf (bytesOf n z) = z.
Proof.
  revert z. induction n as [|n IH]; intros z B; cbn [bytesOf numberOf]; [cbn in B; lia|].
  rewrite Nat2Z.inj_succ, Z.pow_succ_r in B by lia. rewrite IH; divmod.
Qed.

Lemma length_bytesOf n z : length (bytesOf n z) = n.
Proof. revert z. induction n as [|n IH]; intros z; cbn; [done|]. by rewrite IH. Qed.

Definition hexOf (s : string) : string := HexEncode (bytes_of_string s).
Definition unhex (s : string) : option string := string_of_bytes <$> HexDecode s.

Lemma unhex_hexOf s : unhex (hexOf s) = Some s.
Proof.
  unfold unhex, hexOf. rewrite HexDecode_Encode by apply bytes_of_string_range. cbn.
  by rewrite string_of_bytes_of.
Qed.

(** Printable characters break no line. *)
Lemma noBreaks_visible s : all_visible s = true -> noBreaks s = true.
Proof.
  induction s as [|c s IH]; [done|]. cbn. intros [V Vs]%andb_true_iff. rewrite IH by done.
  unfold visible in V. apply andb_true_iff in V as [V%Z.leb_le _].
  by rewrite !(proj2 (Z.eqb_neq _ _)) by lia.
Qed.

Lemma digits_visible p : all_visible (StoreCodec.digits p) = true.
Proof. induction p; cbn; done. Qed.

(** An event by the binary digits of its encoding, a cursor by its bytes. *)
Definition eventCells (e : Event) : list cell :=
  [CZ (Event_Seq e); CZ (Event_OccurredAt e); CS (Event_BootID e); CS (Event_Type e);
   CS (Event_Payload e)].

#[export] Instance sample_json : OutboxJSON := {
  MarshalPayload payload := inr (match payload with EventDaemonStarted t => Itoa t | _ => "{}" end);
  MarshalEvent e := inr (StoreCodec.digits (encode (eventCells e)));
  UnmarshalEvent line :=
    match undigits line ≫= (fun p => decode p) with
    | Some [CZ seq; CZ t; CS boot; CS kind; CS payload] => Some (mkEvent seq t boot kind payload)
    | _ => None
    end;
  MarshalMetadata id := hexOf id;
  UnmarshalMetadata data := unhex (TrimSuffix data newline);
  MarshalCursor c := HexEncode (bytesOf 8 (cursor_Seq c) ++ bytes_of_string (cursor_StreamID c));
  UnmarshalCursor data :=
    match HexDecode data with
    | Some bs => Some (mkCursor SchemaVersion (string_of_bytes (drop 8 bs)) (numberOf (take 8 bs)))
    | None => None
    end
}.

#[export] Instance sample_laws : OutboxLaws sample_json.
Proof.
  split.
  - intros id seq _ B. cbn [MarshalCursor UnmarshalCursor sample_json cursor_Seq cursor_StreamID].
    rewrite HexDecode_Encode by (apply Forall_app; split;
      [apply bytesOf_range|apply bytes_of_string_range]).
    rewrite take_app_length', drop_app_length' by by rewrite length_bytesOf.
    rewrite string_of_bytes_of, numberOf_bytesOf; [done|]. by change (256 ^ Z.of_nat 8) with (2 ^ 64).
  - intros id seq _. cbn [MarshalCursor sample_json cursor_Seq cursor_StreamID].
    rewrite slen_HexEncode. unfold llen. rewrite length_app, length_bytesOf.
    assert (forall t, Z.of_nat (length (bytes_of_string t)) = slen t) as X.
    { induction t as [|c t IH]; [done|]. unfold slen in *. cbn. lia. }
    rewrite Nat2Z.inj_add, X. pose proof (slen_nonneg id). lia.
  - intros id _. cbn [MarshalMetadata UnmarshalMetadata sample_json]. rewrite TrimSuffix_app.
    apply unhex_hexOf.
  - intros payload raw seq t boot line _ _ _. cbn [MarshalEvent UnmarshalEvent sample_json].
    intros [= <-]. rewrite <- (string_app_nil (StoreCodec.digits _)), undigits_digits by done.
    cbn [mbind option_bind]. by rewrite decode_encode.
  - intros e line. cbn [MarshalEvent sample_json]. intros [= <-].
    split; [apply noBreaks_visible, digits_visible|].
    by destruct (encode (eventCells e)).
Qed.

(** * A machine *)

(** An empty directory, a clock that ticks every second, no failing call. *)
Definition sample_machine : Machine :=
  mkMachine None None ∅ (fun _ => None) 0 (fun _ => 3%nat)
    (fun n => (63000000000 + Z.of_nat n) * Second) 0 (fun n => Z.of_nat n) 0.

(** From call [n] on, calls fail. *)
Definition failing_from (n : nat) : nat -> option error :=
  fun i => if (i <? n)%nat then None else Some (ErrorString "too many open files").

Definition sample_path : string := "/var/lib/gpuardian/node.id".

(** * Runs *)

(** The steps of a session, executed. *)
Inductive action : Type :=
  | DoAppend (payload : TelemetryEvent) (t : time)
  | DoClose
  | DoAsk (limit : Z).

Definition act (a : action) (s : system) : option system :=
  let '(mkSystem b h c l) := s in
  match a with
  | DoAppend payload t =>
      match Outbox_Append payload t b with
      | (inr event, b') =>
          if llen h + 2 <? 2 ^ 64
          then Some (mkSystem b' (h ++ [event]) c l) else None
      | (inl _, b') => Some (mkSystem b' h c l)
      end
  | DoClose => Some (mkSystem (snd (Outbox_Close b)) h c l)
  | DoAsk limit =>
      match Outbox_Page (bx_outbox b) c limit with
      | PageOK page =>
          Some (mkSystem b h (Page_NextCursor page) (l ++ map Received (Page_Events page)))
      | PageGap gap => Some (mkSystem b h (CursorGap_ResumeCursor gap) (l ++ [Missed gap]))
      | PageInvalid => None
      end
  end.

Lemma act_step a s s' : act a s = Some s' -> step s s'.
Proof.
  destruct s as [b h c l], a as [payload t| |limit]; cbn -[Outbox_Append Outbox_Page Outbox_Close].
  - destruct (Outbox_Append payload t b) as [[e|ev] b'] eqn:E.
    + intros [= <-]. by eapply step_append_fails.
    + destruct (_ <? _) eqn:B; [|done]. intros [= <-]. apply Z.ltb_lt in B. by eapply step_append.
  - intros [= <-]. destruct (Outbox_Close b) eqn:E. by eapply step_close.
  - destruct (Outbox_Page _ c limit) eqn:E; [| |]; intros [= <-]; [by eapply step_page|by eapply step_gap].
Qed.

Definition session (actions : list action) (s : system) : option system :=
  foldl (fun s a => s ≫= act a) (Some s) actions.

Lemma session_reachable actions s s' : reachable s -> session actions s = Some s' -> reachable s'.
Proof.
  unfold session. revert s. induction actions as [|a actions IH]; intros s R; cbn; [by intros [= <-]|].
  destruct (act a s) as [s1|] eqn:E.
  - intros F. apply (IH s1); [|done]. eapply reach_step; [done|by eapply act_step].
  - intros F. exfalso. revert F. clear. induction actions as [|a actions IH]; [done|]. by cbn.
Qed.

Definition no_outbox : Outbox := mkOutbox "" "" "" 0 [] [] None.
Definition nowhere : system := mkSystem (mkBox no_outbox sample_machine) [] "" [].
Definition value {A} (d : A) (r : error + A) : A := match r with inr a => a | inl _ => d end.

(** A new process over the machine of the old one. *)
Definition restart (boot : string) (os : nat -> option error) (s : system) : system :=
  let '(r, k) := Open sample_path boot (bx_machine (sys_box s)) in
  mkSystem (mkBox (value no_outbox r) (k_set_os os k)) (sys_history s) (sys_cursor s) (sys_log s).

Definition sample_started (os : nat -> option error) : system := restart "boot-a" os nowhere.

Lemma sample_started_reachable os : reachable (sample_started os).
Proof.
  unfold sample_started, restart. destruct (Open sample_path "boot-a" _) as [r k] eqn:E.
  assert (freshMachine sample_machine) as F.
  { split; [done| |done]. intros name [x X].
    change ((∅ : gmap string segmentFile) !! name = Some x) in X. by rewrite lookup_empty in X. }
  pose proof (triple_firstOpen sample_path "boot-a" sample_machine
    (conj F (fun n => eq_refl))) as T.
  cbn [nowhere sys_box bx_machine] in E. rewrite E in T. destruct r as [e|o]; [done|].
  by apply (reach_start sample_path "boot-a" sample_machine o k os F).
Qed.

Lemma restart_reachable boot os s : reachable s -> ValidString boot = true ->
  reliable (bx_machine (sys_box s)) -> Forall short (sys_history s) ->
  reachable (restart boot os s).
Proof.
  intros R V Rel Sh. unfold restart. destruct (Open sample_path boot _) as [r k] eqn:E.
  destruct (reachable_reopens s sample_path boot r k R Rel Sh E) as [o ->].
  eapply reach_step; [exact R|]. destruct s as [b h c l]. by apply (step_restart b h c l sample_path boot).
Qed.

(** The [n]-th event, of a time the clock has about reached. *)
Definition appending (n : Z) : action := DoAppend (EventDaemonStarted n) ((63000000000 + n) * Second).

(** One event and a page of it, two more events and a page of one. *)
Definition sample_before : system :=
  default nowhere (session [appending 1; DoAsk 1; appending 2; appending 3; DoAsk 1; DoClose]
    (sample_started (fun _ => None))).
(** A restart, another event, one that fails to be written, and the rest. *)
Definition sample_after : system :=
  default nowhere (session [appending 4; appending 5; DoAsk 128]
    (restart "boot-b" (failing_from 33) sample_before)).
(** A session with one event. *)
Definition sample_open (os : nat -> option error) : system :=
  default nowhere (session [appending 1] (sample_started os)).

Lemma session_default actions s : reachable s -> bool_decide (is_Some (session actions s)) = true ->
  reachable (default nowhere (session actions s)).
Proof.
  intros R B. destruct (session actions s) as [s'|] eqn:E; [|done]. by eapply session_reachable.
Qed.

Lemma sample_before_reachable : reachable sample_before.
Proof. apply session_default; [apply sample_started_reachable|vm_compute; reflexivity]. Qed.

Lemma sample_before_reliable : reliable (bx_machine (sys_box sample_before)).
Proof. intros n. vm_compute. reflexivity. Qed.

Lemma all_short (h : list Event) :
  forallb (fun e => slen (lineOf e) <? maxTokenSize) h = true -> Forall short h.
Proof.
  intros A. apply Forall_forall. intros e I%list_elem_of_In.
  by eapply Z.ltb_lt, (proj1 (forallb_forall _ _) A).
Qed.

Lemma sample_before_short : Forall short (sys_history sample_before).
Proof. apply all_short. vm_compute. reflexivity. Qed.

Lemma sample_after_reachable : reachable sample_after.
Proof.
  apply session_default; [|vm_compute; reflexivity].
  apply restart_reachable; [apply sample_before_reachable|vm_compute; reflexivity|
    apply sample_before_reliable|apply sample_before_short].
Qed.

Lemma sample_open_reachable : reachable (sample_open (fun _ => None)).
Proof. apply session_default; [apply sample_started_reachable|vm_compute; reflexivity]. Qed.

Definition numbers (l : list item) : list Z :=
  map (fun i => match i with Received e => Event_Seq e | Missed _ => 0 end) l.

(** * The witnesses *)


Definition sample_reopened : (error + Outbox) * Machine :=
  Open sample_path "boot-b" (bx_machine (sys_box sample_before)).

Lemma restart_keeps_events_witness :
  length (o_events (bx_outbox (sys_box sample_before))) = 3%nat /\
  exists o now, fst sample_reopened = inr o /\
    o_nodeID o = o_nodeID (bx_outbox (sys_box sample_before)) /\
    o_streamID o = o_streamID (bx_outbox (sys_box sample_before)) /\ o_bootID o = "boot-b" /\
    o_nextSeq o = o_nextSeq (bx_outbox (sys_box sample_before)) /\
    o_events o = o_events (snd (pruned now (bx_outbox (sys_box sample_before)))).
Proof.
  split; [vm_compute; reflexivity|].
  apply (restart_keeps_events sample_before sample_path "boot-b" (fst sample_reopened)
    (snd sample_reopened)).
  - apply sample_before_reachable.
  - apply sample_before_reliable.
  - apply sample_before_short.
  - unfold sample_reopened. apply surjective_pairing.
Defined.

Lemma pages_deliver_everything_witness :
  map Event_Seq <$> readAll 2 (bx_outbox (sys_box sample_before)) "" 2 = Some [1; 2; 3] /\
  map Event_Seq <$> readAll 1 (bx_outbox (sys_box sample_before)) "" 2 = None /\
  readAll (S (length (evs (bx_outbox (sys_box sample_before)))))
    (bx_outbox (sys_box sample_before)) "" 2 = Some (evs (bx_outbox (sys_box sample_before))).
Proof.
  split; [vm_compute; reflexivity|]. split; [vm_compute; reflexivity|].
  apply (pages_deliver_everything sample_before 2 sample_before_reachable).
  apply (bool_decide_unpack _). vm_compute. exact I.
Defined.

Lemma pair_fst {A B} (x : A * B) a : fst x = a -> x = (a, snd x).
Proof. destruct x. by intros [= ->]. Qed.

(** The seventeenth call of the session, the rotation's [OpenFile], fails. *)
Definition sample_exhausted (n : nat) : option error :=
  if (n =? 16)%nat then Some (ErrorString "too many open files") else None.
Definition sample_rotation : (error + unit) * Box :=
  Outbox_rotateLocked 2 (sys_box (sample_open sample_exhausted)).

Lemma failed_rotation_ends_recording_witness :
  fst sample_rotation = inl (ErrorString "too many open files") /\
  Forall (fun r => exists e, r = inl e)
    (appendAll [(EventDaemonStarted 5, 5); (EventDaemonStarted 6, 6)]
       (mkBox (bx_outbox (snd sample_rotation)) sample_machine)).
Proof.
  split; [vm_compute; reflexivity|].
  apply (failed_rotation_ends_recording 2 (sys_box (sample_open sample_exhausted))
    (ErrorString "too many open files") _ (mkOsFile "00000000000000000001.jsonl" false)).
  - vm_compute. reflexivity.
  - apply (pair_fst (Outbox_rotateLocked 2 (sys_box (sample_open sample_exhausted)))).
    vm_compute. reflexivity.
Defined.

(** The machine of the session with a torn line in its segment. *)
Definition sample_torn : Machine :=
  let k := bx_machine (sys_box (sample_open (fun _ => None))) in
  k_set_files (d_files (appendFile "00000000000000000001.jsonl" "00" 0 (disk k))) k.

Lemma torn_line_refuses_restart_witness :
  exists e k', Open sample_path "boot-b" sample_torn = (inl e, k') /\
    k_files k' = k_files sample_torn.
Proof.
  destruct (last (o_segments (bx_outbox (sys_box (sample_open (fun _ => None)))))) as [seg|] eqn:E;
    [|vm_compute in E; discriminate E].
  apply (torn_line_refuses_restart (sample_open (fun _ => None))
    (mkOsFile "00000000000000000001.jsonl" false) seg "00" 0 sample_path "boot-b" sample_torn).
  - apply sample_open_reachable.
  - intros n. vm_compute. reflexivity.
  - apply all_short. vm_compute. reflexivity.
  - vm_compute. reflexivity.
  - exact E.
  - split; [discriminate|reflexivity|vm_compute; reflexivity].
  - vm_compute in E. injection E as <-. vm_compute. discriminate.
  - split; [vm_compute; reflexivity|intros n; vm_compute; reflexivity].
Defined.
