(* ===== verification/DaemonOutbox.v ===== *)
(** internal/daemon/http.go, the routes of the telemetry consumer: the node's
    identity and the pages of its outbox. *)

From S2P Require Export DaemonServe OutboxSafety.

Definition StatusGone : Z := 410.

(** The responses of the two routes. *)
Inductive telemetryReply : Type :=
  | TelemetryError (status : Z) (message : string)
  | TelemetryInfo (status : Z) (info : Info)
  | TelemetryGap (status : Z) (gap : CursorGap)
  | TelemetryPage (status : Z) (page : Page).

Definition handleNodeInfo (telemetry : option Outbox) (method : string) : telemetryReply :=
  if method <>s "GET" then TelemetryError StatusMethodNotAllowed "method not allowed"
  else match telemetry with
       | None => TelemetryError StatusServiceUnavailable "telemetry is unavailable"
       | Some o => TelemetryInfo StatusOK (Outbox_Info o)
       end.

(** The page size a request asks for; [None] is refused. *)
Definition requestedLimit (limitText : string) : option Z :=
  let text := TrimSpace limitText in
  if text <>s "" then
    match Atoi text with
    | Some parsed => if (parsed <? 1) || (MaxPageLimit <? parsed) then None else Some parsed
    | None => None
    end
  else Some DefaultPageLimit.

(** [limitText] and [cursorText] are the query's values. *)
Definition handleNodeTelemetry `{OutboxJSON} (telemetry : option Outbox)
    (method limitText cursorText : string) : telemetryReply :=
  if method <>s "GET" then TelemetryError StatusMethodNotAllowed "method not allowed"
  else match telemetry with
       | None => TelemetryError StatusServiceUnavailable "telemetry is unavailable"
       | Some o =>
           match requestedLimit limitText with
           | None => TelemetryError StatusBadRequest "limit must be between 1 and 256"
           | Some limit =>
               match Outbox_Page o (TrimSpace cursorText) limit with
               | PageGap gap => TelemetryGap StatusGone gap
               | PageInvalid => TelemetryError StatusBadRequest "invalid telemetry cursor"
               | PageOK page => TelemetryPage StatusOK page
               end
           end
       end.

(** A page size that is accepted is the one [Page] uses. *)
Lemma requestedLimit_used text limit : requestedLimit text = Some limit ->
  pageLimit limit = limit /\ 1 <= limit <= MaxPageLimit.
Proof.
  unfold requestedLimit. intros E. assert (1 <= limit <= MaxPageLimit) as B.
  { destruct (_ <>s ""); [|injection E as <-; done]. destruct (Atoi _) as [n|]; [|done].
    destruct (_ || _) eqn:D; [done|]. injection E as <-. apply orb_false_iff in D.
    rewrite Z.ltb_ge, Z.ltb_ge in D. lia. }
  split; [|done]. unfold pageLimit. destruct (Z.leb_spec limit 0); [lia|].
  by destruct (Z.ltb_spec MaxPageLimit limit); [lia|].
Qed.
