(* ===== verification/WebAttempts.v ===== *)
(** internal/web/session.go, the limits on attempts: counters per key over fixed
    windows of a minute, kept in a map of at most 4096 keys; and how many attempts
    they admit in any minute. *)

From S2P Require Export MonadLogic GoTime.

Definition loginWindow : duration := Minute.
Definition loginFailureLimit : Z := 5.
Definition loginIPFailureLimit : Z := 50.
Definition loginUserFailureLimit : Z := 10.
Definition registrationIPLimit : Z := 5.
Definition registrationGlobalLimit : Z := 20.
Definition passwordChangeLimit : Z := 5.
Definition maxLoginAttemptKeys : Z := 4096.
Definition registrationGlobalAttemptKey : string := "registration:global".

Record loginAttempt : Type := mkLoginAttempt { Failures : Z; ResetAt : time }.

(** The map [loginAttempts]; reading an absent key yields the zero value. *)
Abbreviation Attempts := (gmap string loginAttempt).
Definition noAttempt : loginAttempt := mkLoginAttempt 0 zeroTime.
Definition attemptOf (key : string) (m : Attempts) : loginAttempt := default noAttempt (m !! key).

(** * The operations, each under [loginMu] *)

(** The attempt of a key; one whose window is over is deleted first. *)
Definition currentAttempt (key : string) (now : time) : M Attempts loginAttempt :=
  attempt ← gets (attemptOf key);
  if negb (IsZero (ResetAt attempt)) && negb (Before now (ResetAt attempt))
  then modify (delete key) ;; ret noAttempt
  else ret attempt.

Definition ensureAttemptCapacityLocked (now : time) (newKeys : Z) : M Attempts bool :=
  m ← get;
  if Z.of_nat (size m) + newKeys <=? maxLoginAttemptKeys then ret true
  else
    modify (filter (fun entry => Before now (ResetAt entry.2) = true)) ;;
    m ← get;
    ret (Z.of_nat (size m) + newKeys <=? maxLoginAttemptKeys).

(** The body of the loops that count an attempt. *)
Definition chargeAttempt (now : time) (key : string) : M Attempts unit :=
  attempt ← gets (attemptOf key);
  let resetAt := if IsZero (ResetAt attempt) then TimeAdd now loginWindow else ResetAt attempt in
  modify (<[key := mkLoginAttempt (Failures attempt + 1) resetAt]>).

Fixpoint chargeAttempts (now : time) (keys : list string) : M Attempts unit :=
  match keys with
  | [] => ret tt
  | key :: rest => chargeAttempt now key ;; chargeAttempts now rest
  end.

(** One more key when the map has none yet. *)
Definition newKey (key : string) : M Attempts Z :=
  m ← get; ret (match m !! key with Some _ => 0 | None => 1 end).

Definition reserveLoginAttempt (userKey ipKey accountKey : string) (now : time)
    : M Attempts (bool * duration) :=
  userAttempt ← currentAttempt userKey now;
  ipAttempt ← currentAttempt ipKey now;
  accountAttempt ← currentAttempt accountKey now;
  let retryAfter := if loginFailureLimit <=? Failures userAttempt
                    then TimeSub (ResetAt userAttempt) now else 0 in
  let retryAfter := if loginIPFailureLimit <=? Failures ipAttempt
                    then Z.max retryAfter (TimeSub (ResetAt ipAttempt) now) else retryAfter in
  let retryAfter := if loginUserFailureLimit <=? Failures accountAttempt
                    then Z.max retryAfter (TimeSub (ResetAt accountAttempt) now) else retryAfter in
  if 0 <? retryAfter then ret (false, retryAfter)
  else
    n1 ← newKey userKey;
    n2 ← newKey ipKey;
    n3 ← newKey accountKey;
    ok ← ensureAttemptCapacityLocked now (n1 + n2 + n3);
    if negb ok then ret (false, loginWindow)
    else
      chargeAttempts now [userKey; ipKey; accountKey] ;;
      ret (true, 0).

Definition reserveSingleAttempt (key : string) (now : time) (limit : Z)
    : M Attempts (bool * duration) :=
  attempt ← currentAttempt key now;
  if limit <=? Failures attempt then ret (false, TimeSub (ResetAt attempt) now)
  else
    let newKeys := if IsZero (ResetAt attempt) then 1 else 0 in
    ok ← ensureAttemptCapacityLocked now newKeys;
    if negb ok then ret (false, loginWindow)
    else
      let resetAt := if IsZero (ResetAt attempt) then TimeAdd now loginWindow
                     else ResetAt attempt in
      modify (<[key := mkLoginAttempt (Failures attempt + 1) resetAt]>) ;;
      ret (true, 0).

Definition reserveRegistrationAttempt (ipKey : string) (now : time) : M Attempts (bool * duration) :=
  ipAttempt ← currentAttempt ipKey now;
  globalAttempt ← currentAttempt registrationGlobalAttemptKey now;
  let retryAfter := if registrationIPLimit <=? Failures ipAttempt
                    then TimeSub (ResetAt ipAttempt) now else 0 in
  let retryAfter := if registrationGlobalLimit <=? Failures globalAttempt
                    then Z.max retryAfter (TimeSub (ResetAt globalAttempt) now) else retryAfter in
  if 0 <? retryAfter then ret (false, retryAfter)
  else
    n1 ← newKey ipKey;
    n2 ← newKey registrationGlobalAttemptKey;
    ok ← ensureAttemptCapacityLocked now (n1 + n2);
    if negb ok then ret (false, loginWindow)
    else
      chargeAttempts now [ipKey; registrationGlobalAttemptKey] ;;
      ret (true, 0).

Definition releaseAttempt (key : string) : M Attempts unit :=
  m ← get;
  match m !! key with
  | None => ret tt
  | Some attempt =>
      let failures := Failures attempt - 1 in
      if failures <=? 0 then modify (delete key)
      else modify (<[key := mkLoginAttempt failures (ResetAt attempt)]>)
  end.

Fixpoint releaseLoginReservation (keys : list string) : M Attempts unit :=
  match keys with
  | [] => ret tt
  | key :: rest => releaseAttempt key ;; releaseLoginReservation rest
  end.

(** * What an operation does to the map *)

(** [m'] is [m] without some of the keys whose window is over. *)
Definition expires (now : time) (m m' : Attempts) : Prop :=
  forall key, m' !! key = m !! key \/
    (m' !! key = None /\ exists x, m !! key = Some x /\ ResetAt x <= now).

#[export] Instance expires_refl now : Reflexive (expires now).
Proof. intros m key. by left. Qed.
#[export] Instance expires_trans now : Transitive (expires now).
Proof.
  intros m1 m2 m3 E1 E2 key. destruct (E2 key) as [->|(-> & x & X & L)]; [apply E1|].
  destruct (E1 key) as [Eq|[N _]]; [|congruence]. right. split; [done|]. exists x. by rewrite <- Eq.
Qed.

(** [a] is the attempt of [key], and its window is not over. *)
Definition settled (now : time) (key : string) (a : loginAttempt) (m : Attempts) : Prop :=
  a = attemptOf key m /\ forall x, m !! key = Some x -> now < ResetAt x.

Lemma settled_expires now key a m m' : settled now key a m -> expires now m m' -> settled now key a m'.
Proof.
  intros [-> L] E. destruct (E key) as [Eq|(_ & x & X & Le)].
  - split; [unfold attemptOf; by rewrite Eq|]. intros x X. apply L. by rewrite <- Eq.
  - specialize (L x X). lia.
Qed.

(** Every counter counts something, for a window that has a time. *)
Definition counting (m : Attempts) : Prop :=
  forall key x, m !! key = Some x -> 0 < Failures x /\ 0 < ResetAt x.

Lemma counting_expires now m m' : counting m -> expires now m m' -> counting m'.
Proof.
  intros C E key x X. apply (C key). destruct (E key) as [<-|(N & _)]; [done|congruence].
Qed.

Lemma current_run key now m : counting m -> exists a m',
  currentAttempt key now m = (inr a, m') /\ expires now m m' /\ settled now key a m'.
Proof.
  intros C. unfold currentAttempt, mbind, M_bind, bind, gets, modify, ret. unfold attemptOf at 1 2.
  destruct (m !! key) as [x|] eqn:X; cbn.
  - destruct (C key x X) as [_ P]. unfold IsZero, Before. destruct (Z.eqb_spec (ResetAt x) 0); [lia|].
    destruct (Z.ltb_spec now (ResetAt x)); cbn.
    + eexists _, m. split; [done|]. split; [done|]. unfold settled, attemptOf. rewrite X.
      split; [done|]. by intros ? [= <-].
    + eexists _, (delete key m). split; [done|]. split.
      * intros k. destruct (decide (k = key)) as [->|]; [|left; by rewrite lookup_delete_ne].
        right. rewrite lookup_delete_eq. eauto.
      * unfold settled, attemptOf. by rewrite lookup_delete_eq.
  - eexists _, m. split; [done|]. split; [done|]. unfold settled, attemptOf. by rewrite X.
Qed.

Lemma ensure_run now n m : exists ok m',
  ensureAttemptCapacityLocked now n m = (inr ok, m') /\ expires now m m' /\
  (if ok then Z.of_nat (size m') + n <= maxLoginAttemptKeys
   else maxLoginAttemptKeys < Z.of_nat (size m') + n).
Proof.
  unfold ensureAttemptCapacityLocked, mbind, M_bind, bind, get, modify, ret.
  destruct (Z.leb_spec (Z.of_nat (size m) + n) maxLoginAttemptKeys).
  - by exists true, m.
  - eexists _, _. split; [done|]. split; [|by case_match eqn:L; [apply Z.leb_le in L|apply Z.leb_gt in L]].
    intros key. rewrite map_lookup_filter. destruct (m !! key) as [x|] eqn:X; [|by left]. cbn.
    unfold Before. case_guard as G; [by left|]. right. split; [done|]. exists x. split; [done|].
    destruct (Z.ltb_spec now (ResetAt x)); [done|lia].
Qed.

(** The map after [chargeAttempts]. *)
Definition charge (now : time) (m : Attempts) (key : string) : Attempts :=
  let a := attemptOf key m in
  <[key := mkLoginAttempt (Failures a + 1)
             (if IsZero (ResetAt a) then TimeAdd now loginWindow else ResetAt a)]> m.

Lemma chargeAttempts_run now keys m : chargeAttempts now keys m = (inr tt, foldl (charge now) m keys).
Proof. revert m. induction keys as [|key keys IH]; intros m; [done|]. apply IH. Qed.

Lemma charge_others now keys m key : key ∉ keys -> foldl (charge now) m keys !! key = m !! key.
Proof.
  revert m. induction keys as [|k keys IH]; intros m N; [done|].
  apply not_elem_of_cons in N as [N1 N2]. cbn. rewrite IH by done.
  unfold charge. by rewrite lookup_insert_ne.
Qed.

Lemma charge_key now keys m key : NoDup keys -> key ∈ keys ->
  foldl (charge now) m keys !! key = charge now m key !! key.
Proof.
  revert m. induction keys as [|k keys IH]; intros m N I; [by apply elem_of_nil in I|].
  apply NoDup_cons in N as [N1 N2]. cbn. apply elem_of_cons in I as [->|I].
  - by rewrite charge_others.
  - rewrite IH by done. unfold charge, attemptOf. assert (k <> key) by (intros ->; done).
    by rewrite !lookup_insert_eq, lookup_insert_ne.
Qed.

(** * Admission *)

(** A key has used up its limit in a window that is not over. *)
Definition exhausted (now : time) (m : Attempts) (charged : string * Z) : Prop :=
  exists x, m !! charged.1 = Some x /\ charged.2 <= Failures x /\ now < ResetAt x.

(** The number of keys the map has none for yet. *)
Definition absent (m : Attempts) (keys : list string) : Z :=
  foldr (fun key n => match m !! key with Some _ => 0 | None => 1 end + n) 0 keys.

(** What an operation does that wants to count an attempt under each key of
    [charged] against its limit: admit it when no key is exhausted and the map has
    room, and leave the counters alone otherwise. *)
Inductive reserves (charged : list (string * Z)) (now : time) (m : Attempts) :
    (bool * duration) * Attempts -> Prop :=
  | reserves_exhausted wait m' : expires now m m' -> Exists (exhausted now m') charged ->
      (forall key limit x, (key, limit) ∈ charged -> m' !! key = Some x -> limit <= Failures x ->
         TimeSub (ResetAt x) now <= wait) ->
      0 < wait -> reserves charged now m ((false, wait), m')
  | reserves_full m' : expires now m m' -> Forall (fun c => ~ exhausted now m' c) charged ->
      maxLoginAttemptKeys < Z.of_nat (size m') + absent m' charged.*1 ->
      reserves charged now m ((false, loginWindow), m')
  | reserves_admits m' : expires now m m' ->
      Forall (fun c => Failures (attemptOf c.1 m') < c.2 /\
                       forall x, m' !! c.1 = Some x -> now < ResetAt x) charged ->
      Z.of_nat (size (foldl (charge now) m' charged.*1)) <= maxLoginAttemptKeys ->
      reserves charged now m ((true, 0), foldl (charge now) m' charged.*1).

Lemma newKey_run key m : newKey key m = (inr (match m !! key with Some _ => 0 | None => 1 end), m).
Proof. done. Qed.

Lemma size_charge now m key :
  Z.of_nat (size (charge now m key)) =
    Z.of_nat (size m) + match m !! key with Some _ => 0 | None => 1 end.
Proof.
  unfold charge. destruct (m !! key) eqn:X.
  - rewrite map_size_insert_Some by eauto. lia.
  - rewrite map_size_insert_None by done. lia.
Qed.

(** The absent keys bound the growth of the map. *)
Lemma size_charges now m keys :
  Z.of_nat (size (foldl (charge now) m keys)) <= Z.of_nat (size m) + absent m keys.
Proof.
  unfold absent.
  revert m. induction keys as [|key keys IH]; intros m; [cbn; lia|]. cbn [foldl foldr].
  etrans; [apply IH|]. rewrite size_charge.
  enough (absent (charge now m key) keys <= absent m keys) by (unfold absent in *; lia).
  unfold absent. clear IH. induction keys as [|k keys IH]; cbn [foldr]; [done|].
  assert (match charge now m key !! k with Some _ => 0 | None => 1 end <=
          match m !! k with Some _ => 0 | None => 1 end); [|lia].
  unfold charge. destruct (decide (k = key)) as [->|].
  - rewrite lookup_insert_eq. by destruct (m !! key).
  - by rewrite lookup_insert_ne.
Qed.

(** An attempt at the limit is one of an exhausted key. *)
Lemma settled_limit now key limit a m : 0 < limit -> counting m -> settled now key a m ->
  (limit <= Failures a -> exhausted now m (key, limit)) /\
  (limit <= Failures a -> 0 < TimeSub (ResetAt a) now) /\
  (Failures a < limit -> ~ exhausted now m (key, limit)).
Proof.
  intros P C [-> L]. unfold exhausted, attemptOf. cbn [fst snd].
  destruct (m !! key) as [x|] eqn:X; cbn.
  - specialize (L x eq_refl). unfold TimeSub, minDuration, maxDuration.
    split; [eauto|]. split; [lia|]. intros F (y & [= <-] & ? & _). lia.
  - split; [lia|]. split; [lia|]. intros _ (y & Y & _). done.
Qed.

(** The last part of a reservation, when no key is exhausted. *)
Lemma admission_run charged now m n : counting m ->
  Forall (fun c => 0 < c.2 /\ settled now c.1 (attemptOf c.1 m) m /\
                   Failures (attemptOf c.1 m) < c.2) charged ->
  n = absent m charged.*1 ->
  reserves charged now m
    (let '(ok, m') := ensureAttemptCapacityLocked now n m in
     match ok with
     | inr true => ((true, 0), foldl (charge now) m' charged.*1)
     | _ => ((false, loginWindow), m')
     end).
Proof.
  intros C S ->. destruct (ensure_run now (absent m charged.*1) m) as (ok & m' & -> & E & Cap).
  assert (forall c, c ∈ charged -> m' !! c.1 = m !! c.1) as Same.
  { intros c I. rewrite Forall_forall in S. destruct (S c I) as (_ & [_ L] & _).
    destruct (E c.1) as [->|(_ & x & X & Le)]; [done|]. specialize (L x X). lia. }
  assert (absent m' charged.*1 = absent m charged.*1) as Ab.
  { unfold absent. clear S Cap E. induction charged as [|c charged IH]; [done|].
    cbn [foldr fmap list_fmap]. rewrite (Same c) by left. f_equal. apply IH.
    intros d I. apply Same. by right. }
  destruct ok.
  - apply reserves_admits; [done| |].
    + rewrite Forall_forall in S |- *. intros c I. destruct (S c I) as (_ & [_ L] & F).
      unfold attemptOf in *. rewrite (Same c I). done.
    + etrans; [apply size_charges|]. by rewrite Ab.
  - apply reserves_full; [done| |by rewrite Ab]. rewrite Forall_forall in S |- *. intros c I.
    destruct (S c I) as (P & St & F).
    apply (settled_limit now c.1 c.2 (attemptOf c.1 m) m' P); [|by apply (settled_expires _ _ _ m)|done].
    by apply (counting_expires now m).
Qed.

Lemma reserves_after charged now m m1 rm : expires now m m1 -> reserves charged now m1 rm ->
  reserves charged now m rm.
Proof.
  intros E R. destruct R as [w m' E' X B P|m' E' F|m' E' F B];
    [apply reserves_exhausted|apply reserves_full|apply reserves_admits]; try done; by etrans.
Qed.

(** The end of [reserveLoginAttempt] and of its sibling for registrations. *)
Lemma finish_run charged now m n : counting m ->
  Forall (fun c => 0 < c.2 /\ settled now c.1 (attemptOf c.1 m) m /\
                   Failures (attemptOf c.1 m) < c.2) charged ->
  n = absent m charged.*1 ->
  exists r m', (ok ← ensureAttemptCapacityLocked now n;
    if negb ok then ret (false, loginWindow)
    else chargeAttempts now charged.*1 ;; ret (true, 0)) m = (inr r, m') /\
  reserves charged now m (r, m').
Proof.
  intros C S N. pose proof (admission_run charged now m n C S N) as R.
  destruct (ensure_run now n m) as (ok & m' & E & _). rewrite E in R. rewrite (bind_run _ _ _ _ _ E).
  destruct ok; cbn [negb]; [|eauto].
  rewrite (bind_run _ _ _ _ _ (chargeAttempts_run now _ m')). unfold ret. eauto.
Qed.

(** The wait for a key, beside [acc] for the keys before it. *)
Definition waitOf (now : time) (m : Attempts) (acc : duration) (c : string * Z) : duration :=
  if c.2 <=? Failures (attemptOf c.1 m)
  then Z.max acc (TimeSub (ResetAt (attemptOf c.1 m)) now) else acc.

Lemma waits now m charged : counting m ->
  Forall (fun c => 0 < c.2 /\ settled now c.1 (attemptOf c.1 m) m) charged ->
  forall acc, let w := foldl (waitOf now m) acc charged in
  acc <= w /\
  (forall c, c ∈ charged -> c.2 <= Failures (attemptOf c.1 m) ->
     TimeSub (ResetAt (attemptOf c.1 m)) now <= w) /\
  (w = acc /\ Forall (fun c => Failures (attemptOf c.1 m) < c.2) charged \/
   0 < w /\ Exists (exhausted now m) charged).
Proof.
  intros C S. induction S as [|[key limit] charged [P St] S IH]; intros acc; cbn [foldl].
  { split; [done|]. split; [|by left]. intros c I. by apply elem_of_nil in I. }
  destruct (IH (waitOf now m acc (key, limit))) as (A & B & D). clear IH.
  destruct (settled_limit now key limit _ m P C St) as (X1 & X2 & _).
  unfold waitOf in *. cbn [fst snd] in *.
  destruct (Z.leb_spec limit (Failures (attemptOf key m))) as [L|L].
  - split; [lia|]. split.
    + intros c [->|I]%elem_of_cons F; [cbn in *; lia|by apply B].
    + right. split; [specialize (X2 L); lia|left; by apply X1].
  - split; [lia|]. split.
    + intros c [->|I]%elem_of_cons F; [cbn in *; lia|by apply B].
    + destruct D as [[-> D]|[W D]]; [left|right]; split; try done; by constructor.
Qed.

(** From the wait to the outcome. *)
Lemma reserve_run charged now m n : counting m ->
  Forall (fun c => 0 < c.2 /\ settled now c.1 (attemptOf c.1 m) m) charged ->
  n = absent m charged.*1 ->
  let w := foldl (waitOf now m) 0 charged in
  exists r m', (if 0 <? w then ret (false, w)
    else (ok ← ensureAttemptCapacityLocked now n;
      if negb ok then ret (false, loginWindow)
      else chargeAttempts now charged.*1 ;; ret (true, 0))) m = (inr r, m') /\
  reserves charged now m (r, m').
Proof.
  intros C S N w. destruct (waits now m charged C S 0) as (_ & B & D). fold w in B, D.
  destruct D as [[-> D]|[W X]].
  - apply finish_run; try done. apply Forall_and in S as [S1 S2].
    rewrite Forall_forall in S1, S2, D |- *. auto.
  - apply Z.ltb_lt in W as W'. rewrite W'. exists (false, w), m. split; [done|].
    apply reserves_exhausted; [done..| |done]. intros key limit x I K F.
    specialize (B (key, limit) I). unfold attemptOf in B. cbn in B. rewrite K in B. by apply B.
Qed.

Lemma first_wait now m c : counting m -> 0 < c.2 -> settled now c.1 (attemptOf c.1 m) m ->
  (if c.2 <=? Failures (attemptOf c.1 m)
   then TimeSub (ResetAt (attemptOf c.1 m)) now else 0) = waitOf now m 0 c.
Proof.
  intros C P St. destruct (settled_limit now c.1 c.2 _ m P C St) as (_ & X & _).
  unfold waitOf. destruct (Z.leb_spec c.2 (Failures (attemptOf c.1 m))) as [L|]; [|done].
  specialize (X L). lia.
Qed.

Ltac each_settled := repeat (apply Forall_cons_2; [split; [done|assumption]|]); apply Forall_nil_2.

Lemma reserveLoginAttempt_run u i a now m : counting m -> exists r m',
  reserveLoginAttempt u i a now m = (inr r, m') /\
  reserves [(u, loginFailureLimit); (i, loginIPFailureLimit); (a, loginUserFailureLimit)] now m
    (r, m').
Proof.
  intros C. unfold reserveLoginAttempt. set (charged := [(_, _); (_, _); (_, _)]).
  destruct (current_run u now m C) as (x1 & m1 & R1 & E1 & S1).
  pose proof (counting_expires _ _ _ C E1) as C1.
  destruct (current_run i now m1 C1) as (x2 & m2 & R2 & E2 & S2).
  pose proof (counting_expires _ _ _ C1 E2) as C2.
  destruct (current_run a now m2 C2) as (x3 & m3 & R3 & E3 & S3).
  pose proof (counting_expires _ _ _ C2 E3) as C3.
  rewrite (bind_run _ _ _ _ _ R1), (bind_run _ _ _ _ _ R2), (bind_run _ _ _ _ _ R3).
  apply (settled_expires _ _ _ _ m3) in S1; [|by etrans].
  apply (settled_expires _ _ _ _ m3) in S2; [|done].
  pose proof S1 as [-> _]. pose proof S2 as [-> _]. pose proof S3 as [-> _].
  destruct (reserve_run charged now m3 (absent m3 charged.*1) C3) as (r & m' & Run & R);
    [each_settled|done|].
  exists r, m'. split; [|apply (reserves_after _ _ _ m3); [|done]; etrans; [|done]; by etrans].
  cbv zeta. match goal with |- context [0 <? ?w] =>
    assert (w = foldl (waitOf now m3) 0 charged) as -> end.
  { unfold charged. cbn [foldl]. rewrite <- first_wait by done. by unfold waitOf. }
  rewrite <- Run. destruct (0 <? _); [done|].
  rewrite !(bind_run _ _ _ _ _ (newKey_run _ _)). unfold absent, charged. cbn [foldr fmap list_fmap fst].
  by rewrite Z.add_0_r, Z.add_assoc.
Qed.

Lemma reserveRegistrationAttempt_run i now m : counting m -> exists r m',
  reserveRegistrationAttempt i now m = (inr r, m') /\
  reserves [(i, registrationIPLimit); (registrationGlobalAttemptKey, registrationGlobalLimit)]
    now m (r, m').
Proof.
  intros C. unfold reserveRegistrationAttempt. set (charged := [(_, _); (_, _)]).
  destruct (current_run i now m C) as (x1 & m1 & R1 & E1 & S1).
  pose proof (counting_expires _ _ _ C E1) as C1.
  destruct (current_run registrationGlobalAttemptKey now m1 C1) as (x2 & m2 & R2 & E2 & S2).
  pose proof (counting_expires _ _ _ C1 E2) as C2.
  rewrite (bind_run _ _ _ _ _ R1), (bind_run _ _ _ _ _ R2).
  apply (settled_expires _ _ _ _ m2) in S1; [|done].
  pose proof S1 as [-> _]. pose proof S2 as [-> _].
  destruct (reserve_run charged now m2 (absent m2 charged.*1) C2) as (r & m' & Run & R);
    [each_settled|done|].
  exists r, m'. split; [|apply (reserves_after _ _ _ m2); [|done]; by etrans].
  cbv zeta. match goal with |- context [0 <? ?w] =>
    assert (w = foldl (waitOf now m2) 0 charged) as -> end.
  { unfold charged. cbn [foldl]. rewrite <- first_wait by done. by unfold waitOf. }
  rewrite <- Run. destruct (0 <? _); [done|].
  rewrite !(bind_run _ _ _ _ _ (newKey_run _ _)). unfold absent, charged. cbn [foldr fmap list_fmap fst].
  by rewrite Z.add_0_r.
Qed.

Lemma reserveSingleAttempt_run key now limit m : counting m -> 0 < limit -> exists r m',
  reserveSingleAttempt key now limit m = (inr r, m') /\ reserves [(key, limit)] now m (r, m').
Proof.
  intros C P. unfold reserveSingleAttempt. set (charged := [(_, _)]).
  destruct (current_run key now m C) as (x1 & m1 & R1 & E1 & S1).
  pose proof (counting_expires _ _ _ C E1) as C1.
  rewrite (bind_run _ _ _ _ _ R1). pose proof S1 as [-> _].
  destruct (reserve_run charged now m1 (absent m1 charged.*1) C1) as (r & m' & Run & R);
    [each_settled|done|].
  exists r, m'. split; [|by apply (reserves_after _ _ _ m1)].
  rewrite <- Run. unfold charged. cbn [foldl]. rewrite <- first_wait by done. cbn [fst snd].
  destruct (settled_limit now key limit _ m1 P C1 S1) as (_ & W & _).
  destruct (Z.leb_spec limit (Failures (attemptOf key m1))) as [L|L].
  { specialize (W L). apply Z.ltb_lt in W. by rewrite W. }
  assert ((if IsZero (ResetAt (attemptOf key m1)) then 1 else 0) = absent m1 charged.*1) as ->.
  { unfold charged, absent, attemptOf, IsZero. cbn. destruct (m1 !! key) as [x|] eqn:X; [|done]. cbn.
    destruct (C1 key x X). by destruct (Z.eqb_spec (ResetAt x) 0); [lia|]. }
  cbn [Z.ltb Z.compare]. destruct (ensure_run now (absent m1 charged.*1) m1) as (ok & m2 & E & E2 & _).
  rewrite !(bind_run _ _ _ _ _ E). destruct ok; [|done]. cbn [negb].
  destruct (settled_expires _ _ _ _ _ S1 E2) as [-> _]. done.
Qed.

(** * Sequences of calls *)

Inductive attemptCall : Type :=
  | CallLogin (userKey ipKey accountKey : string)
  | CallRegistration (ipKey : string)
  | CallSingle (key : string) (limit : Z)
  | CallRelease (keys : list string).

(** The keys a call wants to count an attempt under, and their limits. *)
Definition charges (c : attemptCall) : list (string * Z) :=
  match c with
  | CallLogin u i a =>
      [(u, loginFailureLimit); (i, loginIPFailureLimit); (a, loginUserFailureLimit)]
  | CallRegistration i =>
      [(i, registrationIPLimit); (registrationGlobalAttemptKey, registrationGlobalLimit)]
  | CallSingle key limit => [(key, limit)]
  | CallRelease _ => []
  end.

Definition reservation (now : time) (c : attemptCall) : M Attempts (bool * duration) :=
  match c with
  | CallLogin u i a => reserveLoginAttempt u i a now
  | CallRegistration i => reserveRegistrationAttempt i now
  | CallSingle key limit => reserveSingleAttempt key now limit
  | CallRelease keys => releaseLoginReservation keys ;; ret (false, 0)
  end.

Definition admits (now : time) (c : attemptCall) (m : Attempts) : bool :=
  match reservation now c m with (inr (ok, _), _) => ok | _ => false end.

Definition runAttempts (es : list (time * attemptCall)) (m : Attempts) : Attempts :=
  foldl (fun m e => final (reservation e.1 e.2) m) m es.

Definition occurrences (k : string) (keys : list string) : Z :=
  llen (filter (fun key => key = k) keys).

(** The attempts under [k] that the calls admit, less those they take back. *)
Fixpoint tally (k : string) (m : Attempts) (es : list (time * attemptCall)) : Z :=
  match es with
  | [] => 0
  | (now, c) :: rest =>
      (if admits now c m then occurrences k (charges c).*1 else 0)
      - match c with CallRelease keys => occurrences k keys | _ => 0 end
      + tally k (final (reservation now c) m) rest
  end.

(** Calls as the handlers make them: different keys and positive limits, which for
    [k] are at most [L]. *)
Definition orderly (e : time * attemptCall) : Prop :=
  0 <= e.1 /\ NoDup (charges e.2).*1 /\ Forall (fun c => 0 < c.2) (charges e.2).
Definition limited (k : string) (L : Z) (e : time * attemptCall) : Prop :=
  Forall (fun c => c.1 = k -> c.2 <= L) (charges e.2).

Lemma occurrences_cons k key keys :
  occurrences k (key :: keys) = (if decide (key = k) then 1 else 0) + occurrences k keys.
Proof. unfold occurrences, llen. rewrite filter_cons. destruct (decide (key = k)); cbn [length]; lia. Qed.

Lemma occurrences_nil k : occurrences k [] = 0.
Proof. done. Qed.

Lemma occurrences_NoDup k keys : NoDup keys ->
  occurrences k keys = if decide (k ∈ keys) then 1 else 0.
Proof.
  induction 1 as [|key keys N _ IH]; [done|]. rewrite occurrences_cons, IH.
  destruct (decide (key = k)) as [->|]; repeat case_decide; set_solver.
Qed.

(** ** One call *)

Lemma reservation_run now c m : counting m -> orderly (now, c) ->
  match c with CallRelease _ => False | _ => True end ->
  exists r m', reservation now c m = (inr r, m') /\ reserves (charges c) now m (r, m').
Proof.
  intros C (_ & _ & P) N. destruct c; cbn in *; [by apply reserveLoginAttempt_run|
    by apply reserveRegistrationAttempt_run| |done].
  inversion_clear P. by apply reserveSingleAttempt_run.
Qed.

Definition failuresOf (k : string) (m : Attempts) : Z := Failures (attemptOf k m).

(** What a release does. *)
Record released (keys : list string) (m m' : Attempts) : Prop := mkReleased
  { released_counting : counting m -> counting m';
    released_size : (size m' <= size m)%nat;
    released_resets k : forall x, m' !! k = Some x -> exists y, m !! k = Some y /\
      ResetAt x = ResetAt y;
    released_failures k : counting m ->
      failuresOf k m - occurrences k keys <= failuresOf k m' <= failuresOf k m }.

Lemma releaseAttempt_run key m : exists m', releaseAttempt key m = (inr tt, m') /\
  released [key] m m'.
Proof.
  unfold releaseAttempt, mbind, M_bind, bind, get, modify, ret.
  destruct (m !! key) as [x|] eqn:X; [destruct (Z.leb_spec (Failures x - 1) 0)|];
    (eexists; split; [reflexivity|]); split.
  - intros C k y. rewrite lookup_delete_Some. intros [_ Y]. by apply (C k).
  - rewrite map_size_delete_Some by eauto. lia.
  - intros k y. rewrite lookup_delete_Some. intros [_ Y]. eauto.
  - intros k C. rewrite occurrences_cons, occurrences_nil. unfold failuresOf, attemptOf.
    destruct (decide (key = k)) as [->|]; cbn.
    + rewrite lookup_delete_eq, X. cbn. destruct (C k x X). lia.
    + rewrite lookup_delete_ne by done. lia.
  - intros C k y. rewrite lookup_insert_Some. intros [[-> <-]|[_ Y]]; [|by apply (C k)].
    cbn. destruct (C k x X). lia.
  - by rewrite map_size_insert_Some.
  - intros k y. rewrite lookup_insert_Some. intros [[-> <-]|[_ Y]]; [|eauto]. exists x. by split.
  - intros k C. rewrite occurrences_cons, occurrences_nil. unfold failuresOf, attemptOf.
    destruct (decide (key = k)) as [->|]; cbn.
    + rewrite lookup_insert_eq, X. cbn. lia.
    + rewrite lookup_insert_ne by done. lia.
  - done.
  - done.
  - eauto.
  - intros k _. rewrite occurrences_cons, occurrences_nil. case_decide; lia.
Qed.

Lemma releaseLoginReservation_run keys m : exists m',
  releaseLoginReservation keys m = (inr tt, m') /\ released keys m m'.
Proof.
  revert m. induction keys as [|key keys IH]; intros m; cbn [releaseLoginReservation].
  - exists m. split; [done|]. split; [done|done|eauto|].
    intros k _. rewrite occurrences_nil. lia.
  - destruct (releaseAttempt_run key m) as (m1 & R1 & D1). destruct (IH m1) as (m2 & R2 & D2).
    exists m2. rewrite (bind_run _ _ _ _ _ R1). split; [done|].
    destruct D1 as [C1 S1 T1 F1], D2 as [C2 S2 T2 F2]. split; [auto|lia| |].
    + intros k x X. destruct (T2 k x X) as (y & Y & ->). destruct (T1 k y Y) as (z & Z & ->). eauto.
    + intros k C. specialize (F1 k C). specialize (F2 k (C1 C)).
      rewrite occurrences_cons in F1 |- *. rewrite occurrences_nil in F1. lia.
Qed.

(** Counting an attempt. *)
Lemma charge_counting now keys m : 0 <= now -> counting m -> counting (foldl (charge now) m keys).
Proof.
  intros N. revert m. induction keys as [|key keys IH]; intros m C; [done|]. apply IH.
  intros k x. unfold charge. rewrite lookup_insert_Some. intros [[-> <-]|[_ X]]; [|by apply (C k)].
  cbn. unfold attemptOf, IsZero, TimeAdd, loginWindow, Minute, Second.
  destruct (m !! k) as [y|] eqn:Y; cbn; [|lia]. destruct (C k y Y).
  destruct (Z.eqb_spec (ResetAt y) 0); lia.
Qed.

Lemma failuresOf_charge now k m keys : NoDup keys -> k ∈ keys ->
  failuresOf k (foldl (charge now) m keys) = failuresOf k m + 1.
Proof.
  intros N I. unfold failuresOf. unfold attemptOf at 1. rewrite charge_key by done.
  unfold charge. by rewrite lookup_insert_eq.
Qed.

Lemma failuresOf_expires now k m m' : counting m -> expires now m m' ->
  failuresOf k m' = failuresOf k m \/
  (failuresOf k m' = 0 /\ m' !! k = None /\ exists x, m !! k = Some x /\ ResetAt x <= now).
Proof.
  intros C E. unfold failuresOf, attemptOf. destruct (E k) as [->|(-> & X)]; [by left|by right].
Qed.

(** The attempts of [k] admitted since [t] are in its counter, or some of them in
    one whose window has ended, and the window that now runs outlasts the minute. *)
Record accounted (k : string) (L t : Z) (m : Attempts) (A : Z) : Prop := mkAccounted
  { accounted_counting : counting m;
    accounted_bound : 0 <= failuresOf k m <= L;
    accounted_tally : A <= failuresOf k m \/
      A <= L + failuresOf k m /\ forall x, m !! k = Some x -> t + loginWindow <= ResetAt x }.

Lemma failuresOf_nonneg k m : counting m -> 0 <= failuresOf k m.
Proof.
  intros C. unfold failuresOf, attemptOf. destruct (m !! k) as [x|] eqn:X; [|done].
  destruct (C k x X). cbn. lia.
Qed.

Lemma accounted_expires k L t now m m' A : now < t + loginWindow -> expires now m m' ->
  accounted k L t m A -> accounted k L t m' A.
Proof.
  intros N E [C B T]. pose proof (counting_expires _ _ _ C E) as C'. split; [done| |].
  - destruct (failuresOf_expires _ k _ _ C E) as [->|[-> _]]; lia.
  - destruct (E k) as [Eq|(Eq & x & X & Le)].
    + unfold failuresOf, attemptOf. by rewrite Eq.
    + right. assert (failuresOf k m' = 0) as -> by (unfold failuresOf, attemptOf; by rewrite Eq).
      split; [|intros y Y; congruence]. destruct T as [T|[T R]]; [lia|]. specialize (R x X). lia.
Qed.

Lemma accounted_call k L t now c m A :
  orderly (now, c) -> limited k L (now, c) -> t <= now < t + loginWindow ->
  accounted k L t m A ->
  accounted k L t (final (reservation now c) m)
    (A + (if admits now c m then occurrences k (charges c).*1 else 0)
       - match c with CallRelease keys => occurrences k keys | _ => 0 end).
Proof.
  intros O Lm N Acc. unfold admits, final.
  destruct (match c with CallRelease keys => Some keys | _ => None end) as [keys|] eqn:Ec.
  - destruct c; try done. injection Ec as ->. cbn [reservation].
    destruct (releaseLoginReservation_run keys m) as (m' & R & [C' _ T F]).
    rewrite (bind_run _ _ _ _ _ R). cbn. destruct Acc as [C B Ta]. specialize (F k C).
    pose proof (failuresOf_nonneg k m' (C' C)). split; [auto|lia|].
    destruct Ta as [Ta|[Ta X]]; [left; lia|right]. split; [lia|].
    intros x Hx. destruct (T k x Hx) as (y & Y & ->). by apply X.
  - destruct (reservation_run now c m) as (r & m' & -> & R); [apply Acc|done|by destruct c|]. cbn.
    assert (match c with CallRelease keys => occurrences k keys | _ => 0 end = 0) as -> by by destruct c.
    rewrite Z.sub_0_r. inversion R as [w m1 E X W P|m1 E X Full|m1 E X Sz]; subst; rewrite ?Z.add_0_r;
      try (eapply accounted_expires; [|exact E|done]; lia).
    apply (accounted_expires _ _ _ now _ m1) in Acc; [|lia|done]. destruct O as (Now & Nd & _).
    rewrite occurrences_NoDup by done. destruct Acc as [C B T]. cbn [fst snd] in *.
    case_decide as I.
    + apply list_elem_of_fmap in I as ([key limit] & -> & I). cbn [fst] in *.
      assert (limit <= L) as Le.
      { unfold limited in Lm. rewrite Forall_forall in Lm. by apply (Lm (key, limit)). }
      rewrite Forall_forall in X. destruct (X _ I) as [Lt Live]. cbn [fst snd] in *.
      assert (key ∈ (charges c).*1) as I1 by (apply list_elem_of_fmap; by exists (key, limit)).
      split; [by apply charge_counting| |]; rewrite failuresOf_charge by done.
      * unfold failuresOf in *. lia.
      * destruct T as [T|[T Out]]; [left; lia|right; split; [lia|]].
        intros x. rewrite charge_key by done. unfold charge. rewrite lookup_insert_eq.
        intros [= <-]. cbn. unfold attemptOf, IsZero, TimeAdd.
        destruct (m1 !! key) as [y|] eqn:Y; cbn; [|lia]. destruct (C key y Y) as [_ Py].
        destruct (Z.eqb_spec (ResetAt y) 0); [lia|by apply Out].
    + rewrite Z.add_0_r. assert (foldl (charge now) m1 (charges c).*1 !! k = m1 !! k) as Eq
        by by apply charge_others.
      split; [by apply charge_counting| |]; unfold failuresOf, attemptOf; by rewrite Eq.
Qed.

Lemma reservation_counting now c m : orderly (now, c) -> counting m ->
  (size m <= Z.to_nat maxLoginAttemptKeys)%nat ->
  counting (final (reservation now c) m) /\
  (size (final (reservation now c) m) <= Z.to_nat maxLoginAttemptKeys)%nat.
Proof.
  intros O C Sz. unfold final.
  assert (forall m', expires now m m' -> (size m' <= size m)%nat) as Less.
  { intros m' E. apply map_subseteq_size, map_subseteq_spec. intros key x X.
    destruct (E key) as [<-|[N _]]; [done|congruence]. }
  destruct (match c with CallRelease keys => Some keys | _ => None end) as [keys|] eqn:Ec.
  - destruct c; try done. injection Ec as ->. cbn [reservation].
    destruct (releaseLoginReservation_run keys m) as (m' & R & [C' S' _ _]).
    rewrite (bind_run _ _ _ _ _ R). cbn. split; [auto|lia].
  - destruct (reservation_run now c m) as (r & m' & -> & R); [done|done|by destruct c|]. cbn.
    inversion R as [w m1 E X W P|m1 E X Full|m1 E X Size]; subst; specialize (Less _ E);
      (split; [|try lia; apply Nat2Z.inj_le; by rewrite Z2Nat.id]);
      try by eapply counting_expires.
    apply charge_counting; [apply O|by eapply counting_expires].
Qed.

Lemma runAttempts_counting es m : Forall orderly es -> counting m ->
  (size m <= Z.to_nat maxLoginAttemptKeys)%nat ->
  counting (runAttempts es m) /\ (size (runAttempts es m) <= Z.to_nat maxLoginAttemptKeys)%nat.
Proof.
  intros O. revert m. induction O as [|[now c] es O _ IH]; intros m C S; [done|].
  cbn. destruct (reservation_counting now c m O C S). by apply IH.
Qed.

Lemma accounted_run k L t es m A : Forall orderly es -> Forall (limited k L) es ->
  Forall (fun e => t <= e.1 < t + loginWindow) es -> accounted k L t m A ->
  accounted k L t (runAttempts es m) (A + tally k m es).
Proof.
  intros O Lm W. revert m A. induction es as [|[now c] es IH]; intros m A Acc.
  - by rewrite Z.add_0_r.
  - inversion_clear O; inversion_clear Lm; inversion_clear W.
    pose proof (accounted_call k L t now c m A) as S. cbn [runAttempts foldl tally fst snd].
    rewrite !Z.add_assoc, Z.add_sub_assoc. apply IH; [done..|]. by apply S.
Qed.

Lemma runAttempts_bounded k L es m : 0 <= L -> Forall orderly es -> Forall (limited k L) es ->
  counting m -> failuresOf k m <= L ->
  failuresOf k (runAttempts es m) <= L.
Proof.
  intros N O Lm. revert m. induction es as [|[now c] es IH]; intros m C B; [done|].
  inversion_clear O; inversion_clear Lm. cbn.
  destruct (accounted_call k L now now c m 0) as [C' B' _]; try done.
  - unfold loginWindow, Minute, Second. lia.
  - pose proof (failuresOf_nonneg k m C). split; [done|done|by left].
  - apply IH; [done..|]. lia.
Qed.

(** C21. No key sees more than twice its limit in a minute.  After any calls, take
    any calls within a minute: the attempts admitted under a key, less those that
    were taken back as successful or not made, are at most twice the largest limit
    the key is counted against: 10 for a user from one address, 20 for a user from
    anywhere, 100 for an address; and the map of counters never has more than 4096
    keys. *)
Theorem attempts_limited k L t before es :
  0 <= L -> Forall orderly (before ++ es) -> Forall (limited k L) (before ++ es) ->
  Forall (fun e => t <= e.1 < t + loginWindow) es ->
  tally k (runAttempts before ∅) es <= 2 * L /\
  Z.of_nat (size (runAttempts (before ++ es) ∅)) <= maxLoginAttemptKeys.
Proof.
  intros N O Lm W. assert (counting ∅) as C0 by (intros key x; by rewrite lookup_empty).
  split.
  - apply Forall_app in O as [O1 O2], Lm as [L1 L2].
    destruct (runAttempts_counting before ∅ O1 C0) as [C _]; [rewrite map_size_empty; lia|].
    pose proof (runAttempts_bounded k L before ∅ N O1 L1 C0 N) as B.
    pose proof (failuresOf_nonneg k _ C).
    destruct (accounted_run k L t es (runAttempts before ∅) 0 O2 L2 W) as [_ B' T]; [|lia].
    by split; [|lia|left].
  - destruct (runAttempts_counting _ ∅ O C0) as [_ S]; [rewrite map_size_empty; lia|].
    apply Nat2Z.inj_le in S. by rewrite Z2Nat.id in S.
Qed.

(** Five attempts to change a password, one of them early in the window and four
    late, and five more when it is over. *)
Definition sample_attempts : list (time * attemptCall) := [(10 * Second, CallSingle "password" 5)].
Definition sample_minute : list (time * attemptCall) :=
  map (fun s => (s * Second, CallSingle "password" 5)) [69; 69; 69; 69; 69; 70; 70; 70; 70; 70; 71].

Lemma attempts_limited_witness :
  tally "password" (runAttempts sample_attempts ∅) sample_minute = 9 /\
  tally "password" (runAttempts sample_attempts ∅) sample_minute <= 2 * 5 /\
  Z.of_nat (size (runAttempts (sample_attempts ++ sample_minute) ∅)) <= maxLoginAttemptKeys.
Proof.
  split; [vm_compute; reflexivity|].
  apply (attempts_limited "password" 5 (69 * Second)); [done| | |].
  - repeat (apply Forall_cons_2;
      [split; [cbn; unfold Second; lia|split; [apply NoDup_singleton|by apply Forall_singleton]]|]).
    apply Forall_nil_2.
  - repeat (apply Forall_cons_2; [by apply Forall_singleton|]). apply Forall_nil_2.
  - repeat (apply Forall_cons_2; [cbn; unfold loginWindow, Minute, Second; lia|]). apply Forall_nil_2.
Defined.

(** * Being refused *)

(** A lockout ends.  An attempt that is refused with a time to wait, made again
    after that time with no other attempt in between, is admitted, unless the map
    is then full of keys whose windows still run.  And a refusal always has its
    reason: some key is exhausted, or the map is full. *)
Theorem lockout_ends now c m wait m' : counting m -> orderly (now, c) ->
  (forall key x, m !! key = Some x -> ResetAt x <= now + loginWindow) ->
  reservation now c m = (inr (false, wait), m') -> charges c <> [] ->
  (Exists (exhausted now m') (charges c) \/
   wait = loginWindow /\
   maxLoginAttemptKeys < Z.of_nat (size m') + absent m' (charges c).*1) /\
  forall later, now + wait <= later ->
    exists r m'', reservation later c m' = (inr r, m'') /\
      (r = (true, 0) \/
       r = (false, loginWindow) /\
       maxLoginAttemptKeys < Z.of_nat (size m'') + absent m'' (charges c).*1).
Proof.
  intros C O Clock E Ne.
  assert (match c with CallRelease _ => False | _ => True end) as Nr by by destruct c.
  destruct (reservation_run now c m C O Nr) as (r & m1 & E' & R).
  rewrite E in E'. injection E' as <- <-.
  assert (expires now m m' /\ 0 < wait /\
    (forall key limit x, (key, limit) ∈ charges c -> m' !! key = Some x -> limit <= Failures x ->
       ResetAt x <= now + wait) /\
    (Exists (exhausted now m') (charges c) \/ wait = loginWindow /\
     maxLoginAttemptKeys < Z.of_nat (size m') + absent m' (charges c).*1)) as (Ex & Pos & Wait & Why).
  { assert (forall key x, expires now m m' -> m' !! key = Some x -> ResetAt x <= now + loginWindow) as Cl.
    { intros key x Ex X. apply (Clock key). destruct (Ex key) as [<-|[? _]]; [done|congruence]. }
    inversion R as [w m2 Ex X W P|m2 Ex X Full|]; subst.
    - split; [done|]. split; [done|]. split; [|by left]. intros key limit x I K F.
      specialize (W key limit x I K F). specialize (Cl key x Ex K).
      unfold TimeSub, minDuration, maxDuration, loginWindow, Minute, Second in *. lia.
    - split; [done|]. split; [done|]. split; [|by right]. intros; by eapply Cl. }
  split; [done|]. intros later Later. pose proof (counting_expires _ _ _ C Ex) as C'.
  destruct (reservation_run later c m' C') as (r & m2 & -> & R2); [|done|].
  { destruct O as (O1 & O2). split; [cbn in *; lia|done]. }
  exists r, m2. split; [done|]. inversion R2 as [w m3 Ex3 X W P|m3 Ex3 X Full|m3 Ex3 X Sz]; subst.
  - apply Exists_exists in X as ([key limit] & I & x & K & F & L). cbn [fst snd] in *.
    assert (m' !! key = Some x) as K' by (destruct (Ex3 key) as [<-|[? _]]; [done|congruence]).
    specialize (Wait key limit x I K' F). lia.
  - by right.
  - by left.
Qed.

Lemma lockout_ends_witness :
  let m := runAttempts (sample_attempts ++ take 4 sample_minute) ∅ in
  let again := CallSingle "password" 5 in
  reservation (69 * Second) again m = (inr (false, 1 * Second), m) /\
  (Exists (exhausted (69 * Second) m) (charges again) \/
   1 * Second = loginWindow /\
   maxLoginAttemptKeys < Z.of_nat (size m) + absent m (charges again).*1) /\
  forall later, 69 * Second + 1 * Second <= later ->
    exists r m'', reservation later again m = (inr r, m'') /\
      (r = (true, 0) \/
       r = (false, loginWindow) /\
       maxLoginAttemptKeys < Z.of_nat (size m'') + absent m'' (charges again).*1).
Proof.
  assert (forall key x, runAttempts (sample_attempts ++ take 4 sample_minute) ∅ !! key = Some x ->
    x = mkLoginAttempt 5 (70 * Second)) as Only.
  { intros key x. change (runAttempts _ _) with
      (<["password" := mkLoginAttempt 5 (70 * Second)]> (∅ : Attempts)).
    rewrite lookup_insert_Some. intros [[_ <-]|[_ E]]; [done|by rewrite lookup_empty in E]. }
  split; [vm_compute; reflexivity|].
  apply (lockout_ends (69 * Second) (CallSingle "password" 5)
    (runAttempts (sample_attempts ++ take 4 sample_minute) ∅)).
  - by intros key x ->%Only.
  - split; [done|split; [apply NoDup_singleton|by apply Forall_singleton]].
  - by intros key x ->%Only.
  - vm_compute. reflexivity.
  - done.
Defined.
