(* ===== verification/WebFiles.v ===== *)
(** internal/web/secret.go and the file functions of internal/web/users.go: private
    files read with their checks and replaced atomically, and the keys kept in them.

    The host is an oracle: [h_os n] says whether the [n]-th system call fails.  A
    file is what [fstat] and [read] report of it; temporary files are seen by
    nobody.  Reading crypto/rand does not fail. *)

From S2P Require Export MonadLogic GoTime Crypto StringFacts.

Record HostFile : Type := mkHostFile { hf_regular : bool; hf_perm : Z; hf_data : string }.

Record Host : Type := mkHost
  { h_files : gmap string HostFile;
    h_os : nat -> option error; h_calls : nat;
    h_clock : nat -> time; h_ticks : nat;
    h_rand : nat -> Z; h_drawn : nat }.

Definition h_set_files (x : gmap string HostFile) (h : Host) : Host :=
  mkHost x (h_os h) (h_calls h) (h_clock h) (h_ticks h) (h_rand h) (h_drawn h).
Definition h_set_calls (n : nat) (h : Host) : Host :=
  mkHost (h_files h) (h_os h) n (h_clock h) (h_ticks h) (h_rand h) (h_drawn h).
Definition h_set_ticks (n : nat) (h : Host) : Host :=
  mkHost (h_files h) (h_os h) (h_calls h) (h_clock h) n (h_rand h) (h_drawn h).
Definition h_set_drawn (n : nat) (h : Host) : Host :=
  mkHost (h_files h) (h_os h) (h_calls h) (h_clock h) (h_ticks h) (h_rand h) n.

(** One system call that has no result beside its success. *)
Definition hostcall : M Host unit := fun h =>
  let h' := h_set_calls (S (h_calls h)) h in
  match h_os h (h_calls h) with
  | Some e => (inl e, h')
  | None => (inr tt, h')
  end.

(** [time.Now()], and the next [n] bytes of crypto/rand. *)
Definition time_Now : M Host time := fun h =>
  (inr (h_clock h (h_ticks h)), h_set_ticks (S (h_ticks h)) h).
Definition rand_Read (n : nat) : M Host (list Z) := fun h =>
  (inr (map (fun i => h_rand h (h_drawn h + i)%nat mod 256) (seq 0 n)),
   h_set_drawn (h_drawn h + n) h).

(** * Private files *)

(** [syscall.Open] with its error wrapped in an [os.PathError]. *)
Definition openFile (path : string) : M Host HostFile :=
  r ← try (hostcall ;;
    h ← get;
    match h_files h !! path with Some f => ret f | None => throw ErrNotExist end);
  match r with
  | inr f => ret f
  | inl err => throw (Errorf "open %s: %w" [AStr path; AErr err])
  end.

Definition readPrivateFile (path description : string) (limit : Z) : M Host string :=
  f ← openFile path;
  r ← try (
    hostcall ;;                                  (* file.Stat *)
    fail_if (negb (hf_regular f)) (Errorf "%s must be a regular file" [AStr description]) ;;
    fail_if (negb (Z.land (hf_perm f) 63 =? 0))
      (Errorf "%s permissions must not allow group or other access" [AStr description]) ;;
    hostcall ;;                                  (* io.ReadAll, one byte too many at most *)
    fail_if (limit <? slen (hf_data f))
      (Errorf "%s exceeds %d bytes" [AStr description; AInt limit]) ;;
    ret (hf_data f)) ;
  try hostcall ;;                                (* deferred Close *)
  fromResult r.

(** A step on the temporary file, which is closed when it fails. *)
Definition orClose : M Host unit :=
  r ← try hostcall;
  match r with
  | inl err => try hostcall ;; throw err
  | inr _ => ret tt
  end.

Definition writeTemp : M Host unit :=
  orClose ;; orClose ;; orClose ;; hostcall.     (* Chmod, Write, Sync, Close *)

(** [writePrivateFile]: the boolean says whether the rename took place. *)
Definition writePrivateFile (path data : string) : M Host (bool * option error) :=
  t ← try (hostcall ;; hostcall) ;               (* os.MkdirAll, os.CreateTemp *)
  match t with
  | inl err => ret (false, Some err)
  | inr _ =>
      r ← try (writeTemp ;; hostcall) ;          (* os.Rename *)
      match r with
      | inl err => try hostcall ;; ret (false, Some err)         (* deferred os.Remove *)
      | inr _ =>
          modify (fun h => h_set_files (<[path := mkHostFile true 384 data]> (h_files h)) h) ;;
          d ← try hostcall;                      (* os.Open of the directory *)
          match d with
          | inl err => try hostcall ;; ret (true, Some err)
          | inr _ =>
              s ← try hostcall;                  (* directory.Sync *)
              try hostcall ;; try hostcall ;;    (* deferred Close, os.Remove *)
              ret (true, match s with
                         | inl err => if errors_Is err errInvalid then None else Some err
                         | inr _ => None
                         end)
          end
      end
  end.

(** * secret.go *)

Definition sessionKeyBytes : Z := 32.

Definition randomSessionKey : M Host (list Z) := rand_Read (Z.to_nat sessionKeyBytes).

Definition readSessionKey (path : string) : M Host (list Z) :=
  data ← readPrivateFile path "web session key" (sessionKeyBytes * 2 + 1);
  let malformed := Errorf
    "web session key must contain exactly %d random bytes encoded as hex" [AInt sessionKeyBytes] in
  match HexDecode (TrimSpace data) with
  | Some key => if negb (llen key =? sessionKeyBytes) then throw malformed else ret key
  | None => throw malformed
  end.

(** [os.Link] of the temporary file, which fails when the path exists. *)
Definition linkFile (path data : string) : M Host unit :=
  hostcall ;;
  h ← get;
  match h_files h !! path with
  | Some _ => throw ErrExist
  | None => modify (fun h => h_set_files (<[path := mkHostFile true 384 data]> (h_files h)) h)
  end.

(** What follows [os.CreateTemp], up to the deferred calls. *)
Definition installSessionKey (path : string) (key : list Z) : M Host (list Z) :=
  hostcall ;; hostcall ;; hostcall ;; hostcall ;;      (* Chmod, Fprintf, Sync, Close *)
  l ← try (linkFile path (HexEncode key +:+ newline));
  match l with
  | inl err => if errors_Is err errExist then readSessionKey path else throw err
  | inr _ =>
      hostcall ;;                                (* os.Open of the directory *)
      s ← try hostcall;                          (* directory.Sync *)
      match s with
      | inl err => try hostcall ;; throw err
      | inr _ => hostcall ;; ret key             (* directory.Close *)
      end
  end.

Definition loadOrCreateSessionKey (path : string) : M Host (list Z) :=
  if TrimSpace path =s "" then randomSessionKey
  else
    r ← try (readSessionKey path);
    match r with
    | inr key => ret key
    | inl err =>
        if negb (errors_Is err errNotExist) then throw err
        else
          hostcall ;;                            (* os.MkdirAll *)
          key ← randomSessionKey;
          hostcall ;;                            (* os.CreateTemp *)
          r ← try (installSessionKey path key);
          try hostcall ;; try hostcall ;;        (* deferred Close, os.Remove *)
          fromResult r
    end.

(** * Rules for the host *)

(** Operations that leave the files alone; the clock, the oracle and the random
    source are fixed. *)
Definition sameFiles (h h' : Host) : Prop :=
  h_files h' = h_files h /\ h_os h' = h_os h /\ h_clock h' = h_clock h /\ h_rand h' = h_rand h.

Lemma sameFiles_refl h : sameFiles h h.
Proof. done. Qed.
Lemma sameFiles_trans h1 h2 h3 : sameFiles h1 h2 -> sameFiles h2 h3 -> sameFiles h1 h3.
Proof. intros (A & B & C & D) (E & F & G & I). by split; [congruence|split; [congruence|split; congruence]]. Qed.

Definition steady {A} (m : M Host A) : Prop := forall h, sameFiles h (final m h).

Section steady.
Lemma steady_bind {A B} (m : M Host A) (k : A -> M Host B) :
  steady m -> (forall a, steady (k a)) -> steady (m ≫= k).
Proof.
  intros Hm Hk h. specialize (Hm h). unfold final, mbind, M_bind, bind in *.
  destruct (m h) as [[e|a] h1]; [done|]. specialize (Hk a h1). unfold final in Hk.
  by apply (sameFiles_trans h h1).
Qed.
Lemma steady_try {A} (m : M Host A) : steady m -> steady (try m).
Proof. intros Hm h. specialize (Hm h). unfold final, try in *. by destruct (m h). Qed.
Lemma steady_ret {A} (a : A) : steady (ret a).
Proof. done. Qed.
Lemma steady_throw {A} e : steady (A := A) (throw e).
Proof. done. Qed.
Lemma steady_get : steady get.
Proof. done. Qed.
Lemma steady_fail_if b e : steady (fail_if b e).
Proof. by destruct b. Qed.
Lemma steady_fromResult {A} (r : error + A) : steady (fromResult r).
Proof. by destruct r. Qed.
Lemma steady_hostcall : steady hostcall.
Proof. intros h. unfold final, hostcall. by destruct (h_os h (h_calls h)). Qed.
Lemma steady_time_Now : steady time_Now.
Proof. done. Qed.
Lemma steady_rand_Read n : steady (rand_Read n).
Proof. done. Qed.
End steady.

Create HintDb steady.
#[export] Hint Resolve steady_ret steady_throw steady_get steady_fail_if steady_fromResult
  steady_hostcall steady_time_Now steady_rand_Read : steady.

Ltac solve_steady :=
  repeat (intros; cbv zeta;
    lazymatch goal with
    | |- steady (match ?x with _ => _ end) => destruct x
    | |- steady (try _) => apply steady_try
    | |- steady _ => first [solve [auto with steady] | apply steady_bind]
    end).

Lemma steady_openFile path : steady (openFile path).
Proof. unfold openFile. solve_steady. Qed.
#[export] Hint Resolve steady_openFile : steady.
Lemma steady_readPrivateFile path d limit : steady (readPrivateFile path d limit).
Proof. unfold readPrivateFile. solve_steady. Qed.
Lemma steady_writeTemp : steady writeTemp.
Proof. unfold writeTemp, orClose. solve_steady. Qed.
#[export] Hint Resolve steady_readPrivateFile steady_writeTemp : steady.

(** * What reading and writing promise *)

(** The file at [path] may be read and holds [data]. *)
Definition holds (path : string) (limit : Z) (data : string) (h : Host) : Prop :=
  exists f, h_files h !! path = Some f /\ hf_regular f = true /\ Z.land (hf_perm f) 63 = 0 /\
    slen (hf_data f) <= limit /\ hf_data f = data.

(** No system call fails. *)
Definition dependable (h : Host) : Prop := forall n, h_os h n = None.

Lemma dependable_same h h' : sameFiles h h' -> dependable h -> dependable h'.
Proof. intros (_ & E & _) D n. by rewrite E. Qed.

Lemma holds_same path limit data h h' : sameFiles h h' -> holds path limit data h ->
  holds path limit data h'.
Proof. intros (E & _) (f & F). exists f. by rewrite E. Qed.

Lemma hostcall_run h : dependable h -> hostcall h = (inr tt, h_set_calls (S (h_calls h)) h).
Proof. intros D. unfold hostcall. by rewrite D. Qed.

Lemma answer_bind {S A B} (m : M S A) (k : A -> M S B) s b s' :
  (m ≫= k) s = (inr b, s') -> exists a s1, m s = (inr a, s1) /\ k a s1 = (inr b, s').
Proof.
  unfold mbind, M_bind, bind. destruct (m s) as [[e|a] s1]; [done|]. intros R. by exists a, s1.
Qed.

Lemma answer_try {S A} (m : M S A) s r s' : try m s = (inr r, s') -> m s = (r, s').
Proof. unfold try. destruct (m s) as [x s1]. by intros [= -> ->]. Qed.

Lemma answer_fail_if {S B} b e (k : unit -> M S B) s r s' :
  (fail_if b e ≫= k) s = (inr r, s') -> b = false /\ k tt s = (inr r, s').
Proof. by destruct b. Qed.

Lemma steady_after {A} (m : M Host A) h r h' : steady m -> m h = (r, h') -> sameFiles h h'.
Proof. intros S E. specialize (S h). unfold final in S. by rewrite E in S. Qed.

(** A file that is read passes every check. *)
Lemma readPrivateFile_holds path d limit h data h' :
  readPrivateFile path d limit h = (inr data, h') -> holds path limit data h.
Proof.
  intros R. unfold readPrivateFile, openFile in R.
  apply answer_bind in R as (f & h1 & O & R).
  assert (h_files h !! path = Some f /\ sameFiles h h1) as [F Same].
  { split; [|eapply steady_after; [apply (steady_openFile path)|exact O]].
    apply answer_bind in O as (r & h2 & T%answer_try & O). destruct r as [e|g]; [done|].
    injection O as <- <-. apply answer_bind in T as ([] & h3 & C & T).
    apply (steady_after _ _ _ _ steady_hostcall) in C as (E & _).
    unfold mbind, M_bind, bind, get in T. rewrite E in T.
    destruct (h_files h !! path); [|done]. by injection T as <- _. }
  apply answer_bind in R as (r & h2 & T%answer_try & R). apply answer_bind in R as (c & h3 & _ & R).
  destruct r as [e|x]; [done|]. injection R as <- _. exists f. split; [done|].
  apply answer_bind in T as ([] & h4 & _ & T).
  apply answer_fail_if in T as [E1%negb_false_iff T]. apply answer_fail_if in T as [E2 T].
  apply answer_bind in T as ([] & h5 & _ & T). apply answer_fail_if in T as [E3 T].
  injection T as <- _. apply negb_false_iff, Z.eqb_eq in E2. apply Z.ltb_ge in E3. done.
Qed.

Lemma readPrivateFile_run path d limit data h : dependable h -> holds path limit data h ->
  exists h', readPrivateFile path d limit h = (inr data, h').
Proof.
  intros D (f & F & Rg & P & L & <-). unfold readPrivateFile, openFile, try, mbind, M_bind, bind, get.
  rewrite hostcall_run by done. cbn -[Z.land]. rewrite F. cbn -[Z.land].
  rewrite hostcall_run by done. cbn -[Z.land]. rewrite Rg, P. cbn -[Z.land].
  rewrite hostcall_run by done. cbn -[Z.land]. destruct (Z.ltb_spec limit (slen (hf_data f))); [lia|].
  cbn. rewrite hostcall_run by done. by eexists.
Qed.

(** The file is replaced exactly when the caller is told so. *)
Definition written (path data : string) (h h' : Host) : Prop :=
  h_files h' = <[path := mkHostFile true 384 data]> (h_files h) /\ h_os h' = h_os h /\
  h_clock h' = h_clock h /\ h_rand h' = h_rand h.

Lemma writePrivateFile_run path data h : exists committed err h',
  writePrivateFile path data h = (inr (committed, err), h') /\
  (if committed then written path data h h' else err <> None /\ sameFiles h h').
Proof.
  unfold writePrivateFile.
  destruct (try (hostcall ;; hostcall) h) as [[e|t] h1] eqn:E1.
  { unfold try in E1. by destruct ((hostcall ;; hostcall) h). }
  assert (sameFiles h h1) as S1 by (eapply steady_after; [|exact E1]; solve_steady).
  rewrite (bind_run _ _ _ _ _ E1). destruct t as [err|[]].
  { by exists false, (Some err), h1. }
  destruct (try (writeTemp ;; hostcall) h1) as [[e|r] h2] eqn:E2.
  { unfold try in E2. by destruct ((writeTemp ;; hostcall) h1). }
  assert (sameFiles h1 h2) as S2 by (eapply steady_after; [|exact E2]; solve_steady).
  rewrite (bind_run _ _ _ _ _ E2). pose proof (sameFiles_trans _ _ _ S1 S2) as S12. destruct r as [err|[]].
  { destruct (try hostcall h2) as [[e|t] h3] eqn:E3; [unfold try in E3; by destruct (hostcall h2)|].
    rewrite (bind_run _ _ _ _ _ E3). exists false, (Some err), h3. split; [done|]. split; [done|].
    eapply sameFiles_trans; [exact S12|]. eapply steady_after; [|exact E3]. solve_steady. }
  rewrite (bind_run (modify _) _ _ _ _ eq_refl). set (h3 := h_set_files _ h2).
  assert (written path data h h3) as W by (destruct S12 as (A & B & C & D); split; cbn; [congruence|done]).
  assert (forall h4, sameFiles h3 h4 -> written path data h h4) as Keep.
  { intros h4 (A & B & C & D). destruct W as (E & F & G & I). repeat split; congruence. }
  match goal with |- context [?m h3] =>
    assert (steady m) as S3 by solve_steady; destruct (m h3) as [[e|[c x]] h4] eqn:E4 end.
  - exfalso. clear -E4. unfold mbind, M_bind, bind, try in E4.
    repeat (match type of E4 with context [hostcall ?h] => destruct (hostcall h) as [[?|[]] ?] end; cbn in E4);
      done.
  - exists c, x, h4. split; [done|].
    pose proof (steady_after _ _ _ _ S3 E4) as S4.
    assert (c = true) as -> by (clear -E4; unfold mbind, M_bind, bind, try in E4;
      repeat (match type of E4 with context [hostcall ?h] => destruct (hostcall h) as [[?|[]] ?] end;
        cbn in E4); unfold ret in E4; congruence).
    by apply Keep.
Qed.

Lemma writePrivateFile_ok path data h : dependable h -> exists h',
  writePrivateFile path data h = (inr (true, None), h') /\ written path data h h'.
Proof.
  intros D. destruct (writePrivateFile_run path data h) as (c & e & h' & R & W).
  exists h'. rewrite R. enough (c = true /\ e = None) as [-> ->] by done. clear W.
  unfold writePrivateFile, writeTemp, orClose, try, mbind, M_bind, bind, modify, ret in R.
  repeat (rewrite hostcall_run in R by done; cbn in R). by injection R as <- <-.
Qed.

(** * The key of the sessions, and the master key of the users' keys *)

(** The file at [path] is one that is read as [key]. *)
Definition keepsKey (path : string) (key : list Z) (h : Host) : Prop :=
  exists data, holds path (sessionKeyBytes * 2 + 1) data h /\
    HexDecode (TrimSpace data) = Some key /\ llen key = sessionKeyBytes.

Lemma keepsKey_same path key h h' : sameFiles h h' -> keepsKey path key h -> keepsKey path key h'.
Proof. intros S (data & H & P). exists data. split; [by apply (holds_same _ _ _ h)|done]. Qed.

Lemma readSessionKey_keeps path key h h' : readSessionKey path h = (inr key, h') ->
  keepsKey path key h /\ sameFiles h h'.
Proof.
  intros R. assert (sameFiles h h') as S.
  { eapply steady_after; [|exact R]. unfold readSessionKey. solve_steady. }
  split; [|done]. unfold readSessionKey in R. apply answer_bind in R as (data & h1 & P & R).
  exists data. split; [by apply (readPrivateFile_holds path "web session key" _ h data h1)|].
  destruct (HexDecode (TrimSpace data)) as [k|]; [|done].
  destruct (llen k =? sessionKeyBytes) eqn:E; [|done]. injection R as <- _. by apply Z.eqb_eq in E.
Qed.

Lemma readSessionKey_run path key h : dependable h -> keepsKey path key h ->
  exists h', readSessionKey path h = (inr key, h') /\ sameFiles h h'.
Proof.
  intros D (data & H & P & L). destruct (readPrivateFile_run path "web session key" _ data h D H) as [h' R].
  exists h'. unfold readSessionKey. rewrite (bind_run _ _ _ _ _ R). rewrite P, L. split; [done|].
  eapply steady_after; [|exact R]. apply steady_readPrivateFile.
Qed.

Lemma HexEncode_line_trim bs : byte_list bs -> bs <> [] ->
  TrimSpace (HexEncode bs +:+ newline) = HexEncode bs.
Proof. intros B N. apply TrimSpace_line; [by apply HexEncode_visible|by destruct bs]. Qed.

Lemma rand_Read_bytes n h bs h' : rand_Read n h = (inr bs, h') ->
  byte_list bs /\ llen bs = Z.of_nat n.
Proof.
  unfold rand_Read. intros [= <- _]. split.
  - apply Forall_fmap, Forall_forall. intros i _. apply Z.mod_pos_bound. lia.
  - unfold llen. by rewrite length_map, length_seq.
Qed.

Lemma installSessionKey_keeps path key k h h' : byte_list key -> llen key = sessionKeyBytes ->
  installSessionKey path key h = (inr k, h') -> keepsKey path k h'.
Proof.
  intros B L R. unfold installSessionKey in R.
  do 4 (apply answer_bind in R as ([] & ? & _ & R)).
  apply answer_bind in R as (l & h1 & T%answer_try & R). destruct l as [err|[]].
  - destruct (errors_Is err errExist); [|done]. apply readSessionKey_keeps in R as [K S].
    by apply (keepsKey_same _ _ h1).
  - apply answer_bind in R as ([] & h2 & R1 & R). apply answer_bind in R as (s & h3 & R2 & R).
    destruct s as [err|[]]; [apply answer_bind in R as (? & ? & _ & R); done|].
    apply answer_bind in R as ([] & h4 & R3 & R). injection R as <- <-.
    assert (sameFiles h1 h4) as S.
    { eapply sameFiles_trans; [eapply steady_after; [|exact R1]; solve_steady|].
      eapply sameFiles_trans; [eapply steady_after; [|exact R2]; solve_steady|].
      eapply steady_after; [|exact R3]; solve_steady. }
    apply (keepsKey_same _ _ h1); [done|]. clear S R1 R2 R3.
    unfold linkFile in T. apply answer_bind in T as ([] & h5 & _ & T).
    unfold mbind, M_bind, bind, get, modify in T. destruct (h_files h5 !! path); [done|].
    injection T as <-. exists (HexEncode key +:+ newline).
    rewrite HexEncode_line_trim, HexDecode_Encode by (done || by intros ->).
    split; [|done]. eexists. split; [apply lookup_insert_eq|]. cbn -[slen HexEncode].
    rewrite slen_app, slen_HexEncode, L. done.
Qed.

(** The gateway's keys are stable.  A key that [loadOrCreateSessionKey] returned
    for a path has 32 bytes and is in the file at that path, whether it was read or
    created there; so while no call fails, every later start gets the same key and
    changes no file. *)
Theorem session_key_stable path key h h' :
  loadOrCreateSessionKey path h = (inr key, h') -> TrimSpace path <> "" ->
  keepsKey path key h' /\ llen key = 32 /\
  (dependable h' -> exists h'', loadOrCreateSessionKey path h' = (inr key, h'') /\ sameFiles h' h'').
Proof.
  intros R N. unfold loadOrCreateSessionKey in *. apply String.eqb_neq in N. rewrite N in *.
  enough (keepsKey path key h') as K.
  { split; [done|]. split; [by destruct K as (? & _ & _ & ->)|]. intros D.
    destruct (readSessionKey_run path key h' D K) as (h'' & E & S). exists h''. split; [|done].
    assert (try (readSessionKey path) h' = (inr (inr key), h'')) as T by (unfold try; by rewrite E).
    by rewrite (bind_run _ _ _ _ _ T). }
  apply answer_bind in R as (r & h1 & T%answer_try & R). destruct r as [err|k].
  - destruct (negb (errors_Is err errNotExist)); [done|].
    apply answer_bind in R as ([] & h2 & _ & R). apply answer_bind in R as (k & h3 & G & R).
    apply rand_Read_bytes in G as [B L]. apply answer_bind in R as ([] & h4 & _ & R).
    apply answer_bind in R as (r & h5 & I%answer_try & R).
    apply answer_bind in R as (o1 & h6 & R1 & R). apply answer_bind in R as (o2 & h7 & R2 & R).
    destruct r as [e|k']; [done|]. injection R as <- <-.
    apply installSessionKey_keeps in I; [|done..].
    apply (keepsKey_same _ _ h5); [|done].
    eapply sameFiles_trans; (eapply steady_after; [|eassumption]); solve_steady.
  - injection R as <- <-. apply readSessionKey_keeps in T as [K S].
    by apply (keepsKey_same _ _ h).
Qed.

(** A host without files, whose [n]-th random byte is [n] and whose clock ticks. *)
Definition sample_host : Host :=
  mkHost ∅ (fun _ => None) 0 (fun n => 63900000000 * Second + Z.of_nat n * Millisecond) 0 Z.of_nat 0.
Definition sample_key_path : string := "/session.key".
Definition sample_key_host : Host := final (loadOrCreateSessionKey sample_key_path) sample_host.

Lemma session_key_stable_witness :
  let key := map Z.of_nat (seq 0 32) in
  keepsKey sample_key_path key sample_key_host /\ llen key = 32 /\
  (dependable sample_key_host -> exists h'',
     loadOrCreateSessionKey sample_key_path sample_key_host = (inr key, h'') /\
     sameFiles sample_key_host h'').
Proof.
  apply (session_key_stable sample_key_path (map Z.of_nat (seq 0 32)) sample_host).
  - unfold sample_key_host. apply (result_final (loadOrCreateSessionKey sample_key_path)).
    vm_compute. reflexivity.
  - vm_compute. discriminate.
Defined.
