(* ===== verification/WebPassword.v ===== *)
(** internal/web/users.go: user names and password hashes.  PBKDF2 is computed over
    the HMAC of [Crypto]. *)

From S2P Require Export WebFiles GoConv.
From Stdlib Require Import Ascii.
#[global] Open Scope Z_scope.

Definition RoleAdmin : string := "admin".
Definition RoleUser : string := "user".
Definition passwordHashScheme : string := "pbkdf2-sha256".
Definition legacyPasswordHashScheme : string := "sha256".
Definition passwordHashIterations : Z := 600000.
Definition passwordSaltBytes : Z := 16.
Definition passwordKeyBytes : Z := 32.
Definition minPasswordBytes : Z := 12.
Definition maxPasswordBytes : Z := 1024.
Definition maxUsernameBytes : Z := 64.

(** * Names and roles *)

Definition normalizeUsername (username : string) : error + string :=
  let username := ToLower (TrimSpace username) in
  if username =s "" then inl (ErrorString "username is required")
  else if maxUsernameBytes <? slen username
  then inl (Errorf "username must be at most %d bytes" [AInt maxUsernameBytes])
  else if existsb (fun r => unicode_IsSpace r || unicode_IsControl r) (runes username)
  then inl (ErrorString "username cannot contain whitespace or control characters")
  else inr username.

Definition normalizeRole (role : string) : string :=
  if ToLower (TrimSpace role) =s RoleAdmin then RoleAdmin else RoleUser.

Definition validatePassword (password : string) : option error :=
  if TrimSpace password =s "" then Some (ErrorString "password is required")
  else if slen password <? minPasswordBytes
  then Some (Errorf "password must be at least %d bytes" [AInt minPasswordBytes])
  else if maxPasswordBytes <? slen password
  then Some (Errorf "password must be at most %d bytes" [AInt maxPasswordBytes])
  else None.

(** * PBKDF2 *)

Definition xorBytes (t u : list Z) : list Z := zip_with Z.lxor t u.

(** The rounds of one block after the first: [u] and the accumulator [t]. *)
Definition pbkdf2Block (password salt : list Z) (iterations block : Z) : list Z :=
  let u := HmacSHA256 password (salt ++ be_bytes 4 block) in
  snd (Z.iter (iterations - 1)
         (fun ut => let u := HmacSHA256 password (fst ut) in (u, xorBytes (snd ut) u)) (u, u)).

Definition pbkdf2SHA256 (password salt : list Z) (iterations keyLen : Z) : list Z :=
  let blocks := (keyLen + 32 - 1) / 32 in
  take (Z.to_nat keyLen)
    (flat_map (fun i => pbkdf2Block password salt iterations (Z.of_nat i))
       (seq 1 (Z.to_nat blocks))).

(** * Hashes *)

(** [encodePasswordHash] with the salt it drew. *)
Definition passwordHashOf (salt : list Z) (password : string) : string :=
  let sum := pbkdf2SHA256 (bytes_of_string password) salt passwordHashIterations passwordKeyBytes in
  passwordHashScheme +:+ "$" +:+ Itoa passwordHashIterations +:+ "$" +:+ HexEncode salt +:+ "$" +:+
    HexEncode sum.

Definition encodePasswordHash (password : string) : M Host string :=
  salt ← rand_Read (Z.to_nat passwordSaltBytes);
  ret (passwordHashOf salt password).

Definition hashPassword (password : string) : M Host string :=
  check (validatePassword password) ;;
  encodePasswordHash password.

Definition hashPasswordForMigration (password : string) : M Host string :=
  fail_if (maxPasswordBytes <? slen password)
    (Errorf "password must be at most %d bytes" [AInt maxPasswordBytes]) ;;
  encodePasswordHash password.

Definition verifyLegacyPasswordHash (salt want : string) (password : string) : bool :=
  match HexDecode salt, HexDecode want with
  | Some salt, Some want => bool_decide (want = Sum256 (salt ++ bytes_of_string password))
  | _, _ => false
  end.

(** [verifyPasswordHash], without the comparison that only takes time when a
    legacy hash is refused. *)
Definition verifyPasswordHash (encoded password : string) : bool :=
  match Split encoded "$"%char with
  | scheme :: rest =>
      if scheme =s legacyPasswordHashScheme then
        match rest with
        | [salt; want] => verifyLegacyPasswordHash salt want password
        | _ => false
        end
      else
        match rest with
        | [count; salt; want] =>
            if scheme <>s passwordHashScheme then false
            else match Atoi count with
            | None => false
            | Some iterations =>
                if (iterations <? 100000) || (2000000 <? iterations) then false
                else match HexDecode salt, HexDecode want with
                | Some salt, Some want =>
                    if llen salt <? passwordSaltBytes then false
                    else if negb (llen want =? passwordKeyBytes) then false
                    else bool_decide (want =
                      pbkdf2SHA256 (bytes_of_string password) salt iterations (llen want))
                | _, _ => false
                end
            end
        | _ => false
        end
  | [] => false
  end.

Definition passwordHashNeedsUpgrade (encoded : string) : bool :=
  match Split encoded "$"%char with
  | [scheme; count; _; _] =>
      if scheme <>s passwordHashScheme then true
      else match Atoi count with
           | None => true
           | Some iterations => iterations <? passwordHashIterations
           end
  | _ => true
  end.

(** * Facts *)

(** [sep] is no character of [s]. *)
Fixpoint lacks (sep : ascii) (s : string) : bool :=
  match s with EmptyString => true | String c r => negb (Ascii.eqb c sep) && lacks sep r end.

Lemma Split_part sep p s : lacks sep p = true ->
  Split (p +:+ String sep "" +:+ s) sep = p :: Split s sep.
Proof.
  change (String sep "" +:+ s) with (String sep s).
  induction p as [|c p IH]; cbn [lacks].
  - change ("" +:+ String sep s) with (String sep s). cbn [Split]. by rewrite Ascii.eqb_refl.
  - intros [N E]%andb_true_iff. apply negb_true_iff in N.
    change (String c p +:+ String sep s) with (String c (p +:+ String sep s)). cbn [Split].
    by rewrite N, IH.
Qed.

Lemma Split_last sep p : lacks sep p = true -> Split p sep = [p].
Proof.
  induction p as [|c p IH]; cbn [lacks Split]; [done|]. intros [N E]%andb_true_iff.
  apply negb_true_iff in N. by rewrite N, IH.
Qed.

Lemma HexEncode_lacks sep bs : byte_list bs -> hex_value sep = None -> lacks sep (HexEncode bs) = true.
Proof.
  unfold byte_list. intros F N. induction F as [|b bs B _ IH]; [done|].
  cbn [HexEncode lacks]. rewrite IH, andb_true_r.
  destruct (nibbles b B) as (A & C & _).
  apply hex_digit_value in A as [A _], C as [C _].
  apply andb_true_iff; split; apply negb_true_iff, Ascii.eqb_neq; congruence.
Qed.

Lemma Sum256_bytes msg : byte_list (Sum256 msg).
Proof.
  unfold Sum256, digest_bytes, byte_list. generalize (sha_blocks (length (be_words (sha_padded msg)))
    (be_words (sha_padded msg)) initial_digest). intros d.
  assert (forall n x, Forall (fun b => 0 <= b < 256) (be_bytes n x)) as B.
  { intros n x. apply Forall_fmap, Forall_forall. intros i _. cbn.
    change 255 with (Z.ones 8). rewrite Z.land_ones by lia. by apply Z.mod_pos_bound. }
  cbn [flat_map]. rewrite !Forall_app. by repeat split.
Qed.

Lemma length_Sum256 msg : length (Sum256 msg) = 32%nat.
Proof. unfold Sum256. by destruct (sha_blocks _ _ _). Qed.

Lemma lxor_byte x y : 0 <= x < 256 -> 0 <= y < 256 -> 0 <= Z.lxor x y < 256.
Proof.
  intros X Y. split; [apply Z.lxor_nonneg; lia|].
  destruct (Z.eq_dec (Z.lxor x y) 0) as [->|N]; [done|].
  assert (0 <= Z.lxor x y) by (apply Z.lxor_nonneg; lia).
  change 256 with (2 ^ 8). apply Z.log2_lt_pow2; [lia|].
  assert (forall z, 0 <= z < 256 -> Z.log2 z < 8) as L.
  { intros z Rz. destruct (Z.eq_dec z 0) as [->|]; [reflexivity|].
    apply Z.log2_lt_pow2; [lia|]. change (2 ^ 8) with 256. lia. }
  pose proof (Z.log2_lxor x y ltac:(lia) ltac:(lia)). specialize (L x X) as Lx. specialize (L y Y). lia.
Qed.

(** A block of the derived key has the length of a digest. *)
Lemma pbkdf2Block_bytes password salt iterations block :
  byte_list (pbkdf2Block password salt iterations block) /\
  length (pbkdf2Block password salt iterations block) = 32%nat.
Proof.
  unfold pbkdf2Block. set (u0 := HmacSHA256 _ _).
  assert (forall k m, byte_list (HmacSHA256 k m) /\ length (HmacSHA256 k m) = 32%nat) as H
    by (intros; split; [apply Sum256_bytes|apply length_Sum256]).
  generalize (iterations - 1). intros n.
  set (P := fun ut : list Z * list Z => byte_list (snd ut) /\ length (snd ut) = 32%nat).
  change (P (Z.iter n (fun ut => let u := HmacSHA256 password (fst ut) in (u, xorBytes (snd ut) u)) (u0, u0))).
  assert (P (u0, u0)) as P0 by apply H. clearbody u0. destruct n as [|n|n]; cbn [Z.iter]; [done| |done].
  apply Pos.iter_invariant; [|done]. intros [u t] [B L]. unfold P in *. cbn [fst snd] in *.
  destruct (H password u) as [B' L']. unfold xorBytes. split; [|rewrite length_zip_with; lia].
  clear L L'. revert B'. generalize (HmacSHA256 password u). intros v B'. unfold byte_list in *.
  revert v B'. induction B as [|x t X _ IH]; intros [|y v]; cbn; intros B'; [constructor..|].
  inversion_clear B'. constructor; [by apply lxor_byte|by apply IH].
Qed.

Lemma pbkdf2_key password salt iterations : pbkdf2SHA256 password salt iterations passwordKeyBytes =
  pbkdf2Block password salt iterations 1.
Proof.
  destruct (pbkdf2Block_bytes password salt iterations 1) as [_ L].
  unfold pbkdf2SHA256, passwordKeyBytes. change ((32 + 32 - 1) / 32) with 1.
  change (Z.to_nat 1) with 1%nat. change (Z.to_nat 32) with 32%nat. cbn [seq flat_map].
  rewrite app_nil_r. change (Z.of_nat 1) with 1. apply take_ge. lia.
Qed.

(** No proof computes 600000 rounds. *)
#[global] Opaque pbkdf2SHA256.

Lemma passwordKey_bytes password salt iterations :
  byte_list (pbkdf2SHA256 password salt iterations passwordKeyBytes) /\
  llen (pbkdf2SHA256 password salt iterations passwordKeyBytes) = passwordKeyBytes.
Proof.
  rewrite pbkdf2_key. destruct (pbkdf2Block_bytes password salt iterations 1) as [B L].
  split; [done|]. unfold llen. by rewrite L.
Qed.

(** A text with three separators. *)
Lemma Split_four a b c d : lacks "$"%char a = true -> lacks "$"%char b = true ->
  lacks "$"%char c = true -> lacks "$"%char d = true ->
  Split (a +:+ "$" +:+ b +:+ "$" +:+ c +:+ "$" +:+ d) "$"%char = [a; b; c; d].
Proof.
  intros A B C D. rewrite (Split_part "$"%char a) by done. f_equal.
  rewrite (Split_part "$"%char b) by done. f_equal.
  rewrite (Split_part "$"%char c) by done. f_equal. by apply Split_last.
Qed.

(** A hash that [encodePasswordHash] made is taken apart as it was put together. *)
Lemma Split_passwordHashOf salt password : byte_list salt ->
  Split (passwordHashOf salt password) "$"%char =
    [passwordHashScheme; "600000"; HexEncode salt;
     HexEncode (pbkdf2SHA256 (bytes_of_string password) salt passwordHashIterations passwordKeyBytes)].
Proof.
  intros B. unfold passwordHashOf. change (Itoa passwordHashIterations) with "600000".
  destruct (passwordKey_bytes (bytes_of_string password) salt passwordHashIterations) as [B' _].
  revert B'. generalize (pbkdf2SHA256 (bytes_of_string password) salt passwordHashIterations
    passwordKeyBytes). intros key B'.
  apply Split_four; [done|done|by apply HexEncode_lacks..].
Qed.

(** A password verifies against a hash exactly when it derives the same key, so
    the password that was hashed does; and the hash is up to date. *)
Lemma verify_passwordHashOf salt p q : byte_list salt -> llen salt = passwordSaltBytes ->
  verifyPasswordHash (passwordHashOf salt p) q = true <->
    pbkdf2SHA256 (bytes_of_string p) salt passwordHashIterations passwordKeyBytes =
    pbkdf2SHA256 (bytes_of_string q) salt passwordHashIterations passwordKeyBytes.
Proof.
  intros B L. unfold verifyPasswordHash. rewrite Split_passwordHashOf by done.
  destruct (passwordKey_bytes (bytes_of_string p) salt passwordHashIterations) as [B' L'].
  revert B' L'. generalize (pbkdf2SHA256 (bytes_of_string p) salt passwordHashIterations
    passwordKeyBytes). intros key B' L'.
  change (passwordHashScheme =s legacyPasswordHashScheme) with false. cbn iota.
  change (passwordHashScheme <>s passwordHashScheme) with false. cbn iota.
  change (Atoi "600000") with (Some passwordHashIterations). cbn iota beta.
  change ((passwordHashIterations <? 100000) || (2000000 <? passwordHashIterations)) with false.
  cbn iota. rewrite !HexDecode_Encode by done. rewrite L, L', Z.ltb_irrefl, Z.eqb_refl. cbn [negb].
  generalize (pbkdf2SHA256 (bytes_of_string q) salt passwordHashIterations passwordKeyBytes).
  intros key'. apply bool_decide_eq_true.
Qed.

Lemma verify_own_password salt p : byte_list salt -> llen salt = passwordSaltBytes ->
  verifyPasswordHash (passwordHashOf salt p) p = true.
Proof.
  intros B L. exact (proj2 (verify_passwordHashOf salt p p B L) eq_refl).
Qed.

Lemma upgrade_passwordHashOf salt p : byte_list salt ->
  passwordHashNeedsUpgrade (passwordHashOf salt p) = false.
Proof.
  intros B. unfold passwordHashNeedsUpgrade. rewrite Split_passwordHashOf by done.
  generalize (pbkdf2SHA256 (bytes_of_string p) salt passwordHashIterations passwordKeyBytes).
  intros key. reflexivity.
Qed.

Lemma encodePasswordHash_run p h h' hash : encodePasswordHash p h = (inr hash, h') ->
  sameFiles h h' /\
  exists salt, byte_list salt /\ llen salt = passwordSaltBytes /\ hash = passwordHashOf salt p.
Proof.
  intros R. split; [eapply steady_after; [|exact R]; unfold encodePasswordHash; solve_steady|].
  unfold encodePasswordHash in R. apply answer_bind in R as (salt & h1 & D & R).
  apply rand_Read_bytes in D as [B L]. injection R as <- <-. by exists salt.
Qed.
