(* ===== verification/WebUsers.v ===== *)
(** internal/web/users.go and internal/web/user_keys.go: the accounts of the gateway
    and the fixed key of each, kept in a file.

    A method is a value of [M Gateway].  What a method does under the store's mutex
    is one step; between two such steps it says [elsewhere], where the other
    goroutines do whatever [others] says.  Reading the context asks [ctxErr].  The
    comparisons that only take time (verifyDummyPassword) are left out. *)

From S2P Require Export WebPassword WebAttempts GoBase64.
From stdpp Require Import sorting.
#[global] Open Scope Z_scope.

Definition maxUsersFileBytes : Z := Z.shiftl 10 20.
Definition maxUsers : Z := 256.
Definition maxConcurrentPasswordWork : Z := 4.
Definition maxQueuedPasswordWork : Z := 32.
Definition fixedKeySecretBytes : Z := 24.

Definition errPasswordWorkBusyText : string := "password authentication is temporarily busy".
Definition errPasswordWorkBusy : error := ErrorString errPasswordWorkBusyText.
Definition errUsernameInUseText : string := "username is already in use or was previously deleted".
Definition errUsernameInUse : error := ErrorString errUsernameInUseText.
Definition errUserLimitReachedText : string := "user limit reached".
Definition errUserLimitReached : error := ErrorString errUserLimitReachedText.
Definition errInvalidLogin : error := ErrorString "invalid username or password".
Definition errUserNotFound : error := ErrorString "user not found".

(** * Data *)

Record UserRecord : Type := mkUserRecord
  { user_Username : string; user_Role : string; user_PasswordHash : string;
    user_KeyID : string; user_KeyHash : string; user_KeyVersion : Z; user_KeyCipher : string;
    user_KeyCreatedAt : time; user_CreatedAt : time; user_UpdatedAt : time;
    user_Disabled : bool }.

Record PublicUser : Type := mkPublicUser
  { public_Username : string; public_Role : string; public_CreatedAt : time;
    public_UpdatedAt : time }.

Record FixedUserKey : Type := mkFixedUserKey
  { key_ID : string; key_Owner : string; key_Version : Z; key_CreatedAt : time; key_Secret : string }.

Record FixedUserKeyVerifier : Type := mkFixedUserKeyVerifier
  { verifier_ID : string; verifier_Owner : string; verifier_Version : Z; verifier_Hash : string }.

(** The zero [UserRecord]. *)
Definition noUser : UserRecord := mkUserRecord "" "" "" "" "" 0 "" 0 0 0 false.

Definition user_set_password (hash : string) (t : time) (u : UserRecord) : UserRecord :=
  mkUserRecord (user_Username u) (user_Role u) hash (user_KeyID u) (user_KeyHash u)
    (user_KeyVersion u) (user_KeyCipher u) (user_KeyCreatedAt u) (user_CreatedAt u) t (user_Disabled u).
Definition user_set_key (id hash : string) (version : Z) (cipher : string) (t : time)
    (u : UserRecord) : UserRecord :=
  mkUserRecord (user_Username u) (user_Role u) (user_PasswordHash u) id hash version cipher t
    (user_CreatedAt u) (user_UpdatedAt u) (user_Disabled u).
Definition user_set_deleted (t : time) (u : UserRecord) : UserRecord :=
  mkUserRecord (user_Username u) (user_Role u) "" (user_KeyID u) (user_KeyHash u)
    (user_KeyVersion u) "" (user_KeyCreatedAt u) (user_CreatedAt u) t true.

(** encoding/json on the list of users, and AES-256-GCM: parameters. *)
Class UsersJSON : Type := {
  MarshalUsers : list UserRecord -> error + string;
  UnmarshalUsers : string -> error + list UserRecord
}.
Class AEAD : Type := {
  Seal : list Z -> list Z -> list Z -> list Z -> list Z;
  OpenSealed : list Z -> list Z -> list Z -> list Z -> option (list Z)
}.
Definition NonceSize : nat := 12.

(** * The state *)

Record UserStore : Type := mkUserStore
  { us_path : string; us_loaded : bool; us_users : list UserRecord;
    us_passwordWork : Z; us_passwordQueue : Z;     (* slots taken of the two channels *)
    us_keyCipher : option (list Z) }.

Definition NewUserStore (path : string) : UserStore := mkUserStore path false [] 0 0 None.

(** The mutable fields of [Server], and the host; [g_turns] and [g_polls] count the
    questions asked of [others] and [ctxErr]. *)
Record Gateway : Type := mkGateway
  { g_host : Host; g_users : UserStore; g_attempts : Attempts;
    g_activeUsers : gmap string Z; g_activeTotal : Z; g_activeNonAdmin : Z;
    g_managedKeySync : bool; g_turns : nat; g_polls : nat }.

Definition g_set_host (x : Host) (g : Gateway) : Gateway :=
  mkGateway x (g_users g) (g_attempts g) (g_activeUsers g) (g_activeTotal g) (g_activeNonAdmin g)
    (g_managedKeySync g) (g_turns g) (g_polls g).
Definition g_set_users (x : UserStore) (g : Gateway) : Gateway :=
  mkGateway (g_host g) x (g_attempts g) (g_activeUsers g) (g_activeTotal g) (g_activeNonAdmin g)
    (g_managedKeySync g) (g_turns g) (g_polls g).
Definition g_set_attempts (x : Attempts) (g : Gateway) : Gateway :=
  mkGateway (g_host g) (g_users g) x (g_activeUsers g) (g_activeTotal g) (g_activeNonAdmin g)
    (g_managedKeySync g) (g_turns g) (g_polls g).
Definition g_set_active (users : gmap string Z) (total nonAdmin : Z) (g : Gateway) : Gateway :=
  mkGateway (g_host g) (g_users g) (g_attempts g) users total nonAdmin
    (g_managedKeySync g) (g_turns g) (g_polls g).
Definition g_set_sync (x : bool) (g : Gateway) : Gateway :=
  mkGateway (g_host g) (g_users g) (g_attempts g) (g_activeUsers g) (g_activeTotal g)
    (g_activeNonAdmin g) x (g_turns g) (g_polls g).
Definition g_set_turns (n : nat) (g : Gateway) : Gateway :=
  mkGateway (g_host g) (g_users g) (g_attempts g) (g_activeUsers g) (g_activeTotal g)
    (g_activeNonAdmin g) (g_managedKeySync g) n (g_polls g).
Definition g_set_polls (n : nat) (g : Gateway) : Gateway :=
  mkGateway (g_host g) (g_users g) (g_attempts g) (g_activeUsers g) (g_activeTotal g)
    (g_activeNonAdmin g) (g_managedKeySync g) (g_turns g) n.

Definition us_set_users (x : list UserRecord) (s : UserStore) : UserStore :=
  mkUserStore (us_path s) true x (us_passwordWork s) (us_passwordQueue s) (us_keyCipher s).
Definition us_set_work (work queue : Z) (s : UserStore) : UserStore :=
  mkUserStore (us_path s) (us_loaded s) (us_users s) work queue (us_keyCipher s).
Definition us_set_cipher (x : option (list Z)) (s : UserStore) : UserStore :=
  mkUserStore (us_path s) (us_loaded s) (us_users s) (us_passwordWork s) (us_passwordQueue s) x.

Class Elsewhere : Type := {
  others : nat -> Gateway -> Gateway;
  ctxErr : nat -> option error
}.

Definition onHost {A} (m : M Host A) : M Gateway A := fun g =>
  let '(r, h) := m (g_host g) in (r, g_set_host h g).
Definition changing (f : UserStore -> UserStore) : M Gateway unit :=
  modify (fun g => g_set_users (f (g_users g)) g).
Definition elsewhere `{Elsewhere} : M Gateway unit := fun g =>
  (inr tt, g_set_turns (S (g_turns g)) (others (g_turns g) g)).
Definition ctx_Err `{Elsewhere} : M Gateway (option error) := fun g =>
  (inr (ctxErr (g_polls g)), g_set_polls (S (g_polls g)) g).

Definition publicUser (user : UserRecord) : PublicUser :=
  mkPublicUser (user_Username user) (user_Role user) (user_CreatedAt user) (user_UpdatedAt user).

(** * Loading and saving *)

Section users.
Context `{UsersJSON} `{AEAD} `{Elsewhere}.

Definition UserStore_loadLocked : M Gateway (list UserRecord) :=
  s ← gets g_users;
  if us_loaded s then ret (us_users s)
  else
    r ← try (onHost (readPrivateFile (us_path s) "users file" maxUsersFileBytes));
    match r with
    | inl err =>
        if errors_Is err errNotExist then changing (us_set_users []) ;; ret [] else throw err
    | inr data =>
        if slen (TrimSpace data) =? 0 then changing (us_set_users []) ;; ret []
        else
          users ← fromResult (UnmarshalUsers data);
          fail_if (maxUsers <? llen users)
            (Errorf "users file contains %d records; maximum is %d"
               [AInt (llen users); AInt maxUsers]) ;;
          changing (us_set_users users) ;;
          ret users
    end.

Definition UserStore_saveLocked (users : list UserRecord) : M Gateway unit :=
  data ← fromResult (MarshalUsers users);
  s ← gets g_users;
  '(committed, err) ← onHost (writePrivateFile (us_path s) (data +:+ newline));
  (if committed : bool then changing (us_set_users users) else ret tt) ;;
  check err.

(** * Password work: two counting semaphores *)

Definition tryAcquirePasswordWork : M Gateway bool :=
  s ← gets g_users;
  if us_passwordWork s <? maxConcurrentPasswordWork
  then changing (us_set_work (us_passwordWork s + 1) (us_passwordQueue s)) ;; ret true
  else ret false.

Definition releasePasswordWork : M Gateway unit :=
  changing (fun s => us_set_work (us_passwordWork s - 1) (us_passwordQueue s) s).
Definition leavePasswordQueue : M Gateway unit :=
  changing (fun s => us_set_work (us_passwordWork s) (us_passwordQueue s - 1) s).

Definition errCanceled : error := ErrorString "context canceled".

(** [acquirePasswordWork]; the wait for a slot or for the context is [elsewhere],
    which ends when one of them is there, and a select with both takes either. *)
Definition acquirePasswordWork (wait : bool) : M Gateway unit :=
  if negb wait then
    ok ← tryAcquirePasswordWork;
    fail_if (negb ok) errPasswordWorkBusy
  else
    err ← ctx_Err;
    check err ;;
    s ← gets g_users;
    if maxQueuedPasswordWork <=? us_passwordQueue s then throw errPasswordWorkBusy
    else
      changing (us_set_work (us_passwordWork s) (us_passwordQueue s + 1)) ;;
      elsewhere ;;
      ready ← tryAcquirePasswordWork;
      err ← ctx_Err;
      if ready : bool then
        match err with
        | Some err => releasePasswordWork ;; leavePasswordQueue ;; throw err
        | None => ret tt
        end
      else leavePasswordQueue ;; throw (default errCanceled err).

(** The function [acquirePasswordWork] returns. *)
Definition releaseAcquired (wait : bool) : M Gateway unit :=
  releasePasswordWork ;; if wait then leavePasswordQueue else ret tt.

(** * Records *)

Definition newUserRecord (username password role : string) : M Host UserRecord :=
  username ← fromResult (normalizeUsername username);
  let role := normalizeRole role in
  check (validatePassword password) ;;
  hash ← hashPassword password;
  now ← time_Now;
  ret (mkUserRecord username role hash "" "" 0 "" 0 now now false).

Definition NUL : string := String (byte_of 0) EmptyString.

Definition fixedKeyAAD (record : UserRecord) : list Z :=
  bytes_of_string ("gpuardian-user-key-v1" +:+ NUL +:+ user_Username record +:+ NUL +:+
    user_KeyID record +:+ NUL +:+ Itoa (user_KeyVersion record)).

(** [newUserKeyCipher]: a cipher is its key. *)
Definition newUserKeyCipher (master : list Z) : error + list Z :=
  if negb (llen master =? 32)
  then inl (ErrorString "web user-key master must contain 32 bytes") else inr master.

Definition errKeyUnavailable : error := ErrorString "user-key encryption is unavailable".

Definition assign (c : option (list Z)) (record : UserRecord) (version : Z) : M Host UserRecord :=
  match c with
  | None => throw errKeyUnavailable
  | Some master =>
      secretBytes ← rand_Read (Z.to_nat fixedKeySecretBytes);
      idBytes ← rand_Read 8;
      let secret := "gk_" +:+ HexEncode secretBytes in
      now ← time_Now;
      let record := user_set_key ("uk_" +:+ HexEncode idBytes)
        (HexEncode (Sum256 (bytes_of_string secret))) version (user_KeyCipher record) now record in
      nonce ← rand_Read NonceSize;
      let sealed := Seal master nonce (bytes_of_string secret) (fixedKeyAAD record) in
      ret (user_set_key (user_KeyID record) (user_KeyHash record) (user_KeyVersion record)
        (EncodeToString RawStdEncoding (string_of_bytes (nonce ++ sealed)))
        (user_KeyCreatedAt record) record)
  end.

Definition reveal (c : option (list Z)) (record : UserRecord) : error + string :=
  match c with
  | None => inl errKeyUnavailable
  | Some master =>
      match DecodeString RawStdEncoding (user_KeyCipher record) with
      | None => inl (ErrorString "stored user key is invalid")
      | Some text =>
          let raw := bytes_of_string text in
          if llen raw <=? Z.of_nat NonceSize then inl (ErrorString "stored user key is invalid")
          else match OpenSealed master (take NonceSize raw) (drop NonceSize raw)
                       (fixedKeyAAD record) with
               | None => inl (ErrorString
                   "decrypt stored user key: invalid master key or ciphertext")
               | Some plain => inr (string_of_bytes plain)
               end
      end
  end.

Definition fixedUserKey (user : UserRecord) (secret : string) : FixedUserKey :=
  mkFixedUserKey (user_KeyID user) (user_Username user) (user_KeyVersion user)
    (user_KeyCreatedAt user) secret.

(** * The methods of the store *)

Definition live (username : string) (u : UserRecord) : bool :=
  (user_Username u =s username) && negb (user_Disabled u).

Definition BootstrapAdmin (username password : string) : M Gateway unit :=
  users ← UserStore_loadLocked;
  if 0 <? llen users then ret tt
  else
    record ← onHost (newUserRecord username password RoleAdmin);
    UserStore_saveLocked [record].

Definition UserStore_List : M Gateway (list PublicUser) :=
  users ← UserStore_loadLocked;
  ret (map publicUser (List.filter (fun u => negb (user_Disabled u)) users)).

(** [Get]: [None] is the answer that no such user was found. *)
Definition UserStore_Get (username : string) : M Gateway (option UserRecord) :=
  match normalizeUsername username with
  | inl _ => ret None
  | inr username =>
      users ← UserStore_loadLocked;
      ret (List.find (live username) users)
  end.

(** The lookup of [authenticate]: a disabled user ends the search. *)
Fixpoint candidateFor (username : string) (users : list UserRecord) : UserRecord :=
  match users with
  | [] => noUser
  | user :: rest =>
      if user_Username user <>s username then candidateFor username rest
      else if user_Disabled user then noUser
      else user
  end.

(** The last critical section of [authenticate]: the first live record of the
    user must still be the one whose hash was verified. *)
Fixpoint commitLogin (before : list UserRecord) (username : string) (candidate : UserRecord)
    (upgradedHash : string) (users : list UserRecord) : M Gateway PublicUser :=
  match users with
  | [] => throw errInvalidLogin
  | current :: rest =>
      if negb (live username current)
      then commitLogin (before ++ [current]) username candidate upgradedHash rest
      else if (user_PasswordHash current <>s user_PasswordHash candidate)
           || negb (TimeEqual (user_UpdatedAt current) (user_UpdatedAt candidate))
      then throw errInvalidLogin
      else if upgradedHash <>s "" then
        now ← onHost time_Now;
        let current := user_set_password upgradedHash now current in
        UserStore_saveLocked (before ++ current :: rest) ;;
        ret (publicUser current)
      else ret (publicUser current)
  end.

Definition authenticate (username password : string) (wait : bool) : M Gateway PublicUser :=
  username ← fromResult (normalizeUsername username);
  users ← UserStore_loadLocked;
  let candidate := candidateFor username users in
  elsewhere ;;
  acquirePasswordWork wait ;;
  let verified := (user_Username candidate <>s "")
                  && verifyPasswordHash (user_PasswordHash candidate) password in
  upgraded ← try (if verified && passwordHashNeedsUpgrade (user_PasswordHash candidate)
                  then onHost (hashPasswordForMigration password) else ret "");
  elsewhere ;;
  releaseAcquired wait ;;
  upgradedHash ← fromResult upgraded;
  fail_if (negb verified) errInvalidLogin ;;
  elsewhere ;;
  users ← UserStore_loadLocked;
  commitLogin [] username candidate upgradedHash users.

Definition Authenticate (username password : string) : M Gateway PublicUser :=
  authenticate username password false.
Definition AuthenticateContext (username password : string) : M Gateway PublicUser :=
  authenticate username password true.

(** The critical section of [Create]. *)
Definition commitCreate (record : UserRecord) : M Gateway PublicUser :=
  users ← UserStore_loadLocked;
  fail_if (existsb (fun u => user_Username u =s user_Username record) users) errUsernameInUse ;;
  fail_if (maxUsers <=? llen users)
    (Errorf "%w: maximum %d" [AErr errUserLimitReached; AInt maxUsers]) ;;
  UserStore_saveLocked (users ++ [record]) ;;
  ret (publicUser record).

Definition UserStore_Create (username password role : string) : M Gateway PublicUser :=
  ok ← tryAcquirePasswordWork;
  fail_if (negb ok) errPasswordWorkBusy ;;
  r ← try (onHost (newUserRecord username password role));
  elsewhere ;;
  releasePasswordWork ;;
  record ← fromResult r;
  s ← gets g_users;
  record ← match us_keyCipher s with
           | None => ret record
           | c => onHost (assign c record 1)
           end;
  elsewhere ;;
  commitCreate record.

Definition admins (users : list UserRecord) : Z :=
  llen (List.filter (fun u => (user_Role u =s RoleAdmin) && negb (user_Disabled u)) users).

Fixpoint deleteLoop (all before : list UserRecord) (username : string) (users : list UserRecord)
    : M Gateway unit :=
  match users with
  | [] => throw errUserNotFound
  | user :: rest =>
      if user_Username user <>s username then deleteLoop all (before ++ [user]) username rest
      else if user_Disabled user then throw errUserNotFound
      else if (user_Role user =s RoleAdmin) && (admins all =? 1)
      then throw (ErrorString "cannot delete the last admin")
      else
        now ← onHost time_Now;
        UserStore_saveLocked (before ++ user_set_deleted now user :: rest)
  end.

Definition UserStore_Delete (username : string) : M Gateway unit :=
  username ← fromResult (normalizeUsername username);
  users ← UserStore_loadLocked;
  deleteLoop users [] username users.

Definition errCurrentPassword : error := ErrorString "current password is invalid".

(** The last critical section of [ChangePassword]. *)
Fixpoint commitPassword (before : list UserRecord) (username : string) (candidate : UserRecord)
    (newHash : string) (users : list UserRecord) : M Gateway PublicUser :=
  match users with
  | [] => throw errUserNotFound
  | current :: rest =>
      if negb (live username current)
      then commitPassword (before ++ [current]) username candidate newHash rest
      else if (user_PasswordHash current <>s user_PasswordHash candidate)
           || negb (TimeEqual (user_UpdatedAt current) (user_UpdatedAt candidate))
      then throw errCurrentPassword
      else
        now ← onHost time_Now;
        let current := user_set_password newHash now current in
        UserStore_saveLocked (before ++ current :: rest) ;;
        ret (publicUser current)
  end.

Definition ChangePassword (username currentPassword newPassword : string) : M Gateway PublicUser :=
  username ← fromResult (normalizeUsername username);
  fail_if (TrimSpace newPassword =s "") (ErrorString "new password is required") ;;
  check (validatePassword newPassword) ;;
  users ← UserStore_loadLocked;
  let candidate := default noUser (List.find (live username) users) in
  elsewhere ;;
  ok ← tryAcquirePasswordWork;
  fail_if (negb ok) errPasswordWorkBusy ;;
  if user_Username candidate =s "" then
    elsewhere ;;
    releasePasswordWork ;;
    throw errUserNotFound
  else
    let verified := verifyPasswordHash (user_PasswordHash candidate) currentPassword in
    r ← try (if verified then onHost (hashPassword newPassword) else ret "");
    elsewhere ;;
    releasePasswordWork ;;
    newHash ← fromResult r;
    fail_if (negb verified) errCurrentPassword ;;
    elsewhere ;;
    users ← UserStore_loadLocked;
    commitPassword [] username candidate newHash users.

(** ** Fixed keys *)

(** [int64] arithmetic wraps around. *)
Definition i64 (z : Z) : Z := (z + 2 ^ 63) mod 2 ^ 64 - 2 ^ 63.

(** The loop of [InitializeFixedKeys]: the users with their keys, and whether any
    was assigned. *)
Fixpoint initializeKeys (master : list Z) (users : list UserRecord)
    : M Host (list UserRecord * bool) :=
  match users with
  | [] => ret ([], false)
  | user :: rest =>
      if user_Disabled user then
        '(rest, changed) ← initializeKeys master rest; ret (user :: rest, changed)
      else if user_KeyID user =s "" then
        user ← assign (Some master) user 1;
        '(rest, _) ← initializeKeys master rest; ret (user :: rest, true)
      else match reveal (Some master) user with
           | inl err => throw (Errorf "validate fixed key for %s: %w"
                                 [AStr (user_Username user); AErr err])
           | inr _ => '(rest, changed) ← initializeKeys master rest; ret (user :: rest, changed)
           end
  end.

Definition InitializeFixedKeys (master : list Z) : M Gateway unit :=
  keyCipher ← fromResult (newUserKeyCipher master);
  users ← UserStore_loadLocked;
  '(users, changed) ← onHost (initializeKeys keyCipher users);
  (if changed : bool then UserStore_saveLocked users else ret tt) ;;
  changing (us_set_cipher (Some keyCipher)).

Definition HasEncryptedFixedKeys : M Gateway bool :=
  users ← UserStore_loadLocked;
  ret (existsb (fun u => negb (user_Disabled u) && (user_KeyCipher u <>s "")) users).

Definition loadOrCreateUserKeyMaster (path : string) : M Gateway (list Z) :=
  hasEncryptedKeys ← HasEncryptedFixedKeys;
  if hasEncryptedKeys : bool then
    r ← try (onHost (readSessionKey path));
    match r with
    | inl err => throw (Errorf "read web user-key master: %w" [AErr err])
    | inr master => ret master
    end
  else onHost (loadOrCreateSessionKey path).

Definition keyed (u : UserRecord) : bool := negb (user_Disabled u) && (user_KeyID u <>s "").

Definition ownerLe (x y : FixedUserKey) : Prop := stringLe (key_Owner x) (key_Owner y).
#[export] Instance ownerLe_dec x y : Decision (ownerLe x y).
Proof. unfold ownerLe. apply _. Defined.
Definition verifierOf (u : UserRecord) : FixedUserKeyVerifier :=
  mkFixedUserKeyVerifier (user_KeyID u) (user_Username u) (user_KeyVersion u) (user_KeyHash u).
Definition idLe (x y : FixedUserKeyVerifier) : Prop := stringLe (verifier_ID x) (verifier_ID y).
#[export] Instance idLe_dec x y : Decision (idLe x y).
Proof. unfold idLe. apply _. Defined.

Definition FixedKeys : M Gateway (list FixedUserKey) :=
  users ← UserStore_loadLocked;
  ret (merge_sort ownerLe (map (fun u => fixedUserKey u "") (List.filter keyed users))).

Definition FixedKeyVerifiers : M Gateway (list FixedUserKeyVerifier) :=
  users ← UserStore_loadLocked;
  ret (merge_sort idLe (map verifierOf (List.filter keyed users))).

Definition RevealFixedKey (username : string) : M Gateway FixedUserKey :=
  username ← fromResult (normalizeUsername username);
  users ← UserStore_loadLocked;
  s ← gets g_users;
  match List.find (live username) users with
  | None => throw errUserNotFound
  | Some user =>
      secret ← fromResult (reveal (us_keyCipher s) user);
      ret (fixedUserKey user secret)
  end.

Fixpoint regenerateLoop (before : list UserRecord) (username : string) (users : list UserRecord)
    : M Gateway FixedUserKey :=
  match users with
  | [] => throw errUserNotFound
  | user :: rest =>
      if negb (live username user) then regenerateLoop (before ++ [user]) username rest
      else
        let version := i64 (user_KeyVersion user + 1) in
        let version := if version <? 1 then 1 else version in
        s ← gets g_users;
        user ← onHost (assign (us_keyCipher s) user version);
        UserStore_saveLocked (before ++ user :: rest) ;;
        secret ← fromResult (reveal (us_keyCipher s) user);
        ret (fixedUserKey user secret)
  end.

Definition RegenerateFixedKey (username : string) : M Gateway FixedUserKey :=
  username ← fromResult (normalizeUsername username);
  users ← UserStore_loadLocked;
  regenerateLoop [] username users.

Definition FixedKeyForUser (username : string) : M Gateway FixedUserKeyVerifier :=
  let username := ToLower (TrimSpace username) in
  verifiers ← FixedKeyVerifiers;
  match List.find (fun v => verifier_Owner v =s username) verifiers with
  | Some verifier => ret verifier
  | None => throw (ErrorString "fixed key not found")
  end.

End users.
