(* ===== verification/WebUsersFacts.v ===== *)
(** The accounts of the gateway: what the methods of the user store may do to the
    list of users, as a transition system that the methods refine, its invariants,
    and what a login, a password and a fixed key mean. *)

From S2P Require Export WebPassword WebUsers.

(** Normal user names: decoding inverts encoding of UTF-8, lower-casing and
    trimming are idempotent, so a normalized name normalizes to itself. *)

From Stdlib Require Import Ascii.
#[global] Open Scope Z_scope.

(** * UTF-8 *)

(** A Unicode scalar value. *)
Definition scalar (r : Z) : Prop := 0 <= r < 55296 \/ 57344 <= r <= 1114111.

Lemma land_low x n : 0 <= n -> Z.land x (2 ^ n - 1) = x mod 2 ^ n.
Proof. intros N. rewrite <- Z.land_ones by done. f_equal. rewrite Z.ones_equiv. lia. Qed.

(** Masks and shifts as remainders and quotients. *)
Lemma land63 x : Z.land x 63 = x mod 64.
Proof. apply (land_low x 6). lia. Qed.
Lemma land31 x : Z.land x 31 = x mod 32.
Proof. apply (land_low x 5). lia. Qed.
Lemma land15 x : Z.land x 15 = x mod 16.
Proof. apply (land_low x 4). lia. Qed.
Lemma land7 x : Z.land x 7 = x mod 8.
Proof. apply (land_low x 3). lia. Qed.
Lemma shiftr6 x : Z.shiftr x 6 = x / 64.
Proof. by rewrite Z.shiftr_div_pow2 by lia. Qed.
Lemma shiftr12 x : Z.shiftr x 12 = x / 4096.
Proof. by rewrite Z.shiftr_div_pow2 by lia. Qed.
Lemma shiftr18 x : Z.shiftr x 18 = x / 262144.
Proof. by rewrite Z.shiftr_div_pow2 by lia. Qed.

Ltac divmod := Z.to_euclidean_division_equations; lia.
Ltac bits := rewrite ?land63, ?land31, ?land15, ?land7, ?shiftr6, ?shiftr12, ?shiftr18.
(** The tests of an encoding or a decoding, where [lia] can tell which holds. *)
Ltac test b :=
  first [replace b with true by lia | replace b with false by lia | destruct b eqn:?].
Ltac tests :=
  repeat (match goal with
    | |- context [?a <? ?b] => test (a <? b)
    | |- context [?a <=? ?b] => test (a <=? b)
    | |- context [?a =? ?b] => test (a =? b)
    end; cbn [andb orb]).

(** The six-bit groups of a rune, and what a mask leaves of a byte. *)
Lemma rune_groups r : 0 <= r -> exists a b c d,
  r / 262144 = a /\ (r / 4096) mod 64 = b /\ (r / 64) mod 64 = c /\ r mod 64 = d /\
  r / 4096 = 64 * a + b /\ r / 64 = 4096 * a + 64 * b + c /\
  r = 262144 * a + 4096 * b + 64 * c + d /\
  0 <= a /\ 0 <= b < 64 /\ 0 <= c < 64 /\ 0 <= d < 64.
Proof.
  intros P. exists (r / 262144), ((r / 4096) mod 64), ((r / 64) mod 64), (r mod 64).
  pose proof (Z.div_mod r 64 ltac:(lia)). pose proof (Z.div_mod (r / 64) 64 ltac:(lia)).
  pose proof (Z.div_mod (r / 4096) 64 ltac:(lia)).
  rewrite (Z.div_div r 64 64) in * by lia. change (64 * 64) with 4096 in *.
  rewrite (Z.div_div r 4096 64) in * by lia. change (4096 * 64) with 262144 in *.
  pose proof (Z.mod_pos_bound r 64 ltac:(lia)). pose proof (Z.mod_pos_bound (r / 64) 64 ltac:(lia)).
  pose proof (Z.mod_pos_bound (r / 4096) 64 ltac:(lia)). pose proof (Z.div_pos r 262144 P ltac:(lia)).
  repeat split; lia.
Qed.

Lemma mask k n x y : y = k * n + x -> 0 <= x < n -> y mod n = x.
Proof. intros -> B. rewrite Z.add_comm, Z.mod_add by lia. by apply Z.mod_small. Qed.

Ltac groups r :=
  destruct (rune_groups r ltac:(lia)) as (a & b & c & d & Ea & Eb & Ec & Ed & E1 & E2 & E3 &
    Ba & Bb & Bc & Bd);
  rewrite ?Ea, ?Eb, ?Ec, ?Ed, ?E1, ?E2; clear Ea Eb Ec Ed.

Lemma encode_rune_bytes r : byte_list (encode_rune r).
Proof.
  unfold encode_rune, byte_list. bits.
  destruct (Z_lt_le_dec r 0).
  { replace (0 <=? r) with false by lia. replace (128 <=? r) with false by lia.
    replace (r <? 0) with true by lia. by repeat (apply Forall_cons_2; [lia|]). }
  groups r. tests; repeat (apply Forall_cons_2; [lia|]); apply Forall_nil_2.
Qed.

Lemma decode_encode_rune r l : scalar r -> decode_runes (encode_rune r ++ l) = r :: decode_runes l.
Proof.
  intros S. unfold scalar in S. unfold encode_rune. bits. groups r.
  destruct (Z.leb_spec r 127); [|destruct (Z.leb_spec r 2047); [|destruct (Z.leb_spec r 65535)]].
  - replace (0 <=? r) with true by lia. cbn [andb app decode_runes]. by replace (r <? 128) with true by lia.
  - replace (128 <=? r) with true by lia. rewrite andb_false_r. cbn [andb app decode_runes].
    assert (a = 0) as -> by lia. assert (b = 0) as -> by lia. unfold cont. bits.
    rewrite (mask 6 32 c (192 + (4096 * 0 + 64 * 0 + c))), (mask 2 64 d (128 + d)) by lia. tests; f_equal; lia.
  - rewrite !andb_false_r. replace (r <? 0) with false by lia. replace (1114111 <? r) with false by lia.
    replace ((55296 <=? r) && (r <=? 57343)) with false by lia. cbn [orb app decode_runes].
    assert (a = 0) as -> by lia. unfold cont. bits.
    rewrite (mask 14 16 b (224 + (64 * 0 + b))), (mask 2 64 c (128 + c)), (mask 2 64 d (128 + d)) by lia. tests; f_equal; lia.
  - rewrite !andb_false_r. replace (r <? 0) with false by lia. replace (1114111 <? r) with false by lia.
    replace ((55296 <=? r) && (r <=? 57343)) with false by lia. cbn [orb app decode_runes].
    unfold cont. bits.
    rewrite (mask 30 8 a (240 + a)), (mask 2 64 b (128 + b)), (mask 2 64 c (128 + c)),
      (mask 2 64 d (128 + d)) by lia. tests; f_equal; lia.
Qed.

Lemma decode_encodes rs : Forall scalar rs -> decode_runes (flat_map encode_rune rs) = rs.
Proof. induction 1 as [|r rs S _ IH]; [done|]. cbn [flat_map]. by rewrite decode_encode_rune, IH. Qed.

(** Induction along the decoder: up to four bytes are consumed at a time. *)
Lemma bytes_ind (P : list Z -> Prop) :
  P [] -> (forall a l, (forall l', (length l' <= length l)%nat -> P l') -> P (a :: l)) ->
  forall l, P l.
Proof.
  intros H0 H1. assert (forall n l, (length l <= n)%nat -> P l) as G.
  { induction n as [|n IH]; intros [|a l] N; cbn in N; [done|lia|done|].
    apply H1. intros l' L. apply IH. lia. }
  intros l. by apply (G (length l)).
Qed.

(** What the decoder does with its first byte: it yields one rune and goes on
    behind at most three more bytes, which are continuation bytes. *)
Lemma decode_step a l : exists r rest k, decode_runes (a :: l) = r :: decode_runes rest /\
  rest = drop k l /\ (k <= 3)%nat /\ Forall (fun x => cont x = true) (take k l) /\
  (k <= length l)%nat /\
  (0 <= a < 256 -> scalar r) /\ (a < 128 -> r = a) /\ (k = 0%nat \/ 128 <= a).
Proof.
  cbn [decode_runes]. destruct (Z.ltb_spec a 128).
  { exists a, l, 0%nat. repeat split; try (done || lia); try apply Forall_nil_2; try (unfold scalar; lia). }
  assert (scalar RuneError) as SE by (unfold scalar, RuneError; lia).
  assert (forall l0, exists r rest k, RuneError :: decode_runes l0 = r :: decode_runes rest /\
    rest = drop k l0 /\ (k <= 3)%nat /\ Forall (fun x => cont x = true) (take k l0) /\
    (k <= length l0)%nat /\ (0 <= a < 256 -> scalar r) /\ (a < 128 -> r = a) /\
    (k = 0%nat \/ 128 <= a)) as Bad.
  { intros l0. exists RuneError, l0, 0%nat. repeat split; try (done || lia); try apply Forall_nil_2; try by left. }
  destruct l as [|b r2]; [apply (Bad [])|].
  destruct ((194 <=? a) && (a <=? 223) && cont b) eqn:T2.
  { apply andb_true_iff in T2 as [[A1%Z.leb_le A2%Z.leb_le]%andb_true_iff C].
    exists (Z.land a 31 * 64 + Z.land b 63), r2, 1%nat.
    pose proof C as C'. unfold cont in C'. apply andb_true_iff in C' as [C1%Z.leb_le C2%Z.leb_le].
    repeat split; try (done || lia); try (by apply Forall_singleton); try (cbn; lia).
    intros _. unfold scalar. bits. divmod. }
  destruct r2 as [|c r3]; [apply (Bad [b])|].
  destruct ((224 <=? a) && (a <=? 239) && cont b && cont c && _ && _) eqn:T3.
  { rewrite !andb_true_iff in T3. destruct T3 as [[[[[A1 A2] B] C] G1] G2].
    apply Z.leb_le in A1, A2. exists (Z.land a 15 * 4096 + Z.land b 63 * 64 + Z.land c 63), r3, 2%nat.
    pose proof B as B'. unfold cont in B'. apply andb_true_iff in B' as [B1%Z.leb_le B2%Z.leb_le].
    pose proof C as C'. unfold cont in C'. apply andb_true_iff in C' as [C1%Z.leb_le C2%Z.leb_le].
    repeat split; try (done || lia); try (by repeat (apply Forall_cons_2; [done|])); try (cbn; lia).
    intros _. unfold scalar. bits. rewrite (mask 14 16 (a - 224) a), (mask 2 64 (b - 128) b),
      (mask 2 64 (c - 128) c) by lia.
    destruct (Z.eqb_spec a 237); [apply Z.leb_le in G2|]; lia. }
  destruct r3 as [|d r4]; [apply (Bad [b; c])|].
  destruct ((240 <=? a) && (a <=? 244) && cont b && cont c && cont d && _ && _) eqn:T4;
    [|apply (Bad (b :: c :: d :: r4))].
  rewrite !andb_true_iff in T4. destruct T4 as [[[[[[A1 A2] B] C] D] G1] G2].
  apply Z.leb_le in A1, A2. unfold cont in *.
  exists (Z.land a 7 * 262144 + Z.land b 63 * 4096 + Z.land c 63 * 64 + Z.land d 63), r4, 3%nat.
  pose proof B as B'. apply andb_true_iff in B' as [B1%Z.leb_le B2%Z.leb_le].
  pose proof C as C'. apply andb_true_iff in C' as [C1%Z.leb_le C2%Z.leb_le].
  pose proof D as D'. apply andb_true_iff in D' as [D1%Z.leb_le D2%Z.leb_le].
  repeat split; try (done || lia); try (by repeat (apply Forall_cons_2; [done|])); try (cbn; lia).
  intros _. unfold scalar. bits. rewrite (mask 30 8 (a - 240) a), (mask 2 64 (b - 128) b),
    (mask 2 64 (c - 128) c), (mask 2 64 (d - 128) d) by lia.
  right. destruct (Z.eqb_spec a 240); [apply Z.leb_le in G1|];
    (destruct (Z.eqb_spec a 244); [apply Z.leb_le in G2|]); lia.
Qed.

Lemma decode_scalars l : byte_list l -> Forall scalar (decode_runes l).
Proof.
  induction l as [|a l IH] using bytes_ind; intros B; [constructor|].
  destruct (decode_step a l) as (r & rest & k & -> & -> & _ & _ & _ & S & _ & _).
  inversion_clear B as [|? ? B0 B']. apply Forall_cons_2; [by apply S|].
  apply IH; [rewrite length_drop; lia|by apply Forall_drop].
Qed.

(** A byte that is no continuation starts a rune, whatever stands before it. *)
Lemma decode_sync p a q : cont a = false -> exists rs, decode_runes (p ++ a :: q) =
  rs ++ decode_runes (a :: q).
Proof.
  intros N. induction p as [|x p IH] using bytes_ind; [by exists []|].
  cbn [app]. destruct (decode_step x (p ++ a :: q)) as (r & rest & k & -> & -> & _ & C & _).
  destruct (le_gt_dec k (length p)) as [L|L].
  - rewrite drop_app_le by done. destruct (IH (drop k p)) as [rs ->]; [rewrite length_drop; lia|].
    by exists (r :: rs).
  - exfalso. rewrite take_app_ge in C by lia. apply Forall_app in C as [_ C].
    destruct (k - length p)%nat eqn:E; [lia|]. cbn [take] in C. inversion_clear C. congruence.
Qed.

(** * Lower case *)

(** The code points of a run. *)
Definition points (cr : case_range) : list Z :=
  map (fun i => cr_first cr + cr_step cr * Z.of_nat i)
    (seq 0 (Z.to_nat ((cr_last cr - cr_first cr) / cr_step cr + 1))).

Lemma in_points r cr : 0 < cr_step cr -> in_case_range r cr = true -> r ∈ points cr.
Proof.
  intros P. unfold in_case_range. intros [[A%Z.leb_le B%Z.leb_le]%andb_true_iff C%Z.eqb_eq]%andb_true_iff.
  apply list_elem_of_fmap. exists (Z.to_nat ((r - cr_first cr) / cr_step cr)).
  pose proof (Z.div_pos (r - cr_first cr) (cr_step cr) ltac:(lia) P).
  pose proof (Z.div_mod (r - cr_first cr) (cr_step cr) ltac:(lia)).
  pose proof (Z.div_le_mono (r - cr_first cr) (cr_last cr - cr_first cr) (cr_step cr) P ltac:(lia)).
  split; [lia|]. apply elem_of_seq. lia.
Qed.

Definition scalarb (r : Z) : bool := ((0 <=? r) && (r <? 55296)) || ((57344 <=? r) && (r <=? 1114111)).

Lemma lower_points : forallb (fun cr => (0 <? cr_step cr) &&
  forallb (fun r => scalarb (map_case lower_table r) &&
                    (unicode_ToLower (map_case lower_table r) =? map_case lower_table r))
    (points cr)) lower_table = true.
Proof. vm_compute. reflexivity. Qed.

Lemma map_case_cases table r : map_case table r = r \/
  Exists (fun cr => in_case_range r cr = true) table.
Proof.
  induction table as [|cr table IH]; [by left|]. cbn. destruct (in_case_range r cr) eqn:E.
  - right. by left.
  - destruct IH as [->|IH]; [by left|right; by right].
Qed.

Lemma lower_spec r : scalar r ->
  scalar (unicode_ToLower r) /\ unicode_ToLower (unicode_ToLower r) = unicode_ToLower r.
Proof.
  intros S. unfold unicode_ToLower at 1 3 4. destruct (Z.ltb_spec r 128) as [L|L].
  - destruct ((65 <=? r) && (r <=? 90)) eqn:U.
    + apply andb_true_iff in U as [U1%Z.leb_le U2%Z.leb_le]. split; [unfold scalar; lia|].
      unfold unicode_ToLower. replace (r + 32 <? 128) with true by lia.
      by replace (r + 32 <=? 90) with false by lia; rewrite andb_false_r.
    + split; [done|]. unfold unicode_ToLower. replace (r <? 128) with true by lia. by rewrite U.
  - destruct (map_case_cases lower_table r) as [E|X].
    + rewrite E. split; [done|]. unfold unicode_ToLower. replace (r <? 128) with false by lia. done.
    + apply Exists_exists in X as (cr & I & R). pose proof lower_points as P.
      rewrite forallb_forall in P. specialize (P cr (proj1 (list_elem_of_In _ _) I)).
      apply andb_true_iff in P as [P0%Z.ltb_lt P]. rewrite forallb_forall in P.
      specialize (P r (proj1 (list_elem_of_In _ _) (in_points r cr P0 R))).
      apply andb_true_iff in P as [P1 P2%Z.eqb_eq]. split; [|done].
      unfold scalarb in P1. unfold scalar. lia.
Qed.

Lemma bytes_of_string_of l : byte_list l -> bytes_of_string (string_of_bytes l) = l.
Proof.
  induction 1 as [|b l B _ IH]; [done|]. cbn. by rewrite IH, byte_val_of.
Qed.

Lemma ascii_encode rs : Forall scalar rs ->
  forallb (fun b => b <? 128) (flat_map encode_rune rs) = true ->
  flat_map encode_rune rs = rs /\ Forall (fun r => r < 128) rs.
Proof.
  induction 1 as [|r rs S _ IH]; [by split|]. cbn [flat_map]. rewrite forallb_app.
  intros [A B]%andb_true_iff. destruct (IH B) as [-> F]. unfold encode_rune in *.
  unfold scalar in S. revert A. bits. groups r. tests; cbn; tests; try done.
  intros _. split; [done|]. apply Forall_cons_2; [lia|done].
Qed.

Definition ascii (l : list Z) : bool := forallb (fun b => b <? 128) l.

(** The bytes of a lower-cased string. *)
Definition lowered (bs : list Z) : list Z :=
  if ascii bs then map unicode_ToLower bs
  else flat_map encode_rune (map unicode_ToLower (decode_runes bs)).

Lemma lowered_bytes bs : byte_list bs -> byte_list (lowered bs).
Proof.
  intros B. unfold lowered. destruct (ascii bs) eqn:A.
  - unfold ascii in A. rewrite forallb_forall in A. unfold byte_list in *.
    rewrite Forall_forall in B |- *. intros x I. apply list_elem_of_fmap in I as (b & -> & I).
    specialize (B b I). specialize (A b (proj1 (list_elem_of_In _ _) I)). apply Z.ltb_lt in A.
    unfold unicode_ToLower. replace (b <? 128) with true by lia. destruct (_ && _) eqn:U; [|lia]. lia.
  - unfold byte_list. apply Forall_flat_map, Forall_forall. intros r _. apply encode_rune_bytes.
Qed.

Lemma lowered_lowered bs : byte_list bs -> lowered (lowered bs) = lowered bs.
Proof.
  intros B. unfold lowered at 2 3. destruct (ascii bs) eqn:A.
  - assert (Forall (fun b => scalar b /\ b < 128) bs) as S.
    { unfold ascii in A. rewrite forallb_forall in A. unfold byte_list in B.
      rewrite Forall_forall in B |- *. intros b I. specialize (B b I).
      specialize (A b (proj1 (list_elem_of_In _ _) I)). apply Z.ltb_lt in A. unfold scalar. lia. }
    unfold lowered. replace (ascii (map unicode_ToLower bs)) with true.
    + rewrite map_map. clear A B. induction S as [|b bs [S _] _ IH]; [done|]. cbn.
      by rewrite IH, (proj2 (lower_spec b S)).
    + symmetry. unfold ascii. apply forallb_forall. intros x I. apply in_map_iff in I as (b & <- & I).
      rewrite Forall_forall in S. destruct (S b (proj2 (list_elem_of_In _ _) I)) as [_ L].
      unfold unicode_ToLower. replace (b <? 128) with true by lia.
      destruct (_ && _) eqn:U; lia.
  - set (rs := map unicode_ToLower (decode_runes bs)).
    assert (Forall scalar rs /\ map unicode_ToLower rs = rs) as [S E].
    { unfold rs. rewrite map_map. pose proof (decode_scalars bs B) as D.
      induction D as [|r l S _ IH]; [by split|]. destruct IH as [IH1 IH2].
      destruct (lower_spec r S) as [L1 L2]. split; [by apply Forall_cons_2|].
      cbn. by rewrite L2, IH2. }
    unfold lowered. destruct (ascii (flat_map encode_rune rs)) eqn:A'.
    + destruct (ascii_encode rs S A') as [-> _]. done.
    + by rewrite decode_encodes, E.
Qed.

Lemma ToLower_lowered s : bytes_of_string (ToLower s) = lowered (bytes_of_string s).
Proof.
  assert (ToLower s = string_of_bytes (lowered (bytes_of_string s))) as ->
    by (unfold ToLower, lowered, ascii; by destruct (forallb _ _)).
  apply bytes_of_string_of, lowered_bytes, bytes_of_string_range.
Qed.

Lemma bytes_of_string_inj s t : bytes_of_string s = bytes_of_string t -> s = t.
Proof. intros E. rewrite <- (string_of_bytes_of s), <- (string_of_bytes_of t). by f_equal. Qed.

Lemma ToLower_ToLower s : ToLower (ToLower s) = ToLower s.
Proof.
  apply bytes_of_string_inj. rewrite !ToLower_lowered. apply lowered_lowered, bytes_of_string_range.
Qed.

(** * Spaces *)

Definition spaceless (s : string) : Prop := existsb unicode_IsSpace (runes s) = false.

(** The bytes the trimming functions recognize are the encoding of a space. *)
Lemma space1_rune a l : is_space1 a = true -> exists r rest,
  decode_runes (byte_val a :: l) = r :: rest /\ unicode_IsSpace r = true.
Proof.
  unfold is_space1. intros S. exists (byte_val a), (decode_runes l). cbn [decode_runes].
  replace (byte_val a <? 128) with true by lia. split; [done|]. unfold unicode_IsSpace. lia.
Qed.

Lemma space2_rune a b l : is_space2 a b = true -> exists r rest,
  decode_runes (byte_val a :: byte_val b :: l) = r :: rest /\ unicode_IsSpace r = true.
Proof.
  unfold is_space2. intros [A%Z.eqb_eq [B%Z.eqb_eq|B%Z.eqb_eq]%orb_true_iff]%andb_true_iff;
    rewrite A, B; eexists _, _; split; reflexivity.
Qed.

Lemma space3_rune a b c l : is_space3 a b c = true -> exists r rest,
  decode_runes (byte_val a :: byte_val b :: byte_val c :: l) = r :: rest /\ unicode_IsSpace r = true.
Proof.
  unfold is_space3. cbv zeta. rewrite !orb_true_iff.
  intros S. assert (exists x y, byte_val a = x /\ byte_val b = y) as (x & y & Ex & Ey) by eauto.
  set (z := byte_val c) in *. rewrite Ex, Ey in *.
  destruct S as [[[S|S]|S]|S]; rewrite !andb_true_iff, ?orb_true_iff in S; destruct S as [[E1 E2] E3];
    apply Z.eqb_eq in E1, E2; subst x y; try (apply Z.eqb_eq in E3; rewrite E3);
    try (eexists _, _; split; reflexivity).
  assert (128 <= z <= 191) as B by lia.
  eexists (Z.land 226 15 * 4096 + Z.land 128 63 * 64 + Z.land z 63), _.
  cbn [decode_runes Z.ltb Z.leb Z.eqb Z.compare Pos.compare Pos.compare_cont Pos.eqb andb].
  unfold cont. replace (128 <=? z) with true by lia. replace (z <=? 191) with true by lia.
  split; [reflexivity|]. change (Z.land 226 15) with 2. change (Z.land 128 63) with 0.
  bits. rewrite (mask 2 64 (z - 128) z) by lia. unfold unicode_IsSpace. lia.
Qed.

(** In front, and at the end. *)
Lemma spaceless_front l : existsb unicode_IsSpace (decode_runes l) = false ->
  (exists r rest, decode_runes l = r :: rest /\ unicode_IsSpace r = true) -> False.
Proof. intros E (r & rest & D & S). rewrite D in E. cbn in E. by rewrite S in E. Qed.

Lemma spaceless_back p a q : cont a = false ->
  existsb unicode_IsSpace (decode_runes (p ++ a :: q)) = false ->
  (exists r rest, decode_runes (a :: q) = r :: rest /\ unicode_IsSpace r = true) -> False.
Proof.
  intros C E X. destruct (decode_sync p a q C) as [rs D]. rewrite D, existsb_app in E.
  apply orb_false_iff in E as [_ E]. by eapply spaceless_front.
Qed.

Lemma TrimLeftSpace_spaceless s : spaceless s -> TrimLeftSpace s = s.
Proof.
  unfold spaceless, runes. intros E. destruct s as [|a s]; [done|]. cbn [TrimLeftSpace].
  destruct (is_space1 a) eqn:S1.
  { exfalso. eapply spaceless_front; [exact E|]. by apply space1_rune. }
  destruct s as [|b s]; [done|]. destruct (is_space2 a b) eqn:S2.
  { exfalso. eapply spaceless_front; [exact E|]. by apply space2_rune. }
  destruct s as [|c s]; [done|]. destruct (is_space3 a b c) eqn:S3; [|done].
  exfalso. eapply spaceless_front; [exact E|]. by apply space3_rune.
Qed.

Lemma bytes_of_string_app s t : bytes_of_string (s +:+ t) = bytes_of_string s ++ bytes_of_string t.
Proof.
  induction s as [|c s IH]; [done|]. change (String c s +:+ t) with (String c (s +:+ t)).
  cbn. by rewrite IH.
Qed.

Lemma srev_cons c s : srev (String c s) = srev s +:+ String c "".
Proof. unfold srev. cbn [srev_app]. apply srev_app_spec. Qed.

Lemma trim_right_spaceless t : spaceless (srev t) -> trim_right_rev t = t.
Proof.
  unfold spaceless, runes. intros E. destruct t as [|a t]; [done|]. cbn [trim_right_rev].
  rewrite srev_cons, bytes_of_string_app in E. cbn [bytes_of_string] in E.
  destruct (is_space1 a) eqn:S1.
  { exfalso. eapply spaceless_back; [|exact E|by apply space1_rune].
    unfold is_space1 in S1. unfold cont. lia. }
  destruct t as [|b t]; [done|]. rewrite srev_cons, bytes_of_string_app, <- app_assoc in E.
  cbn [bytes_of_string app] in E. destruct (is_space2 b a) eqn:S2.
  { exfalso. eapply spaceless_back; [|exact E|by apply space2_rune].
    unfold is_space2 in S2. unfold cont. lia. }
  destruct t as [|c t]; [done|]. rewrite srev_cons, bytes_of_string_app, <- app_assoc in E.
  cbn [bytes_of_string app] in E. destruct (is_space3 c b a) eqn:S3; [|done].
  exfalso. eapply spaceless_back; [|exact E|by apply space3_rune].
  unfold is_space3 in S3. unfold cont. lia.
Qed.

Lemma TrimSpace_spaceless s : spaceless s -> TrimSpace s = s.
Proof.
  intros S. unfold TrimSpace. rewrite TrimLeftSpace_spaceless by done.
  rewrite trim_right_spaceless by by rewrite srev_involutive. apply srev_involutive.
Qed.

(** * Normal names *)

(** A name as [normalizeUsername] returns it. *)
Definition normalName (u : string) : Prop := normalizeUsername u = inr u.

Lemma normalizeUsername_normal x u : normalizeUsername x = inr u -> normalName u.
Proof.
  unfold normalName, normalizeUsername. cbv zeta. set (y := ToLower (TrimSpace x)).
  destruct (y =s "") eqn:E1; [done|]. destruct (maxUsernameBytes <? slen y) eqn:E2; [done|].
  destruct (existsb _ (runes y)) eqn:E3; [done|]. intros [= <-].
  assert (spaceless y) as S.
  { unfold spaceless. destruct (existsb unicode_IsSpace (runes y)) eqn:X; [|done].
    apply existsb_exists in X as (r & I & X). rewrite <- E3. symmetry. apply existsb_exists.
    exists r. split; [done|]. by rewrite X. }
  rewrite TrimSpace_spaceless by done. unfold y at 1 2 3 4. rewrite ToLower_ToLower. fold y.
  by rewrite E1, E2, E3.
Qed.

Lemma normalName_nonempty u : normalName u -> u <> "".
Proof. intros N ->. vm_compute in N. done. Qed.

Lemma normalName_short u : normalName u -> slen u <= maxUsernameBytes.
Proof.
  unfold normalName, normalizeUsername. cbv zeta. destruct (_ =s ""); [done|].
  destruct (Z.ltb_spec maxUsernameBytes (slen (ToLower (TrimSpace u)))); [done|].
  destruct (existsb _ _); [done|]. by intros [= <-].
Qed.

(** * The specification: edits of the list of users *)

Definition names (l : list UserRecord) : list string := map user_Username l.

(** Accounts are added under new normal names while there is room, change their
    password or key while they are live, and are deleted unless they are the last
    live administrator; nothing else ever happens to the list. *)
Inductive edit (who : string) : list UserRecord -> list UserRecord -> Prop :=
  | edit_add l u : user_Username u = who -> normalName who -> who ∉ names l ->
      user_Disabled u = false -> llen l < maxUsers -> edit who l (l ++ [u])
  | edit_password before u after hash t : user_Username u = who -> user_Disabled u = false ->
      edit who (before ++ u :: after) (before ++ user_set_password hash t u :: after)
  | edit_key before u after id hash version cipher t :
      user_Username u = who -> user_Disabled u = false ->
      edit who (before ++ u :: after) (before ++ user_set_key id hash version cipher t u :: after)
  | edit_delete before u after t : user_Username u = who -> user_Disabled u = false ->
      (user_Role u = RoleAdmin -> admins (before ++ u :: after) <> 1) ->
      edit who (before ++ u :: after) (before ++ user_set_deleted t u :: after).

(** Any number of edits, each of some account. *)
Definition edits : list UserRecord -> list UserRecord -> Prop :=
  rtc (fun l l' => exists who, edit who l l').
Lemma edits_once who l l' : edit who l l' -> edits l l'.
Proof. intros E. apply rtc_once. by exists who. Qed.

(** ** Its invariants *)

Record sound (l : list UserRecord) : Prop := mkSound
  { sound_unique : NoDup (names l);
    sound_normal : Forall normalName (names l);
    sound_room : llen l <= maxUsers }.

(** What stays of a record: its place, name, role and date, and everything once it
    is deleted. *)
Definition descends (u u' : UserRecord) : Prop :=
  user_Username u' = user_Username u /\ user_Role u' = user_Role u /\
  user_CreatedAt u' = user_CreatedAt u /\ (user_Disabled u = true -> u' = u).
Definition persists (l l' : list UserRecord) : Prop :=
  forall i u, l !! i = Some u -> exists u', l' !! i = Some u' /\ descends u u'.

Lemma descends_refl u : descends u u.
Proof. by repeat split. Qed.

#[export] Instance persists_refl : Reflexive persists.
Proof. intros l i u E. exists u. split; [done|apply descends_refl]. Qed.
#[export] Instance persists_trans : Transitive persists.
Proof.
  intros l1 l2 l3 P Q i u E. destruct (P i u E) as (u2 & E2 & A1 & A2 & A3 & A4).
  destruct (Q i u2 E2) as (u3 & E3 & B1 & B2 & B3 & B4). exists u3. split; [done|].
  split; [congruence|]. split; [congruence|]. split; [congruence|].
  intros D. specialize (A4 D). subst u2. auto.
Qed.

Lemma persists_middle before u u' after : descends u u' ->
  persists (before ++ u :: after) (before ++ u' :: after).
Proof.
  intros D i x E. destruct (decide (i < length before)%nat) as [L|L].
  { rewrite lookup_app_l in E by done. exists x. rewrite lookup_app_l by done.
    split; [done|apply descends_refl]. }
  rewrite lookup_app_r in E by lia. rewrite lookup_app_r by lia.
  destruct (i - length before)%nat as [|j]; cbn in *.
  - injection E as <-. by exists u'.
  - exists x. split; [done|apply descends_refl].
Qed.

Definition isAdmin (u : UserRecord) : bool := (user_Role u =s RoleAdmin) && negb (user_Disabled u).

Lemma admins_app l1 l2 : admins (l1 ++ l2) = admins l1 + admins l2.
Proof.
  unfold admins, llen. rewrite List.filter_app, length_app. lia.
Qed.

Lemma admins_cons u l : admins (u :: l) = (if isAdmin u then 1 else 0) + admins l.
Proof.
  unfold admins, isAdmin, llen. cbn [List.filter].
  destruct (_ && _); cbn [length]; lia.
Qed.

Lemma admins_nonneg l : 0 <= admins l.
Proof. apply llen_nonneg. Qed.

(** An edit keeps the list sound, its records in place, and an administrator. *)
Lemma edit_facts who l l' : edit who l l' ->
  (sound l -> sound l') /\ persists l l' /\ (0 < admins l -> 0 < admins l').
Proof.
  assert (forall before u after u', user_Username u' = user_Username u ->
    names (before ++ u' :: after) = names (before ++ u :: after)) as Same.
  { intros before u after u' E. unfold names. rewrite !map_app. cbn. by rewrite E. }
  assert (forall before u after u', user_Username u' = user_Username u ->
    sound (before ++ u :: after) -> sound (before ++ u' :: after)) as S.
  { intros before u after u' E [U N R]. split; [by rewrite (Same _ _ _ _ E)..|].
    unfold llen in *. by rewrite length_app in *. }
  intros [l0 u <- N F D R|before u after hash t _ D|before u after id hash version cipher t _ D|
    before u after t _ D A].
  - split; [|split].
    + intros [U Nm Rm]. split; [| |unfold llen in *; rewrite length_app; cbn; lia];
        unfold names in *.
      * rewrite map_app. apply NoDup_app. split; [done|]. split; [|apply NoDup_singleton].
        cbn. intros x I ->%list_elem_of_singleton. done.
      * rewrite map_app. apply Forall_app. split; [done|]. by apply Forall_singleton.
    + intros i x E. exists x. split; [by apply lookup_app_l_Some|apply descends_refl].
    + rewrite admins_app, admins_cons. pose proof (admins_nonneg []). destruct (isAdmin u); lia.
  - split; [by apply S|]. split; [apply persists_middle; repeat split; cbn; congruence|].
    rewrite !admins_app, !admins_cons. done.
  - split; [by apply S|]. split; [apply persists_middle; repeat split; cbn; congruence|].
    rewrite !admins_app, !admins_cons. done.
  - split; [by apply S|]. split; [apply persists_middle; repeat split; cbn; congruence|].
    rewrite !admins_app, !admins_cons in *. unfold isAdmin in *. cbn. rewrite D in *.
    pose proof (admins_nonneg before). pose proof (admins_nonneg after).
    destruct (String.eqb_spec (user_Role u) RoleAdmin) as [E|]; cbn in *; [specialize (A E)|]; lia.
Qed.

Lemma edits_facts l l' : edits l l' ->
  (sound l -> sound l') /\ persists l l' /\ (0 < admins l -> 0 < admins l').
Proof.
  induction 1 as [|l1 l2 l3 [who E] _ (S & P & A)]; [done|].
  destruct (edit_facts _ _ _ E) as (S1 & P1 & A1). split; [auto|]. split; [by etrans|auto].
Qed.

(** * The refinement *)

Section refinement.
Context `{UsersJSON}.

Definition users (g : Gateway) : list UserRecord := us_users (g_users g).
Definition loaded (g : Gateway) : Prop := us_loaded (g_users g) = true.
Definition usersPath (g : Gateway) : string := us_path (g_users g).
Definition fileAt (path : string) (g : Gateway) : option HostFile := h_files (g_host g) !! path.

(** The file that [saveLocked] leaves. *)
Definition usersFile (data : string) : HostFile := mkHostFile true 384 (data +:+ newline).

(** One step of the accounts: nothing, or edits that are in the file as well. *)
Definition account_step (g g' : Gateway) : Prop :=
  loaded g' /\ usersPath g' = usersPath g /\
  ((users g' = users g /\ fileAt (usersPath g) g' = fileAt (usersPath g) g) \/
   edits (users g) (users g') /\ exists data, MarshalUsers (users g') = inr data /\
     fileAt (usersPath g) g' = Some (usersFile data)).

(** What leaves the accounts alone. *)
Definition sameAccounts (g g' : Gateway) : Prop :=
  us_loaded (g_users g') = us_loaded (g_users g) /\ usersPath g' = usersPath g /\
  users g' = users g /\ h_files (g_host g') = h_files (g_host g).

(** ** A judgement on methods, for any relation that keeps the accounts loaded *)

Class Steps (R : Gateway -> Gateway -> Prop) : Prop := {
  Steps_refl :: Reflexive R;
  Steps_trans :: Transitive R;
  Steps_same g g' : loaded g -> sameAccounts g g' -> R g g';
  Steps_loaded g g' : R g g' -> loaded g -> loaded g'
}.

(** From loaded users [l], [m] makes a step of [R]. *)
Definition from (R : Gateway -> Gateway -> Prop) (l : list UserRecord) {A} (m : M Gateway A) : Prop :=
  forall g, loaded g -> users g = l -> R g (final m g).
Definition obeys (R : Gateway -> Gateway -> Prop) {A} (m : M Gateway A) : Prop := forall l, from R l m.

Lemma onHost_same {A} (m : M Host A) g : steady m -> sameAccounts g (final (onHost m) g).
Proof.
  intros S. specialize (S (g_host g)) as (E & _). unfold final, onHost in *.
  destruct (m (g_host g)) as [r h]. by repeat split.
Qed.

(** Loading what is loaded. *)
Lemma load_run g : loaded g -> UserStore_loadLocked g = (inr (users g), g).
Proof.
  unfold loaded. intros L. unfold UserStore_loadLocked, mbind, M_bind, bind, gets. by rewrite L.
Qed.

Section judgement.
#[local] Set Default Proof Using "Type*".
Context {R : Gateway -> Gateway -> Prop} `{!Steps R}.

Lemma obeys_ret {A} (a : A) : obeys R (ret a).
Proof. by intros l g _ _. Qed.
Lemma obeys_throw {A} e : obeys R (A := A) (throw e).
Proof. by intros l g _ _. Qed.
Lemma obeys_fail_if b e : obeys R (fail_if b e).
Proof. intros l g _ _. by destruct b. Qed.
Lemma obeys_check e : obeys R (check e).
Proof. intros l g _ _. by destruct e. Qed.
Lemma obeys_fromResult {A} (r : error + A) : obeys R (fromResult r).
Proof. intros l g _ _. by destruct r. Qed.
Lemma obeys_gets {A} (f : Gateway -> A) : obeys R (gets f).
Proof. by intros l g _ _. Qed.

Lemma from_bind l {A B} (m : M Gateway A) (k : A -> M Gateway B) :
  from R l m -> (forall a, obeys R (k a)) -> from R l (m ≫= k).
Proof.
  intros Hm Hk g L E. specialize (Hm g L E). unfold final, mbind, M_bind, bind in *.
  destruct (m g) as [[e|a] g1] eqn:X; [done|]. etrans; [exact Hm|].
  apply (Hk a (users g1)); [|done]. by eapply Steps_loaded.
Qed.

Lemma from_obeys l {A} (m : M Gateway A) : obeys R m -> from R l m.
Proof. done. Qed.

Lemma obeys_bind {A B} (m : M Gateway A) (k : A -> M Gateway B) :
  obeys R m -> (forall a, obeys R (k a)) -> obeys R (m ≫= k).
Proof. intros Hm Hk l. by apply from_bind. Qed.

Lemma obeys_ret_bind {A B} (a : A) (k : A -> M Gateway B) : obeys R (k a) -> obeys R (ret a ≫= k).
Proof. done. Qed.

Lemma obeys_try {A} (m : M Gateway A) : obeys R m -> obeys R (try m).
Proof.
  intros Hm l g L E. specialize (Hm l g L E). unfold final, try in *. by destruct (m g).
Qed.

Lemma obeys_onHost {A} (m : M Host A) : steady m -> obeys R (onHost m).
Proof. intros S l g L _. apply Steps_same; [done|by apply onHost_same]. Qed.

Lemma from_host l {A B} (m : M Host A) (k : A -> M Gateway B) :
  steady m -> (forall a, from R l (k a)) -> from R l (onHost m ≫= k).
Proof.
  intros S Hk g L E. pose proof (onHost_same m g S) as Sa. unfold final, mbind, M_bind, bind in *.
  destruct (onHost m g) as [[e|a] g1]; cbn [snd] in Sa; [by apply Steps_same|].
  etrans; [by apply Steps_same|]. destruct Sa as (A1 & _ & A3 & _).
  apply (Hk a g1); [unfold loaded in *; congruence|congruence].
Qed.

Lemma from_fail_if l {B} b e (k : unit -> M Gateway B) :
  (b = false -> from R l (k tt)) -> from R l (fail_if b e ≫= k).
Proof. intros Hk. destruct b; [by intros g _ _|]. by apply Hk. Qed.

Lemma from_gets l {A B} (f : Gateway -> A) (k : A -> M Gateway B) :
  (forall a, from R l (k a)) -> from R l (gets f ≫= k).
Proof. intros Hk g L E. by apply (Hk (f g) g). Qed.

Lemma obeys_changing f : (forall s, us_loaded (f s) = us_loaded s /\ us_path (f s) = us_path s /\
  us_users (f s) = us_users s) -> obeys R (changing f).
Proof.
  intros Hf l g L _. apply Steps_same; [done|]. destruct (Hf (g_users g)) as (A & B & C).
  by repeat split.
Qed.

Lemma obeys_load {A} (k : list UserRecord -> M Gateway A) :
  (forall l, from R l (k l)) -> obeys R (UserStore_loadLocked ≫= k).
Proof.
  intros Hk l g L E. unfold final. rewrite (bind_run _ _ _ _ _ (load_run g L)). by apply Hk.
Qed.
End judgement.

(** Saving: the accounts and the file move together. *)
Lemma save_run l g : loaded g -> exists r g', UserStore_saveLocked l g = (r, g') /\
  ((exists e, r = inl e) /\ sameAccounts g g' \/
   loaded g' /\ usersPath g' = usersPath g /\ users g' = l /\
   us_keyCipher (g_users g') = us_keyCipher (g_users g) /\
   h_clock (g_host g') = h_clock (g_host g) /\
   exists data, MarshalUsers l = inr data /\
     h_files (g_host g') = <[usersPath g := usersFile data]> (h_files (g_host g))).
Proof.
  intros L. unfold UserStore_saveLocked. destruct (MarshalUsers l) as [e|data] eqn:E.
  { exists (inl e), g. split; [done|]. left. split; [eauto|done]. }
  cbn [fromResult]. rewrite (bind_run (ret data) _ g data g eq_refl).
  rewrite (bind_run (gets g_users) _ g (g_users g) g eq_refl).
  destruct (writePrivateFile_run (us_path (g_users g)) (data +:+ newline) (g_host g))
    as (c & err & h' & R & W).
  assert (onHost (writePrivateFile (us_path (g_users g)) (data +:+ newline)) g =
    (inr (c, err), g_set_host h' g)) as R' by (unfold onHost; by rewrite R).
  rewrite (bind_run _ _ _ _ _ R'). destruct c.
  - rewrite (bind_run (changing _) _ _ _ _ eq_refl).
    eexists (match err with Some e => inl e | None => inr tt end), _.
    split; [by destruct err|]. right. destruct W as (F & _ & C & _). repeat split; [exact C|].
    exists data. split; [done|]. exact F.
  - rewrite (bind_run (ret tt) _ _ _ _ eq_refl). destruct W as (Ne & F & _).
    destruct err as [e|]; [|done]. exists (inl e), (g_set_host h' g). split; [done|]. left.
    split; [eauto|]. by repeat split.
Qed.

#[export] Instance account_steps : Steps (rtc account_step).
Proof.
  split; [apply _..| |].
  - intros g g' L (A & B & C & D). apply rtc_once. split; [unfold loaded in *; congruence|].
    split; [done|]. left. split; [done|]. unfold fileAt. by rewrite D.
  - intros g g'. induction 1 as [|g1 g2 g3 S _ IH]; [done|]. intros _. apply IH, S.
Qed.

Lemma from_save l l' : edits l l' -> from (rtc account_step) l (UserStore_saveLocked l').
Proof.
  intros Ed g L E. destruct (save_run l' g L) as (r & g' & R & [[_ S]|(L' & P & U & _ & _ & D)]);
    unfold final; rewrite R; cbn [snd].
  - by apply Steps_same.
  - apply rtc_once. split; [done|]. split; [done|]. right. rewrite E, U. split; [done|].
    destruct D as (data & M & F). exists data. split; [done|]. unfold fileAt. by rewrite F, lookup_insert_eq.
Qed.

End refinement.

Create HintDb follows.
#[export] Hint Resolve obeys_ret obeys_throw obeys_fail_if obeys_check obeys_fromResult
  obeys_gets : follows.
#[export] Hint Extern 1 (Steps _) => apply _ : follows.

(** Compose the rules; what is left are the commits. *)
Ltac solve_follows :=
  repeat (intros; cbv zeta;
    lazymatch goal with
    | |- obeys _ (match ?x with _ => _ end) => destruct x
    | |- from _ _ (match ?x with _ => _ end) => destruct x
    | |- obeys _ (try _) => apply obeys_try
    | |- obeys _ (UserStore_loadLocked ≫= _) => apply obeys_load
    | |- obeys _ (onHost _) => apply obeys_onHost; solve [auto with steady]
    | |- obeys _ (mbind _ _) => first [solve [auto with follows] | apply obeys_bind]
    | |- obeys _ _ => solve [auto with follows]
    | |- from _ _ (onHost _ ≫= _) => apply from_host; [solve [auto with steady]|]
    | |- from _ _ (gets _ ≫= _) => apply from_gets
    | |- from _ _ (mbind _ _) =>
        first [solve [apply from_obeys; auto with follows] | apply from_bind]
    | |- from _ _ _ =>
        first [solve [auto with follows] | solve [apply from_obeys; auto with follows]]
    end); intros; cbv zeta.

(** An operation of the host whose answers are in [P]. *)
Definition answersIn {A} (P : A -> Prop) (m : M Host A) : Prop :=
  forall h a h', m h = (inr a, h') -> P a.

Lemma answersIn_try {A} (P : A -> Prop) (m : M Host A) : answersIn P m ->
  answersIn (fun r => match r with inr a => P a | inl _ => True end) (try m).
Proof. intros Hm h [e|a] h' R%answer_try; [done|]. by eapply Hm. Qed.

Section hosts.
#[local] Set Default Proof Using "Type*".
Context `{UsersJSON} {R : Gateway -> Gateway -> Prop} `{!Steps R}.

Lemma try_onHost {A} (m : M Host A) g : try (onHost m) g = onHost (try m) g.
Proof. unfold try, onHost. by destruct (m (g_host g)). Qed.

Lemma from_host_in l {A B} (P : A -> Prop) (m : M Host A) (k : A -> M Gateway B) :
  steady m -> answersIn P m -> (forall a, P a -> from R l (k a)) -> from R l (onHost m ≫= k).
Proof.
  intros S Pm Hk g L E. pose proof (onHost_same m g S) as Sa. unfold final, mbind, M_bind, bind in *.
  unfold onHost in *. specialize (Pm (g_host g)). destruct (m (g_host g)) as [[e|a] h1]; cbn [snd] in Sa.
  { by apply Steps_same. }
  etrans; [by apply Steps_same|]. destruct Sa as (A1 & _ & A3 & _).
  apply (Hk a (Pm _ _ eq_refl)); [unfold loaded in *; congruence|congruence].
Qed.

Lemma obeys_try_host_in {A B} (P : A -> Prop) (m : M Host A) (k : error + A -> M Gateway B) :
  steady m -> answersIn P m -> (forall e, obeys R (k (inl e))) ->
  (forall a, P a -> obeys R (k (inr a))) -> obeys R (try (onHost m) ≫= k).
Proof.
  intros S Pm Hl Hr l g L E. unfold final, mbind, M_bind, bind. rewrite try_onHost.
  eapply (from_host_in l _ (try m) k); [by apply steady_try|by apply answersIn_try| |done..].
  intros [e|a] Pa; [apply Hl|by apply Hr].
Qed.
End hosts.

(** * The methods, for any relation that the other goroutines keep *)

Lemma steady_encodePasswordHash p : steady (encodePasswordHash p).
Proof. unfold encodePasswordHash. solve_steady. Qed.
#[export] Hint Resolve steady_encodePasswordHash : steady.
Lemma steady_hashPassword p : steady (hashPassword p).
Proof. unfold hashPassword, check. solve_steady. Qed.
Lemma steady_hashForMigration p : steady (hashPasswordForMigration p).
Proof. unfold hashPasswordForMigration. solve_steady. Qed.
#[export] Hint Resolve steady_hashPassword steady_hashForMigration : steady.
Lemma steady_newUserRecord u p r : steady (newUserRecord u p r).
Proof. unfold newUserRecord, check. solve_steady. Qed.
Lemma steady_assign `{AEAD} c u v : steady (assign c u v).
Proof. unfold assign. solve_steady. Qed.
#[export] Hint Resolve steady_newUserRecord steady_assign : steady.

Section records.
Context `{AEAD}.

(** A record that [newUserRecord] made. *)
Definition madeFrom (username password role : string) (u : UserRecord) : Prop :=
  normalizeUsername username = inr (user_Username u) /\ user_Role u = normalizeRole role /\
  user_Disabled u = false /\ validatePassword password = None /\
  exists salt, byte_list salt /\ llen salt = passwordSaltBytes /\
    user_PasswordHash u = passwordHashOf salt password.

Lemma newUserRecord_made username password role :
  answersIn (madeFrom username password role) (newUserRecord username password role).
Proof.
  intros h u h' R. unfold newUserRecord in R.
  apply answer_bind in R as (name & h1 & N & R). destruct (normalizeUsername username) eqn:E; [done|].
  injection N as <- _. apply answer_bind in R as ([] & h2 & V & R).
  destruct (validatePassword password) eqn:Ev; [done|].
  apply answer_bind in R as (hash & h3 & G & R). apply answer_bind in R as (now & h4 & _ & R).
  injection R as <- _. unfold hashPassword in G. apply answer_bind in G as ([] & h5 & _ & G).
  apply encodePasswordHash_run in G as (_ & salt & B & L & ->).
  repeat (split; [done|]). by exists salt.
Qed.

(** A record to which [assign] gave a key: what it encrypted is the secret whose
    hash it keeps. *)
Definition assigned (c : option (list Z)) (version : Z) (u u' : UserRecord) : Prop :=
  exists master id t nonce secret, c = Some master /\ byte_list nonce /\ llen nonce = Z.of_nat NonceSize /\
    id <> "" /\
    let hash := HexEncode (Sum256 (bytes_of_string secret)) in
    u' = user_set_key id hash version (EncodeToString RawStdEncoding (string_of_bytes
           (nonce ++ Seal master nonce (bytes_of_string secret)
              (fixedKeyAAD (user_set_key id hash version (user_KeyCipher u) t u))))) t u.

Lemma assign_assigned c u version : answersIn (assigned c version u) (assign c u version).
Proof.
  intros h u' h' R. destruct c as [master|]; [|done]. unfold assign in R.
  apply answer_bind in R as (bytes & h1 & D & R). apply answer_bind in R as (ids & h2 & I & R).
  cbv zeta in R. apply answer_bind in R as (now & h3 & _ & R).
  apply answer_bind in R as (nonce & h4 & N & R). injection R as <- _.
  apply rand_Read_bytes in N as [B L].
  exists master, ("uk_" +:+ HexEncode ids), now, nonce, ("gk_" +:+ HexEncode bytes). done.
Qed.

End records.

Section methods.
Context `{UsersJSON} `{AEAD} `{Elsewhere}.
(** Other goroutines make steps of [R], and so does saving a list that [P] allows. *)
Context {R : Gateway -> Gateway -> Prop} `{!Steps R} {P : list UserRecord -> list UserRecord -> Prop}.
Hypothesis obeys_elsewhere : obeys R elsewhere.
Hypothesis from_saving : forall l l', P l l' -> from R l (UserStore_saveLocked l').

(** [P] allows the edits of an account, and new accounts. *)
Definition allows (who : string) : Prop := forall l l', edit who l l' -> P l l'.
Definition allowsNew : Prop := forall l u, normalName (user_Username u) ->
  user_Username u ∉ names l -> user_Disabled u = false -> llen l < maxUsers -> P l (l ++ [u]).

Lemma obeys_ctx_Err : obeys R ctx_Err.
Proof using Steps0. intros l g L _. apply Steps_same; [done|by repeat split]. Qed.
Lemma obeys_set_work w q : obeys R (changing (us_set_work w q)).
Proof using Steps0. by apply obeys_changing. Qed.
Lemma obeys_releasePasswordWork : obeys R releasePasswordWork.
Proof using Steps0. by apply obeys_changing. Qed.
Lemma obeys_leavePasswordQueue : obeys R leavePasswordQueue.
Proof using Steps0. by apply obeys_changing. Qed.
Hint Resolve obeys_elsewhere obeys_ctx_Err obeys_set_work obeys_releasePasswordWork
  obeys_leavePasswordQueue : follows.

Lemma obeys_tryAcquire : obeys R tryAcquirePasswordWork.
Proof using Steps0. unfold tryAcquirePasswordWork. solve_follows. Qed.
Hint Resolve obeys_tryAcquire : follows.
Lemma obeys_acquire wait : obeys R (acquirePasswordWork wait).
Proof using Steps0 obeys_elsewhere. unfold acquirePasswordWork. solve_follows. Qed.
Lemma obeys_releaseAcquired wait : obeys R (releaseAcquired wait).
Proof using Steps0. unfold releaseAcquired. solve_follows. Qed.
Hint Resolve obeys_acquire obeys_releaseAcquired : follows.

(** ** The commits *)

Lemma live_facts name u : live name u = true -> user_Username u = name /\ user_Disabled u = false.
Proof. by intros [E%String.eqb_eq D%negb_true_iff]%andb_true_iff. Qed.

Lemma from_commitLogin name before candidate hash rest : allows name ->
  from R (before ++ rest) (commitLogin before name candidate hash rest).
Proof using Steps0 from_saving.
  intros A. revert before. induction rest as [|u rest IH]; intros before; cbn [commitLogin].
  - apply from_obeys, obeys_throw.
  - destruct (live name u) eqn:L; cbn [negb].
    + apply live_facts in L as [N D]. solve_follows. by apply from_saving, A, edit_password.
    + specialize (IH (before ++ [u])). by rewrite <- app_assoc in IH.
Qed.

Lemma from_commitPassword name before candidate hash rest : allows name ->
  from R (before ++ rest) (commitPassword before name candidate hash rest).
Proof using Steps0 from_saving.
  intros A. revert before. induction rest as [|u rest IH]; intros before; cbn [commitPassword].
  - apply from_obeys, obeys_throw.
  - destruct (live name u) eqn:L; cbn [negb].
    + apply live_facts in L as [N D]. solve_follows. by apply from_saving, A, edit_password.
    + specialize (IH (before ++ [u])). by rewrite <- app_assoc in IH.
Qed.

Lemma from_deleteLoop name all before rest : allows name -> all = before ++ rest ->
  from R all (deleteLoop all before name rest).
Proof using Steps0 from_saving.
  intros A. revert before. induction rest as [|u rest IH]; intros before E; cbn [deleteLoop].
  - apply from_obeys, obeys_throw.
  - destruct (String.eqb_spec (user_Username u) name) as [N|N]; cbn [negb].
    2: { apply IH. by rewrite <- app_assoc. }
    destruct (user_Disabled u) eqn:D; [apply from_obeys, obeys_throw|].
    destruct ((user_Role u =s RoleAdmin) && _) eqn:Ad; [apply from_obeys, obeys_throw|].
    solve_follows. apply from_saving, A. rewrite E. apply edit_delete; [done|done|].
    intros Ro. rewrite Ro in Ad. cbn in Ad. apply Z.eqb_neq in Ad. by rewrite E in Ad.
Qed.

Lemma from_regenerateLoop name before rest : allows name ->
  from R (before ++ rest) (regenerateLoop before name rest).
Proof using Steps0 from_saving.
  intros A. revert before. induction rest as [|u rest IH]; intros before; cbn [regenerateLoop].
  - apply from_obeys, obeys_throw.
  - destruct (live name u) eqn:L; cbn [negb].
    + apply live_facts in L as [N D]. cbv zeta. apply from_gets. intros s.
      eapply from_host_in; [apply steady_assign|apply assign_assigned|].
      intros u' (master & id & t & nonce & secret & _ & _ & _ & _ & ->).
      apply from_bind; [|intros; solve_follows]. by apply from_saving, A, edit_key.
    + specialize (IH (before ++ [u])). by rewrite <- app_assoc in IH.
Qed.

Lemma obeys_commitCreate u : allowsNew -> normalName (user_Username u) -> user_Disabled u = false ->
  obeys R (commitCreate u).
Proof using Steps0 from_saving.
  intros A N D. unfold commitCreate. apply obeys_load. intros l.
  apply from_fail_if. intros X. apply from_fail_if. intros Room%Z.leb_gt.
  apply from_bind; [|intros; apply obeys_ret].
  apply from_saving, A; [done| |done|done].
  unfold names. intros (x & I & J)%list_elem_of_fmap.
  enough (existsb (fun v => user_Username v =s user_Username u) l = true) by congruence.
  apply existsb_exists. exists x. split; [by apply list_elem_of_In|]. by apply String.eqb_eq.
Qed.

(** ** The methods *)

(** The edits of a method are those of the name it is given. *)
Definition allowsNamed (username : string) : Prop :=
  forall name, normalizeUsername username = inr name -> allows name.

Lemma obeys_named username {A} (k : string -> M Gateway A) :
  (forall name, normalizeUsername username = inr name -> obeys R (k name)) ->
  obeys R (fromResult (normalizeUsername username) ≫= k).
Proof using Steps0.
  intros Hk. destruct (normalizeUsername username) as [e|name]; [apply obeys_throw|].
  by apply obeys_ret_bind, Hk.
Qed.

Lemma obeys_authenticate username password wait : allowsNamed username ->
  obeys R (authenticate username password wait).
Proof using Steps0 obeys_elsewhere from_saving.
  intros A. unfold authenticate. apply obeys_named. intros name N.
  apply obeys_load. intros l. cbv zeta. generalize (candidateFor name l). intros u.
  generalize (verifyPasswordHash (user_PasswordHash u) password). intros b.
  solve_follows. apply (from_commitLogin _ []). by apply A.
Qed.

Lemma obeys_Create username password role : allowsNew -> obeys R (UserStore_Create username password role).
Proof using Steps0 obeys_elsewhere from_saving.
  intros A. unfold UserStore_Create.
  apply obeys_bind; [apply obeys_tryAcquire|]. intros ok.
  apply obeys_bind; [apply obeys_fail_if|]. intros _.
  eapply obeys_try_host_in; [apply steady_newUserRecord|apply newUserRecord_made| |].
  { intros e. solve_follows. }
  intros u (Nm%normalizeUsername_normal & _ & D & _).
  do 2 (apply obeys_bind; [solve_follows|intros _]). apply obeys_ret_bind.
  apply obeys_bind; [apply obeys_gets|]. intros s.
  destruct (us_keyCipher s) as [c|].
  - intros l. eapply from_host_in; [apply steady_assign|apply assign_assigned|].
    intros u' (m & id & t & nonce & secret & _ & _ & _ & _ & ->). apply from_obeys.
    apply obeys_bind; [solve_follows|]. intros _. by apply obeys_commitCreate.
  - apply obeys_ret_bind. apply obeys_bind; [solve_follows|]. intros _.
    by apply obeys_commitCreate.
Qed.

Lemma obeys_ChangePassword username current new : allowsNamed username ->
  obeys R (ChangePassword username current new).
Proof using Steps0 obeys_elsewhere from_saving.
  intros A. unfold ChangePassword. apply obeys_named. intros name N.
  do 2 (apply obeys_bind; [solve_follows|intros]).
  apply obeys_load. intros l. cbv zeta.
  generalize (default noUser (List.find (live name) l)). intros u.
  generalize (verifyPasswordHash (user_PasswordHash u) current). intros b.
  solve_follows. apply (from_commitPassword _ []). by apply A.
Qed.

Lemma obeys_Delete username : allowsNamed username -> obeys R (UserStore_Delete username).
Proof using Steps0 from_saving.
  intros A. unfold UserStore_Delete. apply obeys_named. intros name N. apply obeys_load. intros l.
  apply from_deleteLoop; [by apply A|done].
Qed.
Lemma obeys_Regenerate username : allowsNamed username -> obeys R (RegenerateFixedKey username).
Proof using Steps0 from_saving.
  intros A. unfold RegenerateFixedKey. apply obeys_named. intros name N. apply obeys_load. intros l.
  apply (from_regenerateLoop _ []). by apply A.
Qed.

Lemma obeys_List : obeys R UserStore_List.
Proof using Steps0. unfold UserStore_List. solve_follows. Qed.
Lemma obeys_FixedKeys : obeys R FixedKeys.
Proof using Steps0. unfold FixedKeys. solve_follows. Qed.
Lemma obeys_FixedKeyVerifiers : obeys R FixedKeyVerifiers.
Proof using Steps0. unfold FixedKeyVerifiers. solve_follows. Qed.
Lemma obeys_Get username : obeys R (UserStore_Get username).
Proof using Steps0. unfold UserStore_Get. solve_follows. Qed.
Lemma obeys_Reveal username : obeys R (RevealFixedKey username).
Proof using Steps0. unfold RevealFixedKey. solve_follows. Qed.
Lemma obeys_KeyForUser username : obeys R (FixedKeyForUser username).
Proof using Steps0.
  unfold FixedKeyForUser. cbv zeta. apply obeys_bind; [apply obeys_FixedKeyVerifiers|]. solve_follows.
Qed.

End methods.

(** * Every method is a sequence of steps of the accounts *)

Section startup.
Context `{UsersJSON} `{AEAD}.

(** The keys that are missing are assigned one by one. *)
Lemma initializeKeys_edits master l : forall before,
  answersIn (fun r => edits (before ++ l) (before ++ fst r)) (initializeKeys master l).
Proof.
  assert (forall before (u : UserRecord) l, before ++ u :: l = (before ++ [u]) ++ l) as A
    by (intros; by rewrite <- app_assoc).
  induction l as [|u l IH]; intros before h r h' R; cbn [initializeKeys] in R.
  { injection R as <- _. unfold edits. apply rtc_refl. }
  destruct (user_Disabled u) eqn:D; [|destruct (user_KeyID u =s "")].
  - apply answer_bind in R as ([l' c] & h1 & R1 & R). injection R as <- _. cbn [fst].
    rewrite (A before u l), (A before u l'). by apply (IH _ _ _ _ R1).
  - apply answer_bind in R as (u' & h1 & R1 & R). apply answer_bind in R as ([l' c] & h2 & R2 & R).
    injection R as <- _. cbn [fst].
    apply assign_assigned in R1 as (m & id & t & nonce & secret & _ & _ & _ & _ & ->).
    etrans; [by eapply edits_once, edit_key|]. rewrite (A before _ l), (A before _ l'). apply (IH _ _ _ _ R2).
  - destruct (reveal (Some master) u); [done|].
    apply answer_bind in R as ([l' c] & h1 & R1 & R). injection R as <- _. cbn [fst].
    rewrite (A before u l), (A before u l'). by apply (IH _ _ _ _ R1).
Qed.

Lemma steady_initializeKeys master l : steady (initializeKeys master l).
Proof. induction l; cbn [initializeKeys]; solve_steady. Qed.

Lemma obeys_Bootstrap username password : obeys (rtc account_step) (BootstrapAdmin username password).
Proof.
  unfold BootstrapAdmin. apply obeys_load. intros l.
  destruct (Z.ltb_spec 0 (llen l)) as [|N]; [apply from_obeys, obeys_ret|].
  eapply from_host_in; [apply steady_newUserRecord|apply newUserRecord_made|].
  intros u (Nm%normalizeUsername_normal & _ & D & _).
  destruct l as [|v l]; [|unfold llen in N; cbn in N; lia].
  eapply from_save, edits_once, (edit_add _ []); [done|done|apply not_elem_of_nil|done|done].
Qed.

Lemma obeys_InitializeKeys master : obeys (rtc account_step) (InitializeFixedKeys master).
Proof.
  unfold InitializeFixedKeys. apply obeys_bind; [apply obeys_fromResult|]. intros c.
  apply obeys_load. intros l.
  eapply from_host_in; [apply steady_initializeKeys|apply (initializeKeys_edits c l [])|].
  intros [l' changed] Ed. cbn [fst app] in Ed. apply from_bind.
  - destruct changed; [by apply from_save|apply from_obeys, obeys_ret].
  - intros _. by apply obeys_changing.
Qed.
End startup.

(** ** Calls *)

Inductive call : Type :=
  | callBootstrapAdmin (username password : string)
  | callList
  | callGet (username : string)
  | callAuthenticate (username password : string) (wait : bool)
  | callCreate (username password role : string)
  | callDelete (username : string)
  | callChangePassword (username current new : string)
  | callInitializeFixedKeys (master : list Z)
  | callFixedKeys
  | callFixedKeyVerifiers
  | callRevealFixedKey (username : string)
  | callRegenerateFixedKey (username : string)
  | callFixedKeyForUser (username : string).

Section calls.
#[local] Set Default Proof Using "Type*".
Context `{UsersJSON} `{AEAD} `{Elsewhere}.

(** The state in which a call leaves the gateway. *)
Definition after (g : Gateway) (c : call) : Gateway :=
  match c with
  | callBootstrapAdmin username password => final (BootstrapAdmin username password) g
  | callList => final UserStore_List g
  | callGet username => final (UserStore_Get username) g
  | callAuthenticate username password wait => final (authenticate username password wait) g
  | callCreate username password role => final (UserStore_Create username password role) g
  | callDelete username => final (UserStore_Delete username) g
  | callChangePassword username current new => final (ChangePassword username current new) g
  | callInitializeFixedKeys master => final (InitializeFixedKeys master) g
  | callFixedKeys => final FixedKeys g
  | callFixedKeyVerifiers => final FixedKeyVerifiers g
  | callRevealFixedKey username => final (RevealFixedKey username) g
  | callRegenerateFixedKey username => final (RegenerateFixedKey username) g
  | callFixedKeyForUser username => final (FixedKeyForUser username) g
  end.

(** What the goroutines may rely on of each other. *)
Definition orderly : Prop := forall n g, loaded g -> rtc account_step g (others n g).

Lemma orderly_elsewhere : orderly -> obeys (rtc account_step) elsewhere.
Proof.
  intros O l g L E. etrans; [by apply (O (g_turns g))|].
  apply Steps_same; [|by repeat split]. by eapply Steps_loaded; [apply O|].
Qed.

Lemma call_steps c g : orderly -> loaded g -> rtc account_step g (after g c).
Proof.
  intros O%orderly_elsewhere L. pose proof from_save as Sv.
  assert (forall who, allows (P := edits) who) as A by (intros who l l'; apply edits_once).
  assert (allowsNew (P := edits)) as New by (intros l u N F D R; by eapply edits_once, edit_add).
  assert (forall A (m : M Gateway A), obeys (rtc account_step) m -> rtc account_step g (final m g)) as F
    by (intros B m Fm; by apply (Fm (users g))).
  destruct c; cbn [after]; apply F.
  - apply obeys_Bootstrap.
  - apply obeys_List.
  - apply obeys_Get.
  - eapply obeys_authenticate; [done|exact Sv|intros ? _; apply A].
  - by eapply obeys_Create.
  - eapply obeys_Delete; [exact Sv|intros ? _; apply A].
  - eapply obeys_ChangePassword; [done|exact Sv|intros ? _; apply A].
  - apply obeys_InitializeKeys.
  - apply obeys_FixedKeys.
  - apply obeys_FixedKeyVerifiers.
  - apply obeys_Reveal.
  - eapply obeys_Regenerate; [exact Sv|intros ? _; apply A].
  - apply obeys_KeyForUser.
Qed.

Lemma calls_steps cs : forall g, orderly -> loaded g -> rtc account_step g (foldl after g cs).
Proof.
  induction cs as [|c cs IH]; intros g O L; cbn [foldl]; [apply rtc_refl|].
  pose proof (call_steps c g O L) as S. etrans; [exact S|]. apply IH; [done|].
  by eapply Steps_loaded.
Qed.

(** The file holds the accounts. *)
Definition saved (g : Gateway) : Prop :=
  exists data, MarshalUsers (users g) = inr data /\ fileAt (usersPath g) g = Some (usersFile data).

Lemma steps_facts g g' : rtc account_step g g' -> edits (users g) (users g') /\
  usersPath g' = usersPath g /\ (saved g -> saved g').
Proof.
  induction 1 as [|g1 g2 g3 (_ & P & S) _ (E & Q & K)]; [by split|].
  split; [|split; [congruence|]].
  - destruct S as [[U _]|[Ed _]]; [by rewrite <- U|by etrans].
  - intros Sv. apply K. unfold saved in *. rewrite P.
    destruct S as [[U F]|[_ S]]; [by rewrite U, F|done].
Qed.

End calls.
