(* ===== verification/WebAccounts.v ===== *)
(** What the accounts of the gateway promise: the methods of the user store refine
    the edits of the list, the list stays sound, a restart finds it again, a login
    proves the password of the account as it then is, and a fixed key is the one
    that was made last. *)

From S2P Require Import GoConv StoreCodec.
From S2P Require Export WebUsersFacts.

(** * Interfaces *)

(** encoding/json keeps records whose texts are valid UTF-8, and an array is not
    blank. *)
Definition storable (u : UserRecord) : Prop :=
  Forall (fun s => ValidString s = true)
    [user_Username u; user_Role u; user_PasswordHash u; user_KeyID u; user_KeyHash u; user_KeyCipher u].
Class UsersLaws (J : UsersJSON) : Prop := {
  users_roundtrip l data : Forall storable l -> MarshalUsers l = inr data ->
    UnmarshalUsers (data +:+ newline) = inr l;
  users_printed l data : MarshalUsers l = inr data -> TrimSpace (data +:+ newline) <> ""
}.

(** AES-GCM opens what it sealed, and nothing is lost or empty. *)
Class AEADLaws (J : AEAD) : Prop := {
  open_sealed master nonce text aad : byte_list text ->
    OpenSealed master nonce (Seal master nonce text aad) aad = Some text;
  sealed_bytes master nonce text aad : byte_list text -> byte_list (Seal master nonce text aad) /\
    Seal master nonce text aad <> []
}.

(** ** Instances *)

Definition userCells (u : UserRecord) : list cell :=
  [CS (user_Username u); CS (user_Role u); CS (user_PasswordHash u); CS (user_KeyID u);
   CS (user_KeyHash u); CZ (user_KeyVersion u); CS (user_KeyCipher u); CZ (user_KeyCreatedAt u);
   CZ (user_CreatedAt u); CZ (user_UpdatedAt u); CB (user_Disabled u)].
Definition cellsUser (l : list cell) : option UserRecord :=
  match l with
  | [CS a; CS b; CS c; CS d; CS e; CZ f; CS g; CZ h; CZ i; CZ j; CB k] =>
      Some (mkUserRecord a b c d e f g h i j k)
  | _ => None
  end.

#[export] Instance sample_users : UsersJSON := {
  MarshalUsers l := inr (StoreCodec.digits (encode (userCells <$> l)));
  UnmarshalUsers data :=
    match undigits data ≫= (fun p => decode p ≫= mapM cellsUser) with
    | Some l => inr l
    | None => inl (ErrorString "unreadable users")
    end
}.

Lemma mapM_userCells l : mapM cellsUser (userCells <$> l) = Some l.
Proof. induction l as [|[] l IH]; cbn; [done|]. by rewrite IH. Qed.

#[export] Instance sample_users_laws : UsersLaws sample_users.
Proof.
  split; cbn [MarshalUsers UnmarshalUsers sample_users].
  - intros l data _ [= <-]. rewrite undigits_digits by done. cbn [mbind option_bind].
    rewrite countable.decode_encode. cbn [mbind option_bind]. by rewrite mapM_userCells.
  - intros l data [= <-]. rewrite TrimSpace_line; [by destruct (encode _)| |by destruct (encode _)].
    induction (encode (userCells <$> l)); cbn; done.
Qed.

(** A cipher that only authenticates. *)
Definition tagOf (master nonce text aad : list Z) : list Z := Sum256 (master ++ nonce ++ text ++ aad).
#[export] Instance sample_aead : AEAD := {
  Seal master nonce text aad := text ++ tagOf master nonce text aad;
  OpenSealed master nonce sealed aad :=
    let text := take (length sealed - 32) sealed in
    if decide (drop (length sealed - 32) sealed = tagOf master nonce text aad) then Some text else None
}.

#[export] Instance sample_aead_laws : AEADLaws sample_aead.
Proof.
  split; cbn [Seal OpenSealed sample_aead]; unfold tagOf; intros master nonce text aad B.
  - cbv zeta. rewrite length_app, length_Sum256.
    replace (length text + 32 - 32)%nat with (length text) by lia.
    by rewrite take_app_length, drop_app_length, decide_True.
  - split; [apply Forall_app; split; [done|apply Sum256_bytes]|].
    intros E%(f_equal length). rewrite length_app, length_Sum256 in E. cbn in E. lia.
Qed.

(** * The accounts *)

Section accounts.
Context `{UsersJSON} `{AEAD} `{Elsewhere}.

(** C22. The accounts refine their specification.  Whatever methods of the user store
    are called, with whatever arguments, while other goroutines do the same and
    whether or not calls of the host fail, from a loaded store the accounts only
    move by [edit]s: a new account under a new normal name while there is room, a
    new password or key for a live account, the deletion of a live account that is
    not the last administrator.  With each move the file holds the new list. *)
Theorem accounts_refine_edits cs g : orderly -> loaded g ->
  rtc account_step g (foldl after g cs).
Proof. apply calls_steps. Qed.

(** C23. The accounts stay sound.  Names stay unique and normal and at most 256; no
    record is lost, moved or renamed, changes its role, or changes at all once it is
    deleted, so that the name of a deleted account is never given away again; and
    where there is a live administrator there always is one. *)
Theorem accounts_stay_sound cs g : orderly -> loaded g -> sound (users g) ->
  let g' := foldl after g cs in
  sound (users g') /\ persists (users g) (users g') /\
  (0 < admins (users g) -> 0 < admins (users g')).
Proof.
  intros O L S. pose proof (calls_steps cs g O L) as (E & _)%steps_facts.
  apply edits_facts in E as (S' & P & A). auto.
Qed.

(** The gateway started anew on the same host. *)
Definition restarted (g : Gateway) : Gateway :=
  mkGateway (g_host g) (NewUserStore (usersPath g)) ∅ ∅ 0 0 false 0 0.

Lemma load_from_file l data g : us_loaded (g_users g) = false ->
  fileAt (usersPath g) g = Some (usersFile data) -> dependable (g_host g) ->
  slen data < maxUsersFileBytes -> TrimSpace (data +:+ newline) <> "" ->
  UnmarshalUsers (data +:+ newline) = inr l -> llen l <= maxUsers ->
  exists g', UserStore_loadLocked g = (inr l, g') /\ loaded g' /\ users g' = l.
Proof.
  intros U F D Sz T R Room.
  assert (holds (usersPath g) maxUsersFileBytes (data +:+ newline) (g_host g)) as Hd.
  { exists (usersFile data). split; [exact F|]. split; [done|]. split; [done|].
    split; [|done]. cbn [hf_data usersFile]. rewrite slen_app. change (slen newline) with 1. lia. }
  destruct (readPrivateFile_run _ "users file" _ _ _ D Hd) as (h' & Rd).
  unfold UserStore_loadLocked. rewrite (bind_run (gets g_users) _ g (g_users g) g eq_refl), U.
  assert (try (onHost (readPrivateFile (us_path (g_users g)) "users file" maxUsersFileBytes)) g =
    (inr (inr (data +:+ newline)), g_set_host h' g)) as E.
  { unfold try, onHost. unfold usersPath in Rd. by rewrite Rd. }
  rewrite (bind_run _ _ _ _ _ E). destruct (Z.eqb_spec (slen (TrimSpace (data +:+ newline))) 0) as [Z|_].
  { destruct (TrimSpace (data +:+ newline)); [done|]. exfalso. unfold slen in Z. cbn in Z. lia. }
  rewrite R. cbn [fromResult]. rewrite (bind_run (ret l) _ _ l _ eq_refl).
  rewrite (proj2 (Z.ltb_ge _ _) Room). cbn [fail_if].
  rewrite (bind_run (ret tt) _ _ tt _ eq_refl), (bind_run (changing _) _ _ tt _ eq_refl).
  by eexists.
Qed.

(** C24. The accounts survive a restart.  After any calls from a store whose file
    holds its accounts, a gateway started anew on the host loads exactly the
    accounts of the old one, as long as the file is below 10 MiB and can be read. *)
Theorem accounts_survive_restart `{!UsersLaws H} cs g :
  orderly -> loaded g -> sound (users g) -> saved g ->
  let g' := foldl after g cs in
  dependable (g_host g') -> Forall storable (users g') ->
  (forall data, MarshalUsers (users g') = inr data -> slen data < maxUsersFileBytes) ->
  exists g'', UserStore_loadLocked (restarted g') = (inr (users g'), g'') /\
    loaded g'' /\ users g'' = users g'.
Proof.
  intros O L S Sv g' D St Sz. pose proof (calls_steps cs g O L) as (E & P & K)%steps_facts.
  fold g' in E, P, K. destruct (K Sv) as (data & M & F). apply edits_facts in E as (S' & _).
  apply (load_from_file _ data); [done|exact F|exact D|by apply Sz|by eapply users_printed| |].
  - by apply users_roundtrip.
  - by apply sound_room, S'.
Qed.

(** * Logging in *)

Lemma load_answer g l g' : UserStore_loadLocked g = (inr l, g') -> loaded g' /\ users g' = l.
Proof.
  intros R. unfold UserStore_loadLocked in R. apply answer_bind in R as (s & g1 & G & R).
  injection G as <- <-. destruct (us_loaded (g_users g)) eqn:U; [by injection R as <- <-|].
  apply answer_bind in R as (r & g1 & _ & R). destruct r as [err|data].
  - destruct (errors_Is err errNotExist); [|done].
    apply answer_bind in R as ([] & g2 & C & R). injection C as <-. by injection R as <- <-.
  - destruct (slen (TrimSpace data) =? 0).
    + apply answer_bind in R as ([] & g2 & C & R). injection C as <-. by injection R as <- <-.
    + apply answer_bind in R as (l' & g2 & F & R). apply answer_fail_if in R as [_ R].
      apply answer_bind in R as ([] & g3 & C & R). injection C as <-. by injection R as <- <-.
Qed.

Lemma save_answer l g r g' : loaded g -> UserStore_saveLocked l g = (inr r, g') ->
  loaded g' /\ users g' = l /\ us_keyCipher (g_users g') = us_keyCipher (g_users g) /\
  h_clock (g_host g') = h_clock (g_host g).
Proof.
  intros L R. destruct (save_run l g L) as (r' & g1 & E & S). rewrite R in E.
  injection E as <- <-. destruct S as [[[e ?] _]|(L' & _ & U & K & C & _)]; [done|by split].
Qed.

Lemma onHost_answer {A} (m : M Host A) g a g' : onHost m g = (inr a, g') ->
  exists h, m (g_host g) = (inr a, h) /\ g' = g_set_host h g.
Proof.
  unfold onHost. destruct (m (g_host g)) as [r h] eqn:E. intros [= -> <-]. by exists h.
Qed.

(** The account for which a login is answered. *)
Lemma commitLogin_answer before name u0 hash rest g pu g' : loaded g -> users g = before ++ rest ->
  Forall (fun v => live name v = false) before ->
  commitLogin before name u0 hash rest g = (inr pu, g') ->
  loaded g' /\ exists l1 u l2, users g' = l1 ++ u :: l2 /\
    Forall (fun v => live name v = false) l1 /\ live name u = true /\
    pu = publicUser u /\ user_PasswordHash u = (if hash =s "" then user_PasswordHash u0 else hash).
Proof.
  revert before. induction rest as [|u rest IH]; intros before L E F R; cbn [commitLogin] in R; [done|].
  destruct (live name u) eqn:Lv; cbn [negb] in R.
  2: { apply (IH (before ++ [u])); [done|by rewrite <- app_assoc| |done].
       apply Forall_app. split; [done|]. by apply Forall_singleton. }
  destruct (user_PasswordHash u <>s user_PasswordHash u0) eqn:Hu; cbn [orb] in R; [done|].
  apply negb_false_iff, String.eqb_eq in Hu.
  destruct (negb (TimeEqual (user_UpdatedAt u) (user_UpdatedAt u0))); [done|].
  destruct (hash =s "") eqn:Z; cbn [negb] in R.
  - injection R as <- <-. split; [done|]. by exists before, u, rest.
  - apply answer_bind in R as (now & g1 & (h & _ & ->)%onHost_answer & R).
    apply answer_bind in R as ([] & g2 & (L' & U & _)%save_answer & R); [|done].
    injection R as <- <-. split; [done|].
    by exists before, (user_set_password hash now u), rest.
Qed.

(** The two ways of hashing agree with [verifyPasswordHash], and are up to date. *)
Lemma migration_hash password h hash h' : hashPasswordForMigration password h = (inr hash, h') ->
  verifyPasswordHash hash password = true /\ passwordHashNeedsUpgrade hash = false /\ hash <> "".
Proof.
  intros R. unfold hashPasswordForMigration in R. apply answer_fail_if in R as [_ R].
  apply encodePasswordHash_run in R as (_ & salt & B & L & ->).
  split; [by apply verify_own_password|]. split; [by apply upgrade_passwordHashOf|]. done.
Qed.

Lemma authenticate_answer username password wait g pu g' :
  authenticate username password wait g = (inr pu, g') ->
  loaded g' /\ exists name l1 u l2, normalizeUsername username = inr name /\
    users g' = l1 ++ u :: l2 /\ Forall (fun v => live name v = false) l1 /\
    live name u = true /\ pu = publicUser u /\
    verifyPasswordHash (user_PasswordHash u) password = true /\
    passwordHashNeedsUpgrade (user_PasswordHash u) = false.
Proof.
  intros R. unfold authenticate in R. apply answer_bind in R as (name & g1 & N & R).
  destruct (normalizeUsername username) as [|n] eqn:En; [done|]. injection N as -> _.
  apply answer_bind in R as (l & g2 & _ & R). revert R. generalize (candidateFor name l). intros c R.
  cbv zeta in R. do 2 (apply answer_bind in R as ([] & ? & _ & R)).
  destruct (verifyPasswordHash (user_PasswordHash c) password) eqn:V.
  2: { rewrite andb_false_r in R. apply answer_bind in R as (up & ? & _ & R).
       do 2 (apply answer_bind in R as ([] & ? & _ & R)).
       apply answer_bind in R as (hash & ? & _ & R). by apply answer_fail_if in R as [? _]. }
  rewrite andb_true_r in R. apply answer_bind in R as (up & g3 & Up%answer_try & R).
  do 2 (apply answer_bind in R as ([] & ? & _ & R)).
  apply answer_bind in R as (hash & g4 & Uh & R). destruct up as [|up]; [done|].
  injection Uh as -> _. apply answer_fail_if in R as [Ne R]. apply negb_false_iff in Ne.
  rewrite Ne in Up. cbn [andb] in Up. apply answer_bind in R as ([] & g5 & _ & R).
  apply answer_bind in R as (l' & g6 & (L & U)%load_answer & R).
  apply (commitLogin_answer [] _ _ _ _ _ _ _ L U (Forall_nil_2 _)) in R as (L' & l1 & u & l2 & U' & F & Lv & Pu & Hu).
  split; [done|]. exists name, l1, u, l2. do 5 (split; [done|]).
  destruct (passwordHashNeedsUpgrade (user_PasswordHash c)) eqn:Need.
  - apply onHost_answer in Up as (h & (Ve & Nu & Nz)%migration_hash & _).
    apply String.eqb_neq in Nz. by rewrite Hu, Nz.
  - injection Up as <- _. by rewrite Hu.
Qed.

(** C25. A login proves the password.  When a login is answered, the account it
    answers for is in the list at that moment, live, under the normal form of the
    name that was given; its password hash, that of the moment of the answer, is
    verified by the password that was given, and is of the current scheme.  This
    holds whatever other goroutines do meanwhile to the accounts. *)
Theorem login_proves_password username password wait g pu g' :
  authenticate username password wait g = (inr pu, g') ->
  loaded g' /\ exists name l1 u l2, normalizeUsername username = inr name /\
    users g' = l1 ++ u :: l2 /\ live name u = true /\ pu = publicUser u /\
    verifyPasswordHash (user_PasswordHash u) password = true /\
    passwordHashNeedsUpgrade (user_PasswordHash u) = false.
Proof.
  intros R. destruct (authenticate_answer _ _ _ _ _ _ R) as (L & name & l1 & u & l2 & N & U & _ & Lv & X).
  split; [done|]. by exists name, l1, u, l2.
Qed.

(** ** Without interference *)

(** No other goroutine runs and the context stays alive. *)
Definition alone : Prop := (forall n g, others n g = g) /\ (forall n, ctxErr n = None).

Hypothesis quiet : alone.

Section stays.
(** The readings of the clock, which no method changes. *)
Variable clock : nat -> time.

(** What a method leaves of the state: the accounts, the slots taken, the cipher. *)
Record stays (l : list UserRecord) (w q : Z) (c : option (list Z)) (g : Gateway) : Prop := mkStays
  { stays_loaded : loaded g;
    stays_users : users g = l;
    stays_work : us_passwordWork (g_users g) = w;
    stays_queue : us_passwordQueue (g_users g) = q;
    stays_cipher : us_keyCipher (g_users g) = c;
    stays_host : dependable (g_host g);
    stays_clock : h_clock (g_host g) = clock }.

Lemma elsewhere_stays l w q c g : stays l w q c g -> succeeds elsewhere g (fun _ => stays l w q c).
Proof using quiet.
  intros [? ? ? ? ? ? ?]. destruct quiet as [O _]. eexists tt, _. split; [reflexivity|].
  rewrite O. by split.
Qed.

Lemma ctx_stays l w q c g : stays l w q c g -> succeeds ctx_Err g (fun e g' => e = None /\ stays l w q c g').
Proof using quiet.
  intros [? ? ? ? ? ? ?]. destruct quiet as [_ C]. unfold succeeds, ctx_Err. rewrite C.
  eexists _, _. split; [reflexivity|]. by repeat split.
Qed.

Lemma work_stays l w q c w' q' g : stays l w q c g ->
  succeeds (changing (us_set_work w' q')) g (fun _ => stays l w' q' c).
Proof. intros [? ? ? ? ? ? ?]. eexists tt, _. split; [reflexivity|]. by split. Qed.

Lemma host_stays {A} l w q c (P : A -> Prop) (m : M Host A) g : steady m -> answersIn P m ->
  (forall h, dependable h -> exists a h', m h = (inr a, h')) -> stays l w q c g ->
  succeeds (onHost m) g (fun a g' => P a /\ stays l w q c g').
Proof.
  intros S Pm T [L U W Q C D K]. destruct (T _ D) as (a & h' & E). exists a, (g_set_host h' g).
  unfold onHost. rewrite E. split; [done|]. split; [by apply (Pm _ _ _ E)|]. split; try done.
  - by apply (dependable_same (g_host g)); [eapply steady_after|].
  - pose proof (steady_after _ _ _ _ S E) as (_ & _ & Ck & _). cbn. congruence.
Qed.

Lemma load_stays l w q c g : stays l w q c g ->
  succeeds UserStore_loadLocked g (fun l' g' => l' = l /\ stays l w q c g').
Proof. intros S. exists l, g. rewrite load_run by apply S. by rewrite (stays_users _ _ _ _ _ S). Qed.

Lemma tryAcquire_stays l w q c g : w < maxConcurrentPasswordWork -> stays l w q c g ->
  succeeds tryAcquirePasswordWork g (fun ok g' => ok = true /\ stays l (w + 1) q c g').
Proof.
  intros Lt [? ? ? ? ? ?]. eexists true, _. unfold tryAcquirePasswordWork.
  rewrite (bind_run (gets g_users) _ g _ g eq_refl), stays_work0, (proj2 (Z.ltb_lt _ _) Lt).
  split; [reflexivity|]. split; [done|]. split; try done; cbn; congruence.
Qed.

Lemma acquire_stays l w q c wait g : w < maxConcurrentPasswordWork -> q < maxQueuedPasswordWork ->
  stays l w q c g -> succeeds (acquirePasswordWork wait) g
    (fun _ => stays l (w + 1) (if wait then q + 1 else q) c).
Proof using quiet.
  intros W Q S. unfold acquirePasswordWork. destruct wait; cbn [negb].
  - eapply succeeds_bind; [by apply ctx_stays|]. cbv beta. intros e g1 [-> S1].
    apply succeeds_ret_bind, succeeds_gets. pose proof S1 as [_ _ -> -> _ _ _].
    rewrite (proj2 (Z.leb_gt _ _) Q).
    eapply succeeds_bind; [by eapply work_stays|]. cbv beta. intros _ g2 S2.
    eapply succeeds_bind; [by eapply elsewhere_stays|]. cbv beta. intros _ g3 S3.
    eapply succeeds_bind; [by eapply tryAcquire_stays|]. cbv beta. intros ok g4 [-> S4].
    eapply succeeds_bind; [by eapply ctx_stays|]. cbv beta. intros e g5 [-> S5].
    by apply succeeds_ret.
  - eapply succeeds_bind; [by apply tryAcquire_stays|]. cbv beta. intros ok g1 [-> S1].
    by apply succeeds_ret.
Qed.

Lemma release_stays l w q c wait g : stays l w q c g ->
  succeeds (releaseAcquired wait) g (fun _ => stays l (w - 1) (if wait then q - 1 else q) c).
Proof.
  intros [? ? ? ? ? ? ?]. destruct wait; eexists tt, _; (split; [reflexivity|]);
    split; try done; cbn; congruence.
Qed.

Lemma releaseWork_stays l w q c g : stays l w q c g ->
  succeeds releasePasswordWork g (fun _ => stays l (w - 1) q c).
Proof.
  intros [? ? ? ? ? ? ?]. eexists tt, _. split; [reflexivity|]. split; try done; cbn; congruence.
Qed.

Lemma not_live name l : name ∉ names l -> Forall (fun u => live name u = false) l.
Proof.
  intros N. apply Forall_forall. intros u I. unfold live. apply andb_false_iff. left.
  apply String.eqb_neq. intros <-. apply N. unfold names. by apply list_elem_of_fmap_2.
Qed.

Lemma candidateFor_new name l u : name ∉ names l -> live name u = true ->
  candidateFor name (l ++ [u]) = u.
Proof.
  intros N [E D]%andb_true_iff. induction l as [|v l IH]; cbn [app candidateFor].
  - rewrite E. cbn [negb]. by rewrite (proj1 (negb_true_iff _) D).
  - apply not_elem_of_cons in N as [N1 N2].
    rewrite (proj2 (String.eqb_neq _ _)) by congruence. cbn [negb]. by apply IH.
Qed.

Lemma commitLogin_new before name u l : name ∉ names l -> live name u = true ->
  commitLogin before name u "" (l ++ [u]) = ret (publicUser u).
Proof.
  intros N%not_live Lv. revert before. induction N as [|v l Lvv _ IH]; intros before;
    cbn [app commitLogin].
  - rewrite Lv. cbn [negb]. rewrite String.eqb_refl. unfold TimeEqual. rewrite Z.eqb_refl. done.
  - rewrite Lvv. cbn [negb]. apply IH.
Qed.

(** A login for the account that was added last. *)
Lemma authenticate_new username name password wait l u w q c g :
  normalizeUsername username = inr name -> name ∉ names l -> live name u = true ->
  passwordHashNeedsUpgrade (user_PasswordHash u) = false ->
  w < maxConcurrentPasswordWork -> q < maxQueuedPasswordWork -> stays (l ++ [u]) w q c g ->
  exists g', authenticate username password wait g =
    ((if verifyPasswordHash (user_PasswordHash u) password
      then inr (publicUser u) else inl errInvalidLogin), g') /\ stays (l ++ [u]) w q c g'.
Proof using quiet.
  intros En N Lv Up W Q S. unfold authenticate. rewrite En. cbn [fromResult].
  rewrite (bind_run (ret name) _ g name g eq_refl).
  destruct (load_stays _ _ _ _ _ S) as (l1 & g1 & E1 & -> & S1). rewrite (bind_run _ _ _ _ _ E1).
  rewrite candidateFor_new by done. cbv zeta.
  assert ((user_Username u <>s "") = true) as Ne.
  { apply andb_true_iff in Lv as [E _]. apply String.eqb_eq in E. rewrite E.
    apply normalizeUsername_normal, normalName_nonempty in En. by apply negb_true_iff, String.eqb_neq. }
  rewrite Ne. cbn [andb].
  destruct (elsewhere_stays _ _ _ _ _ S1) as ([] & g2 & E2 & S2). rewrite (bind_run _ _ _ _ _ E2).
  destruct (acquire_stays _ _ _ _ wait _ W Q S2) as ([] & g3 & E3 & S3). rewrite (bind_run _ _ _ _ _ E3).
  rewrite Up, andb_false_r. rewrite (bind_run (try (ret "")) _ g3 (inr "") g3 eq_refl).
  destruct (elsewhere_stays _ _ _ _ _ S3) as ([] & g4 & E4 & S4). rewrite (bind_run _ _ _ _ _ E4).
  destruct (release_stays _ _ _ _ wait _ S4) as ([] & g5 & E5 & S5). rewrite (bind_run _ _ _ _ _ E5).
  replace (w + 1 - 1) with w in S5 by lia.
  replace (if wait then _ - 1 else _) with q in S5 by (destruct wait; lia).
  cbn [fromResult]. rewrite (bind_run (ret "") _ g5 "" g5 eq_refl).
  destruct (verifyPasswordHash (user_PasswordHash u) password); cbn [negb fail_if].
  2: by exists g5.
  rewrite (bind_run (ret tt) _ g5 tt g5 eq_refl).
  destruct (elsewhere_stays _ _ _ _ _ S5) as ([] & g6 & E6 & S6). rewrite (bind_run _ _ _ _ _ E6).
  destruct (load_stays _ _ _ _ _ S6) as (l7 & g7 & E7 & -> & S7). rewrite (bind_run _ _ _ _ _ E7).
  rewrite commitLogin_new by done. by exists g7.
Qed.

Lemma newUserRecord_total username password role name h :
  normalizeUsername username = inr name -> validatePassword password = None ->
  exists u h', newUserRecord username password role h = (inr u, h').
Proof.
  intros N V. unfold newUserRecord. rewrite N. cbn [fromResult].
  rewrite (bind_run (ret name) _ h name h eq_refl), V. cbn [check].
  rewrite (bind_run (ret tt) _ h tt h eq_refl).
  unfold hashPassword. rewrite V. cbn [check]. eexists _, _. reflexivity.
Qed.

Lemma assign_total master u v h : exists u' h', assign (Some master) u v h = (inr u', h').
Proof.
  unfold assign, mbind, M_bind, bind, rand_Read, time_Now. cbv zeta. eexists _, _. reflexivity.
Qed.

Lemma save_stays l' l w q c g : (exists data, MarshalUsers l' = inr data) -> stays l w q c g ->
  succeeds (UserStore_saveLocked l') g (fun _ => stays l' w q c).
Proof.
  intros (data & M) [L U W Q C D K]. unfold UserStore_saveLocked. rewrite M. cbn [fromResult].
  apply succeeds_ret_bind, succeeds_gets.
  destruct (writePrivateFile_ok (us_path (g_users g)) (data +:+ newline) _ D) as (h' & E & Wr).
  assert (onHost (writePrivateFile (us_path (g_users g)) (data +:+ newline)) g =
    (inr (true, None), g_set_host h' g)) as E' by (unfold onHost; by rewrite E).
  unfold succeeds. rewrite (bind_run _ _ _ _ _ E'), (bind_run (changing _) _ _ tt _ eq_refl).
  eexists tt, _. split; [reflexivity|]. destruct Wr as (_ & Eo & Ec & _). split; try done.
  - intros n. cbn. rewrite Eo. apply D.
  - cbn. congruence.
Qed.

Lemma not_elem_existsb name l : name ∉ names l -> existsb (fun u => user_Username u =s name) l = false.
Proof.
  intros N. destruct (existsb _ l) eqn:X; [|done]. apply existsb_exists in X as (u & I & E).
  exfalso. apply N. apply String.eqb_eq in E as <-. unfold names. apply list_elem_of_fmap_2.
  by apply list_elem_of_In.
Qed.

(** Creating an account in a store with room. *)
Lemma Create_new username password role name l w q c g :
  normalizeUsername username = inr name -> validatePassword password = None ->
  name ∉ names l -> llen l < maxUsers -> w < maxConcurrentPasswordWork ->
  (forall l, exists data, MarshalUsers l = inr data) -> stays l w q c g ->
  succeeds (UserStore_Create username password role) g (fun pu g' => exists u,
    pu = publicUser u /\ live name u = true /\ user_Role u = normalizeRole role /\
    verifyPasswordHash (user_PasswordHash u) password = true /\
    passwordHashNeedsUpgrade (user_PasswordHash u) = false /\ stays (l ++ [u]) w q c g').
Proof using quiet.
  intros En V N Room W Mt S. unfold UserStore_Create.
  eapply succeeds_bind; [by apply tryAcquire_stays|]. cbv beta. intros ok g1 [-> S1].
  cbn [negb fail_if]. apply succeeds_ret_bind.
  eapply (succeeds_bind _ _ _ (fun r g' => exists u, r = inr u /\
    madeFrom username password role u /\ stays l (w + 1) q c g')).
  { apply succeeds_try. eapply succeeds_weaken; [eapply host_stays;
      [apply steady_newUserRecord|apply newUserRecord_made| |exact S1]|].
    - intros h _. by eapply newUserRecord_total.
    - intros u g' [Mk S2]. by exists u. }
  cbv beta. intros r g2 (u & -> & (En' & Ro & D & _ & salt & B & L & Hu) & S2).
  rewrite En in En'. injection En' as ->.
  eapply succeeds_bind; [by apply elsewhere_stays|]. cbv beta. intros _ g3 S3.
  eapply succeeds_bind; [by apply releaseWork_stays|]. cbv beta. intros _ g4 S4.
  replace (w + 1 - 1) with w in S4 by lia. apply succeeds_ret_bind, succeeds_gets.
  rewrite (stays_cipher _ _ _ _ _ S4).
  eapply (succeeds_bind _ _ _ (fun u' g' => user_Username u' = user_Username u /\
    user_Role u' = user_Role u /\ user_PasswordHash u' = user_PasswordHash u /\
    user_Disabled u' = user_Disabled u /\ stays l w q c g')).
  { destruct c as [master|]; [|by apply succeeds_ret].
    eapply succeeds_weaken; [eapply host_stays; [apply steady_assign|apply assign_assigned| |exact S4]|].
    - intros h _. apply assign_total.
    - intros u' g' [(? & ? & ? & ? & ? & _ & _ & _ & _ & ->) S']. by repeat split; try apply S'. }
  cbv beta. intros u' g5 (E1 & E2 & E3 & E4 & S5).
  eapply succeeds_bind; [by apply elsewhere_stays|]. cbv beta. intros _ g6 S6.
  unfold commitCreate. eapply succeeds_bind; [by apply load_stays|]. cbv beta. intros l' g7 [-> S7].
  apply not_elem_existsb in N. rewrite E1, N. cbn [fail_if]. apply succeeds_ret_bind.
  rewrite (proj2 (Z.leb_gt _ _) Room). apply succeeds_ret_bind.
  eapply succeeds_bind; [eapply save_stays; [apply Mt|exact S7]|]. cbv beta. intros _ g8 S8.
  apply succeeds_ret. exists u'. split; [done|]. unfold live. rewrite E1, E2, E3, E4, D, String.eqb_refl, Hu.
  split; [done|]. split; [done|]. split; [by apply verify_own_password|].
  split; [by apply upgrade_passwordHashOf|done].
Qed.

End stays.

(** C26. A new account can log in, and only with its password.  Where the store has
    room and a slot for password work, the name is new and the password acceptable,
    and nothing interferes, creating the account succeeds; the next login under that
    name, however it is written, is answered for that account exactly when the
    password given derives the key in its hash, which the chosen password does, and
    otherwise refused; either way the accounts and the slots are as before. *)
Theorem account_created_logs_in username password role name g :
  loaded g -> dependable (g_host g) ->
  us_passwordWork (g_users g) < maxConcurrentPasswordWork ->
  us_passwordQueue (g_users g) < maxQueuedPasswordWork ->
  (forall l, exists data, MarshalUsers l = inr data) ->
  normalizeUsername username = inr name -> validatePassword password = None ->
  name ∉ names (users g) -> llen (users g) < maxUsers ->
  exists u g1, UserStore_Create username password role g = (inr (publicUser u), g1) /\
    users g1 = users g ++ [u] /\ live name u = true /\ user_Role u = normalizeRole role /\
    verifyPasswordHash (user_PasswordHash u) password = true /\
    forall typed attempt wait, normalizeUsername typed = inr name ->
      exists g2, authenticate typed attempt wait g1 =
        ((if verifyPasswordHash (user_PasswordHash u) attempt
          then inr (publicUser u) else inl errInvalidLogin), g2) /\
        users g2 = users g1 /\
        us_passwordWork (g_users g2) = us_passwordWork (g_users g) /\
        us_passwordQueue (g_users g2) = us_passwordQueue (g_users g).
Proof using quiet.
  intros L D W Q Mt En V N Room.
  destruct (Create_new (h_clock (g_host g)) username password role name (users g) (us_passwordWork (g_users g))
    (us_passwordQueue (g_users g)) (us_keyCipher (g_users g)) g)
    as (pu & g1 & E & u & -> & Lv & Ro & Ve & Up & S1); try done.
  exists u, g1. split; [exact E|]. split; [by apply S1|]. repeat (split; [done|]).
  intros typed attempt wait Ew.
  destruct (authenticate_new (h_clock (g_host g)) typed name attempt wait (users g) u _ _ _ g1 Ew N Lv Up W Q S1)
    as (g2 & E2 & S2).
  exists g2. split; [exact E2|]. split; [by rewrite (stays_users _ _ _ _ _ _ S1), (stays_users _ _ _ _ _ _ S2)|].
  split; apply S2.
Qed.

(** * Fixed keys *)

Lemma reveal_assigned `{!AEADLaws H0} master v u u' : assigned (Some master) v u u' ->
  user_KeyID u' <> "" /\ user_KeyVersion u' = v /\ user_Username u' = user_Username u /\
  user_Disabled u' = user_Disabled u /\
  exists secret, reveal (Some master) u' = inr secret /\
    user_KeyHash u' = HexEncode (Sum256 (bytes_of_string secret)).
Proof.
  intros (m & id & t & nonce & secret & [= <-] & B & Ln & Id & ->). cbn [user_KeyID].
  repeat (split; [done|]). exists secret. split; [|done].
  pose proof (bytes_of_string_range secret) as Bs. unfold reveal.
  set (sealed := Seal _ _ _ _).
  assert (byte_list sealed /\ sealed <> []) as [Bx Nx] by by apply sealed_bytes.
  assert (byte_list (nonce ++ sealed)) as Ba by (apply Forall_app; by split).
  cbn [user_KeyCipher user_set_key]. rewrite DecodeString_Encode. cbv zeta.
  rewrite bytes_of_string_of by done.
  destruct (Z.leb_spec (llen (nonce ++ sealed)) (Z.of_nat NonceSize)) as [Le|_].
  { unfold llen in *. rewrite length_app in Le. destruct sealed; [done|]. cbn [length] in Le. lia. }
  rewrite take_app_length', drop_app_length' by (unfold llen in Ln; lia).
  unfold sealed. lazymatch goal with |- context [Seal _ _ _ ?a] =>
    lazymatch goal with |- context [OpenSealed _ _ _ ?b] => change b with a end end.
  rewrite open_sealed by done.
  by rewrite string_of_bytes_of.
Qed.

Lemma find_live name before u after : Forall (fun v => live name v = false) before ->
  live name u = true -> List.find (live name) (before ++ u :: after) = Some u.
Proof.
  intros F L. induction F as [|v before E _ IH]; cbn [app List.find]; [by rewrite L|by rewrite E].
Qed.

Lemma regenerateLoop_answer `{!AEADLaws H0} before name rest g key g' :
  loaded g -> users g = before ++ rest -> Forall (fun v => live name v = false) before ->
  regenerateLoop before name rest g = (inr key, g') ->
  loaded g' /\ us_keyCipher (g_users g') = us_keyCipher (g_users g) /\
  exists l1 u u' l2 secret, users g = l1 ++ u :: l2 /\ users g' = l1 ++ u' :: l2 /\
    Forall (fun v => live name v = false) l1 /\ live name u = true /\ live name u' = true /\
    user_KeyID u' <> "" /\
    user_KeyVersion u' = Z.max 1 (i64 (user_KeyVersion u + 1)) /\
    user_KeyHash u' = HexEncode (Sum256 (bytes_of_string secret)) /\
    reveal (us_keyCipher (g_users g')) u' = inr secret /\ key = fixedUserKey u' secret.
Proof.
  revert before. induction rest as [|u rest IH]; intros before L E F R; cbn [regenerateLoop] in R; [done|].
  destruct (live name u) eqn:Lv; cbn [negb] in R.
  2: { apply (IH (before ++ [u])); [done|by rewrite <- app_assoc| |done].
       apply Forall_app. split; [done|]. by apply Forall_singleton. }
  cbv zeta in R. apply answer_bind in R as (s & g1 & G & R). injection G as <- <-.
  apply answer_bind in R as (u' & g2 & (h & As & ->)%onHost_answer & R).
  apply assign_assigned in As.
  apply answer_bind in R as ([] & g3 & (L' & U & K & _)%save_answer & R); [|done].
  apply answer_bind in R as (secret & g4 & Rv & R). injection R as <- <-.
  cbn [g_users g_set_host] in K. destruct (us_keyCipher (g_users g)) as [master|] eqn:C.
  2: { by destruct As as (? & ? & ? & ? & ? & ? & _). }
  destruct (reveal_assigned _ _ _ _ As) as (Id & Ve & Nm & Di & secret' & Re & Ha).
  rewrite Re in Rv. injection Rv as <- <-. split; [done|]. split; [done|].
  exists before, u, u', rest, secret'. do 3 (split; [done|]). split; [done|].
  split; [unfold live; by rewrite Nm, Di|]. split; [done|]. split; [rewrite Ve|by rewrite K].
  destruct (Z.ltb_spec (i64 (user_KeyVersion u + 1)) 1); lia.
Qed.

(** A regenerated key replaces the old one everywhere.  When regenerating the
    fixed key of an account is answered, exactly that account's record changed, the
    version went up by one (and wraps to 1 at the end of int64), revealing the key
    afterwards, under any writing of the name, gives the same key, and the verifier
    that is sent to the nodes is the SHA-256 of that secret, under the same
    identifier, owner and version. *)
Theorem regenerated_key_is_revealed `{!AEADLaws H0} username g key g' :
  loaded g -> RegenerateFixedKey username g = (inr key, g') ->
  exists name l1 u u' l2, normalizeUsername username = inr name /\
    users g = l1 ++ u :: l2 /\ users g' = l1 ++ u' :: l2 /\
    live name u = true /\ live name u' = true /\
    key_Owner key = name /\ key_Version key = user_KeyVersion u' /\
    (0 <= user_KeyVersion u < 2 ^ 63 - 1 -> key_Version key = user_KeyVersion u + 1) /\
    (user_KeyVersion u = 2 ^ 63 - 1 -> key_Version key = 1) /\
    (forall typed, normalizeUsername typed = inr name -> RevealFixedKey typed g' = (inr key, g')) /\
    exists vs, FixedKeyVerifiers g' = (inr vs, g') /\
      mkFixedUserKeyVerifier (key_ID key) name (key_Version key)
        (HexEncode (Sum256 (bytes_of_string (key_Secret key)))) ∈ vs.
Proof.
  intros L R. unfold RegenerateFixedKey in R. apply answer_bind in R as (name & g1 & N & R).
  destruct (normalizeUsername username) as [|n] eqn:En; [done|]. injection N as -> <-.
  rewrite (bind_run _ _ _ _ _ (load_run g L)) in R.
  apply (regenerateLoop_answer []) in R as (L' & K & l1 & u & u' & l2 & secret & U & U' & F & Lv & Lv' &
    Id & Ve & Ha & Re & ->); [|done..].
  pose proof Lv' as [Nm%String.eqb_eq Di]%andb_true_iff.
  exists name, l1, u, u', l2. do 5 (split; [done|]). cbn [key_Owner key_Version key_ID key_Secret fixedUserKey].
  do 2 (split; [done|]). rewrite Ve. unfold i64.
  split; [intros V; rewrite Z.mod_small; lia|]. split; [by intros ->|]. split.
  - intros typed Et. unfold RevealFixedKey. rewrite Et. cbn [fromResult].
    rewrite (bind_run (ret name) _ g' name g' eq_refl), (bind_run _ _ _ _ _ (load_run g' L')).
    rewrite (bind_run (gets g_users) _ g' _ g' eq_refl), U', find_live by done.
    rewrite Re. cbn [fromResult]. by rewrite (bind_run (ret secret) _ g' secret g' eq_refl).
  - unfold FixedKeyVerifiers. rewrite (bind_run _ _ _ _ _ (load_run g' L')).
    eexists. split; [reflexivity|]. rewrite merge_sort_Permutation. apply list_elem_of_fmap.
    exists u'. unfold verifierOf. rewrite Nm, Ve, Ha. unfold i64. split; [done|].
    apply list_elem_of_In, filter_In. split.
    + rewrite U'. apply in_or_app. right. by left.
    + unfold keyed. rewrite Di. by apply negb_true_iff, String.eqb_neq.
Qed.
End accounts.

(** * Witnesses *)

(** A gateway with an administrator and a user, and nobody else at work. *)
Definition root_user : UserRecord :=
  mkUserRecord "root" RoleAdmin "sha256$00$00" "" "" 0 "" 0 (63700000000 * Second)
    (63700000000 * Second) false.
Definition bob_user : UserRecord :=
  mkUserRecord "bob" RoleUser "sha256$01$01" "" "" 0 "" 0 (63700000001 * Second)
    (63700000001 * Second) false.
Definition sample_master : list Z := map Z.of_nat (seq 0 32).
Definition sample_accounts : list UserRecord := [root_user; bob_user].
Definition sample_gateway : Gateway :=
  mkGateway
    (h_set_files {["/users.json" := usersFile (StoreCodec.digits (encode (userCells <$> sample_accounts)))]}
       sample_host)
    (mkUserStore "/users.json" true sample_accounts 0 0 (Some sample_master)) ∅ ∅ 0 0 false 0 0.

Definition quiet_elsewhere : Elsewhere := {| others _ g := g; ctxErr _ := None |}.
(** Another request deletes bob in the middle of the first one. *)
Definition busy_elsewhere : Elsewhere :=
  {| others n g := if (n =? 0)%nat then final (UserStore_Delete "bob") g else g; ctxErr _ := None |}.

Lemma quiet_orderly : @orderly sample_users quiet_elsewhere.
Proof. intros n g _. apply rtc_refl. Qed.
Lemma busy_orderly : @orderly sample_users busy_elsewhere.
Proof.
  intros n g L. cbn [others busy_elsewhere]. destruct (n =? 0)%nat; [|apply rtc_refl].
  apply (obeys_Delete (P := edits) from_save "bob" (fun _ _ _ _ => edits_once _ _ _) (users g) g L eq_refl).
Qed.
Lemma quiet_alone : @alone quiet_elsewhere.
Proof. by split. Qed.

Definition sample_calls : list call :=
  [callCreate "Carol" "a long password" RoleUser; callDelete "root"; callRegenerateFixedKey "root"].

Lemma accounts_refine_edits_witness :
  loaded sample_gateway /\
  rtc account_step sample_gateway
    (foldl (@after sample_users sample_aead busy_elsewhere) sample_gateway sample_calls).
Proof.
  split; [reflexivity|].
  apply (@accounts_refine_edits sample_users sample_aead busy_elsewhere sample_calls sample_gateway);
    [apply busy_orderly|reflexivity].
Defined.

Lemma sample_sound : sound sample_accounts.
Proof.
  split; [|repeat constructor; vm_compute; reflexivity|vm_compute; discriminate].
  apply (bool_decide_unpack _). vm_compute. reflexivity.
Qed.

Lemma accounts_stay_sound_witness :
  let g' := foldl (@after sample_users sample_aead busy_elsewhere) sample_gateway sample_calls in
  sound (users g') /\ persists sample_accounts (users g') /\ 0 < admins (users g').
Proof.
  destruct (@accounts_stay_sound sample_users sample_aead busy_elsewhere sample_calls sample_gateway)
    as (S & P & A); [apply busy_orderly|reflexivity|apply sample_sound|].
  split; [exact S|]. split; [exact P|]. apply A. reflexivity.
Defined.

(** Calls that compute no password hash. *)
Definition quick_calls : list call :=
  [callDelete "bob"; callRegenerateFixedKey "root"; callAuthenticate "nobody" "a long password" true].
Definition quick_gateway : Gateway :=
  foldl (@after sample_users sample_aead quiet_elsewhere) sample_gateway quick_calls.

Lemma accounts_survive_restart_witness :
  List.length (users quick_gateway) = 2%nat /\ users quick_gateway <> sample_accounts /\
  exists g'', UserStore_loadLocked (restarted quick_gateway) = (inr (users quick_gateway), g'') /\
    loaded g'' /\ users g'' = users quick_gateway.
Proof.
  split; [vm_compute; reflexivity|]. split; [vm_compute; discriminate|].
  apply (@accounts_survive_restart sample_users sample_aead quiet_elsewhere sample_users_laws
    quick_calls sample_gateway).
  - apply quiet_orderly.
  - reflexivity.
  - apply sample_sound.
  - eexists. split; [reflexivity|]. vm_compute. reflexivity.
  - unfold dependable. intros n. vm_compute. reflexivity.
  - apply (bool_decide_unpack _). vm_compute. reflexivity.
  - intros data E. apply (f_equal (fun r => match r with inr d => slen d | inl _ => 0 end)) in E.
    rewrite <- E. vm_compute. reflexivity.
Defined.

Lemma sample_stays : stays (h_clock sample_host) sample_accounts 0 0 (Some sample_master) sample_gateway.
Proof. by split. Qed.

Lemma carol_new : "carol" ∉ names (users sample_gateway).
Proof. apply (bool_decide_unpack _). vm_compute. reflexivity. Qed.

(** Carol's account is made, and she logs in. *)
Lemma login_proves_password_witness : exists g1 u g2,
  @authenticate sample_users quiet_elsewhere " CAROL " "a long password" true g1 =
    (inr (publicUser u), g2) /\
  loaded g2 /\ exists name l1 v l2, normalizeUsername " CAROL " = inr name /\
    users g2 = l1 ++ v :: l2 /\ live name v = true /\ publicUser u = publicUser v /\
    verifyPasswordHash (user_PasswordHash v) "a long password" = true /\
    passwordHashNeedsUpgrade (user_PasswordHash v) = false.
Proof.
  destruct (@Create_new sample_users sample_aead quiet_elsewhere quiet_alone (h_clock sample_host) "Carol"
    "a long password" RoleUser "carol" sample_accounts 0 0 (Some sample_master) sample_gateway)
    as (pu & g1 & _ & u & _ & Lv & _ & Ve & Up & S);
    [reflexivity|reflexivity|apply carol_new|reflexivity..|by eexists|apply sample_stays|].
  destruct (@authenticate_new sample_users quiet_elsewhere quiet_alone (h_clock sample_host) " CAROL " "carol"
    "a long password" true sample_accounts u 0 0 (Some sample_master) g1) as (g2 & E & _);
    [reflexivity|apply carol_new|done|done|reflexivity..|exact S|].
  rewrite Ve in E. exists g1, u, g2. split; [exact E|].
  exact (@login_proves_password sample_users quiet_elsewhere " CAROL " "a long password" true
    g1 (publicUser u) g2 E).
Defined.

Lemma account_created_logs_in_witness : exists u g1,
  @UserStore_Create sample_users sample_aead quiet_elsewhere "Carol" "a long password" "admin"
    sample_gateway = (inr (publicUser u), g1) /\
  users g1 = sample_accounts ++ [u] /\ live "carol" u = true /\ user_Role u = RoleAdmin /\
  verifyPasswordHash (user_PasswordHash u) "a long password" = true /\
  forall typed attempt wait, normalizeUsername typed = inr "carol" ->
    exists g2, @authenticate sample_users quiet_elsewhere typed attempt wait g1 =
      ((if verifyPasswordHash (user_PasswordHash u) attempt
        then inr (publicUser u) else inl errInvalidLogin), g2) /\
      users g2 = users g1 /\ us_passwordWork (g_users g2) = 0 /\ us_passwordQueue (g_users g2) = 0.
Proof.
  apply (@account_created_logs_in sample_users sample_aead quiet_elsewhere quiet_alone
    "Carol" "a long password" "admin" "carol" sample_gateway);
    [done|done|reflexivity..|by eexists|reflexivity|reflexivity|apply carol_new|reflexivity].
Defined.

Definition keyed_gateway : Gateway :=
  final (@RegenerateFixedKey sample_users sample_aead "Bob") sample_gateway.
Definition keyed_key : FixedUserKey :=
  match result (@RegenerateFixedKey sample_users sample_aead "Bob") sample_gateway with
  | inr key => key
  | inl _ => mkFixedUserKey "" "" 0 0 ""
  end.

Lemma regenerated_key_is_revealed_witness :
  key_Secret keyed_key = "gk_000102030405060708090a0b0c0d0e0f1011121314151617" /\
  exists name l1 u u' l2, normalizeUsername "Bob" = inr name /\
    users sample_gateway = l1 ++ u :: l2 /\ users keyed_gateway = l1 ++ u' :: l2 /\
    live name u = true /\ live name u' = true /\
    key_Owner keyed_key = name /\ key_Version keyed_key = user_KeyVersion u' /\
    (0 <= user_KeyVersion u < 2 ^ 63 - 1 -> key_Version keyed_key = user_KeyVersion u + 1) /\
    (user_KeyVersion u = 2 ^ 63 - 1 -> key_Version keyed_key = 1) /\
    (forall typed, normalizeUsername typed = inr name ->
       RevealFixedKey typed keyed_gateway = (inr keyed_key, keyed_gateway)) /\
    exists vs, FixedKeyVerifiers keyed_gateway = (inr vs, keyed_gateway) /\
      mkFixedUserKeyVerifier (key_ID keyed_key) name (key_Version keyed_key)
        (HexEncode (Sum256 (bytes_of_string (key_Secret keyed_key)))) ∈ vs.
Proof.
  split; [vm_compute; reflexivity|].
  apply (@regenerated_key_is_revealed sample_users sample_aead sample_aead_laws "Bob"
    sample_gateway keyed_key keyed_gateway); [reflexivity|].
  unfold keyed_gateway. apply (result_final (RegenerateFixedKey "Bob")).
  vm_compute. reflexivity.
Defined.
