(* ===== verification/WebSession.v ===== *)
(** internal/web/session.go, and the part of internal/web/server.go that is about
    accounts: signed session cookies, what they admit, the handlers of logins,
    registrations, passwords, keys and users, and the checks in front of them.

    A handler is a value of [M Gateway] that answers a reply.  The fields of [Server]
    that never change are arguments; a request is what net/http makes of it.  The
    routes of nodes, snapshots and history are only the checks in front of them here,
    and their reply is [BOther]; WebFleet and WebHistory have the handlers. *)

From Stdlib Require Import Ascii.
From S2P Require Import GoConv.
From S2P Require Export WebUsers Config.
#[global] Open Scope Z_scope.

(** * net/http, net and time *)

Definition StatusOK : Z := 200.
Definition StatusCreated : Z := 201.
Definition StatusBadRequest : Z := 400.
Definition StatusUnauthorized : Z := 401.
Definition StatusForbidden : Z := 403.
Definition StatusNotFound : Z := 404.
Definition StatusMethodNotAllowed : Z := 405.
Definition StatusRequestTimeout : Z := 408.
Definition StatusConflict : Z := 409.
Definition StatusUnsupportedMediaType : Z := 415.
Definition StatusTooManyRequests : Z := 429.
Definition StatusInternalServerError : Z := 500.
Definition StatusServiceUnavailable : Z := 503.

(** [Time.Unix] and [Time.UnixNano], of a time in nanoseconds since the year 1. *)
Definition unixEpoch : Z := 62135596800.
Definition Unix (t : time) : Z := t / Second - unixEpoch.
Definition UnixNano (t : time) : Z := i64 (t - unixEpoch * Second).

(** [Duration.Round], which rounds halves away from zero. *)
Definition Round (d m : duration) : duration :=
  if m <=? 0 then d
  else
    let r := Z.rem d m in
    if d <? 0 then
      let r := - r in
      if r + r <? m then d + r
      else let d1 := i64 (d - m + r) in if d1 <? d then d1 else minDuration
    else if r + r <? m then d - r
    else let d1 := i64 (d + m - r) in if d <? d1 then d1 else maxDuration.

(** [strings.Trim(s, cutset)], for a cutset of single bytes. *)
Fixpoint trimLeftOf (cut : ascii -> bool) (s : string) : string :=
  match s with
  | EmptyString => EmptyString
  | String c rest => if cut c then trimLeftOf cut rest else s
  end.
Definition TrimOf (cut : ascii -> bool) (s : string) : string :=
  srev (trimLeftOf cut (srev (trimLeftOf cut s))).
Definition isSlash (c : ascii) : bool := Ascii.eqb c "/"%char.
Definition isBracket (c : ascii) : bool := Ascii.eqb c "["%char || Ascii.eqb c "]"%char.

(** An address is its 16 bytes, as [net.ParseIP] answers it; [IP.IsLoopback]. *)
Class NetIP : Type := {
  SplitHostPort : string -> option string;
  ParseIP : string -> option (list Z);
  IPString : list Z -> string
}.
Definition IsLoopback (ip : list Z) : bool :=
  if bool_decide (take 12 ip = repeat 0 10 ++ [255; 255]) && (llen ip =? 16)
  then bool_decide (take 1 (drop 12 ip) = [127])
  else bool_decide (ip = repeat 0 15 ++ [1]).

(** A request; [q_Cookie] is the value of the session cookie that it carries,
    [q_mediaType] the answer of [mime.ParseMediaType] on its content type, and
    [q_Origin] the trimmed header with the host that [url.Parse] finds in it. *)
Record webRequest : Type := mkWebRequest
  { q_Method : string; q_Path : string; q_RemoteAddr : string; q_ForwardedFor : string;
    q_Cookie : option string; q_TLS : bool; q_FetchSite : string; q_Origin : string;
    q_OriginHost : option string; q_Host : string; q_mediaType : option string;
    q_ContentLength : Z; q_TransferEncoding : list string; q_Body : string }.

(** A body read through [http.MaxBytesReader]: what can be read of it, and whether
    reading on fails. *)
Record bodyReader : Type := mkBodyReader { body_data : string; body_over : bool }.

Record Cookie : Type := mkCookie
  { Cookie_Name : string; Cookie_Value : string; Cookie_Path : string; Cookie_Expires : time;
    Cookie_MaxAge : Z; Cookie_HttpOnly : bool; Cookie_SameSiteStrict : bool; Cookie_Secure : bool }.

(** What a response carries. *)
Inductive webBody : Type :=
  | BError (message : string)
  | BLogin (user role : string)
  | BSession (authenticated : bool) (user role : string) (registration_enabled : bool)
  | BOk
  | BPassword (user role : string)
  | BKeys (keys : list FixedUserKey)
  | BKey (key : FixedUserKey)
  | BUsers (users : list PublicUser)
  | BUser (user : PublicUser)
  | BOther (path : string).

Record webReply : Type := mkWebReply
  { reply_Status : Z; reply_RetryAfter : option Z; reply_Cookie : option Cookie;
    reply_Body : webBody }.

Definition writeJSON (status : Z) (body : webBody) : webReply := mkWebReply status None None body.
Definition writeJSONError (status : Z) (message : string) : webReply :=
  writeJSON status (BError message).
Definition retryLater (seconds : Z) (message : string) : webReply :=
  mkWebReply StatusTooManyRequests (Some seconds) None (BError message).
Definition withCookie (cookie : Cookie) (status : Z) (body : webBody) : webReply :=
  mkWebReply status None (Some cookie) body.

(** [max(1, int(retryAfter.Round(time.Second)/time.Second))]. *)
Definition retrySeconds (retryAfter : duration) : Z :=
  Z.max 1 (Z.quot (Round retryAfter Second) Second).

(** * Data *)

Definition sessionCookieName : string := "gpuardian_session".
Definition sessionTTL : duration := 24 * Hour.
Definition maxAuthenticatedRequests : Z := 64.
Definition maxAuthenticatedRequestsUser : Z := 8.
Definition reservedAdminRequests : Z := 8.
Definition maxAPIRequestBytes : Z := Z.shiftl 64 10.

Record loginRequest : Type := mkLoginRequest { login_Username : string; login_Password : string }.
Record registrationRequest : Type := mkRegistrationRequest
  { registration_Username : string; registration_Password : string }.
Record changePasswordRequest : Type := mkChangePasswordRequest
  { change_CurrentPassword : string; change_NewPassword : string }.
Record createUserRequest : Type := mkCreateUserRequest
  { create_Username : string; create_Password : string; create_Role : string }.
Record deleteUserRequest : Type := mkDeleteUserRequest { delete_Username : string }.

Record sessionPayload : Type := mkSessionPayload
  { payload_User : string; payload_Role : string; payload_CredentialVersion : Z;
    payload_Expires : Z }.
Record sessionInfo : Type := mkSessionInfo { session_User : string; session_Role : string }.

(** encoding/json on session payloads, and on the bodies, with unknown fields
    refused: the first value and the reader after it. *)
Class WebJSON : Type := {
  MarshalSession : sessionPayload -> string;
  UnmarshalSession : string -> error + sessionPayload;
  DecodeLogin : bodyReader -> error + loginRequest * bodyReader;
  DecodeRegistration : bodyReader -> error + registrationRequest * bodyReader;
  DecodeChangePassword : bodyReader -> error + changePasswordRequest * bodyReader;
  DecodeCreateUser : bodyReader -> error + createUserRequest * bodyReader;
  DecodeDeleteUser : bodyReader -> error + deleteUserRequest * bodyReader;
  DecodeEmptyBody : bodyReader -> option error
}.

Definition errEOFText : string := "EOF".

(** The body as [securityMiddleware] limits it. *)
Definition limitedBody (r : webRequest) : bodyReader :=
  mkBodyReader (stake (Z.to_nat maxAPIRequestBytes) (q_Body r)) (maxAPIRequestBytes <? slen (q_Body r)).

(** [decodeJSONBody], on what the first [Decode] answers. *)
Definition decodeJSONBody `{WebJSON} {A} (decode : bodyReader -> error + A * bodyReader)
    (r : webRequest) : error + A :=
  match decode (limitedBody r) with
  | inl err => inl err
  | inr (x, rest) =>
      match DecodeEmptyBody rest with
      | Some err => if errors_Is err errEOFText then inr x else inl err
      | None => inl (ErrorString "request body must contain one JSON value")
      end
  end.

(** * Keys of the counters of attempts *)

Definition loginIPAttemptKeyWithTrust `{NetIP} (r : webRequest) (trustLoopbackProxy : bool) : string :=
  let host := default (TrimSpace (q_RemoteAddr r)) (SplitHostPort (TrimSpace (q_RemoteAddr r))) in
  let remoteIP := ParseIP (TrimOf isBracket host) in
  let host :=
    match remoteIP with
    | Some ip =>
        if trustLoopbackProxy && IsLoopback ip then
          let forwarded := cutHead (q_ForwardedFor r) ","%char in
          match ParseIP (TrimSpace forwarded) with
          | Some forwardedIP => IPString forwardedIP
          | None => host
          end
        else host
    | None => host
    end in
  "ip:" +:+ ToLower host.

(** The digest of a user name, as the keys carry it. *)
Definition usernameDigest (username : string) : string :=
  EncodeToString RawURLEncoding
    (string_of_bytes (Sum256 (bytes_of_string (ToLower (TrimSpace username))))).
Definition loginAttemptKeyForIP (ipKey username : string) : string :=
  ipKey +:+ ":user:" +:+ usernameDigest username.
Definition loginUsernameAttemptKey (username : string) : string :=
  "login:user:" +:+ usernameDigest username.
Definition registrationAttemptKeyForIP (ipKey : string) : string := "registration:" +:+ ipKey.
Definition passwordChangeAttemptKey (username : string) : string :=
  "password:user:" +:+ usernameDigest username.

Definition onAttempts {A} (m : M Attempts A) : M Gateway A := fun g =>
  let '(r, a) := m (g_attempts g) in (r, g_set_attempts a g).
Definition now : M Gateway time := onHost time_Now.

Definition sameOwner (left right : string) : bool :=
  match normalizeUsername left, normalizeUsername right with
  | inr leftName, inr rightName => leftName =s rightName
  | _, _ => false
  end.

Definition requestManagedKeySync : M Gateway unit := modify (g_set_sync true).

(** * Sessions *)

Section session.
Context `{UsersJSON} `{AEAD} `{Elsewhere} `{NetIP} `{WebJSON}.
(** [s.Cfg] and [s.sessionKey]. *)
Variables (Cfg : Config.Config) (sessionKey : list Z).

Definition loginIPAttemptKey (r : webRequest) : string :=
  loginIPAttemptKeyWithTrust r (WebTrustProxy Cfg).

Definition sessionSignature (data : string) : list Z :=
  HmacSHA256 sessionKey (bytes_of_string data).

(** [UserStore.Get] under its mutex, with its error inspected. *)
Definition getUser (username : string) : M Gateway (option UserRecord) :=
  elsewhere ;;
  r ← try (UserStore_Get username);
  ret (match r with inr user => user | inl _ => None end).

(** The value of a cookie that carries [data]. *)
Definition signedValue (data : string) : string :=
  EncodeToString RawURLEncoding data +:+ "." +:+
    EncodeToString RawURLEncoding (string_of_bytes (sessionSignature data)).

Definition signSession (user role : string) (expires : time) : M Gateway string :=
  record ← getUser user;
  let credentialVersion :=
    match record with Some record => UnixNano (user_UpdatedAt record) | None => 0 end in
  ret (signedValue (MarshalSession (mkSessionPayload user role credentialVersion (Unix expires)))).

Definition verifySession (value : string) : option sessionPayload :=
  if 2048 <? slen value then None
  else match Split value "."%char with
       | [part0; part1] =>
           match DecodeString RawURLEncoding part0, DecodeString RawURLEncoding part1 with
           | Some data, Some signature =>
               if negb (bool_decide (bytes_of_string signature = sessionSignature data)) then None
               else match UnmarshalSession data with inr payload => Some payload | inl _ => None end
           | _, _ => None
           end
       | _ => None
       end.

Definition sessionUser (r : webRequest) : M Gateway (option sessionInfo) :=
  match q_Cookie r with
  | None => ret None
  | Some value =>
      if value =s "" then ret None
      else match verifySession value with
           | None => ret None
           | Some payload =>
               if payload_Expires payload <=? 0 then ret None
               else
                 t ← now;
                 if payload_Expires payload <=? Unix t then ret None
                 else
                   user ← getUser (payload_User payload);
                   match user with
                   | None => ret None
                   | Some user =>
                       if (payload_CredentialVersion payload =? 0) ||
                          negb (payload_CredentialVersion payload =? UnixNano (user_UpdatedAt user))
                       then ret None
                       else ret (Some (mkSessionInfo (user_Username user) (user_Role user)))
                   end
           end
  end.

Definition sessionCookie (r : webRequest) (value : string) (expires : time) : Cookie :=
  mkCookie sessionCookieName value "/" expires (Z.quot sessionTTL Second) true true
    (WebSecureCookies Cfg || q_TLS r).
Definition clearSessionCookie (r : webRequest) : Cookie :=
  mkCookie sessionCookieName "" "/" (unixEpoch * Second) (-1) true true
    (WebSecureCookies Cfg || q_TLS r).

(** The reply of a handler that logs the user in. *)
Definition loggedIn (r : webRequest) (user : PublicUser) (status : Z) (body : webBody)
    : M Gateway webReply :=
  t ← now;
  let expires := TimeAdd t sessionTTL in
  value ← signSession (public_Username user) (public_Role user) expires;
  ret (withCookie (sessionCookie r value expires) status body).

(** * The limits on requests *)

Definition activeOf (user : string) (g : Gateway) : Z := default 0 (g_activeUsers g !! user).

Definition acquireAuthenticatedRequest (session : sessionInfo) : M Gateway bool :=
  g ← get;
  let user := ToLower (TrimSpace (session_User session)) in
  if (maxAuthenticatedRequests <=? g_activeTotal g) ||
     (maxAuthenticatedRequestsUser <=? activeOf user g) then ret false
  else if (session_Role session <>s RoleAdmin) &&
          (maxAuthenticatedRequests - reservedAdminRequests <=? g_activeNonAdmin g) then ret false
  else
    modify (g_set_active (<[user := activeOf user g + 1]> (g_activeUsers g)) (g_activeTotal g + 1)
      (g_activeNonAdmin g + if session_Role session <>s RoleAdmin then 1 else 0)) ;;
    ret true.

(** The function that [acquireAuthenticatedRequest] returns, called once. *)
Definition releaseAuthenticatedRequest (session : sessionInfo) : M Gateway unit :=
  g ← get;
  let user := ToLower (TrimSpace (session_User session)) in
  let active := <[user := activeOf user g - 1]> (g_activeUsers g) in
  let active := if activeOf user g - 1 =? 0 then delete user active else active in
  modify (g_set_active active (g_activeTotal g - 1)
    (g_activeNonAdmin g - if session_Role session <>s RoleAdmin then 1 else 0)).

Definition requireSession (next : sessionInfo -> webRequest -> M Gateway webReply) (r : webRequest)
    : M Gateway webReply :=
  session ← sessionUser r;
  match session with
  | None => ret (writeJSONError StatusUnauthorized "authentication required")
  | Some session =>
      elsewhere ;;
      ok ← acquireAuthenticatedRequest session;
      if negb ok then ret (retryLater 1 "too many concurrent requests; retry shortly")
      else
        reply ← try (next session r);
        elsewhere ;;
        releaseAuthenticatedRequest session ;;
        fromResult reply
  end.

Definition requireAdmin (next : sessionInfo -> webRequest -> M Gateway webReply)
    : webRequest -> M Gateway webReply :=
  requireSession (fun session r =>
    if session_Role session <>s RoleAdmin
    then ret (writeJSONError StatusForbidden "admin access required")
    else next session r).

(** * Handlers *)

Definition notAllowed : webReply := writeJSONError StatusMethodNotAllowed "method not allowed".
Definition badRequest (err : error) : webReply := writeJSONError StatusBadRequest (Error err).

Definition handleLogin (r : webRequest) : M Gateway webReply :=
  if q_Method r <>s "POST" then ret notAllowed
  else match decodeJSONBody DecodeLogin r with
  | inl err => ret (badRequest err)
  | inr req =>
      t ← now;
      let ipKey := loginIPAttemptKey r in
      let loginKey := loginAttemptKeyForIP ipKey (login_Username req) in
      let userKey := loginUsernameAttemptKey (login_Username req) in
      '(allowed, retryAfter) ← onAttempts (reserveLoginAttempt loginKey ipKey userKey t);
      if negb allowed
      then ret (retryLater (retrySeconds retryAfter) "too many login attempts; try again later")
      else
        elsewhere ;;
        user ← try (AuthenticateContext (login_Username req) (login_Password req));
        elsewhere ;;
        match user with
        | inl err =>
            if errors_Is err "context canceled" || errors_Is err "context deadline exceeded" then
              onAttempts (releaseLoginReservation [loginKey; ipKey; userKey]) ;;
              ret (writeJSONError StatusRequestTimeout "authentication request canceled")
            else if errors_Is err errPasswordWorkBusyText then
              onAttempts (releaseLoginReservation [loginKey; ipKey; userKey]) ;;
              ret (retryLater 1 "authentication is temporarily busy; try again")
            else ret (writeJSONError StatusUnauthorized "Invalid username or password")
        | inr user =>
            onAttempts (releaseLoginReservation [loginKey; ipKey; userKey]) ;;
            loggedIn r user StatusOK (BLogin (public_Username user) (public_Role user))
        end
  end.

Definition handleRegister (r : webRequest) : M Gateway webReply :=
  if negb (WebAllowRegistration Cfg) then ret (writeJSONError StatusNotFound "not found")
  else if q_Method r <>s "POST" then ret notAllowed
  else match decodeJSONBody DecodeRegistration r with
  | inl err => ret (badRequest err)
  | inr req =>
      match normalizeUsername (registration_Username req),
            validatePassword (registration_Password req) with
      | inl err, _ => ret (badRequest err)
      | inr _, Some err => ret (badRequest err)
      | inr _, None =>
          let ipKey := registrationAttemptKeyForIP (loginIPAttemptKey r) in
          t ← now;
          '(allowed, retryAfter) ← onAttempts (reserveRegistrationAttempt ipKey t);
          if negb allowed
          then ret (retryLater (retrySeconds retryAfter)
                      "too many account creation attempts; try again later")
          else
            elsewhere ;;
            user ← try (UserStore_Create (registration_Username req)
                          (registration_Password req) RoleUser);
            elsewhere ;;
            match user with
            | inl err =>
                if errors_Is err errPasswordWorkBusyText then
                  onAttempts (releaseLoginReservation [ipKey; registrationGlobalAttemptKey]) ;;
                  ret (retryLater 1 "account creation is temporarily busy; try again")
                else if errors_Is err errUsernameInUseText
                then ret (writeJSONError StatusConflict (Error err))
                else if errors_Is err errUserLimitReachedText
                then ret (writeJSONError StatusServiceUnavailable
                            "account registration is unavailable")
                else ret (writeJSONError StatusInternalServerError "unable to create account")
            | inr user =>
                requestManagedKeySync ;;
                loggedIn r user StatusCreated (BLogin (public_Username user) (public_Role user))
            end
      end
  end.

Definition handleSession (r : webRequest) : M Gateway webReply :=
  if q_Method r <>s "GET" then ret notAllowed
  else
    session ← sessionUser r;
    let info := default (mkSessionInfo "" "") session in
    ret (writeJSON StatusOK
      (BSession (match session with Some _ => true | None => false end)
         (session_User info) (session_Role info) (WebAllowRegistration Cfg))).

Definition handleLogout (session : sessionInfo) (r : webRequest) : M Gateway webReply :=
  if q_Method r <>s "POST" then ret notAllowed
  else ret (withCookie (clearSessionCookie r) StatusOK BOk).

Definition handleChangePassword (session : sessionInfo) (r : webRequest) : M Gateway webReply :=
  if q_Method r <>s "POST" then ret notAllowed
  else match decodeJSONBody DecodeChangePassword r with
  | inl err => ret (badRequest err)
  | inr req =>
      let passwordKey := passwordChangeAttemptKey (session_User session) in
      t ← now;
      '(allowed, retryAfter) ← onAttempts (reserveSingleAttempt passwordKey t passwordChangeLimit);
      if negb allowed
      then ret (retryLater (retrySeconds retryAfter)
                  "too many password change attempts; try again later")
      else
        elsewhere ;;
        user ← try (ChangePassword (session_User session) (change_CurrentPassword req)
                      (change_NewPassword req));
        elsewhere ;;
        match user with
        | inl err =>
            if errors_Is err errPasswordWorkBusyText then
              onAttempts (releaseLoginReservation [passwordKey]) ;;
              ret (retryLater 1 "password service is temporarily busy; try again")
            else ret (badRequest err)
        | inr user =>
            loggedIn r user StatusOK (BPassword (public_Username user) (public_Role user))
        end
  end.

(** The keys are answered without the state of their distribution to the nodes
    ([managedKeyStatuses]). *)
Definition handleKeys (session : sessionInfo) (r : webRequest) : M Gateway webReply :=
  let path := TrimOf isSlash (TrimPrefix (q_Path r) "/api/keys") in
  if path =s "" then
    if q_Method r <>s "GET" then ret notAllowed
    else
      elsewhere ;;
      keys ← try FixedKeys;
      match keys with
      | inl err => ret (writeJSONError StatusInternalServerError (Error err))
      | inr keys =>
          ret (writeJSON StatusOK (BKeys
            (if session_Role session <>s RoleAdmin
             then List.filter (fun key => sameOwner (key_Owner key) (session_User session)) keys
             else keys)))
      end
  else match Split path "/"%char with
  | [username; action] =>
      if (action <>s "reveal") && (action <>s "regenerate")
      then ret (writeJSONError StatusNotFound "not found")
      else if (session_Role session <>s RoleAdmin) && negb (sameOwner username (session_User session))
      then ret (writeJSONError StatusForbidden "key access denied")
      else if q_Method r <>s "POST" then ret notAllowed
      else
        elsewhere ;;
        key ← try (if action =s "reveal" then RevealFixedKey username
                   else key ← RegenerateFixedKey username; requestManagedKeySync ;; ret key);
        match key with
        | inl err => ret (badRequest err)
        | inr key => ret (writeJSON StatusOK (BKey key))
        end
  | _ => ret (writeJSONError StatusNotFound "not found")
  end.

Definition handleUsers (session : sessionInfo) (r : webRequest) : M Gateway webReply :=
  if q_Method r =s "GET" then
    elsewhere ;;
    users ← try UserStore_List;
    match users with
    | inl err => ret (writeJSONError StatusInternalServerError (Error err))
    | inr users => ret (writeJSON StatusOK (BUsers users))
    end
  else if q_Method r =s "POST" then
    match decodeJSONBody DecodeCreateUser r with
    | inl err => ret (badRequest err)
    | inr req =>
        elsewhere ;;
        user ← try (UserStore_Create (create_Username req) (create_Password req) (create_Role req));
        match user with
        | inl err =>
            if errors_Is err errPasswordWorkBusyText
            then ret (retryLater 1 "password service is temporarily busy; try again")
            else ret (badRequest err)
        | inr user => requestManagedKeySync ;; ret (writeJSON StatusCreated (BUser user))
        end
    end
  else if q_Method r =s "DELETE" then
    match decodeJSONBody DecodeDeleteUser r with
    | inl err => ret (badRequest err)
    | inr req =>
        if sameOwner (delete_Username req) (session_User session)
        then ret (writeJSONError StatusBadRequest "cannot delete the current user")
        else
          elsewhere ;;
          done ← try (UserStore_Delete (delete_Username req));
          match done with
          | inl err => ret (badRequest err)
          | inr _ => requestManagedKeySync ;; ret (writeJSON StatusOK BOk)
          end
    end
  else ret notAllowed.

(** * Routes *)

(** What only reads or talks to nodes, behind the check of the session. *)
Definition otherRoute (session : sessionInfo) (r : webRequest) : M Gateway webReply :=
  ret (writeJSON StatusOK (BOther (q_Path r))).

(** [routes]: the patterns of the multiplexer, which redirects paths that are not
    clean before any handler runs. *)
Definition mux (r : webRequest) : M Gateway webReply :=
  let path := q_Path r in
  if path =s "/api/login" then handleLogin r
  else if (path =s "/api/register") && WebAllowRegistration Cfg then handleRegister r
  else if path =s "/api/session" then handleSession r
  else if path =s "/api/logout" then requireSession handleLogout r
  else if path =s "/api/password" then requireSession handleChangePassword r
  else if path =s "/api/users" then requireAdmin handleUsers r
  else if (path =s "/api/keys") || HasPrefix path "/api/keys/" then requireSession handleKeys r
  else if (path =s "/api/servers") || HasPrefix path "/api/servers/" ||
          (path =s "/api/fleet/snapshot") || (path =s "/api/history/summary") ||
          (path =s "/api/history/search") || (path =s "/api/history/sessions") ||
          HasPrefix path "/api/history/sessions/" then requireSession otherRoute r
  else if HasPrefix path "/api/" then ret (writeJSONError StatusNotFound "not found")
  else ret (writeJSON StatusOK (BOther path)).

Definition requestChangesState (method : string) : bool :=
  negb ((method =s "GET") || (method =s "HEAD") || (method =s "OPTIONS")).
Definition requestHasBody (r : webRequest) : bool :=
  negb (q_ContentLength r =? 0) || (0 <? llen (q_TransferEncoding r)).
Definition requestHasJSONContentType (r : webRequest) : bool :=
  match q_mediaType r with Some t => EqualFold t "application/json" | None => false end.
Definition sameOriginRequest (r : webRequest) : bool :=
  if ToLower (TrimSpace (q_FetchSite r)) =s "cross-site" then false
  else if q_Origin r =s "" then true
  else match q_OriginHost r with
       | None => false
       | Some host => (host <>s "") && EqualFold host (q_Host r)
       end.

(** [securityMiddleware] around the routes; the headers it sets are left out. *)
Definition serveWeb (r : webRequest) : M Gateway webReply :=
  if HasPrefix (q_Path r) "/api/" && requestChangesState (q_Method r) && negb (sameOriginRequest r)
  then ret (writeJSONError StatusForbidden "cross-origin request denied")
  else if HasPrefix (q_Path r) "/api/" && requestChangesState (q_Method r) && requestHasBody r &&
          negb (requestHasJSONContentType r)
  then ret (writeJSONError StatusUnsupportedMediaType "Content-Type must be application/json")
  else mux r.

End session.
