(* ===== verification/WebSessionFacts.v ===== *)
(** What the sessions of the gateway promise: a session is admitted only with a
    signature, in its time, for a live account whose credentials have not changed;
    a login opens one; a new password or a deletion ends it. *)

From Stdlib Require Import Ascii.
From S2P Require Import OutboxSample.
From S2P Require Export WebSession WebAccounts.

(** * The interface of encoding/json *)

(** A payload whose texts are valid UTF-8 survives a round trip; a byte of a text
    takes at most six, an int64 at most twenty. *)
Class WebLaws (J : WebJSON) : Prop := {
  session_roundtrip p : GoConv.ValidString (payload_User p) = true ->
    GoConv.ValidString (payload_Role p) = true ->
    - 2 ^ 63 <= payload_CredentialVersion p < 2 ^ 63 -> - 2 ^ 63 <= payload_Expires p < 2 ^ 63 ->
    UnmarshalSession (MarshalSession p) = inr p;
  session_length p : slen (MarshalSession p) <= 128 + 6 * (slen (payload_User p) + slen (payload_Role p))
}.

(** * Cookies *)

Lemma EncodeToString_lacks enc s : lacks "."%char (EncodeToString enc s) = true.
Proof.
  unfold EncodeToString. pose proof (b64_sextets_range _ (bytes_of_string_range s)) as F.
  induction F as [|z l S _ IH]; [done|]. cbn [b64_chars lacks].
  destruct (b64_value_digit enc z S) as (_ & _ & _ & N). rewrite IH, andb_true_r.
  by apply negb_true_iff, Ascii.eqb_neq.
Qed.

Lemma slen_string_of_bytes l : slen (string_of_bytes l) = llen l.
Proof. induction l as [|b l IH]; [done|]. unfold slen, llen in *. cbn. lia. Qed.

Section sessions.
Context `{UsersJSON} `{AEAD} `{Elsewhere} `{NetIP} `{WebJSON}.
Variables (Cfg : Config.Config) (sessionKey : list Z).

(** A value carries a payload under the key of the gateway. *)
Definition carries (value : string) (payload : sessionPayload) : Prop :=
  slen value <= 2048 /\ exists part0 part1 data signature,
    Split value "."%char = [part0; part1] /\
    DecodeString RawURLEncoding part0 = Some data /\
    DecodeString RawURLEncoding part1 = Some signature /\
    bytes_of_string signature = HmacSHA256 sessionKey (bytes_of_string data) /\
    UnmarshalSession data = inr payload.

Lemma verifySession_carries value payload :
  verifySession sessionKey value = Some payload <-> carries value payload.
Proof.
  unfold verifySession, carries. destruct (Z.ltb_spec 2048 (slen value)) as [Lt|Le].
  { split; [done|]. intros [? _]. lia. }
  split.
  - intros R. split; [done|]. destruct (Split value "."%char) as [|p0 [|p1 [|]]]; try done.
    destruct (DecodeString RawURLEncoding p0) as [data|] eqn:E0; [|done].
    destruct (DecodeString RawURLEncoding p1) as [signature|] eqn:E1; [|done].
    destruct (bool_decide _) eqn:B; [|done]. apply bool_decide_eq_true in B.
    cbn [negb] in R. destruct (UnmarshalSession data) as [e|p] eqn:U; [done|]. injection R as <-.
    by exists p0, p1, data, signature.
  - intros (_ & p0 & p1 & data & signature & -> & -> & -> & S & U).
    rewrite bool_decide_eq_true_2 by done. cbn [negb]. by rewrite U.
Qed.

Lemma carries_signed data payload : slen (signedValue sessionKey data) <= 2048 ->
  UnmarshalSession data = inr payload -> carries (signedValue sessionKey data) payload.
Proof.
  intros L U. split; [done|]. unfold signedValue, sessionSignature.
  set (p1 := EncodeToString RawURLEncoding (string_of_bytes _)).
  exists (EncodeToString RawURLEncoding data), p1, data.
  exists (string_of_bytes (HmacSHA256 sessionKey (bytes_of_string data))).
  split; [rewrite Split_part by apply EncodeToString_lacks; f_equal;
          apply Split_last, EncodeToString_lacks|].
  split; [apply DecodeString_Encode|]. split; [apply DecodeString_Encode|]. split; [|done].
  apply bytes_of_string_of, Sum256_bytes.
Qed.

Lemma slen_signedValue data : slen data <= 1024 -> slen (signedValue sessionKey data) <= 2048.
Proof.
  intros L. unfold signedValue. rewrite !slen_app. change (slen ".") with 1.
  pose proof (slen_EncodeToString RawURLEncoding data).
  pose proof (slen_EncodeToString RawURLEncoding (string_of_bytes (sessionSignature sessionKey data))) as S.
  rewrite slen_string_of_bytes in S.
  assert (llen (sessionSignature sessionKey data) = 32) as E.
  { unfold sessionSignature, HmacSHA256, llen. by rewrite length_Sum256. }
  rewrite E in S. lia.
Qed.

(** * Admission *)

Lemma getUser_answer username g r g' : getUser username g = (r, g') ->
  exists answer, r = inr answer /\ (forall u, answer = Some u ->
    loaded g' /\ exists name, normalizeUsername username = inr name /\
      List.find (live name) (users g') = Some u).
Proof.
  intros R. unfold getUser in R.
  assert (exists g1, elsewhere g = (inr tt, g1)) as [g1 E] by by eexists.
  rewrite (bind_run _ _ _ _ _ E) in R. unfold mbind, M_bind, bind, try in R.
  destruct (UserStore_Get username g1) as [[e|x] g2] eqn:G; injection R as <- <-;
    (eexists; split; [reflexivity|]); [done|]. intros u ->.
  unfold UserStore_Get in G. destruct (normalizeUsername username) as [e|name]; [done|].
  apply answer_bind in G as (l & g3 & (L & U)%load_answer & G). injection G as F <-.
  split; [done|]. exists name. by rewrite U.
Qed.

Lemma admission r g info g' :
  sessionUser sessionKey r g = (inr (Some info), g') ->
  loaded g' /\ exists value payload name u, q_Cookie r = Some value /\
    carries value payload /\
    Unix (h_clock (g_host g) (h_ticks (g_host g))) < payload_Expires payload /\
    normalizeUsername (payload_User payload) = inr name /\
    List.find (live name) (users g') = Some u /\
    payload_CredentialVersion payload = UnixNano (user_UpdatedAt u) /\
    payload_CredentialVersion payload <> 0 /\
    info = mkSessionInfo (user_Username u) (user_Role u).
Proof.
  intros R. unfold sessionUser in R. destruct (q_Cookie r) as [value|]; [|done].
  destruct (value =s ""); [done|]. destruct (verifySession sessionKey value) as [p|] eqn:V; [|done].
  destruct (payload_Expires p <=? 0); [done|].
  apply answer_bind in R as (t & g1 & (h & T & ->)%onHost_answer & R). injection T as <- <-.
  destruct (Z.leb_spec (payload_Expires p) (Unix (h_clock (g_host g) (h_ticks (g_host g)))))
    as [|Lt]; [done|].
  apply answer_bind in R as (x & g2 & G & R). apply getUser_answer in G as (x' & [= ->] & G).
  destruct x' as [u|]; [|done]. destruct (G u eq_refl) as (L & name & N & F).
  destruct (Z.eqb_spec (payload_CredentialVersion p) 0) as [|Nz]; [done|].
  destruct (Z.eqb_spec (payload_CredentialVersion p) (UnixNano (user_UpdatedAt u))) as [Cv|]; [|done].
  cbn [orb negb] in R. injection R as <- <-. split; [done|]. exists value, p, name, u.
  split; [done|]. split; [by apply verifySession_carries|]. done.
Qed.

(** C27. What it takes to be admitted.  When a request is taken for a user, it carried
    a value of at most 2048 bytes with a payload signed by HMAC-SHA-256 under the key
    of the gateway, the clock was before the time at which the payload expires, and
    at the end of the check the account that the payload names is in the list and
    live, with the credential version of the payload; the user and the role are those
    of the account, not those of the payload. *)
Theorem admitted_sessions_are_genuine r g info g' :
  sessionUser sessionKey r g = (inr (Some info), g') ->
  loaded g' /\ exists value payload name u, q_Cookie r = Some value /\
    carries value payload /\
    Unix (h_clock (g_host g) (h_ticks (g_host g))) < payload_Expires payload /\
    normalizeUsername (payload_User payload) = inr name /\
    List.find (live name) (users g') = Some u /\
    payload_CredentialVersion payload = UnixNano (user_UpdatedAt u) /\
    payload_CredentialVersion payload <> 0 /\
    info = mkSessionInfo (user_Username u) (user_Role u).
Proof. apply admission. Qed.

(** * A login opens a session *)

(** Between 1970 and 2242, where [UnixNano] does not wrap around. *)
Definition modern (t : time) : Prop := (unixEpoch + 1) * Second <= t < (unixEpoch + 2 ^ 33) * Second.

Lemma UnixNano_modern t : modern t -> UnixNano t = t - unixEpoch * Second /\ 0 < UnixNano t < 2 ^ 63.
Proof.
  unfold modern, UnixNano, i64, unixEpoch, Second. intros M. rewrite Z.mod_small by lia. lia.
Qed.

Lemma Unix_bounds t : modern t -> 0 < Unix t < 2 ^ 33.
Proof. unfold modern, Unix, unixEpoch, Second. intros M. divmod. Qed.

(** What a record must be for a cookie to carry its name and role. *)
Record presentable (u : UserRecord) : Prop := mkPresentable
  { pr_normal : normalName (user_Username u);
    pr_name : GoConv.ValidString (user_Username u) = true;
    pr_role : GoConv.ValidString (user_Role u) = true /\ slen (user_Role u) <= 64;
    pr_updated : modern (user_UpdatedAt u) }.

Lemma getUser_run username name g : alone -> loaded g -> normalizeUsername username = inr name ->
  getUser username g = (inr (List.find (live name) (users g)), g_set_turns (S (g_turns g)) g).
Proof.
  intros [O _] L N. unfold getUser.
  assert (elsewhere g = (inr tt, g_set_turns (S (g_turns g)) g)) as E by (unfold elsewhere; by rewrite O).
  rewrite (bind_run _ _ _ _ _ E). unfold UserStore_Get. rewrite N.
  set (g1 := g_set_turns _ g). assert (loaded g1) as L1 by done.
  assert (try (UserStore_loadLocked ≫= (fun l => ret (List.find (live name) l))) g1 =
    (inr (inr (List.find (live name) (users g1))), g1)) as T.
  { unfold try. by rewrite (bind_run _ _ _ _ _ (load_run g1 L1)). }
  by rewrite (bind_run _ _ _ _ _ T).
Qed.

(** What is signed for a record is admitted while it is as it was. *)
Lemma sessionUser_run r value payload name u g : alone -> loaded g ->
  q_Cookie r = Some value -> value <> "" -> carries value payload ->
  Unix (h_clock (g_host g) (h_ticks (g_host g))) < payload_Expires payload -> 0 < payload_Expires payload ->
  normalizeUsername (payload_User payload) = inr name -> List.find (live name) (users g) = Some u ->
  payload_CredentialVersion payload = UnixNano (user_UpdatedAt u) ->
  payload_CredentialVersion payload <> 0 ->
  exists g', sessionUser sessionKey r g = (inr (Some (mkSessionInfo (user_Username u) (user_Role u))), g') /\
    loaded g' /\ users g' = users g.
Proof.
  intros Al L Q Ne C%verifySession_carries T P N F V Nz. unfold sessionUser.
  rewrite Q, (proj2 (String.eqb_neq _ _) Ne), C, (proj2 (Z.leb_gt _ _) P).
  rewrite (bind_run now _ g _ _ eq_refl), (proj2 (Z.leb_gt _ _) T).
  set (g1 := g_set_host _ g). assert (loaded g1) as L1 by done.
  rewrite (bind_run _ _ _ _ _ (getUser_run _ _ g1 Al L1 N)). change (users g1) with (users g).
  rewrite F, (proj2 (Z.eqb_neq _ _) Nz), V, Z.eqb_refl. cbn [orb negb].
  eexists. split; [reflexivity|]. by split.
Qed.

(** The cookie that a login for a record is answered with. *)
Lemma loggedIn_run r pu u status body g : alone -> loaded g ->
  public_Username pu = user_Username u -> public_Role pu = user_Role u ->
  normalName (user_Username u) -> List.find (live (user_Username u)) (users g) = Some u ->
  let expires := TimeAdd (h_clock (g_host g) (h_ticks (g_host g))) sessionTTL in
  exists g', loggedIn Cfg sessionKey r pu status body g =
    (inr (withCookie (sessionCookie Cfg r (signedValue sessionKey (MarshalSession
       (mkSessionPayload (user_Username u) (user_Role u) (UnixNano (user_UpdatedAt u)) (Unix expires))))
       expires) status body), g') /\
    loaded g' /\ users g' = users g /\ h_clock (g_host g') = h_clock (g_host g).
Proof.
  intros Al L En Er Nn F expires. unfold loggedIn. rewrite (bind_run now _ g _ _ eq_refl).
  set (g1 := g_set_host _ g). assert (loaded g1) as L1 by done. cbv zeta.
  fold expires. unfold signSession. rewrite En, Er.
  assert (forall B (k : option UserRecord -> M Gateway string) (f : string -> M Gateway B) s r s',
    (getUser (user_Username u) s = (inr r, s')) ->
    ((getUser (user_Username u) ≫= k) ≫= f) s = (k r ≫= f) s') as X.
  { intros B k f s x s' E. unfold mbind, M_bind, bind. by rewrite E. }
  rewrite (X _ _ _ _ _ _ (getUser_run _ _ g1 Al L1 Nn)). change (users g1) with (users g). rewrite F.
  eexists. split; [reflexivity|]. by repeat split.
Qed.

Lemma payload_carries `{!WebLaws H3} u t : presentable u -> modern t ->
  let payload := mkSessionPayload (user_Username u) (user_Role u) (UnixNano (user_UpdatedAt u)) (Unix t) in
  carries (signedValue sessionKey (MarshalSession payload)) payload.
Proof.
  intros [Nn Vn [Vr Lr] Up] M payload. apply carries_signed.
  - apply slen_signedValue. etrans; [apply session_length|]. cbn [payload payload_User payload_Role].
    apply normalName_short in Nn. unfold maxUsernameBytes in Nn. lia.
  - apply session_roundtrip; cbn [payload payload_User payload_Role payload_CredentialVersion
      payload_Expires]; [done..| |].
    + destruct (UnixNano_modern _ Up) as [_ B]. lia.
    + destruct (Unix_bounds _ M) as [B1 B2]. lia.
Qed.

Lemma signedValue_nonempty data : signedValue sessionKey data <> "".
Proof.
  unfold signedValue. destruct (EncodeToString RawURLEncoding data); done.
Qed.

(** The value that was signed for a record admits a request while the record is as
    it was. *)
Lemma signed_admitted `{!WebLaws H3} r u t g : alone -> loaded g -> presentable u -> modern t ->
  List.find (live (user_Username u)) (users g) = Some u ->
  q_Cookie r = Some (signedValue sessionKey (MarshalSession
    (mkSessionPayload (user_Username u) (user_Role u) (UnixNano (user_UpdatedAt u)) (Unix t)))) ->
  Unix (h_clock (g_host g) (h_ticks (g_host g))) < Unix t ->
  exists g', sessionUser sessionKey r g = (inr (Some (mkSessionInfo (user_Username u) (user_Role u))), g') /\
    loaded g' /\ users g' = users g.
Proof.
  intros Al L Pr M F Q T. pose proof (payload_carries u t Pr M) as Ca.
  destruct (Unix_bounds _ M), (UnixNano_modern _ (pr_updated _ Pr)).
  apply (sessionUser_run r _ _ (user_Username u) u g Al L Q (signedValue_nonempty _) Ca T);
    cbn [payload_User payload_CredentialVersion payload_Expires]; [lia|apply Pr|done|done|lia].
Qed.

(** A login opens a session.  When a login is answered with 200 while nothing
    interferes, the password given verified against the hash of the account that the
    answer names, and the answer sets a cookie; a request that carries its value is
    admitted, for that account with its role, at any later moment before the cookie
    expires, 24 hours after it was made, as long as the account is as it was. *)
Theorem login_opens_session `{!WebLaws H3} r g reply g' : alone ->
  handleLogin Cfg sessionKey r g = (inr reply, g') -> reply_Status reply = StatusOK ->
  Forall presentable (users g') ->
  (forall n, modern (TimeAdd (h_clock (g_host g') n) sessionTTL)) ->
  exists req u cookie n, decodeJSONBody DecodeLogin r = inr req /\ u ∈ users g' /\
    normalizeUsername (login_Username req) = inr (user_Username u) /\
    verifyPasswordHash (user_PasswordHash u) (login_Password req) = true /\
    reply = mkWebReply StatusOK None (Some cookie) (BLogin (user_Username u) (user_Role u)) /\
    Cookie_Expires cookie = TimeAdd (h_clock (g_host g') n) sessionTTL /\
    forall r' g1, loaded g1 -> List.find (live (user_Username u)) (users g1) = Some u ->
      q_Cookie r' = Some (Cookie_Value cookie) ->
      Unix (h_clock (g_host g1) (h_ticks (g_host g1))) < Unix (Cookie_Expires cookie) ->
      exists g2, sessionUser sessionKey r' g1 =
        (inr (Some (mkSessionInfo (user_Username u) (user_Role u))), g2).
Proof.
  intros Al R St Pr Clock. unfold handleLogin in R.
  destruct (q_Method r <>s "POST"); [by injection R as <- <-|].
  destruct (decodeJSONBody DecodeLogin r) as [e|req]; [by injection R as <- <-|].
  apply answer_bind in R as (t & g1 & _ & R). cbv zeta in R.
  apply answer_bind in R as ([allowed wait] & g2 & _ & R).
  destruct allowed; cbn [negb] in R; [|by injection R as <- <-].
  apply answer_bind in R as ([] & g3 & _ & R).
  apply answer_bind in R as (x & g4 & A%answer_try & R).
  apply answer_bind in R as ([] & g5 & E5 & R).
  destruct x as [err|pu].
  { destruct (_ || _); [|destruct (errors_Is err errPasswordWorkBusyText); [|by injection R as <- <-]];
      apply answer_bind in R as ([] & g6 & _ & R); by injection R as <- <-. }
  apply authenticate_answer in A as (L4 & name & l1 & u & l2 & N & U & F & Lv & -> & Ve & _).
  assert (loaded g5 /\ users g5 = users g4) as [L5 U5].
  { destruct Al as [O _]. unfold elsewhere in E5. rewrite O in E5. by injection E5 as <-. }
  apply answer_bind in R as ([] & g6 & E6 & R).
  assert (loaded g6 /\ users g6 = users g5) as [L6 U6].
  { unfold onAttempts in E6. destruct (releaseLoginReservation _ _). by injection E6 as _ <-. }
  pose proof Lv as [Nm%String.eqb_eq _]%andb_true_iff. subst name.
  assert (List.find (live (user_Username u)) (users g6) = Some u) as Fi
    by (rewrite U6, U5, U; by apply find_live).
  destruct (loggedIn_run r (publicUser u) u StatusOK (BLogin (user_Username u) (user_Role u)) g6 Al L6
    eq_refl eq_refl (normalizeUsername_normal _ _ N) Fi) as (g7 & E7 & L7 & U7 & C7).
  cbn [public_Username public_Role publicUser] in R. rewrite E7 in R. injection R as <- <-.
  assert (u ∈ users g7) as I.
  { rewrite U7, U6, U5, U. apply elem_of_app. right. by left. }
  exists req, u. eexists _, (h_ticks (g_host g6)). split; [done|]. split; [exact I|].
  split; [done|]. split; [done|]. split; [reflexivity|].
  cbn [Cookie_Expires Cookie_Value sessionCookie]. split; [by rewrite C7|].
  intros r' g8 L8 F8 Q T. rewrite Forall_forall in Pr. specialize (Pr u I).
  specialize (Clock (h_ticks (g_host g6))). rewrite C7 in Clock.
  destruct (signed_admitted r' u _ g8 Al L8 Pr Clock F8 Q T) as (g9 & E9 & _). by exists g9.
Qed.

Lemma release_total keys m : exists m', releaseLoginReservation keys m = (inr tt, m').
Proof.
  revert m. induction keys as [|key keys IH]; intros m; cbn [releaseLoginReservation]; [by exists m|].
  assert (exists m1, releaseAttempt key m = (inr tt, m1)) as [m1 E].
  { unfold releaseAttempt, mbind, M_bind, bind, get. destruct (m !! key) as [x|]; [|by eexists].
    cbv zeta. destruct (_ <=? 0); by eexists. }
  rewrite (bind_run _ _ _ _ _ E). apply IH.
Qed.

(** A login for the account that was added last, when attempts are left. *)
Lemma handleLogin_new clock r req name l u w q c g a : alone ->
  q_Method r = "POST" -> decodeJSONBody DecodeLogin r = inr req ->
  normalizeUsername (login_Username req) = inr name -> name ∉ names l -> live name u = true ->
  verifyPasswordHash (user_PasswordHash u) (login_Password req) = true ->
  passwordHashNeedsUpgrade (user_PasswordHash u) = false ->
  w < maxConcurrentPasswordWork -> q < maxQueuedPasswordWork -> stays clock (l ++ [u]) w q c g ->
  reserveLoginAttempt (loginAttemptKeyForIP (loginIPAttemptKey Cfg r) (login_Username req))
    (loginIPAttemptKey Cfg r) (loginUsernameAttemptKey (login_Username req))
    (h_clock (g_host g) (h_ticks (g_host g))) (g_attempts g) = (inr (true, 0), a) ->
  exists reply g', handleLogin Cfg sessionKey r g = (inr reply, g') /\ reply_Status reply = StatusOK /\
    users g' = l ++ [u] /\ h_clock (g_host g') = clock.
Proof.
  intros Al Po Dc En N Lv Ve Up W Q S Rs. unfold handleLogin. rewrite Po, Dc.
  change ("POST" <>s "POST") with false. cbv iota.
  rewrite (bind_run now _ g _ _ eq_refl). set (g1 := g_set_host _ g).
  assert (stays clock (l ++ [u]) w q c (g_set_attempts a g1)) as S1 by (by destruct S; split).
  assert (forall A (m : M Attempts A) x s s' a', m (g_attempts s) = (inr x, a') -> g_set_attempts a' s = s' ->
    onAttempts m s = (inr x, s')) as On by (intros A m x s s' a' E <-; unfold onAttempts; by rewrite E).
  rewrite (bind_run _ _ _ _ _ (On _ _ _ g1 _ a Rs eq_refl)). cbv zeta. cbn [negb].
  destruct (elsewhere_stays Al _ _ _ _ _ _ S1) as ([] & g2 & E2 & S2). rewrite (bind_run _ _ _ _ _ E2).
  destruct (authenticate_new Al _ _ _ (login_Password req) true _ _ _ _ _ g2 En N Lv Up W Q S2)
    as (g3 & E3 & S3). rewrite Ve in E3.
  assert (try (AuthenticateContext (login_Username req) (login_Password req)) g2 =
    (inr (inr (publicUser u)), g3)) as T3 by (unfold try, AuthenticateContext; by rewrite E3).
  rewrite (bind_run _ _ _ _ _ T3).
  destruct (elsewhere_stays Al _ _ _ _ _ _ S3) as ([] & g4 & E4 & S4). rewrite (bind_run _ _ _ _ _ E4).
  destruct (release_total [loginAttemptKeyForIP (loginIPAttemptKey Cfg r) (login_Username req);
    loginIPAttemptKey Cfg r; loginUsernameAttemptKey (login_Username req)] (g_attempts g4)) as (a5 & Rl).
  rewrite (bind_run _ _ _ _ _ (On _ _ _ g4 _ a5 Rl eq_refl)).
  pose proof (stays_loaded _ _ _ _ _ _ S4) as L4. pose proof (live_facts _ _ Lv) as [Nm _].
  assert (normalName (user_Username u)) as Nn by (rewrite Nm; by eapply normalizeUsername_normal).
  assert (List.find (live (user_Username u)) (users g4) = Some u) as F.
  { rewrite Nm, (stays_users _ _ _ _ _ _ S4). apply find_live; [by apply not_live|done]. }
  destruct (loggedIn_run r (publicUser u) u StatusOK (BLogin (user_Username u) (user_Role u))
    (g_set_attempts a5 g4) Al L4 eq_refl eq_refl Nn F) as (g6 & E6 & _ & U6 & C6).
  eexists _, g6. split; [exact E6|]. split; [done|]. rewrite U6, C6. split; [apply S4|apply S4].
Qed.


(** * What requests leave alone *)

(** Steps on the accounts, as a relation on gateways. *)
Definition within (P : list UserRecord -> list UserRecord -> Prop) (g g' : Gateway) : Prop :=
  loaded g -> loaded g' /\ P (users g) (users g').

#[export] Instance within_steps P `{!PreOrder P} : Steps (within P).
Proof.
  split.
  - intros g L. by split.
  - intros g1 g2 g3 A B L. destruct (A L) as [L2 P1]. destruct (B L2) as [L3 P2].
    split; [done|]. by etrans.
  - intros g g' L (A & _ & C & _) _. unfold loaded in *. rewrite A, C. by split.
  - intros g g' W L. by apply W.
Qed.

Lemma within_elsewhere P `{!PreOrder P} : alone -> obeys (within P) elsewhere.
Proof.
  intros [O _] l g L _. apply Steps_same; [done|]. unfold final, elsewhere. cbn [snd]. rewrite O.
  by repeat split.
Qed.

Lemma within_save P l l' : P l l -> P l l' -> from (within P) l (UserStore_saveLocked l').
Proof.
  intros Rl Rl' g L E _. destruct (save_run l' g L) as (r & g' & X & [[_ (A & _ & C & _)]|(L' & _ & U & _)]);
    unfold final; rewrite X; cbn [snd].
  - unfold loaded in *. by rewrite A, C, E.
  - by rewrite U, E.
Qed.

(** The check of a session only looks. *)
Lemma sessionUser_obeys r P `{!PreOrder P} : alone -> obeys (within P) (sessionUser sessionKey r).
Proof.
  intros Al. pose proof (within_elsewhere P Al) as Ew. unfold sessionUser, now, getUser, UserStore_Get.
  solve_follows.
Qed.

Lemma sessionUser_keeps r g res g' : alone -> loaded g -> sessionUser sessionKey r g = (res, g') ->
  loaded g' /\ users g' = users g.
Proof.
  intros Al L E. destruct (sessionUser_obeys r eq Al (users g) g L eq_refl L) as [L' U].
  unfold final in L', U. rewrite E in L', U. by split.
Qed.

Lemma sessionUser_total r g : exists o g', sessionUser sessionKey r g = (inr o, g').
Proof.
  unfold sessionUser. destruct (q_Cookie r) as [value|]; [|by eexists _, _].
  destruct (value =s ""); [by eexists _, _|].
  destruct (verifySession sessionKey value) as [p|]; [|by eexists _, _].
  destruct (payload_Expires p <=? 0); [by eexists _, _|].
  rewrite (bind_run now _ g _ _ eq_refl). destruct (_ <=? _); [by eexists _, _|].
  set (g1 := g_set_host _ g). destruct (getUser (payload_User p) g1) as [x g2] eqn:E.
  destruct (getUser_answer _ _ _ _ E) as (answer & -> & _). rewrite (bind_run _ _ _ _ _ E).
  destruct answer as [u|]; [|by eexists _, _]. destruct (_ || _); by eexists _, _.
Qed.

(** * The end of a session *)

Lemma commitPassword_answer before name u0 hash rest g pu g' : loaded g -> users g = before ++ rest ->
  Forall (fun v => live name v = false) before ->
  commitPassword before name u0 hash rest g = (inr pu, g') ->
  loaded g' /\ exists l1 u l2 n, users g' =
      l1 ++ user_set_password hash (h_clock (g_host g') n) u :: l2 /\
    Forall (fun v => live name v = false) l1 /\ live name u = true.
Proof.
  revert before. induction rest as [|u rest IH]; intros before L E F R; cbn [commitPassword] in R; [done|].
  destruct (live name u) eqn:Lv; cbn [negb] in R.
  2: { apply (IH (before ++ [u])); [done|by rewrite <- app_assoc| |done].
       apply Forall_app. split; [done|]. by apply Forall_singleton. }
  destruct (_ || _); [done|].
  apply answer_bind in R as (t & g1 & (h & T & ->)%onHost_answer & R). injection T as <- <-.
  apply answer_bind in R as ([] & g2 & (L' & U & _ & C)%save_answer & R); [|done].
  injection R as <- <-. split; [done|].
  exists before, u, rest, (h_ticks (g_host g)). rewrite C. by split.
Qed.

Lemma changed_record username current new g pu g' :
  ChangePassword username current new g = (inr pu, g') ->
  loaded g' /\ exists name u n, normalizeUsername username = inr name /\
    List.find (live name) (users g') = Some u /\ user_UpdatedAt u = h_clock (g_host g') n.
Proof.
  intros R. unfold ChangePassword in R. apply answer_bind in R as (name & g1 & N & R).
  destruct (normalizeUsername username) as [|n] eqn:En; [done|]. injection N as -> _.
  apply answer_fail_if in R as [_ R]. apply answer_bind in R as ([] & g2 & _ & R).
  apply answer_bind in R as (l & g3 & _ & R). cbv zeta in R.
  revert R. generalize (default noUser (List.find (live name) l)). intros c R.
  apply answer_bind in R as ([] & g4 & _ & R). apply answer_bind in R as (ok & g5 & _ & R).
  apply answer_fail_if in R as [_ R]. destruct (user_Username c =s "").
  { do 2 (apply answer_bind in R as ([] & ? & _ & R)). done. }
  revert R. generalize (verifyPasswordHash (user_PasswordHash c) current). intros v R.
  apply answer_bind in R as (r & g6 & _ & R).
  do 2 (apply answer_bind in R as ([] & ? & _ & R)). apply answer_bind in R as (hash & g7 & _ & R).
  apply answer_fail_if in R as [_ R]. apply answer_bind in R as ([] & g8 & _ & R).
  apply answer_bind in R as (l' & g9 & (L & U)%load_answer & R).
  apply (commitPassword_answer [] _ _ _ _ _ _ _ L U (Forall_nil_2 _)) in R
    as (L' & l1 & u & l2 & i & U' & F & Lv).
  split; [done|]. exists name, (user_set_password hash (h_clock (g_host g') i) u), i.
  split; [done|]. split; [|done]. rewrite U'. by apply find_live.
Qed.

Lemma find_none name l : Forall (fun v => live name v = false) l -> List.find (live name) l = None.
Proof. induction 1 as [|v l E _ IH]; cbn [List.find]; [done|]. by rewrite E. Qed.

Lemma deleteLoop_answer all before name rest g g' : loaded g -> users g = before ++ rest ->
  NoDup (names (before ++ rest)) -> Forall (fun v => user_Username v <> name) before ->
  deleteLoop all before name rest g = (inr tt, g') ->
  loaded g' /\ List.find (live name) (users g') = None.
Proof.
  revert before. induction rest as [|u rest IH]; intros before L E Nd F R; cbn [deleteLoop] in R; [done|].
  destruct (String.eqb_spec (user_Username u) name) as [En|Ne]; cbn [negb] in R.
  2: { apply (IH (before ++ [u])); [done|by rewrite <- app_assoc..| |done].
       apply Forall_app. split; [done|]. by apply Forall_singleton. }
  destruct (user_Disabled u); [done|]. destruct (_ && _); [done|].
  apply answer_bind in R as (t & g1 & (h & T & ->)%onHost_answer & R).
  apply save_answer in R as (L' & U & _); [|done]. split; [done|]. rewrite U.
  assert (forall l, Forall (fun v => user_Username v <> name) l ->
    Forall (fun v => live name v = false) l) as X.
  { intros l Fl. eapply Forall_impl; [exact Fl|]. intros v N. unfold live.
    by rewrite (proj2 (String.eqb_neq _ _) N). }
  apply find_none, Forall_app. split; [by apply X|]. constructor.
  - unfold live. cbn. by rewrite andb_false_r.
  - apply X. unfold names in Nd. rewrite map_app in Nd. apply NoDup_app in Nd as (_ & _ & Nd).
    apply NoDup_cons in Nd as [Nd _]. apply Forall_forall. intros v I <-. apply Nd.
    rewrite En. by apply list_elem_of_fmap_2.
Qed.

Lemma deleted_record username g g' : loaded g -> NoDup (names (users g)) ->
  UserStore_Delete username g = (inr tt, g') ->
  loaded g' /\ exists name, normalizeUsername username = inr name /\
    List.find (live name) (users g') = None.
Proof.
  intros L Nd R. unfold UserStore_Delete in R. apply answer_bind in R as (name & g1 & N & R).
  destruct (normalizeUsername username) as [|n] eqn:En; [done|]. injection N as -> <-.
  rewrite (bind_run _ _ _ _ _ (load_run g L)) in R.
  apply (deleteLoop_answer _ [] _ _ _ _ L eq_refl Nd (Forall_nil_2 _)) in R as [L' F].
  split; [done|]. by exists name.
Qed.

(** What an admitted request says of the account, as a lemma. *)
Lemma sessionUser_answer r g info g' : sessionUser sessionKey r g = (inr (Some info), g') ->
  exists value payload u, q_Cookie r = Some value /\ carries value payload /\
    normalizeUsername (payload_User payload) = inr (session_User info) /\
    List.find (live (session_User info)) (users g') = Some u /\
    payload_CredentialVersion payload = UnixNano (user_UpdatedAt u) /\
    info = mkSessionInfo (user_Username u) (user_Role u).
Proof.
  intros (_ & value & p & name & u & Q & C & _ & N & F & V & _ & ->)%admission.
  pose proof (find_some _ _ F) as [_ Lv]. apply andb_true_iff in Lv as [<-%String.eqb_eq _].
  by exists value, p, u.
Qed.

(** C28. A session ends with the credentials.  When a request was admitted and then
    the password of its account is changed, or the account deleted, the same request
    is refused from then on, while nothing else changes the account and the clock
    never again shows the nanosecond in which the old credentials were made. *)
Theorem credentials_end_sessions r g info g1 g2 : alone -> loaded g ->
  NoDup (names (users g)) -> sessionUser sessionKey r g = (inr (Some info), g1) ->
  ((exists current new pu, ChangePassword (session_User info) current new g1 = (inr pu, g2)) \/
   UserStore_Delete (session_User info) g1 = (inr tt, g2)) ->
  (forall n u, u ∈ users g -> UnixNano (h_clock (g_host g2) n) <> UnixNano (user_UpdatedAt u)) ->
  forall g3, loaded g3 ->
    List.find (live (session_User info)) (users g3) = List.find (live (session_User info)) (users g2) ->
    exists g4, sessionUser sessionKey r g3 = (inr None, g4).
Proof.
  intros Al L Nd R1 R2 Clock g3 L3 Same.
  destruct (sessionUser_keeps _ _ _ _ Al L R1) as [L1 U1].
  apply sessionUser_answer in R1 as (value & p & u & Q & C & N & F & V & _).
  assert (normalizeUsername (session_User info) = inr (session_User info)) as Nn
    by by eapply normalizeUsername_normal.
  destruct (sessionUser_total r g3) as ([info'|] & g4 & R3); [|by exists g4]. exfalso.
  destruct (sessionUser_keeps _ _ _ _ Al L3 R3) as [_ U3].
  apply sessionUser_answer in R3 as (value' & p' & u' & Q' & C' & N' & F' & V' & _).
  assert (p' = p) as ->.
  { rewrite Q in Q'. injection Q' as <-. apply verifySession_carries in C, C'. congruence. }
  assert (session_User info' = session_User info) as E by congruence.
  rewrite U3, E, Same in F'. apply (find_some _ _) in F as [I _]. rewrite U1 in I.
  destruct R2 as [(current & new & pu & R2)|R2].
  - apply changed_record in R2 as (_ & name & w & n & Nw & Fw & Ut).
    rewrite Nn in Nw. injection Nw as <-. rewrite Fw in F'. injection F' as ->.
    apply (Clock n u); [by apply list_elem_of_In|]. congruence.
  - apply deleted_record in R2 as (_ & name & Nw & Fw); [|done|by rewrite U1].
    rewrite Nn in Nw. injection Nw as <-. congruence.
Qed.
End sessions.

(** * Witnesses *)

#[export] Instance sample_ip : NetIP := {
  SplitHostPort s := if Contains s ":" then Some (GoConv.cutHead s ":"%char) else None;
  ParseIP s := if s =s "127.0.0.1" then Some (repeat 0 10 ++ [255; 255; 127; 0; 0; 1]) else None;
  IPString ip := "127.0.0.1"
}.

(** A payload as hexadecimal fields, a body as fields between dollars. *)
Definition numeral (z : Z) : string := HexEncode (bytesOf 8 (z mod 2 ^ 64)).
Definition unnumeral (s : string) : option Z := (fun bs => i64 (numberOf bs)) <$> HexDecode s.
Definition fields (r : bodyReader) : list string := Split (body_data r) "$"%char.
Definition restOf (r : bodyReader) : bodyReader := mkBodyReader "" (body_over r).
Definition badBody {A} : error + A := inl (ErrorString "unreadable body").

#[export] Instance sample_web : WebJSON := {
  MarshalSession p := hexOf (payload_User p) +:+ "$" +:+ hexOf (payload_Role p) +:+ "$" +:+
    numeral (payload_CredentialVersion p) +:+ "$" +:+ numeral (payload_Expires p);
  UnmarshalSession data :=
    match Split data "$"%char with
    | [a; b; c; d] =>
        match unhex a, unhex b, unnumeral c, unnumeral d with
        | Some a, Some b, Some c, Some d => inr (mkSessionPayload a b c d)
        | _, _, _, _ => inl (ErrorString "unreadable session")
        end
    | _ => inl (ErrorString "unreadable session")
    end;
  DecodeLogin r := match fields r with [a; b] => inr (mkLoginRequest a b, restOf r) | _ => badBody end;
  DecodeRegistration r :=
    match fields r with [a; b] => inr (mkRegistrationRequest a b, restOf r) | _ => badBody end;
  DecodeChangePassword r :=
    match fields r with [a; b] => inr (mkChangePasswordRequest a b, restOf r) | _ => badBody end;
  DecodeCreateUser r :=
    match fields r with [a; b; c] => inr (mkCreateUserRequest a b c, restOf r) | _ => badBody end;
  DecodeDeleteUser r :=
    match fields r with [a] => inr (mkDeleteUserRequest a, restOf r) | _ => badBody end;
  DecodeEmptyBody r :=
    Some (ErrorString (if body_over r then "http: request body too large" else errEOFText))
}.

Lemma unnumeral_numeral z : - 2 ^ 63 <= z < 2 ^ 63 -> unnumeral (numeral z) = Some z.
Proof.
  intros R. unfold unnumeral, numeral. rewrite HexDecode_Encode by apply bytesOf_range.
  cbn [fmap option_fmap option_map]. rewrite numberOf_bytesOf.
  2: { change (256 ^ Z.of_nat 8) with (2 ^ 64). by apply Z.mod_pos_bound. }
  f_equal. unfold i64. rewrite Zplus_mod_idemp_l. rewrite Z.mod_small; lia.
Qed.

Lemma slen_numeral z : slen (numeral z) = 16.
Proof. unfold numeral. by rewrite slen_HexEncode. Qed.

#[export] Instance sample_web_laws : WebLaws sample_web.
Proof.
  assert (forall s, lacks "$"%char (hexOf s) = true) as Lh
    by (intros s; by apply HexEncode_lacks; [apply bytes_of_string_range|]).
  assert (forall z, lacks "$"%char (numeral z) = true) as Ln
    by (intros z; by apply HexEncode_lacks; [apply bytesOf_range|]).
  split; intros p; cbn [MarshalSession UnmarshalSession sample_web].
  - intros _ _ Cv Ex. rewrite Split_four by done. rewrite !unhex_hexOf, !unnumeral_numeral by done.
    by destruct p.
  - rewrite !slen_app, !slen_numeral. unfold hexOf. rewrite !slen_HexEncode.
    assert (forall t, llen (bytes_of_string t) = slen t) as D
      by (induction t as [|c t IH]; [done|]; unfold slen, llen in *; cbn; lia).
    rewrite !D. change (slen "$") with 1.
    pose proof (slen_nonneg (payload_User p)). pose proof (slen_nonneg (payload_Role p)). lia.
Qed.

(** Carol's password hash is never computed. *)
Definition carol_user : UserRecord :=
  mkUserRecord "carol" RoleUser (passwordHashOf (repeat 7 16) "a long password") "" "" 0 "" 0
    (63800000000 * Second) (63800000000 * Second) false.
Definition carol_clock (n : nat) : time := 63900000000 * Second.
Definition carol_gateway : Gateway :=
  mkGateway (mkHost ∅ (fun _ => None) 0 carol_clock 0 Z.of_nat 0)
    (mkUserStore "/users.json" true (sample_accounts ++ [carol_user]) 0 0 (Some sample_master))
    ∅ ∅ 0 0 false 0 0.
Definition sample_cfg : Config.Config := Config.Default (fun _ => "").
Definition sample_session_key : list Z := repeat 1 32.
Definition sample_request (method path body : string) (cookie : option string) : webRequest :=
  mkWebRequest method path "192.0.2.7:4711" "" cookie false "" "" None "gpu.example"
    (Some "application/json") (slen body) [] body.
Definition carol_login : webRequest :=
  sample_request "POST" "/api/login" "Carol$a long password" None.

Lemma presentable_by u name role t : user_Username u = name -> user_Role u = role ->
  user_UpdatedAt u = t -> normalName name -> GoConv.ValidString name = true ->
  GoConv.ValidString role = true -> slen role <= 64 -> modern t -> presentable u.
Proof. by intros <- <- <-. Qed.

Lemma carol_presentable : Forall presentable (sample_accounts ++ [carol_user]).
Proof.
  assert (modern (63700000000 * Second) /\ modern (63700000001 * Second) /\
    modern (63800000000 * Second)) as (M1 & M2 & M3) by (unfold modern, unixEpoch, Second; lia).
  constructor; [|constructor; [|constructor; [|constructor]]].
  - by eapply (presentable_by root_user "root" RoleAdmin); [..|exact M1].
  - by eapply (presentable_by bob_user "bob" RoleUser); [..|exact M2].
  - by eapply (presentable_by carol_user "carol" RoleUser); [..|exact M3].
Qed.

Lemma carol_stays : stays carol_clock (sample_accounts ++ [carol_user]) 0 0
  (Some sample_master) carol_gateway.
Proof. by split. Qed.

Lemma carol_modern n : modern (TimeAdd (carol_clock n) sessionTTL).
Proof. unfold modern, TimeAdd, carol_clock, sessionTTL, Hour, unixEpoch, Second. lia. Qed.

Lemma carol_verifies :
  verifyPasswordHash (user_PasswordHash carol_user) "a long password" = true /\
  passwordHashNeedsUpgrade (user_PasswordHash carol_user) = false.
Proof.
  assert (byte_list (repeat 7 16)) as B by (apply (bool_decide_unpack _); vm_compute; reflexivity).
  split; [by apply verify_own_password|by apply upgrade_passwordHashOf].
Qed.

Definition carol_attempts : (error + bool * duration) * Attempts :=
  let ipKey := @loginIPAttemptKey sample_ip sample_cfg carol_login in
  reserveLoginAttempt (loginAttemptKeyForIP ipKey "Carol") ipKey (loginUsernameAttemptKey "Carol")
    (carol_clock 0) ∅.
Lemma carol_reserves : fst carol_attempts = inr (true, 0).
Proof. vm_compute. reflexivity. Qed.

Lemma carol_logs_in : exists reply g',
  @handleLogin sample_users quiet_elsewhere sample_ip sample_web sample_cfg sample_session_key
    carol_login carol_gateway = (inr reply, g') /\ reply_Status reply = StatusOK /\
  users g' = sample_accounts ++ [carol_user] /\ h_clock (g_host g') = carol_clock.
Proof.
  destruct carol_verifies as [Ve Up].
  eapply (@handleLogin_new sample_users quiet_elsewhere sample_ip sample_web sample_cfg
    sample_session_key carol_clock carol_login (mkLoginRequest "Carol" "a long password") "carol"
    sample_accounts carol_user 0 0 (Some sample_master) carol_gateway (snd carol_attempts));
    [apply quiet_alone|reflexivity|vm_compute; reflexivity|vm_compute; reflexivity| |reflexivity|
     exact Ve|exact Up|reflexivity|reflexivity|apply carol_stays|].
  - apply (bool_decide_unpack _). vm_compute. reflexivity.
  - change (carol_attempts = (inr (true, 0), snd carol_attempts)).
    by rewrite (surjective_pairing carol_attempts), carol_reserves.
Qed.

Lemma login_opens_session_witness : exists reply g',
  @handleLogin sample_users quiet_elsewhere sample_ip sample_web sample_cfg sample_session_key
    carol_login carol_gateway = (inr reply, g') /\
  exists req u cookie n, decodeJSONBody DecodeLogin carol_login = inr req /\ u ∈ users g' /\
    normalizeUsername (login_Username req) = inr (user_Username u) /\
    verifyPasswordHash (user_PasswordHash u) (login_Password req) = true /\
    reply = mkWebReply StatusOK None (Some cookie) (BLogin (user_Username u) (user_Role u)) /\
    Cookie_Expires cookie = TimeAdd (h_clock (g_host g') n) sessionTTL /\
    forall r' g1, loaded g1 -> List.find (live (user_Username u)) (users g1) = Some u ->
      q_Cookie r' = Some (Cookie_Value cookie) ->
      Unix (h_clock (g_host g1) (h_ticks (g_host g1))) < Unix (Cookie_Expires cookie) ->
      exists g2, @sessionUser sample_users quiet_elsewhere sample_web sample_session_key r' g1 =
        (inr (Some (mkSessionInfo (user_Username u) (user_Role u))), g2).
Proof.
  destruct carol_logs_in as (reply & g' & E & St & U & C). exists reply, g'. split; [exact E|].
  apply (@login_opens_session sample_users quiet_elsewhere sample_ip sample_web sample_cfg
    sample_session_key sample_web_laws carol_login carol_gateway reply g' quiet_alone E St).
  - rewrite U. apply carol_presentable.
  - intros n. rewrite C. apply carol_modern.
Defined.

(** Bob's cookie, and his requests. *)
Definition bob_payload : sessionPayload :=
  mkSessionPayload "bob" RoleUser (UnixNano (user_UpdatedAt bob_user)) (Unix (63900000100 * Second)).
Definition bob_cookie : string := signedValue sample_session_key (@MarshalSession sample_web bob_payload).
Definition bob_request (method path body : string) : webRequest :=
  sample_request method path body (Some bob_cookie).

Definition bob_check (g : Gateway) : (error + option sessionInfo) * Gateway :=
  @sessionUser sample_users quiet_elsewhere sample_web sample_session_key
    (bob_request "GET" "/api/session" "") g.
Definition bob_gateway : Gateway :=
  g_set_host (mkHost ∅ (fun _ => None) 0 carol_clock 0 Z.of_nat 0) sample_gateway.
Definition bob_info : sessionInfo := mkSessionInfo "bob" RoleUser.

Lemma admitted_sessions_are_genuine_witness :
  let g' := snd (bob_check bob_gateway) in
  loaded g' /\ exists value payload name u,
    q_Cookie (bob_request "GET" "/api/session" "") = Some value /\
    carries sample_session_key value payload /\
    Unix (h_clock (g_host bob_gateway) (h_ticks (g_host bob_gateway))) < payload_Expires payload /\
    normalizeUsername (payload_User payload) = inr name /\
    List.find (live name) (users g') = Some u /\
    payload_CredentialVersion payload = UnixNano (user_UpdatedAt u) /\
    payload_CredentialVersion payload <> 0 /\
    bob_info = mkSessionInfo (user_Username u) (user_Role u).
Proof.
  apply (@admitted_sessions_are_genuine sample_users quiet_elsewhere sample_web sample_session_key
    (bob_request "GET" "/api/session" "") bob_gateway bob_info).
  vm_compute. reflexivity.
Defined.

Definition bob_deleted : Gateway :=
  final (UserStore_Delete "bob") (snd (bob_check bob_gateway)).

Lemma credentials_end_sessions_witness :
  fst (bob_check bob_gateway) = inr (Some bob_info) /\
  forall g3, loaded g3 ->
    List.find (live "bob") (users g3) = List.find (live "bob") (users bob_deleted) ->
    exists g4, bob_check g3 = (inr None, g4).
Proof.
  split; [vm_compute; reflexivity|].
  apply (@credentials_end_sessions sample_users quiet_elsewhere sample_web sample_session_key
    (bob_request "GET" "/api/session" "") bob_gateway bob_info (snd (bob_check bob_gateway))
    bob_deleted quiet_alone).
  - reflexivity.
  - apply sample_sound.
  - vm_compute. reflexivity.
  - right. vm_compute. reflexivity.
  - intros n u I. change (users bob_gateway) with sample_accounts in I.
    assert (h_clock (g_host bob_deleted) = carol_clock) as -> by (vm_compute; reflexivity).
    unfold sample_accounts in I. apply elem_of_cons in I as [->|I%list_elem_of_singleton];
      [|subst u]; cbn [user_UpdatedAt root_user bob_user];
      unfold UnixNano, i64, carol_clock, unixEpoch, Second; rewrite !Z.mod_small by lia; lia.
Defined.
