(* ===== verification/WebRequests.v ===== *)
(** What the gateway promises of requests: how many it serves at once, and that only
    an account itself and administrators touch it. *)

From Stdlib Require Import Ascii.
From S2P Require Export WebSessionFacts.

(** * The limits on requests *)

Definition requester (s : sessionInfo) : string := ToLower (TrimSpace (session_User s)).
Definition ordinary (s : sessionInfo) : bool := session_Role s <>s RoleAdmin.
Definition ofUser (user : string) (l : list sessionInfo) : Z :=
  llen (List.filter (fun s => requester s =s user) l).
Definition ordinaries (l : list sessionInfo) : Z := llen (List.filter ordinary l).

(** What is left of the counters by requests that come and go: the requests that
    are being served are [l]. *)
Inductive serving : list sessionInfo -> Gateway -> Prop :=
  | serving_none g : g_activeUsers g = ∅ -> g_activeTotal g = 0 -> g_activeNonAdmin g = 0 ->
      serving [] g
  | serving_acquire l g s ok g' : serving l g ->
      acquireAuthenticatedRequest s g = (inr ok, g') ->
      serving (if ok : bool then s :: l else l) g'
  | serving_release l1 s l2 g r g' : serving (l1 ++ s :: l2) g ->
      releaseAuthenticatedRequest s g = (r, g') -> serving (l1 ++ l2) g'
  | serving_other l g g' : serving l g -> g_activeUsers g' = g_activeUsers g ->
      g_activeTotal g' = g_activeTotal g -> g_activeNonAdmin g' = g_activeNonAdmin g -> serving l g'.

(** The counters count. *)
Record countedRequests (l : list sessionInfo) (g : Gateway) : Prop := mkCountedRequests
  { cr_total : g_activeTotal g = llen l;
    cr_ordinary : g_activeNonAdmin g = ordinaries l;
    cr_user user : activeOf user g = ofUser user l;
    cr_positive user n : g_activeUsers g !! user = Some n -> 0 < n;
    cr_total_max : llen l <= maxAuthenticatedRequests;
    cr_ordinary_max : ordinaries l <= maxAuthenticatedRequests - reservedAdminRequests;
    cr_user_max user : ofUser user l <= maxAuthenticatedRequestsUser }.

Lemma ofUser_middle user l1 s l2 : ofUser user (l1 ++ s :: l2) =
  ofUser user (l1 ++ l2) + if requester s =s user then 1 else 0.
Proof.
  unfold ofUser, llen. rewrite !List.filter_app, !length_app. cbn [List.filter].
  destruct (requester s =s user); cbn [length]; lia.
Qed.
Lemma ordinaries_middle l1 s l2 : ordinaries (l1 ++ s :: l2) =
  ordinaries (l1 ++ l2) + if ordinary s then 1 else 0.
Proof.
  unfold ordinaries, llen. rewrite !List.filter_app, !length_app. cbn [List.filter].
  destruct (ordinary s); cbn [length]; lia.
Qed.
Lemma llen_middle {A} l1 (s : A) l2 : llen (l1 ++ s :: l2) = llen (l1 ++ l2) + 1.
Proof. unfold llen. rewrite !length_app. cbn [length]. lia. Qed.

Lemma ofUser_nonneg user l : 0 <= ofUser user l.
Proof. apply llen_nonneg. Qed.

Lemma activeOf_insert user k n (a : gmap string Z) : default 0 (<[k := n]> a !! user) =
  if k =s user then n else default 0 (a !! user).
Proof.
  destruct (String.eqb_spec k user) as [->|N]; [by rewrite lookup_insert_eq|by rewrite lookup_insert_ne].
Qed.

Lemma acquire_run s g : acquireAuthenticatedRequest s g =
  if (maxAuthenticatedRequests <=? g_activeTotal g) ||
     (maxAuthenticatedRequestsUser <=? activeOf (requester s) g) then (inr false, g)
  else if ordinary s && (maxAuthenticatedRequests - reservedAdminRequests <=? g_activeNonAdmin g)
  then (inr false, g)
  else (inr true, g_set_active (<[requester s := activeOf (requester s) g + 1]> (g_activeUsers g))
          (g_activeTotal g + 1) (g_activeNonAdmin g + if ordinary s then 1 else 0) g).
Proof.
  unfold acquireAuthenticatedRequest, mbind, M_bind, bind, get. cbv zeta.
  fold (requester s). fold (ordinary s). destruct (_ || _); [done|]. by destruct (_ && _).
Qed.

Lemma counted_acquire l g s ok g' : countedRequests l g ->
  acquireAuthenticatedRequest s g = (inr ok, g') -> countedRequests (if ok : bool then s :: l else l) g'.
Proof.
  intros [T O U P Tm Om Um]. rewrite acquire_run.
  destruct (Z.leb_spec maxAuthenticatedRequests (g_activeTotal g)) as [|Lt]; cbn [orb].
  { by intros [= <- <-]. }
  destruct (Z.leb_spec maxAuthenticatedRequestsUser (activeOf (requester s) g)) as [|Lu].
  { by intros [= <- <-]. }
  destruct (ordinary s && _) eqn:Lo; [by intros [= <- <-]|]. intros [= <- <-].
  assert (forall user, ofUser user (s :: l) = ofUser user l + if requester s =s user then 1 else 0) as Su
    by (intros user; apply (ofUser_middle user [])).
  assert (ordinaries (s :: l) = ordinaries l + if ordinary s then 1 else 0) as So
    by apply (ordinaries_middle []).
  assert (llen (s :: l) = llen l + 1) as Sl by apply (llen_middle []).
  split; cbn [g_activeTotal g_activeNonAdmin g_activeUsers g_set_active].
  - lia.
  - lia.
  - intros user. unfold activeOf at 1. cbn [g_activeUsers g_set_active].
    rewrite activeOf_insert, Su. destruct (String.eqb_spec (requester s) user) as [<-|_].
    + by rewrite U.
    + rewrite Z.add_0_r. apply U.
  - intros user n [[_ <-]|[_ E]]%lookup_insert_Some; [|by eapply P].
    rewrite U. pose proof (ofUser_nonneg (requester s) l). lia.
  - unfold maxAuthenticatedRequests in *. lia.
  - rewrite So. destruct (ordinary s); [|lia]. cbn [andb] in Lo. apply Z.leb_gt in Lo. lia.
  - intros user. rewrite Su. specialize (Um user).
    destruct (String.eqb_spec (requester s) user) as [<-|_]; [rewrite <- U in *|]; lia.
Qed.

Lemma counted_release l1 s l2 g r g' : countedRequests (l1 ++ s :: l2) g ->
  releaseAuthenticatedRequest s g = (r, g') -> countedRequests (l1 ++ l2) g'.
Proof.
  intros [T O U P Tm Om Um] R. unfold releaseAuthenticatedRequest in R. cbv zeta in R.
  fold (requester s) in R. fold (ordinary s) in R. injection R as _ <-.
  rewrite llen_middle in *. rewrite ordinaries_middle in *.
  assert (forall user, activeOf user g = ofUser user (l1 ++ l2) + if requester s =s user then 1 else 0) as V
    by (intros user; by rewrite U, ofUser_middle).
  pose proof (V (requester s)) as Vs. rewrite String.eqb_refl in Vs.
  pose proof (ofUser_nonneg (requester s) (l1 ++ l2)).
  split; cbn [g_activeTotal g_activeNonAdmin g_activeUsers g_set_active].
  - lia.
  - lia.
  - intros user. unfold activeOf. cbn [g_activeUsers g_set_active]. specialize (V user).
    unfold activeOf in *. destruct (Z.eqb_spec (default 0 (g_activeUsers g !! requester s) - 1) 0) as [Z|Z].
    + destruct (String.eqb_spec (requester s) user) as [Eu|N].
      * subst user. rewrite lookup_delete_eq. cbn. lia.
      * rewrite lookup_delete_ne, lookup_insert_ne by done. lia.
    + rewrite activeOf_insert. destruct (String.eqb_spec (requester s) user) as [Eu|N]; [subst user|]; lia.
  - intros user n. destruct (Z.eqb_spec (activeOf (requester s) g - 1) 0) as [Z|Z].
    + intros [N E]%lookup_delete_Some. rewrite lookup_insert_ne in E by done. by eapply P.
    + intros [[_ <-]|[_ E]]%lookup_insert_Some; [lia|by eapply P].
  - lia.
  - destruct (ordinary s); lia.
  - intros user. specialize (Um user). rewrite ofUser_middle in Um. destruct (_ =s _); lia.
Qed.

(** The limits on requests.  However sessions come and go, the counters are
    exactly those of the requests being served: at most 64, at most 56 of them of
    users other than administrators, at most 8 of one user, with no counter left
    behind; and while fewer than 8 requests of administrators are served, another
    one of an administrator who has fewer than 8 is served as well. *)
Theorem request_limits l g : serving l g ->
  g_activeTotal g = llen l /\ llen l <= 64 /\ ordinaries l <= 56 /\
  (forall user, activeOf user g = ofUser user l /\ ofUser user l <= 8) /\
  (forall user n, g_activeUsers g !! user = Some n -> 0 < n) /\
  forall s, ordinary s = false -> llen l - ordinaries l < 8 -> ofUser (requester s) l < 8 ->
    exists g', acquireAuthenticatedRequest s g = (inr true, g').
Proof.
  intros Sv. enough (countedRequests l g) as [T O U P Tm Om Um].
  { split; [done|]. split; [done|]. split; [done|].
    split; [intros user; split; [apply U|apply Um]|]. split; [done|].
    intros s Os Ad Own. rewrite acquire_run, Os. cbn [andb].
    rewrite (proj2 (Z.leb_gt _ _)) by
      (unfold maxAuthenticatedRequests, reservedAdminRequests in *; lia).
    rewrite (proj2 (Z.leb_gt _ _)) by (unfold maxAuthenticatedRequestsUser; rewrite U; lia).
    by eexists. }
  induction Sv as [g U T O|l g s ok g' _ IH R|l1 s l2 g r g' _ IH R|l g g' _ IH U T O].
  - split; try done; unfold activeOf; [intros user|intros user n]; rewrite U, lookup_empty; done.
  - by eapply counted_acquire.
  - by eapply counted_release.
  - destruct IH as [T' O' U' P' ? ? ?]. split; try congruence; try done.
    + intros user. unfold activeOf. rewrite U. apply U'.
    + intros user n. rewrite U. apply P'.
Qed.

(** * Who touches an account *)

(** A judgement on what is replied. *)
Definition replies {A} (Q : A -> Prop) (m : M Gateway A) : Prop :=
  forall g a g', m g = (inr a, g') -> Q a.

Lemma replies_ret {A} (Q : A -> Prop) a : Q a -> replies Q (ret a).
Proof. by intros q g b g' [= <- _]. Qed.
Lemma replies_throw {A} (Q : A -> Prop) e : replies Q (throw e).
Proof. by intros g b g'. Qed.
Lemma replies_fromResult {A} (Q : A -> Prop) (r : error + A) :
  (forall a, r = inr a -> Q a) -> replies Q (fromResult r).
Proof. destruct r as [e|a]; intros W; [apply replies_throw|by apply replies_ret, W]. Qed.
Lemma replies_bind {A B} (S : A -> Prop) (Q : B -> Prop) (m : M Gateway A) (k : A -> M Gateway B) :
  replies S m -> (forall a, S a -> replies Q (k a)) -> replies Q (m ≫= k).
Proof. intros Hm Hk g b g' (a & g1 & R & R')%answer_bind. eapply Hk; [by eapply Hm|exact R']. Qed.
Lemma replies_then {A B} (Q : B -> Prop) (m : M Gateway A) (k : A -> M Gateway B) :
  (forall a, replies Q (k a)) -> replies Q (m ≫= k).
Proof. intros Hk. by apply (replies_bind (fun _ => True)). Qed.
Lemma replies_try {A} (Q : A -> Prop) (m : M Gateway A) : replies Q m ->
  replies (fun r => match r with inr a => Q a | inl _ => True end) (try m).
Proof. intros Hm g [e|a] g' R%answer_try; [done|]. by eapply Hm. Qed.

(** A live account that stays what it is. *)
Definition kept (name : string) (l l' : list UserRecord) : Prop :=
  forall u, List.find (live name) l = Some u -> List.find (live name) l' = Some u.
#[export] Instance kept_preorder name : PreOrder (kept name).
Proof. split; [by intros l u|]. intros l1 l2 l3 A B u E. by apply B, A. Qed.

Lemma find_app {A} (f : A -> bool) l1 l2 : List.find f (l1 ++ l2) =
  match List.find f l1 with Some x => Some x | None => List.find f l2 end.
Proof. induction l1 as [|a l1 IH]; cbn [app List.find]; [done|]. by destruct (f a). Qed.

Lemma kept_new name : allowsNew (P := kept name).
Proof. intros l u _ _ _ _ v E. by rewrite find_app, E. Qed.

Lemma kept_others name who : who <> name -> allows (P := kept name) who.
Proof.
  assert (forall before u u' after, user_Username u = who -> user_Username u' = who ->
    who <> name -> kept name (before ++ u :: after) (before ++ u' :: after)) as X.
  { intros before u u' after E E' N v. rewrite !find_app. destruct (List.find _ before); [done|].
    cbn [List.find]. unfold live at 1 3. by rewrite E, E', (proj2 (String.eqb_neq _ _) N). }
  intros N l l' E. destruct E; [|by apply X..]. intros v F. by rewrite find_app, F.
Qed.

(** What a response may tell about an account. *)
Definition tells (name : string) (body : webBody) : Prop :=
  match body with
  | BKey key => key_Owner key = name
  | BKeys keys => exists key, key ∈ keys /\ key_Owner key = name
  | BUsers _ => True
  | BUser user => public_Username user = name
  | _ => False
  end.
Definition silent (name : string) (reply : webReply) : Prop := ~ tells name (reply_Body reply).

Ltac solve_replies :=
  repeat (intros; cbv zeta;
    lazymatch goal with
    | |- replies _ (match ?x with _ => _ end) => destruct x
    | |- replies _ (ret _) => apply replies_ret; solve [by intros []]
    | |- replies _ (mbind _ _) => apply replies_then
    end).

(** The key that is answered is the one of the name that was given. *)
Lemma RevealFixedKey_owner `{UsersJSON} `{AEAD} username :
  replies (fun key => normalizeUsername username = inr (key_Owner key)) (RevealFixedKey username).
Proof.
  intros g key g' R. unfold RevealFixedKey in R. apply answer_bind in R as (name & g1 & N & R).
  destruct (normalizeUsername username) as [|n]; [done|]. injection N as -> _.
  apply answer_bind in R as (l & g2 & _ & R). apply answer_bind in R as (s & g3 & _ & R).
  destruct (List.find (live name) l) as [u|] eqn:F; [|done].
  apply find_some in F as [_ [Nm _]%live_facts].
  apply answer_bind in R as (secret & g4 & _ & R). injection R as <- _. by rewrite <- Nm.
Qed.

Lemma regenerateLoop_owner `{UsersJSON} `{AEAD} name before rest :
  replies (fun key => key_Owner key = name) (regenerateLoop before name rest).
Proof.
  revert before. induction rest as [|u rest IH]; intros before; cbn [regenerateLoop];
    [apply replies_throw|].
  destruct (live name u) eqn:Lv; cbn [negb]; [|apply IH]. apply live_facts in Lv as [Nm _].
  cbv zeta. apply replies_then. intros s.
  apply (replies_bind (fun u' => user_Username u' = name)).
  - intros g u' g' (h & As%assign_assigned & _)%onHost_answer.
    by destruct As as (? & ? & ? & ? & ? & _ & _ & _ & _ & ->).
  - intros u' E. apply replies_then. intros _. apply replies_then. intros secret. by apply replies_ret.
Qed.

Lemma RegenerateFixedKey_owner `{UsersJSON} `{AEAD} username :
  replies (fun key => normalizeUsername username = inr (key_Owner key)) (RegenerateFixedKey username).
Proof.
  unfold RegenerateFixedKey.
  apply (replies_bind (fun name => normalizeUsername username = inr name)).
  { by apply replies_fromResult. }
  intros name N. apply replies_then. intros l g key g' R. by rewrite (regenerateLoop_owner _ _ _ _ _ _ R).
Qed.

Section isolation.
Context `{UsersJSON} `{AEAD} `{Elsewhere} `{NetIP} `{WebJSON}.
Variables (Cfg : Config.Config) (sessionKey : list Z) (name : string).
Hypothesis quiet : alone.
Hypothesis normal : normalName name.

#[local] Abbreviation keeps := (obeys (within (kept name))).

Lemma keeps_elsewhere : keeps elsewhere.
Proof using quiet. by apply within_elsewhere; [apply _|]. Qed.
Lemma keeps_saving l l' : kept name l l' -> from (within (kept name)) l (UserStore_saveLocked l').
Proof. by apply within_save. Qed.

Lemma keeps_onAttempts {A} (m : M Attempts A) : keeps (onAttempts m).
Proof.
  intros l g L _. apply Steps_same; [done|]. unfold final, onAttempts.
  destruct (m (g_attempts g)). by repeat split.
Qed.
Lemma keeps_sync : keeps requestManagedKeySync.
Proof. intros l g L _. apply Steps_same; [done|by repeat split]. Qed.
Lemma keeps_now : keeps now.
Proof. by apply obeys_onHost, steady_time_Now. Qed.
Lemma keeps_sessionUser r : keeps (sessionUser sessionKey r).
Proof using quiet. by apply sessionUser_obeys; [apply _|]. Qed.
Lemma keeps_acquire s : keeps (acquireAuthenticatedRequest s).
Proof.
  intros l g L _. apply Steps_same; [done|]. unfold final. rewrite acquire_run.
  destruct (_ || _); [by repeat split|]. destruct (_ && _); by repeat split.
Qed.
Lemma keeps_release s : keeps (releaseAuthenticatedRequest s).
Proof. intros l g L _. apply Steps_same; [done|by repeat split]. Qed.
Hint Resolve keeps_elsewhere keeps_onAttempts keeps_sync keeps_now keeps_sessionUser keeps_acquire
  keeps_release : follows.

Lemma keeps_getUser username : keeps (getUser username).
Proof using quiet.
  unfold getUser. pose proof (obeys_Get (R := within (kept name)) username). solve_follows.
Qed.
Hint Resolve keeps_getUser : follows.
Lemma keeps_loggedIn r pu status body : keeps (loggedIn Cfg sessionKey r pu status body).
Proof using quiet. unfold loggedIn, signSession. solve_follows. Qed.
Hint Resolve keeps_loggedIn : follows.

Lemma keeps_Create username password role : keeps (UserStore_Create username password role).
Proof using quiet.
  eapply obeys_Create; [apply keeps_elsewhere|apply keeps_saving|apply kept_new].
Qed.
Hint Resolve keeps_Create : follows.

Lemma keeps_named username : normalizeUsername username <> inr name ->
  allowsNamed (P := kept name) username.
Proof. intros N who E. apply kept_others. by intros ->. Qed.

Lemma keeps_register r : keeps (handleRegister Cfg sessionKey r).
Proof using quiet. unfold handleRegister. solve_follows. Qed.
Lemma keeps_session r : keeps (handleSession Cfg sessionKey r).
Proof using quiet. unfold handleSession. solve_follows. Qed.

(** The handlers behind a session of somebody else who is no administrator. *)
Section foreign.
Variable session : sessionInfo.
Hypothesis foreign : normalizeUsername (session_User session) <> inr name.

Lemma keeps_changePassword r : keeps (handleChangePassword Cfg sessionKey session r).
Proof using quiet foreign.
  unfold handleChangePassword.
  assert (forall current new, keeps (ChangePassword (session_User session) current new)) as C.
  { intros current new. eapply obeys_ChangePassword;
      [apply keeps_elsewhere|apply keeps_saving|by apply keeps_named]. }
  solve_follows.
Qed.

(** A name that only this user may use. *)
Lemma own_name username : sameOwner username (session_User session) = true ->
  normalizeUsername username <> inr name.
Proof using foreign.
  unfold sameOwner. destruct (normalizeUsername username) as [|n]; [done|].
  destruct (normalizeUsername (session_User session)) as [|n'] eqn:E; [done|].
  intros ->%String.eqb_eq [= ->]. by apply foreign.
Qed.

Lemma keeps_keys r : ordinary session = true -> keeps (handleKeys session r).
Proof using quiet foreign.
  intros Or. unfold ordinary in Or. unfold handleKeys. cbv zeta. rewrite Or. cbn [andb].
  pose proof (obeys_FixedKeys (R := within (kept name))).
  destruct (_ =s ""); [solve_follows|].
  destruct (Split _ _) as [|username [|action [|]]]; try solve [solve_follows].
  destruct (_ && _); [solve_follows|].
  destruct (sameOwner username (session_User session)) eqn:So; cbn [negb]; [|solve_follows].
  apply own_name in So. pose proof (obeys_Reveal (R := within (kept name)) username).
  assert (keeps (RegenerateFixedKey username)).
  { eapply obeys_Regenerate; [apply keeps_saving|by apply keeps_named]. }
  solve_follows.
Qed.

(** What is replied. *)

Lemma silent_changePassword r : replies (silent name) (handleChangePassword Cfg sessionKey session r).
Proof. unfold handleChangePassword, loggedIn. solve_replies. Qed.

Lemma silent_keys r : ordinary session = true -> replies (silent name) (handleKeys session r).
Proof using foreign normal.
  intros Or. unfold ordinary in Or. unfold handleKeys. cbv zeta. rewrite Or. cbn [andb].
  assert (forall username owner, sameOwner username (session_User session) = true ->
    normalizeUsername username = inr owner -> owner <> name) as X.
  { intros username owner S%own_name E ->. by apply S. }
  destruct (_ =s "").
  { destruct (_ <>s "GET"); [solve_replies|]. do 2 (apply replies_then; intros).
    destruct a0 as [e|keys]; apply replies_ret; [by intros []|].
    intros (key & [_ K]%list_elem_of_In%filter_In & E). eapply X; [exact K| |exact E].
    by rewrite E. }
  destruct (Split _ _) as [|username [|action [|]]]; try solve [solve_replies].
  destruct (_ && _); [solve_replies|].
  destruct (sameOwner username (session_User session)) eqn:So; cbn [negb]; [|solve_replies].
  destruct (_ <>s "POST"); [solve_replies|]. apply replies_then. intros _.
  eapply replies_bind.
  { apply (replies_try (fun key => normalizeUsername username = inr (key_Owner key))).
    destruct (action =s "reveal"); [apply RevealFixedKey_owner|].
    eapply replies_bind; [apply RegenerateFixedKey_owner|]. intros key E.
    apply replies_then. intros _. by apply replies_ret. }
  intros [e|key] E; apply replies_ret; [by intros []|]. by apply (X username).
Qed.
End foreign.

Lemma silent_register r : replies (silent name) (handleRegister Cfg sessionKey r).
Proof. unfold handleRegister, loggedIn. solve_replies. Qed.
Lemma silent_session r : replies (silent name) (handleSession Cfg sessionKey r).
Proof. unfold handleSession. solve_replies. Qed.

(** A request keeps the account and its reply is silent about it. *)
Definition isolated (m : M Gateway webReply) (g : Gateway) : Prop :=
  kept name (users g) (users (final m g)) /\ forall reply g', m g = (inr reply, g') -> silent name reply.

Lemma isolated_of m g : keeps m -> replies (silent name) m -> loaded g -> isolated m g.
Proof.
  intros K S L. split; [by apply (K (users g) g L eq_refl L)|]. intros reply g' R. by eapply S.
Qed.

Lemma isolated_ret reply g : silent name reply -> isolated (ret reply) g.
Proof. intros S. split; [by intros u|]. by intros reply' g' [= <- _]. Qed.

(** The requests of others, when [info] is not the account and not an administrator. *)
Definition foreignTo (r : webRequest) (g : Gateway) : Prop :=
  forall info g', sessionUser sessionKey r g = (inr (Some info), g') ->
    session_Role info <> RoleAdmin /\ session_User info <> name.

Lemma isolated_session next r g : loaded g -> foreignTo r g ->
  (forall session, ordinary session = true -> normalizeUsername (session_User session) <> inr name ->
     keeps (next session r) /\ replies (silent name) (next session r)) ->
  isolated (requireSession sessionKey next r) g.
Proof using quiet.
  intros L F Hn. destruct (sessionUser_total sessionKey r g) as (o & g1 & E).
  destruct (sessionUser_keeps _ _ _ _ _ quiet L E) as [L1 U1].
  unfold isolated, final, requireSession. rewrite (bind_run _ _ _ _ _ E).
  destruct o as [session|].
  2: { split; [unfold ret; cbn [snd]; by rewrite U1|]. intros reply g' [= <- _]. by intros []. }
  destruct (F _ _ E) as [Ro Nm]. apply sessionUser_answer in E as (value & p & u & _ & _ & N & _).
  apply normalizeUsername_normal in N. destruct (Hn session) as [Kn Sn].
  { by apply negb_true_iff, String.eqb_neq. }
  { unfold normalName in N. rewrite N. by intros [= X]. }
  rewrite <- U1. set (m := elsewhere ≫= _).
  apply (isolated_of m g1); [| |done].
  - unfold m. solve_follows.
  - unfold m. apply replies_then. intros _. apply replies_then. intros ok.
    destruct (negb ok); [solve_replies|].
    eapply replies_bind; [by apply replies_try, Sn|]. intros reply Sr.
    do 2 (apply replies_then; intros _). apply replies_fromResult. by intros reply' ->.
Qed.

Lemma isolated_admin next r g : loaded g -> foreignTo r g ->
  isolated (requireAdmin sessionKey next r) g.
Proof using quiet.
  intros L F. apply isolated_session; [done|done|]. intros session Or _.
  unfold ordinary in Or. rewrite Or. split; [apply obeys_ret|solve_replies].
Qed.

Lemma isolated_mux r g : loaded g -> q_Path r <> "/api/login" -> foreignTo r g ->
  isolated (mux Cfg sessionKey r) g.
Proof using quiet normal.
  intros L P F. unfold mux. cbv zeta. rewrite (proj2 (String.eqb_neq _ _) P).
  assert (forall status body, silent name (writeJSON status body) ->
    isolated (ret (writeJSON status body)) g) as Rt by (intros; by apply isolated_ret).
  destruct (_ && _); [apply isolated_of; [apply keeps_register|apply silent_register|done]|].
  destruct (_ =s "/api/session"); [apply isolated_of; [apply keeps_session|apply silent_session|done]|].
  destruct (_ =s "/api/logout").
  { apply isolated_session; [done|done|]. intros session _ _. unfold handleLogout.
    split; [solve_follows|solve_replies]. }
  destruct (_ =s "/api/password").
  { apply isolated_session; [done|done|]. intros session _ Fo.
    split; [by apply keeps_changePassword|apply silent_changePassword]. }
  destruct (_ =s "/api/users"); [by apply isolated_admin|].
  destruct (_ || _).
  { apply isolated_session; [done|done|]. intros session Or Fo.
    split; [by apply keeps_keys|by apply silent_keys]. }
  destruct (_ || _).
  { apply isolated_session; [done|done|]. intros session _ _. unfold otherRoute.
    split; [apply obeys_ret|solve_replies]. }
  destruct (HasPrefix _ _); apply Rt; by intros [].
Qed.

(** C29. Accounts are isolated.  A request that is not a login, and that is not
    admitted for an account or for an administrator, leaves that account, if it is
    live, exactly as it is, whatever else it does, and its reply carries neither the
    account nor its key; and a request that would change state from another origin
    does nothing at all. *)
Theorem accounts_are_isolated r g reply g' : loaded g -> q_Path r <> "/api/login" ->
  (forall info g1, sessionUser sessionKey r g = (inr (Some info), g1) ->
     session_Role info <> RoleAdmin /\ session_User info <> name) ->
  serveWeb Cfg sessionKey r g = (inr reply, g') ->
  kept name (users g) (users g') /\ ~ tells name (reply_Body reply) /\
  (HasPrefix (q_Path r) "/api/" = true -> requestChangesState (q_Method r) = true ->
   sameOriginRequest r = false -> g' = g /\ reply_Status reply = StatusForbidden).
Proof using quiet normal.
  intros L P F R. unfold serveWeb in R.
  destruct (HasPrefix (q_Path r) "/api/") eqn:Hp; cbn [andb] in R.
  2: { destruct (isolated_mux r g L P F) as [K S]. unfold final in K. rewrite R in K.
       split; [done|]. by split; [eapply S|]. }
  destruct (requestChangesState (q_Method r)) eqn:Hs; cbn [andb] in R.
  2: { destruct (isolated_mux r g L P F) as [K S]. unfold final in K. rewrite R in K.
       split; [done|]. by split; [eapply S|]. }
  destruct (sameOriginRequest r) eqn:So; cbn [negb] in R.
  2: { injection R as <- <-. split; [done|]. by split; [intros []|]. }
  destruct (requestHasBody r && negb (requestHasJSONContentType r)).
  { injection R as <- <-. split; [done|]. by split; [intros []|]. }
  destruct (isolated_mux r g L P F) as [K S]. unfold final in K. rewrite R in K.
  split; [done|]. by split; [eapply S|].
Qed.
End isolation.

(** * Witnesses *)

(** Bob's ninth request at once is refused, root's first one is not. *)
Definition bob_requests : nat -> Gateway :=
  fix go n := match n with O => sample_gateway | S n => final (acquireAuthenticatedRequest bob_info) (go n) end.

Lemma bob_serving n : (n <= 8)%nat -> serving (repeat bob_info n) (bob_requests n).
Proof.
  intros L. assert (n ∈ seq 0 9) as I by (apply elem_of_seq; lia).
  clear L. induction n as [|n IH]; [by apply serving_none|].
  change (repeat bob_info (S n)) with (bob_info :: repeat bob_info n).
  apply (serving_acquire (repeat bob_info n) (bob_requests n) bob_info true).
  - apply IH. apply elem_of_seq. apply elem_of_seq in I. lia.
  - unfold bob_requests at 2. fold bob_requests. apply result_final.
    do 8 (destruct n as [|n]; [vm_compute; reflexivity|]).
    exfalso. apply elem_of_seq in I. lia.
Qed.

Lemma request_limits_witness : serving (repeat bob_info 8) (bob_requests 8) /\
  g_activeTotal (bob_requests 8) = 8 /\
  fst (acquireAuthenticatedRequest bob_info (bob_requests 8)) = inr false /\
  exists g', acquireAuthenticatedRequest (mkSessionInfo "root" RoleAdmin) (bob_requests 8) = (inr true, g').
Proof.
  pose proof (bob_serving 8 ltac:(lia)) as Sv. split; [exact Sv|].
  destruct (request_limits _ _ Sv) as (T & _ & _ & _ & _ & Ad).
  split; [exact T|]. split; [vm_compute; reflexivity|].
  apply Ad; vm_compute; reflexivity.
Defined.

(** Bob asks for a new key of root. *)
Definition bob_asks : webRequest := bob_request "POST" "/api/keys/root/regenerate" "".

Lemma accounts_are_isolated_witness :
  let answer := @serveWeb sample_users sample_aead quiet_elsewhere sample_ip sample_web sample_cfg
    sample_session_key bob_asks bob_gateway in
  fst answer = inr (writeJSONError StatusForbidden "key access denied") /\
  kept "root" (users bob_gateway) (users (snd answer)).
Proof.
  cbv zeta.
  assert (forall x : (error + webReply) * Gateway, fst x =
    inr (writeJSONError StatusForbidden "key access denied") ->
    x = (inr (writeJSONError StatusForbidden "key access denied"), snd x)) as Pair
    by by intros [? ?] [= ->].
  split; [vm_compute; reflexivity|].
  eapply (proj1 (@accounts_are_isolated sample_users sample_aead quiet_elsewhere sample_ip sample_web
    sample_cfg sample_session_key "root" quiet_alone _ bob_asks bob_gateway
    (writeJSONError StatusForbidden "key access denied") _ _ _ _ _)).
  Unshelve.
  - vm_compute. reflexivity.
  - vm_compute. reflexivity.
  - vm_compute. discriminate.
  - intros info g1 E.
    assert (fst (@sessionUser sample_users quiet_elsewhere sample_web sample_session_key
      bob_asks bob_gateway) = inr (Some bob_info)) as F by (vm_compute; reflexivity).
    rewrite E in F. injection F as ->. by split.
  - apply Pair. vm_compute. reflexivity.
Defined.
