(* ===== verification/WebNodes.v ===== *)
(** internal/web/registry.go and internal/web/client.go: the list of nodes that the
    gateway keeps in a file, and the requests it makes to them.

    net/url, the HTTP transport and encoding/json are parameters.  The transport
    answers a numbered request, and never follows a redirect ([rejectNodeRedirect]).
    [NodeAPI] is the interface by which the rest of the gateway talks to a node; the
    instance at the end is [NodeClient]. *)

From S2P Require Export WebSession DaemonDecode Telemetry.
#[global] Open Scope Z_scope.

(** * Node endpoints *)

(** [url.URL], as far as the code looks at it; [url_rest] are the other fields. *)
Record URL : Type := mkURL
  { url_Scheme : string; url_User : bool; url_Host : string; url_Path : string;
    url_RawQuery : string; url_Fragment : string; url_rest : string }.
Definition url_set_Path (path : string) (u : URL) : URL :=
  mkURL (url_Scheme u) (url_User u) (url_Host u) path (url_RawQuery u) (url_Fragment u) (url_rest u).

Class NetURL : Type := { url_Parse : string -> error + URL; URLString : URL -> string }.

(** [strings.TrimRight(s, "/")]. *)
Definition trimRightSlash (s : string) : string := srev (trimLeftOf isSlash (srev s)).

Definition parseNodeEndpoint `{NetURL} (base : string) : error + URL :=
  match url_Parse (trimRightSlash (TrimSpace base)) with
  | inl err => inl err
  | inr parsed =>
      if (url_Scheme parsed <>s "http") && (url_Scheme parsed <>s "https")
      then inl (ErrorString "node endpoint scheme must be http or https")
      else if url_Host parsed =s "" then inl (ErrorString "node endpoint host is required")
      else if url_User parsed || (url_RawQuery parsed <>s "") || (url_Fragment parsed <>s "")
      then inl (ErrorString "node endpoint must not contain credentials, a query, or a fragment")
      else inr parsed
  end.

Definition joinURL `{NetURL} (base apiPath : string) (allowInsecureNodes : bool) : error + string :=
  match parseNodeEndpoint base with
  | inl err => inl err
  | inr parsed =>
      if (url_Scheme parsed <>s "https") && negb allowInsecureNodes
      then inl (ErrorString "plaintext HTTP node endpoints are disabled; use HTTPS or set GPUARDIAN_WEB_ALLOW_INSECURE_NODES=1")
      else inr (URLString (url_set_Path (PathJoin (url_Path parsed) apiPath) parsed))
  end.

(** * The registry *)

Definition maxRegistryFileBytes : Z := Z.shiftl 2 20.
Definition maxServerRecords : Z := 256.
Definition maxServerNameBytes : Z := 128.
Definition maxServerEndpoint : Z := 2048.
Definition maxServerRootKey : Z := 256.

Record ServerRecord : Type := mkServerRecord
  { server_ID : string; server_Name : string; server_Endpoint : string; server_RootKey : string;
    server_TLSSkipVerify : bool; server_CreatedAt : time; server_UpdatedAt : time }.
Record PublicServerRecord : Type := mkPublicServerRecord
  { pubserver_ID : string; pubserver_Name : string; pubserver_Endpoint : string;
    pubserver_TLSSkipVerify : bool; pubserver_CreatedAt : time; pubserver_UpdatedAt : time }.

Definition publicServerRecord (record : ServerRecord) : PublicServerRecord :=
  mkPublicServerRecord (server_ID record) (server_Name record) (server_Endpoint record)
    (server_TLSSkipVerify record) (server_CreatedAt record) (server_UpdatedAt record).

Record Registry : Type := mkRegistry
  { rg_path : string; rg_allowInsecureNodes : bool; rg_loaded : bool;
    rg_records : list ServerRecord }.
Definition NewRegistry (path : string) (allowInsecureNodes : bool) : Registry :=
  mkRegistry path allowInsecureNodes false [].
Definition rg_set_records (records : list ServerRecord) (r : Registry) : Registry :=
  mkRegistry (rg_path r) (rg_allowInsecureNodes r) true records.

Class RegistryJSON : Type := {
  MarshalServers : list ServerRecord -> error + string;
  UnmarshalServers : string -> error + list ServerRecord
}.

Definition validateServerRecord `{NetURL} (record : ServerRecord) : option error :=
  if maxServerNameBytes <? slen (server_Name record)
  then Some (Errorf "server name must be at most %d bytes" [AInt maxServerNameBytes])
  else if maxServerEndpoint <? slen (server_Endpoint record)
  then Some (Errorf "server endpoint must be at most %d bytes" [AInt maxServerEndpoint])
  else if maxServerRootKey <? slen (server_RootKey record)
  then Some (Errorf "root key must be at most %d bytes" [AInt maxServerRootKey])
  else match parseNodeEndpoint (server_Endpoint record) with
       | inl err => Some err
       | inr _ => None
       end.

(** A method holds the mutex of the registry from its start to its end, so it is one
    step on the host and the registry. *)
Definition Registered : Type := Host * Registry.

Section registry.
Context `{NetURL} `{RegistryJSON}.

Definition onFiles {A} (m : M Host A) : M Registered A := fun s =>
  let '(r, h) := m (fst s) in (r, (h, snd s)).
Definition setRecords (records : list ServerRecord) : M Registered unit :=
  modify (fun s => (fst s, rg_set_records records (snd s))).

Definition Registry_loadLocked : M Registered (list ServerRecord) :=
  r ← gets snd;
  if rg_loaded r then ret (rg_records r)
  else
    data ← try (onFiles (readPrivateFile (rg_path r) "registry file" maxRegistryFileBytes));
    match data with
    | inl err =>
        if errors_Is err errNotExist then setRecords [] ;; ret [] else throw err
    | inr data =>
        if slen (TrimSpace data) =? 0 then setRecords [] ;; ret []
        else
          records ← fromResult (UnmarshalServers data);
          fail_if (maxServerRecords <? llen records)
            (Errorf "registry contains %d records; maximum is %d"
               [AInt (llen records); AInt maxServerRecords]) ;;
          check (head (omap validateServerRecord records)) ;;
          setRecords records ;;
          ret records
    end.

Definition Registry_saveLocked (records : list ServerRecord) : M Registered unit :=
  data ← fromResult (MarshalServers records);
  r ← gets snd;
  '(committed, err) ← onFiles (writePrivateFile (rg_path r) (data +:+ newline));
  (if committed : bool then setRecords records else ret tt) ;;
  check err.

Definition Registry_List : M Registered (list ServerRecord) := Registry_loadLocked.

Definition Registry_PublicList : M Registered (list PublicServerRecord) :=
  records ← Registry_List;
  ret (map publicServerRecord records).

Definition Registry_Get (id : string) : M Registered (option ServerRecord) :=
  records ← Registry_List;
  ret (List.find (fun record => server_ID record =s id) records).

Definition randomHex (bytes : nat) : M Host string :=
  buf ← rand_Read bytes;
  ret (HexEncode buf).

(** The first record of that identity replaced, its creation time kept. *)
Fixpoint replaceRecord (record : ServerRecord) (records : list ServerRecord)
    : option (ServerRecord * list ServerRecord) :=
  match records with
  | [] => None
  | r :: rest =>
      if server_ID r =s server_ID record then
        let record := mkServerRecord (server_ID record) (server_Name record)
          (server_Endpoint record) (server_RootKey record) (server_TLSSkipVerify record)
          (server_CreatedAt r) (server_UpdatedAt record) in
        Some (record, record :: rest)
      else match replaceRecord record rest with
           | Some (record, rest) => Some (record, r :: rest)
           | None => None
           end
  end.

(** The identity, the times and the name of a record that is put in. *)
Definition prepareRecord (record : ServerRecord) (now : time) : M Registered ServerRecord :=
  id ← (if TrimSpace (server_ID record) =s ""
        then hex ← onFiles (randomHex 8); ret ("srv_" +:+ hex)
        else ret (server_ID record));
  let created := if TrimSpace (server_ID record) =s "" then now else server_CreatedAt record in
  let name := if TrimSpace (server_Name record) =s "" then server_Endpoint record
              else server_Name record in
  ret (mkServerRecord id name (server_Endpoint record) (server_RootKey record)
         (server_TLSSkipVerify record) created now).

Definition Upsert (record : ServerRecord) : M Registered ServerRecord :=
  records ← Registry_loadLocked;
  now ← onFiles time_Now;
  record ← prepareRecord record now;
  fail_if (TrimSpace (server_Endpoint record) =s "") (ErrorString "endpoint is required") ;;
  fail_if (TrimSpace (server_RootKey record) =s "") (ErrorString "root key is required") ;;
  check (validateServerRecord record) ;;
  r ← gets snd;
  fromResult (joinURL (server_Endpoint record) "/healthz" (rg_allowInsecureNodes r)) ;;
  match replaceRecord record records with
  | Some (record, records) => Registry_saveLocked records ;; ret record
  | None =>
      fail_if (maxServerRecords <=? llen records)
        (Errorf "server limit reached: maximum %d" [AInt maxServerRecords]) ;;
      Registry_saveLocked (records ++ [record]) ;;
      ret record
  end.

Definition Registry_Delete (id : string) : M Registered unit :=
  records ← Registry_loadLocked;
  fail_if (negb (existsb (fun record => server_ID record =s id) records)) ErrNotExist ;;
  Registry_saveLocked (List.filter (fun record => server_ID record <>s id) records).
End registry.

(** * The limits on the JSON of a node's answer *)

(** What [json.Decoder.Token] answers in turn, up to its first error, which at the end
    of the input is [io.EOF]; [moreAtEnd] is what [More] says there. *)
Inductive jtoken : Type :=
  | TOpen (brace : bool)             (* an opening brace, or an opening bracket *)
  | TClose (brace : bool)
  | TString (s : string)
  | TScalar.
Record jstream : Type := mkJstream
  { js_tokens : list jtoken; js_end : error; js_moreAtEnd : bool }.

Definition maxGenericNodeJSONTokens : Z := Z.shiftl 64 10.
Definition maxNodeSnapshotJSONDepth : Z := 64.
Definition maxNodeSnapshotRecords : Z := 4096.
Definition maxNodeSnapshotProcesses : Z := 2048.

Inductive snapshotJSONObject : Type :=
  | snapshotObjectOther | snapshotObjectTop | snapshotObjectGPU | snapshotObjectAuthorization
  | snapshotObjectLease.

Record snapshotJSONValidator : Type := mkValidator
  { v_tokens : list jtoken; v_records : Z; v_processes : Z; v_depth : Z }.
Definition v_set_tokens (x : list jtoken) (v : snapshotJSONValidator) : snapshotJSONValidator :=
  mkValidator x (v_records v) (v_processes v) (v_depth v).
Definition v_set_records (x : Z) (v : snapshotJSONValidator) : snapshotJSONValidator :=
  mkValidator (v_tokens v) x (v_processes v) (v_depth v).
Definition v_set_processes (x : Z) (v : snapshotJSONValidator) : snapshotJSONValidator :=
  mkValidator (v_tokens v) (v_records v) x (v_depth v).
Definition v_set_depth (x : Z) (v : snapshotJSONValidator) : snapshotJSONValidator :=
  mkValidator (v_tokens v) (v_records v) (v_processes v) x.

(** What an array of this name holds, inside this kind of object: whether its elements
    count as records and as processes, and the kind of object they are. *)
Definition arrayScope (parent : snapshotJSONObject) (field : string)
    : snapshotJSONObject * bool * bool :=
  match parent with
  | snapshotObjectTop =>
      if field =s "gpus" then (snapshotObjectGPU, true, false)
      else if (field =s "tokens") || (field =s "reservations") || (field =s "soft_claims") ||
              (field =s "bypasses") || (field =s "ps") then (snapshotObjectOther, true, false)
      else if field =s "authorizations" then (snapshotObjectAuthorization, true, false)
      else if field =s "leases" then (snapshotObjectLease, true, false)
      else (snapshotObjectOther, false, false)
  | snapshotObjectGPU =>
      if field =s "processes" then (snapshotObjectOther, true, true)
      else (snapshotObjectOther, false, false)
  | snapshotObjectAuthorization | snapshotObjectLease =>
      if field =s "command" then (snapshotObjectOther, true, false)
      else (snapshotObjectOther, false, false)
  | snapshotObjectOther => (snapshotObjectOther, false, false)
  end.

(** [field[i] >= 0x80] for some [i]. *)
Fixpoint nonASCII (s : string) : bool :=
  match s with
  | EmptyString => false
  | String c rest => (128 <=? byte_val c) || nonASCII rest
  end.

Section validator.
(** The end of the stream, and [v.kind]. *)
Variables (ending : error) (moreAtEnd : bool) (kind : string).

Definition nextToken : M snapshotJSONValidator jtoken :=
  v ← get;
  match v_tokens v with
  | [] => throw ending
  | t :: rest => modify (v_set_tokens rest) ;; ret t
  end.
Definition decoderMore : M snapshotJSONValidator bool :=
  v ← get;
  ret (match v_tokens v with [] => moreAtEnd | TClose _ :: _ => false | _ => true end).

Definition enterContainer : M snapshotJSONValidator unit :=
  v ← get;
  modify (v_set_depth (v_depth v + 1)) ;;
  fail_if (maxNodeSnapshotJSONDepth <? v_depth v + 1)
    (Errorf "%s exceeds JSON nesting depth %d" [AStr kind; AInt maxNodeSnapshotJSONDepth]).
Definition leaveContainer : M snapshotJSONValidator unit :=
  modify (fun v => v_set_depth (v_depth v - 1) v).

Definition countProcess : M snapshotJSONValidator unit :=
  v ← get;
  modify (v_set_processes (v_processes v + 1)) ;;
  fail_if (maxNodeSnapshotProcesses <? v_processes v + 1)
    (Errorf "%s exceeds %d processes" [AStr kind; AInt maxNodeSnapshotProcesses]).
Definition countRecord : M snapshotJSONValidator unit :=
  v ← get;
  modify (v_set_records (v_records v + 1)) ;;
  fail_if (maxNodeSnapshotRecords <? v_records v + 1)
    (Errorf "%s exceeds %d records" [AStr kind; AInt maxNodeSnapshotRecords]).

(** The recursion of [consumeObject], [consumeValue] and [consumeArray] with their
    loops, on fuel that bounds the depth of calls; [outOfFuel] is never answered when
    there is more of it than three times the tokens. *)
Definition outOfFuel : error := ErrorString "out of fuel".

Fixpoint consumeValue (fuel : nat) (parent : snapshotJSONObject) (field : string)
    (objectScope : snapshotJSONObject) : M snapshotJSONValidator unit :=
  match fuel with
  | O => throw outOfFuel
  | S fuel =>
      token ← nextToken;
      match token with
      | TOpen true =>
          enterContainer ;;
          consumeFields fuel objectScope ;;
          leaveContainer
      | TOpen false =>
          enterContainer ;;
          consumeElements fuel (arrayScope parent field) ;;
          leaveContainer
      | TClose _ => throw (Errorf "unexpected JSON delimiter in %s" [AStr kind])
      | _ => ret tt
      end
  end
with consumeFields (fuel : nat) (scope : snapshotJSONObject) : M snapshotJSONValidator unit :=
  match fuel with
  | O => throw outOfFuel
  | S fuel =>
      more ← decoderMore;
      if more : bool then
        token ← nextToken;
        match token with
        | TString field =>
            fail_if (nonASCII field) (Errorf "%s field names must be ASCII" [AStr kind]) ;;
            consumeValue fuel scope (ToLower field) snapshotObjectOther ;;
            consumeFields fuel scope
        | _ => throw (Errorf "%s object field must be a string" [AStr kind])
        end
      else nextToken ;; ret tt
  end
with consumeElements (fuel : nat) (scope : snapshotJSONObject * bool * bool)
    : M snapshotJSONValidator unit :=
  match fuel with
  | O => throw outOfFuel
  | S fuel =>
      let '(elementScope, countRecords, countProcesses) := scope in
      more ← decoderMore;
      if more : bool then
        (if countProcesses then countProcess else ret tt) ;;
        (if countRecords then countRecord else ret tt) ;;
        consumeValue fuel snapshotObjectOther "" elementScope ;;
        consumeElements fuel scope
      else nextToken ;; ret tt
  end.

Definition consumeObject (scope : snapshotJSONObject) : M snapshotJSONValidator unit :=
  v ← get;
  enterContainer ;;
  consumeFields (3 * List.length (v_tokens v) + 3) scope ;;
  leaveContainer.

Definition validateRecordTokens : M snapshotJSONValidator unit :=
  token ← nextToken;
  match token with
  | TOpen true =>
      consumeObject snapshotObjectTop ;;
      last ← try nextToken;
      match last with
      | inr _ => throw (Errorf "%s must contain one JSON value" [AStr kind])
      | inl err => if errors_Is err errEOFText then ret tt else throw err
      end
  | _ => throw (Errorf "%s must be a JSON object" [AStr kind])
  end.
End validator.

Definition validateNodeRecordJSON (s : jstream) (kind : string) : option error :=
  match result (validateRecordTokens (js_end s) (js_moreAtEnd s) kind)
          (mkValidator (js_tokens s) 0 0 0) with
  | inl err => Some err
  | inr _ => None
  end.
Definition validateNodeSnapshotJSON (s : jstream) : option error :=
  validateNodeRecordJSON s "node snapshot".
Definition validateNodeKeyStatusJSON (s : jstream) : option error :=
  validateNodeRecordJSON s "node key status".

Fixpoint genericTokens (ending : error) (tokens depth : Z) (l : list jtoken) : option error :=
  match l with
  | [] => if errors_Is ending errEOFText then None else Some ending
  | t :: rest =>
      let tokens := tokens + 1 in
      if maxGenericNodeJSONTokens <? tokens
      then Some (Errorf "node response exceeds %d JSON tokens" [AInt maxGenericNodeJSONTokens])
      else match t with
           | TOpen _ =>
               if maxNodeSnapshotJSONDepth <? depth + 1
               then Some (Errorf "node response exceeds JSON nesting depth %d"
                            [AInt maxNodeSnapshotJSONDepth])
               else genericTokens ending tokens (depth + 1) rest
           | TClose _ => genericTokens ending tokens (depth - 1) rest
           | _ => genericTokens ending tokens depth rest
           end
  end.
Definition validateGenericNodeJSON (s : jstream) : option error :=
  genericTokens (js_end s) 0 0 (js_tokens s).

(** * The client *)

Definition defaultNodeResponseLimit : Z := Z.shiftl 1 20.
Definition defaultNodeErrorResponseLimit : Z := Z.shiftl 64 10.

Record NodeClient : Type := mkNodeClient
  { client_Timeout : duration; client_AllowInsecureNodes : bool;
    client_responseLimit : Z; client_errorResponseLimit : Z }.

Definition timeout (c : NodeClient) : duration :=
  if 0 <? client_Timeout c then client_Timeout c else 4 * Second.
Definition successLimit (c : NodeClient) : Z :=
  if 0 <? client_responseLimit c then client_responseLimit c else defaultNodeResponseLimit.
Definition errorLimit (c : NodeClient) : Z :=
  if 0 <? client_errorResponseLimit c then client_errorResponseLimit c
  else defaultNodeErrorResponseLimit.

(** A request as the transport sends it: what authorizes it is the root key after
    "Bearer "; [out_SkipVerify] is the client that does not verify certificates. *)
Record nodeRequest : Type := mkNodeRequest
  { out_Method : string; out_URL : string; out_Authorization : string;
    out_JSON : bool; out_Body : string; out_SkipVerify : bool; out_Timeout : duration }.

(** A response: the body is what can be read of it, and the error that reading on
    meets, if it is not the end. *)
Record nodeResponse : Type := mkNodeResponse
  { in_StatusCode : Z; in_Status : string; in_Body : string; in_readErr : option error }.

Class Transport : Type := {
  NewRequest : string -> string -> option error;
  Do : nat -> nodeRequest -> error + nodeResponse
}.

(** [io.ReadAll(io.LimitReader(reader, limit+1))] and the check of what it read. *)
Definition readLimitedNodeBody (r : nodeResponse) (limit : Z) : error + string :=
  if limit <? slen (in_Body r)
  then inl (Errorf "response body exceeds %d bytes" [AInt limit])
  else match in_readErr r with Some err => inl err | None => inr (in_Body r) end.

(** encoding/json on what is sent to nodes and on what they answer: [JSONTokens] are
    the tokens of an answer, [CheckValid] says whether it is one JSON value. *)
Class NodeCodec : Type := {
  JSONTokens : string -> jstream;
  CheckValid : string -> option error;
  MarshalRegisterArgs : RegisterArgs -> error + string;
  MarshalAllowArgs : AllowArgs -> error + string;
  MarshalRevokeArgs : RevokeArgs -> error + string;
  MarshalKeySnapshot : ManagedUserKeySnapshot -> error + string;
  UnmarshalErrorText : string -> string;
  UnmarshalOK : string -> option error;
  UnmarshalSnapshot : string -> error + NodeSnapshot;
  UnmarshalInfo : string -> error + Info;
  UnmarshalRegisterResult : string -> error + RegisterResult;
  UnmarshalKeyStatus : string -> error + KeyStatus;
  UnmarshalAllowResult : string -> error + AllowResult;
  UnmarshalStrings : string -> error + gmap string string;
  UnmarshalSyncResult : string -> error + ManagedUserKeySyncResult
}.

Definition Info_zero : Info := mkInfo "" "" "" 0 [].
Definition RegisterResult_zero : RegisterResult := mkRegisterResult "" "" "" "" [] [] None None.
Definition AllowResult_zero : AllowResult := mkAllowResult "" "" "" "" "" "" None.
Definition KeyStatus_zero : KeyStatus := mkKeyStatus 0 [] [] [] [].
Definition NodeSnapshot_zero : NodeSnapshot := mkNodeSnapshot 0 "" [] [] [] [] [] [] [] [].

Section client.
Context `{NetURL} `{Transport} `{NodeCodec}.

(** [call]: the request it makes, if it comes to that, and its answer.  [zero] is what
    [out] holds when the body is empty, [bounded] says that [out] validates its JSON
    itself. *)
Definition call {A} (n : nat) (c : NodeClient) (server : ServerRecord)
    (rootKey method apiPath : string) (body : option (error + string)) (zero : A)
    (bounded : bool) (decode : string -> error + A) : list nodeRequest * (error + A) :=
  let named err := Errorf "node %s: %w" [AStr (server_Name server); AErr err] in
  match joinURL (server_Endpoint server) apiPath (client_AllowInsecureNodes c) with
  | inl err => ([], inl err)
  | inr endpoint =>
      match match body with None => inr "" | Some data => data end with
      | inl err => ([], inl err)
      | inr payload =>
          match NewRequest method endpoint with
          | Some err => ([], inl err)
          | None =>
              let req := mkNodeRequest method endpoint ("Bearer " +:+ rootKey)
                (match body with Some _ => true | None => false end) payload
                (server_TLSSkipVerify server) (timeout c) in
              ([req],
               match Do n req with
               | inl err => inl err
               | inr resp =>
                   if (in_StatusCode resp <? 200) || (300 <=? in_StatusCode resp) then
                     match readLimitedNodeBody resp (errorLimit c) with
                     | inl err => inl (named err)
                     | inr data =>
                         let text := UnmarshalErrorText data in
                         inl (Errorf "node %s: %s" [AStr (server_Name server);
                                AStr (if text =s "" then in_Status resp else text)])
                     end
                   else
                     match readLimitedNodeBody resp (successLimit c) with
                     | inl err => inl (named err)
                     | inr data =>
                         if slen (TrimSpace data) =? 0 then inr zero
                         else match if bounded then None else validateGenericNodeJSON (JSONTokens data) with
                              | Some err => inl (named err)
                              | None => decode data
                              end
                     end
               end)
          end
      end
  end.

(** [json.Unmarshal] into [boundedNodeSnapshot] and [boundedKeyStatus]. *)
Definition boundedDecode {A} (validate : jstream -> option error) (unmarshal : string -> error + A)
    (data : string) : error + A :=
  match CheckValid data with
  | Some err => inl err
  | None => match validate (JSONTokens data) with
            | Some err => inl err
            | None => unmarshal data
            end
  end.

Definition Client_Health (n : nat) (c : NodeClient) (server : ServerRecord) (rootKey : string) :=
  call n c server rootKey "GET" "/healthz" None tt false
    (fun data => match UnmarshalOK data with Some err => inl err | None => inr tt end).
Definition Client_Snapshot (n : nat) (c : NodeClient) (server : ServerRecord) :=
  call n c server (server_RootKey server) "GET" "/api/v1/snapshot" None NodeSnapshot_zero true
    (boundedDecode validateNodeSnapshotJSON UnmarshalSnapshot).
Definition Client_Info (n : nat) (c : NodeClient) (server : ServerRecord) :=
  call n c server (server_RootKey server) "GET" "/api/v1/info" None Info_zero false UnmarshalInfo.
Definition Client_CreateReservation (n : nat) (c : NodeClient) (server : ServerRecord)
    (args : RegisterArgs) :=
  call n c server (server_RootKey server) "POST" "/api/v1/reservations"
    (Some (MarshalRegisterArgs args)) RegisterResult_zero false UnmarshalRegisterResult.
Definition Client_CreateClaimKey (n : nat) (c : NodeClient) (server : ServerRecord)
    (args : RegisterArgs) :=
  call n c server (server_RootKey server) "POST" "/api/v1/claim-keys"
    (Some (MarshalRegisterArgs args)) RegisterResult_zero false UnmarshalRegisterResult.
Definition Client_SyncManagedUserKeys (n : nat) (c : NodeClient) (server : ServerRecord)
    (snapshot : ManagedUserKeySnapshot) :=
  call n c server (server_RootKey server) "PUT" "/api/v1/user-keys/sync"
    (Some (MarshalKeySnapshot snapshot)) (mkManagedUserKeySyncResult "" 0 false) false
    UnmarshalSyncResult.
Definition Client_ShowKeys (n : nat) (c : NodeClient) (server : ServerRecord) (rootKey : string) :=
  call n c server rootKey "POST" "/api/v1/show-keys" None KeyStatus_zero true
    (boundedDecode validateNodeKeyStatusJSON UnmarshalKeyStatus).
Definition Client_Allow (n : nat) (c : NodeClient) (server : ServerRecord) (args : AllowArgs) :=
  call n c server (server_RootKey server) "POST" "/api/v1/allow" (Some (MarshalAllowArgs args))
    AllowResult_zero false UnmarshalAllowResult.
Definition Client_Revoke (n : nat) (c : NodeClient) (server : ServerRecord) (args : RevokeArgs) :=
  call n c server (server_RootKey server) "POST" "/api/v1/revoke" (Some (MarshalRevokeArgs args))
    (∅ : gmap string string) false UnmarshalStrings.
End client.

(** * What the gateway asks of a node *)

(** A question asked of a node. *)
Inductive NodeCall : Type :=
  | CHealth (server : ServerRecord) (rootKey : string)
  | CSnapshot (server : ServerRecord)
  | CInfo (server : ServerRecord)
  | CCreateReservation (server : ServerRecord) (args : RegisterArgs)
  | CShowKeys (server : ServerRecord) (rootKey : string)
  | CAllow (server : ServerRecord) (args : AllowArgs)
  | CRevoke (server : ServerRecord) (args : RevokeArgs)
  | CSyncManagedUserKeys (server : ServerRecord) (snapshot : ManagedUserKeySnapshot).

(** [NodeAPI], with the two interfaces that a client may implement beside it: the
    answers to the questions by their number. *)
Class NodeAPI : Type := {
  managedClient : bool;
  telemetryClient : bool;
  Health : nat -> ServerRecord -> string -> error + unit;
  Snapshot : nat -> ServerRecord -> error + NodeSnapshot;
  NodeInfo : nat -> ServerRecord -> error + Info;
  CreateReservation : nat -> ServerRecord -> RegisterArgs -> error + RegisterResult;
  ShowKeys : nat -> ServerRecord -> string -> error + KeyStatus;
  Allow : nat -> ServerRecord -> AllowArgs -> error + AllowResult;
  NodeRevoke : nat -> ServerRecord -> RevokeArgs -> error + gmap string string;
  SyncNode : nat -> ServerRecord -> ManagedUserKeySnapshot -> error + ManagedUserKeySyncResult
}.

(** [NodeClient] implements all three. *)
Definition NodeClient_NodeAPI `{NetURL} `{Transport} `{NodeCodec} (c : NodeClient) : NodeAPI := {|
  managedClient := true;
  telemetryClient := true;
  Health n server rootKey := snd (Client_Health n c server rootKey);
  Snapshot n server := snd (Client_Snapshot n c server);
  NodeInfo n server := snd (Client_Info n c server);
  CreateReservation n server args := snd (Client_CreateReservation n c server args);
  ShowKeys n server rootKey := snd (Client_ShowKeys n c server rootKey);
  Allow n server args := snd (Client_Allow n c server args);
  NodeRevoke n server args := snd (Client_Revoke n c server args);
  SyncNode n server snapshot := snd (Client_SyncManagedUserKeys n c server snapshot)
|}.
