(* ===== verification/WebNodesFacts.v ===== *)
(** The list of nodes and the requests made to them: what the validators of a node's
    JSON accept, where the root key of a node is sent, and that the list survives
    whatever fails. *)

From S2P Require Export WebNodes WebAccounts.
#[global] Open Scope Z_scope.

(** * What the validators accept *)

(** The tokens of a JSON value. *)
Fixpoint tokensOf (v : jvalue) : list jtoken :=
  match v with
  | JNull | JBool _ | JNumber _ => [TScalar]
  | JString s => [TString s]
  | JArray values => TOpen false :: concat (map tokensOf values) ++ [TClose false]
  | JObject members =>
      TOpen true :: concat (map (fun '(k, v) => TString k :: tokensOf v) members) ++ [TClose true]
  end.

Definition maxOf {A} (f : A -> Z) (l : list A) : Z := foldr (fun x m => Z.max (f x) m) 0 l.

(** How deep a value is nested, and whether its field names are ASCII. *)
Fixpoint depthOf (v : jvalue) : Z :=
  match v with
  | JArray values => 1 + maxOf depthOf values
  | JObject members => 1 + maxOf (fun m => depthOf (snd m)) members
  | _ => 0
  end.
Fixpoint asciiNames (v : jvalue) : bool :=
  match v with
  | JArray values => forallb asciiNames values
  | JObject members => forallb (fun m => negb (nonASCII (fst m)) && asciiNames (snd m)) members
  | _ => true
  end.

(** How many records, and how many processes, a value holds: [counts] picks which of the
    arrays are counted. *)
Fixpoint countIn (counts : snapshotJSONObject * bool * bool -> bool) (parent : snapshotJSONObject)
    (field : string) (objectScope : snapshotJSONObject) (v : jvalue) : Z :=
  match v with
  | JArray values =>
      let scope := arrayScope parent field in
      (if counts scope then llen values else 0) +
      sumOf (countIn counts snapshotObjectOther "" (fst (fst scope))) values
  | JObject members =>
      sumOf (fun m => countIn counts objectScope (ToLower (fst m)) snapshotObjectOther (snd m)) members
  | _ => 0
  end.
Definition recordsIn := countIn (fun scope => snd (fst scope)).
Definition processesIn := countIn snd.

(** The same counts, by the paths of the arrays: the lists at the top, the processes of
    the GPUs, and the words of the commands of authorizations and leases. *)
Definition arraysIn (inner : string -> list jvalue -> Z) (v : jvalue) : Z :=
  match v with
  | JObject members =>
      sumOf (fun m => match snd m with JArray l => inner (ToLower (fst m)) l | _ => 0 end) members
  | _ => 0
  end.
Definition listsNamed (name : string) : jvalue -> Z :=
  arraysIn (fun field l => if field =s name then llen l else 0).
Definition topLists : list string :=
  ["gpus"; "tokens"; "reservations"; "soft_claims"; "bypasses"; "ps"; "authorizations"; "leases"].
Definition recordCountOf : jvalue -> Z := arraysIn (fun field l =>
  (if existsb (String.eqb field) topLists then llen l else 0) +
  (if field =s "gpus" then sumOf (listsNamed "processes") l
   else if (field =s "authorizations") || (field =s "leases") then sumOf (listsNamed "command") l
   else 0)).
Definition processCountOf : jvalue -> Z := arraysIn (fun field l =>
  if field =s "gpus" then sumOf (listsNamed "processes") l else 0).

(** Induction through the lists of a value. *)
Lemma jvalue_nested (P : jvalue -> Prop) :
  P JNull -> (forall b, P (JBool b)) -> (forall s, P (JNumber s)) -> (forall s, P (JString s)) ->
  (forall l, Forall P l -> P (JArray l)) ->
  (forall l, Forall (fun m => P (snd m)) l -> P (JObject l)) -> forall v, P v.
Proof.
  intros Hn Hb Hz Hs Ha Ho. fix IH 1. intros [| | | |values|members]; [done| |done|done| |].
  - apply Hb.
  - apply Ha. induction values as [|v values IHl]; constructor; [apply IH|apply IHl].
  - apply Ho. induction members as [|[k v] members IHl]; constructor; [apply IH|apply IHl].
Qed.

Lemma maxOf_cons {A} (f : A -> Z) x l : maxOf f (x :: l) = Z.max (f x) (maxOf f l).
Proof. done. Qed.
Lemma maxOf_nonneg {A} (f : A -> Z) l : 0 <= maxOf f l.
Proof. induction l as [|x l IH]; cbn [maxOf foldr]; unfold maxOf in *; lia. Qed.

Lemma depthOf_nonneg v : 0 <= depthOf v.
Proof.
  destruct v as [| | | |l|l]; cbn [depthOf]; try lia.
  - pose proof (maxOf_nonneg depthOf l). lia.
  - pose proof (maxOf_nonneg (fun m => depthOf (snd m)) l). lia.
Qed.
Lemma countIn_nonneg counts v : forall parent field scope, 0 <= countIn counts parent field scope v.
Proof.
  induction v as [| | | |l IH|l IH] using jvalue_nested; intros parent field scope; cbn [countIn]; try lia.
  - enough (0 <= sumOf (countIn counts snapshotObjectOther "" (fst (fst (arrayScope parent field)))) l).
    { destruct (counts _); pose proof (llen_nonneg l); lia. }
    apply sumOf_nonneg. eapply Forall_impl; [exact IH|]. intros v Hv. apply Hv.
  - apply sumOf_nonneg. eapply Forall_impl; [exact IH|]. intros [k v] Hv. apply Hv.
Qed.

Lemma tokensOf_nonempty v : (1 <= length (tokensOf v))%nat.
Proof. destruct v; cbn [tokensOf length]; lia. Qed.

(** [true] stands for enough room at this depth and with these counts. *)
Definition room (depth records processes : Z) : Prop :=
  depth <= maxNodeSnapshotJSONDepth /\ records <= maxNodeSnapshotRecords /\
  processes <= maxNodeSnapshotProcesses.

Section consumed.
Variables (ending : error) (moreAtEnd : bool) (kind : string).

#[local] Abbreviation consumeValue := (consumeValue ending moreAtEnd kind).
#[local] Abbreviation consumeFields := (consumeFields ending moreAtEnd kind).
#[local] Abbreviation consumeElements := (consumeElements ending moreAtEnd kind).

(** [m] consumes the front of the tokens, counts and comes back to the depth, exactly if
    [fits]; otherwise it fails. *)
Definition consumes (m : M snapshotJSONValidator unit) (front : list jtoken) (records processes : Z)
    (fits : Z -> Z -> Z -> Prop) : Prop :=
  forall rest r p d, room d r p ->
    match m (mkValidator (front ++ rest) r p d) with
    | (inr _, v) => fits r p d /\ v = mkValidator rest (r + records) (p + processes) d
    | (inl _, _) => ~ fits r p d
    end.

Definition fitsValue (parent : snapshotJSONObject) (field : string) (scope : snapshotJSONObject)
    (v : jvalue) (r p d : Z) : Prop :=
  asciiNames v = true /\
  room (d + depthOf v) (r + recordsIn parent field scope v) (p + processesIn parent field scope v).
Definition consumesValue (v : jvalue) : Prop :=
  forall fuel parent field scope, (length (tokensOf v) <= fuel)%nat ->
    consumes (consumeValue fuel parent field scope) (tokensOf v) (recordsIn parent field scope v)
      (processesIn parent field scope v) (fitsValue parent field scope v).

(** ** Rules *)

(** One after the other; what the first leaves has room. *)
Lemma consumes_bind m k front1 front2 r1 r2 p1 p2 (fits1 fits2 : Z -> Z -> Z -> Prop) :
  consumes m front1 r1 p1 fits1 -> consumes k front2 r2 p2 fits2 ->
  (forall r p d, fits1 r p d -> room d (r + r1) (p + p1)) ->
  consumes (m ;; k) (front1 ++ front2) (r1 + r2) (p1 + p2)
    (fun r p d => fits1 r p d /\ fits2 (r + r1) (p + p1) d).
Proof.
  intros Hm Hk Rm rest r p d R0. specialize (Hm (front2 ++ rest) r p d R0).
  rewrite <- app_assoc. unfold mbind, M_bind, bind.
  destruct (m (mkValidator (front1 ++ front2 ++ rest) r p d)) as [[e|[]] v].
  - tauto.
  - destruct Hm as [F1 ->]. specialize (Hk rest (r + r1) (p + p1) d (Rm _ _ _ F1)).
    destruct (k _) as [[e|[]] v]; [tauto|].
    destruct Hk as [F2 ->]. split; [done|]. by rewrite !Z.add_assoc.
Qed.

Lemma consumes_fits m front r1 p1 r1' p1' (fits fits' : Z -> Z -> Z -> Prop) :
  consumes m front r1 p1 fits -> r1 = r1' -> p1 = p1' ->
  (forall r p d, room d r p -> fits' r p d <-> fits r p d) -> consumes m front r1' p1' fits'.
Proof.
  intros Hm <- <- F rest r p d R0. specialize (Hm rest r p d R0).
  destruct (m _) as [[e|a] v]; by rewrite F.
Qed.

Lemma consumes_ret : consumes (ret tt) [] 0 0 (fun r p d => room d r p).
Proof. intros rest r p d Rm. by rewrite !Z.add_0_r. Qed.

Lemma consumes_fail_if b e : consumes (fail_if b e) [] 0 0 (fun r p d => b = false /\ room d r p).
Proof.
  intros rest r p d Rm. destruct b; cbn; [by intros [[=] _]|]. by rewrite !Z.add_0_r.
Qed.

Lemma consumes_record : consumes (countRecord kind) [] 1 0 (fun r p d => room d (r + 1) p).
Proof.
  intros rest r p d (D & R & P). unfold countRecord.
  unfold mbind, M_bind, bind, get, modify. cbn -[maxNodeSnapshotRecords].
  destruct (Z.ltb_spec maxNodeSnapshotRecords (r + 1)); cbn.
  - intros (_ & ? & _). lia.
  - by rewrite !Z.add_0_r.
Qed.
Lemma consumes_process : consumes (countProcess kind) [] 0 1 (fun r p d => room d r (p + 1)).
Proof.
  intros rest r p d (D & R & P). unfold countProcess.
  unfold mbind, M_bind, bind, get, modify. cbn -[maxNodeSnapshotProcesses].
  destruct (Z.ltb_spec maxNodeSnapshotProcesses (p + 1)); cbn.
  - intros (_ & _ & ?). lia.
  - by rewrite !Z.add_0_r.
Qed.

(** Counting, where it is asked for. *)
Lemma consumes_counts (cr cp : bool) :
  consumes (if cp then countProcess kind else ret tt) [] 0 (if cp then 1 else 0)
    (fun r p d => room d r (p + if cp then 1 else 0)) /\
  consumes (if cr then countRecord kind else ret tt) [] (if cr then 1 else 0) 0
    (fun r p d => room d (r + if cr then 1 else 0) p).
Proof.
  split; [destruct cp; [apply consumes_process|]|destruct cr; [apply consumes_record|]].
  all: eapply consumes_fits; [apply consumes_ret|done|done|]; intros r p d Rm; by rewrite Z.add_0_r.
Qed.

Lemma consumes_token {m : jtoken -> M snapshotJSONValidator unit} t front r1 p1 fits :
  consumes (m t) front r1 p1 fits -> consumes (nextToken ending ≫= m) (t :: front) r1 p1 fits.
Proof. intros Hm rest r p d Rm. apply (Hm rest r p d Rm). Qed.

(** A loop that goes on, since what follows closes nothing, and one that ends. *)
Definition opens (front : list jtoken) : Prop :=
  match front with [] | TClose _ :: _ => False | _ => True end.

Lemma opens_value v rest : opens (tokensOf v ++ rest).
Proof. by destruct v. Qed.

Lemma consumes_more m fin front r1 p1 fits : opens front -> consumes m front r1 p1 fits ->
  consumes (more ← decoderMore moreAtEnd; if more : bool then m else fin) front r1 p1 fits.
Proof.
  intros N Hm rest r p d Rm. destruct front as [|[] front]; try done; by apply (Hm rest r p d).
Qed.
Lemma consumes_close m b : consumes (more ← decoderMore moreAtEnd;
  if more : bool then m else nextToken ending ;; ret tt) [TClose b] 0 0 (fun r p d => room d r p).
Proof. intros rest r p d Rm. cbn. by rewrite !Z.add_0_r. Qed.

Lemma consumes_container m front r1 p1 (fits : Z -> Z -> Z -> Prop) :
  consumes m front r1 p1 fits -> (forall r p d, fits r p d -> room d r p) ->
  consumes (enterContainer kind ;; m ;; leaveContainer) front r1 p1 (fun r p d => fits r p (d + 1)).
Proof.
  intros Hm Rm rest r p d (D & R & P). unfold enterContainer.
  unfold mbind, M_bind, bind, get, modify. cbn -[maxNodeSnapshotJSONDepth].
  destruct (Z.ltb_spec maxNodeSnapshotJSONDepth (d + 1)); cbn [fail_if throw ret].
  - intros F%Rm. destruct F as (? & _). lia.
  - specialize (Hm rest r p (d + 1)). cbn. unfold v_set_depth. cbn.
    destruct (m _) as [[e|[]] v]; [by apply Hm|]. cbn. destruct Hm as [F ->]; [done|].
    cbn. split; [done|]. unfold v_set_depth. cbn. f_equal. lia.
Qed.

(** ** The loops *)

Definition fieldsOf (members : list (string * jvalue)) : list jtoken :=
  concat (map (fun '(k, v) => TString k :: tokensOf v) members) ++ [TClose true].

Lemma consumes_fields members : Forall (fun m => consumesValue (snd m)) members ->
  forall fuel scope, (length (fieldsOf members) <= fuel)%nat ->
  consumes (consumeFields fuel scope) (fieldsOf members)
    (recordsIn snapshotObjectOther "" scope (JObject members))
    (processesIn snapshotObjectOther "" scope (JObject members))
    (fun r p d => asciiNames (JObject members) = true /\
       room (d + maxOf (fun m => depthOf (snd m)) members)
         (r + recordsIn snapshotObjectOther "" scope (JObject members))
         (p + processesIn snapshotObjectOther "" scope (JObject members))).
Proof.
  unfold recordsIn, processesIn, fieldsOf. cbn [countIn asciiNames].
  induction 1 as [|[k v] members Hv _ IH]; intros fuel scope L.
  all: destruct fuel as [|fuel]; [cbn in L; rewrite ?length_app in L; cbn in L; lia|].
  - eapply consumes_fits; [apply (consumes_close _ true)|done|done|].
    intros r p d Rm. cbn. rewrite !Z.add_0_r. tauto.
  - cbn [snd] in Hv. cbn [map concat sumOf foldr maxOf forallb fst snd app length] in *.
    rewrite <- app_assoc. rewrite !length_app in L. specialize (IH fuel scope ltac:(rewrite length_app; lia)).
    specialize (Hv fuel scope (ToLower k) snapshotObjectOther ltac:(lia)).
    pose proof (depthOf_nonneg v). pose proof (maxOf_nonneg (fun m => depthOf (snd m)) members).
    pose proof (countIn_nonneg (fun scope => snd (fst scope)) (JObject members) snapshotObjectOther "" scope) as Nr.
    pose proof (countIn_nonneg snd (JObject members) snapshotObjectOther "" scope) as Np.
    pose proof (countIn_nonneg (fun scope => snd (fst scope)) v scope (ToLower k) snapshotObjectOther).
    pose proof (countIn_nonneg snd v scope (ToLower k) snapshotObjectOther).
    cbn [countIn] in Nr, Np.
    apply consumes_more; [done|]. apply consumes_token.
    change (consumes (fail_if (nonASCII k) (Errorf "%s field names must be ASCII" [AStr kind]) ;;
      consumeValue fuel scope (ToLower k) snapshotObjectOther ;; consumeFields fuel scope)
      ([] ++ tokensOf v ++ fieldsOf members)
      (recordsIn scope (ToLower k) snapshotObjectOther v + recordsIn snapshotObjectOther "" scope (JObject members))
      (processesIn scope (ToLower k) snapshotObjectOther v + processesIn snapshotObjectOther "" scope (JObject members))
      (fun r p d => negb (nonASCII k) && asciiNames v && asciiNames (JObject members) = true /\
         room (d + Z.max (depthOf v) (maxOf (fun m => depthOf (snd m)) members))
           (r + (recordsIn scope (ToLower k) snapshotObjectOther v + recordsIn snapshotObjectOther "" scope (JObject members)))
           (p + (processesIn scope (ToLower k) snapshotObjectOther v + processesIn snapshotObjectOther "" scope (JObject members))))).
    unfold fitsValue, recordsIn, processesIn in *. cbn [countIn asciiNames] in *.
    eapply consumes_fits; [eapply consumes_bind; [apply consumes_fail_if|eapply consumes_bind; [exact Hv|exact IH|]|]| | |].
    + intros r p d F. unfold room in *. lia.
    + intros r p d F. destruct F as [_ F]. by rewrite !Z.add_0_r.
    + lia.
    + lia.
    + intros r p d Rm. cbv beta. rewrite !Z.add_0_r, !andb_true_iff, negb_true_iff. unfold room in *. intuition lia.
Qed.

Definition elementsOf (values : list jvalue) : list jtoken :=
  concat (map tokensOf values) ++ [TClose false].

Lemma consumes_elements es cr cp values : Forall consumesValue values ->
  forall fuel, (length (elementsOf values) <= fuel)%nat ->
  consumes (consumeElements fuel (es, cr, cp)) (elementsOf values)
    ((if cr then llen values else 0) + sumOf (recordsIn snapshotObjectOther "" es) values)
    ((if cp then llen values else 0) + sumOf (processesIn snapshotObjectOther "" es) values)
    (fun r p d => forallb asciiNames values = true /\
       room (d + maxOf depthOf values)
         (r + ((if cr then llen values else 0) + sumOf (recordsIn snapshotObjectOther "" es) values))
         (p + ((if cp then llen values else 0) + sumOf (processesIn snapshotObjectOther "" es) values))).
Proof.
  unfold elementsOf, recordsIn, processesIn.
  induction 1 as [|v values Hv _ IH]; intros fuel L.
  all: destruct fuel as [|fuel]; [cbn in L; rewrite ?length_app in L; cbn in L; lia|].
  - eapply consumes_fits; [apply (consumes_close _ false)|by destruct cr|by destruct cp|].
    intros r p d Rm. destruct cr, cp; cbn; rewrite !Z.add_0_r; tauto.
  - rewrite !sumOf_cons, maxOf_cons. cbn [map concat forallb app length] in *.
    pose proof (tokensOf_nonempty v). rewrite !length_app in L. cbn [length] in L.
    specialize (IH fuel ltac:(rewrite length_app; cbn [length]; lia)).
    specialize (Hv fuel snapshotObjectOther "" es ltac:(lia)).
    pose proof (depthOf_nonneg v). pose proof (maxOf_nonneg depthOf values).
    pose proof (countIn_nonneg (fun scope => snd (fst scope)) v snapshotObjectOther "" es).
    pose proof (countIn_nonneg snd v snapshotObjectOther "" es).
    pose proof (sumOf_nonneg (countIn (fun scope => snd (fst scope)) snapshotObjectOther "" es) values
      ltac:(apply Forall_true; intros; apply countIn_nonneg)).
    pose proof (sumOf_nonneg (countIn snd snapshotObjectOther "" es) values
      ltac:(apply Forall_true; intros; apply countIn_nonneg)).
    rewrite llen_cons. pose proof (llen_nonneg values).
    rewrite <- app_assoc.
    destruct (consumes_counts cr cp) as [Cp Cr].
    eapply consumes_fits; [|..].
    + apply (consumes_more ((if cp then countProcess kind else ret tt) ;;
        (if cr then countRecord kind else ret tt) ;;
        consumeValue fuel snapshotObjectOther "" es ;; consumeElements fuel (es, cr, cp))
        (nextToken ending ;; ret tt)); [apply opens_value|].
      eapply (consumes_bind _ _ [] _); [exact Cp|eapply (consumes_bind _ _ []); [exact Cr|
        eapply consumes_bind; [exact Hv|exact IH|]|]|].
      all: unfold fitsValue; intros r p d F; rewrite ?Z.add_0_r; try done.
      unfold room, recordsIn, processesIn in *. lia.
    + unfold recordsIn. destruct cr; lia.
    + unfold processesIn. destruct cp; lia.
    + intros r p d Rm. cbv beta. rewrite !Z.add_0_r, !andb_true_iff.
      unfold fitsValue, room, recordsIn, processesIn in *. destruct cr, cp; intuition lia.
Qed.

(** ** Values *)

Lemma consumes_value v : consumesValue v.
Proof.
  assert (forall fuel parent field scope t, (forall b, t <> TOpen b) -> (forall b, t <> TClose b) ->
    (1 <= fuel)%nat -> consumes (consumeValue fuel parent field scope) [t] 0 0 (fun r p d => room d r p)) as Scalar.
  { intros [|fuel] parent field scope t No Nc L rest r p d Rm; [lia|]. cbn.
    destruct t as [b|b| |]; [by destruct (No b)|by destruct (Nc b)|..]; cbn; by rewrite !Z.add_0_r. }
  induction v as [|b|s|s|values IH|members IH] using jvalue_nested; intros fuel parent field scope L.
  1-4: eapply consumes_fits; [by apply Scalar|done|done|];
    intros r p d Rm; unfold fitsValue; cbn; rewrite !Z.add_0_r; tauto.
  - destruct fuel as [|fuel]; [cbn in L; lia|]. cbn [tokensOf length] in L.
    pose proof (maxOf_nonneg depthOf values).
    pose proof (countIn_nonneg (fun scope => snd (fst scope)) (JArray values) parent field scope) as Nr.
    pose proof (countIn_nonneg snd (JArray values) parent field scope) as Np.
    unfold fitsValue, recordsIn, processesIn. cbn [countIn] in *.
    destruct (arrayScope parent field) as [[es cr] cp] eqn:As. cbn [fst snd] in *.
    eapply consumes_fits; [|reflexivity|reflexivity|].
    + apply (consumes_token (m := fun _ => enterContainer kind ;;
        consumeElements fuel (arrayScope parent field) ;; leaveContainer)). rewrite As.
      apply consumes_container; [apply consumes_elements; [done|]; unfold elementsOf; lia|].
      intros r p d (_ & F). unfold room, recordsIn, processesIn in *. lia.
    + intros r p d Rm. cbn [asciiNames depthOf]. unfold recordsIn, processesIn.
      by rewrite Z.add_assoc.
  - destruct fuel as [|fuel]; [cbn in L; lia|]. cbn [tokensOf length] in L.
    pose proof (maxOf_nonneg (fun m => depthOf (snd m)) members).
    pose proof (countIn_nonneg (fun scope => snd (fst scope)) (JObject members) snapshotObjectOther "" scope) as Nr.
    pose proof (countIn_nonneg snd (JObject members) snapshotObjectOther "" scope) as Np.
    eapply consumes_fits; [|reflexivity|reflexivity|].
    + apply (consumes_token (m := fun _ => enterContainer kind ;;
        consumeFields fuel scope ;; leaveContainer)).
      apply consumes_container; [apply consumes_fields; [done|]; unfold fieldsOf; lia|].
      intros r p d (_ & F). unfold room, recordsIn, processesIn in *. lia.
    + intros r p d Rm. unfold fitsValue. cbn [depthOf]. by rewrite Z.add_assoc.
Qed.
End consumed.

(** ** The fuel is enough *)

Section fuel.
Variables (ending : error) (moreAtEnd : bool) (kind : string).
Hypothesis otherError : ending <> outOfFuel.

(** [m] ends otherwise than for want of fuel, and leaves fewer than [n] tokens. *)
Definition ends (m : M snapshotJSONValidator unit) (v : snapshotJSONValidator) (n : nat) : Prop :=
  match m v with
  | (inl e, _) => e <> outOfFuel
  | (inr _, v') => (length (v_tokens v') < n)%nat
  end.

(** The steps that read no token. *)
Lemma ends_keep (m : M snapshotJSONValidator unit) k v n :
  (forall v, match m v with (inl e, _) => e <> outOfFuel | (inr _, v') => v_tokens v' = v_tokens v end) ->
  (forall v', v_tokens v' = v_tokens v -> ends k v' n) -> ends (m ;; k) v n.
Proof using.
  intros Hm Hk. specialize (Hm v). unfold ends, mbind, M_bind, bind.
  destruct (m v) as [[e|a] v']; [done|]. by apply Hk.
Qed.
Ltac keeps :=
  let v := fresh in intros v; unfold enterContainer, countRecord, countProcess,
    mbind, M_bind, bind, get, modify, fail_if; cbv beta iota;
  match goal with |- context [if ?b then _ else _] => destruct b end; done.

Lemma ends_container (m : M snapshotJSONValidator unit) v n :
  (forall v', v_tokens v' = v_tokens v -> ends m v' n) ->
  ends (enterContainer kind ;; m ;; leaveContainer) v n.
Proof using.
  intros Hm. apply ends_keep; [keeps|]. intros v' E. specialize (Hm v' E).
  unfold ends, mbind, M_bind, bind in *. by destruct (m v') as [[e|[]] v1].
Qed.

Lemma ends_then (m k : M snapshotJSONValidator unit) v n n1 :
  ends m v n1 -> (forall v', (length (v_tokens v') < n1)%nat -> ends k v' n) -> ends (m ;; k) v n.
Proof using.
  unfold ends at 1. intros Hm Hk. unfold ends, mbind, M_bind, bind.
  destruct (m v) as [[e|[]] v']; [done|]. by apply Hk.
Qed.

Lemma ends_weaken m v n n' : ends m v n -> (n <= n')%nat -> ends m v n'.
Proof using. unfold ends. destruct (m v) as [[e|[]] v']; [done|lia]. Qed.

Lemma validator_ends fuel :
  (forall parent field scope v, (2 * length (v_tokens v) + 1 <= fuel)%nat ->
     ends (consumeValue ending moreAtEnd kind fuel parent field scope) v (length (v_tokens v))) /\
  (forall scope v, (2 * length (v_tokens v) + 2 <= fuel)%nat ->
     ends (consumeFields ending moreAtEnd kind fuel scope) v (length (v_tokens v))) /\
  (forall scope v, (2 * length (v_tokens v) + 2 <= fuel)%nat ->
     ends (consumeElements ending moreAtEnd kind fuel scope) v (length (v_tokens v))).
Proof using otherError.
  induction fuel as [|fuel (Hv & Hf & He)].
  { split; [|split]; intros; lia. }
  split; [|split].
  - intros parent field scope [[|t tokens] r p d] L; cbn [v_tokens length] in *; [done|].
    destruct t as [[]|b|s|]; [| |by unfold ends|..].
    3, 4: change (length tokens < S (length tokens))%nat; lia.
    + change (ends (enterContainer kind ;; consumeFields ending moreAtEnd kind fuel scope ;; leaveContainer)
        (mkValidator tokens r p d) (S (length tokens))).
      apply ends_container. intros v' E. eapply ends_weaken; [apply Hf|]; rewrite E; cbn [v_tokens]; lia.
    + change (ends (enterContainer kind ;; consumeElements ending moreAtEnd kind fuel (arrayScope parent field) ;;
        leaveContainer) (mkValidator tokens r p d) (S (length tokens))).
      apply ends_container. intros v' E. eapply ends_weaken; [apply He|]; rewrite E; cbn [v_tokens]; lia.
  - intros scope [[|t tokens] r p d] L; cbn [v_tokens length] in *.
    { unfold ends. cbn. by destruct moreAtEnd. }
    destruct t as [b|b|s|]; [by unfold ends|change (length tokens < S (length tokens))%nat; lia| |by unfold ends].
    change (ends (fail_if (nonASCII s) (Errorf "%s field names must be ASCII" [AStr kind]) ;;
      consumeValue ending moreAtEnd kind fuel scope (ToLower s) snapshotObjectOther ;;
      consumeFields ending moreAtEnd kind fuel scope) (mkValidator tokens r p d) (S (length tokens))).
    apply ends_keep; [keeps|]. intros v' E.
    eapply ends_then; [apply Hv; rewrite E; cbn [v_tokens]; lia|]. rewrite E. cbn [v_tokens].
    intros v1 L1. eapply ends_weaken; [apply Hf; lia|lia].
  - intros [[es cr] cp] [tokens r p d] L; cbn [v_tokens] in *.
    assert (ends ((if cp then countProcess kind else ret tt) ;; (if cr then countRecord kind else ret tt) ;;
      consumeValue ending moreAtEnd kind fuel snapshotObjectOther "" es ;;
      consumeElements ending moreAtEnd kind fuel (es, cr, cp)) (mkValidator tokens r p d) (length tokens)) as G.
    { apply ends_keep; [destruct cp; [keeps|done]|]. intros v1 E1.
      apply ends_keep; [destruct cr; [keeps|done]|]. intros v2 E2.
      eapply ends_then; [apply Hv; rewrite E2, E1; cbn [v_tokens]; lia|]. rewrite E2, E1. cbn [v_tokens].
      intros v3 L3. eapply ends_weaken; [apply He; lia|lia]. }
    destruct tokens as [|[b|b|s|] tokens]; try exact G; [|change (length tokens < S (length tokens))%nat; lia].
    destruct moreAtEnd; [exact G|]. by unfold ends.
Qed.
End fuel.

(** ** Other answers: tokens and depth *)

(** The tokens [front], read at depth [d] after [n] others, are within the limits up to
    [depth] further down. *)
Definition passes (front : list jtoken) (depth : Z) : Prop := forall ending n d rest,
  n <= maxGenericNodeJSONTokens -> d <= maxNodeSnapshotJSONDepth ->
  if bool_decide (n + llen front <= maxGenericNodeJSONTokens /\ d + depth <= maxNodeSnapshotJSONDepth)
  then genericTokens ending n d (front ++ rest) = genericTokens ending (n + llen front) d rest
  else genericTokens ending n d (front ++ rest) <> None.

Lemma llen_app {A} (l1 l2 : list A) : llen (l1 ++ l2) = llen l1 + llen l2.
Proof. unfold llen. rewrite length_app. lia. Qed.

Lemma passes_app front1 front2 depth1 depth2 : 0 <= depth1 -> 0 <= depth2 ->
  passes front1 depth1 -> passes front2 depth2 -> passes (front1 ++ front2) (Z.max depth1 depth2).
Proof.
  intros D1 D2 H1 H2 ending n d rest N D. rewrite <- app_assoc, llen_app.
  pose proof (llen_nonneg front1). pose proof (llen_nonneg front2).
  specialize (H1 ending n d (front2 ++ rest) N D). case_bool_decide as C1.
  - rewrite H1. specialize (H2 ending (n + llen front1) d rest ltac:(lia) D).
    case_bool_decide as C2; case_bool_decide as C; try lia.
    + by rewrite H2, Z.add_assoc.
    + done.
  - case_bool_decide as C; [lia|done].
Qed.

Lemma passes_list {A} (toks : A -> list jtoken) depth (l : list A) : (forall x, 0 <= depth x) ->
  Forall (fun x => passes (toks x) (depth x)) l -> passes (concat (map toks l)) (maxOf depth l).
Proof.
  intros Nn. induction 1 as [|x l Hx _ IH]; cbn [map concat].
  - intros ending n d rest N D. cbn. rewrite !Z.add_0_r. case_bool_decide; [done|lia].
  - rewrite maxOf_cons. apply passes_app; [done|apply maxOf_nonneg|done|done].
Qed.

(** A container around tokens that pass. *)
Lemma passes_container b front depth : 0 <= depth -> passes front depth ->
  passes (TOpen b :: front ++ [TClose b]) (1 + depth).
Proof.
  intros Nn Hf ending n d rest N D. cbn [app genericTokens]. pose proof (llen_nonneg front).
  rewrite llen_cons, llen_app. change (llen [TClose b]) with 1.
  destruct (Z.ltb_spec maxGenericNodeJSONTokens (n + 1)); [case_bool_decide; [lia|done]|].
  destruct (Z.ltb_spec maxNodeSnapshotJSONDepth (d + 1)); [case_bool_decide; [lia|done]|].
  specialize (Hf ending (n + 1) (d + 1) (TClose b :: rest) ltac:(lia) ltac:(lia)).
  rewrite <- app_assoc. cbn [app]. case_bool_decide as C1.
  - rewrite Hf. cbn [genericTokens].
    destruct (Z.ltb_spec maxGenericNodeJSONTokens (n + 1 + llen front + 1)); case_bool_decide; try lia; try done.
    f_equal; lia.
  - case_bool_decide; [lia|done].
Qed.

Lemma passes_value v : passes (tokensOf v) (depthOf v).
Proof.
  assert (forall t, match t with TOpen _ | TClose _ => False | _ => True end -> passes [t] 0) as Scalar.
  { intros t Ht ending n d rest N D. cbn [app genericTokens]. change (llen [t]) with 1.
    destruct (Z.ltb_spec maxGenericNodeJSONTokens (n + 1)); case_bool_decide; try lia; try done.
    by destruct t. }
  induction v as [|b|s|s|values IH|members IH] using jvalue_nested; cbn [tokensOf depthOf].
  1-4: by apply Scalar.
  - apply passes_container; [apply maxOf_nonneg|]. apply passes_list; [apply depthOf_nonneg|done].
  - apply passes_container; [apply maxOf_nonneg|].
    apply (passes_list (fun '(k, v) => TString k :: tokensOf v) (fun m => depthOf (snd m)));
      [intros; apply depthOf_nonneg|].
    eapply Forall_impl; [exact IH|]. intros [k v] Hv. cbn [snd] in *.
    rewrite <- (Z.max_r 0 (depthOf v)) by apply depthOf_nonneg.
    apply (passes_app [_]); [done|apply depthOf_nonneg|by apply Scalar|done].
Qed.

(** * The theorem *)

(** What follows the opening brace. *)
Lemma validateRecordTokens_object ending more kind tokens :
  validateRecordTokens ending more kind (mkValidator (TOpen true :: tokens) 0 0 0) =
  match consumeObject ending more kind snapshotObjectTop (mkValidator tokens 0 0 0) with
  | (inl e, v) => (inl e, v)
  | (inr _, v) =>
      match v_tokens v with
      | [] => (if errors_Is ending errEOFText then inr tt else inl ending, v)
      | _ :: rest => (inl (Errorf "%s must contain one JSON value" [AStr kind]), v_set_tokens rest v)
      end
  end.
Proof.
  unfold validateRecordTokens, try, nextToken, mbind, M_bind, bind, get, modify, ret, throw.
  cbn [v_tokens v_set_tokens v_records v_processes v_depth].
  destruct (consumeObject _ _ _ _ _) as [[e|a] v]; [done|].
  destruct (v_tokens v) as [|t rest]; [|done]. by destruct (errors_Is ending errEOFText).
Qed.

Lemma consumes_top ending more kind members :
  let v := JObject members in
  let records := recordsIn snapshotObjectOther "" snapshotObjectTop v in
  let processes := processesIn snapshotObjectOther "" snapshotObjectTop v in
  consumes (consumeObject ending more kind snapshotObjectTop) (fieldsOf members) records processes
    (fun r p d => asciiNames v = true /\ room (d + 1 + maxOf (fun m => depthOf (snd m)) members)
       (r + records) (p + processes)).
Proof.
  cbv zeta. intros rest r p d Rm. unfold consumeObject, mbind at 1, M_bind at 1, bind at 1, get. cbn [v_tokens].
  apply (consumes_container kind _ _ _ _ _ (consumes_fields ending more kind members
    ltac:(apply Forall_true; intros; apply consumes_value) (3 * length (fieldsOf members ++ rest) + 3)
    snapshotObjectTop ltac:(rewrite length_app; lia))); [|done].
  intros r' p' d' [_ F]. pose proof (maxOf_nonneg (fun m => depthOf (snd m)) members).
  pose proof (countIn_nonneg (fun scope => snd (fst scope)) (JObject members)
    snapshotObjectOther "" snapshotObjectTop).
  pose proof (countIn_nonneg snd (JObject members) snapshotObjectOther "" snapshotObjectTop).
  unfold room, recordsIn, processesIn in *. lia.
Qed.

Lemma validator_terminates s kind : js_end s <> outOfFuel ->
  validateNodeRecordJSON s kind <> Some outOfFuel.
Proof.
  intros Ne. unfold validateNodeRecordJSON, result.
  destruct s as [[|t tokens] e b]; cbn [js_tokens js_end js_moreAtEnd] in *; [by intros [=]|].
  destruct t as [[]|b'|x|]; [|done..].
  rewrite validateRecordTokens_object. assert (ends (consumeObject e b kind snapshotObjectTop) (mkValidator tokens 0 0 0)
    (length tokens)) as En.
  { unfold consumeObject. unfold ends, mbind at 1, M_bind at 1, bind at 1, get. cbn [v_tokens].
    apply ends_container. intros v' E. eapply ends_weaken; [eapply validator_ends; [done|]|];
      rewrite E; cbn [v_tokens]; lia. }
  unfold ends in En. destruct (consumeObject _ _ _ _ _) as [[e'|[]] v']; [by intros [=]|].
  destruct (v_tokens v'); [|by intros [=]]. cbn [fst].
  destruct (errors_Is e errEOFText); [done|by intros [=]].
Qed.

(** The two ways to count agree. *)
Section counted.
Variable counts : snapshotJSONObject * bool * bool -> bool.
Hypothesis uncounted : forall scope, counts (scope, false, false) = false.

Lemma countIn_other v : forall field, countIn counts snapshotObjectOther field snapshotObjectOther v = 0.
Proof using Type*.
  induction v as [| | | |l IH|l IH] using jvalue_nested; intros field; cbn [countIn]; try done.
  - cbn [arrayScope fst]. rewrite uncounted. rewrite sumOf_zero; [done|].
    eapply Forall_impl; [exact IH|]. intros v Hv. apply Hv.
  - apply sumOf_zero. eapply Forall_impl; [exact IH|]. intros [k v] Hv. apply Hv.
Qed.
Lemma countIn_elements scope v : scope <> snapshotObjectTop ->
  countIn counts snapshotObjectOther "" scope v =
  arraysIn (fun field l => if counts (arrayScope scope field) then llen l else 0) v.
Proof using Type*.
  intros Ne. destruct v as [| | | |l|l]; try done.
  - cbn [countIn arraysIn arrayScope fst]. rewrite uncounted. rewrite sumOf_zero; [done|].
    apply Forall_true. intros v. apply countIn_other.
  - cbn [countIn arraysIn]. apply sumOf_ext, Forall_true. intros [k v]. cbn [fst snd].
    destruct v as [| | | |l'|l']; try done.
    + cbn [countIn]. rewrite (sumOf_zero _ l'); [lia|]. apply Forall_true. intros v.
      replace (fst (fst (arrayScope scope (ToLower k)))) with snapshotObjectOther; [apply countIn_other|].
      destruct scope; cbn [arrayScope]; try done; by destruct (_ =s _).
    + cbn [countIn]. apply sumOf_zero, Forall_true. intros [k' v']. apply countIn_other.
Qed.
Lemma countIn_top members :
  countIn counts snapshotObjectOther "" snapshotObjectTop (JObject members) =
  arraysIn (fun field l =>
    let scope := arrayScope snapshotObjectTop field in
    (if counts scope then llen l else 0) +
    sumOf (arraysIn (fun field l => if counts (arrayScope (fst (fst scope)) field) then llen l else 0)) l)
    (JObject members).
Proof using Type*.
  cbn [countIn arraysIn]. apply sumOf_ext, Forall_true. intros [k v]. cbn [fst snd].
  destruct v as [| | | |l'|l']; try done.
  - cbn [countIn]. f_equal. apply sumOf_ext, Forall_true. intros v. apply countIn_elements.
    cbn [arrayScope]. by repeat case_match.
  - cbn [countIn]. apply sumOf_zero, Forall_true. intros [k' v']. apply countIn_other.
Qed.
End counted.

Lemma arraysIn_ext f g v : (forall field l, f field l = g field l) -> arraysIn f v = arraysIn g v.
Proof.
  intros E. destruct v; try done. cbn [arraysIn]. apply sumOf_ext, Forall_true.
  intros [k v]. cbn [fst snd]. by destruct v.
Qed.
Lemma arraysIn_zero v : arraysIn (fun _ _ => 0) v = 0.
Proof.
  destruct v; try done. cbn [arraysIn]. apply sumOf_zero, Forall_true.
  intros [k v]. cbn [fst snd]. by destruct v.
Qed.
Lemma sumOf_arraysIn f g l : (forall field l', f field l' = g field l') ->
  sumOf (arraysIn f) l = sumOf (arraysIn g) l.
Proof. intros E. apply sumOf_ext, Forall_true. intros v. by apply arraysIn_ext. Qed.
Lemma sumOf_nothing f l : (forall field l', f field l' = 0) -> sumOf (arraysIn f) l = 0.
Proof.
  intros E. apply sumOf_zero, Forall_true. intros v. rewrite (arraysIn_ext _ (fun _ _ => 0)); [|done].
  apply arraysIn_zero.
Qed.

Ltac by_field field name :=
  let E := fresh "E" in
  destruct (field =s name) eqn:E; [apply String.eqb_eq in E as ->; cbn; f_equal|].

Lemma recordsIn_paths members :
  recordsIn snapshotObjectOther "" snapshotObjectTop (JObject members) = recordCountOf (JObject members).
Proof.
  unfold recordsIn. rewrite countIn_top by done. apply arraysIn_ext. intros field l. cbv zeta.
  unfold listsNamed, topLists. cbn [existsb arrayScope].
  by_field field "gpus". { apply sumOf_arraysIn. intros f l'. by destruct (f =s _). }
  by_field field "tokens". { by apply sumOf_nothing. }
  by_field field "reservations". { by apply sumOf_nothing. }
  by_field field "soft_claims". { by apply sumOf_nothing. }
  by_field field "bypasses". { by apply sumOf_nothing. }
  by_field field "ps". { by apply sumOf_nothing. }
  by_field field "authorizations". { apply sumOf_arraysIn. intros f l'. by destruct (f =s _). }
  by_field field "leases". { apply sumOf_arraysIn. intros f l'. by destruct (f =s _). }
  cbn. apply sumOf_nothing. done.
Qed.
Lemma processesIn_paths members :
  processesIn snapshotObjectOther "" snapshotObjectTop (JObject members) = processCountOf (JObject members).
Proof.
  unfold processesIn. rewrite countIn_top by done. apply arraysIn_ext. intros field l. cbv zeta.
  unfold listsNamed. cbn [arrayScope].
  by_field field "gpus". { apply sumOf_arraysIn. intros f l'. by destruct (f =s _). }
  by_field field "authorizations". { apply sumOf_nothing. intros f l'. by destruct (f =s _). }
  by_field field "leases". { apply sumOf_nothing. intros f l'. by destruct (f =s _). }
  destruct (_ || _); cbn; by apply sumOf_nothing.
Qed.

(** C30. What is accepted of a node's JSON.  The validator of snapshots and key reports,
    which reads tokens once and recurses, accepts a value exactly if it is an object
    whose field names are all ASCII, nested at most 64 deep, with at most 4096 records
    (elements of the lists at the top, processes of GPUs and words of commands) and 2048
    processes of GPUs; the validator of other answers,
    exactly if there are at most 65536 tokens nested at most 64 deep.  Whatever a node
    sends, also no JSON at all, the recursion comes to an end. *)
Theorem node_json_limits v ending more kind : errors_Is ending errEOFText = true ->
  (validateNodeRecordJSON (mkJstream (tokensOf v) ending more) kind = None <->
   exists members, v = JObject members /\ asciiNames v = true /\ depthOf v <= 64 /\
     recordCountOf v <= 4096 /\ processCountOf v <= 2048) /\
  (validateGenericNodeJSON (mkJstream (tokensOf v) ending more) = None <->
   llen (tokensOf v) <= 65536 /\ depthOf v <= 64) /\
  forall s, js_end s <> outOfFuel -> validateNodeRecordJSON s kind <> Some outOfFuel.
Proof.
  intros Eof. split; [|split].
  - unfold validateNodeRecordJSON, result. cbn [js_tokens js_end js_moreAtEnd].
    destruct v as [| | | |values|members]; try (split; [done|intros (? & [=] & _)]).
    pose proof (consumes_top ending more kind members [] 0 0 0 ltac:(done)) as C. cbv zeta in C.
    rewrite app_nil_r in C. cbn [v_tokens] in C.
    change (tokensOf (JObject members)) with (TOpen true :: fieldsOf members).
    rewrite validateRecordTokens_object. unfold room in C. cbn [depthOf].
    unfold maxNodeSnapshotJSONDepth, maxNodeSnapshotRecords, maxNodeSnapshotProcesses in C.
    rewrite recordsIn_paths, processesIn_paths in C.
    destruct (consumeObject _ _ _ _ _) as [[e|[]] v']; cbn [fst].
    + split; [done|]. intros (ms & [= <-] & F). destruct C. intuition lia.
    + destruct C as [F ->]. cbn [v_tokens fst]. rewrite Eof. split; [|done]. intros _. exists members. intuition lia.
  - pose proof (passes_value v ending 0 0 [] ltac:(done) ltac:(done)) as P.
    rewrite app_nil_r in P. unfold validateGenericNodeJSON. cbn [js_tokens js_end].
    change maxGenericNodeJSONTokens with 65536 in P. unfold maxNodeSnapshotJSONDepth in P. cbn [Z.add] in P.
    case_bool_decide as C.
    + rewrite P. cbn [genericTokens]. rewrite Eof. by split.
    + split; [done|]. intros F. destruct C. lia.
  - intros s. apply validator_terminates.
Qed.
