(* ===== verification/WebRegistryFacts.v ===== *)
(** The list of nodes survives whatever fails, and the root key of a node goes nowhere
    but to that node. *)

From Stdlib Require Import Ascii.
From S2P Require Import StoreCodec.
From S2P Require Export WebNodesFacts.
#[global] Open Scope Z_scope.

(** * Where the root keys go *)

(** The requests that [NodeClient] makes to answer a question. *)
Section requests.
Context `{NetURL} `{Transport} `{NodeCodec}.

Definition requestsOf (n : nat) (c : NodeClient) (q : NodeCall) : list nodeRequest :=
  match q with
  | CHealth server rootKey => fst (Client_Health n c server rootKey)
  | CSnapshot server => fst (Client_Snapshot n c server)
  | CInfo server => fst (Client_Info n c server)
  | CCreateReservation server args => fst (Client_CreateReservation n c server args)
  | CShowKeys server rootKey => fst (Client_ShowKeys n c server rootKey)
  | CAllow server args => fst (Client_Allow n c server args)
  | CRevoke server args => fst (Client_Revoke n c server args)
  | CSyncManagedUserKeys server snapshot => fst (Client_SyncManagedUserKeys n c server snapshot)
  end.

Definition serverOf (q : NodeCall) : ServerRecord :=
  match q with
  | CHealth server _ | CSnapshot server | CInfo server | CCreateReservation server _
  | CShowKeys server _ | CAllow server _ | CRevoke server _ | CSyncManagedUserKeys server _ => server
  end.
Definition rootKeyOf (q : NodeCall) : string :=
  match q with CHealth _ rootKey | CShowKeys _ rootKey => rootKey | _ => server_RootKey (serverOf q) end.

(** A request that goes to the endpoint of the server alone, over TLS unless plaintext
    was allowed. *)
Definition confined (c : NodeClient) (server : ServerRecord) (rootKey : string) (req : nodeRequest) : Prop :=
  exists u path, parseNodeEndpoint (server_Endpoint server) = inr u /\
    (url_Scheme u = "https" \/ url_Scheme u = "http" /\ client_AllowInsecureNodes c = true) /\
    url_Host u <> "" /\ url_User u = false /\ url_RawQuery u = "" /\ url_Fragment u = "" /\
    out_URL req = URLString (url_set_Path (PathJoin (url_Path u) path) u) /\
    out_Authorization req = "Bearer " +:+ rootKey /\
    out_SkipVerify req = server_TLSSkipVerify server /\ 0 < out_Timeout req.

Lemma parseNodeEndpoint_inv base u : parseNodeEndpoint base = inr u ->
  (url_Scheme u = "http" \/ url_Scheme u = "https") /\ url_Host u <> "" /\ url_User u = false /\
  url_RawQuery u = "" /\ url_Fragment u = "".
Proof.
  unfold parseNodeEndpoint. destruct (url_Parse _) as [e|p]; [done|].
  destruct (url_Scheme p =s "http") eqn:E1, (url_Scheme p =s "https") eqn:E2; cbn [negb andb]; try done.
  all: destruct (String.eqb_spec (url_Host p) ""); [done|]; destruct (url_User p) eqn:E3; cbn [orb]; [done|].
  all: destruct (String.eqb_spec (url_RawQuery p) ""); cbn [negb orb]; [|done].
  all: destruct (String.eqb_spec (url_Fragment p) ""); cbn [negb orb]; [|done]; intros [= <-].
  all: repeat match goal with E : (_ =s _) = true |- _ => apply String.eqb_eq in E end; auto 10.
Qed.

Lemma timeout_positive c : 0 < timeout c.
Proof. unfold timeout. destruct (Z.ltb_spec 0 (client_Timeout c)); [done|]. by vm_compute. Qed.

Lemma call_confined {A} n c server rootKey method apiPath body (zero : A) bounded decode :
  let sent := fst (WebNodes.call n c server rootKey method apiPath body zero bounded decode) in
  sent = [] \/ exists req, sent = [req] /\ confined c server rootKey req.
Proof.
  unfold WebNodes.call, joinURL. destruct (parseNodeEndpoint _) as [e|u] eqn:P; [by left|].
  destruct (_ && _) eqn:S; [by left|]. destruct (match body with None => _ | Some _ => _ end); [by left|].
  destruct (NewRequest _ _); [by left|]. right. eexists. split; [done|].
  destruct (parseNodeEndpoint_inv _ _ P) as ([E|E] & Rest); exists u, apiPath; (split; [done|]).
  all: rewrite E in S; cbn in S; try (apply negb_false_iff in S).
  all: destruct_and?; split_and?; auto; apply timeout_positive.
Qed.
End requests.

(** C31. A root key goes to its node alone.  For whatever the gateway asks of a node (but
    for telemetry, with its query: WebHistory.telemetry_stays_confined), its client makes at most one request: to the endpoint of that node, which has a host and
    neither credentials nor query, over HTTPS unless the configuration allows plaintext,
    with certificates verified unless the record says otherwise, authorized by the root
    key of that node, and within a deadline. *)
Theorem root_keys_stay_confined `{NetURL} `{Transport} `{NodeCodec} q n c :
  requestsOf n c q = [] \/
  exists req, requestsOf n c q = [req] /\ confined c (serverOf q) (rootKeyOf q) req.
Proof. destruct q; apply call_confined. Qed.

(** * The registry *)

Section registry.
Context `{NetURL} `{RegistryJSON}.

Inductive registryCall : Type :=
  | RList | RGet (id : string) | RUpsert (record : ServerRecord) | RDelete (id : string).

Definition runRegistry (c : registryCall) : M Registered unit :=
  match c with
  | RList => Registry_PublicList ;; ret tt
  | RGet id => Registry_Get id ;; ret tt
  | RUpsert record => Upsert record ;; ret tt
  | RDelete id => Registry_Delete id
  end.
Definition afterRegistry (s : Registered) (c : registryCall) : Registered := final (runRegistry c) s.

Definition records (s : Registered) : list ServerRecord := rg_records (snd s).
Definition ids (l : list ServerRecord) : list string := map server_ID l.

(** What is never given up of the list. *)
Record registered (l : list ServerRecord) : Prop := mkRegistered
  { registered_ids : NoDup (ids l); registered_size : llen l <= maxServerRecords;
    registered_valid : Forall (fun r => validateServerRecord r = None) l }.

(** The list is in its file. *)
Definition filed (s : Registered) : Prop := exists data, MarshalServers (records s) = inr data /\
  h_files (fst s) !! rg_path (snd s) = Some (mkHostFile true 384 (data +:+ newline)).

(** Loaded, sound and in its file; the path never changes. *)
Definition inOrder (path : string) (s : Registered) : Prop :=
  rg_loaded (snd s) = true /\ rg_path (snd s) = path /\ registered (records s) /\ filed s.

(** ** The steps *)

Lemma inOrder_host path h' s : h_files h' = h_files (fst s) -> inOrder path s -> inOrder path (h', snd s).
Proof. intros F (L & P & R & data & M & E). repeat split; try done; try apply R. exists data. split; [done|]. cbn. by rewrite F. Qed.

Lemma onFiles_run {A} (m : M Host A) s : onFiles m s = (result m (fst s), (final m (fst s), snd s)).
Proof. unfold onFiles, result, final. by destruct (m (fst s)). Qed.

(** A method that leaves the list and its file as they are. *)
Definition reads {A} (m : M Registered A) : Prop := forall s,
  h_files (fst (final m s)) = h_files (fst s) /\ (rg_loaded (snd s) = true -> snd (final m s) = snd s).

Lemma inOrder_reads {A} (m : M Registered A) path s : reads m -> inOrder path s -> inOrder path (final m s).
Proof.
  intros R K. destruct (R s) as [F E]. specialize (E (proj1 K)).
  pose proof (inOrder_host path (fst (final m s)) s F K) as K'. rewrite <- E in K'.
  by destruct (final m s).
Qed.

Lemma reads_bind {A B} (m : M Registered A) (k : A -> M Registered B) :
  reads m -> (forall a, reads (k a)) -> reads (m ≫= k).
Proof.
  intros Hm Hk s. specialize (Hm s). unfold final, mbind, M_bind, bind in *.
  destruct (m s) as [[e|a] s1]; [done|]. specialize (Hk a s1). unfold final in Hk. cbn in Hm.
  destruct Hm as [F1 E1], Hk as [F2 E2]. split; [congruence|]. intros L. specialize (E1 L).
  rewrite <- E1. apply E2. by rewrite E1.
Qed.
Lemma reads_onFiles {A} (m : M Host A) : steady m -> reads (onFiles m).
Proof. intros S s. unfold final. rewrite onFiles_run. by destruct (S (fst s)) as (F & _). Qed.

Lemma loaded_loads s : rg_loaded (snd s) = true -> Registry_loadLocked s = (inr (records s), s).
Proof. intros L. unfold Registry_loadLocked, mbind, M_bind, bind, gets. by rewrite L. Qed.

(** What saving does, whatever fails: the list and the file together, or neither. *)
Lemma save_keeps path l s : inOrder path s -> registered l ->
  match Registry_saveLocked l s with
  | (inl _, s') => inOrder path s' /\ (records s' = records s \/ records s' = l)
  | (inr _, s') => inOrder path s' /\ records s' = l
  end.
Proof.
  intros (L & P & R & data & M & E) Rl. unfold Registry_saveLocked.
  destruct (MarshalServers l) as [e|text] eqn:Ml; cbn [fromResult].
  { split; [|by left]. repeat split; try done; try apply R. by exists data. }
  rewrite (bind_run (S := Registered) (ret text) _ _ text _ eq_refl), (bind_run (S := Registered) (gets snd) _ _ _ _ eq_refl).
  destruct (writePrivateFile_run (rg_path (snd s)) (text +:+ newline) (fst s))
    as (committed & err & h' & W & Post).
  assert (onFiles (writePrivateFile (rg_path (snd s)) (text +:+ newline)) s =
    (inr (committed, err), (h', snd s))) as Wr by (unfold onFiles; by rewrite W).
  rewrite (bind_run _ _ _ _ _ Wr). destruct committed.
  - destruct Post as (F & _). rewrite (bind_run (setRecords l) _ _ tt _ eq_refl).
    assert (inOrder path (h', rg_set_records l (snd s))) as K.
    { repeat split; try done; try apply Rl. exists text. split; [done|]. cbn. rewrite F. apply lookup_insert_eq. }
    destruct err; cbn; split; auto.
  - destruct Post as (Ne & F & _). rewrite (bind_run (ret tt) _ _ tt _ eq_refl).
    destruct err as [e|]; [|done]. cbn. split; [|by left].
    apply (inOrder_host path h' s F). repeat split; try done; try apply R. by exists data.
Qed.

(** Replacing a record. *)
Lemma replaceRecord_inv record l stored l' : replaceRecord record l = Some (stored, l') ->
  exists before old after, l = before ++ old :: after /\ l' = before ++ stored :: after /\
    server_ID old = server_ID record /\ ~ server_ID record ∈ ids before /\
    stored = mkServerRecord (server_ID record) (server_Name record) (server_Endpoint record)
      (server_RootKey record) (server_TLSSkipVerify record) (server_CreatedAt old) (server_UpdatedAt record).
Proof.
  revert stored l'. induction l as [|r l IH]; intros stored l' R; [done|]. cbn [replaceRecord] in R.
  destruct (String.eqb_spec (server_ID r) (server_ID record)) as [E|Ne].
  - injection R as <- <-. exists [], r, l. repeat split; try done. apply not_elem_of_nil.
  - destruct (replaceRecord record l) as [[stored' rest]|]; [|done]. injection R as <- <-.
    destruct (IH _ _ eq_refl) as (before & old & after & -> & -> & E & N & S).
    exists (r :: before), old, after. repeat split; try done.
    intros [E'|I]%elem_of_cons; [congruence|done].
Qed.
Lemma replaceRecord_None record l : replaceRecord record l = None -> ~ server_ID record ∈ ids l.
Proof.
  induction l as [|r l IH]; intros R; [apply not_elem_of_nil|]. cbn [replaceRecord] in R.
  destruct (String.eqb_spec (server_ID r) (server_ID record)) as [E|Ne]; [done|].
  destruct (replaceRecord record l) as [[]|]; [done|].
  intros [E'|I]%elem_of_cons; [congruence|by apply IH].
Qed.

Lemma registered_replace record l stored l' : registered l -> replaceRecord record l = Some (stored, l') ->
  validateServerRecord record = None -> registered l'.
Proof.
  intros [I S V] (before & old & after & -> & -> & E & N & St)%replaceRecord_inv Vr.
  assert (server_ID stored = server_ID record) as Es by by rewrite St.
  split.
  - unfold ids in *. rewrite map_app in *. cbn [map] in *. by rewrite Es, <- E.
  - unfold llen in *. rewrite length_app in *. cbn [length] in *. lia.
  - apply Forall_app in V as [V1 [V2 V3]%Forall_cons]. apply Forall_app. split; [done|].
    constructor; [|done]. by rewrite St.
Qed.
Lemma registered_append record l : registered l -> replaceRecord record l = None ->
  llen l < maxServerRecords -> validateServerRecord record = None -> registered (l ++ [record]).
Proof.
  intros [I S V] N%replaceRecord_None L Vr. split.
  - unfold ids in *. rewrite map_app. apply NoDup_app. split; [done|]. split; [|apply NoDup_singleton].
    intros x Ix ->%list_elem_of_singleton. done.
  - unfold llen in *. rewrite length_app. cbn [length]. lia.
  - apply Forall_app. split; [done|]. by constructor.
Qed.
Lemma registered_filter f l : registered l -> registered (List.filter f l).
Proof.
  intros [I S V]. assert (forall x, x ∈ List.filter f l -> x ∈ l) as Sub.
  { intros x Ix. apply list_elem_of_In in Ix. apply list_elem_of_In. by apply filter_In in Ix as []. }
  split.
  - clear -I. induction l as [|r l IH]; [done|]. cbn in *. apply NoDup_cons in I as [N I].
    destruct (f r); [|by apply IH]. cbn. apply NoDup_cons. split; [|by apply IH].
    intros (x & E & Ix)%list_elem_of_fmap. apply N. rewrite E. apply list_elem_of_fmap_2.
    apply list_elem_of_In in Ix. apply filter_In in Ix as []. by apply list_elem_of_In.
  - enough (llen (List.filter f l) <= llen l) by lia. unfold llen. clear.
    induction l as [|r l IH]; [done|]. cbn. destruct (f r); cbn; lia.
  - apply Forall_forall. intros x Ix. rewrite Forall_forall in V. by apply V, Sub.
Qed.

(** ** The methods *)

Lemma prepare_run record t s : exists record' h', prepareRecord record t s = (inr record', (h', snd s)) /\
  h_files h' = h_files (fst s) /\
  (TrimSpace (server_ID record) <> "" -> server_ID record' = server_ID record).
Proof.
  unfold prepareRecord. destruct (String.eqb_spec (TrimSpace (server_ID record)) "") as [E|Ne].
  - eexists _, _. split; [reflexivity|]. split; [done|by intros []].
  - eexists _, (fst s). split; [by destruct s|done].
Qed.

(** The record that is found under its identity. *)
Definition found (id : string) (l : list ServerRecord) : option ServerRecord :=
  List.find (fun r => server_ID r =s id) l.

Lemma found_middle before r after : ~ server_ID r ∈ ids before ->
  found (server_ID r) (before ++ r :: after) = Some r.
Proof.
  induction before as [|x before IH]; intros N; cbn; [by rewrite String.eqb_refl|].
  destruct (String.eqb_spec (server_ID x) (server_ID r)) as [E|Ne].
  - destruct N. rewrite <- E. by left.
  - apply IH. intros I. apply N. by right.
Qed.

(** The list with [stored] put in, and the others as they were. *)
Definition puts (l : list ServerRecord) (stored : ServerRecord) (l' : list ServerRecord) : Prop :=
  found (server_ID stored) l' = Some stored /\
  forall id, id <> server_ID stored -> found id l' = found id l.

Lemma found_other before x y after id : id <> server_ID x -> id <> server_ID y ->
  found id (before ++ x :: after) = found id (before ++ y :: after).
Proof.
  intros Nx Ny. induction before as [|r before IH]; cbn.
  - destruct (String.eqb_spec (server_ID x) id), (String.eqb_spec (server_ID y) id); congruence.
  - by destruct (server_ID r =s id).
Qed.

Lemma puts_replace record l stored l' : replaceRecord record l = Some (stored, l') -> puts l stored l'.
Proof.
  intros (before & old & after & -> & -> & E & N & ->)%replaceRecord_inv. split; cbn [server_ID].
  - set (stored := mkServerRecord _ _ _ _ _ _ _). change (server_ID record) with (server_ID stored).
    by apply found_middle.
  - intros id Ne. apply found_other; cbn [server_ID]; congruence.
Qed.
Lemma puts_append record l : replaceRecord record l = None -> puts l record (l ++ [record]).
Proof.
  intros N%replaceRecord_None. split; [by apply found_middle|]. intros id Ne. unfold found.
  induction l as [|r l IH]; cbn; [by destruct (String.eqb_spec (server_ID record) id)|].
  destruct (server_ID r =s id); [done|]. apply IH. intros I. apply N. by right.
Qed.

Lemma check_run {S} e (s : S) : check e s = (match e with Some e => inl e | None => inr tt end, s).
Proof. by destruct e. Qed.

Lemma Upsert_keeps path record s : inOrder path s ->
  match Upsert record s with
  | (inl _, s') => inOrder path s'
  | (inr stored, s') => inOrder path s' /\ puts (records s) stored (records s') /\
      (TrimSpace (server_ID record) <> "" -> server_ID stored = server_ID record)
  end.
Proof.
  intros K. unfold Upsert. rewrite (bind_run _ _ _ _ _ (loaded_loads s (proj1 K))).
  rewrite (bind_run (onFiles time_Now) _ _ _ _ (onFiles_run _ _)). cbn [result final fst snd time_Now].
  set (s1 := (final time_Now (fst s), snd s)). assert (inOrder path s1) as K1 by by apply inOrder_host.
  destruct (prepare_run record (h_clock (fst s) (h_ticks (fst s))) s1) as (r & h' & E & F & Id).
  rewrite (bind_run _ _ _ _ _ E). change (snd s1) with (snd s).
  assert (inOrder path (h', snd s)) as K2 by by apply (inOrder_host path h' s1).
  destruct (TrimSpace (server_Endpoint r) =s ""); [done|].
  destruct (TrimSpace (server_RootKey r) =s ""); [done|].
  unfold mbind, M_bind, bind, fail_if at 1 2, ret, gets. rewrite check_run.
  destruct (validateServerRecord r) as [e|] eqn:V; [done|].
  destruct (joinURL _ _ _) as [e|u]; [done|]. cbn [fromResult ret].
  change (records s) with (records (h', snd s)).
  destruct (replaceRecord r (records (h', snd s))) as [[stored l']|] eqn:R.
  - pose proof (save_keeps path l' (h', snd s) K2
      (registered_replace _ _ _ _ (proj1 (proj2 (proj2 K2))) R V)) as Sv.
    destruct (Registry_saveLocked l' (h', snd s)) as [[e|[]] s']; [by destruct Sv|].
    destruct Sv as [K' ->]. split; [done|]. split; [by eapply puts_replace|].
    apply replaceRecord_inv in R as (? & ? & ? & ? & ? & ? & ? & ->). done.
  - unfold fail_if. destruct (Z.leb_spec maxServerRecords (llen (records (h', snd s)))); [done|].
    pose proof (save_keeps path (records (h', snd s) ++ [r]) (h', snd s) K2
      (registered_append _ _ (proj1 (proj2 (proj2 K2))) R H1 V)) as Sv.
    unfold ret. destruct (Registry_saveLocked _ (h', snd s)) as [[e|[]] s']; [by destruct Sv|].
    destruct Sv as [K' ->]. split; [done|]. split; [by apply puts_append|done].
Qed.

Lemma Delete_keeps path id s : inOrder path s ->
  match Registry_Delete id s with
  | (inl _, s') => inOrder path s'
  | (inr _, s') => inOrder path s' /\ found id (records s') = None /\
      forall other, other <> id -> found other (records s') = found other (records s)
  end.
Proof.
  intros K. unfold Registry_Delete. rewrite (bind_run _ _ _ _ _ (loaded_loads s (proj1 K))).
  destruct (existsb _ _); [|done]. cbn [negb fail_if].
  rewrite (bind_run (S := Registered) (ret tt) _ _ tt _ eq_refl).
  pose proof (save_keeps path _ s K (registered_filter (fun r => server_ID r <>s id) _
    (proj1 (proj2 (proj2 K))))) as Sv.
  destruct (Registry_saveLocked _ s) as [[e|[]] s']; [by destruct Sv|]. destruct Sv as [K' ->].
  split; [done|]. unfold found. generalize (records s) as l. clear. intros l. split.
  - induction l as [|r l IH]; [done|]. cbn. destruct (server_ID r =s id) eqn:E; cbn; [done|]. by rewrite E.
  - intros other Ne. induction l as [|r l IH]; [done|]. cbn.
    destruct (String.eqb_spec (server_ID r) id) as [->|]; cbn.
    + destruct (String.eqb_spec id other); [congruence|done].
    + by rewrite IH.
Qed.

Lemma calls_inOrder path cs s : inOrder path s -> inOrder path (foldl afterRegistry s cs).
Proof.
  revert s. induction cs as [|c cs IH]; intros s K; [done|]. cbn. apply IH. clear IH cs.
  unfold afterRegistry, runRegistry, final. destruct c as [|id|record|id].
  - unfold Registry_PublicList, Registry_List, mbind, M_bind, bind. by rewrite (loaded_loads s (proj1 K)).
  - unfold Registry_Get, Registry_List, mbind, M_bind, bind. by rewrite (loaded_loads s (proj1 K)).
  - pose proof (Upsert_keeps path record s K). unfold mbind, M_bind, bind.
    destruct (Upsert record s) as [[e|st] s']; [done|]. apply H1.
  - pose proof (Delete_keeps path id s K). destruct (Registry_Delete id s) as [[e|[]] s']; [done|]. apply H1.
Qed.
End registry.

(** encoding/json on the records of nodes, like on those of users. *)
Definition storableServer (r : ServerRecord) : Prop :=
  Forall (fun s => ValidString s = true)
    [server_ID r; server_Name r; server_Endpoint r; server_RootKey r].
Class RegistryLaws (J : RegistryJSON) : Prop := {
  servers_roundtrip l data : Forall storableServer l -> MarshalServers l = inr data ->
    UnmarshalServers (data +:+ newline) = inr l;
  servers_printed l data : MarshalServers l = inr data -> TrimSpace (data +:+ newline) <> ""
}.

(** The registry as [NewRegistry] makes it, on the same host. *)
Definition restartedRegistry (s : Registered) : Registered :=
  (fst s, NewRegistry (rg_path (snd s)) (rg_allowInsecureNodes (snd s))).

(** Loading the list from its file. *)
Lemma registry_load `{NetURL} `{RegistryJSON} data s : registered (records s) ->
  h_files (fst s) !! rg_path (snd s) = Some (mkHostFile true 384 (data +:+ newline)) ->
  dependable (fst s) -> slen data < maxRegistryFileBytes ->
  UnmarshalServers (data +:+ newline) = inr (records s) -> TrimSpace (data +:+ newline) <> "" ->
  exists s2, Registry_loadLocked (restartedRegistry s) = (inr (records s), s2) /\ records s2 = records s.
Proof.
  intros Rg F D Sz U Ne. unfold Registry_loadLocked, restartedRegistry, NewRegistry.
  rewrite (bind_run (S := Registered) (gets snd) _ _ _ _ eq_refl). cbn [rg_loaded snd fst rg_path].
  destruct (readPrivateFile_run (rg_path (snd s)) "registry file" maxRegistryFileBytes (data +:+ newline) (fst s) D)
    as [h' Rd].
  { eexists. split; [exact F|]. cbn [hf_regular hf_perm hf_data]. rewrite slen_app.
    change (slen newline) with 1. repeat split; lia. }
  unfold mbind at 1, M_bind at 1, bind at 1, try, onFiles. cbn [fst snd]. rewrite Rd.
  destruct (Z.eqb_spec (slen (TrimSpace (data +:+ newline))) 0) as [Z|_].
  { destruct (TrimSpace (data +:+ newline)); [done|]. exfalso. unfold slen in Z. cbn in Z. lia. }
  rewrite U. cbn [fromResult]. rewrite (bind_run (S := Registered) (ret (records s)) _ _ _ _ eq_refl).
  rewrite (proj2 (Z.ltb_ge _ _) (registered_size _ Rg)). cbn [fail_if].
  assert (omap validateServerRecord (records s) = []) as ->.
  { pose proof (registered_valid _ Rg) as V. clear -V. induction V as [|r l Hr _ IH]; [done|]. cbn. by rewrite Hr. }
  eexists. split; reflexivity.
Qed.

(** The list of nodes survives.  Whatever calls are made of the registry, with system
    calls failing anywhere, its list has at most 256 records of distinct identities, each
    with an endpoint that the client accepts, and is what the file holds.  A record that
    was put in is found under its identity, one that was deleted is not, and no other
    record changes; and a gateway started anew loads exactly the list, as long as the
    file is at most 2 MiB and can be read. *)
Theorem registry_keeps_its_nodes `{NetURL} `{RegistryJSON} `{!RegistryLaws H0} path cs s :
  inOrder path s ->
  let s' := foldl afterRegistry s cs in
  registered (records s') /\
  (forall record stored s2, Upsert record s' = (inr stored, s2) -> puts (records s') stored (records s2)) /\
  (forall id s2, Registry_Delete id s' = (inr tt, s2) -> found id (records s2) = None /\
     forall other, other <> id -> found other (records s2) = found other (records s')) /\
  (dependable (fst s') -> Forall storableServer (records s') ->
   (forall data, MarshalServers (records s') = inr data -> slen data < maxRegistryFileBytes) ->
   exists s2, Registry_loadLocked (restartedRegistry s') = (inr (records s'), s2) /\
     records s2 = records s').
Proof.
  intros K s'. assert (inOrder path s') as K' by by apply calls_inOrder.
  split; [apply K'|]. split; [|split].
  - intros record stored s2 R. pose proof (Upsert_keeps path record s' K') as U. rewrite R in U. apply U.
  - intros id s2 R. pose proof (Delete_keeps path id s' K') as U. rewrite R in U. apply U.
  - intros D St Sz. destruct K' as (_ & P & Rg & data & M & F).
    apply (registry_load data); [done|exact F|done|by apply Sz|by apply servers_roundtrip|
      by eapply servers_printed].
Qed.

(** * Witnesses *)

(** URLs of a scheme, a host and a path. *)
Definition sample_parse (s : string) : error + URL :=
  let split scheme rest :=
    let host := cutHead rest "/"%char in
    mkURL scheme false host (sdrop (String.length host) rest) "" "" "" in
  if HasPrefix s "https://" then inr (split "https" (TrimPrefix s "https://"))
  else if HasPrefix s "http://" then inr (split "http" (TrimPrefix s "http://"))
  else inl (ErrorString "unreadable URL").
#[export] Instance sample_url : NetURL := {
  url_Parse := sample_parse;
  URLString u := url_Scheme u +:+ "://" +:+ url_Host u +:+ url_Path u
}.

Definition serverCells (r : ServerRecord) : list cell :=
  [CS (server_ID r); CS (server_Name r); CS (server_Endpoint r); CS (server_RootKey r);
   CB (server_TLSSkipVerify r); CZ (server_CreatedAt r); CZ (server_UpdatedAt r)].
Definition cellsServer (l : list cell) : option ServerRecord :=
  match l with
  | [CS a; CS b; CS c; CS d; CB e; CZ f; CZ g] => Some (mkServerRecord a b c d e f g)
  | _ => None
  end.
Lemma cellsServer_cells r : cellsServer (serverCells r) = Some r.
Proof. by destruct r. Qed.

#[export] Instance sample_servers : RegistryJSON := {
  MarshalServers l := inr (StoreCodec.digits (encode (serverCells <$> l)));
  UnmarshalServers data :=
    match undigits data ≫= (fun p => decode p ≫= mapM cellsServer) with
    | Some l => inr l
    | None => inl (ErrorString "unreadable servers")
    end
}.
#[export] Instance sample_servers_laws : RegistryLaws sample_servers.
Proof.
  split; cbn [MarshalServers UnmarshalServers sample_servers].
  - intros l data _ [= <-]. rewrite undigits_digits by done. cbn [mbind option_bind].
    rewrite countable.decode_encode. cbn [mbind option_bind].
    by rewrite (mapM_cells serverCells cellsServer) by apply cellsServer_cells.
  - intros l data [= <-]. rewrite TrimSpace_line; [by destruct (encode _)| |by destruct (encode _)].
    induction (encode (serverCells <$> l)); cbn; done.
Qed.

(** A node, and a registry that has it; then another is added, renamed, and the first one
    deleted. *)
Definition sample_node : ServerRecord :=
  mkServerRecord "srv_1" "alpha" "https://alpha:7077" "rk_alpha" false (63700000000 * Second)
    (63700000000 * Second).
Definition other_node : ServerRecord :=
  mkServerRecord "srv_2" "beta" "https://beta:7077/gpu" "rk_beta" true 0 0.
Definition sample_registered : Registered :=
  (h_set_files {["/servers.json" := mkHostFile true 384
      (match MarshalServers [sample_node] with inr data => data | inl _ => "" end +:+ newline)]}
     sample_host, mkRegistry "/servers.json" false true [sample_node]).
Definition registry_calls : list registryCall :=
  [RUpsert other_node; RList; RDelete "srv_9";
   RUpsert (mkServerRecord "srv_2" "" "https://beta:7077" "rk_beta2" false 0 0); RDelete "srv_1"].
Definition busy_registered : Registered := foldl afterRegistry sample_registered registry_calls.

Lemma registry_keeps_its_nodes_witness :
  ids (records busy_registered) = ["srv_2"] /\ registered (records busy_registered) /\
  exists s2, Registry_loadLocked (restartedRegistry busy_registered) = (inr (records busy_registered), s2) /\
    records s2 = records busy_registered.
Proof.
  split; [vm_compute; reflexivity|].
  destruct (@registry_keeps_its_nodes sample_url sample_servers sample_servers_laws "/servers.json"
    registry_calls sample_registered) as (R & _ & _ & Ld).
  - split; [reflexivity|]. split; [reflexivity|]. split.
    + split; [apply (bool_decide_unpack _); vm_compute; reflexivity|vm_compute; discriminate|].
      repeat constructor.
    + eexists. split; [reflexivity|]. vm_compute. reflexivity.
  - split; [exact R|]. apply Ld.
    + unfold dependable. intros n. vm_compute. reflexivity.
    + apply (bool_decide_unpack _). vm_compute. reflexivity.
    + intros data E. apply (f_equal (fun r => match r with inr d => slen d | inl _ => 0 end)) in E.
      rewrite <- E. vm_compute. reflexivity.
Defined.

(** A snapshot of one GPU with a process. *)
Definition sample_json : jvalue :=
  JObject [("gpus", JArray [JObject [("id", JNumber "0"); ("processes", JArray [JObject [("pid", JNumber "7")]])]]);
           ("ps", JArray [JNull; JNull])].

Lemma node_json_limits_witness :
  recordCountOf sample_json = 4 /\ processCountOf sample_json = 1 /\
  validateNodeSnapshotJSON (mkJstream (tokensOf sample_json) (ErrorString "EOF") false) = None /\
  validateNodeSnapshotJSON (mkJstream (tokensOf (JArray [sample_json])) (ErrorString "EOF") false) <> None.
Proof.
  do 2 (split; [vm_compute; reflexivity|]).
  assert (errors_Is (ErrorString "EOF") errEOFText = true) as Eof by (vm_compute; reflexivity).
  split.
  - apply (proj1 (node_json_limits sample_json _ false "node snapshot" Eof)).
    eexists. repeat split; vm_compute; try reflexivity; discriminate.
  - intros E. apply (proj1 (node_json_limits (JArray [sample_json]) _ false "node snapshot" Eof)) in E.
    destruct E as (? & E & _). discriminate E.
Defined.
