(* ===== verification/WebFleet.v ===== *)
(** internal/web/managed_key_sync.go and the part of internal/web/server.go that is
    about nodes: distributing the fixed keys, the cached snapshot of the fleet with its
    budget, and the handlers that make a node do something on behalf of an account.

    A method is a value of [M Fleet].  Nodes, the history database and the other
    goroutines answer numbered questions; [f_log] is a history variable: what this
    goroutine asked, and what it found in its account store and its registry, oldest
    first, that nothing reads.  [meanwhile] lets the other goroutines run. *)

From S2P Require Export WebNodes.
From Stdlib Require Import Ascii.
From stdpp Require Import sorting.
#[global] Open Scope Z_scope.

(** * Data *)

Definition managedKeyRetryMin : duration := 2 * Second.
Definition managedKeyRetryMax : duration := 60 * Second.
Definition managedKeyFullSync : duration := 5 * Minute.

Record managedKeyNodeState : Type := mkNodeState
  { ns_SnapshotID : string; ns_SyncedAt : time; ns_LastError : string; ns_NextTry : time;
    ns_Backoff : duration }.
Definition managedKeyNodeState_zero : managedKeyNodeState := mkNodeState "" 0 "" 0 0.
Record ManagedKeyNodeStatus : Type := mkNodeStatus
  { nstat_NodeID : string; nstat_Node : string; nstat_Status : string;
    nstat_SnapshotID : string; nstat_SyncedAt : time; nstat_Error : string }.

Record serverSnapshot : Type := mkServerSnapshot
  { ss_Server : PublicServerRecord; ss_Online : bool; ss_Error : string;
    ss_Snapshot : option NodeSnapshot }.
Definition fleetSnapshot : Type := list serverSnapshot.

Record addServerRequest : Type := mkAddServerRequest
  { add_Name : string; add_Endpoint : string; add_RootKey : string; add_TLSSkipVerify : bool }.
Record showKeyRequest : Type := mkShowKeyRequest { show_ID : string; show_RootKey : string }.

(** The calls of the history database. *)
Inductive HistoryCall : Type :=
  | HPrepareSession (id nodeID serverID serverName user purpose : string) (from until : time)
      (gpus : list Z)
  | HDropProvisioningSession (id : string)
  | HConfirmSession (id group : string) (reservations : list string) (gpus : list Z)
  | HReconcileOpenSessions (server : string) (groups : list string) (now : time)
  | HRecordManagedKeySync (node snapshotID err : string) (syncedAt : time).
(** The questions, and the accounts and the nodes in memory after a method of the
    account store or the registry. *)
Inductive Asked : Type :=
  | ANode (call : NodeCall)
  | AHistory (call : HistoryCall)
  | AAccounts (users : list UserRecord)
  | AServers (records : list ServerRecord).

(** The fields of [Server], with the refreshes that are done by their number. *)
Record Fleet : Type := mkFleet
  { f_gateway : Gateway; f_registry : Registry; f_nodes : gmap string managedKeyNodeState;
    f_cache : fleetSnapshot; f_cacheAt : time; f_cacheOK : bool;
    f_refresh : option nat; f_done : gmap nat (error + fleetSnapshot); f_started : nat;
    f_turns : nat; f_asked : nat; f_log : list (nat * Asked) }.

Definition f_set_gateway (x : Gateway) (s : Fleet) : Fleet :=
  mkFleet x (f_registry s) (f_nodes s) (f_cache s) (f_cacheAt s) (f_cacheOK s) (f_refresh s)
    (f_done s) (f_started s) (f_turns s) (f_asked s) (f_log s).
Definition f_set_registry (x : Registry) (s : Fleet) : Fleet :=
  mkFleet (f_gateway s) x (f_nodes s) (f_cache s) (f_cacheAt s) (f_cacheOK s) (f_refresh s)
    (f_done s) (f_started s) (f_turns s) (f_asked s) (f_log s).
Definition f_set_nodes (x : gmap string managedKeyNodeState) (s : Fleet) : Fleet :=
  mkFleet (f_gateway s) (f_registry s) x (f_cache s) (f_cacheAt s) (f_cacheOK s) (f_refresh s)
    (f_done s) (f_started s) (f_turns s) (f_asked s) (f_log s).
Definition f_set_cache (x : fleetSnapshot) (at_ : time) (s : Fleet) : Fleet :=
  mkFleet (f_gateway s) (f_registry s) (f_nodes s) x at_ true (f_refresh s)
    (f_done s) (f_started s) (f_turns s) (f_asked s) (f_log s).
Definition f_set_cacheOK (x : bool) (s : Fleet) : Fleet :=
  mkFleet (f_gateway s) (f_registry s) (f_nodes s) (f_cache s) (f_cacheAt s) x (f_refresh s)
    (f_done s) (f_started s) (f_turns s) (f_asked s) (f_log s).
Definition f_set_refresh (x : option nat) (done : gmap nat (error + fleetSnapshot))
    (started : nat) (s : Fleet) : Fleet :=
  mkFleet (f_gateway s) (f_registry s) (f_nodes s) (f_cache s) (f_cacheAt s) (f_cacheOK s) x
    done started (f_turns s) (f_asked s) (f_log s).
Definition f_set_own (turns asked : nat) (log : list (nat * Asked)) (s : Fleet) : Fleet :=
  mkFleet (f_gateway s) (f_registry s) (f_nodes s) (f_cache s) (f_cacheAt s) (f_cacheOK s)
    (f_refresh s) (f_done s) (f_started s) turns asked log.

(** The other goroutines; the choices of a [select] with two channels ready, and of the
    scheduler among the workers of a refresh: the nodes that are reached before the
    context ends, in the order in which their snapshots are counted. *)
Class FleetElsewhere : Type := {
  fothers : nat -> Fleet -> Fleet;
  choice : nat -> bool;
  reached : nat -> list nat
}.

(** The history database, when there is one: whether a session could be prepared. *)
Class History : Type := {
  historyOn : bool;
  PrepareSession : nat -> option error
}.

(** encoding/json on the bodies of requests, and on the keys that are digested. *)
Class FleetJSON : Type := {
  DecodeAddServer : bodyReader -> error + addServerRequest * bodyReader;
  DecodeRegister : bodyReader -> error + RegisterArgs * bodyReader;
  DecodeShowKey : bodyReader -> error + showKeyRequest * bodyReader;
  DecodeAllow : bodyReader -> error + AllowArgs * bodyReader;
  DecodeRevoke : bodyReader -> error + RevokeArgs * bodyReader;
  MarshalManagedKeys : list ManagedUserKey -> error + string
}.

(** What a response about nodes carries. *)
Inductive fleetBody : Type :=
  | FError (message : string)
  | FServers (servers : list PublicServerRecord)
  | FServer (server : PublicServerRecord)
  | FDeleted (id : string)
  | FReservation (result : RegisterResult)
  | FKeys (status : KeyStatus)
  | FAllowed (result : AllowResult)
  | FRevoked (result : gmap string string)
  | FSnapshot (snapshot : fleetSnapshot).
Record fleetReply : Type := mkFleetReply { freply_Status : Z; freply_Body : fleetBody }.
Definition refused (status : Z) (message : string) : fleetReply :=
  mkFleetReply status (FError message).
Definition StatusGone : Z := 410.

Section fleet.
Context `{UsersJSON} `{AEAD} `{Elsewhere} `{NetURL} `{RegistryJSON} `{NodeAPI} `{WebJSON}
  `{FleetElsewhere} `{History} `{FleetJSON}.

(** * Lifting *)

Definition onGateway {A} (m : M Gateway A) : M Fleet A := fun s =>
  let '(r, g) := m (f_gateway s) in (r, f_set_gateway g s).
Definition onRegistry {A} (m : M Registered A) : M Fleet A := fun s =>
  let '(r, (h, rg)) := m (g_host (f_gateway s), f_registry s) in
  (r, f_set_registry rg (f_set_gateway (g_set_host h (f_gateway s)) s)).
Definition meanwhile : M Fleet unit := fun s =>
  (inr tt, f_set_own (S (f_turns s)) (f_asked s) (f_log s) (fothers (f_turns s) s)).
Definition chosen : M Fleet bool := fun s =>
  (inr (choice (f_turns s)), f_set_own (S (f_turns s)) (f_asked s) (f_log s) s).

(** A question with its answer, after which other goroutines have run. *)
Definition asking {A} (question : Asked) (answer : nat -> error + A) : M Fleet A :=
  s ← get;
  modify (f_set_own (f_turns s) (S (f_asked s)) (f_log s ++ [(f_asked s, question)])) ;;
  meanwhile ;;
  fromResult (answer (f_asked s)).
Definition askNode {A} (call : NodeCall) (answer : nat -> error + A) : M Fleet A :=
  asking (ANode call) answer.
(** A call of the history database whose error is ignored. *)
Definition tell (call : HistoryCall) : M Fleet unit :=
  if historyOn then asking (AHistory call) (fun _ => inr tt) else ret tt.

(** A method of the user store or of the registry, that waits for its mutex first;
    what it left there is noted in the history variable. *)
Definition noting {A} (what : Fleet -> Asked) (m : M Fleet A) : M Fleet A := fun s =>
  let '(r, s) := m s in
  (r, f_set_own (f_turns s) (f_asked s) (f_log s ++ [(f_asked s, what s)]) s).
Definition accountsNow (s : Fleet) : Asked := AAccounts (us_users (g_users (f_gateway s))).
Definition serversNow (s : Fleet) : Asked := AServers (rg_records (f_registry s)).
Definition withUsers {A} (m : M Gateway A) : M Fleet A :=
  meanwhile ;; noting accountsNow (onGateway m).
Definition withRegistry {A} (m : M Registered A) : M Fleet A :=
  meanwhile ;; noting serversNow (onRegistry m).

Definition fleetNow : M Fleet time := onGateway now.
(** [ctx.Err()], and the error of a context that has ended. *)
Definition contextErr : M Fleet (option error) := onGateway ctx_Err.

Definition clearFleetCache : M Fleet unit := meanwhile ;; modify (f_set_cacheOK false).

(** * managed_key_sync.go *)

Definition managedKey (key : FixedUserKeyVerifier) : ManagedUserKey :=
  mkManagedUserKey (verifier_ID key) (verifier_Owner key) (verifier_Version key) (verifier_Hash key).

Definition snapshotOf (keys : list ManagedUserKey) (raw : string) : ManagedUserKeySnapshot :=
  mkManagedUserKeySnapshot ("sha256:" +:+ HexEncode (Sum256 (bytes_of_string raw))) keys.

Definition managedKeySnapshot : M Fleet ManagedUserKeySnapshot :=
  verifiers ← withUsers FixedKeyVerifiers;
  let keys := map managedKey verifiers in
  raw ← fromResult (MarshalManagedKeys keys);
  ret (snapshotOf keys raw).

Definition telemetryCapability (info : Info) (capability : string) : bool :=
  existsb (fun candidate => candidate =s capability) (Info_Capabilities info).

Definition wrapping {A} (format : string) (args : list errarg) (m : M Fleet A) : M Fleet A :=
  r ← try m;
  match r with
  | inl err => throw (Errorf format (args ++ [AErr err]))
  | inr a => ret a
  end.

Definition syncManagedKeysToNodeOnce (record : ServerRecord) : M Fleet unit :=
  if negb managedClient then ret tt
  else if negb telemetryClient
  then throw (ErrorString "node client cannot verify managed user-key capability")
  else
    info ← wrapping "query managed user-key capability: %w" []
             (askNode (CInfo record) (fun n => NodeInfo n record));
    fail_if (negb (telemetryCapability info "managed_user_keys_v1"))
      (ErrorString "node daemon must be upgraded for fixed user keys") ;;
    snapshot ← managedKeySnapshot;
    result ← wrapping "sync fixed user keys to %s: %w" [AStr (server_Name record)]
               (askNode (CSyncManagedUserKeys record snapshot) (fun n => SyncNode n record snapshot));
    fail_if (negb (SyncResult_Managed result) ||
             (SyncResult_SnapshotID result <>s Snapshot_SnapshotID snapshot))
      (ErrorString "node did not confirm the current fixed-key snapshot").

(** The state of a node after an attempt, [outcome] being the snapshot or an error. *)
Definition nodeStateAfter (now : time) (outcome : error + ManagedUserKeySnapshot)
    (state : managedKeyNodeState) : managedKeyNodeState :=
  match outcome with
  | inr snapshot =>
      mkNodeState (Snapshot_SnapshotID snapshot) now "" (TimeAdd now managedKeyFullSync) 0
  | inl err =>
      let backoff :=
        if ns_Backoff state <? managedKeyRetryMin then managedKeyRetryMin
        else Z.min (i64 (ns_Backoff state * 2)) managedKeyRetryMax in
      mkNodeState (ns_SnapshotID state) (ns_SyncedAt state) (Error err) (TimeAdd now backoff) backoff
  end.

Definition recordManagedKeySync (nodeID : string) (syncErr : option error) : M Fleet unit :=
  now ← fleetNow;
  snapshot ← try managedKeySnapshot;
  meanwhile ;;
  s ← get;
  let state := nodeStateAfter now (match syncErr with Some err => inl err | None => snapshot end)
                 (default managedKeyNodeState_zero (f_nodes s !! nodeID)) in
  modify (f_set_nodes (<[nodeID := state]> (f_nodes s))) ;;
  tell (HRecordManagedKeySync nodeID (ns_SnapshotID state) (ns_LastError state) (ns_SyncedAt state)).

Definition syncManagedKeysToNode (record : ServerRecord) : M Fleet unit :=
  r ← try (syncManagedKeysToNodeOnce record);
  let err := match r with inl err => Some err | inr _ => None end in
  recordManagedKeySync (server_ID record) err ;;
  check err.

Definition managedKeySyncDue (nodeID : string) : M Fleet bool :=
  meanwhile ;;
  s ← get;
  match f_nodes s !! nodeID with
  | None => ret true
  | Some state => now ← fleetNow; ret (negb (Before now (ns_NextTry state)))
  end.

Fixpoint syncRecords (force : bool) (records : list ServerRecord) : M Fleet unit :=
  match records with
  | [] => ret tt
  | record :: rest =>
      err ← contextErr;
      match err with
      | Some _ => ret tt
      | None =>
          due ← (if force then ret true else managedKeySyncDue (server_ID record));
          (if due : bool then try (syncManagedKeysToNode record) ;; ret tt else ret tt) ;;
          syncRecords force rest
      end
  end.

Definition syncManagedKeysAcrossFleet (force : bool) : M Fleet unit :=
  records ← try (withRegistry Registry_List);
  match records with
  | inl _ => ret tt
  | inr records => syncRecords force records
  end.

(** [runManagedKeySync], until the context has ended and the [select] takes that, or for
    that many rounds: a round is forced when the channel had a request that it took. *)
Fixpoint runManagedKeySync (rounds : nat) (force : bool) : M Fleet unit :=
  match rounds with
  | O => ret tt
  | S rounds =>
      syncManagedKeysAcrossFleet force ;;
      meanwhile ;;
      err ← contextErr;
      stop ← chosen;
      if match err with Some _ => true | None => false end && stop then ret tt
      else
        s ← get;
        wanted ← chosen;
        if g_managedKeySync (f_gateway s) && wanted then
          onGateway (modify (g_set_sync false)) ;;
          runManagedKeySync rounds true
        else runManagedKeySync rounds false
  end.

(** One entry of [managedKeyStatuses]. *)
Definition nodeStatus (current : string) (states : gmap string managedKeyNodeState)
    (record : ServerRecord) : ManagedKeyNodeStatus :=
  match states !! server_ID record with
  | None => mkNodeStatus (server_ID record) (server_Name record) "pending" "" 0 ""
  | Some state =>
      mkNodeStatus (server_ID record) (server_Name record)
        (if ns_LastError state <>s "" then "error"
         else if (current <>s "") && (ns_SnapshotID state =s current) then "synced" else "pending")
        (ns_SnapshotID state) (ns_SyncedAt state) (ns_LastError state)
  end.

Definition managedKeyStatuses : M Fleet (list ManagedKeyNodeStatus) :=
  records ← try (withRegistry Registry_List);
  match records with
  | inl _ => ret []
  | inr records =>
      snapshot ← try managedKeySnapshot;
      let current := match snapshot with inr snapshot => Snapshot_SnapshotID snapshot | inl _ => "" end in
      meanwhile ;;
      s ← get;
      ret (map (nodeStatus current (f_nodes s)) records)
  end.

(** * The snapshot of the fleet *)

Definition fleetCacheTTL : duration := Second.
Definition maxFleetSnapshotRecords : Z := 32768.
Definition maxFleetSnapshotProcesses : Z := 8192.
Definition maxFleetSnapshotRetainedSize : Z := Z.shiftl 32 20.
Definition maxFleetErrorBytes : Z := 1024.

Definition boundedFleetError (err : error) : string := stake (Z.to_nat maxFleetErrorBytes) (Error err).

Record fleetSnapshotBudget : Type := mkBudget
  { budget_records : Z; budget_processes : Z; budget_bytes : Z }.

(** [len] of all these strings. *)
Definition sizes (values : list string) : Z := foldr (fun value total => slen value + total) 0 values.

Definition retainedSize (snapshot : NodeSnapshot) : Z :=
  slen (NodeSnapshot_Hostname snapshot) +
  sumOf (fun gpu => slen (GPUSnapshot_State gpu) +
           sumOf (fun p => slen (GPUProcess_Name p)) (GPUSnapshot_Processes gpu))
    (NodeSnapshot_GPUs snapshot) +
  sumOf (fun t => sizes [TokenView_ID t; TokenView_Key t; TokenView_KeyStatus t; TokenView_Name t;
                         TokenView_Mode t]) (NodeSnapshot_Tokens snapshot) +
  sumOf (fun r => sizes [ReservationView_ID r; ReservationView_GroupID r; ReservationView_Holder r;
                         ReservationView_Purpose r]) (NodeSnapshot_Reservations snapshot) +
  sumOf (fun a => sizes [AuthorizationView_ID a; AuthorizationView_TokenID a; AuthorizationView_Mode a;
                         AuthorizationView_TokenMode a; AuthorizationView_Holder a;
                         AuthorizationView_Username a; AuthorizationView_ContainerID a;
                         AuthorizationView_ContainerPattern a; AuthorizationView_Namespace a] +
                  sizes (AuthorizationView_Command a)) (NodeSnapshot_Authorizations snapshot) +
  sumOf (fun c => sizes [SoftClaimView_ID c; SoftClaimView_AuthorizationID c; SoftClaimView_Holder c])
    (NodeSnapshot_SoftClaims snapshot) +
  sumOf (fun l => sizes [Lease_ID l; Lease_Mode l; Lease_TokenHash l; Lease_Holder l;
                         Lease_CgroupPath l; Lease_CgroupRel l; Lease_ContainerID l;
                         Lease_Namespace l] + sizes (Lease_Command l)) (NodeSnapshot_Leases snapshot) +
  sumOf (fun b => sizes [BypassRule_ID b; BypassRule_Type b; BypassRule_Command b;
                         BypassRule_Reason b]) (NodeSnapshot_Bypasses snapshot) +
  sumOf (fun row => sizes [PSRow_ID row; PSRow_GPU row; PSRow_User row; PSRow_Command row])
    (NodeSnapshot_PS snapshot).

Definition processCount (snapshot : NodeSnapshot) : Z :=
  sumOf (fun gpu => llen (GPUSnapshot_Processes gpu)) (NodeSnapshot_GPUs snapshot).
Definition recordCount (snapshot : NodeSnapshot) : Z :=
  llen (NodeSnapshot_GPUs snapshot) + llen (NodeSnapshot_Tokens snapshot) +
  llen (NodeSnapshot_Reservations snapshot) + llen (NodeSnapshot_Authorizations snapshot) +
  llen (NodeSnapshot_SoftClaims snapshot) + llen (NodeSnapshot_Leases snapshot) +
  llen (NodeSnapshot_Bypasses snapshot) + llen (NodeSnapshot_PS snapshot) +
  sumOf (fun a => llen (AuthorizationView_Command a)) (NodeSnapshot_Authorizations snapshot) +
  sumOf (fun l => llen (Lease_Command l)) (NodeSnapshot_Leases snapshot) +
  processCount snapshot.

Definition nodeSnapshotCost (snapshot : NodeSnapshot) : error + Z * Z * Z :=
  let records := recordCount snapshot in
  let processes := processCount snapshot in
  if maxNodeSnapshotRecords <? records
  then inl (Errorf "node snapshot exceeds %d records" [AInt maxNodeSnapshotRecords])
  else if maxNodeSnapshotProcesses <? processes
  then inl (Errorf "node snapshot exceeds %d processes" [AInt maxNodeSnapshotProcesses])
  else
    let bytes := 1024 + records * 512 + retainedSize snapshot in
    if maxFleetSnapshotRetainedSize <? bytes
    then inl (ErrorString "node snapshot retained size is too large")
    else inr (records, processes, bytes).

(** [accept], under the mutex of the budget: what is left of it. *)
Definition accept (budget : fleetSnapshotBudget) (snapshot : NodeSnapshot)
    : error + fleetSnapshotBudget :=
  match nodeSnapshotCost snapshot with
  | inl err => inl err
  | inr (records, processes, bytes) =>
      if (maxFleetSnapshotRecords <? budget_records budget + records) ||
         (maxFleetSnapshotProcesses <? budget_processes budget + processes) ||
         (maxFleetSnapshotRetainedSize <? budget_bytes budget + bytes)
      then inl (ErrorString "fleet snapshot budget exceeded")
      else inr (mkBudget (budget_records budget + records) (budget_processes budget + processes)
                  (budget_bytes budget + bytes))
  end.

(** One job of a worker. *)
Definition fetchNode (budget : fleetSnapshotBudget) (record : ServerRecord)
    : M Fleet (serverSnapshot * fleetSnapshotBudget) :=
  snapshot ← try (askNode (CSnapshot record) (fun n => Snapshot n record));
  let server := publicServerRecord record in
  match snapshot with
  | inl err => ret (mkServerSnapshot server false (boundedFleetError err) None, budget)
  | inr snapshot =>
      match accept budget snapshot with
      | inl err => ret (mkServerSnapshot server false (Error err) None, budget)
      | inr budget =>
          (if historyOn then
             now ← fleetNow;
             tell (HReconcileOpenSessions (server_ID record)
                     (List.filter (fun group => group <>s "")
                        (map ReservationView_GroupID (NodeSnapshot_Reservations snapshot))) now)
           else ret tt) ;;
          ret (mkServerSnapshot server true "" (Some snapshot), budget)
      end
  end.

(** The workers, job by job in the order in which they count their snapshots. *)
Fixpoint fetchNodes (records : list ServerRecord) (jobs : list nat) (budget : fleetSnapshotBudget)
    (out : gmap nat serverSnapshot) : M Fleet (gmap nat serverSnapshot) :=
  match jobs with
  | [] => ret out
  | i :: jobs =>
      match records !! i, out !! i with
      | Some record, None =>
          '(item, budget) ← fetchNode budget record;
          fetchNodes records jobs budget (<[i := item]> out)
      | _, _ => fetchNodes records jobs budget out       (* no such job, or one done *)
      end
  end.

(** A place that no worker filled; one without an identity counts as such. *)
Definition filledIn (err : option error) (record : ServerRecord) (item : option serverSnapshot)
    : serverSnapshot :=
  let missing := mkServerSnapshot (publicServerRecord record) false
    (match err with Some err => Error err | None => "snapshot unavailable" end) None in
  match item with
  | Some item => if pubserver_ID (ss_Server item) <>s "" then item else missing
  | None => missing
  end.

Definition fetchFleetSnapshot : M Fleet fleetSnapshot :=
  records ← withRegistry Registry_List;
  match records with
  | [] => ret []
  | _ =>
      s ← get;
      out ← fetchNodes records (reached (f_turns s)) (mkBudget 0 0 0) ∅;
      err ← contextErr;
      ret (imap (fun i record => filledIn err record (out !! i)) records)
  end.

Definition refreshFleetSnapshot (call : nat) : M Fleet unit :=
  r ← try fetchFleetSnapshot;
  meanwhile ;;
  (match r with
   | inr out => now ← fleetNow; modify (f_set_cache out now)
   | inl _ => ret tt
   end) ;;
  s ← get;
  modify (f_set_refresh None (<[call := r]> (f_done s)) (f_started s)).

(** What a request finds under the mutex of the cache: the snapshot in it, or the number
    of the refresh to wait for, and whether it has to start that refresh. *)
Definition lookupFleetCache : M Fleet (fleetSnapshot + nat * bool) :=
  now ← fleetNow;
  s ← get;
  if f_cacheOK s && (TimeSub now (f_cacheAt s) <? fleetCacheTTL) then ret (inl (f_cache s))
  else match f_refresh s with
       | Some call => ret (inr (call, false))
       | None =>
           modify (f_set_refresh (Some (f_started s)) (f_done s) (S (f_started s))) ;;
           ret (inr (f_started s, true))
       end.

(** The refresh that a request starts runs in its own goroutine, here before the request
    waits; the wait ends with the refresh or with the context of the request. *)
Definition cachedFleetSnapshot : M Fleet fleetSnapshot :=
  meanwhile ;;
  found ← lookupFleetCache;
  match found with
  | inl out => ret out
  | inr (call, starts) =>
      (if starts : bool then refreshFleetSnapshot call else ret tt) ;;
      meanwhile ;;
      s ← get;
      err ← contextErr;
      first ← chosen;
      match f_done s !! call, err with
      | Some r, None => fromResult r
      | Some r, Some err => if first : bool then fromResult r else throw err
      | None, err => throw (default errCanceled err)
      end
  end.

(** * What an account may see and use *)

(** Who a row of a node belongs to. *)
Definition ownedBy {A} (holder : A -> string) (user : string) (x : A) : bool :=
  sameOwner (holder x) user.

Definition filterTokens (tokens : list TokenView) (user : string) : list TokenView :=
  List.filter (ownedBy TokenView_Name user) tokens.
Definition filterAuthorizations (l : list AuthorizationView) (user : string) : list AuthorizationView :=
  List.filter (ownedBy AuthorizationView_Holder user) l.
Definition filterSoftClaims (claims : list SoftClaimView) (user : string) : list SoftClaimView :=
  List.filter (ownedBy SoftClaimView_Holder user) claims.
Definition filterLeases (leases : list Lease) (user : string) : list Lease :=
  List.filter (ownedBy Lease_Holder user) leases.

Definition scrubReservation (user : string) (r : ReservationView) : ReservationView :=
  if ownedBy ReservationView_Holder user r then r
  else mkReservationView (ReservationView_ID r) "" (ReservationView_ExternalSessionID r)
         (ReservationView_GPU r) (ReservationView_Holder r) (ReservationView_Purpose r)
         (ReservationView_CreatedAt r) (ReservationView_StartsAt r) (ReservationView_ExpiresAt r)
         (ReservationView_Active r) (ReservationView_Revoked r).
Definition scrubReservations (reservations : list ReservationView) (user : string)
    : list ReservationView := map (scrubReservation user) reservations.

(** [cloneFilteredGPUSnapshots] and what [filterFleetSnapshot] does to a GPU after it. *)
Definition filterGPU (user : string) (gpu : GPUSnapshot) : GPUSnapshot :=
  mkGPUSnapshot (GPUSnapshot_ID gpu) (GPUSnapshot_Vendor gpu) (GPUSnapshot_Model gpu)
    (GPUSnapshot_UUID gpu) (GPUSnapshot_State gpu) (GPUSnapshot_MemoryUsedBytes gpu)
    (GPUSnapshot_MemoryTotalBytes gpu) (GPUSnapshot_UtilizationPct gpu) []
    (option_map (scrubReservation user) (GPUSnapshot_Reservation gpu))
    (match GPUSnapshot_Claim gpu with
     | Some claim => if ownedBy SoftClaimView_Holder user claim then Some claim else None
     | None => None
     end).

Definition filterNodeSnapshot (user : string) (snapshot : NodeSnapshot) : NodeSnapshot :=
  mkNodeSnapshot (NodeSnapshot_Now snapshot) (NodeSnapshot_Hostname snapshot)
    (map (filterGPU user) (NodeSnapshot_GPUs snapshot))
    (filterTokens (NodeSnapshot_Tokens snapshot) user)
    (scrubReservations (NodeSnapshot_Reservations snapshot) user)
    (filterAuthorizations (NodeSnapshot_Authorizations snapshot) user)
    (filterSoftClaims (NodeSnapshot_SoftClaims snapshot) user)
    (filterLeases (NodeSnapshot_Leases snapshot) user) [] [].

Definition filterFleetSnapshot (snapshot : fleetSnapshot) (session : sessionInfo) : fleetSnapshot :=
  if session_Role session =s RoleAdmin then snapshot
  else map (fun item => mkServerSnapshot (ss_Server item) (ss_Online item) (ss_Error item)
                          (option_map (filterNodeSnapshot (session_User session)) (ss_Snapshot item)))
         snapshot.

Definition findToken (tokens : list TokenView) (id : string) : option TokenView :=
  List.find (fun token => TokenView_ID token =s id) tokens.
Definition findReservation (reservations : list ReservationView) (id : string)
    : option ReservationView :=
  List.find (fun reservation => ReservationView_ID reservation =s id) reservations.
Definition findAuthorization (l : list AuthorizationView) (id : string) : option AuthorizationView :=
  List.find (fun authorization => AuthorizationView_ID authorization =s id) l.

(** What [canRevoke] and [canUseKey] conclude from the keys of the node. *)
Definition revocable (status : KeyStatus) (user id : string) : bool :=
  match findToken (KeyStatus_Tokens status) id with
  | Some token => sameOwner (TokenView_Name token) user
  | None =>
  match findReservation (KeyStatus_Reservations status) id with
  | Some reservation => sameOwner (ReservationView_Holder reservation) user
  | None =>
  match List.find (fun r => ReservationView_GroupID r =s id) (KeyStatus_Reservations status) with
  | Some reservation => sameOwner (ReservationView_Holder reservation) user
  | None =>
  match findAuthorization (KeyStatus_Authorizations status) id with
  | Some authorization => sameOwner (AuthorizationView_Holder authorization) user
  | None => false
  end end end end.
Definition usable (status : KeyStatus) (user id : string) : bool :=
  match findToken (KeyStatus_Tokens status) id with
  | Some token => sameOwner (TokenView_Name token) user
  | None => false
  end.

Definition askShowKeys (record : ServerRecord) : M Fleet KeyStatus :=
  askNode (CShowKeys record (server_RootKey record)) (fun n => ShowKeys n record (server_RootKey record)).

Definition canRevoke (record : ServerRecord) (session : sessionInfo) (id : string) : M Fleet bool :=
  if session_Role session =s RoleAdmin then ret true
  else status ← askShowKeys record; ret (revocable status (session_User session) id).
Definition canUseKey (record : ServerRecord) (session : sessionInfo) (id : string) : M Fleet bool :=
  if session_Role session =s RoleAdmin then ret true
  else status ← askShowKeys record; ret (usable status (session_User session) id).

Definition allowArgsHaveWildcard (args : AllowArgs) : bool :=
  Contains (AllowArgs_Container args) "*" || Contains (AllowArgs_Namespace args) "*" ||
  Contains (AllowArgs_User args) "*".

Definition unsupportedExternalSessionError (err : error) : bool :=
  let message := ToLower (Error err) in
  Contains message "external_session_id" &&
  (Contains message "unknown" || Contains message "unrecognized" || Contains message "unsupported").

Definition reservationTokenID (result : RegisterResult) (status : KeyStatus) : string :=
  match (if RegisterResult_Token result <>s ""
         then List.find (fun token => TokenView_Key token =s RegisterResult_Token result)
                (KeyStatus_Tokens status)
         else None) with
  | Some token => TokenView_ID token
  | None =>
      match List.find (fun r => existsb (fun id => id =s ReservationView_ID r)
                                  (RegisterResult_ReservationIDs result) &&
                                (ReservationView_GroupID r <>s ""))
              (KeyStatus_Reservations status) with
      | Some reservation => ReservationView_GroupID reservation
      | None => ""
      end
  end.

Definition splitServerAction (rawPath : string) : option (string * string) :=
  let trimmed := TrimPrefix rawPath "/api/servers/" in
  if (trimmed =s rawPath) || (trimmed =s "") then None
  else match Split (TrimOf isSlash trimmed) "/"%char with
       | [id] => Some (id, "")
       | [id; action] => Some (id, action)
       | _ => None
       end.

(** * Handlers *)

Definition fail_with (status : Z) (err : error) : fleetReply := refused status (Error err).

(** [if x, err := m; err != nil { reply }]. *)
Definition orReply {A} (status : Z) (m : M Fleet A) (next : A -> M Fleet fleetReply)
    : M Fleet fleetReply :=
  r ← try m;
  match r with
  | inl err => ret (fail_with status err)
  | inr a => next a
  end.
Definition decodedOr {A} (decode : bodyReader -> error + A * bodyReader) (r : webRequest)
    (next : A -> M Fleet fleetReply) : M Fleet fleetReply :=
  match decodeJSONBody decode r with
  | inl err => ret (fail_with StatusBadRequest err)
  | inr a => next a
  end.
Definition adminOnly (session : sessionInfo) (next : M Fleet fleetReply) : M Fleet fleetReply :=
  if session_Role session <>s RoleAdmin then ret (refused StatusForbidden "admin access required")
  else next.

Definition handleServers (session : sessionInfo) (r : webRequest) : M Fleet fleetReply :=
  if q_Method r =s "GET" then
    orReply StatusInternalServerError (withRegistry Registry_PublicList) (fun records =>
      ret (mkFleetReply StatusOK (FServers records)))
  else if q_Method r =s "POST" then
    adminOnly session (decodedOr DecodeAddServer r (fun req =>
      let record := mkServerRecord "" (TrimSpace (add_Name req)) (TrimSpace (add_Endpoint req))
        (TrimSpace (add_RootKey req)) (add_TLSSkipVerify req) 0 0 in
      orReply StatusBadRequest
        (askNode (CHealth record (server_RootKey record))
           (fun n => Health n record (server_RootKey record))) (fun _ =>
      orReply StatusBadRequest (syncManagedKeysToNode record) (fun _ =>
      orReply StatusBadRequest (withRegistry (Upsert record)) (fun stored =>
        clearFleetCache ;;
        ret (mkFleetReply StatusCreated (FServer (publicServerRecord stored))))))))
  else ret (refused StatusMethodNotAllowed "method not allowed").

Definition deleteServer (session : sessionInfo) (id : string) : M Fleet fleetReply :=
  adminOnly session (orReply StatusNotFound (withRegistry (Registry_Delete id)) (fun _ =>
    clearFleetCache ;;
    ret (mkFleetReply StatusOK (FDeleted id)))).

(** The fixed key of the account, on a node that is then in step with the gateway;
    [None] when the client does not manage keys. *)
Definition syncedKey (session : sessionInfo) (record : ServerRecord)
    (next : option FixedUserKeyVerifier -> M Fleet fleetReply) : M Fleet fleetReply :=
  if managedClient then
    orReply StatusBadRequest (withUsers (FixedKeyForUser (session_User session))) (fun key =>
    orReply StatusServiceUnavailable (syncManagedKeysToNode record) (fun _ => next (Some key)))
  else next None.

Definition withSession (id name keyID : string) (args : RegisterArgs) : RegisterArgs :=
  mkRegisterArgs (RegisterArgs_RootKey args) (RegisterArgs_Mode args) name
    (RegisterArgs_Purpose args) id keyID (RegisterArgs_GPUs args) (RegisterArgs_TTL args)
    (RegisterArgs_StartsAt args) (RegisterArgs_ExpiresAt args).

(** The session prepared in the history: its identity, or none, or an error. *)
Definition prepareSession (session : sessionInfo) (record : ServerRecord) (args : RegisterArgs)
    : M Fleet string :=
  match RegisterArgs_StartsAt args, RegisterArgs_ExpiresAt args with
  | Some from, Some until =>
      if historyOn && telemetryClient then
        info ← try (askNode (CInfo record) (fun n => NodeInfo n record));
        match info with
        | inl _ => ret ""
        | inr info =>
            if (Info_NodeID info <>s "") &&
               telemetryCapability info "reservation_external_session_id" then
              hex ← onGateway (onHost (randomHex 12));
              let id := "sess_" +:+ hex in
              asking (AHistory (HPrepareSession id (Info_NodeID info) (server_ID record)
                        (server_Name record) (session_User session) (RegisterArgs_Purpose args)
                        from until (RegisterArgs_GPUs args)))
                (fun n => match PrepareSession n with Some err => inl err | None => inr tt end) ;;
              ret id
            else ret ""
        end
      else ret ""
  | _, _ => ret ""
  end.

(** [CreateReservation], again without the session when the node does not know it. *)
Definition createReservation (record : ServerRecord) (args : RegisterArgs) (prepared : string)
    : M Fleet (string * (error + RegisterResult)) :=
  let create args := try (askNode (CCreateReservation record args)
                            (fun n => CreateReservation n record args)) in
  result ← create args;
  match result with
  | inl err =>
      if (prepared <>s "") && unsupportedExternalSessionError err then
        tell (HDropProvisioningSession prepared) ;;
        result ← create (withSession "" (RegisterArgs_Name args) (RegisterArgs_UserKeyID args) args);
        ret ("", result)
      else ret (prepared, result)
  | inr _ => ret (prepared, result)
  end.

Definition withTokenID (token id : string) (r : RegisterResult) : RegisterResult :=
  mkRegisterResult token id (RegisterResult_GroupID r) (RegisterResult_Mode r)
    (RegisterResult_ReservationIDs r) (RegisterResult_GPUs r) (RegisterResult_StartsAt r)
    (RegisterResult_ExpiresAt r).

Definition reserveOnNode (session : sessionInfo) (record : ServerRecord) (args : RegisterArgs)
    : M Fleet fleetReply :=
  syncedKey session record (fun key =>
    let args := withSession (RegisterArgs_ExternalSessionID args) (session_User session)
      (match key with Some key => verifier_ID key | None => RegisterArgs_UserKeyID args end) args in
    orReply StatusInternalServerError (prepareSession session record args) (fun prepared =>
      let args := if prepared =s "" then args
        else withSession prepared (RegisterArgs_Name args) (RegisterArgs_UserKeyID args) args in
      '(prepared, result) ← createReservation record args prepared;
      match result with
      | inl err =>
          (if prepared <>s "" then tell (HDropProvisioningSession prepared) else ret tt) ;;
          ret (fail_with StatusBadRequest err)
      | inr result =>
          result ← (if RegisterResult_TokenID result =s "" then
                      status ← try (askShowKeys record);
                      ret (match status with
                           | inr status => withTokenID (RegisterResult_Token result)
                                             (reservationTokenID result status) result
                           | inl _ => result
                           end)
                    else ret result);
          (if (prepared <>s "") && (RegisterResult_GroupID result <>s "") then
             tell (HConfirmSession prepared (RegisterResult_GroupID result)
                     (RegisterResult_ReservationIDs result) (RegisterResult_GPUs result))
           else ret tt) ;;
          clearFleetCache ;;
          ret (mkFleetReply StatusCreated (FReservation (withTokenID "" "" result)))
      end)).

Definition showKeyOnNode (session : sessionInfo) (record : ServerRecord) (req : showKeyRequest)
    : M Fleet fleetReply :=
  let tokenID := TrimSpace (show_ID req) in
  if tokenID =s "" then ret (refused StatusBadRequest "id is required")
  else orReply StatusUnauthorized (askShowKeys record) (fun status =>
    match findToken (KeyStatus_Tokens status) tokenID with
    | None => ret (refused StatusNotFound "key not found")
    | Some token =>
        if (session_Role session <>s RoleAdmin) &&
           negb (sameOwner (TokenView_Name token) (session_User session))
        then ret (refused StatusForbidden "key access denied")
        else ret (mkFleetReply StatusOK (FKeys (mkKeyStatus (KeyStatus_Now status) [token] [] [] [])))
    end).

Definition withKeyID (id keyID mode : string) (args : AllowArgs) : AllowArgs :=
  mkAllowArgs id keyID mode (AllowArgs_Container args) (AllowArgs_Namespace args)
    (AllowArgs_User args).

Definition allowOnNode (session : sessionInfo) (record : ServerRecord) (args : AllowArgs)
    : M Fleet fleetReply :=
  let args := withKeyID (TrimSpace (AllowArgs_ID args)) (AllowArgs_UserKeyID args)
    (TrimSpace (AllowArgs_Mode args)) args in
  syncedKey session record (fun key =>
    let args := match key with
      | Some key => withKeyID (verifier_ID key) (verifier_ID key) (AllowArgs_Mode args) args
      | None => args
      end in
    if (session_Role session <>s RoleAdmin) && allowArgsHaveWildcard args
    then ret (refused StatusForbidden "wildcard authorization requires admin access")
    else orReply StatusBadRequest (canUseKey record session (AllowArgs_ID args)) (fun allowed =>
      if negb allowed then ret (refused StatusForbidden "key access denied")
      else orReply StatusBadRequest
        (askNode (CAllow record args) (fun n => Allow n record args)) (fun result =>
          clearFleetCache ;;
          ret (mkFleetReply StatusCreated (FAllowed result))))).

Definition revokeOnNode (session : sessionInfo) (record : ServerRecord) (args : RevokeArgs)
    : M Fleet fleetReply :=
  if TrimSpace (RevokeArgs_ID args) =s "" then ret (refused StatusBadRequest "id is required")
  else orReply StatusBadRequest (canRevoke record session (RevokeArgs_ID args)) (fun allowed =>
    if negb allowed then ret (refused StatusForbidden "revoke access denied")
    else orReply StatusBadRequest
      (askNode (CRevoke record args) (fun n => NodeRevoke n record args)) (fun result =>
        clearFleetCache ;;
        ret (mkFleetReply StatusOK (FRevoked result)))).

Definition handleServerAction (session : sessionInfo) (r : webRequest) : M Fleet fleetReply :=
  match splitServerAction (q_Path r) with
  | None => ret (refused StatusNotFound "not found")
  | Some (id, action) =>
      orReply StatusInternalServerError (withRegistry (Registry_Get id)) (fun found =>
      match found with
      | None => ret (refused StatusNotFound "server not found")
      | Some record =>
          if (action =s "") && (q_Method r =s "DELETE") then deleteServer session id
          else if q_Method r <>s "POST"
          then ret (refused StatusMethodNotAllowed "method not allowed")
          else if action =s "reservations"
          then decodedOr DecodeRegister r (reserveOnNode session record)
          else if action =s "claim-keys"
          then ret (refused StatusGone "claim keys were replaced by the account fixed key")
          else if action =s "show-key"
          then decodedOr DecodeShowKey r (showKeyOnNode session record)
          else if action =s "allow" then decodedOr DecodeAllow r (allowOnNode session record)
          else if action =s "revoke" then decodedOr DecodeRevoke r (revokeOnNode session record)
          else ret (refused StatusMethodNotAllowed "method not allowed")
      end)
  end.

Definition handleFleetSnapshot (session : sessionInfo) (r : webRequest) : M Fleet fleetReply :=
  if q_Method r <>s "GET" then ret (refused StatusMethodNotAllowed "method not allowed")
  else orReply StatusInternalServerError cachedFleetSnapshot (fun out =>
    ret (mkFleetReply StatusOK (FSnapshot (filterFleetSnapshot out session)))).

(** The routes about nodes, with the checks that [requireSession] and
    [securityMiddleware] make in front of them. *)
Definition fleetRoute (path : string) : option (sessionInfo -> webRequest -> M Fleet fleetReply) :=
  if path =s "/api/servers" then Some handleServers
  else if HasPrefix path "/api/servers/" then Some handleServerAction
  else if path =s "/api/fleet/snapshot" then Some handleFleetSnapshot
  else None.

Definition admitted (sessionKey : list Z) (next : sessionInfo -> webRequest -> M Fleet fleetReply)
    (r : webRequest) : M Fleet fleetReply :=
  session ← onGateway (sessionUser sessionKey r);
  match session with
  | None => ret (refused StatusUnauthorized "authentication required")
  | Some session =>
      meanwhile ;;
      ok ← onGateway (acquireAuthenticatedRequest session);
      if negb ok
      then ret (refused StatusTooManyRequests "too many concurrent requests; retry shortly")
      else
        reply ← try (next session r);
        meanwhile ;;
        onGateway (releaseAuthenticatedRequest session) ;;
        fromResult reply
  end.

Definition serveFleet (sessionKey : list Z) (r : webRequest) : M Fleet (option fleetReply) :=
  match fleetRoute (q_Path r) with
  | None => ret None                               (* a path of serveWeb *)
  | Some next =>
      reply ← (if requestChangesState (q_Method r) && negb (sameOriginRequest r)
               then ret (refused StatusForbidden "cross-origin request denied")
               else if requestChangesState (q_Method r) && requestHasBody r &&
                       negb (requestHasJSONContentType r)
               then ret (refused StatusUnsupportedMediaType "Content-Type must be application/json")
               else admitted sessionKey next r);
      ret (Some reply)
  end.
End fleet.
