(* ===== verification/WebFleetFacts.v ===== *)
(** What the gateway does to nodes, and tells of them, on behalf of an account: every
    question it asks of a node or of the history is justified by what it asked before,
    and replies and snapshots show an account only what belongs to it. *)

From Stdlib Require Import Ascii.
From S2P Require Export WebFleet WebRequests WebRegistryFacts.
#[global] Open Scope Z_scope.

#[local] Set Default Proof Using "Type*".

(** * What justifies a question *)

(** What a request asked so far, oldest first. *)
Abbreviation asks := (list (nat * Asked)).

Section justified.
Context `{UsersJSON} `{AEAD} `{Elsewhere} `{NetURL} `{RegistryJSON} `{NodeAPI} `{WebJSON}
  `{FleetElsewhere} `{History} `{FleetJSON}.
Variables (session : sessionInfo) (r : webRequest).

Definition isAdmin : Prop := session_Role session = RoleAdmin.
(** A row that names this owner belongs to the account. *)
Definition own (owner : string) : Prop := sameOwner owner (session_User session) = true.

(** A node that the registry held when this request read it. *)
Definition listed (t : asks) (record : ServerRecord) : Prop :=
  exists n records, (n, AServers records) ∈ t /\ record ∈ records.
(** The request is a POST with this action on such a node. *)
Definition routed (action : string) (t : asks) (record : ServerRecord) : Prop :=
  q_Method r = "POST" /\ splitServerAction (q_Path r) = Some (server_ID record, action) /\
  listed t record.
(** An administrator asks for this node to be added. *)
Definition adding (record : ServerRecord) : Prop :=
  isAdmin /\ q_Method r = "POST" /\ exists req, decodeJSONBody DecodeAddServer r = inr req /\
    record = mkServerRecord "" (TrimSpace (add_Name req)) (TrimSpace (add_Endpoint req))
      (TrimSpace (add_RootKey req)) (add_TLSSkipVerify req) 0 0.

(** The node was asked for its keys, with its own root key, and answered these. *)
Definition shown (t : asks) (record : ServerRecord) (status : KeyStatus) : Prop :=
  exists n, (n, ANode (CShowKeys record (server_RootKey record))) ∈ t /\
    ShowKeys n record (server_RootKey record) = inr status.
(** A row of these that has the identity or the group, and belongs to the account. *)
Definition ownsRow (status : KeyStatus) (id : string) : Prop :=
  (exists token, token ∈ KeyStatus_Tokens status /\ TokenView_ID token = id /\ own (TokenView_Name token)) \/
  (exists row, row ∈ KeyStatus_Reservations status /\
     (ReservationView_ID row = id \/ ReservationView_GroupID row = id) /\ own (ReservationView_Holder row)) \/
  (exists row, row ∈ KeyStatus_Authorizations status /\ AuthorizationView_ID row = id /\
     own (AuthorizationView_Holder row)).
Definition ownsToken (status : KeyStatus) (id : string) : Prop :=
  exists token, token ∈ KeyStatus_Tokens status /\ TokenView_ID token = id /\ own (TokenView_Name token).

(** The enabled account of this name, in the store as this request read it, has this
    fixed key. *)
Definition accountKey (t : asks) (id : string) : Prop :=
  exists n users u, (n, AAccounts users) ∈ t /\ u ∈ users /\
    user_Username u = ToLower (TrimSpace (session_User session)) /\
    user_Disabled u = false /\ user_KeyID u = id /\ id <> "".
(** The snapshot is that of the fixed keys of all enabled accounts in the store as this
    request read it, by their identities. *)
Definition keyOf (u : UserRecord) : ManagedUserKey :=
  mkManagedUserKey (user_KeyID u) (user_Username u) (user_KeyVersion u) (user_KeyHash u).
Definition ofGateway (t : asks) (snapshot : ManagedUserKeySnapshot) : Prop :=
  exists n users keys raw, (n, AAccounts users) ∈ t /\
    keys ≡ₚ map keyOf (filter (fun u => user_Disabled u = false /\ user_KeyID u <> "") users) /\
    StronglySorted (fun x y => stringLe (ManagedUserKey_ID x) (ManagedUserKey_ID y)) keys /\
    MarshalManagedKeys keys = inr raw /\ snapshot = snapshotOf keys raw.
(** The node confirmed such a snapshot. *)
Definition inStep (t : asks) (record : ServerRecord) : Prop :=
  exists n snapshot result, (n, ANode (CSyncManagedUserKeys record snapshot)) ∈ t /\
    SyncNode n record snapshot = inr result /\ SyncResult_Managed result = true /\
    SyncResult_SnapshotID result = Snapshot_SnapshotID snapshot.
(** The fixed key of the account is used, on a node in step. *)
Definition usesOwnKey (t : asks) (record : ServerRecord) (id : string) : Prop :=
  managedClient = true -> inStep t record /\ accountKey t id.

(** A session in the history that this request prepared for the account. *)
Definition prepared (t : asks) (id : string) : Prop :=
  exists n nodeID serverID serverName purpose from until gpus,
    (n, AHistory (HPrepareSession id nodeID serverID serverName (session_User session) purpose
                    from until gpus)) ∈ t /\ PrepareSession n = None.

Definition justified (t : asks) (q : Asked) : Prop :=
  match q with
  | ANode (CRevoke record args) =>
      routed "revoke" t record /\ decodeJSONBody DecodeRevoke r = inr args /\
      (isAdmin \/ exists status, shown t record status /\ ownsRow status (RevokeArgs_ID args))
  | ANode (CAllow record args) =>
      routed "allow" t record /\ usesOwnKey t record (AllowArgs_UserKeyID args) /\
      (managedClient = true -> AllowArgs_ID args = AllowArgs_UserKeyID args) /\
      (exists body, decodeJSONBody DecodeAllow r = inr body /\
         AllowArgs_Container args = AllowArgs_Container body /\
         AllowArgs_Namespace args = AllowArgs_Namespace body /\
         AllowArgs_User args = AllowArgs_User body) /\
      (isAdmin \/ allowArgsHaveWildcard args = false /\
         exists status, shown t record status /\ ownsToken status (AllowArgs_ID args))
  | ANode (CCreateReservation record args) =>
      routed "reservations" t record /\ RegisterArgs_Name args = session_User session /\
      usesOwnKey t record (RegisterArgs_UserKeyID args) /\
      exists body, decodeJSONBody DecodeRegister r = inr body /\
        RegisterArgs_GPUs args = RegisterArgs_GPUs body /\ RegisterArgs_TTL args = RegisterArgs_TTL body /\
        RegisterArgs_StartsAt args = RegisterArgs_StartsAt body /\
        RegisterArgs_ExpiresAt args = RegisterArgs_ExpiresAt body /\
        (RegisterArgs_ExternalSessionID args = RegisterArgs_ExternalSessionID body \/
         RegisterArgs_ExternalSessionID args = "" \/ prepared t (RegisterArgs_ExternalSessionID args))
  | ANode (CShowKeys record rootKey) =>
      rootKey = server_RootKey record /\ exists action, routed action t record
  | ANode (CSyncManagedUserKeys record snapshot) =>
      ofGateway t snapshot /\
      (adding record \/ routed "reservations" t record \/ routed "allow" t record)
  | ANode (CHealth record rootKey) => adding record /\ rootKey = server_RootKey record
  | ANode (CInfo record) => adding record \/ routed "reservations" t record \/ routed "allow" t record
  | ANode (CSnapshot record) => q_Method r = "GET" /\ listed t record
  | AHistory (HPrepareSession _ _ _ _ user _ _ _ _) => user = session_User session
  | AHistory (HDropProvisioningSession id) | AHistory (HConfirmSession id _ _ _) => prepared t id
  | AHistory (HReconcileOpenSessions _ _ _) => q_Method r = "GET"
  | AHistory (HRecordManagedKeySync _ _ _ _) => True
  | AAccounts _ | AServers _ => True
  end.

Inductive audited : asks -> Prop :=
  | audited_none : audited []
  | audited_ask t n q : audited t -> justified t q -> audited (t ++ [(n, q)]).

(** * What a reply shows *)

Definition ownOrHidden (row : ReservationView) : Prop :=
  own (ReservationView_Holder row) \/ ReservationView_GroupID row = "".
Definition ownGPU (gpu : GPUSnapshot) : Prop :=
  GPUSnapshot_Processes gpu = [] /\
  (forall row, GPUSnapshot_Reservation gpu = Some row -> ownOrHidden row) /\
  (forall claim, GPUSnapshot_Claim gpu = Some claim -> own (SoftClaimView_Holder claim)).
Record ownSnapshot (s : NodeSnapshot) : Prop := mkOwnSnapshot
  { os_tokens : Forall (fun x => own (TokenView_Name x)) (NodeSnapshot_Tokens s);
    os_authorizations : Forall (fun x => own (AuthorizationView_Holder x)) (NodeSnapshot_Authorizations s);
    os_claims : Forall (fun x => own (SoftClaimView_Holder x)) (NodeSnapshot_SoftClaims s);
    os_leases : Forall (fun x => own (Lease_Holder x)) (NodeSnapshot_Leases s);
    os_reservations : Forall ownOrHidden (NodeSnapshot_Reservations s);
    os_gpus : Forall ownGPU (NodeSnapshot_GPUs s);
    os_bypasses : NodeSnapshot_Bypasses s = [];
    os_ps : NodeSnapshot_PS s = [] }.

Definition discreet (reply : fleetReply) : Prop :=
  match freply_Body reply with
  | FServer _ | FDeleted _ => isAdmin
  | FReservation result => RegisterResult_Token result = "" /\ RegisterResult_TokenID result = ""
  | FKeys status => exists token, status = mkKeyStatus (KeyStatus_Now status) [token] [] [] [] /\
      (isAdmin \/ own (TokenView_Name token))
  | FSnapshot servers => isAdmin \/
      Forall (fun item => forall s, ss_Snapshot item = Some s -> ownSnapshot s) servers
  | FError _ | FServers _ | FAllowed _ | FRevoked _ => True
  end.
End justified.

(** * A logic of what is asked *)

Section logic.
Context `{UsersJSON} `{AEAD} `{Elsewhere} `{NetURL} `{RegistryJSON} `{NodeAPI} `{WebJSON}
  `{FleetElsewhere} `{History} `{FleetJSON}.
Variables (session : sessionInfo) (r : webRequest).

#[local] Abbreviation justified := (justified session r).
#[local] Abbreviation audited := (audited session r).

(** From a request that asked at least [t], [m] asks only what is justified and answers
    in [Q]; it fails only if [E]. *)
Definition acts {A} (t : asks) (m : M Fleet A) (Q : A -> asks -> Prop) (E : Prop) : Prop :=
  forall s t0 t1, t `prefix_of` t1 -> f_log s = t0 ++ t1 -> audited t1 ->
  exists t2, f_log (final m s) = t0 ++ t2 /\ t1 `prefix_of` t2 /\ audited t2 /\
    match result m s with inr a => Q a t2 | inl _ => E end.

Lemma acts_ret {A} t (a : A) (Q : A -> asks -> Prop) E :
  (forall t', t `prefix_of` t' -> Q a t') -> acts t (ret a) Q E.
Proof. intros W s t0 t1 P L Au. exists t1. split_and!; auto. cbn. auto. Qed.

Lemma acts_throw {A} t e (Q : A -> asks -> Prop) (E : Prop) : E -> acts t (throw e) Q E.
Proof. intros W s t0 t1 P L Au. exists t1. by split_and!. Qed.

Lemma acts_bind {A B} t (m : M Fleet A) (k : A -> M Fleet B) R Q E :
  acts t m R E -> (forall a t', t `prefix_of` t' -> R a t' -> acts t' (k a) Q E) ->
  acts t (m ≫= k) Q E.
Proof.
  intros Hm Hk s t0 t1 P L Au. destruct (Hm s t0 t1 P L Au) as (t2 & L2 & P2 & Au2 & R2).
  unfold final, result, mbind, M_bind, bind in *. destruct (m s) as [[e|a] s2]; cbn [fst snd] in *.
  - by exists t2.
  - assert (t `prefix_of` t2) as P' by by etrans.
    destruct (Hk a t2 P' R2 s2 t0 t2 ltac:(done) L2 Au2) as (t3 & L3 & P3 & Au3 & Q3).
    exists t3. split_and!; auto. by etrans.
Qed.

Lemma acts_weaken {A} t (m : M Fleet A) (R Q : A -> asks -> Prop) (E E' : Prop) :
  acts t m R E -> (forall a t', t `prefix_of` t' -> R a t' -> Q a t') -> (E -> E') -> acts t m Q E'.
Proof.
  intros Hm W We s t0 t1 P L Au. destruct (Hm s t0 t1 P L Au) as (t2 & L2 & P2 & Au2 & R2).
  exists t2. split_and!; auto. destruct (result m s); auto. apply W; [by etrans|done].
Qed.

Lemma acts_try {A} t (m : M Fleet A) (Q : error + A -> asks -> Prop) E' (E : Prop) :
  acts t m (fun a => Q (inr a)) E' -> (forall e t', t `prefix_of` t' -> E' -> Q (inl e) t') ->
  acts t (try m) Q E.
Proof.
  intros Hm W s t0 t1 P L Au. destruct (Hm s t0 t1 P L Au) as (t2 & L2 & P2 & Au2 & R2).
  exists t2. unfold try, final, result in *. destruct (m s) as [[e|a] s2]; cbn [fst snd] in *; split_and!; auto.
  apply W; [by etrans|done].
Qed.

(** What asks nothing. *)
Definition mute {A} (m : M Fleet A) : Prop := forall s, f_log (final m s) = f_log s.

Lemma acts_mute {A} t (m : M Fleet A) (E : Prop) : mute m -> E ->
  acts t m (fun a _ => exists s s', m s = (inr a, s')) E.
Proof.
  intros Mu He s t0 t1 P L Au. exists t1. rewrite Mu. split_and!; auto.
  unfold result. destruct (m s) as [[e|a] s'] eqn:R; [done|]. by exists s, s'.
Qed.
(** What asks nothing and always answers. *)
Lemma acts_sure {A} t (m : M Fleet A) (E : Prop) : mute m -> (forall s, exists a, result m s = inr a) ->
  acts t m (fun a _ => exists s s', m s = (inr a, s')) E.
Proof.
  intros Mu Sure s t0 t1 P L Au. exists t1. rewrite Mu. split_and!; auto.
  destruct (Sure s) as [a Ra]. unfold result in *. destruct (m s) as [x s'] eqn:R. cbn [fst] in *. subst x.
  by exists s, s'.
Qed.

Lemma mute_bind {A B} (m : M Fleet A) (k : A -> M Fleet B) : mute m -> (forall a, mute (k a)) ->
  mute (m ≫= k).
Proof.
  intros Mm Mk s. specialize (Mm s). unfold final, mbind, M_bind, bind in *.
  destruct (m s) as [[e|a] s1]; [done|]. cbn [snd] in Mm. rewrite <- Mm. apply Mk.
Qed.
Lemma mute_meanwhile : mute meanwhile.
Proof. done. Qed.
Lemma mute_onGateway {A} (m : M Gateway A) : mute (onGateway m).
Proof. intros s. unfold final, onGateway. by destruct (m _). Qed.
Lemma mute_onRegistry {A} (m : M Registered A) : mute (onRegistry m).
Proof. intros s. unfold final, onRegistry. by destruct (m _) as [? [??]]. Qed.
Lemma mute_modify (f : Fleet -> Fleet) : (forall s, f_log (f s) = f_log s) -> mute (modify f).
Proof. intros E s. apply E. Qed.
Lemma mute_get : mute get.
Proof. done. Qed.
Lemma mute_clear : mute clearFleetCache.
Proof. apply mute_bind; [done|]. intros. by apply mute_modify. Qed.

(** Reading the accounts or the registry. *)
Lemma acts_noting {A} t (m : M Fleet A) what (E : Prop) : mute m -> E ->
  (forall s t', justified t' (what s)) ->
  acts t (meanwhile ;; noting what m)
    (fun a t' => exists n s s', m s = (inr a, s') /\ (n, what s') ∈ t') E.
Proof.
  intros Mu He J s t0 t1 P L Au.
  set (w := f_set_own (S (f_turns s)) (f_asked s) (f_log s) (fothers (f_turns s) s)).
  assert (meanwhile s = (inr tt, w)) as Mw by done. specialize (Mu w).
  change (f_log w) with (f_log s) in Mu.
  unfold final, result, mbind, M_bind, bind, noting in *. rewrite Mw. clearbody w. clear Mw.
  destruct (m w) as [x s2] eqn:R. cbn [snd] in Mu.
  exists (t1 ++ [(f_asked s2, what s2)]). cbn [fst snd f_log f_set_own]. split_and!.
  - by rewrite Mu, L, app_assoc.
  - by apply prefix_app_r.
  - by apply audited_ask.
  - destruct x as [e|a]; [done|]. exists (f_asked s2), w, s2. split; [done|].
    apply elem_of_app. right. by apply list_elem_of_singleton.
Qed.
Lemma acts_withUsers {A} t (m : M Gateway A) (E : Prop) : E ->
  acts t (withUsers m)
    (fun a t' => exists n g g', m g = (inr a, g') /\ (n, AAccounts (us_users (g_users g'))) ∈ t') E.
Proof.
  intros He. eapply acts_weaken; [by apply acts_noting; [apply mute_onGateway|..]| |done].
  intros a t' P (n & s & s' & R & I). exists n, (f_gateway s), (f_gateway s').
  unfold onGateway in R. destruct (m (f_gateway s)) as [x g]. injection R as -> <-. by split.
Qed.
Lemma acts_withRegistry {A} t (m : M Registered A) (E : Prop) : E ->
  acts t (withRegistry m)
    (fun a t' => exists n rs rs', m rs = (inr a, rs') /\ (n, AServers (rg_records (snd rs'))) ∈ t') E.
Proof.
  intros He. eapply acts_weaken; [by apply acts_noting; [apply mute_onRegistry|..]| |done].
  intros a t' P (n & s & s' & R & I). unfold onRegistry in R.
  destruct (m _) as [x [h rg]] eqn:Rm. injection R as -> <-. by exists n, (g_host (f_gateway s), f_registry s), (h, rg).
Qed.
Lemma acts_withRegistry_all {A} t (m : M Registered A) (E : Prop) : E ->
  acts t (withRegistry m) (fun _ _ => True) E.
Proof. intros He. by eapply acts_weaken; [by apply acts_withRegistry|..]. Qed.

(** Asking. *)
Lemma acts_asking {A} t q (answer : nat -> error + A) (E : Prop) :
  (forall t', t `prefix_of` t' -> justified t' q) -> E ->
  acts t (asking q answer) (fun a t' => exists n, (n, q) ∈ t' /\ answer n = inr a) E.
Proof.
  intros J He s t0 t1 P L Au. exists (t1 ++ [(f_asked s, q)]).
  unfold final, result, asking, mbind, M_bind, bind, get, modify, meanwhile. cbn.
  unfold fromResult. split_and!.
  - destruct (answer _); cbn; by rewrite L, app_assoc.
  - by apply prefix_app_r.
  - apply audited_ask; [done|]. by apply J.
  - destruct (answer (f_asked s)) as [e|a] eqn:R; cbn; [done|]. eexists. split; [|done].
    apply elem_of_app. right. by apply list_elem_of_singleton.
Qed.
Lemma acts_asking_sure {A} t q (answer : nat -> A) (E : Prop) :
  (forall t', t `prefix_of` t' -> justified t' q) ->
  acts t (asking q (fun n => inr (answer n))) (fun a t' => True) E.
Proof.
  intros J s t0 t1 P L Au. exists (t1 ++ [(f_asked s, q)]).
  unfold final, result, asking, mbind, M_bind, bind, get, modify, meanwhile. cbn.
  split_and!; [by rewrite L, app_assoc|by apply prefix_app_r| |done].
  apply audited_ask; [done|]. by apply J.
Qed.

Lemma acts_tell t c (E : Prop) : (forall t', t `prefix_of` t' -> justified t' (AHistory c)) ->
  acts t (tell c) (fun _ _ => True) E.
Proof.
  intros J. unfold tell. destruct historyOn; [|by apply acts_ret].
  by apply (acts_asking_sure t (AHistory c) (fun _ => tt)).
Qed.

Lemma acts_mute_all {A} t (m : M Fleet A) (E : Prop) : mute m -> E -> acts t m (fun _ _ => True) E.
Proof. intros Mu He. by eapply acts_weaken; [apply acts_mute|..]. Qed.
Lemma acts_sure_all {A} t (m : M Fleet A) (E : Prop) : mute m -> (forall s, exists a, result m s = inr a) ->
  acts t m (fun _ _ => True) E.
Proof. intros Mu He. by eapply acts_weaken; [apply acts_sure|..]. Qed.

Lemma acts_fromResult {A} t (x : error + A) (Q : A -> asks -> Prop) (E : Prop) :
  (forall a t', t `prefix_of` t' -> x = inr a -> Q a t') -> (forall e, x = inl e -> E) -> acts t (fromResult x) Q E.
Proof.
  intros W He. destruct x as [e|a]; [by apply acts_throw, (He e)|apply acts_ret; by auto].
Qed.
Lemma acts_fail_if t b e (Q : unit -> asks -> Prop) (E : Prop) :
  (forall t', t `prefix_of` t' -> b = false -> Q tt t') -> (b = true -> E) -> acts t (fail_if b e) Q E.
Proof. destruct b; intros W He; [apply acts_throw|apply acts_ret]; auto. Qed.

(** [m], then [k] whatever [m] answered. *)
Lemma acts_then {A B} t (m : M Fleet A) (k : A -> M Fleet B) Q E :
  acts t m (fun _ _ => True) E -> (forall a t', t `prefix_of` t' -> acts t' (k a) Q E) ->
  acts t (m ≫= k) Q E.
Proof. intros Hm Hk. eapply acts_bind; [exact Hm|]. auto. Qed.
Lemma acts_get {B} t (k : Fleet -> M Fleet B) Q E : (forall s, acts t (k s) Q E) -> acts t (get ≫= k) Q E.
Proof. intros W s. apply (W s). Qed.

Lemma sure_meanwhile : forall s, exists a, result meanwhile s = inr a.
Proof. intros s. by exists tt. Qed.
Lemma sure_now : forall s, exists a, result fleetNow s = inr a.
Proof. intros s. by eexists. Qed.
Lemma sure_contextErr : forall s, exists a, result contextErr s = inr a.
Proof. intros s. by eexists. Qed.
Lemma sure_clear : forall s, exists a, result clearFleetCache s = inr a.
Proof. intros s. by eexists. Qed.
Lemma acts_modify t (f : Fleet -> Fleet) (E : Prop) : (forall s, f_log (f s) = f_log s) ->
  acts t (modify f) (fun _ _ => True) E.
Proof. intros W. apply acts_sure_all; [by apply mute_modify|]. intros s. by exists tt. Qed.

Lemma acts_orReply {A} t status (m : M Fleet A) next R (Q : fleetReply -> asks -> Prop) E :
  acts t m R True -> (forall err t', Q (fail_with status err) t') ->
  (forall a t', t `prefix_of` t' -> R a t' -> acts t' (next a) Q E) ->
  acts t (orReply status m next) Q E.
Proof.
  intros Hm Hf Hk. unfold orReply.
  apply (acts_bind _ _ _ (fun x t' => match x with inr a => R a t' | inl _ => True end)).
  - eapply acts_try; [exact Hm|done].
  - intros [err|a] t' P Ra; [by apply acts_ret|by apply Hk].
Qed.
Lemma acts_decodedOr {A} t (decode : bodyReader -> error + A * bodyReader) next
    (Q : fleetReply -> asks -> Prop) E :
  (forall err t', Q (fail_with StatusBadRequest err) t') ->
  (forall a, decodeJSONBody decode r = inr a -> acts t (next a) Q E) ->
  acts t (decodedOr decode r next) Q E.
Proof. intros Hf Hk. unfold decodedOr. destruct (decodeJSONBody decode r); [by apply acts_ret|by apply Hk]. Qed.
Lemma acts_adminOnly t next (Q : fleetReply -> asks -> Prop) E :
  (forall t', Q (refused StatusForbidden "admin access required") t') ->
  (isAdmin session -> acts t next Q E) -> acts t (adminOnly session next) Q E.
Proof.
  intros Hf Hk. unfold adminOnly. destruct (String.eqb_spec (session_Role session) RoleAdmin) as [A|A]; cbn [negb].
  - by apply Hk.
  - by apply acts_ret.
Qed.
End logic.

#[local] Hint Resolve mute_meanwhile mute_onGateway mute_onRegistry
  mute_clear mute_get sure_meanwhile sure_now sure_contextErr sure_clear : core.

(** * The distribution of keys *)

Section sync.
Context `{UsersJSON} `{AEAD} `{Elsewhere} `{NetURL} `{RegistryJSON} `{NodeAPI} `{WebJSON}
  `{FleetElsewhere} `{History} `{FleetJSON}.
Variables (session : sessionInfo) (r : webRequest).

#[local] Abbreviation acts := (acts session r).
#[local] Abbreviation justified := (justified session r).

Lemma shown_prefix t t' record status : t `prefix_of` t' -> shown t record status -> shown t' record status.
Proof. intros P (n & I & S). exists n. split; [by eapply elem_of_prefix|done]. Qed.
Lemma ofGateway_prefix t t' snapshot : t `prefix_of` t' -> ofGateway t snapshot -> ofGateway t' snapshot.
Proof. intros P (n & users & keys & raw & I & X). exists n, users, keys, raw. split; [by eapply elem_of_prefix|done]. Qed.
Lemma inStep_prefix t t' record : t `prefix_of` t' -> inStep t record -> inStep t' record.
Proof. intros P (n & snapshot & result & I & S). exists n, snapshot, result. split; [by eapply elem_of_prefix|done]. Qed.
Lemma prepared_prefix t t' id : t `prefix_of` t' -> prepared session t id -> prepared session t' id.
Proof.
  intros P (n & a & b & c & d & e & f & g & I & S). exists n, a, b, c, d, e, f, g.
  split; [by eapply elem_of_prefix|done].
Qed.
Lemma listed_prefix t t' record : t `prefix_of` t' -> listed t record -> listed t' record.
Proof. intros P (n & records & I & X). exists n, records. split; [by eapply elem_of_prefix|done]. Qed.
Lemma routed_prefix action t t' record : t `prefix_of` t' -> routed r action t record ->
  routed r action t' record.
Proof. intros P (M & S & L). split; [done|]. split; [done|by eapply listed_prefix]. Qed.
Lemma accountKey_prefix t t' id : t `prefix_of` t' -> accountKey session t id ->
  accountKey session t' id.
Proof. intros P (n & users & u & I & X). exists n, users, u. split; [by eapply elem_of_prefix|done]. Qed.
Lemma usesOwnKey_prefix t t' record id : t `prefix_of` t' -> usesOwnKey session t record id ->
  usesOwnKey session t' record id.
Proof.
  intros P U M. destruct (U M). split; [by eapply inStep_prefix|by eapply accountKey_prefix].
Qed.

(** What the store answers of its keys is what it holds of them. *)
Lemma loaded_users g us g' : UserStore_loadLocked g = (inr us, g') -> us_users (g_users g') = us.
Proof.
  unfold UserStore_loadLocked, mbind, M_bind, bind, gets, try, onHost, changing, modify, fromResult, ret, throw.
  destruct (us_loaded (g_users g)) eqn:L; [by intros [= <- <-]|].
  destruct (readPrivateFile _ _ _ _) as [[err|data] h].
  - destruct (errors_Is _ _); [|done]. by intros [= <- <-].
  - destruct (_ =? 0); [by intros [= <- <-]|]. destruct (UnmarshalUsers data) as [e|l]; [done|].
    destruct (_ <? _); [done|]. by intros [= <- <-].
Qed.
Lemma FixedKeyVerifiers_answer g keys g' : FixedKeyVerifiers g = (inr keys, g') ->
  keys = merge_sort idLe (map verifierOf (List.filter keyed (us_users (g_users g')))).
Proof.
  unfold FixedKeyVerifiers, mbind, M_bind, bind. destruct (UserStore_loadLocked g) as [[e|us] g1] eqn:L; [done|].
  intros [= <- <-]. by rewrite (loaded_users g us g1).
Qed.
Lemma keyed_filter l : List.filter keyed l =
  filter (fun u => user_Disabled u = false /\ user_KeyID u <> "") l.
Proof.
  induction l as [|u l IH]; [done|]. cbn [List.filter]. rewrite filter_cons, IH. unfold keyed.
  destruct (user_Disabled u) eqn:D, (String.eqb_spec (user_KeyID u) "") as [E|E]; cbn [negb andb];
    destruct (decide _); naive_solver.
Qed.

Lemma acts_keySnapshot t : acts t managedKeySnapshot (fun snapshot t' => ofGateway t' snapshot) True.
Proof.
  unfold managedKeySnapshot. eapply acts_bind; [by apply acts_withUsers|].
  intros keys t1 P1 (n & g & g' & K%FixedKeyVerifiers_answer & I). cbv zeta.
  eapply acts_bind; [by apply acts_fromResult with (Q := fun raw _ => MarshalManagedKeys (map managedKey keys) = inr raw)|].
  intros raw t2 P2 M. apply acts_ret. intros t3 P3. exists n, (us_users (g_users g')), (map managedKey keys), raw.
  split; [eapply elem_of_prefix; [exact I|]; by etrans|].
  split. { rewrite K, <- keyed_filter. rewrite merge_sort_Permutation, map_map. done. }
  split; [|done]. rewrite K.
  assert (Total idLe) as To by (intros x y; apply (total stringLe)).
  assert (Transitive idLe) as Tr by (intros x y z; apply (transitivity (R := stringLe))).
  pose proof (StronglySorted_merge_sort idLe (map verifierOf (List.filter keyed (us_users (g_users g'))))) as S.
  revert S. generalize (merge_sort idLe (map verifierOf (List.filter keyed (us_users (g_users g'))))) as vs.
  intros vs S. clear K. induction S as [|x l S IH F]; cbn [map]; [constructor|]. constructor; [done|].
  apply Forall_map. eapply Forall_impl; [exact F|]. done.
Qed.

(** What stays true when more was asked. *)
Definition lasting {A} (Q : A -> asks -> Prop) : Prop :=
  forall a t t', t `prefix_of` t' -> Q a t -> Q a t'.

Lemma acts_wrapping {A} t format args (m : M Fleet A) Q : lasting Q -> acts t m Q True ->
  acts t (wrapping format args m) Q True.
Proof.
  intros La Hm. unfold wrapping.
  eapply (acts_bind _ _ _ _ _ (fun x t' => match x with inr a => Q a t' | inl _ => True end)).
  { eapply acts_try; [exact Hm|done]. }
  intros [err|a] t' P Qa; [by apply acts_throw|]. apply acts_ret. intros t'' P'. by eapply La.
Qed.

(** The request may bring keys to this node. *)
Definition mayInform (t : asks) (record : ServerRecord) : Prop :=
  adding session r record \/ routed r "reservations" t record \/ routed r "allow" t record.
Lemma mayInform_prefix t t' record : t `prefix_of` t' -> mayInform t record -> mayInform t' record.
Proof. intros P [A|[A|A]]; [by left|right; left|right; right]; by eapply routed_prefix. Qed.

Lemma lasting_answer {A} q (answer : nat -> error + A) :
  lasting (fun a t' => exists n, (n, q) ∈ t' /\ answer n = inr a).
Proof. intros a t t' P (n & I & R). exists n. split; [by eapply elem_of_prefix|done]. Qed.

Lemma acts_syncOnce t record : mayInform t record ->
  acts t (syncManagedKeysToNodeOnce record) (fun _ t' => managedClient = true -> inStep t' record) True.
Proof.
  intros W. unfold syncManagedKeysToNodeOnce. destruct managedClient; cbn [negb]; [|by apply acts_ret].
  destruct telemetryClient; cbn [negb]; [|by apply acts_throw].
  eapply acts_bind.
  { apply acts_wrapping; [apply lasting_answer|]. apply acts_asking; [|done].
    intros t' P. by eapply mayInform_prefix. }
  intros info t1 P1 _. apply acts_bind with (R := fun _ _ => True); [by apply acts_fail_if|].
  intros _ t2 P2 _. eapply acts_bind; [apply acts_keySnapshot|].
  intros snapshot t3 P3 Of. eapply acts_bind.
  { apply acts_wrapping; [apply lasting_answer|]. apply acts_asking; [|done].
    intros t' P. split; [by eapply ofGateway_prefix|]. eapply mayInform_prefix; [|done].
    etrans; [exact P1|]. etrans; [exact P2|]. by etrans. }
  intros result t4 P4 (n & I & R). apply acts_fail_if; [|done].
  intros t5 P5 [Mg Id]%orb_false_iff _. exists n, snapshot, result.
  split; [by eapply elem_of_prefix|]. split; [done|]. apply negb_false_iff in Mg, Id.
  by apply String.eqb_eq in Id.
Qed.

Lemma acts_recordSync t nodeID err (E : Prop) : acts t (recordManagedKeySync nodeID err) (fun _ _ => True) E.
Proof.
  unfold recordManagedKeySync. apply acts_then; [by apply acts_sure_all|]. intros now t1 P1.
  apply acts_then.
  { eapply acts_try; [|done]. eapply acts_weaken; [apply acts_keySnapshot|done..]. }
  intros snapshot t2 P2. apply acts_then; [by apply acts_sure_all|]. intros _ t3 P3.
  apply acts_get. intros s. cbv zeta. apply acts_then; [by apply acts_modify|]. intros _ t4 P4.
  by apply acts_tell.
Qed.

Lemma acts_syncNode t record : mayInform t record ->
  acts t (syncManagedKeysToNode record) (fun _ t' => managedClient = true -> inStep t' record) True.
Proof.
  intros W. unfold syncManagedKeysToNode.
  eapply (acts_bind _ _ _ _ _ (fun x t' => match x with inr _ => managedClient = true -> inStep t' record | inl _ => True end)).
  { eapply acts_try; [by apply acts_syncOnce|done]. }
  intros x t1 P1 S. cbv zeta. apply acts_then; [apply acts_recordSync|]. intros _ t2 P2.
  revert S. destruct x as [err|[]]; cbn; intros S; [by apply acts_throw|]. apply acts_ret.
  intros t3 P3 Mg. eapply inStep_prefix; [|by apply S]. by etrans.
Qed.

Lemma acts_syncedKey t record next (Q : fleetReply -> asks -> Prop) (E : Prop) : mayInform t record ->
  (forall status err t', Q (fail_with status err) t') ->
  (forall key t', t `prefix_of` t' ->
     match key with
     | Some key => usesOwnKey session t' record (verifier_ID key)
     | None => managedClient = false
     end -> acts t' (next key) Q E) ->
  acts t (syncedKey session record next) Q E.
Proof.
  intros W Hf Hn. unfold syncedKey. destruct managedClient eqn:Mg; [|by apply Hn].
  eapply acts_orReply; [by apply acts_withUsers|done|].
  intros key t1 P1 (n & g & g' & K & I).
  eapply acts_orReply; [apply acts_syncNode; by eapply mayInform_prefix|done|].
  intros ? t2 P2 S. apply Hn; [by etrans|]. intros _. split; [by apply S|].
  unfold FixedKeyForUser in K. cbv zeta in K. unfold mbind, M_bind, bind in K.
  destruct (FixedKeyVerifiers g) as [[e|keys] g1] eqn:V; [done|].
  destruct (List.find _ keys) as [v|] eqn:F; [|done]. injection K as -> <-.
  apply List.find_some in F as [Ik O]. apply String.eqb_eq in O.
  apply FixedKeyVerifiers_answer in V. rewrite V, keyed_filter in Ik.
  apply list_elem_of_In in Ik. rewrite merge_sort_Permutation in Ik.
  apply list_elem_of_fmap in Ik as (u & -> & [[D Ne] Iu]%list_elem_of_filter).
  exists n, (us_users (g_users g1)), u. split; [by eapply elem_of_prefix|]. by split_and!.
Qed.
End sync.

(** * What belongs to an account *)

Section filters.
Variable session : sessionInfo.
#[local] Abbreviation user := (session_User session).

Lemma filter_own {A} (holder : A -> string) l :
  Forall (fun x => own session (holder x)) (List.filter (ownedBy holder user) l).
Proof. apply Forall_forall. intros x I%list_elem_of_In. by apply List.filter_In in I as [_ O]. Qed.

Lemma scrub_own row : ownOrHidden session (scrubReservation user row).
Proof. unfold ownOrHidden, scrubReservation. destruct (ownedBy _ _ row) eqn:O; [by left|by right]. Qed.
Lemma filterGPU_own gpu : ownGPU session (filterGPU user gpu).
Proof.
  split; [done|]. destruct gpu as [id vendor model uuid state used total pct ps reservation claim].
  cbn. split.
  - destruct reservation as [row|]; [|done]. intros ? [= <-]. apply scrub_own.
  - destruct claim as [c|]; [|done]. destruct (ownedBy _ _ c) eqn:O; [|done]. by intros ? [= <-].
Qed.
Lemma filterNode_own s : ownSnapshot session (filterNodeSnapshot user s).
Proof.
  split; try apply filter_own; try done; cbn.
  - apply Forall_forall. intros x I. apply list_elem_of_fmap in I as (row & -> & _). apply scrub_own.
  - apply Forall_forall. intros x I. apply list_elem_of_fmap in I as (gpu & -> & _). apply filterGPU_own.
Qed.
Lemma filterFleet_own out : isAdmin session \/
  Forall (fun item => forall s, ss_Snapshot item = Some s -> ownSnapshot session s)
    (filterFleetSnapshot out session).
Proof.
  unfold filterFleetSnapshot. destruct (String.eqb_spec (session_Role session) RoleAdmin) as [A|A]; [by left|].
  right. apply Forall_forall. intros x I. apply list_elem_of_fmap in I as (item & -> & _). cbn.
  destruct (ss_Snapshot item) as [s|]; [|done]. intros ? [= <-]. apply filterNode_own.
Qed.

Lemma find_elem {A} (f : A -> bool) l x : List.find f l = Some x -> x ∈ l /\ f x = true.
Proof. intros [I F]%List.find_some. split; [by apply list_elem_of_In|done]. Qed.

Lemma usable_own status id : usable status user id = true -> ownsToken session status id.
Proof.
  unfold usable, findToken. destruct (List.find _ _) as [token|] eqn:F; [|done].
  apply find_elem in F as [I Id%String.eqb_eq]. intros O. by exists token.
Qed.
Lemma revocable_own status id : revocable status user id = true -> ownsRow session status id.
Proof.
  unfold revocable, findToken, findReservation, findAuthorization, ownsRow.
  destruct (List.find _ (KeyStatus_Tokens status)) as [token|] eqn:F1.
  { apply find_elem in F1 as [I Id%String.eqb_eq]. intros O. left. by exists token. }
  destruct (List.find (fun reservation => ReservationView_ID reservation =s id) _) as [row|] eqn:F2.
  { apply find_elem in F2 as [I Id%String.eqb_eq]. intros O. right. left. exists row. auto. }
  destruct (List.find (fun r => ReservationView_GroupID r =s id) _) as [row|] eqn:F3.
  { apply find_elem in F3 as [I Id%String.eqb_eq]. intros O. right. left. exists row. auto. }
  destruct (List.find _ (KeyStatus_Authorizations status)) as [row|] eqn:F4; [|done].
  apply find_elem in F4 as [I Id%String.eqb_eq]. intros O. right. right. exists row. auto.
Qed.
End filters.

(** * The handlers *)

Section handlers.
Context `{UsersJSON} `{AEAD} `{Elsewhere} `{NetURL} `{RegistryJSON} `{NodeAPI} `{WebJSON}
  `{FleetElsewhere} `{History} `{FleetJSON}.
Variables (session : sessionInfo) (r : webRequest).

#[local] Abbreviation acts := (acts session r).
#[local] Abbreviation discreetly := (fun reply (_ : asks) => discreet session reply).
#[local] Abbreviation routed := (routed r).

(** What the registry answers is what it holds. *)
Lemma loaded_records rs records rs' : Registry_List rs = (inr records, rs') -> rg_records (snd rs') = records.
Proof.
  unfold Registry_List, Registry_loadLocked, mbind, M_bind, bind, gets, try, onFiles, setRecords, modify,
    fromResult, check, fail_if, ret, throw.
  destruct (rg_loaded (snd rs)) eqn:L; [by intros [= <- <-]|].
  destruct (readPrivateFile _ _ _ _) as [[err|data] h].
  - destruct (errors_Is _ _); [|done]. by intros [= <- <-].
  - destruct (_ =? 0); [by intros [= <- <-]|]. destruct (UnmarshalServers data) as [e|l]; [done|].
    destruct (_ <? _); [done|]. destruct (head _); [done|]. by intros [= <- <-].
Qed.
Lemma found_record id rs record rs' : Registry_Get id rs = (inr (Some record), rs') ->
  record ∈ rg_records (snd rs') /\ server_ID record = id.
Proof.
  unfold Registry_Get, mbind, M_bind, bind. destruct (Registry_List rs) as [[e|l] rs1] eqn:L; [done|].
  unfold ret. intros [= F <-]. apply loaded_records in L. rewrite L.
  apply find_elem in F as [I Id%String.eqb_eq]. by split.
Qed.

(** The snapshot of the fleet. *)
Lemma acts_fetchNode t budget record (E : Prop) : q_Method r = "GET" -> listed t record ->
  acts t (fetchNode budget record) (fun _ _ => True) E.
Proof.
  intros G Li. unfold fetchNode. apply acts_then.
  { eapply acts_try; [|done]. eapply acts_weaken; [apply acts_asking; [|done]|done..].
    intros t' P. split; [done|by eapply listed_prefix]. }
  intros [err|snapshot] t1 P1; cbv zeta; [by apply acts_ret|].
  destruct (accept _ _) as [err|budget']; [by apply acts_ret|]. apply acts_then; [|intros; by apply acts_ret].
  destruct historyOn; [|by apply acts_ret]. apply acts_then; [by apply acts_sure_all|].
  intros now t2 P2. by apply acts_tell.
Qed.
Lemma acts_fetchNodes records jobs (E : Prop) : q_Method r = "GET" -> forall t budget out,
  Forall (listed t) records ->
  acts t (fetchNodes records jobs budget out) (fun _ _ => True) E.
Proof.
  intros G. induction jobs as [|i jobs IH]; intros t budget out Li; cbn [fetchNodes]; [by apply acts_ret|].
  destruct (records !! i) as [record|] eqn:Ri; [|by apply IH]. destruct (out !! i); [by apply IH|].
  apply acts_then; [apply acts_fetchNode; [done|by eapply Forall_lookup_1]|].
  intros [item budget'] t1 P1. apply IH. eapply Forall_impl; [exact Li|]. intros x. by apply listed_prefix.
Qed.
Lemma acts_refresh t call (E : Prop) : q_Method r = "GET" ->
  acts t (refreshFleetSnapshot call) (fun _ _ => True) E.
Proof.
  intros G. unfold refreshFleetSnapshot. apply acts_then.
  { eapply acts_try with (E' := True); [|done]. unfold fetchFleetSnapshot.
    eapply acts_bind; [by apply acts_withRegistry|]. intros records t1 P1 (n & rs & rs' & Rg & I).
    apply loaded_records in Rg. rewrite Rg in I.
    destruct records as [|record records]; [by apply acts_ret|]. apply acts_get. intros s.
    apply acts_then.
    { apply acts_fetchNodes; [done|]. apply Forall_forall. intros x Ix. by exists n, (record :: records). } intros out t2 P2.
    apply acts_then; [by apply acts_sure_all|]. intros err t3 P3. by apply acts_ret. }
  intros x t1 P1. apply acts_then; [by apply acts_sure_all|]. intros _ t2 P2. apply acts_then.
  { destruct x as [err|out]; [by apply acts_ret|]. apply acts_then; [by apply acts_sure_all|].
    intros now t3 P3. by apply acts_modify. }
  intros _ t3 P3. apply acts_get. intros s. by apply acts_modify.
Qed.
Lemma acts_cached t : q_Method r = "GET" -> acts t cachedFleetSnapshot (fun _ _ => True) True.
Proof.
  intros G. unfold cachedFleetSnapshot. apply acts_then; [by apply acts_sure_all|]. intros _ t1 P1.
  apply acts_then.
  { unfold lookupFleetCache. apply acts_then; [by apply acts_sure_all|]. intros now t2 P2.
    apply acts_get. intros s. destruct (_ && _); [by apply acts_ret|].
    destruct (f_refresh s); [by apply acts_ret|]. apply acts_then; [by apply acts_modify|]. intros. by apply acts_ret. }
  intros [out|[call starts]] t2 P2; [by apply acts_ret|]. apply acts_then.
  { destruct starts; [by apply acts_refresh|by apply acts_ret]. }
  intros _ t3 P3. apply acts_then; [by apply acts_sure_all|]. intros _ t4 P4. apply acts_get. intros s.
  apply acts_then; [by apply acts_sure_all|]. intros err t5 P5.
  apply acts_then; [by apply acts_mute_all|]. intros first t6 P6.
  destruct (f_done s !! call) as [x|], err as [e|]; try by apply acts_throw.
  - destruct first; [by apply acts_fromResult|by apply acts_throw].
  - by apply acts_fromResult.
Qed.

Lemma acts_snapshot t : acts t (handleFleetSnapshot session r) discreetly False.
Proof.
  unfold handleFleetSnapshot. destruct (String.eqb_spec (q_Method r) "GET") as [G|G]; cbn [negb]; [|by apply acts_ret].
  eapply acts_orReply; [by apply acts_cached|done|]. intros out t1 P1 _. apply acts_ret. intros.
  apply filterFleet_own.
Qed.

Lemma acts_servers t : acts t (handleServers session r) discreetly False.
Proof.
  unfold handleServers. destruct (_ =s "GET").
  { eapply acts_orReply; [by apply acts_withRegistry_all|done|]. intros. by apply acts_ret. }
  destruct (String.eqb_spec (q_Method r) "POST") as [M|M]; [|by apply acts_ret].
  apply acts_adminOnly; [done|]. intros A.
  apply acts_decodedOr; [done|]. intros req D. cbv zeta. set (record := mkServerRecord _ _ _ _ _ _ _).
  assert (adding session r record) as Ad by (split; [done|]; split; [done|]; by exists req).
  eapply acts_orReply; [by apply acts_asking|done|]. intros _ t1 P1 _.
  eapply acts_orReply; [apply acts_syncNode; by left|done|]. intros ? t2 P2 _.
  eapply acts_orReply; [by apply acts_withRegistry_all|done|]. intros stored t3 P3 _.
  apply acts_then; [by apply acts_sure_all|]. intros _ t4 P4. by apply acts_ret.
Qed.

Lemma acts_delete t id : acts t (deleteServer session id) discreetly False.
Proof.
  unfold deleteServer. apply acts_adminOnly; [done|]. intros A.
  eapply acts_orReply; [by apply acts_withRegistry_all|done|]. intros _ t1 P1 _.
  apply acts_then; [by apply acts_sure_all|]. intros _ t2 P2. by apply acts_ret.
Qed.

Lemma acts_showKeys t record action : routed action t record ->
  acts t (askShowKeys record) (fun status t' => shown t' record status) True.
Proof.
  intros W. apply acts_asking; [|done]. intros t' P. split; [done|]. exists action. by eapply routed_prefix.
Qed.

Lemma acts_revoke t record args : routed "revoke" t record -> decodeJSONBody DecodeRevoke r = inr args ->
  acts t (revokeOnNode session record args) discreetly False.
Proof.
  intros W D. unfold revokeOnNode. destruct (_ =s ""); [by apply acts_ret|].
  eapply acts_orReply with (R := fun ok t' => ok = true -> isAdmin session \/
    exists status, shown t' record status /\ ownsRow session status (RevokeArgs_ID args)); [|done|].
  { unfold canRevoke. destruct (String.eqb_spec (session_Role session) RoleAdmin) as [A|A].
    { apply acts_ret. by left. }
    eapply acts_bind; [by eapply acts_showKeys|]. intros status t1 P1 S. apply acts_ret.
    intros t2 P2 O%revocable_own. right. exists status. split; [by eapply shown_prefix|done]. }
  intros [] t1 P1 J; cbn [negb]; [|by apply acts_ret]. specialize (J eq_refl).
  eapply acts_orReply; [apply acts_asking; [|done]|done|].
  { intros t2 P2. split_and!; [eapply routed_prefix; [|done]; by etrans|done|]. destruct J as [A|(status & S & O)]; [by left|right].
    exists status. split; [by eapply shown_prefix|done]. }
  intros result t2 P2 _. apply acts_then; [by apply acts_sure_all|]. intros _ t3 P3. by apply acts_ret.
Qed.

Lemma acts_showKey t record req : routed "show-key" t record ->
  acts t (showKeyOnNode session record req) discreetly False.
Proof.
  intros W. unfold showKeyOnNode. cbv zeta. destruct (_ =s ""); [by apply acts_ret|].
  eapply acts_orReply; [by eapply acts_showKeys|done|]. intros status t1 P1 S.
  destruct (findToken _ _) as [token|]; [|by apply acts_ret].
  destruct (String.eqb_spec (session_Role session) RoleAdmin) as [A|A]; cbn [negb andb].
  { apply acts_ret. intros. exists token. split; [done|by left]. }
  destruct (sameOwner _ _) eqn:O; cbn [negb]; apply acts_ret; [|done]. intros. exists token. split; [done|by right].
Qed.

Lemma acts_allow t record args : routed "allow" t record -> decodeJSONBody DecodeAllow r = inr args ->
  acts t (allowOnNode session record args) discreetly False.
Proof.
  intros W D. unfold allowOnNode. cbv zeta. apply acts_syncedKey; [by right; right|done|].
  intros key t1 P1 K.
  set (args' := match key with Some _ => _ | None => _ end).
  assert (usesOwnKey session t1 record (AllowArgs_UserKeyID args') /\
    (managedClient = true -> AllowArgs_ID args' = AllowArgs_UserKeyID args') /\
    AllowArgs_Container args' = AllowArgs_Container args /\
    AllowArgs_Namespace args' = AllowArgs_Namespace args /\
    AllowArgs_User args' = AllowArgs_User args) as (U & I & C).
  { unfold args', usesOwnKey. destruct key as [key|]; cbn; split_and!; auto; congruence. }
  destruct (negb (session_Role session =s RoleAdmin) && allowArgsHaveWildcard args') eqn:Wc; [by apply acts_ret|].
  eapply acts_orReply with (R := fun ok t' => ok = true -> isAdmin session \/
    allowArgsHaveWildcard args' = false /\
    exists status, shown t' record status /\ ownsToken session status (AllowArgs_ID args')); [|done|].
  { unfold canUseKey. destruct (String.eqb_spec (session_Role session) RoleAdmin) as [A|A]; cbn [negb andb] in Wc.
    { apply acts_ret. by left. }
    eapply acts_bind; [eapply acts_showKeys; by eapply routed_prefix|]. intros status t2 P2 S. apply acts_ret.
    intros t3 P3 O%usable_own. right. split; [done|]. exists status. split; [by eapply shown_prefix|done]. }
  intros [] t2 P2 J; cbn [negb]; [|by apply acts_ret]. specialize (J eq_refl).
  eapply acts_orReply; [apply acts_asking; [|done]|done|].
  { intros t3 P3. split_and!; [| |done|by exists args|].
    { eapply routed_prefix; [|done]. etrans; [exact P1|]. by etrans. }
    { eapply usesOwnKey_prefix; [|done]. by etrans. }
    destruct J as [A|(Nw & status & S & O)]; [by left|right].
    split; [done|]. exists status. split; [by eapply shown_prefix|done]. }
  intros result t3 P3 _. apply acts_then; [by apply acts_sure_all|]. intros _ t4 P4. by apply acts_ret.
Qed.

(** Reservations. *)
Definition known (t : asks) (id : string) : Prop := id = "" \/ prepared session t id.
Lemma known_prefix t t' id : t `prefix_of` t' -> known t id -> known t' id.
Proof. intros P [E|K]; [by left|right; by eapply prepared_prefix]. Qed.

Lemma acts_prepare t record args : routed "reservations" t record ->
  acts t (prepareSession session record args) (fun id t' => known t' id) True.
Proof.
  intros W. unfold prepareSession.
  assert (forall t1, acts t1 (ret "") (fun id t' => known t' id) True) as Rt
    by (intros; apply acts_ret; by left).
  destruct (RegisterArgs_StartsAt args) as [from|]; [|done]. destruct (RegisterArgs_ExpiresAt args) as [until|]; [|done].
  destruct (_ && _); [|done]. apply acts_then.
  { eapply acts_try with (E' := True); [|done]. eapply acts_weaken; [apply acts_asking; [|done]|done..].
    intros t' P. right. left. by eapply routed_prefix. }
  intros [err|info] t1 P1; [done|]. destruct (_ && _); [|done].
  apply acts_then; [by apply acts_mute_all|]. intros hex t2 P2. cbv zeta.
  eapply acts_bind; [by apply acts_asking|]. intros ? t3 P3 (n & I & S). apply acts_ret. intros t4 P4. right.
  destruct (PrepareSession n) eqn:N; [done|].
  eexists n, _, _, _, _, _, _, _. split; [by eapply elem_of_prefix|done].
Qed.

(** The terms of the request. *)
Definition sameTerms (body args : RegisterArgs) : Prop :=
  RegisterArgs_GPUs args = RegisterArgs_GPUs body /\ RegisterArgs_TTL args = RegisterArgs_TTL body /\
  RegisterArgs_StartsAt args = RegisterArgs_StartsAt body /\
  RegisterArgs_ExpiresAt args = RegisterArgs_ExpiresAt body.
Definition termsOf (t : asks) (record : ServerRecord) (args : RegisterArgs) : Prop :=
  RegisterArgs_Name args = session_User session /\ usesOwnKey session t record (RegisterArgs_UserKeyID args) /\
  exists body, decodeJSONBody DecodeRegister r = inr body /\ sameTerms body args /\
    (RegisterArgs_ExternalSessionID args = RegisterArgs_ExternalSessionID body \/
     known t (RegisterArgs_ExternalSessionID args)).

Lemma terms_justified t t' record args : routed "reservations" t record -> t `prefix_of` t' ->
  termsOf t record args -> justified session r t' (ANode (CCreateReservation record args)).
Proof.
  intros W P (N & U & body & D & (G & T & S & X) & I). cbn.
  split_and!; [by eapply routed_prefix|done|by eapply usesOwnKey_prefix|]. exists body. split_and!; try done.
  destruct I as [I|[I|I]]; [by left|right; by left|right; right; by eapply prepared_prefix].
Qed.

Lemma acts_create t record args id : routed "reservations" t record -> termsOf t record args -> known t id ->
  acts t (createReservation record args id) (fun x t' => known t' (fst x)) False.
Proof.
  intros W T K. unfold createReservation. cbv zeta.
  assert (forall t1 args, t `prefix_of` t1 -> termsOf t record args -> acts t1
    (try (askNode (CCreateReservation record args) (fun n => CreateReservation n record args)))
    (fun _ _ => True) False) as Ask.
  { intros t1 args' P1 T'. eapply acts_try with (E' := True); [|done].
    eapply acts_weaken; [apply acts_asking; [|done]|done..]. intros t2 P2.
    eapply terms_justified; [done| |done]. by etrans. }
  assert (forall t1 x, t `prefix_of` t1 -> acts t1 (ret (id, x : error + RegisterResult))
    (fun x t' => known t' (fst x)) False) as Rt.
  { intros t1 x P1. apply acts_ret. intros t2 P2. eapply known_prefix; [|done]. by etrans. }
  apply acts_then; [by apply Ask|]. intros [err|result] t1 P1; [|by apply Rt].
  destruct (String.eqb_spec id "") as [E|Ne]; cbn [negb andb]; [by apply Rt|].
  destruct (unsupportedExternalSessionError err); [|by apply Rt].
  destruct K as [E|K]; [done|]. apply acts_then.
  { apply acts_tell. intros t2 P2. cbn. eapply prepared_prefix; [|done]. by etrans. }
  intros _ t2 P2. apply acts_then.
  { apply Ask; [by etrans|]. destruct T as (N & U & body & D & Sm & _). split_and!; [done..|].
    exists body. split_and!; [done..|]. right. by left. }
  intros x t3 P3. apply acts_ret. intros t4 P4. by left.
Qed.

Lemma acts_reserve t record args : routed "reservations" t record ->
  decodeJSONBody DecodeRegister r = inr args ->
  acts t (reserveOnNode session record args) discreetly False.
Proof.
  intros W D. unfold reserveOnNode. apply acts_syncedKey; [by right; left|done|].
  intros key t1 P1 K. cbv zeta. set (args1 := withSession _ _ _ args).
  assert (termsOf t1 record args1) as T1.
  { unfold args1, termsOf, usesOwnKey. split; [done|]. split; [destruct key; cbn; auto; congruence|].
    exists args. split; [done|]. split; [done|]. by left. }
  assert (routed "reservations" t1 record) as W1 by by eapply routed_prefix.
  eapply acts_orReply; [by apply acts_prepare|done|]. intros id t2 P2 Kn. cbv beta in Kn.
  set (args2 := if id =s "" then _ else _).
  assert (termsOf t2 record args2) as T2.
  { destruct T1 as (N & U & body & Db & Sm & I). unfold args2. split; [by destruct (id =s "")|].
    split. { replace (RegisterArgs_UserKeyID _) with (RegisterArgs_UserKeyID args1) by by destruct (id =s "").
      by eapply usesOwnKey_prefix. }
    exists body. split; [done|]. destruct (id =s ""); [split; [done|]|split; [done|by right]].
    destruct I as [I|I]; [by left|right]. by eapply known_prefix. }
  assert (routed "reservations" t2 record) as W2 by by eapply routed_prefix.
  eapply acts_bind; [by apply acts_create|]. intros [id' result] t3 P3 K3. cbn [fst] in K3.
  assert (forall t4 (q : HistoryCall), t3 `prefix_of` t4 ->
    (forall t5, prepared session t5 id' -> justified session r t5 (AHistory q)) -> id' <> "" ->
    acts t4 (tell q) (fun _ _ => True) False) as Tl.
  { intros t4 q P4 J Ne. apply acts_tell. intros t5 P5. apply J. destruct K3 as [E|K3]; [done|].
    eapply prepared_prefix; [|done]. by etrans. }
  destruct result as [err|result].
  { apply acts_then; [|intros; by apply acts_ret].
    destruct (String.eqb_spec id' "") as [E|Ne]; cbn [negb]; [by apply acts_ret|]. by apply Tl. }
  apply acts_then.
  { destruct (RegisterResult_TokenID result =s ""); [|by apply acts_ret]. apply acts_then.
    - eapply acts_try with (E' := True); [|done]. eapply acts_weaken; [eapply acts_showKeys; by eapply routed_prefix; [|exact W2]; etrans|done..].
    - intros status t4 P4. by apply acts_ret. }
  intros result' t4 P4. apply acts_then.
  { destruct (String.eqb_spec id' "") as [E|Ne]; cbn [negb andb]; [by apply acts_ret|].
    destruct (negb _); [by apply Tl|by apply acts_ret]. }
  intros _ t5 P5. apply acts_then; [by apply acts_sure_all|]. intros _ t6 P6. by apply acts_ret.
Qed.

Lemma acts_serverAction t : acts t (handleServerAction session r) discreetly False.
Proof.
  unfold handleServerAction. destruct (splitServerAction (q_Path r)) as [[id action]|] eqn:Sp; [|by apply acts_ret].
  eapply acts_orReply; [by apply acts_withRegistry|done|].
  intros [record|] t1 P1 (n & rs & rs' & Rg & I); [|by apply acts_ret].
  apply found_record in Rg as [Ir Id].
  destruct (_ && _); [apply acts_delete|].
  destruct (String.eqb_spec (q_Method r) "POST") as [M|M]; cbn [negb]; [|by apply acts_ret].
  assert (forall a, action = a -> routed a t1 record) as W.
  { intros a <-. split; [done|]. split; [by rewrite Id|]. by exists n, (rg_records (snd rs')). }
  destruct (String.eqb_spec action "reservations") as [A|_].
  { apply acts_decodedOr; [done|]. intros. apply acts_reserve; auto. }
  destruct (_ =s "claim-keys"); [by apply acts_ret|].
  destruct (String.eqb_spec action "show-key") as [A|_].
  { apply acts_decodedOr; [done|]. intros. apply acts_showKey; auto. }
  destruct (String.eqb_spec action "allow") as [A|_].
  { apply acts_decodedOr; [done|]. intros. apply acts_allow; auto. }
  destruct (String.eqb_spec action "revoke") as [A|_]; [|by apply acts_ret].
  apply acts_decodedOr; [done|]. intros. apply acts_revoke; auto.
Qed.

Lemma acts_route t next : fleetRoute (q_Path r) = Some next -> acts t (next session r) discreetly False.
Proof.
  unfold fleetRoute. destruct (_ =s _); [intros [= <-]; apply acts_servers|].
  destruct (HasPrefix _ _); [intros [= <-]; apply acts_serverAction|].
  destruct (_ =s _); [intros [= <-]; apply acts_snapshot|done].
Qed.
End handlers.

(** * The requests *)

Section requests.
Context `{UsersJSON} `{AEAD} `{Elsewhere} `{NetURL} `{RegistryJSON} `{NodeAPI} `{WebJSON}
  `{FleetElsewhere} `{History} `{FleetJSON}.
Variable sessionKey : list Z.

Lemma sure_onGateway {A} (m : M Gateway A) : (forall g, exists a, result m g = inr a) ->
  forall s, exists a, result (onGateway m) s = inr a.
Proof.
  intros Sure s. destruct (Sure (f_gateway s)) as [a R]. exists a. unfold result, onGateway in *.
  by destruct (m (f_gateway s)).
Qed.
Lemma sure_acquire session s : exists a, result (onGateway (acquireAuthenticatedRequest session)) s = inr a.
Proof.
  apply sure_onGateway. intros g. unfold result. rewrite acquire_run.
  destruct (_ || _); [by eexists|]. by destruct (_ && _); eexists.
Qed.
Lemma sure_release session s : exists a, result (onGateway (releaseAuthenticatedRequest session)) s = inr a.
Proof. apply sure_onGateway. intros g. by exists tt. Qed.

(** The session that this gateway finds in the cookie of the request. *)
Definition authenticated (g : Gateway) (r : webRequest) (session : sessionInfo) : Prop :=
  exists g', sessionUser sessionKey r g = (inr (Some session), g').
Definition refusal (reply : fleetReply) : Prop := exists status message, reply = refused status message.

Lemma admitted_acts next r s : (forall session t, acts session r t (next session r) (fun reply _ => discreet session reply) False) ->
  exists t reply, f_log (final (admitted sessionKey next r) s) = f_log s ++ t /\
    result (admitted sessionKey next r) s = inr reply /\
    (t = [] /\ refusal reply \/
     exists session, authenticated (f_gateway s) r session /\ audited session r t /\ discreet session reply).
Proof.
  intros W. unfold admitted.
  destruct (sessionUser_total sessionKey r (f_gateway s)) as ([session|] & g & E).
  2: { exists [], (refused StatusUnauthorized "authentication required").
       unfold result, final, mbind, M_bind, bind, onGateway. rewrite E. cbn. rewrite app_nil_r.
       split; [done|]. split; [done|]. left. split; [done|]. by eexists _, _. }
  assert (onGateway (sessionUser sessionKey r) s = (inr (Some session), f_set_gateway g s)) as R.
  { unfold onGateway. by rewrite E. }
  unfold result, final. rewrite (bind_run _ _ _ _ _ R).
  set (rest := mbind _ _).
  assert (acts session r [] rest (fun reply t => discreet session reply) False) as Ac.
  { unfold rest. apply acts_then; [by apply acts_sure_all|]. intros _ t1 P1.
    apply acts_then; [apply acts_sure_all; [done|apply sure_acquire]|]. intros [] t2 P2; cbn [negb]; [|by apply acts_ret].
    eapply (acts_bind _ _ _ _ _ (fun x _ => match x with inr reply => discreet session reply | inl _ => False end)).
    { eapply acts_try; [apply W|done]. }
    intros [e|reply] t3 P3 D; [done|]. apply acts_then; [by apply acts_sure_all|]. intros _ t4 P4.
    apply acts_then; [apply acts_sure_all; [done|apply sure_release]|]. intros _ t5 P5. by apply acts_ret. }
  destruct (Ac (f_set_gateway g s) (f_log s) []) as (t & L & _ & Au & D); [done|by rewrite app_nil_r|constructor|].
  unfold result, final in *. destruct (rest _) as [[e|reply] s2]; [done|]. exists t, reply.
  split; [done|]. split; [done|]. right. exists session. split; [by exists g|done].
Qed.

End requests.

(** * The snapshot of the fleet fits its budget *)

Section budget.
Context `{UsersJSON} `{AEAD} `{Elsewhere} `{NetURL} `{RegistryJSON} `{NodeAPI} `{WebJSON}
  `{FleetElsewhere} `{History} `{FleetJSON}.

(** What of a node's snapshot is in an item. *)
Definition carried (f : NodeSnapshot -> Z) (item : serverSnapshot) : Z :=
  match ss_Snapshot item with Some s => f s | None => 0 end.
Definition retainedBytes (s : NodeSnapshot) : Z := 1024 + recordCount s * 512 + retainedSize s.
Lemma retainedBytes_sum s : retainedBytes s = 1024 + recordCount s * 512 + retainedSize s.
Proof. done. Qed.
Definition spent (f : NodeSnapshot -> Z) (out : gmap nat serverSnapshot) : Z :=
  map_fold (fun _ item total => carried f item + total) 0 out.

Lemma spent_insert f i item out : out !! i = None -> spent f (<[i := item]> out) = carried f item + spent f out.
Proof. intros N. unfold spent. rewrite map_fold_insert_L; [done| |done]. intros. lia. Qed.
Lemma spent_delete f i item out : out !! i = Some item -> spent f out = carried f item + spent f (delete i out).
Proof. intros I. rewrite <- (insert_delete_id out i item I) at 1. apply spent_insert, lookup_delete_eq. Qed.
Lemma carried_nonneg f item : (forall s, 0 <= f s) -> 0 <= carried f item.
Proof. intros F. unfold carried. by destruct (ss_Snapshot item). Qed.
Lemma spent_nonneg f out : (forall s, 0 <= f s) -> 0 <= spent f out.
Proof.
  intros F. unfold spent. induction out as [|i item out N Fr IH] using map_first_key_ind; [done|].
  rewrite map_fold_insert_first_key by done. pose proof (carried_nonneg f item F). lia.
Qed.

(** What the items of the answer carry was spent. *)
Lemma filledIn_spent f err records : (forall s, 0 <= f s) -> forall out,
  sumOf (carried f) (imap (fun i record => filledIn err record (out !! i)) records) <= spent f out.
Proof.
  intros F. induction records as [|record records IH] using rev_ind; intros out; [by apply spent_nonneg|].
  rewrite imap_app. unfold sumOf. rewrite foldr_app. cbn [imap foldr]. rewrite Nat.add_0_r.
  assert (forall l a, foldr (fun x total => carried f x + total) a l = sumOf (carried f) l + a) as Sh.
  { induction l as [|x l IHl]; intros a; cbn [foldr]; [done|]. rewrite IHl, sumOf_cons. lia. }
  rewrite Sh. set (n := length records).
  assert (imap (fun i record => filledIn err record (out !! i)) records =
          imap (fun i record => filledIn err record (delete n out !! i)) records) as ->.
  { apply imap_ext. intros i x L. f_equal. apply lookup_lt_Some in L.
    rewrite lookup_delete_ne; [done|]. unfold n. lia. }
  specialize (IH (delete n out)). unfold filledIn at 2. destruct (out !! n) as [item|] eqn:I.
  - rewrite (spent_delete f n item out I). pose proof (carried_nonneg f item F).
    destruct (_ =s ""); cbn [negb]; [|lia]. unfold carried at 2. cbn [ss_Snapshot]. lia.
  - rewrite delete_id in IH |- * by done. unfold carried at 2. cbn [ss_Snapshot]. lia.
Qed.

Lemma triple_anywhere {A} (P : Fleet -> Prop) (m : M Fleet A) Q E :
  triple (fun _ => True) m Q E -> triple P m Q E.
Proof. intros T. by eapply triple_weaken. Qed.

(** An item about a node: its snapshot as the node answered it, or none. *)
Definition reports (record : ServerRecord) (item : serverSnapshot) : Prop :=
  ss_Server item = publicServerRecord record /\
  (ss_Online item = false /\ ss_Snapshot item = None \/
   exists n snapshot, ss_Online item = true /\ ss_Error item = "" /\ ss_Snapshot item = Some snapshot /\
     Snapshot n record = inr snapshot).

Record withinBudget (budget : fleetSnapshotBudget) (out : gmap nat serverSnapshot) : Prop := mkWithinBudget
  { wb_records : budget_records budget = spent recordCount out;
    wb_processes : budget_processes budget = spent processCount out;
    wb_bytes : budget_bytes budget = spent retainedBytes out;
    wb_records_max : budget_records budget <= maxFleetSnapshotRecords;
    wb_processes_max : budget_processes budget <= maxFleetSnapshotProcesses;
    wb_bytes_max : budget_bytes budget <= maxFleetSnapshotRetainedSize }.

Lemma withinBudget_offline budget out i item : withinBudget budget out -> out !! i = None ->
  ss_Snapshot item = None -> withinBudget budget (<[i := item]> out).
Proof.
  intros [] N E. split; try done; rewrite spent_insert by done; unfold carried; rewrite E; lia.
Qed.
Lemma accept_within budget snapshot budget' out i item : withinBudget budget out -> out !! i = None ->
  ss_Snapshot item = Some snapshot -> accept budget snapshot = inr budget' ->
  withinBudget budget' (<[i := item]> out).
Proof.
  intros [R P B _ _ _] N E. unfold accept, nodeSnapshotCost. cbv zeta.
  destruct (Z.ltb_spec maxNodeSnapshotRecords (recordCount snapshot)); [done|].
  destruct (Z.ltb_spec maxNodeSnapshotProcesses (processCount snapshot)); [done|].
  rewrite <- retainedBytes_sum. destruct (Z.ltb_spec maxFleetSnapshotRetainedSize (retainedBytes snapshot)); [done|].
  destruct (_ || _) eqn:O; [done|]. apply orb_false_iff in O as [O O3]. apply orb_false_iff in O as [O1 O2].
  apply Z.ltb_ge in O1, O2, O3. intros [= <-].
  split; cbn; try lia; rewrite spent_insert by done; unfold carried; rewrite E; lia.
Qed.

Lemma fetchNode_spec budget out i record : withinBudget budget out -> out !! i = None ->
  triple (fun _ => True) (fetchNode budget record)
    (fun x _ => reports record (fst x) /\ withinBudget (snd x) (<[i := fst x]> out)) (fun _ => True).
Proof.
  intros W N. unfold fetchNode.
  eapply triple_bind with (R := fun x _ => match x with inr snapshot => exists n, Snapshot n record = inr snapshot | inl _ => True end).
  { apply triple_try. eapply triple_weaken with (P' := fun _ => True) (Q' := fun snapshot _ => exists n, Snapshot n record = inr snapshot)
      (E' := fun _ => True); [|done..]. intros s _.
    unfold askNode, asking, mbind, M_bind, bind, get, modify, meanwhile, fromResult. cbn.
    destruct (Snapshot _ record) eqn:A; [done|]. by eexists. }
  intros [err|snapshot]; cbv zeta.
  { apply triple_ret. intros s _. cbn. split; [split; [done|by left]|]. by apply withinBudget_offline. }
  apply triple_pre. intros s0 [n An].
  destruct (accept budget snapshot) as [err|budget'] eqn:Ac.
  { apply triple_ret. intros s _. cbn. split; [split; [done|by left]|]. by apply withinBudget_offline. }
  eapply triple_bind with (R := fun _ _ => True).
  { intros s _. by destruct (_ s) as [[|] ?]. }
  intros _. apply triple_ret. intros s _. cbn. split; [split; [done|]|].
  - right. by exists n, snapshot.
  - by eapply accept_within.
Qed.

Lemma fetchNodes_spec records jobs : forall budget out, withinBudget budget out ->
  (forall i item, out !! i = Some item -> exists record, records !! i = Some record /\ reports record item) ->
  triple (fun _ => True) (fetchNodes records jobs budget out)
    (fun out _ => (exists budget, withinBudget budget out) /\
       forall i item, out !! i = Some item -> exists record, records !! i = Some record /\ reports record item)
    (fun _ => True).
Proof.
  induction jobs as [|i jobs IH]; intros budget out W Re; cbn [fetchNodes].
  { apply triple_ret. intros s _. split; [by exists budget|done]. }
  destruct (records !! i) as [record|] eqn:Ri; [|by apply (IH budget)].
  destruct (out !! i) eqn:N; [by apply (IH budget)|].
  eapply triple_bind; [by apply (fetchNode_spec budget out i record)|].
  intros [item budget']. cbn [fst snd]. apply triple_pre. intros s [Rp W'].
  eapply triple_weaken; [apply (IH budget' _ W')|done..].
  intros k item'. destruct (decide (k = i)) as [->|Ne].
  - rewrite lookup_insert_eq. intros [= <-]. by exists record.
  - rewrite lookup_insert_ne by done. apply Re.
Qed.

Lemma processCount_nonneg s : 0 <= processCount s.
Proof. apply sumOf_nonneg, Forall_true. intros. apply llen_nonneg. Qed.
Lemma sumOf_llen_nonneg {A B} (f : A -> list B) l : 0 <= sumOf (fun x => llen (f x)) l.
Proof. apply sumOf_nonneg, Forall_true. intros. apply llen_nonneg. Qed.
Lemma recordCount_nonneg s : 0 <= recordCount s.
Proof.
  unfold recordCount. pose proof (processCount_nonneg s).
  pose proof (sumOf_llen_nonneg AuthorizationView_Command (NodeSnapshot_Authorizations s)).
  pose proof (sumOf_llen_nonneg Lease_Command (NodeSnapshot_Leases s)).
  repeat match goal with |- context [llen ?l] => lazymatch goal with
    | _ : 0 <= llen l |- _ => fail | _ => pose proof (llen_nonneg l) end end. lia.
Qed.
Lemma sizes_nonneg l : 0 <= sizes l.
Proof. induction l as [|x l IH]; [done|]. cbn [sizes foldr]. unfold sizes in IH. pose proof (slen_nonneg x). lia. Qed.
Lemma sumOf_nonneg_all {A} (f : A -> Z) l : (forall x, 0 <= f x) -> 0 <= sumOf f l.
Proof. intros F. apply sumOf_nonneg, Forall_true. apply F. Qed.
Lemma retainedSize_nonneg s : 0 <= retainedSize s.
Proof.
  unfold retainedSize. pose proof (slen_nonneg (NodeSnapshot_Hostname s)).
  repeat apply Z.add_nonneg_nonneg; try done; apply sumOf_nonneg_all; intros x; try apply sizes_nonneg.
  - pose proof (slen_nonneg (GPUSnapshot_State x)).
    apply Z.add_nonneg_nonneg; [done|]. apply sumOf_nonneg_all. intros y. apply slen_nonneg.
  - pose proof (sizes_nonneg (AuthorizationView_Command x)). apply Z.add_nonneg_nonneg; [apply sizes_nonneg|done].
  - pose proof (sizes_nonneg (Lease_Command x)). apply Z.add_nonneg_nonneg; [apply sizes_nonneg|done].
Qed.
Lemma retainedBytes_nonneg s : 0 <= retainedBytes s.
Proof. unfold retainedBytes. pose proof (recordCount_nonneg s). pose proof (retainedSize_nonneg s). lia. Qed.

Lemma withinBudget_start : withinBudget (mkBudget 0 0 0) ∅.
Proof. by split. Qed.

(** The registry that the request finds when it gets to its mutex. *)
Definition registryNow (s : Fleet) : Host * Registry :=
  let s := final meanwhile s in (g_host (f_gateway s), f_registry s).

(** C33. The snapshot of the fleet.  Whatever the nodes answer, and whenever the workers are
    cut short, the snapshot has exactly one item per node that the registry lists when the
    request reads it, in its order; an item is offline and without rows, or it carries a
    snapshot that this node answered; and all items together hold at most 32768 records,
    8192 processes and 32 MiB. *)
Theorem fleet_snapshot_bounded s out s' : fetchFleetSnapshot s = (inr out, s') ->
  exists records, result Registry_List (registryNow s) = inr records /\
    Forall2 reports records out /\
    sumOf (carried recordCount) out <= 32768 /\ sumOf (carried processCount) out <= 8192 /\
    sumOf (carried retainedBytes) out <= 33554432.
Proof.
  intros R.
  assert (triple (fun s1 => s1 = s) fetchFleetSnapshot (fun out _ => exists records,
    result Registry_List (registryNow s) = inr records /\ Forall2 reports records out /\
    exists err m, out = imap (fun i record => filledIn err record (m !! i)) records /\
      exists budget, withinBudget budget m) (fun _ => True)) as T.
  { unfold fetchFleetSnapshot.
    eapply triple_bind with (R := fun records _ => result Registry_List (registryNow s) = inr records).
    { intros s0 ->. unfold withRegistry, noting, onRegistry, registryNow, result, final, mbind, M_bind, bind.
      change (meanwhile s) with (@inr error unit tt, snd (meanwhile s)). cbv beta iota zeta.
      cbn [snd]. by destruct (Registry_List _) as [[e|records] [h rg]]. }
    intros [|record records]; apply triple_pre; intros s0 Rg.
    { apply triple_ret. intros s1 _. exists []. split; [done|]. split; [done|].
      exists None, ∅. split; [done|]. exists (mkBudget 0 0 0). apply withinBudget_start. }
    apply triple_get. intros s1 _. apply triple_anywhere.
    eapply triple_bind; [by apply (fetchNodes_spec _ _ _ ∅ withinBudget_start)|].
    intros m. apply triple_pre. intros s2 [W Re].
    eapply triple_bind with (R := fun _ _ => True); [by intros s3 _|]. intros err.
    apply triple_ret. intros s3 _. exists (record :: records). split; [done|].
    split; [|by exists err, m]. apply Forall2_same_length_lookup. split; [by rewrite length_imap|].
    intros i x y Lx Ly. rewrite list_lookup_imap, Lx in Ly. injection Ly as <-.
    unfold filledIn. destruct (m !! i) as [item|] eqn:I; [|split; [done|by left]].
    destruct (_ =s ""); cbn [negb]; [split; [done|by left]|].
    destruct (Re i item I) as (x' & Lx' & Rp). by simplify_eq. }
  specialize (T s eq_refl). rewrite R in T. destruct T as (records & Rg & Rp & err & m & -> & budget & W).
  exists records. split; [done|]. split; [done|]. destruct W.
  pose proof (filledIn_spent recordCount err records recordCount_nonneg m).
  pose proof (filledIn_spent processCount err records processCount_nonneg m).
  pose proof (filledIn_spent retainedBytes err records retainedBytes_nonneg m).
  unfold maxFleetSnapshotRecords, maxFleetSnapshotProcesses in *.
  change maxFleetSnapshotRetainedSize with 33554432 in *. lia.
Qed.
End budget.


(** * Witnesses *)

(** Two nodes, one of which answers; nothing interferes. *)
#[export] Instance quiet_fleet : FleetElsewhere :=
  Build_FleetElsewhere (fun _ s => s) (fun _ => true) (fun _ => [1; 0]%nat).
#[export] Instance no_history : History := {| historyOn := false; PrepareSession _ := None |}.
Definition alpha_snapshot : NodeSnapshot :=
  mkNodeSnapshot (63700000100 * Second) "alpha"
    [mkGPUSnapshot 0 "nvidia" "H100" "uuid" "busy" None None None [] None None] [] [] [] [] [] [] [].
Definition down : error := ErrorString "connection refused".
#[export] Instance sample_nodes : NodeAPI := {|
  managedClient := true; telemetryClient := true;
  Health _ _ _ := inl down; NodeInfo _ _ := inl down; CreateReservation _ _ _ := inl down;
  ShowKeys _ _ _ := inl down; Allow _ _ _ := inl down; NodeRevoke _ _ _ := inl down;
  SyncNode _ _ _ := inl down;
  Snapshot _ record := if server_ID record =s "srv_1" then inr alpha_snapshot else inl down |}.
Definition sample_fleet : Fleet :=
  mkFleet sample_gateway (mkRegistry "/servers.json" false true [sample_node; other_node]) ∅ [] 0 false
    None ∅ 0 0 0 [].

Definition sample_fetch : (error + fleetSnapshot) * Fleet :=
  @fetchFleetSnapshot quiet_elsewhere sample_url sample_servers sample_nodes quiet_fleet no_history sample_fleet.

Lemma fleet_snapshot_bounded_witness :
  match fst sample_fetch with
  | inr out => map (fun item => (pubserver_ID (ss_Server item), ss_Online item)) out =
                 [("srv_1", true); ("srv_2", false)] /\ sumOf (carried recordCount) out <= 32768
  | inl _ => False
  end.
Proof.
  destruct sample_fetch as [[e|out] s'] eqn:E.
  - apply (f_equal (fun x => match fst x with inl _ => true | inr _ => false end)) in E.
    vm_compute in E. discriminate E.
  - cbn [fst]. split.
    + apply (f_equal (fun x => match fst x with
        | inr out => map (fun item => (pubserver_ID (ss_Server item), ss_Online item)) out
        | inl _ => [] end)) in E. cbn [fst] in E. rewrite <- E. vm_compute. reflexivity.
    + destruct (@fleet_snapshot_bounded quiet_elsewhere sample_url sample_servers sample_nodes quiet_fleet
        no_history sample_fleet out s' E) as (records & _ & _ & B & _). exact B.
Defined.
