(* ===== verification/HistoryStore.v ===== *)
(** internal/history/types.go, store.go, query.go and ingest.go: the history database of
    the gateway, as the statements it makes to SQLite and what it does with the answers.

    SQLite and the conversions of database/sql are parameters ([Database]); each
    statement is a numbered question.  [j_log] is a history variable: the statements so
    far, oldest first, that nothing reads.  [writeMu] makes each method that writes one
    step; a transaction is what lies between [Begun] and [Committed] or [RolledBack]. *)

From S2P Require Export WebSession Outbox Telemetry.
#[global] Open Scope Z_scope.

(** * Data *)

Record Artifact : Type := mkArtifact { Artifact_Label : string; Artifact_URL : string }.
Record Result : Type := mkResult
  { Result_Outcome : string; Result_Note : string; Result_Artifacts : list Artifact;
    Result_Version : Z; Result_UpdatedAt : option time }.
Definition Result_zero : Result := mkResult "" "" [] 0 None.
Record GPUSummary : Type := mkGPUSummary
  { GPUSummary_GPU : Z; GPUSummary_ObservedMS : Z; GPUSummary_BusyMS : Z;
    GPUSummary_AverageUtilization : option float64; GPUSummary_Coverage : float64;
    GPUSummary_AverageMemoryBytes : option float64; GPUSummary_PeakMemoryBytes : option Z;
    GPUSummary_ValidSamples : Z; GPUSummary_MissingSamples : Z }.
Record MinuteRollup : Type := mkMinuteRollup
  { MinuteRollup_GPU : Z; MinuteRollup_Minute : time; MinuteRollup_ObservedMS : Z;
    MinuteRollup_BusyMS : Z; MinuteRollup_AverageUtilization : option float64 }.
Record AuthorizationScope : Type := mkAuthorizationScope
  { AuthorizationScope_Mode : string; AuthorizationScope_Holder : string;
    AuthorizationScope_Selector : string; AuthorizationScope_Command : list string;
    AuthorizationScope_CreatedAt : time; AuthorizationScope_ExpiresAt : option time;
    AuthorizationScope_EndedAt : option time; AuthorizationScope_EndReason : string }.
Record Session : Type := mkSession
  { Session_ID : string; Session_Kind : string; Session_ServerID : string;
    Session_ServerName : string; Session_NodeID : string; Session_Owner : string;
    Session_ResultEditable : bool; Session_Purpose : string; Session_Source : string;
    Session_CreatedAt : time; Session_StartsAt : time; Session_ExpiresAt : time;
    Session_RevokedAt : option time; Session_FinalizedAt : option time; Session_Status : string;
    Session_HistoryQuality : string; Session_GPUs : list Z;
    Session_GPUSummaries : list GPUSummary; Session_Timeline : list MinuteRollup;
    Session_Authorizations : list AuthorizationScope; Session_JobCount : Z;
    Session_FirstJobAt : option time; Session_LastJobAt : option time; Session_Result : Result }.
Record Job : Type := mkJob
  { Job_ID : string; Job_CursorID : string; Job_Source : string; Job_Mode : string;
    Job_Holder : string; Job_Command : list string; Job_GPUs : list Z;
    Job_StartedAt : option time; Job_RootExitedAt : option time; Job_FinishedAt : option time;
    Job_StartPrecision : string; Job_FinishPrecision : string; Job_ExitCode : option Z;
    Job_Reason : string }.
Record DashboardSummary : Type := mkDashboardSummary
  { Summary_Sessions : Z; Summary_Reservations : Z; Summary_ClaimedRuns : Z;
    Summary_ReservedGPUHours : float64; Summary_BusyGPUHours : float64;
    Summary_BusyRatio : float64; Summary_AverageUtilization : option float64;
    Summary_TelemetryCoverage : float64; Summary_Jobs : Z }.
Record SessionFilter : Type := mkSessionFilter
  { Filter_ServerID : string; Filter_Owner : string; Filter_Status : string;
    Filter_From : option time; Filter_To : option time; Filter_Limit : Z;
    Filter_BeforeMS : Z; Filter_BeforeID : string }.

Definition OutcomeSuccess : string := "success".
Definition OutcomePartial : string := "partial".
Definition OutcomeFailed : string := "failed".
Definition OutcomeAborted : string := "aborted".

Definition errHistoryNotFound : string := "history session not found".
Definition ErrHistoryNotFound : error := ErrorString errHistoryNotFound.
Definition errHistoryForbidden : string := "history result can only be edited by its owner".
Definition ErrHistoryForbidden : error := ErrorString errHistoryForbidden.
Definition errVersionConflict : string := "history result version conflict".
Definition ErrVersionConflict : error := ErrorString errVersionConflict.

(** Double precision arithmetic. *)
Definition float_mul : float64 -> float64 -> float64 := SpecFloat.SFmul 53 1024.
Definition float_div : float64 -> float64 -> float64 := SpecFloat.SFdiv 53 1024.
Definition float_leb : float64 -> float64 -> bool := SpecFloat.SFleb.
Definition float_ltb : float64 -> float64 -> bool := SpecFloat.SFltb.
Definition float_zero : float64 := SpecFloat.S754_zero false.

(** * Statements *)

(** A value that is bound to a placeholder, or comes in a row. *)
Inductive sqlValue : Type :=
  | VNull | VInt (z : Z) | VReal (x : float64) | VText (s : string) | VBool (b : bool).

Inductive sqlCall : Type :=
  | Begun | Queried (sql : string) (args : list sqlValue)
  | Executed (sql : string) (args : list sqlValue) | Committed | RolledBack.

(** The answers to the questions by their number, the clock, and the conversions of
    [Scan] to the types the code scans into.  [execOf] answers the rows affected. *)
Class Database : Type := {
  beginOf : nat -> option error;
  rowsOf : nat -> error + list (list sqlValue);
  execOf : nat -> error + Z;
  commitOf : nat -> option error;
  clockAt : nat -> time;
  scanText : sqlValue -> error + string;
  scanInt : sqlValue -> error + Z;
  scanReal : sqlValue -> error + float64;
  scanBool : sqlValue -> error + bool;
  scanNullInt : sqlValue -> error + option Z;
  scanNullReal : sqlValue -> error + option float64;
  scanNullText : sqlValue -> error + option string
}.

(** encoding/json on what the events carry and the database holds; the error of reading
    a command is ignored. *)
Class HistoryJSON : Type := {
  ReadCommand : string -> list string;
  WriteCommand : list string -> string;
  ReadReservationUpsert : string -> error + ReservationUpsert;
  ReadReservationEnded : string -> error + ReservationEnded;
  ReadAuthorizationUpsert : string -> error + AuthorizationUpsert;
  ReadAuthorizationEnded : string -> error + AuthorizationEnded;
  ReadJobEvent : string -> error + JobEvent;
  ReadGPUSample : string -> error + GPUSample;
  ReadGap : string -> error + Gap
}.

Record Journal : Type := mkJournal { j_turn : nat; j_log : list (nat * sqlCall) }.

Definition star : string := "*".
Definition errNoRows : string := "sql: no rows in result set".
Definition ErrNoRows : error := ErrorString errNoRows.
Definition errColumns : error := ErrorString "sql: wrong number of destination arguments in Scan".

Section history.
Context `{Database} `{HistoryJSON}.

Definition called (call : sqlCall) : M Journal nat := fun j =>
  (inr (j_turn j), mkJournal (S (j_turn j)) (j_log j ++ [(j_turn j, call)])).
Definition dbNow : M Journal time := fun j =>
  (inr (clockAt (j_turn j)), mkJournal (S (j_turn j)) (j_log j)).

Definition query (sql : string) (args : list sqlValue) : M Journal (list (list sqlValue)) :=
  n ← called (Queried sql args); fromResult (rowsOf n).
(** [QueryRow] and [Scan]. *)
Definition queryRow {A} (sql : string) (args : list sqlValue) (scan : list sqlValue -> error + A)
    : M Journal A :=
  rows ← query sql args;
  match rows with
  | [] => throw ErrNoRows
  | row :: _ => fromResult (scan row)
  end.
(** [QueryRow] where no row is not an error. *)
Definition queryRowOpt {A} (sql : string) (args : list sqlValue) (scan : list sqlValue -> error + A)
    : M Journal (option A) :=
  r ← try (queryRow sql args scan);
  match r with
  | inr a => ret (Some a)
  | inl err => if errors_Is err errNoRows then ret None else throw err
  end.
Definition exec (sql : string) (args : list sqlValue) : M Journal Z :=
  n ← called (Executed sql args); fromResult (execOf n).
(** A row of one column. *)
Definition scanOne {A} (scan : sqlValue -> error + A) (row : list sqlValue) : error + A :=
  match row with [x] => scan x | _ => inl errColumns end.
Definition run (sql : string) (args : list sqlValue) : M Journal unit := exec sql args ;; ret tt.
(** [tx.Commit]. *)
Definition commit : M Journal unit := n ← called Committed; check (commitOf n).
(** [BeginTx], the body, and the deferred [Rollback], which does nothing after a commit. *)
Definition inTx {A} (body : M Journal A) : M Journal A :=
  n ← called Begun;
  check (beginOf n) ;;
  r ← try body;
  called RolledBack ;;
  fromResult r.

(** * store.go *)

(** [Time.UnixMilli], and back. *)
Definition UnixMilli (t : time) : Z := t / Millisecond - unixEpoch * 1000.
Definition millis (value : time) : Z := UnixMilli value.
Definition timeFromMillis (value : Z) : time := (value + unixEpoch * 1000) * Millisecond.
Definition timePtrFromNull (value : option Z) : option time := option_map timeFromMillis value.
Definition nullableMillis (value : option time) : sqlValue :=
  match value with
  | Some t => if IsZero t then VNull else VInt (millis t)
  | None => VNull
  end.

Definition nul : string := string_of_bytes [0].
Definition digestID (prefix a b : string) : string :=
  prefix +:+ HexEncode (take 12 (Sum256 (bytes_of_string (a +:+ nul +:+ b)))).
Definition sessionID (nodeID groupID : string) : string := digestID "sess_" nodeID groupID.
Definition publicJobID (nodeID jobID : string) : string := digestID "job_" nodeID jobID.

Definition RecordManagedKeySync (serverID snapshotID syncError : string) (syncedAt : time)
    : M Journal unit :=
  run "INSERT INTO managed_key_sync_state(server_id,snapshot_id,synced_at_ms,sync_error)
		VALUES(?,?,?,?) ON CONFLICT(server_id) DO UPDATE SET snapshot_id=excluded.snapshot_id,
		synced_at_ms=excluded.synced_at_ms,sync_error=excluded.sync_error"
    [VText serverID; VText snapshotID; if IsZero syncedAt then VNull else VInt (UnixMilli syncedAt);
     VText syncError].

(** ** The schema *)

Definition migrationV1 : string := "
CREATE TABLE IF NOT EXISTS schema_migrations (
  version INTEGER PRIMARY KEY,
  checksum TEXT NOT NULL,
  applied_at_ms INTEGER NOT NULL
);
CREATE TABLE IF NOT EXISTS nodes (
  node_id TEXT PRIMARY KEY,
  hostname TEXT NOT NULL DEFAULT '',
  last_server_id TEXT NOT NULL,
  first_seen_at_ms INTEGER NOT NULL,
  last_seen_at_ms INTEGER NOT NULL
);
CREATE TABLE IF NOT EXISTS node_sync_state (
  server_id TEXT PRIMARY KEY,
  node_id TEXT NOT NULL REFERENCES nodes(node_id),
  stream_id TEXT NOT NULL,
  cursor TEXT NOT NULL DEFAULT '',
  last_seq INTEGER NOT NULL DEFAULT 0,
  last_sync_at_ms INTEGER,
  sync_error TEXT NOT NULL DEFAULT '',
  gap_at_ms INTEGER
);
CREATE TABLE IF NOT EXISTS ingested_event_ids (
  node_id TEXT NOT NULL,
  stream_id TEXT NOT NULL,
  seq INTEGER NOT NULL,
  ingested_at_ms INTEGER NOT NULL,
  PRIMARY KEY(node_id, stream_id, seq)
);
CREATE TABLE IF NOT EXISTS reservation_sessions (
  session_id TEXT PRIMARY KEY,
  node_id TEXT NOT NULL REFERENCES nodes(node_id),
  server_id TEXT NOT NULL,
  server_name TEXT NOT NULL,
  group_id TEXT NOT NULL,
  owner_username TEXT NOT NULL COLLATE NOCASE,
  owner_editable INTEGER NOT NULL DEFAULT 0,
  purpose TEXT NOT NULL DEFAULT '',
  source TEXT NOT NULL CHECK(source IN ('web','cli')),
  created_at_ms INTEGER NOT NULL,
  starts_at_ms INTEGER NOT NULL,
  expires_at_ms INTEGER NOT NULL,
  revoked_at_ms INTEGER,
  finalized_at_ms INTEGER,
  history_quality TEXT NOT NULL DEFAULT 'complete' CHECK(history_quality IN ('complete','partial')),
  provisioning INTEGER NOT NULL DEFAULT 0,
  updated_at_ms INTEGER NOT NULL,
  UNIQUE(node_id, group_id),
  CHECK(expires_at_ms > starts_at_ms)
);
CREATE INDEX IF NOT EXISTS sessions_start_idx ON reservation_sessions(starts_at_ms DESC, session_id DESC);
CREATE INDEX IF NOT EXISTS sessions_owner_idx ON reservation_sessions(owner_username, starts_at_ms DESC);
CREATE INDEX IF NOT EXISTS sessions_server_idx ON reservation_sessions(server_id, starts_at_ms DESC);
CREATE TABLE IF NOT EXISTS session_gpus (
  session_id TEXT NOT NULL REFERENCES reservation_sessions(session_id) ON DELETE CASCADE,
  gpu INTEGER NOT NULL,
  reservation_id TEXT NOT NULL,
  PRIMARY KEY(session_id, gpu),
  UNIQUE(session_id, reservation_id)
);
CREATE TABLE IF NOT EXISTS authorization_scopes (
  node_id TEXT NOT NULL REFERENCES nodes(node_id),
  authorization_id TEXT NOT NULL,
  session_id TEXT REFERENCES reservation_sessions(session_id),
  mode TEXT NOT NULL,
  holder TEXT NOT NULL,
  selector TEXT NOT NULL DEFAULT '',
  command_json TEXT NOT NULL DEFAULT '[]',
  created_at_ms INTEGER NOT NULL,
  expires_at_ms INTEGER,
  ended_at_ms INTEGER,
  end_reason TEXT NOT NULL DEFAULT '',
  PRIMARY KEY(node_id, authorization_id)
);
CREATE TABLE IF NOT EXISTS jobs (
  node_id TEXT NOT NULL REFERENCES nodes(node_id),
  job_id TEXT NOT NULL,
  session_id TEXT NOT NULL REFERENCES reservation_sessions(session_id) ON DELETE CASCADE,
  authorization_id TEXT NOT NULL,
  source TEXT NOT NULL CHECK(source IN ('gpuardian_run','authorized_process')),
  mode TEXT NOT NULL,
  holder TEXT NOT NULL,
  command_json TEXT NOT NULL DEFAULT '[]',
  started_at_ms INTEGER,
  root_exited_at_ms INTEGER,
  finished_at_ms INTEGER,
  start_precision TEXT NOT NULL DEFAULT '',
  finish_precision TEXT NOT NULL DEFAULT '',
  exit_code INTEGER,
  end_reason TEXT NOT NULL DEFAULT '',
  updated_at_ms INTEGER NOT NULL,
  PRIMARY KEY(node_id, job_id)
);
CREATE INDEX IF NOT EXISTS jobs_session_idx ON jobs(session_id, started_at_ms, job_id);
CREATE TABLE IF NOT EXISTS job_gpus (
  node_id TEXT NOT NULL,
  job_id TEXT NOT NULL,
  gpu INTEGER NOT NULL,
  PRIMARY KEY(node_id, job_id, gpu),
  FOREIGN KEY(node_id, job_id) REFERENCES jobs(node_id, job_id) ON DELETE CASCADE
);
CREATE TABLE IF NOT EXISTS gpu_minute_rollups (
  session_id TEXT NOT NULL REFERENCES reservation_sessions(session_id) ON DELETE CASCADE,
  gpu INTEGER NOT NULL,
  minute_ms INTEGER NOT NULL,
  observed_ms INTEGER NOT NULL DEFAULT 0,
  busy_ms INTEGER NOT NULL DEFAULT 0,
  utilization_integral REAL NOT NULL DEFAULT 0,
  memory_integral REAL NOT NULL DEFAULT 0,
  memory_observed_ms INTEGER NOT NULL DEFAULT 0,
  peak_memory_bytes INTEGER,
  valid_samples INTEGER NOT NULL DEFAULT 0,
  missing_samples INTEGER NOT NULL DEFAULT 0,
  PRIMARY KEY(session_id, gpu, minute_ms)
);
CREATE TABLE IF NOT EXISTS session_gpu_summaries (
  session_id TEXT NOT NULL REFERENCES reservation_sessions(session_id) ON DELETE CASCADE,
  gpu INTEGER NOT NULL,
  observed_ms INTEGER NOT NULL DEFAULT 0,
  busy_ms INTEGER NOT NULL DEFAULT 0,
  utilization_integral REAL NOT NULL DEFAULT 0,
  memory_integral REAL NOT NULL DEFAULT 0,
  memory_observed_ms INTEGER NOT NULL DEFAULT 0,
  peak_memory_bytes INTEGER,
  valid_samples INTEGER NOT NULL DEFAULT 0,
  missing_samples INTEGER NOT NULL DEFAULT 0,
  PRIMARY KEY(session_id, gpu),
  FOREIGN KEY(session_id, gpu) REFERENCES session_gpus(session_id, gpu) ON DELETE CASCADE
);
CREATE TABLE IF NOT EXISTS session_results (
  session_id TEXT PRIMARY KEY REFERENCES reservation_sessions(session_id) ON DELETE CASCADE,
  outcome TEXT,
  note TEXT NOT NULL DEFAULT '',
  version INTEGER NOT NULL DEFAULT 0,
  updated_at_ms INTEGER,
  CHECK(outcome IS NULL OR outcome IN ('success','partial','failed','aborted'))
);
CREATE TABLE IF NOT EXISTS session_artifacts (
  session_id TEXT NOT NULL REFERENCES session_results(session_id) ON DELETE CASCADE,
  position INTEGER NOT NULL,
  label TEXT NOT NULL,
  url TEXT NOT NULL,
  PRIMARY KEY(session_id, position)
);
".
Definition migrationV2 : string := "
CREATE TABLE IF NOT EXISTS authorization_sessions (
  node_id TEXT NOT NULL,
  authorization_id TEXT NOT NULL,
  session_id TEXT NOT NULL REFERENCES reservation_sessions(session_id) ON DELETE CASCADE,
  PRIMARY KEY(node_id, authorization_id, session_id)
);
CREATE INDEX IF NOT EXISTS authorization_sessions_session_idx ON authorization_sessions(session_id, authorization_id);
INSERT OR IGNORE INTO authorization_sessions(node_id,authorization_id,session_id)
  SELECT node_id,authorization_id,session_id FROM authorization_scopes WHERE session_id IS NOT NULL;
CREATE TABLE IF NOT EXISTS job_sessions (
  node_id TEXT NOT NULL,
  job_id TEXT NOT NULL,
  session_id TEXT NOT NULL REFERENCES reservation_sessions(session_id) ON DELETE CASCADE,
  PRIMARY KEY(node_id, job_id, session_id),
  FOREIGN KEY(node_id,job_id) REFERENCES jobs(node_id,job_id) ON DELETE CASCADE
);
CREATE INDEX IF NOT EXISTS job_sessions_session_idx ON job_sessions(session_id, job_id);
INSERT OR IGNORE INTO job_sessions(node_id,job_id,session_id)
  SELECT node_id,job_id,session_id FROM jobs;
CREATE TABLE IF NOT EXISTS managed_key_sync_state (
  server_id TEXT PRIMARY KEY,
  snapshot_id TEXT NOT NULL DEFAULT '',
  synced_at_ms INTEGER,
  sync_error TEXT NOT NULL DEFAULT ''
);
".
Definition migrationV3 : string := "
ALTER TABLE reservation_sessions ADD COLUMN kind TEXT NOT NULL DEFAULT 'reservation'
  CHECK(kind IN ('reservation','claimed_run'));
CREATE INDEX IF NOT EXISTS sessions_kind_idx ON reservation_sessions(kind, starts_at_ms DESC);
".
Definition migrationV4 : string := "
CREATE TABLE IF NOT EXISTS node_gpu_minute_rollups (
  node_id TEXT NOT NULL REFERENCES nodes(node_id) ON DELETE CASCADE,
  gpu INTEGER NOT NULL,
  minute_ms INTEGER NOT NULL,
  observed_ms INTEGER NOT NULL DEFAULT 0,
  busy_ms INTEGER NOT NULL DEFAULT 0,
  utilization_integral REAL NOT NULL DEFAULT 0,
  valid_samples INTEGER NOT NULL DEFAULT 0,
  missing_samples INTEGER NOT NULL DEFAULT 0,
  PRIMARY KEY(node_id, gpu, minute_ms)
);
INSERT OR IGNORE INTO node_gpu_minute_rollups(
  node_id,gpu,minute_ms,observed_ms,busy_ms,utilization_integral,valid_samples,missing_samples
)
SELECT r.node_id,g.gpu,g.minute_ms,SUM(g.observed_ms),SUM(g.busy_ms),SUM(g.utilization_integral),
  SUM(g.valid_samples),SUM(g.missing_samples)
FROM gpu_minute_rollups g
JOIN reservation_sessions r ON r.session_id=g.session_id
WHERE r.kind='reservation'
GROUP BY r.node_id,g.gpu,g.minute_ms;
CREATE INDEX IF NOT EXISTS node_gpu_rollups_time_idx ON node_gpu_minute_rollups(minute_ms);
".
Definition migrations : list string := [migrationV1; migrationV2; migrationV3; migrationV4].

Fixpoint configureWith (statements : list string) : M Journal unit :=
  match statements with
  | [] => ret tt
  | statement :: rest =>
      r ← try (run statement []);
      match r with
      | inl err => throw (Errorf "configure sqlite: %w" [AErr err])
      | inr _ => configureWith rest
      end
  end.
Definition pragmas : list string :=
  ["PRAGMA journal_mode=WAL"; "PRAGMA synchronous=FULL"; "PRAGMA foreign_keys=ON"; "PRAGMA busy_timeout=5000"; "PRAGMA trusted_schema=OFF"].
Definition configure : M Journal unit := configureWith pragmas.

Definition checksumOf (migration : string) : string := HexEncode (Sum256 (bytes_of_string migration)).
Definition applyMigration (version : Z) (migration : string) : M Journal unit :=
  r ← try (run migration []);
  match r with
  | inl err => throw (Errorf "apply history migration v%d: %w" [AInt version; AErr err])
  | inr _ => ret tt
  end.
(** The migrations from number [version] on. *)
Fixpoint migrateFrom (version : Z) (migrations : list string) : M Journal unit :=
  match migrations with
  | [] => ret tt
  | migration :: rest =>
      (if version =? 1 then applyMigration version migration else ret tt) ;;
      let checksum := checksumOf migration in
      existing ← queryRowOpt "SELECT checksum FROM schema_migrations WHERE version=?" [VInt version] (scanOne scanText);
      match existing with
      | None =>
          (if negb (version =? 1) then applyMigration version migration else ret tt) ;;
          t ← dbNow;
          run "INSERT INTO schema_migrations(version,checksum,applied_at_ms) VALUES(?,?,?)" [VInt version; VText checksum; VInt (UnixMilli t)]
      | Some existing =>
          fail_if (existing <>s checksum) (Errorf "history migration v%d checksum mismatch" [AInt version])
      end ;;
      migrateFrom (version + 1) rest
  end.
Definition migrate : M Journal unit :=
  inTx (
    migrateFrom 1 migrations ;;
    newest ← queryRow "SELECT COALESCE(MAX(version),0) FROM schema_migrations" [] (scanOne scanInt);
    fail_if (llen migrations <? newest) (Errorf "history database schema %d is newer than this binary" [AInt newest]) ;;
    commit).

(** * query.go *)

Definition validateOutcome (value : string) : bool :=
  (value =s "") || (value =s OutcomeSuccess) || (value =s OutcomePartial) ||
  (value =s OutcomeFailed) || (value =s OutcomeAborted).

Fixpoint validateArtifacts (artifacts : list Artifact) : option error :=
  match artifacts with
  | [] => None
  | artifact :: rest =>
      if (128 <? slen (Artifact_Label artifact)) || (2048 <? slen (Artifact_URL artifact))
      then Some (ErrorString "artifact label or URL is too long")
      else if negb (HasPrefix (Artifact_URL artifact) "https://") &&
              negb (HasPrefix (Artifact_URL artifact) "http://")
      then Some (ErrorString "artifact URL must use http or https")
      else validateArtifacts rest
  end.
Definition ValidateResult (outcome note : string) (artifacts : list Artifact) : option error :=
  if negb (validateOutcome outcome) then Some (ErrorString "outcome must be success, partial, failed, aborted, or empty")
  else if Z.shiftl 16 10 <? slen note then Some (ErrorString "note must be at most 16384 bytes")
  else if 20 <? llen artifacts then Some (ErrorString "at most 20 artifacts are allowed")
  else match validateArtifacts artifacts with
       | Some err => Some err
       | None => if existsb (fun b => b =? 0) (bytes_of_string note)
                 then Some (ErrorString "note contains NUL") else None
       end.

(** What [ListSessions] and [Summary] ask for: clauses with their arguments. *)
Definition clauses : Type := list (string * list sqlValue).
Definition clauseText (l : clauses) : string := foldr (fun c rest => fst c +:+ rest) "" l.
Definition clauseArgs (l : clauses) : list sqlValue := concat (map snd l).

Definition filterClauses (filter : SessionFilter) : clauses :=
  (if Filter_ServerID filter <>s "" then [(" AND r.server_id=?", [VText (Filter_ServerID filter)])] else []) ++
  (if Filter_Owner filter <>s "" then [(" AND r.owner_username=? COLLATE NOCASE", [VText (Filter_Owner filter)])] else []) ++
  match Filter_From filter with Some t => [(" AND r.expires_at_ms>=?", [VInt (millis t)])] | None => [] end ++
  match Filter_To filter with Some t => [(" AND r.starts_at_ms<?", [VInt (millis t)])] | None => [] end.
Definition statusClauses (status : string) (now : Z) : clauses :=
  if status =s "scheduled" then [(" AND r.kind='reservation' AND r.revoked_at_ms IS NULL AND r.starts_at_ms>?", [VInt now])]
  else if status =s "active" then [(" AND ((r.kind='claimed_run' AND r.finalized_at_ms IS NULL) OR (r.kind='reservation' AND r.revoked_at_ms IS NULL AND r.starts_at_ms<=? AND r.expires_at_ms>?))", [VInt now; VInt now])]
  else if status =s "completed" then [(" AND ((r.kind='claimed_run' AND r.finalized_at_ms IS NOT NULL) OR (r.kind='reservation' AND r.revoked_at_ms IS NULL AND r.expires_at_ms<=?))", [VInt now])]
  else if status =s "revoked" then [(" AND r.kind='reservation' AND r.revoked_at_ms IS NOT NULL", [])]
  else [].
Definition beforeClauses (filter : SessionFilter) : clauses :=
  if 0 <? Filter_BeforeMS filter
  then [(" AND (r.starts_at_ms<? OR (r.starts_at_ms=? AND r.session_id<?))",
         [VInt (Filter_BeforeMS filter); VInt (Filter_BeforeMS filter); VText (Filter_BeforeID filter)])]
  else [].

(** [limit <= 0] takes the default, [limit > 100] the largest. *)
Definition boundedLimit (limit default_ : Z) : Z :=
  if limit <=? 0 then default_ else if 100 <? limit then 100 else limit.

Definition sessionStatus (item : Session) (now : time) : string :=
  if Session_Kind item =s "claimed_run" then
    match Session_FinalizedAt item with None => "active" | Some _ => "completed" end
  else match Session_RevokedAt item with
       | Some _ => "revoked"
       | None => if Before now (Session_StartsAt item) then "scheduled"
                 else if Before now (Session_ExpiresAt item) then "active" else "completed"
       end.

Definition withStatus (status : string) (s : Session) : Session :=
  mkSession (Session_ID s) (Session_Kind s) (Session_ServerID s) (Session_ServerName s)
    (Session_NodeID s) (Session_Owner s) (Session_ResultEditable s) (Session_Purpose s)
    (Session_Source s) (Session_CreatedAt s) (Session_StartsAt s) (Session_ExpiresAt s)
    (Session_RevokedAt s) (Session_FinalizedAt s) status (Session_HistoryQuality s)
    (Session_GPUs s) (Session_GPUSummaries s) (Session_Timeline s) (Session_Authorizations s)
    (Session_JobCount s) (Session_FirstJobAt s) (Session_LastJobAt s) (Session_Result s).
Definition withDetails (gpus : list Z) (summaries : list GPUSummary) (timeline : list MinuteRollup)
    (authorizations : list AuthorizationScope) (r : Result) (s : Session) : Session :=
  mkSession (Session_ID s) (Session_Kind s) (Session_ServerID s) (Session_ServerName s)
    (Session_NodeID s) (Session_Owner s) (Session_ResultEditable s) (Session_Purpose s)
    (Session_Source s) (Session_CreatedAt s) (Session_StartsAt s) (Session_ExpiresAt s)
    (Session_RevokedAt s) (Session_FinalizedAt s) (Session_Status s) (Session_HistoryQuality s)
    gpus summaries timeline authorizations
    (Session_JobCount s) (Session_FirstJobAt s) (Session_LastJobAt s) r.

Definition scanSessionRow (row : list sqlValue) : error + Session :=
  match row with
  | [id; kind; server; name; node; owner; editable; purpose; source; created; starts; expires;
     revoked; finalized; quality; jobs; firstJob; lastJob] =>
      id ← scanText id; kind ← scanText kind; server ← scanText server; name ← scanText name;
      node ← scanText node; owner ← scanText owner; editable ← scanBool editable;
      purpose ← scanText purpose; source ← scanText source; created ← scanInt created;
      starts ← scanInt starts; expires ← scanInt expires; revoked ← scanNullInt revoked;
      finalized ← scanNullInt finalized; quality ← scanText quality; jobs ← scanInt jobs;
      firstJob ← scanNullInt firstJob; lastJob ← scanNullInt lastJob;
      inr (mkSession id kind server name node owner editable purpose source (timeFromMillis created)
             (timeFromMillis starts) (timeFromMillis expires) (timePtrFromNull revoked)
             (timePtrFromNull finalized) "" quality [] [] [] [] jobs (timePtrFromNull firstJob)
             (timePtrFromNull lastJob) Result_zero)
  | _ => inl errColumns
  end.
Definition scanSession (row : list sqlValue) : M Journal Session :=
  item ← fromResult (scanSessionRow row);
  now ← dbNow;
  ret (withStatus (sessionStatus item now) item).
Fixpoint scanSessions (rows : list (list sqlValue)) : M Journal (list Session) :=
  match rows with
  | [] => ret []
  | row :: rows => item ← scanSession row; items ← scanSessions rows; ret (item :: items)
  end.


Definition sessionGPUs (id : string) : M Journal (list Z) :=
  rows ← query "SELECT gpu FROM session_gpus WHERE session_id=? ORDER BY gpu" [VText id];
  fromResult (mapM (scanOne scanInt) rows).

(** The milliseconds of a session that have passed, as [gpuSummaries] counts them. *)
Definition effectiveEndOf (session : Session) (now : time) : time :=
  let effectiveEnd := Session_ExpiresAt session in
  let effectiveEnd := match Session_FinalizedAt session with
    | Some t => if Session_Kind session =s "claimed_run" then t else effectiveEnd
    | None => effectiveEnd
    end in
  let effectiveEnd := match Session_RevokedAt session with
    | Some t => if Before t effectiveEnd then t else effectiveEnd
    | None => effectiveEnd
    end in
  if (Session_Kind session =s "reservation") && Before now effectiveEnd then now else effectiveEnd.
Definition Milliseconds (d : duration) : Z := Z.quot d Millisecond.
Definition reservedMS (session : Session) (now : time) : Z :=
  Z.max 0 (Milliseconds (TimeSub (effectiveEndOf session now) (Session_StartsAt session))).
Definition averageOf (integral : float64) (count : Z) : option float64 :=
  if 0 <? count then Some (float_div integral (float_of_Z count)) else None.

Definition scanGPUSummary (reserved : Z) (row : list sqlValue) : error + GPUSummary :=
  match row with
  | [gpu; observed; busy; utilization; memory; memoryObserved; peak; valid; missing] =>
      gpu ← scanInt gpu; observed ← scanInt observed; busy ← scanInt busy;
      utilization ← scanReal utilization; memory ← scanReal memory;
      memoryObserved ← scanInt memoryObserved; peak ← scanNullInt peak; valid ← scanInt valid;
      missing ← scanInt missing;
      inr (mkGPUSummary gpu observed busy (averageOf utilization observed)
             (if 0 <? reserved then float_div (float_of_Z observed) (float_of_Z reserved) else float_zero)
             (averageOf memory memoryObserved) (option_map (fun v => v mod 2 ^ 64) peak) valid missing)
  | _ => inl errColumns
  end.
Definition gpuSummaries (session : Session) : M Journal (list GPUSummary) :=
  rows ← query "SELECT gpu,observed_ms,busy_ms,utilization_integral,memory_integral,memory_observed_ms,
		peak_memory_bytes,valid_samples,missing_samples FROM session_gpu_summaries WHERE session_id=? ORDER BY gpu" [VText (Session_ID session)];
  now ← (if Session_Kind session =s "reservation" then dbNow else ret 0);
  fromResult (mapM (scanGPUSummary (reservedMS session now)) rows).

Definition scanMinute (row : list sqlValue) : error + MinuteRollup :=
  match row with
  | [gpu; minute; observed; busy; integral] =>
      gpu ← scanInt gpu; minute ← scanInt minute; observed ← scanInt observed; busy ← scanInt busy;
      integral ← scanReal integral;
      inr (mkMinuteRollup gpu (timeFromMillis minute) observed busy (averageOf integral observed))
  | _ => inl errColumns
  end.
Definition timeline (id : string) : M Journal (list MinuteRollup) :=
  rows ← query "SELECT gpu,minute_ms,observed_ms,busy_ms,utilization_integral
		FROM gpu_minute_rollups WHERE session_id=? ORDER BY minute_ms,gpu" [VText id];
  fromResult (mapM scanMinute rows).

Definition scanScope (row : list sqlValue) : error + AuthorizationScope :=
  match row with
  | [mode; holder; selector; command; created; expires; ended; reason] =>
      mode ← scanText mode; holder ← scanText holder; selector ← scanText selector;
      command ← scanText command; created ← scanInt created; expires ← scanNullInt expires;
      ended ← scanNullInt ended; reason ← scanText reason;
      inr (mkAuthorizationScope mode holder selector (ReadCommand command) (timeFromMillis created)
             (timePtrFromNull expires) (timePtrFromNull ended) reason)
  | _ => inl errColumns
  end.
Definition authorizationScopes (id : string) : M Journal (list AuthorizationScope) :=
  rows ← query "SELECT mode,holder,selector,command_json,created_at_ms,expires_at_ms,ended_at_ms,end_reason
		FROM authorization_scopes a WHERE a.session_id=? OR EXISTS (
			SELECT 1 FROM authorization_sessions s WHERE s.node_id=a.node_id AND s.authorization_id=a.authorization_id AND s.session_id=?
		) ORDER BY created_at_ms" [VText id; VText id];
  fromResult (mapM scanScope rows).

Definition scanResultRow (row : list sqlValue) : error + Result :=
  match row with
  | [outcome; note; version; updated] =>
      outcome ← scanNullText outcome; note ← scanText note; version ← scanInt version;
      updated ← scanNullInt updated;
      inr (mkResult (default "" outcome) note [] version (timePtrFromNull updated))
  | _ => inl errColumns
  end.
Definition scanArtifact (row : list sqlValue) : error + Artifact :=
  match row with
  | [label; url] => label ← scanText label; url ← scanText url; inr (mkArtifact label url)
  | _ => inl errColumns
  end.
Definition resultOf (id : string) : M Journal Result :=
  out ← queryRowOpt "SELECT outcome,note,version,updated_at_ms FROM session_results WHERE session_id=?" [VText id] scanResultRow;
  match out with
  | None => ret Result_zero
  | Some out =>
      rows ← query "SELECT label,url FROM session_artifacts WHERE session_id=? ORDER BY position" [VText id];
      artifacts ← fromResult (mapM scanArtifact rows);
      ret (mkResult (Result_Outcome out) (Result_Note out) artifacts (Result_Version out)
             (Result_UpdatedAt out))
  end.

Fixpoint enrichSessions (sessions : list Session) : M Journal (list Session) :=
  match sessions with
  | [] => ret []
  | item :: rest =>
      gpus ← sessionGPUs (Session_ID item);
      summaries ← gpuSummaries (withDetails gpus (Session_GPUSummaries item) (Session_Timeline item)
                    (Session_Authorizations item) (Session_Result item) item);
      r ← resultOf (Session_ID item);
      rest ← enrichSessions rest;
      ret (withDetails gpus summaries (Session_Timeline item) (Session_Authorizations item) r item :: rest)
  end.

Definition ListSessions (filter : SessionFilter) : M Journal (list Session) :=
  let limit := boundedLimit (Filter_Limit filter) 50 in
  now ← dbNow;
  let l := filterClauses filter ++ beforeClauses filter ++
           statusClauses (Filter_Status filter) (UnixMilli now) in
  rows ← query (("SELECT r.session_id,r.kind,r.server_id,r.server_name,r.node_id,r.owner_username,r.owner_editable,r.purpose,r.source,r.created_at_ms,r.starts_at_ms,
		r.expires_at_ms,r.revoked_at_ms,r.finalized_at_ms,r.history_quality,
		(SELECT COUNT(" +:+ star +:+ ") FROM jobs j WHERE j.session_id=r.session_id OR EXISTS (SELECT 1 FROM job_sessions js WHERE js.node_id=j.node_id AND js.job_id=j.job_id AND js.session_id=r.session_id)),
		(SELECT MIN(j.started_at_ms) FROM jobs j WHERE j.session_id=r.session_id OR EXISTS (SELECT 1 FROM job_sessions js WHERE js.node_id=j.node_id AND js.job_id=j.job_id AND js.session_id=r.session_id)),
		(SELECT MAX(COALESCE(j.finished_at_ms,j.started_at_ms)) FROM jobs j WHERE j.session_id=r.session_id OR EXISTS (SELECT 1 FROM job_sessions js WHERE js.node_id=j.node_id AND js.job_id=j.job_id AND js.session_id=r.session_id))
		FROM reservation_sessions r WHERE r.provisioning=0") +:+ clauseText l +:+
                " GROUP BY r.session_id ORDER BY r.starts_at_ms DESC,r.session_id DESC LIMIT ?") (clauseArgs l ++ [VInt limit]);
  sessions ← scanSessions rows;
  enrichSessions sessions.

Definition GetSession (id : string) : M Journal Session :=
  item ← (row ← queryRowOpt ("SELECT r.session_id,r.kind,r.server_id,r.server_name,r.node_id,r.owner_username,r.owner_editable,r.purpose,r.source,r.created_at_ms,r.starts_at_ms,
		r.expires_at_ms,r.revoked_at_ms,r.finalized_at_ms,r.history_quality,
		(SELECT COUNT(" +:+ star +:+ ") FROM jobs j WHERE j.session_id=r.session_id OR EXISTS (SELECT 1 FROM job_sessions js WHERE js.node_id=j.node_id AND js.job_id=j.job_id AND js.session_id=r.session_id)),
		(SELECT MIN(j.started_at_ms) FROM jobs j WHERE j.session_id=r.session_id OR EXISTS (SELECT 1 FROM job_sessions js WHERE js.node_id=j.node_id AND js.job_id=j.job_id AND js.session_id=r.session_id)),
		(SELECT MAX(COALESCE(j.finished_at_ms,j.started_at_ms)) FROM jobs j WHERE j.session_id=r.session_id OR EXISTS (SELECT 1 FROM job_sessions js WHERE js.node_id=j.node_id AND js.job_id=j.job_id AND js.session_id=r.session_id))
		FROM reservation_sessions r WHERE r.session_id=? AND r.provisioning=0 GROUP BY r.session_id") [VText id] inr;
          match row with None => throw ErrHistoryNotFound | Some row => scanSession row end);
  gpus ← sessionGPUs id;
  summaries ← gpuSummaries (withDetails gpus [] [] [] Result_zero item);
  timeline ← timeline id;
  authorizations ← authorizationScopes id;
  r ← resultOf id;
  ret (withDetails gpus summaries timeline authorizations r item).

Definition scanJob (row : list sqlValue) : error + (Job * string * string) :=
  match row with
  | [node; job; source; mode; holder; command; started; rootExited; finished; startPrecision;
     finishPrecision; exitCode; reason] =>
      node ← scanText node; job ← scanText job; source ← scanText source; mode ← scanText mode;
      holder ← scanText holder; command ← scanText command; started ← scanNullInt started;
      rootExited ← scanNullInt rootExited; finished ← scanNullInt finished;
      startPrecision ← scanText startPrecision; finishPrecision ← scanText finishPrecision;
      exitCode ← scanNullInt exitCode; reason ← scanText reason;
      inr (mkJob (publicJobID node job) job source mode holder (ReadCommand command) []
             (timePtrFromNull started) (timePtrFromNull rootExited) (timePtrFromNull finished)
             startPrecision finishPrecision exitCode reason, node, job)
  | _ => inl errColumns
  end.
Definition withGPUs (gpus : list Z) (j : Job) : Job :=
  mkJob (Job_ID j) (Job_CursorID j) (Job_Source j) (Job_Mode j) (Job_Holder j) (Job_Command j) gpus
    (Job_StartedAt j) (Job_RootExitedAt j) (Job_FinishedAt j) (Job_StartPrecision j)
    (Job_FinishPrecision j) (Job_ExitCode j) (Job_Reason j).
Fixpoint jobsWithGPUs (pending : list (Job * string * string)) : M Journal (list Job) :=
  match pending with
  | [] => ret []
  | (job, nodeID, internalID) :: rest =>
      rows ← query "SELECT gpu FROM job_gpus WHERE node_id=? AND job_id=? ORDER BY gpu"
               [VText nodeID; VText internalID];
      gpus ← fromResult (mapM (scanOne scanInt) rows);
      jobs ← jobsWithGPUs rest;
      ret (withGPUs gpus job :: jobs)
  end.
Definition ListJobs (sessionID : string) (limit afterMS : Z) (afterID : string)
    : M Journal (list Job) :=
  let limit := boundedLimit limit 100 in
  let after := if 0 <? afterMS
    then [(" AND (COALESCE(j.started_at_ms,0)>? OR (COALESCE(j.started_at_ms,0)=? AND j.job_id>?))",
           [VInt afterMS; VInt afterMS; VText afterID])] else [] in
  rows ← query ("SELECT j.node_id,j.job_id,j.source,j.mode,j.holder,j.command_json,j.started_at_ms,j.root_exited_at_ms,j.finished_at_ms,
		j.start_precision,j.finish_precision,j.exit_code,j.end_reason FROM jobs j WHERE
		(j.session_id=? OR EXISTS (SELECT 1 FROM job_sessions js WHERE js.node_id=j.node_id AND js.job_id=j.job_id AND js.session_id=?))" +:+ clauseText after +:+
                " ORDER BY COALESCE(j.started_at_ms,0),j.job_id LIMIT ?")
           ([VText sessionID; VText sessionID] ++ clauseArgs after ++ [VInt limit]);
  pending ← fromResult (mapM scanJob rows);
  jobsWithGPUs pending.

(** What [nodeWideGPUMetrics] answers: observed, busy, the integral, whether there are rows. *)
Definition scanMetrics (row : list sqlValue) : error + (Z * Z * option float64 * bool) :=
  match row with
  | [observed; busy; integral; count] =>
      observed ← scanInt observed; busy ← scanInt busy; integral ← scanNullReal integral;
      count ← scanInt count;
      inr (observed, busy, integral, 0 <? count)
  | _ => inl errColumns
  end.
Definition nodeWideGPUMetrics (serverID : string) : M Journal (Z * Z * option float64 * bool) :=
  let l := if TrimSpace serverID <>s "" then [(" WHERE n.last_server_id=?", [VText serverID])] else [] in
  queryRow (("SELECT COALESCE(SUM(r.observed_ms),0),COALESCE(SUM(r.busy_ms),0),SUM(r.utilization_integral),COUNT(" +:+ star +:+ ")
		FROM node_gpu_minute_rollups r JOIN nodes n ON n.node_id=r.node_id") +:+ clauseText l) (clauseArgs l) scanMetrics.

Definition hourMillis : float64 := float_of_Z (Z.quot Hour Millisecond).
(** What the summaries make of the metrics. *)
Definition withMetrics (metrics : Z * Z * option float64) (reservedHours coverage : float64)
    (sessions reservations runs jobs : Z) : DashboardSummary :=
  let '(observed, busy, integral) := metrics in
  mkDashboardSummary sessions reservations runs reservedHours
    (float_div (float_of_Z busy) hourMillis)
    (if 0 <? observed then float_div (float_of_Z busy) (float_of_Z observed) else float_zero)
    (averageOf (default float_zero integral) observed) coverage jobs.

Definition scanTotals (row : list sqlValue) : error + (Z * Z * Z * option float64) :=
  match row with
  | [a; b; c; d] => a ← scanInt a; b ← scanInt b; c ← scanInt c; d ← scanNullReal d; inr (a, b, c, d)
  | _ => inl errColumns
  end.
Definition scanObserved (row : list sqlValue) : error + (Z * Z * option float64) :=
  match row with
  | [a; b; c] => a ← scanInt a; b ← scanInt b; c ← scanNullReal c; inr (a, b, c)
  | _ => inl errColumns
  end.

Definition HistorySummary (filter : SessionFilter) : M Journal DashboardSummary :=
  t ← dbNow;
  let now := UnixMilli t in
  let l := filterClauses filter ++ statusClauses (Filter_Status filter) now in
  let where_ := " WHERE r.provisioning=0" +:+ clauseText l in
  '(sessions, reservations, runs, reserved) ←
    queryRow ("SELECT COUNT(DISTINCT r.session_id),
		COUNT(DISTINCT CASE WHEN r.kind='reservation' THEN r.session_id END),
		COUNT(DISTINCT CASE WHEN r.kind='claimed_run' THEN r.session_id END),
		SUM(CASE WHEN r.kind='reservation' THEN MAX(0,MIN(r.expires_at_ms,COALESCE(r.revoked_at_ms,r.expires_at_ms),?)-r.starts_at_ms) ELSE 0 END)
		FROM reservation_sessions r LEFT JOIN session_gpus g ON g.session_id=r.session_id" +:+ where_)
      (VInt now :: clauseArgs l) scanTotals;
  metrics ← queryRow ("SELECT COALESCE(SUM(CASE WHEN r.kind='reservation' THEN s.observed_ms ELSE 0 END),0),
		COALESCE(SUM(CASE WHEN r.kind='reservation' THEN s.busy_ms ELSE 0 END),0),
		SUM(CASE WHEN r.kind='reservation' THEN s.utilization_integral ELSE 0 END)
		FROM session_gpu_summaries s JOIN reservation_sessions r ON r.session_id=s.session_id" +:+ where_)
    (clauseArgs l) scanObserved;
  jobs ← queryRow ("SELECT COUNT(DISTINCT j.node_id||':'||j.job_id) FROM jobs j WHERE EXISTS (
		SELECT 1 FROM reservation_sessions r" +:+ where_ +:+ " AND (j.session_id=r.session_id OR EXISTS (
			SELECT 1 FROM job_sessions js WHERE js.node_id=j.node_id AND js.job_id=j.job_id AND js.session_id=r.session_id
		)))")
    (clauseArgs l) (scanOne scanInt);
  '(observed, busy, integral, hasGlobal) ← nodeWideGPUMetrics (Filter_ServerID filter);
  let '(hours, coverage) := match reserved with
    | Some ms => if float_ltb float_zero ms
                 then (float_div ms hourMillis, float_div (float_of_Z (fst (fst metrics))) ms)
                 else (float_zero, float_zero)
    | None => (float_zero, float_zero)
    end in
  ret (withMetrics (if hasGlobal : bool then (observed, busy, integral) else metrics) hours coverage
         sessions reservations runs jobs).

Definition nullableString (value : string) : sqlValue := if value =s "" then VNull else VText value.
Definition nullableInt (value : option Z) : sqlValue := match value with Some z => VInt z | None => VNull end.
Definition nullableTimeValue (value : time) : sqlValue := if IsZero value then VNull else VInt (millis value).

Definition scanOwner (row : list sqlValue) : error + (string * bool) :=
  match row with
  | [owner; editable] => owner ← scanText owner; editable ← scanBool editable; inr (owner, editable)
  | _ => inl errColumns
  end.
Definition ownerQuery : string := "SELECT owner_username,owner_editable FROM reservation_sessions WHERE session_id=? AND provisioning=0".
Definition updateResult : string := "UPDATE session_results SET outcome=?,note=?,version=version+1,updated_at_ms=?
		WHERE session_id=? AND version=?".
Definition deleteArtifacts : string := "DELETE FROM session_artifacts WHERE session_id=?".
Definition insertArtifact : string := "INSERT INTO session_artifacts(session_id,position,label,url) VALUES(?,?,?,?)".
Definition artifactArgs (sessionID : string) (position : Z) (artifact : Artifact) : list sqlValue :=
  [VText sessionID; VInt position; VText (Artifact_Label artifact); VText (Artifact_URL artifact)].
Fixpoint insertArtifacts (sessionID : string) (position : Z) (artifacts : list Artifact)
    : M Journal unit :=
  match artifacts with
  | [] => ret tt
  | artifact :: rest =>
      run insertArtifact (artifactArgs sessionID position artifact) ;;
      insertArtifacts sessionID (position + 1) rest
  end.
Definition PutResult (sessionID user outcome note : string) (artifacts : list Artifact)
    (expectedVersion : Z) : M Journal Result :=
  inTx (
    found ← queryRowOpt ownerQuery
              [VText sessionID] scanOwner;
    match found with
    | None => throw ErrHistoryNotFound
    | Some (owner, ownerEditable) =>
        fail_if (negb ownerEditable || negb (EqualFold (TrimSpace owner) (TrimSpace user)))
          ErrHistoryForbidden ;;
        now ← dbNow;
        changed ← exec updateResult
          [nullableString outcome; VText note; VInt (millis now); VText sessionID; VInt expectedVersion];
        fail_if (negb (changed =? 1)) ErrVersionConflict ;;
        run deleteArtifacts [VText sessionID] ;;
        insertArtifacts sessionID 0 artifacts ;;
        commit ;;
        resultOf sessionID
    end).

Fixpoint insertPendingGPUs (id : string) (gpus : list Z) : M Journal unit :=
  match gpus with
  | [] => ret tt
  | gpu :: rest =>
      run "INSERT INTO session_gpus(session_id,gpu,reservation_id) VALUES(?,?,?)"
        [VText id; VInt gpu; VText ("pending-" +:+ Itoa gpu)] ;;
      insertPendingGPUs id rest
  end.
Definition PrepareSessionRow (id nodeID serverID serverName owner purpose : string)
    (startsAt expiresAt : time) (gpus : list Z) : M Journal unit :=
  now ← dbNow;
  inTx (
    run "INSERT INTO nodes(node_id,last_server_id,first_seen_at_ms,last_seen_at_ms) VALUES(?,?,?,?)
		ON CONFLICT(node_id) DO UPDATE SET last_server_id=excluded.last_server_id,last_seen_at_ms=excluded.last_seen_at_ms"
      [VText nodeID; VText serverID; VInt (millis now); VInt (millis now)] ;;
    run "INSERT INTO reservation_sessions(session_id,node_id,server_id,server_name,group_id,owner_username,owner_editable,purpose,source,
		created_at_ms,starts_at_ms,expires_at_ms,history_quality,provisioning,updated_at_ms)
		VALUES(?,?,?,?,?,?,?,?,?,?,?,?,?,1,?)"
      [VText id; VText nodeID; VText serverID; VText serverName; VText ("pending:" +:+ id); VText owner;
       VBool true; VText purpose; VText "web"; VInt (millis now); VInt (millis startsAt);
       VInt (millis expiresAt); VText "complete"; VInt (millis now)] ;;
    insertPendingGPUs id gpus ;;
    run "INSERT OR IGNORE INTO session_results(session_id) VALUES(?)" [VText id] ;;
    commit).

Fixpoint confirmGPUs (id : string) (gpus : list Z) (reservationIDs : list string) : M Journal unit :=
  match gpus with
  | [] => ret tt
  | gpu :: rest =>
      let '(reservationID, ids) := match reservationIDs with
        | rid :: ids => (rid, ids)
        | [] => ("reservation-" +:+ Itoa gpu, [])
        end in
      run "UPDATE session_gpus SET reservation_id=? WHERE session_id=? AND gpu=?"
        [VText reservationID; VText id; VInt gpu] ;;
      run "INSERT OR IGNORE INTO session_gpu_summaries(session_id,gpu) VALUES(?,?)" [VText id; VInt gpu] ;;
      confirmGPUs id rest ids
  end.
Definition ConfirmSession (id groupID : string) (reservationIDs : list string) (gpus : list Z)
    : M Journal unit :=
  inTx (
    now ← dbNow;
    changed ← exec "UPDATE reservation_sessions SET group_id=?,provisioning=0,updated_at_ms=? WHERE session_id=? AND provisioning=1"
      [VText groupID; VInt (UnixMilli now); VText id];
    fail_if (negb (changed =? 1)) ErrHistoryNotFound ;;
    confirmGPUs id gpus reservationIDs ;;
    commit).

Definition DropProvisioningSession (id : string) : M Journal unit :=
  run "DELETE FROM reservation_sessions WHERE session_id=? AND provisioning=1" [VText id].

Definition scanSessionGroup (row : list sqlValue) : error + (string * string) :=
  match row with
  | [session; group] => session ← scanText session; group ← scanText group; inr (session, group)
  | _ => inl errColumns
  end.
Fixpoint revokeMissing (at_ : Z) (missing : list string) : M Journal unit :=
  match missing with
  | [] => ret tt
  | sessionID :: rest =>
      run "UPDATE reservation_sessions
			SET revoked_at_ms=?,finalized_at_ms=?,history_quality='partial',updated_at_ms=?
			WHERE session_id=? AND revoked_at_ms IS NULL AND finalized_at_ms IS NULL"
        [VInt at_; VInt at_; VInt at_; VText sessionID] ;;
      revokeMissing at_ rest
  end.
Definition ReconcileOpenSessions (serverID : string) (liveGroupIDs : list string) (observedAt : time)
    : M Journal unit :=
  if (TrimSpace serverID =s "") || IsZero observedAt
  then throw (ErrorString "reservation reconciliation requires server id and observation time")
  else
    let live := List.filter (fun group => group <>s "") (map TrimSpace liveGroupIDs) in
    inTx (
      let at_ := millis observedAt in
      rows ← query "SELECT session_id,group_id FROM reservation_sessions
		WHERE server_id=? AND kind='reservation' AND provisioning=0 AND revoked_at_ms IS NULL AND finalized_at_ms IS NULL AND expires_at_ms>?"
               [VText serverID; VInt at_];
      open_ ← fromResult (mapM scanSessionGroup rows);
      revokeMissing at_
        (map fst (List.filter (fun row => negb (existsb (String.eqb (snd row)) live)) open_)) ;;
      commit).

(** * ingest.go *)

Definition SyncCursor (serverID : string) : M Journal string :=
  cursor ← queryRowOpt "SELECT cursor FROM node_sync_state WHERE server_id=?" [VText serverID] (scanOne scanText);
  ret (default "" cursor).

Definition recordGap : string := "UPDATE node_sync_state SET gap_at_ms=?,sync_error=? WHERE server_id=?".
Definition MarkGap (serverID reason : string) : M Journal unit :=
  t ← dbNow;
  let now := UnixMilli t in
  inTx (
    lastSync ← queryRowOpt "SELECT last_sync_at_ms FROM node_sync_state WHERE server_id=?"
                 [VText serverID] (scanOne scanNullInt);
    let cutoff := match lastSync with Some (Some ms) => ms | _ => 0 end in
    run recordGap
      [VInt now; VText reason; VText serverID] ;;
    run "UPDATE reservation_sessions SET history_quality='partial',updated_at_ms=?
		WHERE server_id=? AND expires_at_ms>=?"
      [VInt now; VText serverID; VInt cutoff] ;;
    commit).

Definition isClaimedRun (tokenMode : string) : bool :=
  (tokenMode =s "") || (tokenMode =s "claimed") || (tokenMode =s "managed").

Fixpoint distinctGroups (seen groups : list string) : list string :=
  match groups with
  | [] => []
  | group :: rest =>
      if (group <>s "") && negb (existsb (String.eqb group) seen)
      then group :: distinctGroups (group :: seen) rest
      else distinctGroups seen rest
  end.
Definition telemetryGroups (primary : string) (additional : list string) : list string :=
  distinctGroups [] (primary :: additional).

Definition clampTime (value : option time) (maximum : time) : option time :=
  match value with
  | Some t => if After t maximum then Some maximum else value
  | None => None
  end.

Fixpoint firstNonempty (values : list string) : string :=
  match values with
  | [] => ""
  | value :: rest => if TrimSpace value <>s "" then value else firstNonempty rest
  end.

(** The GPUs of a reservation, by one of the two texts of the statement. *)
Fixpoint insertMembers (sql id : string) (members : list ReservationMember) : M Journal unit :=
  match members with
  | [] => ret tt
  | member :: rest =>
      run sql
        [VText id; VInt (ReservationMember_GPU member); VText (ReservationMember_ReservationID member)] ;;
      run "INSERT OR IGNORE INTO session_gpu_summaries(session_id,gpu) VALUES(?,?)"
        [VText id; VInt (ReservationMember_GPU member)] ;;
      insertMembers sql id rest
  end.
Definition applyReservation (nodeID serverID serverName : string) (payload : ReservationUpsert)
    (occurredAt : time) (knownOwners : list string) : M Journal unit :=
  if (ReservationUpsert_GroupID payload =s "") || (ReservationUpsert_Holder payload =s "") ||
     negb (After (ReservationUpsert_ExpiresAt payload) (ReservationUpsert_StartsAt payload))
  then throw (ErrorString "invalid reservation telemetry")
  else
    let group := ReservationUpsert_GroupID payload in
    let holder := ReservationUpsert_Holder payload in
    let startsAt := VInt (millis (ReservationUpsert_StartsAt payload)) in
    let expiresAt := VInt (millis (ReservationUpsert_ExpiresAt payload)) in
    let external := ReservationUpsert_ExternalSessionID payload in
    let id := TrimSpace external in
    let id := if negb (HasPrefix id "sess_") || (128 <? slen id) then sessionID nodeID group else id in
    let quality := if ReservationUpsert_HistoryQuality payload =s "partial" then "partial" else "complete" in
    let web := external <>s "" in
    changed ← (if web then
      exec "UPDATE reservation_sessions SET node_id=?,server_id=?,server_name=?,group_id=?,owner_username=?,purpose=?,
			starts_at_ms=?,expires_at_ms=?,history_quality=CASE WHEN history_quality='partial' OR ?='partial' THEN 'partial' ELSE 'complete' END,
			owner_editable=1,provisioning=0,updated_at_ms=? WHERE session_id=?"
        [VText nodeID; VText serverID; VText serverName; VText group; VText holder;
         VText (ReservationUpsert_Purpose payload); startsAt; expiresAt; VText quality;
         VInt (millis occurredAt); VText id]
      else ret 0);
    if 0 <? changed then insertMembers "INSERT INTO session_gpus(session_id,gpu,reservation_id) VALUES(?,?,?)
					ON CONFLICT(session_id,gpu) DO UPDATE SET reservation_id=excluded.reservation_id" id (ReservationUpsert_Members payload)
    else
      let ownerEditable := web || existsb (String.eqb (ToLower (TrimSpace holder))) knownOwners in
      run "INSERT INTO reservation_sessions(session_id,node_id,server_id,server_name,group_id,owner_username,owner_editable,purpose,source,
		created_at_ms,starts_at_ms,expires_at_ms,history_quality,provisioning,updated_at_ms)
		VALUES(?,?,?,?,?,?,?,?,?,?,?,?,?,0,?)
		ON CONFLICT(node_id,group_id) DO UPDATE SET server_id=excluded.server_id,server_name=excluded.server_name,
		owner_username=excluded.owner_username,purpose=excluded.purpose,starts_at_ms=excluded.starts_at_ms,expires_at_ms=excluded.expires_at_ms,
		owner_editable=MAX(reservation_sessions.owner_editable,excluded.owner_editable),provisioning=0,updated_at_ms=excluded.updated_at_ms"
        [VText id; VText nodeID; VText serverID; VText serverName; VText group; VText holder;
         VBool ownerEditable; VText (ReservationUpsert_Purpose payload);
         VText (if web then "web" else "cli"); VInt (millis (ReservationUpsert_CreatedAt payload));
         startsAt; expiresAt; VText quality; VInt (millis occurredAt)] ;;
      id ← queryRow "SELECT session_id FROM reservation_sessions WHERE node_id=? AND group_id=?"
             [VText nodeID; VText group] (scanOne scanText);
      insertMembers "INSERT INTO session_gpus(session_id,gpu,reservation_id) VALUES(?,?,?)
			ON CONFLICT(session_id,gpu) DO UPDATE SET reservation_id=excluded.reservation_id" id (ReservationUpsert_Members payload) ;;
      run "INSERT OR IGNORE INTO session_results(session_id) VALUES(?)" [VText id].

Fixpoint firstSession (nodeID : string) (groups : list string) (found : string) : M Journal string :=
  match groups with
  | [] => ret found
  | groupID :: rest =>
      candidate ← queryRowOpt "SELECT session_id FROM reservation_sessions WHERE node_id=? AND group_id=?"
                    [VText nodeID; VText groupID] (scanOne scanText);
      firstSession nodeID rest
        (match candidate with Some c => if found =s "" then c else found | None => found end)
  end.
Fixpoint linkAuthorization (nodeID authorizationID : string) (groups : list string) : M Journal unit :=
  match groups with
  | [] => ret tt
  | groupID :: rest =>
      run "INSERT OR IGNORE INTO authorization_sessions(node_id,authorization_id,session_id)
			SELECT ?,?,session_id FROM reservation_sessions WHERE node_id=? AND group_id=?"
        [VText nodeID; VText authorizationID; VText nodeID; VText groupID] ;;
      linkAuthorization nodeID authorizationID rest
  end.
Definition applyAuthorization (nodeID : string) (payload : AuthorizationUpsert) : M Journal unit :=
  let groups := telemetryGroups (AuthorizationUpsert_GroupID payload) (AuthorizationUpsert_GroupIDs payload) in
  let id := AuthorizationUpsert_AuthorizationID payload in
  sessionID ← firstSession nodeID groups "";
  let selector := firstNonempty [AuthorizationUpsert_ContainerID payload;
    AuthorizationUpsert_ContainerPattern payload; AuthorizationUpsert_Namespace payload;
    AuthorizationUpsert_Username payload] in
  run "INSERT INTO authorization_scopes(node_id,authorization_id,session_id,mode,holder,selector,command_json,created_at_ms,expires_at_ms)
		VALUES(?,?,?,?,?,?,?,?,?) ON CONFLICT(node_id,authorization_id) DO UPDATE SET session_id=excluded.session_id,mode=excluded.mode,
		holder=excluded.holder,selector=excluded.selector,command_json=excluded.command_json,expires_at_ms=excluded.expires_at_ms"
    [VText nodeID; VText id; nullableString sessionID; VText (AuthorizationUpsert_Mode payload);
     VText (AuthorizationUpsert_Holder payload); VText selector;
     VText (WriteCommand (AuthorizationUpsert_Command payload));
     VInt (millis (AuthorizationUpsert_CreatedAt payload));
     nullableTimeValue (AuthorizationUpsert_ExpiresAt payload)] ;;
  linkAuthorization nodeID id groups.

(** The session of a job: its identity, kind, end and revocation. *)
Record sessionRow : Type := mkSessionRow
  { row_ID : string; row_Kind : string; row_ExpiresMS : Z; row_Revoked : option Z }.
Definition scanSessionOfJob (row : list sqlValue) : error + sessionRow :=
  match row with
  | [id; kind; expires; revoked] =>
      id ← scanText id; kind ← scanText kind; expires ← scanInt expires; revoked ← scanNullInt revoked;
      inr (mkSessionRow id kind expires revoked)
  | _ => inl errColumns
  end.
Fixpoint sessionsOfJob (nodeID : string) (groups : list string) : M Journal (list sessionRow) :=
  match groups with
  | [] => ret []
  | groupID :: rest =>
      found ← queryRowOpt "SELECT session_id,kind,expires_at_ms,revoked_at_ms FROM reservation_sessions WHERE node_id=? AND group_id=?"
                [VText nodeID; VText groupID] scanSessionOfJob;
      rows ← sessionsOfJob nodeID rest;
      ret (match found with Some row => row :: rows | None => rows end)
  end.

Definition later (value : option time) (t : time) : time :=
  match value with Some v => if After v t then v else t | None => t end.
(** From when to when a claimed run lasts, as far as an event tells. *)
Definition claimedSpan (payload : JobEvent) (occurredAt : time) : time * time :=
  let startedAt := default occurredAt (JobEvent_StartedAt payload) in
  let endAt := later (JobEvent_FinishedAt payload) (later (JobEvent_RootExitedAt payload) occurredAt) in
  (startedAt, if After endAt startedAt then endAt else TimeAdd startedAt Millisecond).
Definition claimedRun (nodeID serverID serverName : string) (payload : JobEvent) (occurredAt : time)
    : M Journal sessionRow :=
  let '(startedAt, endAt) := claimedSpan payload occurredAt in
  let groupID := "claimed:" +:+ JobEvent_ExecutionID payload in
  let session := sessionID nodeID groupID in
  run "INSERT INTO reservation_sessions(session_id,node_id,server_id,server_name,group_id,kind,owner_username,owner_editable,purpose,source,
			created_at_ms,starts_at_ms,expires_at_ms,finalized_at_ms,history_quality,provisioning,updated_at_ms)
			VALUES(?,?,?,?,?,'claimed_run',?,0,'Claimed run','cli',?,?,?,?, 'complete',0,?)
			ON CONFLICT(node_id,group_id) DO UPDATE SET server_id=excluded.server_id,server_name=excluded.server_name,
			owner_username=excluded.owner_username,starts_at_ms=MIN(reservation_sessions.starts_at_ms,excluded.starts_at_ms),
			expires_at_ms=MAX(reservation_sessions.expires_at_ms,excluded.expires_at_ms),
			finalized_at_ms=COALESCE(excluded.finalized_at_ms,reservation_sessions.finalized_at_ms),updated_at_ms=excluded.updated_at_ms"
    [VText session; VText nodeID; VText serverID; VText serverName; VText groupID;
     VText (JobEvent_Holder payload); VInt (millis startedAt); VInt (millis startedAt);
     VInt (millis endAt); nullableMillis (JobEvent_FinishedAt payload); VInt (millis occurredAt)] ;;
  run "INSERT OR IGNORE INTO session_results(session_id) VALUES(?)" [VText session] ;;
  ret (mkSessionRow session "claimed_run" (millis endAt) None).

Fixpoint linkSessions (nodeID : string) (payload : JobEvent) (sessions : list string) : M Journal unit :=
  match sessions with
  | [] => ret tt
  | session :: rest =>
      run "INSERT OR IGNORE INTO job_sessions(node_id,job_id,session_id) VALUES(?,?,?)"
        [VText nodeID; VText (JobEvent_ExecutionID payload); VText session] ;;
      (if JobEvent_AuthorizationID payload <>s "" then
         run "INSERT OR IGNORE INTO authorization_sessions(node_id,authorization_id,session_id) VALUES(?,?,?)"
           [VText nodeID; VText (JobEvent_AuthorizationID payload); VText session]
       else ret tt) ;;
      linkSessions nodeID payload rest
  end.
Fixpoint insertJobGPUs (nodeID executionID : string) (session : sessionRow) (gpus : list Z)
    : M Journal unit :=
  match gpus with
  | [] => ret tt
  | gpu :: rest =>
      run "INSERT OR IGNORE INTO job_gpus(node_id,job_id,gpu) VALUES(?,?,?)"
        [VText nodeID; VText executionID; VInt gpu] ;;
      (if row_Kind session =s "claimed_run" then
         run "INSERT OR IGNORE INTO session_gpus(session_id,gpu,reservation_id) VALUES(?,?,?)"
           [VText (row_ID session); VInt gpu; VText ("claimed:" +:+ executionID +:+ ":" +:+ Itoa gpu)] ;;
         run "INSERT OR IGNORE INTO session_gpu_summaries(session_id,gpu) VALUES(?,?)"
           [VText (row_ID session); VInt gpu]
       else ret tt) ;;
      insertJobGPUs nodeID executionID session rest
  end.

(** The end of a session: its expiry, or its revocation when that comes first. *)
Definition endOfSession (expiresMS : Z) (revoked : option Z) : time :=
  let effectiveEnd := timeFromMillis expiresMS in
  match revoked with
  | Some ms => if Before (timeFromMillis ms) effectiveEnd then timeFromMillis ms else effectiveEnd
  | None => effectiveEnd
  end.

Definition applyJob (nodeID serverID serverName : string) (payload : JobEvent) (occurredAt : time)
    : M Journal unit :=
  let groups := telemetryGroups (JobEvent_GroupID payload) (JobEvent_GroupIDs payload) in
  rows ← sessionsOfJob nodeID groups;
  let claims := match List.find (fun row => row_ID row <>s "") rows with
    | Some _ => false
    | None => (llen groups =? 0) && isClaimedRun (JobEvent_TokenMode payload)
    end in
  if claims && (TrimSpace (JobEvent_ExecutionID payload) =s "") then ret tt
  else
    rows ← (if claims then row ← claimedRun nodeID serverID serverName payload occurredAt; ret [row]
            else ret rows);
    match List.find (fun row => row_ID row <>s "") rows with
    | None => ret tt
    | Some session =>
        let '(rootExitedAt, finishedAt) :=
          if row_Kind session <>s "claimed_run" then
            let effectiveEnd := endOfSession (row_ExpiresMS session) (row_Revoked session) in
            (clampTime (JobEvent_RootExitedAt payload) effectiveEnd,
             clampTime (JobEvent_FinishedAt payload) effectiveEnd)
          else (JobEvent_RootExitedAt payload, JobEvent_FinishedAt payload) in
        run "INSERT INTO jobs(node_id,job_id,session_id,authorization_id,source,mode,holder,command_json,started_at_ms,
		root_exited_at_ms,finished_at_ms,start_precision,finish_precision,exit_code,end_reason,updated_at_ms)
		VALUES(?,?,?,?,?,?,?,?,?,?,?,?,?,?,?,?)
		ON CONFLICT(node_id,job_id) DO UPDATE SET command_json=CASE WHEN excluded.command_json IN ('[]','null') THEN jobs.command_json ELSE excluded.command_json END,
		started_at_ms=COALESCE(jobs.started_at_ms,excluded.started_at_ms),root_exited_at_ms=COALESCE(excluded.root_exited_at_ms,jobs.root_exited_at_ms),
		finished_at_ms=COALESCE(excluded.finished_at_ms,jobs.finished_at_ms),start_precision=CASE WHEN excluded.start_precision='' THEN jobs.start_precision ELSE excluded.start_precision END,
		finish_precision=CASE WHEN excluded.finish_precision='' THEN jobs.finish_precision ELSE excluded.finish_precision END,
		exit_code=COALESCE(excluded.exit_code,jobs.exit_code),end_reason=CASE WHEN excluded.end_reason='' THEN jobs.end_reason ELSE excluded.end_reason END,
		updated_at_ms=excluded.updated_at_ms"
          [VText nodeID; VText (JobEvent_ExecutionID payload); VText (row_ID session);
           VText (JobEvent_AuthorizationID payload); VText (JobEvent_Source payload);
           VText (JobEvent_Mode payload); VText (JobEvent_Holder payload);
           VText (WriteCommand (JobEvent_Command payload)); nullableMillis (JobEvent_StartedAt payload);
           nullableMillis rootExitedAt; nullableMillis finishedAt;
           VText (JobEvent_StartPrecision payload); VText (JobEvent_FinishPrecision payload);
           nullableInt (JobEvent_ExitCode payload); VText (JobEvent_Reason payload);
           VInt (millis occurredAt)] ;;
        linkSessions nodeID payload (map row_ID rows) ;;
        insertJobGPUs nodeID (JobEvent_ExecutionID payload) session (JobEvent_GPUs payload)
    end.

(** * Samples *)

Definition Truncate (t : time) (d : duration) : time := t - t mod d.

(** The utilization of an entry, when it is a percentage. *)
Definition validUtilization (gpu : GPUSampleEntry) : option float64 :=
  match GPUSampleEntry_UtilizationPct gpu with
  | Some SpecFloat.S754_nan => None
  | Some pct => if float_leb float_zero pct && float_leb pct (float_of_Z 100) then Some pct else None
  | None => None
  end.
Definition busyMS (pct : float64) (duration : Z) : Z :=
  if float_leb (float_of_Z 5) pct then duration else 0.
Definition maxSignedInt64 : Z := 2 ^ 63 - 1.
Definition memoryValues (value : option Z) (duration : Z) : float64 * Z * sqlValue :=
  match value with
  | None => (float_zero, 0, VNull)
  | Some bytes =>
      let clamped := if maxSignedInt64 <? bytes then maxSignedInt64 else bytes in
      (float_mul (float_of_Z clamped) (float_of_Z duration), duration, VInt clamped)
  end.

(** The loop over the minutes of a window: [apply minute duration] is its body, on the
    minute and the milliseconds of a part.  There are at most as many parts as minutes
    begun, so that [fuel] suffices. *)
Fixpoint minuteLoop (fuel : nat) (apply : time -> Z -> M Journal unit) (cursor end_ : time)
    : M Journal unit :=
  match fuel with
  | O => ret tt
  | S fuel =>
      if negb (Before cursor end_) then ret tt
      else
        let minute := Truncate cursor Minute in
        let partEnd := TimeAdd minute Minute in
        let partEnd := if After partEnd end_ then end_ else partEnd in
        let duration := Milliseconds (TimeSub partEnd cursor) in
        if duration <=? 0 then ret tt
        else apply minute duration ;; minuteLoop fuel apply partEnd end_
  end.
Definition minutesIn (start end_ : time) : nat := Z.to_nat ((end_ - start) / Minute + 2).

Definition nodeInterval (nodeID : string) (gpu : GPUSampleEntry) (minute : time) (duration : Z)
    : M Journal unit :=
  match validUtilization gpu with
  | Some pct =>
      run "INSERT INTO node_gpu_minute_rollups(
				node_id,gpu,minute_ms,observed_ms,busy_ms,utilization_integral,valid_samples)
				VALUES(?,?,?,?,?,?,1) ON CONFLICT(node_id,gpu,minute_ms) DO UPDATE SET
				observed_ms=observed_ms+excluded.observed_ms,busy_ms=busy_ms+excluded.busy_ms,
				utilization_integral=utilization_integral+excluded.utilization_integral,valid_samples=valid_samples+1"
        [VText nodeID; VInt (GPUSampleEntry_GPU gpu); VInt (millis minute); VInt duration;
         VInt (busyMS pct duration); VReal (float_mul pct (float_of_Z duration))]
  | None =>
      run "INSERT INTO node_gpu_minute_rollups(node_id,gpu,minute_ms,missing_samples)
			VALUES(?,?,?,1) ON CONFLICT(node_id,gpu,minute_ms) DO UPDATE SET missing_samples=missing_samples+1"
        [VText nodeID; VInt (GPUSampleEntry_GPU gpu); VInt (millis minute)]
  end.
Definition applyNodeGPUIntervals (nodeID : string) (gpu : GPUSampleEntry) (start end_ : time)
    : M Journal unit :=
  minuteLoop (minutesIn start end_) (nodeInterval nodeID gpu) start end_.

Definition sessionInterval (session : string) (gpu : GPUSampleEntry) (minute : time) (duration : Z)
    : M Journal unit :=
  let '(memoryIntegral, memoryObserved, peak) := memoryValues (GPUSampleEntry_MemoryUsedBytes gpu) duration in
  let id := VInt (GPUSampleEntry_GPU gpu) in
  match validUtilization gpu with
  | Some pct =>
      let busy := VInt (busyMS pct duration) in
      let integral := VReal (float_mul pct (float_of_Z duration)) in
      run "INSERT INTO gpu_minute_rollups(session_id,gpu,minute_ms,observed_ms,busy_ms,utilization_integral,
				memory_integral,memory_observed_ms,peak_memory_bytes,valid_samples) VALUES(?,?,?,?,?,?,?,?,?,1)
				ON CONFLICT(session_id,gpu,minute_ms) DO UPDATE SET observed_ms=observed_ms+excluded.observed_ms,busy_ms=busy_ms+excluded.busy_ms,
				utilization_integral=utilization_integral+excluded.utilization_integral,memory_integral=memory_integral+excluded.memory_integral,
				memory_observed_ms=memory_observed_ms+excluded.memory_observed_ms,peak_memory_bytes=CASE WHEN excluded.peak_memory_bytes IS NULL THEN peak_memory_bytes
				WHEN peak_memory_bytes IS NULL THEN excluded.peak_memory_bytes ELSE MAX(peak_memory_bytes,excluded.peak_memory_bytes) END,
				valid_samples=valid_samples+1"
        [VText session; id; VInt (millis minute); VInt duration; busy; integral; VReal memoryIntegral;
         VInt memoryObserved; peak] ;;
      run "UPDATE session_gpu_summaries SET observed_ms=observed_ms+?,busy_ms=busy_ms+?,
				utilization_integral=utilization_integral+?,memory_integral=memory_integral+?,memory_observed_ms=memory_observed_ms+?,
				peak_memory_bytes=CASE WHEN ? IS NULL THEN peak_memory_bytes WHEN peak_memory_bytes IS NULL THEN ? ELSE MAX(peak_memory_bytes,?) END,
				valid_samples=valid_samples+1 WHERE session_id=? AND gpu=?"
        [VInt duration; busy; integral; VReal memoryIntegral; VInt memoryObserved; peak; peak; peak;
         VText session; id]
  | None =>
      run "INSERT INTO gpu_minute_rollups(session_id,gpu,minute_ms,memory_integral,memory_observed_ms,peak_memory_bytes,missing_samples)
				VALUES(?,?,?,?,?,?,1) ON CONFLICT(session_id,gpu,minute_ms) DO UPDATE SET
				memory_integral=memory_integral+excluded.memory_integral,memory_observed_ms=memory_observed_ms+excluded.memory_observed_ms,
				peak_memory_bytes=CASE WHEN excluded.peak_memory_bytes IS NULL THEN peak_memory_bytes WHEN peak_memory_bytes IS NULL THEN excluded.peak_memory_bytes
				ELSE MAX(peak_memory_bytes,excluded.peak_memory_bytes) END,missing_samples=missing_samples+1"
        [VText session; id; VInt (millis minute); VReal memoryIntegral; VInt memoryObserved; peak] ;;
      run "UPDATE session_gpu_summaries SET memory_integral=memory_integral+?,memory_observed_ms=memory_observed_ms+?,
				peak_memory_bytes=CASE WHEN ? IS NULL THEN peak_memory_bytes WHEN peak_memory_bytes IS NULL THEN ? ELSE MAX(peak_memory_bytes,?) END,
				missing_samples=missing_samples+1 WHERE session_id=? AND gpu=?"
        [VReal memoryIntegral; VInt memoryObserved; peak; peak; peak; VText session; id]
  end.
Definition applyGPUIntervals (session : string) (gpu : GPUSampleEntry) (start end_ : time)
    : M Journal unit :=
  minuteLoop (minutesIn start end_) (sessionInterval session gpu) start end_.

Definition scanSessionWindow (row : list sqlValue) : error + (string * Z * Z * option Z) :=
  match row with
  | [id; starts; expires; revoked] =>
      id ← scanText id; starts ← scanInt starts; expires ← scanInt expires; revoked ← scanNullInt revoked;
      inr (id, starts, expires, revoked)
  | _ => inl errColumns
  end.
Fixpoint applySampleGPUs (nodeID : string) (payload : GPUSample) (gpus : list GPUSampleEntry)
    : M Journal unit :=
  match gpus with
  | [] => ret tt
  | gpu :: rest =>
      let windowStart := GPUSample_WindowStart payload in
      let windowEnd := GPUSample_WindowEnd payload in
      applyNodeGPUIntervals nodeID gpu windowStart windowEnd ;;
      (if GPUSampleEntry_GroupID gpu =s "" then ret tt
       else
         found ← queryRowOpt "SELECT session_id,starts_at_ms,expires_at_ms,revoked_at_ms FROM reservation_sessions
			WHERE node_id=? AND group_id=?"
                   [VText nodeID; VText (GPUSampleEntry_GroupID gpu)] scanSessionWindow;
         match found with
         | None => ret tt
         | Some (session, startsMS, expiresMS, revoked) =>
             (if GPUSample_Status payload <>s "ok" then
                run "UPDATE reservation_sessions SET history_quality='partial',updated_at_ms=? WHERE session_id=?"
                  [VInt (millis windowEnd); VText session]
              else ret tt) ;;
             let start := if Before windowStart (timeFromMillis startsMS) then timeFromMillis startsMS
                          else windowStart in
             let effectiveEnd := endOfSession expiresMS revoked in
             let end_ := if After windowEnd effectiveEnd then effectiveEnd else windowEnd in
             if negb (After end_ start) then ret tt else applyGPUIntervals session gpu start end_
         end) ;;
      applySampleGPUs nodeID payload rest
  end.
Definition applyGPUSample (nodeID : string) (payload : GPUSample) : M Journal unit :=
  if negb (After (GPUSample_WindowEnd payload) (GPUSample_WindowStart payload)) then ret tt
  else applySampleGPUs nodeID payload (GPUSample_GPUs payload).

(** * Events *)

Definition applyEvent (nodeID serverID serverName : string) (event : Event) (knownOwners : list string)
    : M Journal unit :=
  let occurredAt := Event_OccurredAt event in
  let kind := Event_Type event in
  if kind =s "reservation.upsert" then
    payload ← fromResult (ReadReservationUpsert (Event_Payload event));
    applyReservation nodeID serverID serverName payload occurredAt knownOwners
  else if kind =s "reservation.ended" then
    payload ← fromResult (ReadReservationEnded (Event_Payload event));
    let ended := VInt (millis (ReservationEnded_EndedAt payload)) in
    let group := VText (ReservationEnded_GroupID payload) in
    (if ReservationEnded_Reason payload =s "revoked" then
       run "UPDATE reservation_sessions SET revoked_at_ms=?,finalized_at_ms=?,updated_at_ms=? WHERE node_id=? AND group_id=?"
         [ended; ended; VInt (millis occurredAt); VText nodeID; group]
     else
       run "UPDATE reservation_sessions SET finalized_at_ms=?,updated_at_ms=? WHERE node_id=? AND group_id=?"
         [ended; VInt (millis occurredAt); VText nodeID; group]) ;;
    run "UPDATE jobs SET
			finished_at_ms=CASE WHEN finished_at_ms IS NULL OR finished_at_ms>? THEN ? ELSE finished_at_ms END,
			root_exited_at_ms=CASE WHEN root_exited_at_ms>? THEN ? ELSE root_exited_at_ms END
			WHERE session_id=(SELECT session_id FROM reservation_sessions WHERE node_id=? AND group_id=?)"
      [ended; ended; ended; ended; VText nodeID; group]
  else if kind =s "authorization.upsert" then
    payload ← fromResult (ReadAuthorizationUpsert (Event_Payload event));
    applyAuthorization nodeID payload
  else if kind =s "authorization.ended" then
    payload ← fromResult (ReadAuthorizationEnded (Event_Payload event));
    run "UPDATE authorization_scopes SET ended_at_ms=?,end_reason=? WHERE node_id=? AND authorization_id=?"
      [VInt (millis (AuthorizationEnded_EndedAt payload)); VText (AuthorizationEnded_Reason payload);
       VText nodeID; VText (AuthorizationEnded_AuthorizationID payload)]
  else if (kind =s "job.started") || (kind =s "job.updated") || (kind =s "job.finished") then
    payload ← fromResult (ReadJobEvent (Event_Payload event));
    applyJob nodeID serverID serverName payload occurredAt
  else if kind =s "gpu.sample" then
    payload ← fromResult (ReadGPUSample (Event_Payload event));
    applyGPUSample nodeID payload
  else if kind =s "telemetry.gap" then
    payload ← fromResult (ReadGap (Event_Payload event));
    let from := if IsZero (Gap_From payload) then TimeAdd occurredAt (- (24 * Hour)) else Gap_From payload in
    run "UPDATE reservation_sessions SET history_quality='partial',updated_at_ms=? WHERE node_id=? AND expires_at_ms>=?"
      [VInt (millis occurredAt); VText nodeID; VInt (millis from)]
  else ret tt.

(** The statements that keep account of pages: the node, the events that were seen, how far
    a stream was read, and what is old enough to be forgotten. *)
Definition seenNode : string := "INSERT INTO nodes(node_id,last_server_id,first_seen_at_ms,last_seen_at_ms)
		VALUES(?,?,?,?) ON CONFLICT(node_id) DO UPDATE SET last_server_id=excluded.last_server_id,last_seen_at_ms=excluded.last_seen_at_ms".
Definition forgetEvents : string := "DELETE FROM ingested_event_ids WHERE ingested_at_ms < ?".
Definition forgetMinutes : string := "DELETE FROM gpu_minute_rollups WHERE minute_ms < ?".
Definition forgetNodeMinutes : string := "DELETE FROM node_gpu_minute_rollups WHERE minute_ms < ?".
Definition seenEvent : string := "INSERT OR IGNORE INTO ingested_event_ids(node_id,stream_id,seq,ingested_at_ms) VALUES(?,?,?,?)".
Definition saveCursor : string := "INSERT INTO node_sync_state(server_id,node_id,stream_id,cursor,last_seq,last_sync_at_ms,sync_error)
		VALUES(?,?,?,?,?,?, '') ON CONFLICT(server_id) DO UPDATE SET node_id=excluded.node_id,stream_id=excluded.stream_id,
		cursor=excluded.cursor,last_seq=MAX(node_sync_state.last_seq,excluded.last_seq),last_sync_at_ms=excluded.last_sync_at_ms,sync_error=''".
Definition seenArgs (page : Page) (now : Z) (event : Event) : list sqlValue :=
  [VText (Page_NodeID page); VText (Page_StreamID page); VInt (Event_Seq event); VInt now].

Fixpoint applyEvents (serverID serverName : string) (page : Page) (now : Z) (knownOwners : list string)
    (events : list Event) : M Journal unit :=
  match events with
  | [] => ret tt
  | event :: rest =>
      inserted ← exec seenEvent (seenArgs page now event);
      (if inserted =? 0 then ret tt
       else
         r ← try (applyEvent (Page_NodeID page) serverID serverName event knownOwners);
         match r with
         | inl err => throw (Errorf "apply telemetry event %d (%s): %w"
                        [AInt (Event_Seq event); AStr (Event_Type event); AErr err])
         | inr _ => ret tt
         end) ;;
      applyEvents serverID serverName page now knownOwners rest
  end.

Definition ApplyPageWithOwners (serverID serverName : string) (page : Page) (knownOwners : list string)
    : M Journal unit :=
  if (TrimSpace (Page_NodeID page) =s "") || (TrimSpace (Page_StreamID page) =s "")
  then throw (ErrorString "telemetry page is missing node or stream identity")
  else inTx (
    t ← dbNow;
    let now := UnixMilli t in
    run seenNode
      [VText (Page_NodeID page); VText serverID; VInt now; VInt now] ;;
    applyEvents serverID serverName page now knownOwners (Page_Events page) ;;
    let lastSeq := match last (Page_Events page) with Some event => Event_Seq event | None => 0 end in
    run saveCursor
      [VText serverID; VText (Page_NodeID page); VText (Page_StreamID page); VText (Page_NextCursor page);
       VInt lastSeq; VInt now] ;;
    t1 ← dbNow;
    run forgetEvents
      [VInt (UnixMilli (TimeAdd t1 (- (48 * Hour))))] ;;
    t2 ← dbNow;
    run forgetMinutes
      [VInt (UnixMilli (TimeAdd t2 (- (90 * 24 * Hour))))] ;;
    t3 ← dbNow;
    run forgetNodeMinutes
      [VInt (UnixMilli (TimeAdd t3 (- (90 * 24 * Hour))))] ;;
    commit).
Definition ApplyPage (serverID serverName : string) (page : Page) : M Journal unit :=
  ApplyPageWithOwners serverID serverName page [].
End history.
