(* ===== verification/HistorySearch.v ===== *)
(** internal/history/search.go: searches of the history, from the filter of a request to
    the statements that answer it.

    Reading the values of a filter (encoding/json, and [time.Parse] of RFC 3339) is a
    parameter; everything that becomes text of a statement is computed. *)

From S2P Require Export HistoryStore.
#[global] Open Scope Z_scope.

(** * Data *)

Record SearchRule : Type := mkSearchRule
  { Rule_Field : string; Rule_Operator : string; Rule_Value : string }.
Definition SearchGroup : Type := list SearchRule.
Record SearchExpression : Type := mkSearchExpression
  { Expression_ServerID : string; Expression_Groups : list SearchGroup }.
Record SearchSort : Type := mkSearchSort { Sort_Field : string; Sort_Direction : string }.
Record SearchCursor : Type := mkSearchCursor
  { Cursor_Field : string; Cursor_Direction : string; Cursor_ID : string;
    Cursor_Text : option string; Cursor_Number : option float64 }.
Definition SearchCursor_zero : SearchCursor := mkSearchCursor "" "" "" None None.

Definition maxSearchGroups : Z := 8.
Definition maxSearchRulesGroup : Z := 8.
Definition maxSearchRules : Z := 32.
Definition maxSearchStringBytes : Z := 1024.

Definition errInvalidSearchFilter : string := "invalid history filter".
Definition ErrInvalidSearchFilter : error := ErrorString errInvalidSearchFilter.
Definition invalidFilter (format : string) (args : list errarg) : error :=
  Errorf "%w: %s" [AErr ErrInvalidSearchFilter; AStr (Error (Errorf format args))].

(** The JSON values of rules, and timestamps. *)
Class SearchJSON : Type := {
  ReadString : string -> option string;
  ReadStrings : string -> option (list string);
  ReadNumber : string -> option float64;
  ReadNumbers : string -> option (list float64);
  ParseRFC3339 : string -> option time
}.

Definition sessionFactsCTE : string := ("WITH session_facts AS (
	SELECT r.*,
		CASE WHEN r.kind='claimed_run' THEN COALESCE(r.finalized_at_ms,r.updated_at_ms)
			ELSE MIN(r.expires_at_ms,COALESCE(r.revoked_at_ms,r.expires_at_ms)) END AS effective_end_ms,
		MAX(0,CASE WHEN r.kind='claimed_run' THEN COALESCE(r.finalized_at_ms,r.updated_at_ms)
			ELSE MIN(r.expires_at_ms,COALESCE(r.revoked_at_ms,r.expires_at_ms),?) END-r.starts_at_ms) AS duration_ms,
		CASE WHEN r.kind='claimed_run' AND r.finalized_at_ms IS NULL THEN 'active'
			WHEN r.kind='claimed_run' THEN 'completed'
			WHEN r.revoked_at_ms IS NOT NULL THEN 'revoked'
			WHEN r.starts_at_ms>? THEN 'scheduled'
			WHEN r.expires_at_ms>? THEN 'active' ELSE 'completed' END AS derived_status,
		(SELECT COUNT(" +:+ star +:+ ") FROM session_gpus g WHERE g.session_id=r.session_id) AS gpu_count,
		(SELECT MIN(g.gpu) FROM session_gpus g WHERE g.session_id=r.session_id) AS first_gpu,
		(SELECT COUNT(" +:+ star +:+ ") FROM jobs j WHERE j.session_id=r.session_id OR EXISTS (SELECT 1 FROM job_sessions js WHERE js.node_id=j.node_id AND js.job_id=j.job_id AND js.session_id=r.session_id)) AS job_count,
		(SELECT MIN(j.started_at_ms) FROM jobs j WHERE j.session_id=r.session_id OR EXISTS (SELECT 1 FROM job_sessions js WHERE js.node_id=j.node_id AND js.job_id=j.job_id AND js.session_id=r.session_id)) AS first_job_at_ms,
		(SELECT MAX(COALESCE(j.finished_at_ms,j.started_at_ms)) FROM jobs j WHERE j.session_id=r.session_id OR EXISTS (SELECT 1 FROM job_sessions js WHERE js.node_id=j.node_id AND js.job_id=j.job_id AND js.session_id=r.session_id)) AS last_job_at_ms,
		COALESCE((SELECT SUM(s.observed_ms) FROM session_gpu_summaries s WHERE s.session_id=r.session_id),0) AS observed_ms,
		COALESCE((SELECT SUM(s.busy_ms) FROM session_gpu_summaries s WHERE s.session_id=r.session_id),0) AS busy_ms,
		(SELECT SUM(s.utilization_integral) FROM session_gpu_summaries s WHERE s.session_id=r.session_id) AS utilization_integral,
		(SELECT SUM(s.memory_integral) FROM session_gpu_summaries s WHERE s.session_id=r.session_id) AS memory_integral,
		COALESCE((SELECT SUM(s.memory_observed_ms) FROM session_gpu_summaries s WHERE s.session_id=r.session_id),0) AS memory_observed_ms,
		(SELECT MAX(s.peak_memory_bytes) FROM session_gpu_summaries s WHERE s.session_id=r.session_id) AS peak_memory_bytes,
		(SELECT sr.outcome FROM session_results sr WHERE sr.session_id=r.session_id) AS result_outcome
	FROM reservation_sessions r WHERE r.provisioning=0
)").

(** A [map[string]string]. *)
Definition inMap (m : list (string * string)) (key : string) : option string :=
  option_map snd (List.find (fun entry => fst entry =s key) m).

(** * Values *)

Section search.
Context `{SearchJSON}.

(** A condition: text with its arguments. *)
Definition condition : Type := string * list sqlValue.

Definition stringValue (raw : string) : error + string :=
  match ReadString raw with
  | Some value =>
      if (slen raw =? 0) || (maxSearchStringBytes <? slen value)
      then inl (ErrorString "value must be a string up to 1024 bytes") else inr value
  | None => inl (ErrorString "value must be a string up to 1024 bytes")
  end.
Definition stringValues (raw : string) : error + list string :=
  match ReadStrings raw with
  | Some values =>
      if (llen values =? 0) || (20 <? llen values)
      then inl (ErrorString "value must be an array of 1 to 20 strings")
      else if existsb (fun value => maxSearchStringBytes <? slen value) values
      then inl (ErrorString "string value exceeds 1024 bytes")
      else inr values
  | None => inl (ErrorString "value must be an array of 1 to 20 strings")
  end.
Definition numberValue (raw : string) : error + float64 :=
  match ReadNumber raw with
  | Some value => if slen raw =? 0 then inl (ErrorString "value must be a number") else inr value
  | None => inl (ErrorString "value must be a number")
  end.
Definition numberRange (raw : string) : error + float64 * float64 :=
  match ReadNumbers raw with
  | Some [a; b] => if float_ltb b a then inl (ErrorString "value must be an ordered pair of numbers")
                   else inr (a, b)
  | _ => inl (ErrorString "value must be an ordered pair of numbers")
  end.
Definition timestampValue (raw : string) : error + Z :=
  match stringValue raw with
  | inl _ => inl (ErrorString "value must be an RFC3339 timestamp")
  | inr value => match ParseRFC3339 value with
                 | None => inl (ErrorString "value must be an RFC3339 timestamp")
                 | Some t => inr (UnixMilli t)
                 end
  end.
Definition timestampRange (raw : string) : error + Z * Z :=
  match stringValues raw with
  | inr [a; b] =>
      match ParseRFC3339 a with
      | None => inl (ErrorString "value must contain two RFC3339 timestamps")
      | Some first =>
          match ParseRFC3339 b with
          | None => inl (ErrorString "timestamp range must be ordered")
          | Some second =>
              if After first second then inl (ErrorString "timestamp range must be ordered")
              else inr (UnixMilli first, UnixMilli second)
          end
      end
  | _ => inl (ErrorString "value must contain two RFC3339 timestamps")
  end.
Definition lowerAny (values : list string) : list sqlValue := map (fun value => VText (ToLower value)) values.

(** * Rules *)

Definition searchTextFields : list (string * string) :=
  [("purpose", "f.purpose"); ("owner", "f.owner_username"); ("node", "f.server_id");
   ("source", "f.source"); ("kind", "f.kind"); ("status", "f.derived_status");
   ("history_quality", "f.history_quality"); ("result_outcome", "f.result_outcome")].
Definition searchNumberFields : list (string * string) :=
  [("duration_ms", "f.duration_ms"); ("gpu_count", "f.gpu_count");
   ("reserved_ms", "(CASE WHEN f.kind='reservation' THEN f.duration_ms*f.gpu_count ELSE 0 END)");
   ("busy_ms", "f.busy_ms"); ("average_utilization_percent", "(f.utilization_integral/NULLIF(f.observed_ms,0))");
   ("busy_ratio", "(1.0*f.busy_ms/NULLIF(f.observed_ms,0))"); ("coverage", "(1.0*f.observed_ms/NULLIF(f.duration_ms*f.gpu_count,0))");
   ("average_vram_bytes", "(f.memory_integral/NULLIF(f.memory_observed_ms,0))");
   ("peak_vram_bytes", "f.peak_memory_bytes"); ("job_count", "f.job_count")].
Definition searchTimeFields : list (string * string) :=
  [("created_at", "f.created_at_ms"); ("starts_at", "f.starts_at_ms");
   ("effective_end", "f.effective_end_ms")].

(** [strings.Repeat]. *)
Fixpoint Repeat (s : string) (count : nat) : string :=
  match count with O => "" | S count => s +:+ Repeat s count end.

Definition compileTextRule (column op raw : string) : error + condition :=
  if op =s "is_empty" then inr ("(" +:+ column +:+ " IS NULL OR " +:+ column +:+ "='')", [])
  else if op =s "is_not_empty"
  then inr ("(" +:+ column +:+ " IS NOT NULL AND " +:+ column +:+ "!='')", [])
  else if (op =s "in") || (op =s "not_in") then
    values ← stringValues raw;
    let placeholders := TrimSuffix (Repeat "?," (length values)) "," in
    inr ("LOWER(" +:+ column +:+ ")" +:+
         (if op =s "not_in" then " NOT IN " else " IN ") +:+
         "(" +:+ placeholders +:+ ")", lowerAny values)
  else if (op =s "equals") || (op =s "not_equals") || (op =s "contains") || (op =s "not_contains") then
    value ← stringValue raw;
    inr (if op =s "equals" then "LOWER(" +:+ column +:+ ")=LOWER(?)"
         else if op =s "not_equals"
         then "(" +:+ column +:+ " IS NULL OR LOWER(" +:+ column +:+ ")!=LOWER(?))"
         else if op =s "contains" then "INSTR(LOWER(COALESCE(" +:+ column +:+ ",'')),LOWER(?))>0"
         else "INSTR(LOWER(COALESCE(" +:+ column +:+ ",'')),LOWER(?))=0", [VText value])
  else inl (Errorf "unsupported text operator %q" [AStr op]).

Definition numberSymbols : list (string * string) :=
  [("equals", "="); ("not_equals", "!="); ("lt", "<"); ("lte", "<="); ("gt", ">"); ("gte", ">=")].
Definition compileNumberRule (column op raw : string) : error + condition :=
  if op =s "is_empty" then inr (column +:+ " IS NULL", [])
  else if op =s "is_not_empty" then inr (column +:+ " IS NOT NULL", [])
  else if op =s "between" then
    '(a, b) ← numberRange raw;
    inr (column +:+ " BETWEEN ? AND ?", [VReal a; VReal b])
  else match inMap numberSymbols op with
       | None => inl (Errorf "unsupported number operator %q" [AStr op])
       | Some symbol =>
           value ← numberValue raw;
           inr (column +:+ symbol +:+ "?", [VReal value])
       end.

Definition compileTimeRule (column op raw : string) : error + condition :=
  if op =s "is_empty" then inr (column +:+ " IS NULL", [])
  else if op =s "is_not_empty" then inr (column +:+ " IS NOT NULL", [])
  else if op =s "between" then
    '(a, b) ← timestampRange raw;
    inr (column +:+ " BETWEEN ? AND ?", [VInt a; VInt b])
  else if (op =s "before") || (op =s "after") then
    value ← timestampValue raw;
    inr (column +:+ (if op =s "after" then ">" else "<") +:+ "?", [VInt value])
  else inl (Errorf "unsupported time operator %q" [AStr op]).

(** "EXISTS (" the prefix with the predicate ")", negated or not. *)
Definition existing (negative : bool) (prefix : string) (predicate : error + condition) : error + condition :=
  '(text, args) ← predicate;
  let query := "EXISTS (" +:+ prefix +:+ text +:+ ")" in
  inr (if negative then "NOT " +:+ query else query, args).
Definition positiveText : list (string * string) :=
  [("not_equals", "equals"); ("not_contains", "contains"); ("not_in", "in")].
Definition compileExistsTextRule (prefix column op raw : string) : error + condition :=
  let negative := (op =s "not_equals") || (op =s "not_contains") || (op =s "not_in") in
  existing negative prefix
    (compileTextRule column (if negative then default "" (inMap positiveText op) else op) raw).
Definition compileExistsNumberRule (prefix column op raw : string) : error + condition :=
  let negative := op =s "not_equals" in
  existing negative prefix (compileNumberRule column (if negative then "equals" else op) raw).
Definition compileExistsTimeRule (prefix column op raw : string) : error + condition :=
  existing false prefix (compileTimeRule column op raw).

Definition jobTextColumns : list (string * string) :=
  [("source", "j.source"); ("mode", "j.mode"); ("holder", "j.holder"); ("end_reason", "j.end_reason");
   ("start_precision", "j.start_precision"); ("finish_precision", "j.finish_precision")].
Definition jobNumberColumns : list (string * string) := [("exit_code", "j.exit_code")].
Definition jobTimeColumns : list (string * string) :=
  [("started_at", "j.started_at_ms"); ("finished_at", "j.finished_at_ms")].
Definition association : string := "(j.session_id=f.session_id OR EXISTS (SELECT 1 FROM job_sessions js WHERE js.node_id=j.node_id AND js.job_id=j.job_id AND js.session_id=f.session_id))".
Definition jobPrefix : string := "SELECT 1 FROM jobs j WHERE " +:+ association +:+ " AND ".
Definition positiveCommand : list (string * string) :=
  [("not_contains", "contains"); ("not_equals", "equals")].

Definition compileJobGPURule (op raw : string) : error + condition :=
  if op =s "is_empty" then
    inr ("EXISTS (SELECT 1 FROM jobs j WHERE (j.session_id=f.session_id OR EXISTS (SELECT 1 FROM job_sessions js WHERE js.node_id=j.node_id AND js.job_id=j.job_id AND js.session_id=f.session_id))
				AND NOT EXISTS (SELECT 1 FROM job_gpus jg WHERE jg.node_id=j.node_id AND jg.job_id=j.job_id))", [])
  else if op =s "is_not_empty" then
    inr ("EXISTS (SELECT 1 FROM jobs j JOIN job_gpus jg ON jg.node_id=j.node_id AND jg.job_id=j.job_id WHERE " +:+ association +:+ ")", [])
  else compileExistsNumberRule ("SELECT 1 FROM jobs j JOIN job_gpus jg ON jg.node_id=j.node_id AND jg.job_id=j.job_id WHERE " +:+ association +:+ " AND ") "jg.gpu" op raw.
Definition compileCommandRule (op raw : string) : error + condition :=
  if (op =s "is_empty") || (op =s "is_not_empty") then
    inr ("EXISTS (SELECT 1 FROM jobs j WHERE " +:+ association +:+ " AND " +:+
         (if op =s "is_not_empty" then "COALESCE(json_array_length(j.command_json),0)>0"
          else "COALESCE(json_array_length(j.command_json),0)=0") +:+ ")", [])
  else
    let negative := (op =s "not_contains") || (op =s "not_equals") in
    let positiveOp := if negative then default "" (inMap positiveCommand op) else op in
    if (positiveOp <>s "contains") && (positiveOp <>s "equals")
    then inl (ErrorString "job.command supports equals, not_equals, contains, or not_contains")
    else
      value ← stringValue raw;
      let compare := if positiveOp =s "contains" then "INSTR(LOWER(CAST(a.value AS TEXT)),LOWER(?))>0"
                     else "LOWER(CAST(a.value AS TEXT))=LOWER(?)" in
      let query := "EXISTS (SELECT 1 FROM jobs j, json_each(j.command_json) a WHERE " +:+ association +:+ " AND " +:+ compare +:+ ")" in
      inr (if negative then "NOT " +:+ query else query, [VText value]).

Definition compileJobRule (field op raw : string) : error + condition :=
  match inMap jobTextColumns field with
  | Some column => compileExistsTextRule jobPrefix column op raw
  | None =>
  match inMap jobNumberColumns field with
  | Some column => compileExistsNumberRule jobPrefix column op raw
  | None =>
  match inMap jobTimeColumns field with
  | Some column => compileExistsTimeRule jobPrefix column op raw
  | None =>
      if field =s "gpu" then compileJobGPURule op raw
      else if field =s "command" then compileCommandRule op raw
      else inl (Errorf "unsupported job field %q" [AStr field])
  end end end.

Definition compileGPURule (op raw : string) : error + condition :=
  if op =s "is_empty" then inr ("NOT EXISTS (SELECT 1 FROM session_gpus g WHERE g.session_id=f.session_id)", [])
  else if op =s "is_not_empty" then inr ("EXISTS (SELECT 1 FROM session_gpus g WHERE g.session_id=f.session_id)", [])
  else compileExistsNumberRule "SELECT 1 FROM session_gpus g WHERE g.session_id=f.session_id AND " "g.gpu" op raw.

Definition compileSearchRule (rule : SearchRule) : error + condition :=
  let field := TrimSpace (Rule_Field rule) in
  let op := TrimSpace (Rule_Operator rule) in
  let raw := Rule_Value rule in
  if field =s "session_window" then
    match timestampRange raw with
    | inr (a, b) =>
        if op <>s "overlaps" then inl (ErrorString "session_window requires overlaps with two RFC3339 values")
        else inr ("(f.effective_end_ms>=? AND f.starts_at_ms<?)", [VInt a; VInt b])
    | inl _ => inl (ErrorString "session_window requires overlaps with two RFC3339 values")
    end
  else if field =s "gpu" then compileGPURule op raw
  else if HasPrefix field "job." then compileJobRule (TrimPrefix field "job.") op raw
  else match inMap searchTextFields field with
  | Some column => compileTextRule column op raw
  | None =>
  match inMap searchNumberFields field with
  | Some column => compileNumberRule column op raw
  | None =>
  match inMap searchTimeFields field with
  | Some column => compileTimeRule column op raw
  | None => inl (Errorf "unsupported field %q" [AStr field])
  end end end.

(** * Expressions *)

(** The rules of a group, from number [ruleIndex] on. *)
Fixpoint compileRules (groupIndex ruleIndex : Z) (rules : list SearchRule)
    : error + list string * list sqlValue :=
  match rules with
  | [] => inr ([], [])
  | rule :: rest =>
      match compileSearchRule rule with
      | inl err => inl (invalidFilter "group %d rule %d: %v" [AInt (groupIndex + 1); AInt (ruleIndex + 1); AErr err])
      | inr (text, values) =>
          '(texts, args) ← compileRules groupIndex (ruleIndex + 1) rest;
          inr (text :: texts, values ++ args)
      end
  end.
Fixpoint compileGroups (groupIndex total : Z) (groups : list SearchGroup)
    : error + list string * list sqlValue :=
  match groups with
  | [] => inr ([], [])
  | group :: rest =>
      if llen group =? 0 then inl (invalidFilter "group %d must contain a rule" [AInt (groupIndex + 1)])
      else if maxSearchRulesGroup <? llen group
      then inl (invalidFilter "group %d exceeds %d rules" [AInt (groupIndex + 1); AInt maxSearchRulesGroup])
      else
        let total := total + llen group in
        if maxSearchRules <? total then inl (invalidFilter "at most %d rules are allowed" [AInt maxSearchRules])
        else
          '(rules, values) ← compileRules groupIndex 0 group;
          '(texts, args) ← compileGroups (groupIndex + 1) total rest;
          inr (("(" +:+ Join rules " OR " +:+ ")") :: texts, values ++ args)
  end.
Definition compileSearchExpression (expression : SearchExpression) : error + condition :=
  if maxSearchGroups <? llen (Expression_Groups expression)
  then inl (invalidFilter "at most %d groups are allowed" [AInt maxSearchGroups])
  else
    let serverID := TrimSpace (Expression_ServerID expression) in
    let '(server, serverArgs) :=
      if serverID <>s "" then (["f.server_id=?"], [VText serverID]) else ([], []) in
    '(texts, args) ← compileGroups 0 0 (Expression_Groups expression);
    match server ++ texts with
    | [] => inr ("1=1", [])
    | groups => inr (Join groups " AND ", serverArgs ++ args)
    end.

(** * Sorting *)

Record searchSortSpec : Type := mkSortSpec
  { spec_field : string; spec_direction : string; spec_expression : string; spec_kind : string }.
Definition sortFields : list (string * (string * string)) :=
  [("purpose", ("LOWER(COALESCE(f.purpose,''))", "text"));
   ("owner", ("LOWER(COALESCE(f.owner_username,''))", "text"));
   ("starts_at", ("CAST(f.starts_at_ms AS REAL)", "number"));
   ("gpu", ("CAST(COALESCE(f.first_gpu,-1) AS REAL)", "number"));
   ("average_utilization_percent",
    ("COALESCE(f.utilization_integral/NULLIF(f.observed_ms,0),-1)", "number"));
   ("job_count", ("CAST(f.job_count AS REAL)", "number"));
   ("status", ("LOWER(f.derived_status)", "text"))].
Definition compileSearchSort (sort : SearchSort) : error + searchSortSpec :=
  let field := TrimSpace (Sort_Field sort) in
  let field := if field =s "" then "starts_at" else field in
  match List.find (fun entry => fst entry =s field) sortFields with
  | None => inl (invalidFilter "unsupported sort field %q" [AStr field])
  | Some (_, (expression, kind)) =>
      let direction := ToLower (TrimSpace (Sort_Direction sort)) in
      let direction := if direction =s "" then if field =s "starts_at" then "desc" else "asc"
                       else direction in
      if (direction <>s "asc") && (direction <>s "desc")
      then inl (invalidFilter "sort direction must be asc or desc" [])
      else inr (mkSortSpec field direction expression kind)
  end.
Definition cursorValue (spec : searchSortSpec) (cursor : SearchCursor) : error + sqlValue :=
  if spec_kind spec =s "text" then
    match Cursor_Text cursor with
    | None => inl (invalidFilter "cursor is missing text sort value" [])
    | Some text => inr (VText text)
    end
  else match Cursor_Number cursor with
       | None => inl (invalidFilter "cursor is missing numeric sort value" [])
       | Some number => inr (VReal number)
       end.

(** The condition of a page after a cursor. *)
Definition afterCursor (spec : searchSortSpec) (cursor : SearchCursor) : error + condition :=
  if Cursor_ID cursor =s "" then inr ("", [])
  else if (Cursor_Field cursor <>s spec_field spec) || (Cursor_Direction cursor <>s spec_direction spec)
  then inl (invalidFilter "cursor does not match sort" [])
  else
    value ← cursorValue spec cursor;
    let comparison := if spec_direction spec =s "desc" then "<" else ">" in
    inr (" AND (" +:+ spec_expression spec +:+ comparison +:+ "? OR (" +:+ spec_expression spec +:+
         "=? AND f.session_id" +:+ comparison +:+ "?))", [value; value; VText (Cursor_ID cursor)]).

(** [strings.ToUpper] of a direction. *)
Definition upperDirection (direction : string) : string := if direction =s "desc" then "DESC" else "ASC".

(** * The search *)

Context `{Database} `{HistoryJSON}.

Definition summaryQuery (predicate : string) : string := sessionFactsCTE +:+ (" SELECT COUNT(" +:+ star +:+ "),
		COUNT(CASE WHEN kind='reservation' THEN 1 END),COUNT(CASE WHEN kind='claimed_run' THEN 1 END),
		COALESCE(SUM(CASE WHEN kind='reservation' THEN duration_ms*gpu_count ELSE 0 END),0),
		COALESCE(SUM(CASE WHEN kind='reservation' THEN observed_ms ELSE 0 END),0),
		COALESCE(SUM(CASE WHEN kind='reservation' THEN busy_ms ELSE 0 END),0),
		SUM(CASE WHEN kind='reservation' THEN utilization_integral ELSE 0 END) FROM session_facts f WHERE ") +:+ predicate.
Definition jobSummaryQuery (predicate : string) : string :=
  sessionFactsCTE +:+ ", matched_sessions AS (SELECT f.session_id FROM session_facts f WHERE " +:+ predicate +:+ ")
		SELECT COUNT(DISTINCT j.node_id||':'||j.job_id) FROM jobs j WHERE EXISTS (
			SELECT 1 FROM matched_sessions m WHERE j.session_id=m.session_id OR EXISTS (
				SELECT 1 FROM job_sessions js WHERE js.node_id=j.node_id AND js.job_id=j.job_id AND js.session_id=m.session_id
			)
		)".
Definition listQuery (spec : searchSortSpec) (pagePredicate : string) : string :=
  sessionFactsCTE +:+ " SELECT f.session_id,f.kind,f.server_id,f.server_name,f.node_id,f.owner_username,f.owner_editable,f.purpose,f.source,
		f.created_at_ms,f.starts_at_ms,f.expires_at_ms,f.revoked_at_ms,f.finalized_at_ms,f.history_quality,
		f.job_count,f.first_job_at_ms,f.last_job_at_ms FROM session_facts f WHERE " +:+ pagePredicate +:+
  " ORDER BY " +:+ spec_expression spec +:+ " " +:+ upperDirection (spec_direction spec) +:+
  ",f.session_id " +:+ upperDirection (spec_direction spec) +:+ " LIMIT ?".
Definition cursorQuery (spec : searchSortSpec) : string :=
  sessionFactsCTE +:+ " SELECT " +:+ spec_expression spec +:+ " FROM session_facts f WHERE f.session_id=?".

Definition scanSummary (row : list sqlValue) : error + (Z * Z * Z * Z * (Z * Z * option float64)) :=
  match row with
  | [a; b; c; reserved; observed; busy; integral] =>
      a ← scanInt a; b ← scanInt b; c ← scanInt c; reserved ← scanInt reserved;
      observed ← scanInt observed; busy ← scanInt busy; integral ← scanNullReal integral;
      inr (a, b, c, reserved, (observed, busy, integral))
  | _ => inl errColumns
  end.

(** The cursor after the last session of a page. *)
Definition nextCursor (spec : searchSortSpec) (cteArgs : list sqlValue) (sessions : list Session)
    : M Journal SearchCursor :=
  let next := mkSearchCursor (spec_field spec) (spec_direction spec) in
  match last sessions with
  | None => ret (next "" None None)
  | Some session =>
      let args := cteArgs ++ [VText (Session_ID session)] in
      if spec_kind spec =s "text" then
        value ← queryRow (cursorQuery spec) args (scanOne scanText);
        ret (next (Session_ID session) (Some value) None)
      else
        value ← queryRow (cursorQuery spec) args (scanOne scanReal);
        ret (next (Session_ID session) None (Some value))
  end.

Definition Search (expression : SearchExpression) (sort : SearchSort) (limit : Z) (cursor : SearchCursor)
    : M Journal (DashboardSummary * list Session * SearchCursor) :=
  '(predicate, predicateArgs) ← fromResult (compileSearchExpression expression);
  spec ← fromResult (compileSearchSort sort);
  let limit := boundedLimit limit 50 in
  t ← dbNow;
  let cteArgs := repeat (VInt (UnixMilli t)) 3 in
  inTx (
    let summaryArgs := cteArgs ++ predicateArgs in
    '(total, reservations, runs, reserved, metrics) ← queryRow (summaryQuery predicate) summaryArgs scanSummary;
    jobs ← queryRow (jobSummaryQuery predicate) summaryArgs (scanOne scanInt);
    '(observed, busy, integral, hasGlobal) ← nodeWideGPUMetrics (Expression_ServerID expression);
    let '(hours, coverage) :=
      if 0 <? reserved
      then (float_div (float_of_Z reserved) hourMillis,
            float_div (float_of_Z (fst (fst metrics))) (float_of_Z reserved))
      else (float_zero, float_zero) in
    let summary := withMetrics (if hasGlobal : bool then (observed, busy, integral) else metrics)
                     hours coverage total reservations runs jobs in
    '(page, pageArgs) ← fromResult (afterCursor spec cursor);
    rows ← query (listQuery spec (predicate +:+ page))
             (cteArgs ++ (predicateArgs ++ pageArgs) ++ [VInt limit]);
    sessions ← scanSessions rows;
    next ← nextCursor spec cteArgs sessions;
    commit ;;
    sessions ← enrichSessions sessions;
    ret (summary, sessions, next)).
End search.

(** * The text of conditions

    [lex] reads a text outside and inside quotes, and counts open parentheses and
    placeholders. *)

Fixpoint lex (quoted : bool) (depth holes : nat) (s : string) : option (bool * nat * nat) :=
  match s with
  | EmptyString => Some (quoted, depth, holes)
  | String c rest =>
      if byte_val c =? 39 then lex (negb quoted) depth holes rest
      else if quoted then lex quoted depth holes rest
      else if byte_val c =? 40 then lex false (S depth) holes rest
      else if byte_val c =? 41 then match depth with O => None | S depth => lex false depth holes rest end
      else if byte_val c =? 63 then lex false depth (S holes) rest
      else lex false depth holes rest
  end.

(** A text whose quotes and parentheses are closed, with [n] placeholders. *)
Definition closed (n : nat) (s : string) : Prop := lex false 0 0 s = Some (false, O, n).
(** A condition with a placeholder for each of its arguments. *)
Definition parameterized (c : condition) : Prop := closed (length (snd c)) (fst c).

Lemma lex_app s : forall q d h t, lex q d h (s +:+ t) =
  match lex q d h s with Some (q', d', h') => lex q' d' h' t | None => None end.
Proof.
  induction s as [|c s IH]; intros q d h t; [done|].
  change (String c s +:+ t) with (String c (s +:+ t)). cbn [lex].
  destruct (_ =? 39); [apply IH|]. destruct q; [apply IH|]. destruct (_ =? 40); [apply IH|].
  destruct (_ =? 41); [destruct d; [done|apply IH]|]. destruct (_ =? 63); apply IH.
Qed.
Lemma lex_shift s : forall q d h q' d' h' k j, lex q d h s = Some (q', d', h') ->
  lex q (k + d) (j + h) s = Some (q', (k + d')%nat, (j + h')%nat).
Proof.
  induction s as [|c s IH]; intros q d h q' d' h' k j; cbn [lex]; [by intros [= <- <- <-]|].
  destruct (_ =? 39); [apply IH|]. destruct q; [apply IH|].
  destruct (_ =? 40); [rewrite plus_n_Sm; apply IH|].
  destruct (_ =? 41).
  { destruct d; [done|]. rewrite <- plus_n_Sm. apply IH. }
  destruct (_ =? 63); [rewrite plus_n_Sm|]; apply IH.
Qed.
Lemma closed_lex n s : closed n s -> forall d h, lex false d h s = Some (false, d, (h + n)%nat).
Proof.
  intros C d h. pose proof (lex_shift _ _ _ _ _ _ _ d h C) as E. by rewrite !Nat.add_0_r in E.
Qed.

Lemma lex_holes q d h q' d' k s : lex q d 0 s = Some (q', d', k) -> lex q d h s = Some (q', d', (h + k)%nat).
Proof. intros E. pose proof (lex_shift _ _ _ _ _ _ _ 0 h E) as W. by rewrite Nat.add_0_r in W. Qed.

(** Texts of pieces: literals are read, closed pieces passed over. *)
Ltac lex_piece :=
  match goal with
  | |- context [lex ?q ?d ?h (?s +:+ ?t)] => rewrite (lex_app s q d h t)
  | C : closed ?n ?s |- context [lex false ?d ?h ?s] => rewrite (closed_lex n s C d h)
  | |- context [lex ?q ?d ?h (String ?c ?s)] =>
      let r := eval vm_compute in (lex q d 0 (String c s)) in
      match r with
      | Some (?q', ?d', ?k) => rewrite (lex_holes q d h q' d' k (String c s)) by (vm_compute; reflexivity)
      end
  end.
Ltac lexing := unfold closed; repeat (lex_piece; cbv beta iota);
  try solve [reflexivity | do 2 f_equal; lia].

(** ** Rules *)

Section rules.
Context `{SearchJSON}.

(** What is asked of a compiled condition: it is parameterized, by at most twenty values. *)
Definition sound (r : error + condition) : Prop :=
  match r with inr c => parameterized c /\ (length (snd c) <= 20)%nat | inl _ => True end.
(** Two conditions, if both are, have the same text. *)
Definition sameText (r r' : error + condition) : Prop :=
  match r, r' with inr c, inr c' => fst c = fst c' | _, _ => True end.

Lemma sound_literal text : closed 0 text -> sound (inr (text, [])).
Proof. intros C. split; [done|cbn; lia]. Qed.
Lemma sound_bind {A} (r : error + A) (k : A -> error + condition) :
  (forall a, r = inr a -> sound (k a)) -> sound (r ≫= k).
Proof. intros W. destruct r as [e|a]; [done|]. by apply W. Qed.
Lemma sameText_bind {A} (r r' : error + A) (k k' : A -> error + condition) :
  (forall a a', r = inr a -> r' = inr a' -> sameText (k a) (k' a')) -> sameText (r ≫= k) (r' ≫= k').
Proof.
  intros W. destruct r as [e|a], r' as [e'|a']; cbn; try done; [|by apply W].
  unfold sameText. by destruct (k a).
Qed.

Lemma Repeat_snoc s n : Repeat s (S n) = Repeat s n +:+ s.
Proof.
  induction n as [|n IH]; [by rewrite (string_app_nil_r s : Repeat s 1 = s)|].
  change (Repeat s (S (S n))) with (s +:+ Repeat s (S n)). rewrite IH at 1.
  change (Repeat s (S n)) with (s +:+ Repeat s n). by rewrite string_app_assoc.
Qed.
Lemma closed_Repeat n : closed n (Repeat "?," n).
Proof. induction n as [|n IH]; [done|]. rewrite Repeat_snoc. lexing. Qed.
Lemma closed_placeholders n : (0 < n)%nat -> closed n (TrimSuffix (Repeat "?," n) ",").
Proof.
  intros P. destruct n as [|n]; [lia|]. rewrite Repeat_snoc. pose proof (closed_Repeat n) as C.
  revert C. generalize (Repeat "?," n). intros s C. change "?," with ("?" +:+ ",").
  rewrite <- string_app_assoc, TrimSuffix_app. lexing.
Qed.

Lemma stringValues_count raw values : stringValues raw = inr values ->
  ReadStrings raw = Some values /\ (0 < length values <= 20)%nat.
Proof.
  unfold stringValues. destruct (ReadStrings raw) as [l|]; [|done].
  destruct (_ || _) eqn:E; [done|]. destruct (existsb _ _); [done|]. intros [= <-]. split; [done|].
  apply orb_false_iff in E as [E1%Z.eqb_neq E2%Z.ltb_ge]. unfold llen in *. lia.
Qed.

Ltac sound_pieces := split; [unfold parameterized; cbn [fst snd length]; lexing|cbn [snd length]; lia].

Lemma textRule_sound column op raw : closed 0 column -> sound (compileTextRule column op raw).
Proof.
  intros C. unfold compileTextRule.
  destruct (op =s "is_empty"); [apply sound_literal; lexing|].
  destruct (op =s "is_not_empty"); [apply sound_literal; lexing|].
  destruct ((op =s "in") || _).
  { apply sound_bind. intros values V%stringValues_count. cbv zeta. destruct V as [_ V].
    pose proof (closed_placeholders (length values) ltac:(lia)) as Cp.
    assert (length (lowerAny values) = length values) as L by apply length_map.
    split; [|cbn [snd]; lia]. unfold parameterized. cbn [fst snd]. rewrite L.
    destruct (op =s "not_in"); lexing. }
  destruct (_ || _); [|done]. apply sound_bind. intros value _.
  destruct (op =s "equals"); [sound_pieces|]. destruct (op =s "not_equals"); [sound_pieces|].
  destruct (op =s "contains"); sound_pieces.
Qed.
Lemma textRule_same column op raw raw' :
  option_map length (ReadStrings raw) = option_map length (ReadStrings raw') ->
  sameText (compileTextRule column op raw) (compileTextRule column op raw').
Proof.
  intros E. unfold compileTextRule.
  destruct (op =s "is_empty"); [done|]. destruct (op =s "is_not_empty"); [done|].
  destruct ((op =s "in") || _).
  { apply sameText_bind. intros l l' [R _]%stringValues_count [R' _]%stringValues_count. cbv zeta.
    rewrite R, R' in E. cbn in E. injection E as E. cbn. by rewrite E. }
  destruct (_ || _); [|done]. by apply sameText_bind.
Qed.

(** A lookup in a finite map. *)
Lemma inMap_elem m key value (P : string -> Prop) : inMap m key = Some value ->
  Forall (fun entry => P (snd entry)) m -> P value.
Proof.
  unfold inMap. destruct (List.find _ m) as [entry|] eqn:F; [|done]. intros [= <-] A.
  apply List.find_some in F as [I _]. apply list_elem_of_In in I. by apply (proj1 (Forall_forall _ _) A).
Qed.
Ltac in_map := eapply inMap_elem; [eassumption|]; repeat constructor.

Lemma numberRule_sound column op raw : closed 0 column -> sound (compileNumberRule column op raw).
Proof.
  intros C. unfold compileNumberRule.
  destruct (op =s "is_empty"); [apply sound_literal; lexing|].
  destruct (op =s "is_not_empty"); [apply sound_literal; lexing|].
  destruct (op =s "between"). { apply sound_bind. intros [a b] _. sound_pieces. }
  destruct (inMap numberSymbols op) as [symbol|] eqn:E; [|done].
  assert (closed 0 symbol) as Cs by in_map.
  apply sound_bind. intros value _. sound_pieces.
Qed.
Lemma numberRule_same column op raw raw' :
  sameText (compileNumberRule column op raw) (compileNumberRule column op raw').
Proof.
  unfold compileNumberRule. destruct (op =s "is_empty"); [done|]. destruct (op =s "is_not_empty"); [done|].
  destruct (op =s "between"). { apply sameText_bind. by intros [a b] [a' b']. }
  destruct (inMap numberSymbols op); [|done]. by apply sameText_bind.
Qed.
Lemma timeRule_sound column op raw : closed 0 column -> sound (compileTimeRule column op raw).
Proof.
  intros C. unfold compileTimeRule.
  destruct (op =s "is_empty"); [apply sound_literal; lexing|].
  destruct (op =s "is_not_empty"); [apply sound_literal; lexing|].
  destruct (op =s "between"). { apply sound_bind. intros [a b] _. sound_pieces. }
  destruct (_ || _); [|done]. apply sound_bind. intros value _. destruct (op =s "after"); sound_pieces.
Qed.
Lemma timeRule_same column op raw raw' :
  sameText (compileTimeRule column op raw) (compileTimeRule column op raw').
Proof.
  unfold compileTimeRule. destruct (op =s "is_empty"); [done|]. destruct (op =s "is_not_empty"); [done|].
  destruct (op =s "between"). { apply sameText_bind. by intros [a b] [a' b']. }
  destruct (_ || _); [|done]. by apply sameText_bind.
Qed.

Lemma existing_sound negative prefix r : closed 0 prefix -> sound r -> sound (existing negative prefix r).
Proof.
  intros C S. unfold existing. apply sound_bind. intros [text args] ->. destruct S as [P L].
  unfold parameterized in P. cbn [fst snd] in P, L. cbv zeta. split; [|done].
  unfold parameterized. cbn [fst snd]. destruct negative; lexing.
Qed.
Lemma existing_same negative prefix r r' : sameText r r' ->
  sameText (existing negative prefix r) (existing negative prefix r').
Proof.
  destruct r as [e|[t a]], r' as [e'|[t' a']]; try done. cbn. intros ->. done.
Qed.

Lemma closed_association : closed 0 association.
Proof. vm_compute. reflexivity. Qed.
Lemma closed_jobPrefix : closed 0 jobPrefix.
Proof. vm_compute. reflexivity. Qed.

Lemma existsText_sound prefix column op raw : closed 0 prefix -> closed 0 column ->
  sound (compileExistsTextRule prefix column op raw).
Proof. intros. apply existing_sound; [done|]. by apply textRule_sound. Qed.
Lemma existsNumber_sound prefix column op raw : closed 0 prefix -> closed 0 column ->
  sound (compileExistsNumberRule prefix column op raw).
Proof. intros. apply existing_sound; [done|]. by apply numberRule_sound. Qed.
Lemma existsTime_sound prefix column op raw : closed 0 prefix -> closed 0 column ->
  sound (compileExistsTimeRule prefix column op raw).
Proof. intros. apply existing_sound; [done|]. by apply timeRule_sound. Qed.

Lemma gpuRule_sound op raw : sound (compileGPURule op raw).
Proof.
  unfold compileGPURule. destruct (op =s "is_empty"); [by apply sound_literal|].
  destruct (op =s "is_not_empty"); [by apply sound_literal|]. by apply existsNumber_sound.
Qed.
Lemma gpuRule_same op raw raw' : sameText (compileGPURule op raw) (compileGPURule op raw').
Proof.
  unfold compileGPURule. destruct (op =s "is_empty"); [done|]. destruct (op =s "is_not_empty"); [done|].
  apply existing_same, numberRule_same.
Qed.
Lemma jobGPURule_sound op raw : sound (compileJobGPURule op raw).
Proof.
  unfold compileJobGPURule. destruct (op =s "is_empty"); [by apply sound_literal|].
  destruct (op =s "is_not_empty"); [by apply sound_literal|]. by apply existsNumber_sound.
Qed.
Lemma jobGPURule_same op raw raw' : sameText (compileJobGPURule op raw) (compileJobGPURule op raw').
Proof.
  unfold compileJobGPURule. destruct (op =s "is_empty"); [done|]. destruct (op =s "is_not_empty"); [done|].
  apply existing_same, numberRule_same.
Qed.
Lemma commandRule_sound op raw : sound (compileCommandRule op raw).
Proof.
  unfold compileCommandRule. destruct (_ || _).
  { apply sound_literal. by destruct (op =s "is_not_empty"). }
  cbv zeta. set (positiveOp := if _ || _ then _ else op). destruct (_ && _); [done|].
  apply sound_bind. intros value _. split; [|cbn; lia].
  destruct (positiveOp =s "contains"), (_ || _); vm_compute; reflexivity.
Qed.
Lemma commandRule_same op raw raw' : sameText (compileCommandRule op raw) (compileCommandRule op raw').
Proof.
  unfold compileCommandRule. destruct (_ || _); [done|]. cbv zeta. destruct (_ && _); [done|].
  by apply sameText_bind.
Qed.

Lemma jobRule_sound field op raw : sound (compileJobRule field op raw).
Proof.
  pose proof closed_jobPrefix as Cp. unfold compileJobRule.
  destruct (inMap jobTextColumns field) as [column|] eqn:E1; [apply existsText_sound; [done|in_map]|].
  destruct (inMap jobNumberColumns field) as [column|] eqn:E2; [apply existsNumber_sound; [done|in_map]|].
  destruct (inMap jobTimeColumns field) as [column|] eqn:E3; [apply existsTime_sound; [done|in_map]|].
  destruct (field =s "gpu"); [apply jobGPURule_sound|].
  destruct (field =s "command"); [apply commandRule_sound|done].
Qed.
Lemma jobRule_same field op raw raw' :
  option_map length (ReadStrings raw) = option_map length (ReadStrings raw') ->
  sameText (compileJobRule field op raw) (compileJobRule field op raw').
Proof.
  intros E. unfold compileJobRule.
  destruct (inMap jobTextColumns field); [by apply existing_same, textRule_same|].
  destruct (inMap jobNumberColumns field); [apply existing_same, numberRule_same|].
  destruct (inMap jobTimeColumns field); [apply existing_same, timeRule_same|].
  destruct (field =s "gpu"); [apply jobGPURule_same|].
  destruct (field =s "command"); [apply commandRule_same|done].
Qed.

(** What of a rule may show in the text: field, operator, and the number of values. *)
Definition shapeOf (rule : SearchRule) : string * string * option nat :=
  (TrimSpace (Rule_Field rule), TrimSpace (Rule_Operator rule), option_map length (ReadStrings (Rule_Value rule))).

Lemma rule_sound rule : sound (compileSearchRule rule).
Proof.
  unfold compileSearchRule. cbv zeta. destruct (_ =s "session_window").
  { destruct (timestampRange _) as [e|[a b]]; [done|]. destruct (negb _); [done|].
    split; [vm_compute; reflexivity|cbn; lia]. }
  destruct (_ =s "gpu"); [apply gpuRule_sound|]. destruct (HasPrefix _ _); [apply jobRule_sound|].
  destruct (inMap searchTextFields _) as [column|] eqn:E1; [apply textRule_sound; in_map|].
  destruct (inMap searchNumberFields _) as [column|] eqn:E2; [apply numberRule_sound; in_map|].
  destruct (inMap searchTimeFields _) as [column|] eqn:E3; [apply timeRule_sound; in_map|done].
Qed.
Lemma rule_same rule rule' : shapeOf rule = shapeOf rule' ->
  sameText (compileSearchRule rule) (compileSearchRule rule').
Proof.
  unfold shapeOf. intros [= F O E]. unfold compileSearchRule. rewrite F, O. cbv zeta.
  destruct (_ =s "session_window").
  { destruct (timestampRange _) as [e|[a b]]; [done|]. destruct (negb _); [done|].
    by destruct (timestampRange _) as [e'|[a' b']]. }
  destruct (_ =s "gpu"); [apply gpuRule_same|]. destruct (HasPrefix _ _); [by apply jobRule_same|].
  destruct (inMap searchTextFields _); [by apply textRule_same|].
  destruct (inMap searchNumberFields _); [apply numberRule_same|].
  destruct (inMap searchTimeFields _); [apply timeRule_same|done].
Qed.

(** ** Expressions *)

(** Texts, each closed, with as many placeholders in all as there are arguments. *)
Inductive closedAll : nat -> list string -> Prop :=
  | closedAll_nil : closedAll 0 []
  | closedAll_cons n m s l : closed n s -> closedAll m l -> closedAll (n + m) (s :: l).

Lemma closed_Join n l sep : closed 0 sep -> closedAll n l -> closed n (Join l sep).
Proof.
  intros Cs. induction 1 as [|n m s l C A IH]; [done|]. destruct l as [|s' l].
  - inversion A. subst. rewrite Nat.add_0_r. exact C.
  - change (Join (s :: s' :: l) sep) with (s +:+ sep +:+ Join (s' :: l) sep). lexing.
Qed.
Lemma closedAll_app n m l l' : closedAll n l -> closedAll m l' -> closedAll (n + m) (l ++ l').
Proof.
  intros A B. induction A as [|k j s l C A IH]; [done|]. rewrite <- Nat.add_assoc. by constructor.
Qed.

Lemma compileRules_sound g rules : forall i texts args, compileRules g i rules = inr (texts, args) ->
  closedAll (length args) texts /\ length texts = length rules /\ (length args <= 20 * length rules)%nat.
Proof.
  induction rules as [|rule rules IH]; intros i texts args; cbn [compileRules].
  { intros [= <- <-]. split; [constructor|]. split; [done|cbn; lia]. }
  pose proof (rule_sound rule) as S. destruct (compileSearchRule rule) as [e|[text values]]; [done|].
  destruct (compileRules g (i + 1) rules) as [e|[texts' args']] eqn:R; [done|].
  intros [= <- <-]. destruct (IH _ _ _ R) as (A & L & B). destruct S as [P Lv]. cbn [snd] in Lv.
  rewrite length_app. split; [by constructor|]. cbn [length]. lia.
Qed.
Lemma compileRules_same g rules : forall i rules' r r', map shapeOf rules = map shapeOf rules' ->
  compileRules g i rules = inr r -> compileRules g i rules' = inr r' -> fst r = fst r'.
Proof.
  induction rules as [|rule rules IH]; intros i [|rule' rules'] r r'; try done; cbn [compileRules map].
  { by intros _ [= <-] [= <-]. }
  intros [= F O L E]. pose proof (rule_same rule rule' ltac:(unfold shapeOf; congruence)) as S.
  destruct (compileSearchRule rule) as [e|[text values]]; [done|].
  destruct (compileSearchRule rule') as [e|[text' values']]; [done|].
  destruct (compileRules g (i + 1) rules) as [e|x] eqn:R; [done|].
  destruct (compileRules g (i + 1) rules') as [e|x'] eqn:R'; [done|].
  destruct x as [texts args], x' as [texts' args']. intros [= <-] [= <-].
  cbn [fst] in *. f_equal; [exact S|]. apply (IH (i + 1) rules' _ _ E R R').
Qed.

Lemma compileGroups_sound groups : forall g total texts args, compileGroups g total groups = inr (texts, args) ->
  closedAll (length args) texts /\ (Z.of_nat (length args) <= 20 * (sumOf llen groups)) /\
  (sumOf llen groups <= Z.max 0 (maxSearchRules - total)).
Proof.
  induction groups as [|group groups IH]; intros g total texts args; cbn [compileGroups].
  { intros [= <- <-]. split; [constructor|]. cbn. lia. }
  destruct (_ =? 0); [done|]. destruct (_ <? _); [done|]. cbv zeta.
  destruct (Z.ltb_spec maxSearchRules (total + llen group)) as [|Le]; [done|].
  destruct (compileRules g 0 group) as [e|[rules values]] eqn:R; [done|].
  destruct (compileGroups (g + 1) (total + llen group) groups) as [e|[texts' args']] eqn:G; [done|].
  intros [= <- <-]. destruct (compileRules_sound _ _ _ _ _ R) as (A & _ & B).
  destruct (IH _ _ _ _ G) as (A' & B' & T'). rewrite length_app, sumOf_cons.
  split. { constructor; [|done]. pose proof (closed_Join _ _ " OR " ltac:(done) A). lexing. }
  pose proof (llen_nonneg group). unfold llen at 1 2 3. unfold llen in Le, T' |- *. unfold llen in B'. lia.
Qed.
Lemma compileGroups_same groups : forall g total groups' r r',
  map (map shapeOf) groups = map (map shapeOf) groups' ->
  compileGroups g total groups = inr r -> compileGroups g total groups' = inr r' -> fst r = fst r'.
Proof.
  induction groups as [|group groups IH]; intros g total [|group' groups'] r r'; try done; cbn [compileGroups map].
  { by intros _ [= <-] [= <-]. }
  intros [= E E']. assert (llen group = llen group') as L.
  { apply (f_equal length) in E. rewrite !length_map in E. unfold llen. by rewrite E. }
  rewrite <- L. destruct (_ =? 0); [done|]. destruct (_ <? _); [done|]. cbv zeta. destruct (_ <? _); [done|].
  destruct (compileRules g 0 group) as [e|x] eqn:R; [done|].
  destruct (compileRules g 0 group') as [e|x'] eqn:R'; [done|].
  pose proof (compileRules_same _ _ _ _ _ _ E R R') as S. destruct x as [rules values], x' as [rules' values'].
  cbn [fst] in S. subst rules'.
  destruct (compileGroups (g + 1) _ groups) as [e|y] eqn:G; [done|].
  destruct (compileGroups (g + 1) _ groups') as [e|y'] eqn:G'; [done|].
  destruct y as [texts args], y' as [texts' args']. intros [= <-] [= <-]. cbn [fst].
  f_equal. apply (IH (g + 1) (total + llen group) groups' _ _ E' G G').
Qed.

(** Expressions that differ in values only. *)
Definition alike (e e' : SearchExpression) : Prop :=
  (TrimSpace (Expression_ServerID e) = "" <-> TrimSpace (Expression_ServerID e') = "") /\
  map (map shapeOf) (Expression_Groups e) = map (map shapeOf) (Expression_Groups e').

Lemma expression_sound e c : compileSearchExpression e = inr c ->
  parameterized c /\ (length (snd c) <= 641)%nat.
Proof.
  unfold compileSearchExpression. destruct (_ <? _); [done|]. cbv zeta.
  assert (exists server serverArgs, (if TrimSpace (Expression_ServerID e) <>s ""
    then (["f.server_id=?"], [VText (TrimSpace (Expression_ServerID e))]) else ([], [])) = (server, serverArgs) /\
    closedAll (length serverArgs) server /\ (length serverArgs <= 1)%nat) as (server & serverArgs & -> & As & Ls).
  { destruct (negb _); eexists _, _; (split; [done|]); (split; [|cbn; lia]); [|constructor].
    apply (closedAll_cons 1 0); [done|constructor]. }
  destruct (compileGroups 0 0 _) as [err|[texts args]] eqn:G; [done|].
  destruct (compileGroups_sound _ _ _ _ _ G) as (A & B & T). cbn [mbind sum_error_bind].
  pose proof (closedAll_app _ _ _ _ As A) as AA. rewrite <- length_app in AA.
  assert (length (serverArgs ++ args) <= 641)%nat as Lt.
  { rewrite length_app. unfold maxSearchRules in T. lia. }
  destruct (server ++ texts) as [|text rest] eqn:E; intros [= <-].
  - split; [done|cbn; lia].
  - split; [|done]. exact (closed_Join _ (text :: rest) " AND " ltac:(done) AA).
Qed.
Lemma expression_same e e' c c' : alike e e' -> compileSearchExpression e = inr c ->
  compileSearchExpression e' = inr c' -> fst c = fst c'.
Proof.
  intros [Sv Sg]. unfold compileSearchExpression.
  assert (llen (Expression_Groups e) = llen (Expression_Groups e')) as L.
  { pose proof (f_equal length Sg) as Sl. rewrite !length_map in Sl. unfold llen. f_equal. exact Sl. }
  rewrite <- L. destruct (_ <? _); [done|]. cbv zeta.
  destruct (compileGroups 0 0 (Expression_Groups e)) as [err|x] eqn:G.
  { by destruct (negb _). }
  destruct (compileGroups 0 0 (Expression_Groups e')) as [err|x'] eqn:G'.
  { intros _. by destruct (TrimSpace (Expression_ServerID e') =s ""). }
  pose proof (compileGroups_same _ _ _ _ _ _ Sg G G') as S. destruct x as [texts args], x' as [texts' args'].
  cbn [fst] in S. subst texts'. cbn [mbind sum_error_bind].
  destruct (String.eqb_spec (TrimSpace (Expression_ServerID e)) "") as [Z|Z],
    (String.eqb_spec (TrimSpace (Expression_ServerID e')) "") as [Z'|Z']; try tauto; cbn [negb app].
  - by destruct texts; intros [= <-] [= <-].
  - by intros [= <-] [= <-].
Qed.

(** What a filter is refused with. *)
Lemma invalidFilter_is format args : errors_Is (invalidFilter format args) errInvalidSearchFilter = true.
Proof. done. Qed.
Lemma compileRules_error g rules : forall i err, compileRules g i rules = inl err ->
  errors_Is err errInvalidSearchFilter = true.
Proof.
  induction rules as [|rule rules IH]; intros i err; cbn [compileRules]; [done|].
  destruct (compileSearchRule rule) as [e|[text values]]; [by intros [= <-]|].
  destruct (compileRules g (i + 1) rules) as [e|[texts args]] eqn:R; [|done]. intros [= <-]. by eapply IH.
Qed.
Lemma compileGroups_error groups : forall g total err, compileGroups g total groups = inl err ->
  errors_Is err errInvalidSearchFilter = true.
Proof.
  induction groups as [|group groups IH]; intros g total err; cbn [compileGroups]; [done|].
  destruct (_ =? 0); [by intros [= <-]|]. destruct (_ <? _); [by intros [= <-]|]. cbv zeta.
  destruct (_ <? _); [by intros [= <-]|].
  destruct (compileRules g 0 group) as [e|[rules values]] eqn:R; [intros [= <-]; by eapply compileRules_error|].
  destruct (compileGroups (g + 1) _ groups) as [e|[texts args]] eqn:G; [|done]. intros [= <-]. by eapply IH.
Qed.
Lemma expression_error e err : compileSearchExpression e = inl err ->
  errors_Is err errInvalidSearchFilter = true.
Proof.
  unfold compileSearchExpression. destruct (_ <? _); [by intros [= <-]|]. cbv zeta.
  destruct (compileGroups 0 0 _) as [err'|[texts args]] eqn:G;
    destruct (negb _); cbn; try (by intros [= <-]; eapply compileGroups_error); try done; by destruct texts.
Qed.
Lemma sort_error sort err : compileSearchSort sort = inl err -> errors_Is err errInvalidSearchFilter = true.
Proof.
  unfold compileSearchSort. cbv zeta. destruct (List.find _ _) as [[? [? ?]]|]; [|by intros [= <-]].
  destruct (_ && _); [by intros [= <-]|done].
Qed.
Lemma cursor_error spec cursor err : afterCursor spec cursor = inl err ->
  errors_Is err errInvalidSearchFilter = true.
Proof.
  unfold afterCursor, cursorValue. destruct (_ =s ""); [done|]. destruct (_ || _); [by intros [= <-]|].
  destruct (_ =s "text"); [destruct (Cursor_Text cursor)|destruct (Cursor_Number cursor)]; by intros [= <-].
Qed.
End rules.
