(* ===== verification/HistoryFacts.v ===== *)
(** Properties of the history of the gateway (HistoryStore, HistorySearch): the statements
    that its methods make, which of them take effect, and the minutes of a sample. *)

From S2P Require Export HistorySearch.
From S2P Require Import MonadLogic.
#[global] Open Scope Z_scope.

(** * What a method says to the database *)

Section traces.
Context `{Database}.

(** The calls of a method that begins in [j]. *)
Definition newCalls {A} (m : M Journal A) (j : Journal) : list (nat * sqlCall) :=
  drop (length (j_log j)) (j_log (final m j)).

(** [m] makes calls, and has an answer, that are in [Q]. *)
Definition traced {A} (m : M Journal A) (Q : list (nat * sqlCall) -> error + A -> Prop) : Prop :=
  forall j, exists cs, j_log (final m j) = j_log j ++ cs /\ Q cs (result m j).

Lemma traced_calls {A} (m : M Journal A) Q j : traced m Q -> Q (newCalls m j) (result m j).
Proof. intros T. destruct (T j) as (cs & E & W). unfold newCalls. by rewrite E, drop_app_length. Qed.

Lemma traced_weaken {A} (m : M Journal A) (Q Q' : _ -> _ -> Prop) :
  traced m Q -> (forall cs r, Q cs r -> Q' cs r) -> traced m Q'.
Proof. intros T W j. destruct (T j) as (cs & E & Qc). exists cs. auto. Qed.
Lemma traced_bind {A B} (m : M Journal A) (k : A -> M Journal B) (R Q : _ -> _ -> Prop) :
  traced m R -> (forall e cs, R cs (inl e) -> Q cs (inl e)) ->
  (forall a cs, R cs (inr a) -> traced (k a) (fun cs' r => Q (cs ++ cs') r)) -> traced (m ≫= k) Q.
Proof.
  intros T He Hk j. destruct (T j) as (cs & E & Rc). unfold final, result, mbind, M_bind, bind in *.
  destruct (m j) as [[e|a] j1]; cbn [fst snd] in *; [exists cs; auto|].
  destruct (Hk a cs Rc j1) as (cs' & E' & Qc). unfold final, result in *.
  exists (cs ++ cs'). by rewrite E', E, <- app_assoc.
Qed.
Lemma traced_ret {A} (r : error + A) (Q : _ -> _ -> Prop) : Q [] r -> traced (fromResult r) Q.
Proof. intros W j. exists []. rewrite app_nil_r. by destruct r. Qed.
Lemma traced_call {A} (call : sqlCall) (answer : nat -> error + A) (Q : _ -> _ -> Prop) :
  (forall n, Q [(n, call)] (answer n)) -> traced (n ← called call; fromResult (answer n)) Q.
Proof.
  intros W j. exists [(j_turn j, call)]. specialize (W (j_turn j)).
  unfold final, result, called, mbind, M_bind, bind. cbn.
  by destruct (answer (j_turn j)).
Qed.
Lemma traced_try {A} (m : M Journal A) (Q : _ -> _ -> Prop) :
  traced m (fun cs r => Q cs (inr r)) -> traced (try m) Q.
Proof.
  intros T j. destruct (T j) as (cs & E & W). exists cs. unfold final, result, try in *.
  by destruct (m j) as [r j1].
Qed.

(** ** Calls that are all in [P] *)

Definition Calls {A} (P : sqlCall -> Prop) (m : M Journal A) : Prop :=
  traced m (fun cs _ => Forall (fun c => P (snd c)) cs).

Lemma Calls_bind {A B} P (m : M Journal A) (k : A -> M Journal B) :
  Calls P m -> (forall a, Calls P (k a)) -> Calls P (m ≫= k).
Proof.
  intros Cm Ck. eapply traced_bind; [exact Cm|done|]. intros a cs F.
  eapply traced_weaken; [apply Ck|]. intros cs' r F'. cbn beta in *. by apply Forall_app_2.
Qed.
Lemma Calls_ret {A} P (a : A) : Calls P (mret a).
Proof. by apply (traced_ret (inr a)). Qed.
Lemma Calls_ret' {A} P (a : A) : Calls P (ret a).
Proof. by apply (traced_ret (inr a)). Qed.
Lemma Calls_throw {A} P e : Calls P (throw e : M Journal A).
Proof. by apply (traced_ret (inl e)). Qed.
Lemma Calls_fromResult {A} P (r : error + A) : Calls P (fromResult r).
Proof. by apply traced_ret. Qed.
Lemma Calls_fail_if P b e : Calls P (fail_if b e).
Proof. destruct b; [apply Calls_throw|apply Calls_ret']. Qed.
Lemma Calls_try {A} P (m : M Journal A) : Calls P m -> Calls P (try m).
Proof. intros C. apply traced_try. exact C. Qed.
Lemma Calls_now P : Calls P dbNow.
Proof. intros j. exists []. cbn. by rewrite app_nil_r. Qed.
Lemma Calls_query (P : sqlCall -> Prop) sql args : P (Queried sql args) -> Calls P (query sql args).
Proof. intros W. apply traced_call. intros n. by constructor. Qed.
Lemma Calls_exec (P : sqlCall -> Prop) sql args : P (Executed sql args) -> Calls P (exec sql args).
Proof. intros W. apply traced_call. intros n. by constructor. Qed.
Lemma Calls_run (P : sqlCall -> Prop) sql args : P (Executed sql args) -> Calls P (run sql args).
Proof. intros W. apply Calls_bind; [by apply Calls_exec|]. intros _. apply Calls_ret'. Qed.
Lemma Calls_queryRow {A} (P : sqlCall -> Prop) sql args (scan : _ -> error + A) :
  P (Queried sql args) -> Calls P (queryRow sql args scan).
Proof.
  intros W. apply Calls_bind; [by apply Calls_query|]. intros [|row rows]; [apply Calls_throw|].
  apply Calls_fromResult.
Qed.
Lemma Calls_queryRowOpt {A} (P : sqlCall -> Prop) sql args (scan : _ -> error + A) :
  P (Queried sql args) -> Calls P (queryRowOpt sql args scan).
Proof.
  intros W. apply Calls_bind; [by apply Calls_try, Calls_queryRow|]. intros [e|a]; [|apply Calls_ret'].
  destruct (errors_Is e errNoRows); [apply Calls_ret'|apply Calls_throw].
Qed.
Lemma Calls_weaken {A} (P P' : sqlCall -> Prop) (m : M Journal A) :
  Calls P m -> (forall c, P c -> P' c) -> Calls P' m.
Proof. intros C W. eapply traced_weaken; [exact C|]. intros cs r F. cbn beta in *. eapply Forall_impl; [exact F|]. auto. Qed.

(** Statements with a placeholder for each argument; questions are those that change nothing. *)
Definition statement (call : sqlCall) : Prop :=
  match call with
  | Queried sql args | Executed sql args => closed (length args) sql
  | _ => False
  end.
Definition question (call : sqlCall) : Prop :=
  match call with Queried sql args => closed (length args) sql | _ => False end.
Lemma question_statement call : question call -> statement call.
Proof. by destruct call. Qed.
End traces.

Create HintDb calls.
#[export] Hint Resolve Calls_ret Calls_ret' Calls_throw Calls_fromResult Calls_fail_if Calls_now
  Calls_try : calls.
Ltac closing := solve [vm_compute; reflexivity].
(** The calls of a method, along its code. *)
Ltac calls_step :=
  match goal with
  | |- forall _, _ => intros ?
  | |- Calls _ (let '(_, _) := ?x in _) => destruct x
  | |- Calls _ (match ?x with _ => _ end) => destruct x
  | |- Calls _ (let x := _ in _) => cbv zeta
  | |- Calls _ (_ ≫= _) => apply Calls_bind
  | |- Calls _ (run _ _) => apply Calls_run; closing
  | |- Calls _ (exec _ _) => apply Calls_exec; closing
  | |- Calls _ (query _ _) => apply Calls_query; closing
  | |- Calls _ (queryRow _ _ _) => apply Calls_queryRow; closing
  | |- Calls _ (queryRowOpt _ _ _) => apply Calls_queryRowOpt; closing
  | |- Calls _ (try _) => apply Calls_try
  end.
Ltac calls := repeat first [solve [auto with calls]|calls_step].

(** ** The statements of HistoryStore *)

Section statements.
Context `{Database} `{HistoryJSON}.

Lemma closed_clauses l : Forall (fun c => closed (length (snd c)) (fst c)) l ->
  closed (length (clauseArgs l)) (clauseText l).
Proof.
  induction 1 as [|c l C _ IH]; [done|].
  change (clauseText (c :: l)) with (fst c +:+ clauseText l).
  change (clauseArgs (c :: l)) with (snd c ++ clauseArgs l). rewrite length_app. lexing.
Qed.
Ltac clause := repeat first [apply Forall_nil_2|apply Forall_cons; split; [vm_compute; reflexivity|]].
Lemma filterClauses_closed filter : Forall (fun c => closed (length (snd c)) (fst c)) (filterClauses filter).
Proof.
  unfold filterClauses. repeat (apply Forall_app_2).
  - destruct (negb _); clause.
  - destruct (negb _); clause.
  - destruct (Filter_From filter); clause.
  - destruct (Filter_To filter); clause.
Qed.
Lemma statusClauses_closed status now : Forall (fun c => closed (length (snd c)) (fst c)) (statusClauses status now).
Proof. unfold statusClauses. repeat (destruct (_ =s _); [clause|]). clause. Qed.
Lemma beforeClauses_closed filter : Forall (fun c => closed (length (snd c)) (fst c)) (beforeClauses filter).
Proof. unfold beforeClauses. destruct (_ <? _); clause. Qed.

Lemma scanSessions_calls P rows : Calls P (scanSessions rows).
Proof. induction rows as [|row rows IH]; cbn [scanSessions]; unfold scanSession; calls. Qed.
Lemma sessionGPUs_calls id : Calls question (sessionGPUs id).
Proof. unfold sessionGPUs. calls. Qed.
Lemma gpuSummaries_calls s : Calls question (gpuSummaries s).
Proof. unfold gpuSummaries. calls. Qed.
Lemma timeline_calls id : Calls question (timeline id).
Proof. unfold timeline. calls. Qed.
Lemma authorizationScopes_calls id : Calls question (authorizationScopes id).
Proof. unfold authorizationScopes. calls. Qed.
Lemma resultOf_calls id : Calls question (resultOf id).
Proof. unfold resultOf. calls. Qed.
Hint Resolve scanSessions_calls sessionGPUs_calls gpuSummaries_calls timeline_calls
  authorizationScopes_calls resultOf_calls : calls.
Lemma enrichSessions_calls sessions : Calls question (enrichSessions sessions).
Proof. induction sessions as [|s sessions IH]; cbn [enrichSessions]; calls. Qed.
Hint Resolve enrichSessions_calls : calls.

(** A statement around a closed part. *)
Ltac around := unfold star; cbn [statement question app length]; rewrite ?length_app; cbn [length];
  repeat match goal with C : closed (length ?l) _ |- _ => revert C; generalize (length l); intros ? C end;
  lexing.

Lemma ListSessions_calls filter : Calls question (ListSessions filter).
Proof.
  unfold ListSessions. cbv zeta. apply Calls_bind; [apply Calls_now|]. intros now.
  pose proof (closed_clauses _ (Forall_app_2 _ _ _ (filterClauses_closed filter) (Forall_app_2 _ _ _
    (beforeClauses_closed filter) (statusClauses_closed (Filter_Status filter) (UnixMilli now))))) as C.
  revert C. generalize (clauseText (filterClauses filter ++ beforeClauses filter ++ statusClauses (Filter_Status filter) (UnixMilli now))),
    (clauseArgs (filterClauses filter ++ beforeClauses filter ++ statusClauses (Filter_Status filter) (UnixMilli now))).
  intros text args C. apply Calls_bind; [apply Calls_query; around|calls].
Qed.
Lemma GetSession_calls id : Calls question (GetSession id).
Proof. unfold GetSession. calls; unfold scanSession; calls. Qed.
Lemma jobsWithGPUs_calls pending : Calls question (jobsWithGPUs pending).
Proof. induction pending as [|[[job node] id] pending IH]; cbn [jobsWithGPUs]; calls. Qed.
Hint Resolve jobsWithGPUs_calls : calls.
Lemma ListJobs_calls id limit afterMS afterID : Calls question (ListJobs id limit afterMS afterID).
Proof.
  unfold ListJobs. cbv zeta. apply Calls_bind; [apply Calls_query|calls]. destruct (_ <? _); closing.
Qed.
Lemma nodeWideGPUMetrics_calls serverID : Calls question (nodeWideGPUMetrics serverID).
Proof. unfold nodeWideGPUMetrics. cbv zeta. apply Calls_queryRow. destruct (negb _); closing. Qed.
Hint Resolve nodeWideGPUMetrics_calls : calls.
Lemma HistorySummary_calls filter : Calls question (HistorySummary filter).
Proof.
  unfold HistorySummary. apply Calls_bind; [calls|]. intros t. cbv zeta.
  match goal with |- context [clauseText ?l] => pose proof (closed_clauses l
    (Forall_app_2 _ _ _ (filterClauses_closed filter) (statusClauses_closed _ _))) as C end.
  revert C. set (l := filterClauses filter ++ _). generalize (clauseText l), (clauseArgs l). intros text args C.
  apply Calls_bind; [apply Calls_queryRow; around|]. intros [[[a b] c] d].
  apply Calls_bind; [apply Calls_queryRow; around|]. intros [[e f] g].
  apply Calls_bind; [apply Calls_queryRow; around|]. intros jobs. calls.
Qed.
End statements.

(** ** Transactions *)

Section transactions.
Context `{Database}.

(** The statements among calls that were executed, and those that took effect: at once
    outside a transaction, with the commit inside.  [pending] is the open transaction. *)
Definition executed (cs : list (nat * sqlCall)) : list (string * list sqlValue) :=
  omap (fun c => match snd c with Executed sql args => Some (sql, args) | _ => None end) cs.
Fixpoint effects (pending : option (list (string * list sqlValue))) (cs : list (nat * sqlCall))
    : list (string * list sqlValue) :=
  match cs with
  | [] => []
  | (n, Begun) :: rest => effects (match beginOf n with None => Some [] | Some _ => None end) rest
  | (_, Queried _ _) :: rest => effects pending rest
  | (n, Executed sql args) :: rest =>
      match pending, execOf n with
      | Some done_, _ => effects (Some (done_ ++ [(sql, args)])) rest
      | None, inr _ => (sql, args) :: effects None rest
      | None, inl _ => effects None rest
      end
  | (n, Committed) :: rest =>
      match pending, commitOf n with
      | Some done_, None => done_ ++ effects None rest
      | _, _ => effects None rest
      end
  | (_, RolledBack) :: rest => effects None rest
  end.

(** The body of a transaction: statements, and then either an error, or a commit with what
    is in [R] after it. *)
Definition committed {A} (R : list (nat * sqlCall) -> error + A -> Prop)
    (cs : list (nat * sqlCall)) (r : error + A) : Prop :=
  (Forall (fun c => statement (snd c)) cs /\ exists err, r = inl err) \/
  exists pre n post, cs = pre ++ (n, Committed) :: post /\ Forall (fun c => statement (snd c)) pre /\
    Forall (fun c => question (snd c)) post /\
    match commitOf n with Some err => post = [] /\ r = inl err | None => R post r end.
(** Nothing follows. *)
Definition done_ {A} (post : list (nat * sqlCall)) (r : error + A) : Prop := post = [] /\ exists a, r = inr a.

Lemma committed_bind {A B} R (m : M Journal A) (k : A -> M Journal B) :
  Calls statement m -> (forall a, traced (k a) (committed R)) -> traced (m ≫= k) (committed R).
Proof.
  intros Cm Ck. eapply traced_bind; [exact Cm| |].
  { intros e cs F. left. eauto. }
  intros a cs F. eapply traced_weaken; [apply Ck|]. intros cs' r [[F' W]|(pre & n & post & -> & F' & W)]; cbn beta in F.
  - left. split; [by apply Forall_app_2|done].
  - right. exists (cs ++ pre), n, post. split; [by rewrite app_assoc|]. split; [by apply Forall_app_2|done].
Qed.
Lemma committed_throw {A} R err : traced (throw err : M Journal A) (committed R).
Proof. intros j. exists []. rewrite app_nil_r. split; [done|]. left. eauto. Qed.

Lemma commit_traced : traced commit (fun cs r => exists n, cs = [(n, Committed)] /\
  match commitOf n with Some err => r = inl err | None => r = inr tt end).
Proof.
  intros j. exists [(j_turn j, Committed)]. unfold final, result, commit, called, mbind, M_bind, bind. cbn.
  unfold check. destruct (commitOf (j_turn j)) as [err|] eqn:E; cbn; (split; [done|]); eexists; by rewrite E.
Qed.
Lemma committed_commit : traced commit (committed done_).
Proof.
  eapply traced_weaken; [apply commit_traced|]. intros cs r (n & -> & W). right. exists [], n, [].
  repeat split; try constructor. destruct (commitOf n); [done|]. split; eauto.
Qed.
(** What follows is [m], and so is the answer. *)
Definition answeredBy {A} (m : M Journal A) (post : list (nat * sqlCall)) (r : error + A) : Prop :=
  exists j, post = newCalls m j /\ r = result m j.
Lemma traced_answeredBy {A} (m : M Journal A) Q : traced m Q ->
  traced m (fun cs r => Q cs r /\ answeredBy m cs r).
Proof.
  intros T j. destruct (T j) as (cs & E & W). exists cs. split; [done|]. split; [done|]. exists j.
  unfold newCalls. by rewrite E, drop_app_length.
Qed.
Lemma committed_then {A} (m : M Journal A) :
  Calls question m -> traced (commit ;; m) (committed (answeredBy m)).
Proof.
  intros Cm%traced_answeredBy. eapply traced_bind; [apply commit_traced| |].
  - intros e cs (n & -> & W). right. exists [], n, []. repeat split; try constructor.
    destruct (commitOf n) as [err|]; [by injection W as ->|done].
  - intros [] cs (n & -> & W). eapply traced_weaken; [exact Cm|]. intros cs' r [F An]. cbn beta in F.
    right. exists [], n, cs'. split; [done|]. split; [constructor|]. split; [done|]. by destruct (commitOf n).
Qed.

(** ** What takes effect *)

Lemma executed_app cs cs' : executed (cs ++ cs') = executed cs ++ executed cs'.
Proof. apply omap_app. Qed.
Lemma executed_questions cs : Forall (fun c => question (snd c)) cs -> executed cs = [].
Proof. induction 1 as [|[n c] cs Q _ IH]; [done|]. by destruct c. Qed.
Lemma executed_transaction a pre n post b : Forall (fun c => question (snd c)) post ->
  executed ((a, Begun) :: pre ++ (n, Committed) :: post ++ [(b, RolledBack)]) = executed pre.
Proof.
  intros F. change (executed (pre ++ [(n, Committed)] ++ post ++ [(b, RolledBack)]) = executed pre).
  rewrite !executed_app, (executed_questions post F). cbn. by rewrite app_nil_r.
Qed.
Lemma effects_questions p cs : Forall (fun c => question (snd c)) cs -> effects p cs = [].
Proof. intros F. revert p. induction F as [|[n c] cs Q _ IH]; intros p; [done|]. destruct c; try done. cbn. apply IH. Qed.
Lemma effects_statements cs rest : Forall (fun c => statement (snd c)) cs -> forall l,
  effects (Some l) (cs ++ rest) = effects (Some (l ++ executed cs)) rest.
Proof.
  induction 1 as [|[n c] cs Q _ IH]; intros l; [by rewrite app_nil_r|]. destruct c; try done; cbn [app effects].
  - exact (IH l).
  - rewrite IH. by rewrite <- app_assoc.
Qed.
Lemma effects_questions_then p cs rest : Forall (fun c => question (snd c)) cs ->
  effects p (cs ++ rest) = effects p rest.
Proof. intros F. revert p. induction F as [|[n c] cs Q _ IH]; intros p; [done|]. destruct c; try done. apply IH. Qed.

(** A call whose statement, if it makes one, has a placeholder for each argument. *)
Definition parametric (call : sqlCall) : Prop :=
  match call with Queried sql args | Executed sql args => closed (length args) sql | _ => True end.

(** A transaction takes effect as a whole, with its commit, or not at all. *)
Definition atomically {A} (R : list (nat * sqlCall) -> error + A -> Prop) (m : M Journal A) : Prop :=
  traced m (fun cs r =>
    Forall (fun c => parametric (snd c)) cs /\
    ((effects None cs = [] /\ exists err, r = inl err) \/
     (effects None cs = executed cs /\ exists post, R post r))).

Lemma atomically_weaken {A} (R R' : list (nat * sqlCall) -> error + A -> Prop) (m : M Journal A) :
  atomically R m -> (forall post r, R post r -> R' post r) -> atomically R' m.
Proof.
  intros T W. eapply traced_weaken; [exact T|]. intros cs r [P [E|[E (post & Rp)]]]; split; eauto.
Qed.

Lemma inTx_traced {A} (body : M Journal A) Q : traced body Q ->
  traced (inTx body) (fun cs r => (exists a err, cs = [(a, Begun)] /\ beginOf a = Some err /\ r = inl err) \/
    exists a b cs', cs = (a, Begun) :: cs' ++ [(b, RolledBack)] /\ beginOf a = None /\ Q cs' r).
Proof.
  intros T j. destruct (T (mkJournal (S (j_turn j)) (j_log j ++ [(j_turn j, Begun)]))) as (cs & E & W).
  unfold inTx, final, result, called, try, check, mbind, M_bind, bind in *. cbn [fst snd].
  destruct (beginOf (j_turn j)) as [err|] eqn:Eb; cbn [throw fst snd j_log].
  { exists [(j_turn j, Begun)]. split; [done|]. left. by exists (j_turn j), err. }
  cbn [ret]. destruct (body _) as [r j1]. cbn [fst snd] in *. unfold fromResult.
  exists ((j_turn j, Begun) :: cs ++ [(j_turn j1, RolledBack)]).
  split. { destruct r; cbn; rewrite E; cbn [j_log]; by rewrite <- !app_assoc. }
  right. exists (j_turn j), (j_turn j1), cs. by destruct r.
Qed.
Lemma inTx_atomically {A} R (body : M Journal A) :
  traced body (committed R) -> atomically R (inTx body).
Proof.
  intros T. eapply traced_weaken; [exact (inTx_traced body _ T)|].
  assert (forall cs : list (nat * sqlCall), Forall (fun c => statement (snd c)) cs -> Forall (fun c => parametric (snd c)) cs) as Pl.
  { intros cs F. eapply Forall_impl; [exact F|]. by intros [n []]. }
  assert (forall cs : list (nat * sqlCall), Forall (fun c => question (snd c)) cs -> Forall (fun c => parametric (snd c)) cs) as Pq.
  { intros cs F. eapply Forall_impl; [exact F|]. by intros [n []]. }
  intros cs r [(a & err & -> & Eb & ->)|(a & b & cs' & -> & Eb & W)].
  { split; [by repeat constructor|]. left. cbn. destruct (beginOf a); eauto. }
  destruct W as [[F (err & ->)]|(pre & n & post & -> & F & F' & W)].
  - split. { constructor; [done|]. apply Forall_app_2; [by apply Pl|by repeat constructor]. }
    left. split; [|eauto]. cbn [effects]. rewrite Eb. by rewrite effects_statements.
  - split.
    { constructor; [done|]. repeat apply Forall_app_2; [by apply Pl| |by repeat constructor].
      constructor; [done|by apply Pq]. }
    rewrite <- app_assoc. cbn [effects]. rewrite Eb, effects_statements by done. cbn [app effects].
    rewrite effects_questions_then by done. cbn [effects].
    destruct (commitOf n) as [err|] eqn:En.
    + left. split; [done|]. destruct W as [-> ->]. eauto.
    + right. split; [|eauto]. by rewrite app_nil_r, executed_transaction.
Qed.
End transactions.

(** ** The statements of the methods that write *)

Section writes.
Context `{Database} `{HistoryJSON}.

Lemma asked {A} (m : M Journal A) : Calls question m -> Calls statement m.
Proof. intros C. eapply Calls_weaken; [exact C|]. apply question_statement. Qed.
Hint Resolve asked resultOf_calls : calls.

Lemma insertArtifacts_calls id artifacts : forall position, Calls statement (insertArtifacts id position artifacts).
Proof. induction artifacts as [|artifact artifacts IH]; intros position; cbn [insertArtifacts]; calls. Qed.
Lemma insertPendingGPUs_calls id gpus : Calls statement (insertPendingGPUs id gpus).
Proof. induction gpus as [|gpu gpus IH]; cbn [insertPendingGPUs]; calls. Qed.
Lemma confirmGPUs_calls id gpus : forall ids, Calls statement (confirmGPUs id gpus ids).
Proof. induction gpus as [|gpu gpus IH]; intros ids; cbn [confirmGPUs]; calls. Qed.
Lemma revokeMissing_calls at_ missing : Calls statement (revokeMissing at_ missing).
Proof. induction missing as [|id missing IH]; cbn [revokeMissing]; calls. Qed.
Lemma insertMembers_calls sql id members : closed 3 sql -> Calls statement (insertMembers sql id members).
Proof.
  intros C. induction members as [|member members IH]; cbn [insertMembers]; [calls|].
  apply Calls_bind; [apply Calls_run; exact C|calls].
Qed.
Lemma applyReservation_calls nodeID serverID serverName payload occurredAt owners :
  Calls statement (applyReservation nodeID serverID serverName payload occurredAt owners).
Proof. unfold applyReservation. calls; apply insertMembers_calls; closing. Qed.
Lemma firstSession_calls nodeID groups : forall found, Calls statement (firstSession nodeID groups found).
Proof. induction groups as [|group groups IH]; intros found; cbn [firstSession]; calls. Qed.
Lemma linkAuthorization_calls nodeID id groups : Calls statement (linkAuthorization nodeID id groups).
Proof. induction groups as [|group groups IH]; cbn [linkAuthorization]; calls. Qed.
Hint Resolve insertArtifacts_calls insertPendingGPUs_calls confirmGPUs_calls revokeMissing_calls
  applyReservation_calls firstSession_calls linkAuthorization_calls : calls.
Lemma applyAuthorization_calls nodeID payload : Calls statement (applyAuthorization nodeID payload).
Proof. unfold applyAuthorization. calls. Qed.
Lemma sessionsOfJob_calls nodeID groups : Calls statement (sessionsOfJob nodeID groups).
Proof. induction groups as [|group groups IH]; cbn [sessionsOfJob]; calls. Qed.
Lemma claimedRun_calls nodeID serverID serverName payload occurredAt :
  Calls statement (claimedRun nodeID serverID serverName payload occurredAt).
Proof. unfold claimedRun. calls. Qed.
Lemma linkSessions_calls nodeID payload sessions : Calls statement (linkSessions nodeID payload sessions).
Proof. induction sessions as [|session sessions IH]; cbn [linkSessions]; calls. Qed.
Lemma insertJobGPUs_calls nodeID id session gpus : Calls statement (insertJobGPUs nodeID id session gpus).
Proof. induction gpus as [|gpu gpus IH]; cbn [insertJobGPUs]; calls. Qed.
Hint Resolve applyAuthorization_calls sessionsOfJob_calls claimedRun_calls linkSessions_calls
  insertJobGPUs_calls : calls.
Lemma applyJob_calls nodeID serverID serverName payload occurredAt :
  Calls statement (applyJob nodeID serverID serverName payload occurredAt).
Proof. unfold applyJob. calls. Qed.
Lemma minuteLoop_calls P fuel apply end_ : (forall minute duration, Calls P (apply minute duration)) ->
  forall cursor, Calls P (minuteLoop fuel apply cursor end_).
Proof.
  intros W. induction fuel as [|fuel IH]; intros cursor; cbn [minuteLoop]; [calls|].
  destruct (negb _); [calls|]. cbv zeta. destruct (_ <=? 0); [calls|].
  apply Calls_bind; [apply W|]. intros _. apply IH.
Qed.
Lemma nodeInterval_calls nodeID gpu minute duration : Calls statement (nodeInterval nodeID gpu minute duration).
Proof. unfold nodeInterval. calls. Qed.
Lemma sessionInterval_calls id gpu minute duration : Calls statement (sessionInterval id gpu minute duration).
Proof. unfold sessionInterval. calls. Qed.
Lemma applySampleGPUs_calls nodeID payload gpus : Calls statement (applySampleGPUs nodeID payload gpus).
Proof.
  induction gpus as [|gpu gpus IH]; cbn [applySampleGPUs]; [calls|].
  apply Calls_bind; [apply minuteLoop_calls, nodeInterval_calls|]. intros _.
  calls. apply minuteLoop_calls, sessionInterval_calls.
Qed.
Hint Resolve applyJob_calls applySampleGPUs_calls : calls.
Lemma applyEvent_calls nodeID serverID serverName event owners :
  Calls statement (applyEvent nodeID serverID serverName event owners).
Proof. unfold applyEvent, applyGPUSample. calls. Qed.
Hint Resolve applyEvent_calls : calls.
Lemma applyEvents_calls serverID serverName page now owners events :
  Calls statement (applyEvents serverID serverName page now owners events).
Proof. induction events as [|event events IH]; cbn [applyEvents]; calls. Qed.
End writes.

(** ** The methods *)

Section methods.
Context `{Database} `{HistoryJSON} `{SearchJSON}.

Hint Resolve asked resultOf_calls nodeWideGPUMetrics_calls scanSessions_calls enrichSessions_calls
  insertArtifacts_calls insertPendingGPUs_calls confirmGPUs_calls revokeMissing_calls
  applyEvents_calls : calls.
Ltac commits := repeat match goal with
  | |- forall _, _ => intros ?
  | |- traced commit _ => apply committed_commit
  | |- traced (throw _) _ => apply committed_throw
  | |- traced (let '(_, _) := ?x in _) _ => destruct x
  | |- traced (match ?x with _ => _ end) _ => destruct x
  | |- traced (let x := _ in _) _ => cbv zeta
  | |- traced (commit ≫= _) _ => apply committed_then; calls
  | |- traced (_ ≫= _) _ => apply committed_bind; [calls|]
  end.

Lemma checks_atomically {A} R b err (m : M Journal A) : atomically R m ->
  atomically R (if b : bool then throw err else m).
Proof.
  intros W. destruct b; [|done]. intros j. exists []. rewrite app_nil_r. split; [done|]. split; [done|].
  left. eauto.
Qed.
Lemma now_atomically {A} R (k : time -> M Journal A) : (forall t, atomically R (k t)) ->
  atomically R (dbNow ≫= k).
Proof. intros W j. exact (W (clockAt (j_turn j)) (mkJournal (S (j_turn j)) (j_log j))). Qed.
(** A statement outside a transaction. *)
Lemma run_atomically sql args : closed (length args) sql -> atomically done_ (run sql args).
Proof.
  intros C j. exists [(j_turn j, Executed sql args)].
  unfold final, result, run, exec, called, fromResult, mbind, M_bind, bind. cbn.
  assert (Forall (fun c : nat * sqlCall => parametric (snd c)) [(j_turn j, Executed sql args)]) as F by (by constructor).
  destruct (execOf (j_turn j)); cbn; (split; [done|]; split; [exact F|]); [left|right]; split; eauto.
  exists []. split; eauto.
Qed.

Lemma ApplyPage_atomically serverID serverName page owners :
  atomically done_ (ApplyPageWithOwners serverID serverName page owners).
Proof. apply checks_atomically, inTx_atomically. commits. Qed.
Lemma MarkGap_atomically serverID reason : atomically done_ (MarkGap serverID reason).
Proof. apply now_atomically. intros t. apply inTx_atomically. commits. Qed.
Lemma PrepareSession_atomically id nodeID serverID serverName owner purpose startsAt expiresAt gpus :
  atomically done_ (PrepareSessionRow id nodeID serverID serverName owner purpose startsAt expiresAt gpus).
Proof. apply now_atomically. intros t. apply inTx_atomically. commits. Qed.
Lemma ConfirmSession_atomically id group ids gpus : atomically done_ (ConfirmSession id group ids gpus).
Proof. apply inTx_atomically. commits. Qed.
Lemma Reconcile_atomically serverID live observedAt : atomically done_ (ReconcileOpenSessions serverID live observedAt).
Proof. apply checks_atomically, inTx_atomically. commits. Qed.
Lemma PutResult_atomically id user outcome note artifacts version :
  atomically (answeredBy (resultOf id)) (PutResult id user outcome note artifacts version).
Proof. apply inTx_atomically. commits. Qed.

Lemma configureWith_calls statements : Forall (fun s => closed 0 s) statements ->
  Calls statement (configureWith statements).
Proof.
  induction 1 as [|s l C _ IH]; cbn [configureWith]; [calls|].
  apply Calls_bind; [apply Calls_try, Calls_run, C|calls].
Qed.
Lemma migrateFrom_calls l : Forall (fun s => closed 0 s) l -> forall version, Calls statement (migrateFrom version l).
Proof.
  induction 1 as [|s l C _ IH]; intros version; cbn [migrateFrom]; [calls|].
  assert (Calls statement (applyMigration version s)) as Ca.
  { apply Calls_bind; [apply Calls_try, Calls_run, C|calls]. }
  calls.
Qed.
Lemma migrations_closed : Forall (fun s => closed 0 s) migrations.
Proof. repeat constructor; vm_compute; reflexivity. Qed.
Lemma migrate_atomically : atomically done_ migrate.
Proof.
  apply inTx_atomically, committed_bind; [apply migrateFrom_calls, migrations_closed|].
  generalize (llen migrations). commits.
Qed.
End methods.

(** ** Searches *)

Section searches.
Context `{Database} `{HistoryJSON} `{SearchJSON}.
Hint Resolve asked nodeWideGPUMetrics_calls scanSessions_calls enrichSessions_calls : calls.

Lemma closed_cte : closed 3 sessionFactsCTE.
Proof. vm_compute. reflexivity. Qed.
Lemma sort_closed sort spec : compileSearchSort sort = inr spec -> closed 0 (spec_expression spec).
Proof.
  unfold compileSearchSort. cbv zeta. destruct (List.find _ sortFields) as [[f [text kind]]|] eqn:F; [|done].
  destruct (_ && _); [done|]. intros [= <-]. apply List.find_some in F as [I _]. cbn [spec_expression].
  assert (Forall (fun entry => closed 0 (fst (snd entry))) sortFields) as A.
  { repeat constructor; vm_compute; reflexivity. }
  apply list_elem_of_In in I. by apply (proj1 (Forall_forall _ _) A) in I.
Qed.
Lemma afterCursor_sound spec cursor c : closed 0 (spec_expression spec) ->
  afterCursor spec cursor = inr c -> parameterized c.
Proof.
  intros C. unfold afterCursor. destruct (_ =s ""); [by intros [= <-]|]. destruct (_ || _); [done|].
  destruct (cursorValue spec cursor) as [err|v]; [done|]. intros [= <-]. unfold parameterized.
  cbn [fst snd length]. destruct (spec_direction spec =s "desc"); lexing.
Qed.
Lemma upperDirection_closed d : closed 0 (upperDirection d).
Proof. unfold upperDirection. by destruct (_ =s _). Qed.

(** The statements of a search, around the conditions. *)
Ltac searching := unfold star; cbn [parametric statement question]; rewrite ?length_app;
  cbn [length repeat]; repeat match goal with C : closed (length ?l) _ |- _ =>
    revert C; generalize (length l); intros ? C end; lexing.
Lemma nextCursor_calls spec cteArgs sessions : length cteArgs = 3%nat -> closed 0 (spec_expression spec) ->
  Calls question (nextCursor spec cteArgs sessions).
Proof.
  intros L C. unfold nextCursor. cbv zeta. destruct (last sessions) as [session|]; [|calls].
  assert (closed (length (cteArgs ++ [VText (Session_ID session)])) (cursorQuery spec)) as Cq.
  { rewrite length_app, L. unfold cursorQuery. pose proof closed_cte as Cc. revert Cc. generalize sessionFactsCTE.
    intros cte Cc. cbn [length]. lexing. }
  destruct (_ =s "text"); (apply Calls_bind; [by apply Calls_queryRow|calls]).
Qed.

Lemma Search_atomically e sort limit cursor :
  atomically (fun _ _ => True) (Search e sort limit cursor).
Proof.
  unfold Search. destruct (compileSearchExpression e) as [err|[predicate args]] eqn:E.
  { intros j. exists []. rewrite app_nil_r. split; [done|]. split; [done|]. left. eauto. }
  destruct (expression_sound _ _ E) as [C _]. unfold parameterized in C. cbn [fst snd] in C.
  destruct (compileSearchSort sort) as [err|spec] eqn:Es.
  { intros j. exists []. rewrite app_nil_r. split; [done|]. split; [done|]. left. eauto. }
  pose proof (sort_closed _ _ Es) as Cs. pose proof closed_cte as Cc.
  assert (forall A (a : A) B (k : A -> M Journal B), (fromResult (inr a) ≫= k) = k a) as Bind by done.
  rewrite !Bind. cbv zeta. apply now_atomically. intros t. apply inTx_atomically.
  unfold summaryQuery, jobSummaryQuery, listQuery. revert Cc. generalize sessionFactsCTE. intros cte Cc.
  apply committed_bind; [apply Calls_queryRow; searching|]. intros [[[[total reservations] runs] reserved] metrics].
  apply committed_bind; [apply Calls_queryRow; searching|]. intros jobs.
  apply committed_bind; [calls|]. intros [[[observed busy] integral] hasGlobal].
  destruct (if 0 <? reserved then _ else _) as [hours coverage].
  destruct (afterCursor spec cursor) as [err|[page pageArgs]] eqn:Ec.
  { exact (committed_throw _ err). }
  pose proof (afterCursor_sound _ _ _ Cs Ec) as Cp. unfold parameterized in Cp. cbn [fst snd] in Cp.
  rewrite Bind. pose proof (upperDirection_closed (spec_direction spec)) as Cu.
  apply committed_bind; [apply Calls_query; searching|]. intros rows.
  apply committed_bind; [calls|]. intros sessions.
  apply committed_bind; [apply asked, nextCursor_calls; done|]. intros next.
  eapply traced_weaken; [apply committed_then; calls|]. intros cs r [W|(pre & n & post & E1 & F & F' & W)];
    [by left|right]. exists pre, n, post. repeat (split; [done|]). by destruct (commitOf n).
Qed.
End searches.

(** * The methods of the store *)

Section contract.
Context `{Database} `{HistoryJSON} `{SearchJSON}.

(** The methods that only ask. *)
Inductive reads : forall A, M Journal A -> Prop :=
  | reads_ListSessions filter : reads _ (ListSessions filter)
  | reads_GetSession id : reads _ (GetSession id)
  | reads_ListJobs id limit afterMS afterID : reads _ (ListJobs id limit afterMS afterID)
  | reads_Summary filter : reads _ (HistorySummary filter)
  | reads_SyncCursor serverID : reads _ (SyncCursor serverID).
(** The methods that write. *)
Inductive writes : forall A, M Journal A -> Prop :=
  | writes_migrate : writes _ migrate
  | writes_RecordManagedKeySync serverID snapshotID syncError syncedAt :
      writes _ (RecordManagedKeySync serverID snapshotID syncError syncedAt)
  | writes_PrepareSession id nodeID serverID serverName owner purpose startsAt expiresAt gpus :
      writes _ (PrepareSessionRow id nodeID serverID serverName owner purpose startsAt expiresAt gpus)
  | writes_ConfirmSession id group ids gpus : writes _ (ConfirmSession id group ids gpus)
  | writes_DropProvisioningSession id : writes _ (DropProvisioningSession id)
  | writes_ReconcileOpenSessions serverID live observedAt :
      writes _ (ReconcileOpenSessions serverID live observedAt)
  | writes_MarkGap serverID reason : writes _ (MarkGap serverID reason)
  | writes_ApplyPage serverID serverName page owners :
      writes _ (ApplyPageWithOwners serverID serverName page owners)
  | writes_PutResult id user outcome note artifacts version :
      writes _ (PutResult id user outcome note artifacts version).
(** [PutResult] answers the result as it reads it back after its commit, or the error of
    that. *)
Inductive unread : forall A, M Journal A -> error -> Prop :=
  | unread_result id user outcome note artifacts version j err :
      result (resultOf id) j = inl err ->
      unread _ (PutResult id user outcome note artifacts version) err.
(** Every method. *)
Inductive method : forall A, M Journal A -> Prop :=
  | method_configure : method _ configure
  | method_reads A m : reads A m -> method A m
  | method_writes A m : writes A m -> method A m
  | method_Search e sort limit cursor : method _ (Search e sort limit cursor).

Lemma reads_calls A m : reads A m -> Calls question m.
Proof.
  intros []; [apply ListSessions_calls|apply GetSession_calls|apply ListJobs_calls|apply HistorySummary_calls|].
  unfold SyncCursor. calls.
Qed.
Lemma writes_atomically A m : writes A m ->
  atomically (fun _ r => match r with inr _ => True | inl err => unread A m err end) m.
Proof.
  assert (forall m : M Journal unit, atomically done_ m ->
    atomically (fun _ r => match r with inr _ => True | inl err => unread unit m err end) m) as Done.
  { intros m' W. eapply atomically_weaken; [exact W|]. by intros post r [_ [a ->]]. }
  intros []; [apply Done..|].
  - apply migrate_atomically.
  - apply run_atomically. closing.
  - apply PrepareSession_atomically.
  - apply ConfirmSession_atomically.
  - apply run_atomically. closing.
  - apply Reconcile_atomically.
  - apply MarkGap_atomically.
  - apply ApplyPage_atomically.
  - eapply atomically_weaken; [apply PutResult_atomically|]. intros post r (j & _ & ->).
    destruct (result (resultOf id) j) eqn:E; [by econstructor|done].
Qed.
Lemma configure_calls : Calls statement configure.
Proof. apply configureWith_calls. repeat constructor; vm_compute; reflexivity. Qed.

Lemma parametric_of P cs : (forall c, P c -> parametric c) -> Forall (fun c : nat * sqlCall => P (snd c)) cs ->
  Forall (fun c : nat * sqlCall => parametric (snd c)) cs.
Proof. intros W F. eapply Forall_impl; [exact F|]. intros c. apply W. Qed.

(** C39. Whatever it is called with and whatever the database answers, every method of the
    history store makes only statements whose quotes and parentheses are closed and which
    have as many placeholders as arguments. *)
Theorem statements_match_arguments A (m : M Journal A) j :
  method A m -> Forall (fun c => parametric (snd c)) (newCalls m j).
Proof.
  intros W. destruct W as [|A m R|A m R|e sort limit cursor].
  - apply (parametric_of statement); [by intros []|]. apply (traced_calls _ _ j configure_calls).
  - apply (parametric_of question); [by intros []|]. apply (traced_calls _ _ j (reads_calls _ _ R)).
  - apply (traced_calls _ _ j (writes_atomically _ _ R)).
  - apply (traced_calls _ _ j (Search_atomically e sort limit cursor)).
Qed.

(** C36. The methods that write do so as a whole or not at all: when one answers, all of its
    statements took effect; when one fails, none did, except that [PutResult] may have
    written all and committed it, and then failed to read the result back, with the error
    of that. *)
Theorem writes_are_atomic A m j : writes A m ->
  match result m j with
  | inr _ => effects None (newCalls m j) = executed (newCalls m j)
  | inl err => effects None (newCalls m j) = [] \/
      effects None (newCalls m j) = executed (newCalls m j) /\ unread A m err
  end.
Proof.
  intros W. destruct (traced_calls _ _ j (writes_atomically _ _ W)) as [_ [[E [err ->]]|[E (post & Un)]]];
    [by left|]. destruct (result m j); [by right|done].
Qed.
End contract.

(** * Results *)

Section results.
Context `{Database} `{HistoryJSON}.

(** The rows of the artifacts, from [position] on. *)
Fixpoint artifactRows (id : string) (position : Z) (artifacts : list Artifact)
    : list (string * list sqlValue) :=
  match artifacts with
  | [] => []
  | artifact :: rest => (insertArtifact, artifactArgs id position artifact) :: artifactRows id (position + 1) rest
  end.
Lemma insertArtifacts_executed id artifacts : forall position, traced (insertArtifacts id position artifacts)
  (fun cs r => forall u, r = inr u -> executed cs = artifactRows id position artifacts).
Proof.
  induction artifacts as [|artifact artifacts IH]; intros position; cbn [insertArtifacts artifactRows].
  { intros j. exists []. by rewrite app_nil_r. }
  unfold run. intros j. unfold final, result, exec, called, fromResult, mbind, M_bind, bind. cbn [fst snd j_log j_turn].
  destruct (execOf (j_turn j)) as [err|z]; cbn [throw ret fst snd j_log].
  { eexists. split; [done|]. done. }
  destruct (IH (position + 1) (mkJournal (S (j_turn j)) (j_log j ++ [(j_turn j, Executed insertArtifact (artifactArgs id position artifact))])))
    as (cs & E & W). unfold final, result in *. exists ((j_turn j, Executed insertArtifact (artifactArgs id position artifact)) :: cs).
  rewrite E. cbn [j_log]. split; [by rewrite <- app_assoc|]. intros u R.
  cbn [executed omap list_omap snd]. f_equal. exact (W u R).
Qed.

(** The owner that the database answers for a session, and whether results may be edited. *)
Definition ownerAt (n : nat) (owner : string) (editable : bool) : Prop :=
  exists row rows, rowsOf n = inr (row :: rows) /\ scanOwner row = inr (owner, editable).

Definition putCalls (id user outcome note : string) (artifacts : list Artifact) (version : Z) (j : Journal) :=
  newCalls (PutResult id user outcome note artifacts version) j.

(** In a transaction with [pending] statements, [m] lets nothing take effect, or [all]. *)
Definition lands {A} (pending all : list (string * list sqlValue)) (m : M Journal A) : Prop :=
  traced m (fun cs _ => forall n, effects (Some pending) (cs ++ [(n, RolledBack)]) = [] \/
    effects (Some pending) (cs ++ [(n, RolledBack)]) = all).
Lemma lands_throw {A} pending all err : lands pending all (throw err : M Journal A).
Proof. intros j. exists []. rewrite app_nil_r. split; [done|]. by left. Qed.
Lemma lands_bind {A B} pending l all (m : M Journal A) (k : A -> M Journal B) :
  traced m (fun cs r => Forall (fun c => statement (snd c)) cs /\ forall a, r = inr a -> executed cs = l) ->
  (forall a, lands (pending ++ l) all (k a)) -> lands pending all (m ≫= k).
Proof.
  intros T W. eapply traced_bind; [exact T| |].
  - intros e cs [F _] n. left. by rewrite effects_statements.
  - intros a cs [F E]. eapply traced_weaken; [apply W|]. intros cs' r L n. cbn beta in L.
    rewrite <- app_assoc, effects_statements, (E a eq_refl) by done. apply L.
Qed.
Lemma lands_commit {A} all (m : M Journal A) : Calls question m -> lands all all (commit ;; m).
Proof.
  intros C. eapply traced_bind; [apply commit_traced| |].
  - intros e cs (n & -> & W) k. left. cbn [app effects]. by destruct (commitOf n).
  - intros [] cs (n & -> & W). destruct (commitOf n) as [err|] eqn:E; [done|].
    eapply traced_weaken; [exact C|]. intros cs' r F k. cbn beta in F. right.
    cbn [app effects]. rewrite E, effects_questions_then by done. by rewrite app_nil_r.
Qed.
Lemma run_executed sql args : closed (length args) sql -> traced (run sql args)
  (fun cs r => Forall (fun c => statement (snd c)) cs /\ forall a, r = inr a -> executed cs = [(sql, args)]).
Proof.
  intros C. assert (Calls statement (run sql args)) as Cr by (by apply Calls_run).
  intros j. destruct (Cr j) as (cs & E & F). exists cs. split; [done|]. split; [exact F|]. clear F.
  revert E. unfold final, result, run, exec, called, fromResult, mbind, M_bind, bind. cbn [fst snd j_log j_turn].
  destruct (execOf (j_turn j)); cbn; [done|]. by intros <-%app_inv_head.
Qed.

(** What a result writes. *)
Definition resultRows (id outcome note : string) (artifacts : list Artifact) (version : Z) (now : time)
    : list (string * list sqlValue) :=
  (updateResult, [nullableString outcome; VText note; VInt (millis now); VText id; VInt version])
  :: (deleteArtifacts, [VText id]) :: artifactRows id 0 artifacts.

Lemma written_lands id outcome note artifacts version now :
  lands [(updateResult, [nullableString outcome; VText note; VInt (millis now); VText id; VInt version])]
    (resultRows id outcome note artifacts version now)
    (run deleteArtifacts [VText id] ;; insertArtifacts id 0 artifacts ;; commit ;; resultOf id).
Proof.
  eapply lands_bind; [apply run_executed; closing|]. intros _.
  eapply lands_bind.
  { intros j. destruct (insertArtifacts_calls id artifacts 0 j) as (cs & E & F).
    destruct (insertArtifacts_executed id artifacts 0 j) as (cs' & E' & W). rewrite E in E'.
    apply app_inv_head in E' as <-. exists cs. split; [done|]. split; [exact F|exact W]. }
  intros _. apply lands_commit, resultOf_calls.
Qed.

(** Results of sessions are written by their owners only: the statements of a call of
    [PutResult] that take effect are none; or the database had answered an owner of the
    session who may edit results and whose name is the user's, the row of the result had
    the version that the user had seen (one row was changed), and they are the new result,
    with its artifacts in order in place of the old ones, and nothing else. *)
Lemma PutResult_writes id user outcome note artifacts version j :
  let put := PutResult id user outcome note artifacts version in
  let turn := j_turn j in
  effects None (newCalls put j) = [] \/
  exists owner, ownerAt (S turn) owner true /\ In (S turn, Queried ownerQuery [VText id]) (newCalls put j) /\
    EqualFold (TrimSpace owner) (TrimSpace user) = true /\ execOf (3 + turn) = inr 1 /\
    effects None (newCalls put j) = resultRows id outcome note artifacts version (clockAt (2 + turn)).
Proof.
  intros put turn. subst put.
  unfold PutResult. set (rest := run deleteArtifacts [VText id] ;; _).
  unfold newCalls, final, inTx, queryRowOpt, queryRow, query, called, try, fromResult, check, mbind, M_bind, bind.
  cbn [fst snd j_turn j_log]. fold turn.
  destruct (beginOf turn) as [err|] eqn:Eb; cbn [throw ret fst snd j_turn j_log].
  { left. rewrite drop_app_length. cbn. by destruct (beginOf turn). }
  destruct (rowsOf (S turn)) as [err|[|row rows]] eqn:Er; cbn [throw ret fst snd j_turn j_log].
  { left. destruct (errors_Is err errNoRows); cbn [throw ret fst snd j_turn j_log]; rewrite <- !app_assoc, drop_app_length; cbn; by rewrite ?Eb. }
  { change (errors_Is ErrNoRows errNoRows) with true. cbn [throw ret fst snd j_turn j_log].
    left. rewrite <- !app_assoc, drop_app_length. cbn. by rewrite ?Eb. }
  destruct (scanOwner row) as [err|[owner editable]] eqn:Es; cbn [throw ret fst snd j_turn j_log].
  { left. destruct (errors_Is err errNoRows); cbn [throw ret fst snd j_turn j_log]; rewrite <- !app_assoc, drop_app_length; cbn; by rewrite ?Eb. }
  unfold fail_if, dbNow, exec, called, fromResult, mbind, M_bind, bind.
  destruct editable; cbn [negb orb]; cbn [throw ret fst snd j_turn j_log]; [|left; by rewrite <- !app_assoc, drop_app_length].
  destruct (EqualFold _ _) eqn:Ef; cbn [negb throw ret fst snd j_turn j_log]; [|left; by rewrite <- !app_assoc, drop_app_length].
  destruct (execOf (S (S (S turn)))) as [err|changed] eqn:Ex; cbn [throw ret fst snd j_turn j_log].
  { left. rewrite <- !app_assoc, drop_app_length. cbn. by rewrite ?Eb. }
  destruct (Z.eqb_spec changed 1) as [->|]; cbn [negb throw ret fst snd j_turn j_log].
  2: { left. rewrite <- !app_assoc, drop_app_length. cbn. by rewrite ?Eb. }
  rewrite <- !app_assoc. cbn [app].
  pose proof (written_lands id outcome note artifacts version (clockAt (S (S turn)))) as L. fold rest in L.
  match goal with |- context [rest ?jr] => destruct (L jr) as (cs & E & W) end.
  unfold final, result in E, W. clearbody rest. destruct (rest _) as [r j1]. cbn [fst snd j_log] in *.
  assert (forall A (x : error + A) s, snd ((match x with inl e => throw e | inr a => ret a end : M Journal A) s) = s) as Sn.
  { by intros A []. }
  rewrite Sn. cbn [j_log]. rewrite E, <- !app_assoc, drop_app_length. cbn [app effects]. rewrite Eb.
  destruct (W (j_turn j1)) as [W0|W1]; [by left|right].
  exists owner. split; [by exists row, rows|]. split; [right; by left|]. split; [done|]. split; [done|exact W1].
Qed.
End results.

(** * Pages *)

Section pages.
Context `{Database} `{HistoryJSON}.

(** What a page writes beside the events. *)
Definition bookkeeping : list string :=
  [seenNode; seenEvent; saveCursor; forgetEvents; forgetMinutes; forgetNodeMinutes].
Definition keepsBooks (cs : list (nat * sqlCall)) : Prop :=
  Forall (fun w => In (fst w) bookkeeping) (executed cs).

(** The database leaves a seen event alone: the statement is INSERT OR IGNORE, and the node,
    the stream and the number are the key of the table. *)
Definition ignoresSeen (written : list (string * list sqlValue)) (cs : list (nat * sqlCall)) : Prop :=
  forall n page now now' event, In (n, Executed seenEvent (seenArgs page now' event)) cs ->
    In (seenEvent, seenArgs page now event) written -> execOf n = inr 0.
Lemma ignoresSeen_app written cs cs' : ignoresSeen written (cs ++ cs') -> ignoresSeen written cs /\ ignoresSeen written cs'.
Proof. intros W. split; intros n page now now' event I J; apply (W n page now now' event); auto using in_or_app. Qed.
Lemma keepsBooks_app cs cs' : keepsBooks cs -> keepsBooks cs' -> keepsBooks (cs ++ cs').
Proof. unfold keepsBooks. rewrite executed_app. apply Forall_app_2. Qed.

(** [m] writes only books, if seen events are ignored. *)
Definition books {A} written (m : M Journal A) : Prop :=
  traced m (fun cs _ => ignoresSeen written cs -> keepsBooks cs).
Lemma books_bind {A B} written (m : M Journal A) (k : A -> M Journal B) :
  books written m -> (forall a, books written (k a)) -> books written (m ≫= k).
Proof.
  intros Bm Bk. eapply traced_bind; [exact Bm|done|]. intros a cs W. eapply traced_weaken; [apply Bk|].
  intros cs' r W' Ia. apply ignoresSeen_app in Ia as [I I']. apply keepsBooks_app; auto.
Qed.
Lemma books_run written sql args : In sql bookkeeping -> books written (run sql args).
Proof.
  intros I. eapply traced_weaken; [exact (Calls_run (fun c => c = Executed sql args) sql args eq_refl)|].
  intros cs r F _. cbn beta in F. unfold keepsBooks. induction F as [|[n c] cs E F IH]; [constructor|].
  cbn [snd] in E. subst c. by constructor.
Qed.
Lemma books_quiet {A} written (m : M Journal A) : Calls (fun c => match c with Executed _ _ => False | _ => True end) m ->
  books written m.
Proof.
  intros C. eapply traced_weaken; [exact C|]. intros cs r F _. cbn beta in F. unfold keepsBooks.
  induction F as [|[n c] cs E F IH]; [constructor|]. by destruct c.
Qed.

Lemma applyEvents_seen serverID serverName page now owners events :
  traced (applyEvents serverID serverName page now owners events) (fun cs r =>
    forall u, r = inr u -> forall event, In event events -> In (seenEvent, seenArgs page now event) (executed cs)).
Proof.
  induction events as [|event events IH]; cbn [applyEvents].
  { intros j. exists []. by rewrite app_nil_r. }
  eapply traced_bind with (R := fun cs r => executed cs = [(seenEvent, seenArgs page now event)]); [|done|].
  { unfold exec. by apply traced_call. }
  intros z cs E. eapply traced_bind with (R := fun _ _ => True); [|done|].
  { eapply traced_weaken; [|done].
    assert (Calls statement (if z =? 0 then ret tt else r ← try (applyEvent (Page_NodeID page) serverID serverName event owners);
      match r with inl err => throw (Errorf "apply telemetry event %d (%s): %w"
                        [AInt (Event_Seq event); AStr (Event_Type event); AErr err]) | inr _ => ret tt end)) as C.
    { pose proof (applyEvent_calls (Page_NodeID page) serverID serverName event owners). calls. }
    exact C. }
  intros [] cs1 _. eapply traced_weaken; [exact IH|]. intros cs2 r W u R event' [<-|I].
  - rewrite !executed_app, E. by left.
  - rewrite !executed_app. apply in_or_app. right. apply in_or_app. right. by apply (W u).
Qed.
Lemma applyEvents_books serverID serverName page now now' owners written events :
  (forall event, In event events -> In (seenEvent, seenArgs page now event) written) ->
  books written (applyEvents serverID serverName page now' owners events).
Proof.
  induction events as [|event events IH]; intros Sn; cbn [applyEvents].
  { apply books_quiet. calls. }
  eapply traced_bind with (R := fun cs r => (ignoresSeen written cs -> keepsBooks cs /\ forall z, r = inr z -> z = 0)); [| |].
  { unfold exec. apply traced_call. intros n I. split; [by repeat constructor; right; left|]. intros z R.
    specialize (I n page now now' event ltac:(by left) (Sn event ltac:(by left))). congruence. }
  { intros e cs W I. apply (proj1 (W I)). }
  intros z cs W. destruct (Z.eqb_spec z 0) as [->|Nz].
  - eapply traced_weaken; [apply IH; intros e Ie; apply Sn; by right|].
    intros cs' r W' Ia. apply ignoresSeen_app in Ia as [I I']. apply keepsBooks_app; [apply (W I)|by apply W'].
  - eapply traced_weaken.
    { assert (forall A (m : M Journal A), Calls statement m -> Calls (fun _ => True) m) as Any.
      { intros A m C. by eapply Calls_weaken. }
      pose proof (Any _ _ (applyEvent_calls (Page_NodeID page) serverID serverName event owners)) as Ca.
      apply (Calls_bind (fun _ => True)); [calls|]. intros []. apply Any, applyEvents_calls. }
    intros cs' r _ Ia. apply ignoresSeen_app in Ia as [I _]. by destruct (Nz (proj2 (W I) z eq_refl)).
Qed.

Lemma ApplyPage_seen serverID serverName page owners :
  traced (ApplyPageWithOwners serverID serverName page owners) (fun cs r => forall u, r = inr u ->
    exists now, forall event, In event (Page_Events page) -> In (seenEvent, seenArgs page now event) (executed cs)).
Proof.
  unfold ApplyPageWithOwners. destruct (_ || _).
  { intros j. exists []. by rewrite app_nil_r. }
  eapply traced_weaken.
  { apply inTx_traced. apply (traced_bind _ _ (fun _ _ => True)
      (fun cs r => forall u, r = inr u -> exists now, forall event, In event (Page_Events page) ->
        In (seenEvent, seenArgs page now event) (executed cs))); [|done|].
    { eapply traced_weaken; [apply (Calls_now (fun _ => True))|done]. }
    intros t cs0 _. cbv zeta. eapply (traced_bind _ _ (fun _ _ => True)); [|done|].
    { eapply traced_weaken; [apply (Calls_run (fun _ => True)); done|done]. }
    intros [] cs1 _. eapply traced_bind; [apply applyEvents_seen|done|].
    intros [] cs2 W. match goal with |- traced ?m _ => assert (Calls (fun _ => True) m) as C end.
    { repeat first [apply Calls_bind; [first [apply Calls_run; done|apply Calls_now]|intros ?]].
      intros j. destruct (commit_traced j) as (cs & E & n & -> & _). exists [(n, Committed)]. split; [exact E|].
      by repeat constructor. }
    eapply traced_weaken; [exact C|]. intros cs3 r _ u R. exists (UnixMilli t). intros event I.
    rewrite !executed_app. apply in_or_app. right. apply in_or_app. right. apply in_or_app. left. by apply (W tt). }
  intros cs r [(a & err & -> & _ & ->)|(a & b & cs' & -> & _ & W)] u R; [done|]. destruct (W u R) as [now I].
  exists now. intros event Ie. change (executed ((a, Begun) :: ?l)) with (executed l).
  cbn [executed omap list_omap snd]. fold (executed (cs' ++ [(b, RolledBack)])). rewrite executed_app. apply in_or_app. left. by apply I.
Qed.
Lemma ApplyPage_books serverID serverName page owners written now :
  (forall event, In event (Page_Events page) -> In (seenEvent, seenArgs page now event) written) ->
  books written (ApplyPageWithOwners serverID serverName page owners).
Proof.
  intros Sn. unfold ApplyPageWithOwners. destruct (_ || _); [apply books_quiet; calls|].
  eapply traced_weaken.
  { apply inTx_traced. apply (books_bind written); [apply books_quiet; calls|]. intros t. cbv zeta.
    apply books_bind; [apply books_run; by left|]. intros _.
    apply books_bind; [by apply applyEvents_books with now|]. intros _.
    repeat first [apply books_bind; [first [apply books_run; unfold bookkeeping; cbn; tauto|apply books_quiet; apply Calls_now]|intros ?]].
    intros j. destruct (commit_traced j) as (cs & E & n & -> & _). exists [(n, Committed)]. split; [exact E|].
    intros _. constructor. }
  intros cs r [(a & err & -> & _ & ->)|(a & b & cs' & -> & _ & W)] I; [constructor|].
  apply (keepsBooks_app [(a, Begun)] (cs' ++ [(b, RolledBack)])); [constructor|].
  apply keepsBooks_app; [|constructor]. apply W. apply (ignoresSeen_app _ [(a, Begun)]) in I as [_ I].
  apply ignoresSeen_app in I as [I _]. exact I.
Qed.

(** C37. Events take effect once.  When a page is applied again, under whatever server and
    whatever happened in between, as long as the database still knows the events that the
    first application recorded, nothing is written for its events: only that the node was
    seen, the attempts to record the events, how far the stream was read, and the removal
    of what is old. *)
Theorem redelivered_page_only_keeps_books serverID serverName server' name' page owners owners' j j' :
  let first := ApplyPageWithOwners serverID serverName page owners in
  let again := ApplyPageWithOwners server' name' page owners' in
  result first j = inr tt ->
  ignoresSeen (effects None (newCalls first j)) (newCalls again j') ->
  keepsBooks (newCalls again j').
Proof.
  intros first again R. subst first again.
  destruct (traced_calls _ _ j (ApplyPage_seen serverID serverName page owners) tt R) as [now I].
  destruct (traced_calls _ _ j (ApplyPage_atomically serverID serverName page owners)) as [_ [[_ [err E]]|[At _]]];
    [congruence|]. rewrite At. exact (traced_calls _ _ j' (ApplyPage_books server' name' page owners' _ now I)).
Qed.
End pages.

(** * The minutes of a sample *)

Section minutes.

(** The minutes that a window reaches into, and the milliseconds it has of each. *)
Fixpoint minutesFrom (count : nat) (minute : time) : list time :=
  match count with O => [] | S count => minute :: minutesFrom count (minute + Minute) end.
Definition minutesOf (start end_ : time) : list time :=
  let first := Truncate start Minute in
  minutesFrom (Z.to_nat ((end_ - 1 - first) / Minute + 1)) first.
Definition overlap (start end_ minute : time) : Z :=
  (Z.min end_ (minute + Minute) - Z.max start minute) / Millisecond.
Fixpoint forEach {S A} (f : A -> M S unit) (l : list A) : M S unit :=
  match l with [] => ret tt | x :: l => f x ;; forEach f l end.

Lemma forEach_ext {S A} (f g : A -> M S unit) l : (forall x, In x l -> f x = g x) -> forEach f l = forEach g l.
Proof.
  induction l as [|x l IH]; intros W; [done|]. cbn [forEach]. rewrite (W x) by (by left).
  rewrite IH; [done|]. intros y I. apply W. by right.
Qed.
Lemma minutesFrom_le count : forall minute x, In x (minutesFrom count minute) -> minute <= x.
Proof.
  induction count as [|count IH]; intros minute x; cbn [minutesFrom]; [done|].
  intros [<-|I%IH]; unfold Minute, Second in *; lia.
Qed.
(** After its minute, a window is the window from the next. *)
Lemma overlap_later cursor end_ minute x : cursor <= minute + Minute -> minute + Minute <= x ->
  overlap cursor end_ x = overlap (minute + Minute) end_ x.
Proof. intros L1 L2. unfold overlap. by rewrite !Z.max_r by lia. Qed.

Lemma Milliseconds_div d : 0 <= d -> Milliseconds d = d / Millisecond.
Proof. intros P. unfold Milliseconds. apply Z.quot_div_nonneg; unfold Millisecond; lia. Qed.
Lemma TimeSub_small t u : 0 <= t - u <= Minute -> TimeSub t u = t - u.
Proof. unfold TimeSub, minDuration, maxDuration, Minute, Second. lia. Qed.

(** The minutes of which a window has a millisecond. *)
Definition accounted (start end_ : time) (minutes : list time) : list time :=
  List.filter (fun minute => 0 <? overlap start end_ minute) minutes.

Section loop.
Context (apply : time -> Z -> M Journal unit) (end_ : time).

Lemma minuteLoop_parts count : forall fuel cursor minute, (count <= S fuel)%nat ->
  minute mod Minute = 0 -> minute <= cursor < minute + Minute -> cursor < end_ ->
  minute + (Z.of_nat count - 1) * Minute < end_ <= minute + Z.of_nat count * Minute ->
  (overlap cursor end_ minute <= 0 -> end_ <= minute + Minute) ->
  minuteLoop (S fuel) apply cursor end_ =
    forEach (fun x => apply x (overlap cursor end_ x)) (accounted cursor end_ (minutesFrom count minute)) /\
  sumOf (overlap cursor end_) (accounted cursor end_ (minutesFrom count minute)) =
    (Z.min end_ (minute + Minute) - cursor) / Millisecond + (end_ - Z.min end_ (minute + Minute)) / Millisecond.
Proof using Type.
  induction count as [|count IH]; intros fuel cursor minute Lf Am Lm Lc Le Lo; [unfold Minute, Second in *; lia|].
  assert (Truncate cursor Minute = minute) as Tr. { unfold Truncate, Minute, Second in *. Z.to_euclidean_division_equations. lia. }
  cbn [minuteLoop minutesFrom]. unfold Before at 1. destruct (Z.ltb_spec cursor end_); [|lia].
  cbn [negb]. cbv zeta. rewrite Tr. unfold After, TimeAdd.
  assert (overlap cursor end_ minute = (Z.min end_ (minute + Minute) - cursor) / Millisecond) as Ov.
  { unfold overlap. by rewrite Z.max_l by lia. }
  assert ((if end_ <? minute + Minute then end_ else minute + Minute) = Z.min end_ (minute + Minute)) as ->.
  { destruct (Z.ltb_spec end_ (minute + Minute)); lia. }
  rewrite TimeSub_small, Milliseconds_div, <- Ov by lia. cbn [accounted List.filter].
  fold (accounted cursor end_ (minutesFrom count (minute + Minute))).
  destruct (Z.le_gt_cases end_ (minute + Minute)) as [Last|More].
  - assert (count = 0%nat) as -> by (unfold Minute, Second in *; lia). rewrite (Z.min_l end_) by lia.
    cbn [minutesFrom accounted List.filter]. rewrite Ov, Z.min_l, Z.sub_diag by lia.
    change (0 / Millisecond) with 0. rewrite Z.add_0_r.
    pose proof (Z.div_pos (end_ - cursor) Millisecond ltac:(lia) ltac:(done)) as P.
    destruct (Z.leb_spec ((end_ - cursor) / Millisecond) 0), (Z.ltb_spec 0 ((end_ - cursor) / Millisecond)); try lia.
    + split; [done|]. change (sumOf _ []) with 0. lia.
    + cbn [forEach]. rewrite sumOf_cons, Ov, Z.min_l by lia. change (sumOf _ []) with 0. split; [|lia].
      destruct fuel as [|fuel]; [done|]. cbn [minuteLoop]. unfold Before at 1. by rewrite Z.ltb_irrefl.
  - destruct (Z.leb_spec (overlap cursor end_ minute) 0) as [Z0|Po]; [lia|].
    rewrite (proj2 (Z.ltb_lt _ _) Po). cbn [forEach]. rewrite sumOf_cons, Ov.
    rewrite (Z.min_r end_ (minute + Minute)) by lia.
    destruct fuel as [|fuel]; [unfold Minute, Second in *; lia|].
    assert (accounted cursor end_ (minutesFrom count (minute + Minute)) =
            accounted (minute + Minute) end_ (minutesFrom count (minute + Minute))) as Ac.
    { apply List.filter_ext_in. intros x I%minutesFrom_le. by rewrite (overlap_later cursor end_ minute) by lia. }
    destruct (IH fuel (minute + Minute) (minute + Minute)) as [IH1 IH2];
      try (unfold Minute, Second, Millisecond in *; Z.to_euclidean_division_equations; lia).
    { intros Z0. destruct (Z.le_gt_cases end_ (minute + Minute + Minute)) as [|M2]; [done|]. exfalso.
      revert Z0. unfold overlap. rewrite Z.min_r, Z.max_l by lia. replace (_ - _) with Minute by lia.
      intros Z0. by apply Z0. }
    assert (forall x, In x (accounted (minute + Minute) end_ (minutesFrom count (minute + Minute))) ->
      overlap cursor end_ x = overlap (minute + Minute) end_ x) as Same.
    { intros x [I%minutesFrom_le _]%List.filter_In. by apply overlap_later; lia. }
    rewrite IH1, Ac. split.
    + rewrite (forEach_ext (fun x => apply x (overlap cursor end_ x))
        (fun x => apply x (overlap (minute + Minute) end_ x))); [done|]. intros x I. by rewrite Same.
    + rewrite (sumOf_ext (overlap cursor end_) (overlap (minute + Minute) end_)).
      2: { apply Forall_forall. intros x I. apply Same. by apply list_elem_of_In. }
      rewrite IH2. f_equal.
      unfold Minute, Second, Millisecond in *. Z.to_euclidean_division_equations. lia.
Qed.
End loop.

Lemma Truncate_minute t : Truncate t Minute mod Minute = 0 /\ Truncate t Minute <= t < Truncate t Minute + Minute.
Proof. unfold Truncate, Minute, Second. Z.to_euclidean_division_equations. lia. Qed.

(** C38. The loop over the minutes of a sample.  A window that has a millisecond of its first
    minute is accounted minute by minute: the loop is one step for each minute of which the
    window has a millisecond, in order, with the whole milliseconds that the window has of
    that minute; these are the window but for less than two milliseconds, of its first and
    its last minute, and for a window whose ends are whole milliseconds they are the window.
    But when the window has less than a millisecond of its first minute, because it starts
    so late in it, or is so short, the loop ends before its first step, and the whole window
    is lost. *)
Theorem sample_minutes apply (start end_ : time) : start < end_ ->
  let first := Z.min end_ (Truncate start Minute + Minute) - start in
  let minutes := accounted start end_ (minutesOf start end_) in
  (Millisecond <= first ->
    minuteLoop (minutesIn start end_) apply start end_ =
      forEach (fun minute => apply minute (overlap start end_ minute)) minutes /\
    0 <= end_ - start - sumOf (overlap start end_) minutes * Millisecond < 2 * Millisecond /\
    (start mod Millisecond = 0 -> end_ mod Millisecond = 0 ->
     sumOf (overlap start end_) minutes = (end_ - start) / Millisecond)) /\
  (first < Millisecond -> minuteLoop (minutesIn start end_) apply start end_ = ret tt).
Proof.
  intros L first minutes. destruct (Truncate_minute start) as [Tm Ts]. subst first. set (m := Truncate start Minute) in *. split.
  - intros Fs. subst minutes. unfold minutesOf. fold m.
    assert (minutesIn start end_ = S (Z.to_nat ((end_ - start) / Minute + 1))) as ->.
    { unfold minutesIn, Minute, Second. Z.to_euclidean_division_equations. lia. }
    assert (0 <= (end_ - 1 - m) / Minute) as K by (apply Z.div_pos; unfold Minute, Second in *; lia).
    assert ((end_ - 1 - m) / Minute <= (end_ - start) / Minute + 1) as K'.
    { unfold Minute, Second in *. Z.to_euclidean_division_equations. lia. }
    destruct (minuteLoop_parts apply end_ (Z.to_nat ((end_ - 1 - m) / Minute + 1))
      (Z.to_nat ((end_ - start) / Minute + 1)) start m) as [-> ->]; [lia|done|done|done| | |].
    { rewrite Z2Nat.id by lia. unfold Minute, Second in *. Z.to_euclidean_division_equations. lia. }
    { intros Z0. exfalso. unfold overlap in Z0. rewrite Z.max_l in Z0 by lia.
      assert (1 <= (Z.min end_ (m + Minute) - start) / Millisecond) by (apply Z.div_le_lower_bound; [done|lia]). lia. }
    split; [done|]. clear K K' Fs. clearbody m. unfold Minute, Second, Millisecond in *. split.
    + Z.to_euclidean_division_equations. lia.
    + intros As Ae. Z.to_euclidean_division_equations. lia.
  - intros Sh. unfold minutesIn.
    assert (Z.to_nat ((end_ - start) / Minute + 2) = S (Z.to_nat ((end_ - start) / Minute + 1))) as ->.
    { unfold Minute, Second. Z.to_euclidean_division_equations. lia. }
    cbn [minuteLoop]. unfold Before at 1. destruct (Z.ltb_spec start end_); [|lia]. cbn [negb]. cbv zeta.
    fold m. clear minutes. clearbody m. unfold After, TimeAdd in *.
    assert ((if end_ <? m + Minute then end_ else m + Minute) = Z.min end_ (m + Minute)) as ->.
    { destruct (Z.ltb_spec end_ (m + Minute)); lia. }
    rewrite TimeSub_small, Milliseconds_div by lia. rewrite Z.div_small by lia. done.
Qed.
End minutes.

(** * What the collector and the routes use *)

Section clients.
Context `{Database} `{HistoryJSON} `{SearchJSON}.

(** Calls after which no transaction is open. *)
Definition settled (cs : list (nat * sqlCall)) : Prop :=
  forall rest, effects None (cs ++ rest) = effects None cs ++ effects None rest.
Lemma effects_rolledBack b cs rest : forall p,
  effects p (cs ++ (b, RolledBack) :: rest) = effects p (cs ++ [(b, RolledBack)]) ++ effects None rest.
Proof.
  induction cs as [|[n c] cs IH]; intros p; [done|]. destruct c; cbn [app effects]; try apply IH.
  - destruct p; [apply IH|]. by destruct (execOf n); rewrite IH.
  - destruct p; [|apply IH]. destruct (commitOf n); rewrite IH; [done|]. by rewrite !app_assoc.
Qed.
Lemma inTx_settled {A} (body : M Journal A) Q : traced body Q -> traced (inTx body) (fun cs _ => settled cs).
Proof.
  intros T. eapply traced_weaken; [exact (inTx_traced _ _ T)|].
  intros cs r [(a & err & -> & Eb & ->)|(a & b & cs' & -> & _ & _)] rest.
  - cbn [app effects]. by rewrite Eb.
  - change (((a, Begun) :: cs' ++ [(b, RolledBack)]) ++ rest) with ((a, Begun) :: (cs' ++ [(b, RolledBack)]) ++ rest).
    rewrite <- app_assoc. cbn [effects]. apply effects_rolledBack.
Qed.
Lemma questions_settled cs : Forall (fun c => question (snd c)) cs -> settled cs.
Proof. intros F rest. by rewrite effects_questions_then, (effects_questions None cs F). Qed.

(** A method whose statements, if it answers, are in [Q]. *)
Lemma atomically_effects {A} (m : M Journal A) (Q : list (string * list sqlValue) -> Prop) j :
  atomically done_ m -> traced m (fun cs r => forall a, r = inr a -> Q (executed cs)) ->
  match result m j with inr _ => Q (effects None (newCalls m j)) | inl _ => effects None (newCalls m j) = [] end.
Proof.
  intros At T. pose proof (traced_calls _ _ j T) as W.
  destruct (traced_calls _ _ j At) as [_ [[E [err ->]]|[-> (post & _ & [a R])]]]; [exact E|].
  rewrite R in *. by apply (W a).
Qed.

(** Silence: no statement is executed, nothing takes effect. *)
Definition silent (call : sqlCall) : Prop := match call with Executed _ _ => False | _ => True end.
Lemma effects_silent cs : Forall (fun c => silent (snd c)) cs -> forall p, p = None \/ p = Some [] -> effects p cs = [].
Proof.
  induction 1 as [|[n c] cs S _ IH]; intros p D; [done|]. destruct c; try done; cbn [effects]; auto.
  - destruct (beginOf n); auto.
  - destruct D as [->| ->]; [auto|]. destruct (commitOf n); cbn [app]; auto.
Qed.
Lemma Calls_commit P : P Committed -> Calls P commit.
Proof.
  intros Pc. eapply traced_weaken; [apply commit_traced|]. intros cs r (n & -> & _). by constructor.
Qed.
Lemma Calls_inTx {A} P (body : M Journal A) : P Begun -> P RolledBack -> Calls P body -> Calls P (inTx body).
Proof.
  intros Pb Pr C. eapply traced_weaken; [exact (inTx_traced _ _ C)|].
  intros cs r [(a & err & -> & _)|(a & b & cs' & -> & _ & F)]; [by constructor|].
  constructor; [done|]. apply Forall_app_2; [exact F|by constructor].
Qed.
Lemma question_silent {A} (m : M Journal A) : Calls question m -> Calls silent m.
Proof. intros C. eapply Calls_weaken; [exact C|]. by intros []. Qed.
Lemma nextCursor_silent spec cteArgs sessions : Calls silent (nextCursor spec cteArgs sessions).
Proof.
  unfold nextCursor. cbv zeta. destruct (last sessions) as [session|]; [|calls].
  destruct (_ =s "text"); (apply Calls_bind; [by apply Calls_queryRow|calls]).
Qed.
Lemma Search_silent e sort limit cursor : Calls silent (Search e sort limit cursor).
Proof.
  unfold Search. apply Calls_bind; [calls|]. intros [predicate args]. apply Calls_bind; [calls|]. intros spec.
  cbv zeta. apply Calls_bind; [calls|]. intros t. apply Calls_inTx; [done|done|].
  apply Calls_bind; [by apply Calls_queryRow|]. intros [[[[total reservations] runs] reserved] metrics].
  apply Calls_bind; [by apply Calls_queryRow|]. intros jobs.
  apply Calls_bind; [apply question_silent, nodeWideGPUMetrics_calls|]. intros [[[observed busy] integral] hasGlobal].
  destruct (if 0 <? reserved then _ else _) as [hours coverage].
  apply Calls_bind; [calls|]. intros [page pageArgs].
  apply Calls_bind; [by apply Calls_query|]. intros rows.
  apply Calls_bind; [apply question_silent, scanSessions_calls|]. intros sessions.
  apply Calls_bind; [apply nextCursor_silent|]. intros next.
  apply Calls_bind; [by apply Calls_commit|]. intros _.
  apply Calls_bind; [apply question_silent, enrichSessions_calls|]. intros sessions'. calls.
Qed.

(** What the two methods of the collector write. *)
Definition savedCursor (serverID : string) (page : Page) (l : list (string * list sqlValue)) : Prop :=
  exists lastSeq now, In (saveCursor, [VText serverID; VText (Page_NodeID page); VText (Page_StreamID page);
    VText (Page_NextCursor page); VInt lastSeq; VInt now]) l.
Definition recordedGap (serverID reason : string) (l : list (string * list sqlValue)) : Prop :=
  (exists now, In (recordGap, [VInt now; VText reason; VText serverID]) l) /\
  Forall (fun w => fst w <> saveCursor) l.

Lemma traced_after {A B} (m : M Journal A) (k : A -> M Journal B) (Q : list (string * list sqlValue) -> Prop) :
  (forall l l', Q l' -> Q (l ++ l')) -> Calls (fun _ => True) m ->
  (forall a, traced (k a) (fun cs r => forall b, r = inr b -> Q (executed cs))) ->
  traced (m ≫= k) (fun cs r => forall b, r = inr b -> Q (executed cs)).
Proof.
  intros Qm Cm Tk. eapply traced_bind; [exact Cm|done|]. intros a cs _.
  eapply traced_weaken; [apply Tk|]. intros cs' r W b R. rewrite executed_app. apply Qm. by apply (W b).
Qed.
Lemma traced_inTx {A} (body : M Journal A) (Q : list (string * list sqlValue) -> Prop) :
  traced body (fun cs r => forall b, r = inr b -> Q (executed cs)) ->
  traced (inTx body) (fun cs r => forall b, r = inr b -> Q (executed cs)).
Proof.
  intros T. eapply traced_weaken; [exact (inTx_traced _ _ T)|].
  intros cs r [(a & err & -> & _ & ->)|(a & b & cs' & -> & _ & W)] x R; [done|].
  cbn [executed omap list_omap snd]. fold (executed (cs' ++ [(b, RolledBack)])).
  rewrite executed_app. cbn. rewrite app_nil_r. by apply (W x).
Qed.

Lemma run_first {A} sql args (m : M Journal A) (Q : list (string * list sqlValue) -> Prop) :
  closed (length args) sql -> (forall l, Q ((sql, args) :: l)) -> Calls (fun _ => True) m ->
  traced (run sql args ;; m) (fun cs r => forall b, r = inr b -> Q (executed cs)).
Proof.
  intros C W Cm. eapply traced_bind; [apply (run_executed sql args C)|done|]. intros [] cs [_ E].
  eapply traced_weaken; [exact Cm|]. intros cs' r _ b _. rewrite executed_app, (E tt) by done. apply W.
Qed.
End clients.

(** ** What an event writes *)

Section reports.
Context `{Database} `{HistoryJSON}.

Abbreviation calls_ := (list (nat * sqlCall)).

(** The answer to a question for a row that may be missing. *)
Definition rowAt {A} (scan : list sqlValue -> error + A) (n : nat) : error + option A :=
  let row := match rowsOf n with
    | inl err => inl err | inr [] => inl ErrNoRows | inr (row :: _) => scan row end in
  match row with
  | inr a => inr (Some a)
  | inl err => if errors_Is err errNoRows then inr None else inl err
  end.
Lemma queryRowOpt_at {A} sql args (scan : list sqlValue -> error + A) :
  traced (queryRowOpt sql args scan) (fun cs r => exists n, cs = [(n, Queried sql args)] /\ r = rowAt scan n).
Proof.
  intros j. exists [(j_turn j, Queried sql args)].
  unfold final, result, queryRowOpt, queryRow, query, called, try, fromResult, rowAt, mbind, M_bind, bind. cbn.
  destruct (rowsOf (j_turn j)) as [err|[|row rows]] eqn:Er; cbn.
  - destruct (errors_Is err errNoRows) eqn:Ee; cbn; (split; [done|]); exists (j_turn j); by rewrite Er, Ee.
  - split; [done|]. exists (j_turn j). by rewrite Er.
  - destruct (scan row) as [err|a] eqn:Es; cbn.
    + destruct (errors_Is err errNoRows) eqn:Ee; cbn; (split; [done|]); exists (j_turn j); by rewrite Er, Es, Ee.
    + split; [done|]. exists (j_turn j). by rewrite Er, Es.
Qed.

(** A statement that begins so and has these values among its arguments. *)
Definition touches (beginning : string) (values : list sqlValue) (l : list (string * list sqlValue)) : Prop :=
  exists sql args, In (sql, args) l /\ HasPrefix sql beginning = true /\ incl values args.

(** A reservation that an event tells of, with its GPUs. *)
Definition reservationValues (nodeID : string) (p : ReservationUpsert) : list sqlValue :=
  [VText nodeID; VText (ReservationUpsert_GroupID p); VText (ReservationUpsert_Holder p);
   VText (ReservationUpsert_Purpose p); VInt (millis (ReservationUpsert_StartsAt p));
   VInt (millis (ReservationUpsert_ExpiresAt p))].
Definition inserts (nodeID : string) (p : ReservationUpsert) (cs : calls_) : Prop :=
  touches "INSERT INTO reservation_sessions(" (reservationValues nodeID p) (executed cs).
Definition updates (nodeID : string) (p : ReservationUpsert) (cs : calls_) : Prop :=
  exists n sql args rows, In (n, Executed sql args) cs /\ execOf n = inr rows /\ 0 < rows /\
    HasPrefix sql "UPDATE reservation_sessions SET node_id=?" = true /\ incl (reservationValues nodeID p) args.
Definition placesMembers (p : ReservationUpsert) (cs : calls_) : Prop :=
  forall member, In member (ReservationUpsert_Members p) ->
    touches "INSERT INTO session_gpus(" [VInt (ReservationMember_GPU member);
      VText (ReservationMember_ReservationID member)] (executed cs).

(** A reservation that ended. *)
Definition ended (nodeID : string) (p : ReservationEnded) (cs : calls_) : Prop :=
  let values := [VInt (millis (ReservationEnded_EndedAt p)); VText nodeID; VText (ReservationEnded_GroupID p)] in
  touches (if ReservationEnded_Reason p =s "revoked"
           then "UPDATE reservation_sessions SET revoked_at_ms=?,finalized_at_ms=?"
           else "UPDATE reservation_sessions SET finalized_at_ms=?") values (executed cs) /\
  touches "UPDATE jobs SET" values (executed cs).

(** A job that an event tells of; and a group of which the database, asked for its
    session, answered none. *)
Definition jobValues (nodeID : string) (p : JobEvent) : list sqlValue :=
  [VText nodeID; VText (JobEvent_ExecutionID p); VText (JobEvent_Mode p); VText (JobEvent_Holder p)].
Definition unknownTo (nodeID group : string) (cs : calls_) : Prop :=
  exists n sql, In (n, Queried sql [VText nodeID; VText group]) cs /\
    (rowAt scanSessionOfJob n = inr None \/
     exists row, rowAt scanSessionOfJob n = inr (Some row) /\ row_ID row = "").

Definition jobbed (nodeID : string) (p : JobEvent) (cs : calls_) : Prop :=
  let groups := telemetryGroups (JobEvent_GroupID p) (JobEvent_GroupIDs p) in
  touches "INSERT INTO jobs(" (jobValues nodeID p) (executed cs) \/
  (* a job of no session that is known *)
  (groups = [] -> isClaimedRun (JobEvent_TokenMode p) = true -> TrimSpace (JobEvent_ExecutionID p) = "") /\
  forall group, In group groups -> unknownTo nodeID group cs.
(** A sample of a GPU: what the window has of its first minute. *)
Definition sampled (nodeID : string) (p : GPUSample) (gpu : GPUSampleEntry) (cs : calls_) : Prop :=
  touches "INSERT INTO node_gpu_minute_rollups(" [VText nodeID; VInt (GPUSampleEntry_GPU gpu);
    VInt (millis (Truncate (GPUSample_WindowStart p) Minute))] (executed cs).

(** What an event of a node has to change, by its kind. *)
Record reported (nodeID : string) (event : Event) (cs : calls_) : Prop := {
  rep_reservation : Event_Type event = "reservation.upsert" ->
    exists p, ReadReservationUpsert (Event_Payload event) = inr p /\
      (updates nodeID p cs \/ inserts nodeID p cs) /\ placesMembers p cs;
  rep_ended : Event_Type event = "reservation.ended" ->
    exists p, ReadReservationEnded (Event_Payload event) = inr p /\ ended nodeID p cs;
  rep_authorization : Event_Type event = "authorization.upsert" ->
    exists p, ReadAuthorizationUpsert (Event_Payload event) = inr p /\
      touches "INSERT INTO authorization_scopes(" [VText nodeID; VText (AuthorizationUpsert_AuthorizationID p);
        VText (AuthorizationUpsert_Mode p); VText (AuthorizationUpsert_Holder p);
        VInt (millis (AuthorizationUpsert_CreatedAt p))] (executed cs);
  rep_authorizationEnded : Event_Type event = "authorization.ended" ->
    exists p, ReadAuthorizationEnded (Event_Payload event) = inr p /\
      touches "UPDATE authorization_scopes SET ended_at_ms=?" [VInt (millis (AuthorizationEnded_EndedAt p));
        VText (AuthorizationEnded_Reason p); VText nodeID; VText (AuthorizationEnded_AuthorizationID p)] (executed cs);
  rep_job : In (Event_Type event) ["job.started"; "job.updated"; "job.finished"] ->
    exists p, ReadJobEvent (Event_Payload event) = inr p /\ jobbed nodeID p cs;
  rep_sample : Event_Type event = "gpu.sample" ->
    exists p, ReadGPUSample (Event_Payload event) = inr p /\
      (Millisecond <= Z.min (GPUSample_WindowEnd p) (Truncate (GPUSample_WindowStart p) Minute + Minute) -
         GPUSample_WindowStart p ->
       forall gpu, In gpu (GPUSample_GPUs p) -> sampled nodeID p gpu cs);
  rep_gap : Event_Type event = "telemetry.gap" ->
    exists p, ReadGap (Event_Payload event) = inr p /\
      let from := if IsZero (Gap_From p) then TimeAdd (Event_OccurredAt event) (- (24 * Hour)) else Gap_From p in
      touches "UPDATE reservation_sessions SET history_quality='partial'" [VText nodeID; VInt (millis from)] (executed cs)
}.

(** ** The statements of a method that answers *)

Definition leaves {A} (Q : calls_ -> Prop) (m : M Journal A) : Prop :=
  traced m (fun cs r => forall a, r = inr a -> Q cs).
(** What more calls do not take back. *)
Definition lasting (Q : calls_ -> Prop) : Prop := forall cs cs' cs'', Q cs' -> Q (cs ++ cs' ++ cs'').

Lemma touches_lasting beginning values : lasting (fun cs => touches beginning values (executed cs)).
Proof.
  intros cs cs' cs'' (sql & args & I & W). exists sql, args. split; [|done]. rewrite !executed_app.
  apply in_or_app. right. apply in_or_app. by left.
Qed.
Lemma lasting_and (P Q : calls_ -> Prop) : lasting P -> lasting Q -> lasting (fun cs => P cs /\ Q cs).
Proof. intros LP LQ cs cs' cs'' [HP HQ]. split; auto. Qed.
Lemma lasting_or (P Q : calls_ -> Prop) : lasting P -> lasting Q -> lasting (fun cs => P cs \/ Q cs).
Proof. intros LP LQ cs cs' cs'' [HP|HQ]; auto. Qed.
Lemma lasting_all {X} (P : X -> calls_ -> Prop) : (forall x, lasting (P x)) -> lasting (fun cs => forall x, P x cs).
Proof. intros L cs cs' cs'' W x. by apply L. Qed.
Lemma lasting_if (P : Prop) (Q : calls_ -> Prop) : lasting Q -> lasting (fun cs => P -> Q cs).
Proof. intros L cs cs' cs'' W p. by apply L, W. Qed.

Lemma leaves_after {A B} Q (m : M Journal A) (k : A -> M Journal B) :
  lasting Q -> Calls (fun _ => True) m -> (forall a, leaves Q (k a)) -> leaves Q (m ≫= k).
Proof.
  intros L Cm W. eapply traced_bind; [exact Cm|done|]. intros a cs _. eapply traced_weaken; [apply W|].
  intros cs' r W' b R. rewrite <- (app_nil_r cs'). by apply L, (W' b).
Qed.
Lemma leaves_first {A B} Q (m : M Journal A) (k : A -> M Journal B) :
  lasting Q -> leaves Q m -> (forall a, Calls (fun _ => True) (k a)) -> leaves Q (m ≫= k).
Proof.
  intros L W Ck. eapply traced_bind; [exact W|done|]. intros a cs Wa. eapply traced_weaken; [apply Ck|].
  intros cs' r _ b _. apply (L []). by apply (Wa a).
Qed.
Lemma leaves_and {A} P Q (m : M Journal A) : leaves P m -> leaves Q m -> leaves (fun cs => P cs /\ Q cs) m.
Proof.
  intros WP WQ j. destruct (WP j) as (cs & E & V), (WQ j) as (cs' & E' & V').
  rewrite E in E'. apply app_inv_head in E' as <-. exists cs. split; [done|]. intros a R. split; eauto.
Qed.
Lemma leaves_both {A B} P Q (m : M Journal A) (k : A -> M Journal B) :
  lasting P -> lasting Q -> leaves P m -> (forall a, leaves Q (k a)) -> leaves (fun cs => P cs /\ Q cs) (m ≫= k).
Proof.
  intros LP LQ W Wk. eapply traced_bind; [exact W|done|]. intros a cs Wa. eapply traced_weaken; [apply Wk|].
  intros cs' r W' b R. split; [apply (LP []); by apply (Wa a)|].
  rewrite <- (app_nil_r cs'). by apply LQ, (W' b).
Qed.
Lemma leaves_all {A X} (P : X -> calls_ -> Prop) (m : M Journal A) : (forall x, leaves (P x) m) ->
  Calls (fun _ => True) m -> leaves (fun cs => forall x, P x cs) m.
Proof.
  intros W C j. destruct (C j) as (cs & E & _). exists cs. split; [done|]. intros a R x.
  destruct (W x j) as (cs' & E' & V). rewrite E in E'. apply app_inv_head in E' as ->. by apply (V a).
Qed.
Lemma leaves_weaken {A} (P Q : calls_ -> Prop) (m : M Journal A) :
  leaves P m -> (forall cs, P cs -> Q cs) -> leaves Q m.
Proof. intros W V. eapply traced_weaken; [exact W|]. intros cs r Wr a R. by eapply V, Wr. Qed.
Lemma leaves_throw {A} Q err : leaves Q (throw err : M Journal A).
Proof. intros j. exists []. by rewrite app_nil_r. Qed.
Lemma leaves_run sql args beginning values :
  HasPrefix sql beginning = true -> incl values args ->
  leaves (fun cs => touches beginning values (executed cs)) (run sql args).
Proof.
  intros P I j. exists [(j_turn j, Executed sql args)].
  unfold final, result, run, exec, called, fromResult, mbind, M_bind, bind. cbn.
  destruct (execOf (j_turn j)); cbn; (split; [done|]); [done|]. intros a _. exists sql, args.
  split; [by left|]. by split.
Qed.

(** The calls of the parts. *)
Lemma any {A} (P : sqlCall -> Prop) (m : M Journal A) : Calls P m -> Calls (fun _ => True) m.
Proof. intros C. by eapply Calls_weaken. Qed.
Lemma any_run sql args : Calls (fun _ => True) (run sql args).
Proof. by apply Calls_run. Qed.
Lemma any_query {A} sql args (scan : _ -> error + A) : Calls (fun _ => True) (queryRowOpt sql args scan).
Proof. by apply Calls_queryRowOpt. Qed.
Lemma any_row {A} sql args (scan : _ -> error + A) : Calls (fun _ => True) (queryRow sql args scan).
Proof. by apply Calls_queryRow. Qed.
Lemma any_exec sql args : Calls (fun _ => True) (exec sql args).
Proof. by apply Calls_exec. Qed.
Ltac anyhow := repeat match goal with
  | |- forall _, _ => intros ?
  | |- Calls _ (match ?x with _ => _ end) => destruct x
  | |- Calls _ (let x := _ in _) => cbv zeta
  | |- Calls _ (_ ≫= _) => apply Calls_bind
  | |- Calls _ (run _ _) => apply any_run
  | |- Calls _ (exec _ _) => apply any_exec
  | |- Calls _ (queryRow _ _ _) => apply any_row
  | |- Calls _ (queryRowOpt _ _ _) => apply any_query
  | |- Calls _ (ret _) => apply Calls_ret'
  | |- Calls _ (throw _) => apply Calls_throw
  | |- Calls _ (fromResult _) => apply Calls_fromResult
  | |- _ => solve [auto with calls]
  end.
Lemma any_insertMembers sql id members : Calls (fun _ => True) (insertMembers sql id members).
Proof. induction members as [|member members IH]; cbn [insertMembers]; anyhow; exact IH. Qed.

Lemma insertMembers_leaves sql id members member : In member members ->
  HasPrefix sql "INSERT INTO session_gpus(" = true ->
  leaves (fun cs => touches "INSERT INTO session_gpus(" [VInt (ReservationMember_GPU member);
    VText (ReservationMember_ReservationID member)] (executed cs)) (insertMembers sql id members).
Proof.
  intros I P. induction members as [|m members IH]; [done|]. cbn [insertMembers]. destruct I as [->|I].
  - apply leaves_first; [apply touches_lasting|apply leaves_run; [done|]|anyhow; apply any_insertMembers].
    intros x [<-|[<-|[]]]; cbn; auto.
  - apply leaves_after; [apply touches_lasting|apply any_run|]. intros _.
    apply leaves_after; [apply touches_lasting|apply any_run|]. intros _. by apply IH.
Qed.

Ltac within := intros ? ?; cbn in *; intuition (subst; auto).

Lemma inserts_lasting nodeID p : lasting (inserts nodeID p).
Proof. apply touches_lasting. Qed.
Lemma updates_lasting nodeID p : lasting (updates nodeID p).
Proof.
  intros cs cs' cs'' (n & sql & args & rows & I & W). exists n, sql, args, rows. split; [|done].
  apply in_or_app. right. apply in_or_app. by left.
Qed.
Lemma placesMembers_lasting p : lasting (placesMembers p).
Proof. do 2 (apply lasting_all; intros ?). apply touches_lasting. Qed.
Hint Resolve inserts_lasting updates_lasting placesMembers_lasting touches_lasting lasting_and lasting_or : core.

Lemma insertMembers_places sql id p : HasPrefix sql "INSERT INTO session_gpus(" = true ->
  leaves (placesMembers p) (insertMembers sql id (ReservationUpsert_Members p)).
Proof.
  intros P. apply leaves_all; [|apply any_insertMembers]. intros member.
  apply leaves_all; [|apply any_insertMembers]. intros I. by apply insertMembers_leaves.
Qed.

Lemma applyReservation_leaves nodeID serverID serverName p occurredAt owners :
  leaves (fun cs => (updates nodeID p cs \/ inserts nodeID p cs) /\ placesMembers p cs)
    (applyReservation nodeID serverID serverName p occurredAt owners).
Proof.
  unfold applyReservation. destruct (_ || _); [apply leaves_throw|]. cbv zeta.
  set (rest := fun changed : Z => if 0 <? changed then _ else _).
  assert (forall changed, (0 <? changed) = false ->
    leaves (fun cs => (updates nodeID p cs \/ inserts nodeID p cs) /\ placesMembers p cs) (rest changed)) as New.
  { intros changed E. unfold rest. rewrite E. cbv zeta.
    eapply leaves_weaken with (P := fun cs => inserts nodeID p cs /\ placesMembers p cs); [|tauto].
    apply leaves_both; [auto..| |].
    - apply leaves_run; [vm_compute; reflexivity|]. intros x I. cbn in I |- *. intuition (subst; auto).
    - intros _. apply leaves_after; [auto|apply any_row|]. intros id1.
      apply leaves_first; [auto| |intros; apply any_run]. by apply insertMembers_places. }
  destruct (negb (_ =s "")).
  - eapply traced_bind with (R := fun cs r => forall changed, r = inr changed -> 0 < changed -> updates nodeID p cs);
      [|done|].
    { intros j. eexists [(j_turn j, Executed _ _)]. unfold final, result, exec, called, fromResult, mbind, M_bind, bind. cbn.
      destruct (execOf (j_turn j)) as [err|rows] eqn:E; cbn; (split; [done|]); [done|].
      intros changed [= <-] P. exists (j_turn j). eexists _, _, rows. split; [by left|]. split; [done|]. split; [done|].
      split; [vm_compute; reflexivity|]. intros x I. cbn in I |- *. intuition (subst; auto). }
    intros changed cs W. destruct (0 <? changed) eqn:E.
    + eapply traced_weaken; [unfold rest; rewrite E; by apply insertMembers_places|].
      intros cs' r W' a R. split.
      * left. apply (updates_lasting _ _ []). apply (W changed); [done|lia].
      * rewrite <- (app_nil_r cs'). by apply placesMembers_lasting, (W' a).
    + eapply traced_weaken; [by apply New|]. intros cs' r W' a R. rewrite <- (app_nil_r cs').
      destruct (W' a R) as [[X|X] Y].
      * split; [left; by apply updates_lasting|by apply placesMembers_lasting].
      * split; [right; by apply inserts_lasting|by apply placesMembers_lasting].
  - exact (New 0 eq_refl).
Qed.

Lemma any_applyAuthorization_tail nodeID id groups : Calls (fun _ => True) (linkAuthorization nodeID id groups).
Proof. induction groups as [|group groups IH]; cbn [linkAuthorization]; anyhow; exact IH. Qed.
Lemma any_firstSession nodeID groups : forall found, Calls (fun _ => True) (firstSession nodeID groups found).
Proof. induction groups as [|group groups IH]; intros found; cbn [firstSession]; anyhow; apply IH. Qed.
Lemma applyAuthorization_leaves nodeID p :
  leaves (fun cs => touches "INSERT INTO authorization_scopes(" [VText nodeID; VText (AuthorizationUpsert_AuthorizationID p);
        VText (AuthorizationUpsert_Mode p); VText (AuthorizationUpsert_Holder p);
        VInt (millis (AuthorizationUpsert_CreatedAt p))] (executed cs)) (applyAuthorization nodeID p).
Proof.
  unfold applyAuthorization. cbv zeta. apply leaves_after; [auto|apply any_firstSession|]. intros session.
  apply leaves_first; [auto| |intros; apply any_applyAuthorization_tail].
  apply leaves_run; [vm_compute; reflexivity|]. intros x I. cbn in I |- *. intuition (subst; auto 12).
Qed.

(** Jobs. *)
Lemma unknownTo_lasting nodeID group : lasting (unknownTo nodeID group).
Proof.
  intros cs cs' cs'' (n & sql & I & W). exists n, sql. split; [|done].
  apply in_or_app. right. apply in_or_app. by left.
Qed.
Lemma sessionsOfJob_leaves nodeID groups : traced (sessionsOfJob nodeID groups) (fun cs r =>
  forall rows, r = inr rows -> List.find (fun row => negb (row_ID row =s "")) rows = None ->
    forall group, In group groups -> unknownTo nodeID group cs).
Proof.
  induction groups as [|group groups IH]; cbn [sessionsOfJob].
  { intros j. exists []. by rewrite app_nil_r. }
  eapply traced_bind; [apply queryRowOpt_at|done|]. intros found cs (n & -> & E).
  eapply traced_bind; [exact IH|done|]. intros rows cs' W. intros j. exists []. rewrite app_nil_r.
  split; [done|]. intros rows' R F group'. rewrite app_nil_r. cbn [result ret fst] in R. injection R as <-.
  assert (List.find (fun row => negb (row_ID row =s "")) rows = None) as Fr.
  { destruct found as [row|]; [|done]. cbn in F. by destruct (negb (row_ID row =s "")). }
  intros [<-|I].
  - exists n. eexists. split; [by left|]. destruct found as [row|]; [right|by left].
    exists row. split; [done|]. cbn in F. destruct (negb (row_ID row =s "")) eqn:Ne; [done|].
    apply negb_false_iff in Ne. by apply String.eqb_eq.
  - assert (unknownTo nodeID group' cs') as U by by apply (W rows).
    rewrite <- (app_nil_r cs'). by apply (unknownTo_lasting _ _ [_]).
Qed.

Lemma sessionID_some nodeID group : sessionID nodeID group <> "".
Proof. unfold sessionID, digestID. done. Qed.

Lemma claimedRun_named nodeID serverID serverName p occurredAt :
  traced (claimedRun nodeID serverID serverName p occurredAt) (fun cs r =>
    forall row, r = inr row -> row_ID row <> "").
Proof.
  unfold claimedRun. destruct (claimedSpan p occurredAt) as [startedAt endAt]. cbv zeta.
  do 2 (eapply traced_bind with (R := fun _ _ => True); [eapply traced_weaken; [apply any_run|done]|done|]; intros [] ? _).
  intros j. exists []. rewrite app_nil_r. split; [done|]. intros row [= <-]. apply sessionID_some.
Qed.
Lemma any_linkSessions nodeID p sessions : Calls (fun _ => True) (linkSessions nodeID p sessions).
Proof. induction sessions as [|session sessions IH]; cbn [linkSessions]; anyhow; exact IH. Qed.
Lemma any_insertJobGPUs nodeID id session gpus : Calls (fun _ => True) (insertJobGPUs nodeID id session gpus).
Proof. induction gpus as [|gpu gpus IH]; cbn [insertJobGPUs]; anyhow; exact IH. Qed.

Lemma jobbed_lasting nodeID p : lasting (jobbed nodeID p).
Proof.
  apply lasting_or; [apply touches_lasting|]. intros cs cs' cs'' [C U]. split; [done|].
  intros group I. by apply unknownTo_lasting, U.
Qed.

Lemma applyJob_leaves nodeID serverID serverName p occurredAt :
  leaves (jobbed nodeID p) (applyJob nodeID serverID serverName p occurredAt).
Proof.
  unfold applyJob. cbv zeta. set (groups := telemetryGroups _ _).
  eapply traced_bind; [apply sessionsOfJob_leaves|done|]. intros rows cs0 Un. specialize (Un rows eq_refl).
  set (claims := match List.find _ rows with Some _ => false | None => _ end).
  assert (forall A (x : A), claims = true -> TrimSpace (JobEvent_ExecutionID p) = "" ->
    traced (ret x : M Journal A) (fun cs' r => forall a, r = inr a -> jobbed nodeID p (cs0 ++ cs'))) as Blank.
  { intros A x C B j. exists []. rewrite !app_nil_r. split; [done|]. intros a _. right. fold groups. split; [done|].
    unfold claims in C. destruct (List.find _ rows); [done|]. apply andb_true_iff in C as [C _].
    destruct groups; [done|]. by rewrite llen_cons in C; pose proof (llen_nonneg groups); lia. }
  destruct (claims && (TrimSpace (JobEvent_ExecutionID p) =s "")) eqn:Cb.
  { apply andb_true_iff in Cb as [C B%String.eqb_eq]. by apply Blank. }
  eapply traced_bind with (R := fun _ r => forall rows', r = inr rows' ->
    if claims then List.find (fun row => negb (row_ID row =s "")) rows' <> None else rows' = rows); [|done|].
  { destruct claims.
    - eapply traced_bind; [apply claimedRun_named|done|]. intros row cs N. intros j. exists [].
      rewrite app_nil_r. split; [done|]. intros rows' [= <-]. cbn.
      rewrite (proj2 (String.eqb_neq _ _) (N row eq_refl)). done.
    - intros j. exists []. rewrite app_nil_r. split; [done|]. by intros rows' [= <-]. }
  intros rows' cs1 Rw. specialize (Rw rows' eq_refl).
  destruct (List.find _ rows') as [session|] eqn:F.
  - eapply traced_weaken.
    { match goal with |- traced ?m _ => assert (leaves (jobbed nodeID p) m) as L end; [|exact L].
      destruct (if negb (row_Kind session =s "claimed_run") then _ else _) as [rootExited finished].
      eapply leaves_weaken with (P := fun cs => touches "INSERT INTO jobs(" (jobValues nodeID p) (executed cs));
        [|intros cs T; by left].
      apply leaves_first; [auto| |intros; apply Calls_bind; [apply any_linkSessions|intros; apply any_insertJobGPUs]].
      apply leaves_run; [vm_compute; reflexivity|]. intros x I. cbn in I |- *. intuition (subst; auto 12). }
    intros cs r W a R. rewrite <- (app_nil_r cs), app_assoc. by apply jobbed_lasting, (W a).
  - intros j. exists []. rewrite app_nil_r. split; [done|]. intros a _. rewrite app_nil_r.
    destruct claims eqn:C; [done|]. subst rows'. right. fold groups. split.
    + intros E M. unfold claims in C. by rewrite F, E, M in C.
    + intros group I. apply (unknownTo_lasting _ _ []). by apply Un.
Qed.

(** Samples. *)
Lemma minuteLoop_any apply : (forall minute ms, Calls (fun _ => True) (apply minute ms)) ->
  forall fuel cursor end_, Calls (fun _ => True) (minuteLoop fuel apply cursor end_).
Proof.
  intros C. induction fuel as [|fuel IH]; intros cursor end_; cbn [minuteLoop]; [apply Calls_ret'|].
  destruct (negb _); [apply Calls_ret'|]. cbv zeta. destruct (_ <=? 0); [apply Calls_ret'|].
  apply Calls_bind; [apply C|intros; apply IH].
Qed.
Lemma any_nodeInterval nodeID gpu minute ms : Calls (fun _ => True) (nodeInterval nodeID gpu minute ms).
Proof. unfold nodeInterval. anyhow. Qed.
Lemma any_sessionInterval session gpu minute ms : Calls (fun _ => True) (sessionInterval session gpu minute ms).
Proof. unfold sessionInterval. anyhow. Qed.
Ltac sampling := anyhow; apply minuteLoop_any, any_sessionInterval.
Lemma any_applySampleGPUs nodeID p gpus : Calls (fun _ => True) (applySampleGPUs nodeID p gpus).
Proof.
  induction gpus as [|gpu gpus IH]; cbn [applySampleGPUs]; [apply Calls_ret'|]. cbv zeta.
  apply Calls_bind; [apply minuteLoop_any, any_nodeInterval|]. intros _.
  apply Calls_bind; [|intros; exact IH]. sampling.
Qed.

Lemma applyNodeGPUIntervals_leaves nodeID p gpu :
  let from := GPUSample_WindowStart p in
  Millisecond <= Z.min (GPUSample_WindowEnd p) (Truncate from Minute + Minute) - from ->
  leaves (sampled nodeID p gpu) (applyNodeGPUIntervals nodeID gpu from (GPUSample_WindowEnd p)).
Proof.
  intros from L. unfold applyNodeGPUIntervals, minutesIn. fold from.
  assert (0 < Millisecond /\ 0 < Minute) as [Pm PM] by done.
  assert (from < GPUSample_WindowEnd p) as Lt by lia.
  assert (Z.to_nat ((GPUSample_WindowEnd p - from) / Minute + 2) =
          S (Z.to_nat ((GPUSample_WindowEnd p - from) / Minute + 1))) as ->.
  { pose proof (Z.div_pos (GPUSample_WindowEnd p - from) Minute ltac:(lia) PM). lia. }
  cbn [minuteLoop]. unfold Before at 1. rewrite (proj2 (Z.ltb_lt _ _) Lt). cbn [negb]. cbv zeta.
  unfold After, TimeAdd. set (minute := Truncate from Minute) in *.
  assert ((if GPUSample_WindowEnd p <? minute + Minute then GPUSample_WindowEnd p else minute + Minute) =
          Z.min (GPUSample_WindowEnd p) (minute + Minute)) as ->.
  { destruct (Z.ltb_spec (GPUSample_WindowEnd p) (minute + Minute)); lia. }
  destruct (Truncate_minute from) as [_ B]. fold minute in B.
  rewrite TimeSub_small, Milliseconds_div by lia.
  assert (1 <= (Z.min (GPUSample_WindowEnd p) (minute + Minute) - from) / Millisecond) as D.
  { apply Z.div_le_lower_bound; lia. }
  destruct (Z.leb_spec ((Z.min (GPUSample_WindowEnd p) (minute + Minute) - from) / Millisecond) 0); [lia|].
  apply leaves_first; [apply touches_lasting| |intros; apply minuteLoop_any, any_nodeInterval].
  unfold nodeInterval. destruct (validUtilization gpu); (apply leaves_run; [vm_compute; reflexivity|]);
    intros x I; cbn in I |- *; intuition (subst; auto 12).
Qed.
Lemma applySampleGPUs_leaves nodeID p gpu gpus : In gpu gpus ->
  Millisecond <= Z.min (GPUSample_WindowEnd p) (Truncate (GPUSample_WindowStart p) Minute + Minute) -
    GPUSample_WindowStart p ->
  leaves (sampled nodeID p gpu) (applySampleGPUs nodeID p gpus).
Proof.
  intros I L. induction gpus as [|g gpus IH]; [done|]. cbn [applySampleGPUs]. cbv zeta. destruct I as [->|I].
  - apply leaves_first; [apply touches_lasting|by apply applyNodeGPUIntervals_leaves|]. intros _.
    apply Calls_bind; [|intros; apply any_applySampleGPUs]. sampling.
  - apply leaves_after; [apply touches_lasting|apply minuteLoop_any, any_nodeInterval|]. intros _.
    apply leaves_after; [apply touches_lasting| |intros; by apply IH]. sampling.
Qed.

Lemma leaves_read {A B} Q (r : error + A) (k : A -> M Journal B) :
  (forall a, r = inr a -> leaves Q (k a)) -> leaves Q (fromResult r ≫= k).
Proof. intros W. destruct r as [err|a]; [apply leaves_throw|exact (W a eq_refl)]. Qed.

(** An event that is applied changes what it has to. *)
Lemma applyEvent_leaves nodeID serverID serverName event owners :
  leaves (reported nodeID event) (applyEvent nodeID serverID serverName event owners).
Proof.
  unfold applyEvent. cbv zeta.
  destruct (String.eqb_spec (Event_Type event) "reservation.upsert") as [K|K1].
  { apply leaves_read. intros p R. eapply leaves_weaken; [apply applyReservation_leaves|]. intros cs W.
    split; rewrite K; try done; [by exists p|]. cbn. intuition discriminate. }
  destruct (String.eqb_spec (Event_Type event) "reservation.ended") as [K|K2].
  { apply leaves_read. intros p R. eapply leaves_weaken with (P := ended nodeID p);
      [|intros cs W; split; rewrite K; try done; [intros _; by exists p|cbn; intuition discriminate]].
    unfold ended. cbv zeta. apply leaves_both; [apply touches_lasting..| |intros _; apply leaves_run; [vm_compute; reflexivity|
      intros x I; cbn in I |- *; intuition (subst; auto 12)]].
    destruct (_ =s "revoked"); (apply leaves_run; [vm_compute; reflexivity|
      intros x I; cbn in I |- *; intuition (subst; auto 12)]). }
  destruct (String.eqb_spec (Event_Type event) "authorization.upsert") as [K|K3].
  { apply leaves_read. intros p R. eapply leaves_weaken; [apply applyAuthorization_leaves|]. intros cs W.
    split; rewrite K; try done; [by exists p|]. cbn. intuition discriminate. }
  destruct (String.eqb_spec (Event_Type event) "authorization.ended") as [K|K4].
  { apply leaves_read. intros p R. eapply leaves_weaken.
    { apply leaves_run with (beginning := "UPDATE authorization_scopes SET ended_at_ms=?")
        (values := [VInt (millis (AuthorizationEnded_EndedAt p)); VText (AuthorizationEnded_Reason p);
                    VText nodeID; VText (AuthorizationEnded_AuthorizationID p)]); [vm_compute; reflexivity|].
      intros x I. exact I. }
    intros cs W. split; rewrite K; try done; [by exists p|]. cbn. intuition discriminate. }
  destruct (_ || _) eqn:J.
  { apply leaves_read. intros p R. eapply leaves_weaken; [apply applyJob_leaves|]. intros cs W.
    rewrite !orb_true_iff, !String.eqb_eq in J.
    split; try (intros K; rewrite K in J; intuition discriminate). by exists p. }
  apply orb_false_iff in J as [[J1%String.eqb_neq J2%String.eqb_neq]%orb_false_iff J3%String.eqb_neq].
  destruct (String.eqb_spec (Event_Type event) "gpu.sample") as [K|K5].
  { apply leaves_read. intros p R.
    eapply leaves_weaken with (P := fun cs => _ -> forall gpu, In gpu (GPUSample_GPUs p) -> sampled nodeID p gpu cs);
      [|intros cs W; split; rewrite K; try done; [cbn; intuition discriminate|intros _; exists p; split; [exact R|exact W]]].
    assert (Calls (fun _ => True) (applyGPUSample nodeID p)) as C.
    { unfold applyGPUSample. destruct (negb _); [apply Calls_ret'|apply any_applySampleGPUs]. }
    apply leaves_all; [intros L|exact C]. do 2 (apply leaves_all; [intros ?|exact C]).
    unfold applyGPUSample. unfold After. destruct (Z.ltb_spec (GPUSample_WindowStart p) (GPUSample_WindowEnd p));
      [by apply applySampleGPUs_leaves|].
    assert (0 < Millisecond) by done. lia. }
  destruct (String.eqb_spec (Event_Type event) "telemetry.gap") as [K|K6].
  { apply leaves_read. intros p R. eapply leaves_weaken.
    { apply leaves_run with (beginning := "UPDATE reservation_sessions SET history_quality='partial'")
        (values := [VText nodeID; VInt (millis (if IsZero (Gap_From p)
           then TimeAdd (Event_OccurredAt event) (- (24 * Hour)) else Gap_From p))]); [vm_compute; reflexivity|].
      intros x I. cbn in I |- *. intuition (subst; auto 12). }
    intros cs W. split; rewrite K; try done; [cbn; intuition discriminate|by exists p]. }
  intros j. exists []. rewrite app_nil_r. split; [done|]. intros a _.
  split; try done. cbn. intros [E|[E|[E|[]]]]; congruence.
Qed.

(** The events of a page, in order: each is marked as seen, and changes what it has to
    unless the mark was there. *)
Inductive took (page : Page) (now : Z) : list Event -> calls_ -> Prop :=
  | took_none : took page now [] []
  | took_seen event events n cs : execOf n = inr 0 -> took page now events cs ->
      took page now (event :: events) ((n, Executed seenEvent (seenArgs page now event)) :: cs)
  | took_new event events n rows block cs : execOf n = inr rows -> rows <> 0 ->
      reported (Page_NodeID page) event block -> took page now events cs ->
      took page now (event :: events) ((n, Executed seenEvent (seenArgs page now event)) :: block ++ cs).

Lemma applyEvents_took serverID serverName page now owners events :
  leaves (took page now events) (applyEvents serverID serverName page now owners events).
Proof.
  induction events as [|event events IH]; cbn [applyEvents].
  { intros j. exists []. rewrite app_nil_r. split; [done|]. constructor. }
  eapply traced_bind with (R := fun cs r => exists n, cs = [(n, Executed seenEvent (seenArgs page now event))] /\
    r = execOf n); [|done|].
  { unfold exec. apply traced_call. eauto. }
  intros rows cs (n & -> & E).
  eapply traced_bind with (R := fun cs r => forall u, r = inr u ->
    if rows =? 0 then cs = [] else reported (Page_NodeID page) event cs); [|done|].
  { destruct (rows =? 0).
    - intros j. exists []. rewrite app_nil_r. by split.
    - eapply traced_bind with (R := fun cs r => forall u, r = inr (inr u) -> reported (Page_NodeID page) event cs); [|done|].
      { apply traced_try. eapply traced_weaken; [apply applyEvent_leaves|]. intros cs r W u [= ->]. by apply (W u). }
      intros [err|u] cs W; [intros j; exists []; by rewrite app_nil_r|].
      intros j. exists []. rewrite !app_nil_r. split; [done|]. intros v _. by apply (W u). }
  intros [] block W. specialize (W tt eq_refl). eapply traced_weaken; [exact IH|]. intros cs' r T a R.
  specialize (T a R). cbn [app]. destruct (Z.eqb_spec rows 0) as [->|Ne].
  - subst block. by apply took_seen.
  - by eapply took_new.
Qed.

(** The events of the page among the calls of its transaction. *)
Definition tookEvents (page : Page) (cs : calls_) : Prop :=
  exists now before events after, cs = before ++ events ++ after /\ took page now (Page_Events page) events.
Lemma tookEvents_lasting page : lasting (tookEvents page).
Proof.
  intros cs cs' cs'' (now & before & events & after & -> & T). exists now, (cs ++ before), events, (after ++ cs'').
  split; [by rewrite <- !app_assoc|done].
Qed.
Lemma leaves_inTx {A} Q (body : M Journal A) : lasting Q -> leaves Q body -> leaves Q (inTx body).
Proof.
  intros L W. eapply traced_weaken; [exact (inTx_traced _ _ W)|].
  intros cs r [(a & err & -> & _ & ->)|(a & b & cs' & -> & _ & V)] x R; [done|].
  apply (L [_]). by apply (V x).
Qed.
Lemma ApplyPage_took serverID serverName page owners :
  leaves (tookEvents page) (ApplyPageWithOwners serverID serverName page owners).
Proof.
  unfold ApplyPageWithOwners. destruct (_ || _); [apply leaves_throw|].
  pose proof (tookEvents_lasting page) as L. apply leaves_inTx; [done|].
  apply leaves_after; [done|apply Calls_now|]. intros t. cbv zeta.
  apply leaves_after; [done|apply any_run|]. intros _.
  apply leaves_first; [done| |].
  - eapply leaves_weaken; [apply applyEvents_took|]. intros cs T. exists (UnixMilli t), [], cs, [].
    by rewrite app_nil_r.
  - intros _. anyhow. by apply Calls_commit.
Qed.
End reports.

(** * Filters *)

(** C40. What a filter says never becomes text of a statement.  A filter that is accepted
    compiles to one closed condition with a placeholder for each of its at most 641
    arguments, and every other accepted filter with the same fields, operators and numbers
    of values compiles to the same text; one that is refused is refused as an invalid
    filter. *)
Theorem filter_values_are_arguments `{SearchJSON} e :
  match compileSearchExpression e with
  | inr c => parameterized c /\ (length (snd c) <= 641)%nat /\
      forall e' c', alike e e' -> compileSearchExpression e' = inr c' -> fst c' = fst c
  | inl err => errors_Is err errInvalidSearchFilter = true
  end.
Proof.
  destruct (compileSearchExpression e) as [err|c] eqn:E; [by eapply expression_error|].
  destruct (expression_sound _ _ E) as [P L]. split; [exact P|]. split; [exact L|].
  intros e' c' A E'. symmetry. by apply (expression_same e e' c c').
Qed.

(** * Examples *)

(** A database that answers nothing, changes one row at a time, and whose clock ticks. *)
#[local] Instance sampleDatabase : Database := {|
  beginOf := fun _ => None; rowsOf := fun _ => inr []; execOf := fun n => inr (if (n <? 20)%nat then 1 else 0);
  commitOf := fun _ => None; clockAt := fun n => Z.of_nat n * Second;
  scanText := fun v => match v with VText s => inr s | _ => inl errColumns end;
  scanInt := fun v => match v with VInt z => inr z | _ => inl errColumns end;
  scanReal := fun v => match v with VReal x => inr x | _ => inl errColumns end;
  scanBool := fun v => match v with VBool b => inr b | _ => inl errColumns end;
  scanNullInt := fun v => match v with VInt z => inr (Some z) | VNull => inr None | _ => inl errColumns end;
  scanNullReal := fun v => match v with VReal x => inr (Some x) | VNull => inr None | _ => inl errColumns end;
  scanNullText := fun v => match v with VText s => inr (Some s) | VNull => inr None | _ => inl errColumns end
|}.
#[local] Instance sampleHistoryJSON : HistoryJSON := {|
  ReadCommand := fun _ => []; WriteCommand := fun _ => "[]";
  ReadReservationUpsert := fun _ => inl errColumns; ReadReservationEnded := fun _ => inl errColumns;
  ReadAuthorizationUpsert := fun _ => inl errColumns; ReadAuthorizationEnded := fun _ => inl errColumns;
  ReadJobEvent := fun _ => inl errColumns; ReadGPUSample := fun _ => inl errColumns;
  ReadGap := fun _ => inr (mkGap 0 0 "lost")
|}.
#[local] Instance sampleSearchJSON : SearchJSON := {|
  ReadString := Some; ReadStrings := fun s => Some [s]; ReadNumber := fun _ => None;
  ReadNumbers := fun _ => None; ParseRFC3339 := fun _ => None
|}.
Definition sampleJournal (turn : nat) : Journal := mkJournal turn [].
Definition sampleSearch : M Journal (DashboardSummary * list Session * SearchCursor) :=
  Search (mkSearchExpression "gpu-1" [[mkSearchRule "purpose" "contains" "it's (1?)"]])
    (mkSearchSort "" "") 10 SearchCursor_zero.

Lemma statements_match_arguments_witness :
  Forall (fun c => parametric (snd c)) (newCalls sampleSearch (sampleJournal 0)) /\
  length (newCalls sampleSearch (sampleJournal 0)) = 3%nat.
Proof. split; [apply statements_match_arguments; apply method_Search|vm_compute; reflexivity]. Defined.

Definition sampleConfirm : M Journal unit := ConfirmSession "sess_1" "group-1" ["r-0"] [0; 1].
Lemma writes_are_atomic_witness :
  effects None (newCalls sampleConfirm (sampleJournal 0)) = executed (newCalls sampleConfirm (sampleJournal 0)) /\
  length (effects None (newCalls sampleConfirm (sampleJournal 0))) = 5%nat.
Proof.
  split; [|vm_compute; reflexivity].
  exact (writes_are_atomic unit sampleConfirm (sampleJournal 0) (writes_ConfirmSession _ _ _ _)).
Defined.

Definition samplePage : Page :=
  mkPage 1 "node-1" "stream-1" "boot-1" [mkEvent 7 Second "boot-1" "telemetry.gap" "{}"] "cursor-7" false 7 7.
Definition sampleApply : M Journal unit := ApplyPageWithOwners "gpu-1" "GPU 1" samplePage [].
Lemma redelivered_page_only_keeps_books_witness :
  result sampleApply (sampleJournal 0) = inr tt /\
  length (effects None (newCalls sampleApply (sampleJournal 0))) = 7%nat /\
  keepsBooks (newCalls sampleApply (sampleJournal 20)) /\
  length (executed (newCalls sampleApply (sampleJournal 20))) = 6%nat.
Proof.
  split; [vm_compute; reflexivity|]. split; [vm_compute; reflexivity|]. split; [|vm_compute; reflexivity].
  apply (redelivered_page_only_keeps_books "gpu-1" "GPU 1" "gpu-1" "GPU 1" samplePage [] [] (sampleJournal 0)).
  - vm_compute. reflexivity.
  - intros n page now now' event I _.
    assert (Forall (fun c => execOf (fst c) = inr 0) (newCalls sampleApply (sampleJournal 20))) as F.
    { vm_compute. repeat constructor. }
    apply list_elem_of_In in I. exact (proj1 (Forall_forall _ _) F _ I).
Defined.

(** Ten and a half seconds around a change of minute, with fractions of a millisecond at
    both ends; and a window that starts half a millisecond before it. *)
Lemma sample_minutes_witness :
  let apply := nodeInterval "node-1" (mkGPUSampleEntry 0 "" None None None) in
  let start := 115 * Second + 300 in
  let end_ := 115 * Second + 10500 * Millisecond + 700 in
  (sumOf (overlap start end_) (accounted start end_ (minutesOf start end_)) = 10499 /\
   minutesOf start end_ = [60 * Second; 120 * Second]) /\
  (0 <= end_ - start - sumOf (overlap start end_) (accounted start end_ (minutesOf start end_)) * Millisecond
     < 2 * Millisecond) /\
  minuteLoop (minutesIn (120 * Second - 500000) (130 * Second)) apply (120 * Second - 500000) (130 * Second) = ret tt.
Proof.
  split; [|split].
  - split; vm_compute; reflexivity.
  - apply (proj1 (sample_minutes (fun _ _ => ret tt) (115 * Second + 300) (115 * Second + 10500 * Millisecond + 700)
      ltac:(vm_compute; reflexivity)) ltac:(vm_compute; discriminate)).
  - apply (sample_minutes (nodeInterval "node-1" (mkGPUSampleEntry 0 "" None None None))); vm_compute; reflexivity.
Defined.
