(* ===== verification/WebHistory.v ===== *)
(** internal/web/history_handlers.go and history_collector.go: the routes about the
    history, the cursors they give out, and the collector that carries the telemetry of
    the nodes into it; with [NodeClient.Telemetry] of client.go.

    A route is a value of [M Journal], a round of the collector one of [M Collector].  The
    goroutines of a round are taken one after another: they share the database, which
    answers numbered questions, and the map under historySyncMu. *)

From S2P Require Import WebRegistryFacts.
From S2P Require Export WebFleet HistoryFacts GoBase64.
From Stdlib Require Import Ascii.
#[global] Open Scope Z_scope.

(** * Data *)

Record historyResultRequest : Type := mkResultRequest
  { resultRequest_Outcome : string; resultRequest_Note : string;
    resultRequest_Artifacts : list Artifact; resultRequest_Version : Z }.
Record historySearchRequest : Type := mkSearchRequest
  { search_Filter : SearchExpression; search_Sort : SearchSort; search_Limit : Z;
    search_Cursor : string }.
Record historyPageCursor : Type := mkPageCursor { cursor_At : Z; cursor_ID : string }.
Definition historyPageCursor_zero : historyPageCursor := mkPageCursor 0 "".
(** [historySearchPageCursor] has the fields of [history.SearchCursor]. *)
Definition historySearchPageCursor : Type := SearchCursor.

Class CursorJSON : Type := {
  MarshalPageCursor : historyPageCursor -> string;
  UnmarshalPageCursor : string -> error + historyPageCursor;
  MarshalSearchCursor : historySearchPageCursor -> string;
  UnmarshalSearchCursor : string -> error + historySearchPageCursor;
  DecodeSearchRequest : bodyReader -> error + historySearchRequest * bodyReader;
  DecodeResultRequest : bodyReader -> error + historyResultRequest * bodyReader
}.

(** A request with the values of its query, and the order in which the map of the two
    times is ranged over. *)
Record historyRequest : Type := mkHistoryRequest
  { hr_Request : webRequest; hr_Query : list (string * string); hr_FromFirst : bool }.
Definition queryGet (r : historyRequest) (key : string) : string := default "" (inMap (hr_Query r) key).

(** What a response about the history carries. *)
Inductive historyBody : Type :=
  | HError (message : string)
  | HSearch (summary : DashboardSummary) (sessions : list Session) (next : string)
  | HSummary (summary : DashboardSummary)
  | HSessions (sessions : list Session) (next : string)
  | HSession (session : Session)
  | HJobs (jobs : list Job) (next : string)
  | HResult (result : Result).
Record historyReply : Type := mkHistoryReply { hreply_Status : Z; hreply_Body : historyBody }.
Definition hrefused (status : Z) (message : string) : historyReply :=
  mkHistoryReply status (HError message).

(** * Cursors *)

Section cursors.
Context `{CursorJSON}.

Definition encodeHistoryCursor (at_ : Z) (id : string) : string :=
  EncodeToString RawURLEncoding (MarshalPageCursor (mkPageCursor at_ id)).
Definition decodeHistoryCursor (value : string) : option historyPageCursor :=
  if value =s "" then Some historyPageCursor_zero
  else if 512 <? slen value then None
  else match DecodeString RawURLEncoding value with
  | None => None
  | Some decoded =>
      match UnmarshalPageCursor decoded with
      | inl _ => None
      | inr cursor =>
          if (cursor_At cursor <=? 0) || (cursor_ID cursor =s "") || (256 <? slen (cursor_ID cursor))
          then None else Some cursor
      end
  end.

Definition encodeHistorySearchCursor (cursor : SearchCursor) : string :=
  EncodeToString RawURLEncoding (MarshalSearchCursor cursor).
Definition decodeHistorySearchCursor (value : string) : option SearchCursor :=
  if value =s "" then Some SearchCursor_zero
  else if 1024 <? slen value then None
  else match DecodeString RawURLEncoding value with
  | None => None
  | Some decoded =>
      match UnmarshalSearchCursor decoded with
      | inl _ => None
      | inr cursor =>
          if (Cursor_Field cursor =s "") || (Cursor_Direction cursor =s "") || (Cursor_ID cursor =s "") ||
             (256 <? slen (Cursor_ID cursor)) then None
          else if Bool.eqb (match Cursor_Text cursor with None => true | Some _ => false end)
                           (match Cursor_Number cursor with None => true | Some _ => false end)
          then None else Some cursor
      end
  end.

(** * Filters *)

Definition parseBoundedInt (value : string) (fallback minimum maximum : Z) : Z :=
  match Atoi (TrimSpace value) with
  | None => fallback
  | Some parsed => if (parsed <? minimum) || (maximum <? parsed) then fallback else parsed
  end.

Context `{SearchJSON}.

(** One of the two times of a filter. *)
Definition timeOf (r : historyRequest) (key : string) : error + option time :=
  let text := TrimSpace (queryGet r key) in
  if text =s "" then inr None
  else match ParseRFC3339 text with
       | None => inl (ErrorString (key +:+ " must be RFC3339"))
       | Some parsed => inr (Some (UTC parsed))
       end.
Definition parseHistoryFilter (r : historyRequest) : error + SessionFilter :=
  let get key := TrimSpace (queryGet r key) in
  let limit := parseBoundedInt (queryGet r "limit") 50 1 100 in
  match (if queryGet r "cursor" <>s "" then decodeHistoryCursor (queryGet r "cursor")
         else Some historyPageCursor_zero) with
  | None => inl (ErrorString "invalid cursor")
  | Some cursor =>
      let status := get "status" in
      if (status <>s "") && (status <>s "scheduled") && (status <>s "active") &&
         (status <>s "completed") && (status <>s "revoked")
      then inl (ErrorString "status must be scheduled, active, completed, or revoked")
      else
        let filter from to := mkSessionFilter (get "server_id") (get "owner") status from to limit
                                (cursor_At cursor) (cursor_ID cursor) in
        if hr_FromFirst r
        then from ← timeOf r "from"; to ← timeOf r "to"; inr (filter from to)
        else to ← timeOf r "to"; from ← timeOf r "from"; inr (filter from to)
  end.
End cursors.

(** * Handlers *)

Section handlers.
Context `{WebJSON} `{CursorJSON} `{SearchJSON} `{Database} `{HistoryJSON} `{History}.

Definition hnotAllowed : historyReply := hrefused StatusMethodNotAllowed "method not allowed".
Definition hunavailable : historyReply := hrefused StatusServiceUnavailable "history is unavailable".

(** [if x, err := m; err != nil { reply }], by the error. *)
Definition orRefuse {A} (status : error -> Z) (m : M Journal A) (next : A -> historyReply)
    : M Journal historyReply :=
  r ← try m;
  match r with
  | inl err => ret (hrefused (status err) (Error err))
  | inr a => ret (next a)
  end.
Definition internal (err : error) : Z := StatusInternalServerError.

Definition handleHistorySearch (r : historyRequest) : M Journal historyReply :=
  if q_Method (hr_Request r) <>s "POST" then ret hnotAllowed
  else if negb historyOn then ret hunavailable
  else match decodeJSONBody DecodeSearchRequest (hr_Request r) with
  | inl err => ret (hrefused StatusBadRequest (Error err))
  | inr request =>
      let limit := if search_Limit request =? 0 then 50 else search_Limit request in
      if (limit <? 1) || (100 <? limit)
      then ret (hrefused StatusBadRequest "limit must be between 1 and 100")
      else match decodeHistorySearchCursor (search_Cursor request) with
      | None => ret (hrefused StatusBadRequest "invalid cursor")
      | Some cursor =>
          orRefuse (fun err => if errors_Is err errInvalidSearchFilter then StatusBadRequest
                               else StatusInternalServerError)
            (Search (search_Filter request) (search_Sort request) limit cursor)
            (fun '(summary, sessions, nextCursor) =>
               let next := if (llen sessions =? limit) && (0 <? llen sessions)
                           then encodeHistorySearchCursor nextCursor else "" in
               mkHistoryReply StatusOK (HSearch summary sessions next))
      end
  end.

(** The two routes that take a filter. *)
Definition withFilter (r : historyRequest) (next : SessionFilter -> M Journal historyReply)
    : M Journal historyReply :=
  if q_Method (hr_Request r) <>s "GET" then ret hnotAllowed
  else if negb historyOn then ret hunavailable
  else match parseHistoryFilter r with
  | inl err => ret (hrefused StatusBadRequest (Error err))
  | inr filter => next filter
  end.
Definition handleHistorySummary (r : historyRequest) : M Journal historyReply :=
  withFilter r (fun filter =>
    orRefuse internal (HistorySummary filter) (fun summary => mkHistoryReply StatusOK (HSummary summary))).
Definition handleHistorySessions (r : historyRequest) : M Journal historyReply :=
  withFilter r (fun filter =>
    orRefuse internal (ListSessions filter) (fun sessions =>
      let next := match last sessions with
        | Some session => if llen sessions =? Filter_Limit filter
                          then encodeHistoryCursor (UnixMilli (Session_StartsAt session)) (Session_ID session)
                          else ""
        | None => ""
        end in
      mkHistoryReply StatusOK (HSessions sessions next))).

Definition getHistorySession (id : string) : M Journal historyReply :=
  orRefuse (fun err => if errors_Is err errHistoryNotFound then StatusNotFound else StatusInternalServerError)
    (GetSession id) (fun session => mkHistoryReply StatusOK (HSession session)).
Definition listHistoryJobs (id : string) (r : historyRequest) : M Journal historyReply :=
  let limit := parseBoundedInt (queryGet r "limit") 100 1 100 in
  match decodeHistoryCursor (queryGet r "cursor") with
  | None => ret (hrefused StatusBadRequest "invalid cursor")
  | Some after =>
      orRefuse internal (ListJobs id limit (cursor_At after) (cursor_ID after)) (fun jobs =>
        let next := match last jobs with
          | Some job => match Job_StartedAt job with
                        | Some startedAt => if llen jobs =? limit
                                            then encodeHistoryCursor (UnixMilli startedAt) (Job_CursorID job)
                                            else ""
                        | None => ""
                        end
          | None => ""
          end in
        mkHistoryReply StatusOK (HJobs jobs next))
  end.
Definition resultStatus (err : error) : Z :=
  if errors_Is err errHistoryNotFound then StatusNotFound
  else if errors_Is err errHistoryForbidden then StatusForbidden
  else if errors_Is err errVersionConflict then StatusConflict
  else StatusInternalServerError.
Definition putHistoryResult (session : sessionInfo) (id : string) (r : historyRequest)
    : M Journal historyReply :=
  match decodeJSONBody DecodeResultRequest (hr_Request r) with
  | inl err => ret (hrefused StatusBadRequest (Error err))
  | inr request =>
      let outcome := TrimSpace (resultRequest_Outcome request) in
      let note := TrimSpace (resultRequest_Note request) in
      match ValidateResult outcome note (resultRequest_Artifacts request) with
      | Some err => ret (hrefused StatusBadRequest (Error err))
      | None =>
          orRefuse resultStatus
            (PutResult id (session_User session) outcome note (resultRequest_Artifacts request)
               (resultRequest_Version request))
            (fun result => mkHistoryReply StatusOK (HResult result))
      end
  end.
Definition handleHistorySessionAction (session : sessionInfo) (r : historyRequest)
    : M Journal historyReply :=
  let method := q_Method (hr_Request r) in
  if negb historyOn then ret hunavailable
  else
    let rest := TrimPrefix (q_Path (hr_Request r)) "/api/history/sessions/" in
    match Split (TrimOf isSlash rest) "/"%char with
    | [id] => if id =s "" then ret (hrefused StatusNotFound "not found")
              else if method =s "GET" then getHistorySession id else ret hnotAllowed
    | [id; action] =>
        if id =s "" then ret (hrefused StatusNotFound "not found")
        else if (action =s "jobs") && (method =s "GET") then listHistoryJobs id r
        else if (action =s "result") && (method =s "PUT") then putHistoryResult session id r
        else ret hnotAllowed
    | _ => ret (hrefused StatusNotFound "not found")
    end.

(** The routes, behind [requireSession]. *)
Definition historyRoute (path : string) : option (sessionInfo -> historyRequest -> M Journal historyReply) :=
  if path =s "/api/history/summary" then Some (fun _ => handleHistorySummary)
  else if path =s "/api/history/search" then Some (fun _ => handleHistorySearch)
  else if path =s "/api/history/sessions" then Some (fun _ => handleHistorySessions)
  else if HasPrefix path "/api/history/sessions/" then Some handleHistorySessionAction
  else None.

(** [requireSession] and the checks of [securityMiddleware] in front of them: the
    fields of [Server] that these use, and the history. *)
Context `{UsersJSON} `{AEAD} `{Elsewhere}.
Definition Served : Type := Gateway * Journal.
Definition onServer {A} (m : M Gateway A) : M Served A := fun s =>
  let '(r, g) := m (fst s) in (r, (g, snd s)).
Definition onHistory {A} (m : M Journal A) : M Served A := fun s =>
  let '(r, j) := m (snd s) in (r, (fst s, j)).

Definition withHistorySession (sessionKey : list Z)
    (next : sessionInfo -> historyRequest -> M Journal historyReply) (r : historyRequest)
    : M Served historyReply :=
  session ← onServer (sessionUser sessionKey (hr_Request r));
  match session with
  | None => ret (hrefused StatusUnauthorized "authentication required")
  | Some session =>
      onServer elsewhere ;;
      ok ← onServer (acquireAuthenticatedRequest session);
      if negb ok
      then ret (hrefused StatusTooManyRequests "too many concurrent requests; retry shortly")
      else
        reply ← onHistory (next session r);
        onServer elsewhere ;;
        onServer (releaseAuthenticatedRequest session) ;;
        ret reply
  end.
Definition serveHistory (sessionKey : list Z) (r : historyRequest) : M Served (option historyReply) :=
  let request := hr_Request r in
  match historyRoute (q_Path request) with
  | None => ret None                               (* a path of serveWeb or serveFleet *)
  | Some next =>
      reply ← (if requestChangesState (q_Method request) && negb (sameOriginRequest request)
               then ret (hrefused StatusForbidden "cross-origin request denied")
               else if requestChangesState (q_Method request) && requestHasBody request &&
                       negb (requestHasJSONContentType request)
               then ret (hrefused StatusUnsupportedMediaType "Content-Type must be application/json")
               else withHistorySession sessionKey next r);
      ret (Some reply)
  end.
End handlers.

(** * The telemetry of a node *)

(** [TelemetryGapError] is told apart from other errors by [errors.As]. *)
Inductive telemetryAnswer : Type :=
  | TPage (page : Page) | TGap (gap : CursorGap) | TError (err : error).

Class TelemetryCodec : Type := {
  QueryEscape : string -> string;
  UnmarshalPage : string -> error + Page;
  UnmarshalGap : string -> error + CursorGap
}.

Section client.
Context `{NetURL} `{Transport} `{NodeCodec} `{TelemetryCodec}.

Definition url_set_RawQuery (query : string) (u : URL) : URL :=
  mkURL (url_Scheme u) (url_User u) (url_Host u) (url_Path u) query (url_Fragment u) (url_rest u).
(** [query.Encode()] of a query that was empty. *)
Definition telemetryQuery (cursor : string) (limit : Z) : string :=
  Join ((if cursor <>s "" then ["cursor=" +:+ QueryEscape cursor] else []) ++
        (if 0 <? limit then ["limit=" +:+ Itoa limit] else [])) "&".

Definition Client_Telemetry (n : nat) (c : NodeClient) (server : ServerRecord) (cursor : string) (limit : Z)
    : list nodeRequest * telemetryAnswer :=
  match joinURL (server_Endpoint server) "/api/v1/telemetry" (client_AllowInsecureNodes c) with
  | inl err => ([], TError err)
  | inr endpoint =>
  match url_Parse endpoint with
  | inl err => ([], TError err)
  | inr parsed =>
      let url := URLString (url_set_RawQuery (telemetryQuery cursor limit) parsed) in
      match NewRequest "GET" url with
      | Some err => ([], TError err)
      | None =>
          let req := mkNodeRequest "GET" url ("Bearer " +:+ server_RootKey server) false ""
                       (server_TLSSkipVerify server) (timeout c) in
          ([req],
           match Do n req with
           | inl err => TError err
           | inr resp =>
               match readLimitedNodeBody resp (successLimit c) with
               | inl err => TError err
               | inr data =>
                   if in_StatusCode resp =? StatusGone then
                     match UnmarshalGap data with inl err => TError err | inr gap => TGap gap end
                   else if (in_StatusCode resp <? 200) || (300 <=? in_StatusCode resp) then
                     let text := UnmarshalErrorText data in
                     TError (Errorf "node %s: %s" [AStr (server_Name server);
                               AStr (if text =s "" then in_Status resp else text)])
                   else match validateGenericNodeJSON (JSONTokens data) with
                        | Some err => TError err
                        | None => match UnmarshalPage data with inl err => TError err | inr page => TPage page end
                        end
               end
           end)
      end
  end end.
End client.

(** * The collector *)

Definition historyPollInterval : duration := 2 * Second.

Definition historyPages : nat := 32.

Record historySyncState : Type := mkSyncState { sync_failures : Z; sync_nextTry : time }.
Definition historySyncState_zero : historySyncState := mkSyncState 0 0.

(** The fields of [Server] that the collector changes.  [c_asked] is a history variable:
    the requests for pages with their numbers, by node and cursor, oldest first. *)
Record Collector : Type := mkCollector
  { c_journal : Journal; c_sync : gmap string historySyncState; c_turn : nat;
    c_asked : list (nat * (ServerRecord * string)) }.

(** [TelemetryNodeAPI], by the numbers of the questions. *)
Class TelemetryAPI : Type := {
  Telemetry : nat -> ServerRecord -> string -> Z -> telemetryAnswer
}.

Section collector.
Context `{Database} `{HistoryJSON} `{History} `{NodeAPI} `{TelemetryAPI}.

Definition onJournal {A} (m : M Journal A) : M Collector A := fun c =>
  let '(r, j) := m (c_journal c) in (r, mkCollector j (c_sync c) (c_turn c) (c_asked c)).
Definition askInfo (record : ServerRecord) : M Collector Info := fun c =>
  (NodeInfo (c_turn c) record, mkCollector (c_journal c) (c_sync c) (S (c_turn c)) (c_asked c)).
Definition askTelemetry (record : ServerRecord) (cursor : string) : M Collector telemetryAnswer := fun c =>
  (inr (Telemetry (c_turn c) record cursor MaxPageLimit),
   mkCollector (c_journal c) (c_sync c) (S (c_turn c)) (c_asked c ++ [(c_turn c, (record, cursor))])).

Fixpoint collectPages (pages : nat) (record : ServerRecord) (nodeID : string) (knownOwners : list string)
    (cursor : string) : M Collector unit :=
  match pages with
  | O => ret tt
  | S pages =>
      answer ← askTelemetry record cursor;
      match answer with
      | TError err => throw err
      | TGap gap =>
          onJournal (MarkGap (server_ID record) (CursorGap_Reason gap)) ;;
          collectPages pages record nodeID knownOwners (CursorGap_ResumeCursor gap)
      | TPage page =>
          if (Page_NodeID page <>s nodeID) || (Page_StreamID page =s "") then
            try (onJournal (MarkGap (server_ID record) "node identity changed")) ;;
            throw (ErrorString "telemetry node identity changed")
          else
            onJournal (ApplyPageWithOwners (server_ID record) (server_Name record) page knownOwners) ;;
            if negb (Page_HasMore page) then ret tt
            else collectPages pages record nodeID knownOwners (Page_NextCursor page)
      end
  end.

Definition collectNodeHistory (record : ServerRecord) (knownOwners : list string) : M Collector unit :=
  r ← try (askInfo record);
  match r with
  | inl err => throw (Errorf "node info: %w" [AErr err])
  | inr info =>
      if Info_NodeID info =s "" then throw (ErrorString "node info is missing node_id")
      else if (Info_TelemetrySchema info <? 1) || negb (telemetryCapability info "telemetry_v1")
      then throw (ErrorString "node does not support telemetry history")
      else
        cursor ← onJournal (SyncCursor (server_ID record));
        collectPages historyPages record (Info_NodeID info) knownOwners cursor
  end.

Definition syncStateOf (sync : gmap string historySyncState) (id : string) : historySyncState :=
  default historySyncState_zero (sync !! id).
Definition historyNodeReady (id : string) (now : time) : M Collector bool :=
  c ← get; ret (negb (Before now (sync_nextTry (syncStateOf (c_sync c) id)))).
(** When a node is tried again after its [failures]-th failure in a row. *)
Definition nextHistoryTry (id : string) (failures : Z) (now : time) : time :=
  let delay := historyPollInterval * Z.shiftl 1 (Z.min (failures - 1) 5) in
  let delay := if Minute <? delay then Minute else delay in
  let jitter := (Z.rem (slen id * 37 + failures * 53) 501 - 250) * Millisecond in
  TimeAdd now (delay + jitter).
Definition recordHistoryAttempt (id : string) (err : option error) (now : time) : M Collector unit :=
  modify (fun c =>
    let state := match err with
      | None => historySyncState_zero
      | Some _ => let failures := sync_failures (syncStateOf (c_sync c) id) + 1 in
                  mkSyncState failures (nextHistoryTry id failures now)
      end in
    mkCollector (c_journal c) (<[id:=state]> (c_sync c)) (c_turn c) (c_asked c)).

Fixpoint collectRecords (records : list ServerRecord) (owners : list string) : M Collector unit :=
  match records with
  | [] => ret tt
  | record :: rest =>
      now ← onJournal dbNow;
      ready ← historyNodeReady (server_ID record) now;
      (if negb ready then ret tt
       else
         r ← try (collectNodeHistory record owners);
         now ← onJournal dbNow;
         recordHistoryAttempt (server_ID record) (match r with inl err => Some err | inr _ => None end) now) ;;
      collectRecords rest owners
  end.
(** A round, on what the registry and the store of users list. *)
Definition collectHistory (listed : error + list ServerRecord) (users : error + list PublicUser)
    : M Collector unit :=
  if negb historyOn then ret tt
  else if negb telemetryClient then ret tt
  else match listed with
       | inl _ => ret tt
       | inr records =>
           let owners := match users with
             | inr users => map (fun user => ToLower (TrimSpace (public_Username user))) users
             | inl _ => []
             end in
           collectRecords records owners
       end.
(** The rounds, one at the start and one at each tick until the context ends. *)
Fixpoint runHistoryCollector (rounds : list ((error + list ServerRecord) * (error + list PublicUser)))
    : M Collector unit :=
  match rounds with
  | [] => ret tt
  | (listed, users) :: rest => collectHistory listed users ;; runHistoryCollector rest
  end.
End collector.

(** [NodeClient] implements it. *)
Definition NodeClient_TelemetryAPI `{NetURL} `{Transport} `{NodeCodec} `{TelemetryCodec} (c : NodeClient)
    : TelemetryAPI :=
  {| Telemetry n server cursor limit := snd (Client_Telemetry n c server cursor limit) |}.

(** * Properties of the routes *)

Section routes.
Context `{WebJSON} `{CursorJSON} `{SearchJSON} `{Database} `{HistoryJSON} `{History}
  `{UsersJSON} `{AEAD} `{Elsewhere}.

Lemma orRefuse_calls {A} status (m : M Journal A) next j : newCalls (orRefuse status m next) j = newCalls m j.
Proof.
  unfold newCalls, orRefuse, final, try, mbind, M_bind, bind. by destruct (m j) as [[err|a] j'].
Qed.
Lemma ret_calls {A} (a : A) j : newCalls (ret a : M Journal A) j = [].
Proof. unfold newCalls, final. cbn. by rewrite drop_all. Qed.
Lemma silent_effects {A} (m : M Journal A) j : Calls silent m -> effects None (newCalls m j) = [].
Proof. intros C. apply effects_silent; [exact (traced_calls _ _ j C)|by left]. Qed.
Lemma reads_silent A (m : M Journal A) j : reads A m -> effects None (newCalls m j) = [].
Proof. intros R. apply silent_effects, question_silent. by apply reads_calls. Qed.

(** The calls of a request that puts a result over HTTP: the database was asked for the
    owner of the session that the path names, its answer to that very question was a row
    with the user's name and leave to edit, and what takes effect is the result of the
    request for this session. *)
Definition putWrites (session : sessionInfo) (r : historyRequest) (j : Journal)
    (calls : list (nat * sqlCall)) : Prop :=
  exists id owner request,
    q_Method (hr_Request r) = "PUT" /\
    Split (TrimOf isSlash (TrimPrefix (q_Path (hr_Request r)) "/api/history/sessions/")) "/"%char = [id; "result"] /\
    decodeJSONBody DecodeResultRequest (hr_Request r) = inr request /\
    let outcome := TrimSpace (resultRequest_Outcome request) in
    let note := TrimSpace (resultRequest_Note request) in
    ValidateResult outcome note (resultRequest_Artifacts request) = None /\
    (S (j_turn j), Queried ownerQuery [VText id]) ∈ calls /\ ownerAt (S (j_turn j)) owner true /\
    EqualFold (TrimSpace owner) (TrimSpace (session_User session)) = true /\
    execOf (3 + j_turn j) = inr 1 /\
    effects None calls = resultRows id outcome note (resultRequest_Artifacts request) (resultRequest_Version request)
               (clockAt (2 + j_turn j)).

Lemma route_writes path route session r j : historyRoute path = Some route ->
  effects None (newCalls (route session r) j) = [] \/
  putWrites session r j (newCalls (route session r) j).
Proof.
  unfold historyRoute. intros E.
  destruct (path =s "/api/history/summary").
  { injection E as <-. left. unfold handleHistorySummary, withFilter.
    destruct (negb _); [by rewrite ret_calls|]. destruct (negb _); [by rewrite ret_calls|].
    destruct (parseHistoryFilter r); [by rewrite ret_calls|]. rewrite orRefuse_calls. apply reads_silent. constructor. }
  destruct (path =s "/api/history/search").
  { injection E as <-. left. unfold handleHistorySearch.
    destruct (negb _); [by rewrite ret_calls|]. destruct (negb _); [by rewrite ret_calls|].
    destruct (decodeJSONBody _ _); [by rewrite ret_calls|]. cbv zeta. destruct (_ || _); [by rewrite ret_calls|].
    destruct (decodeHistorySearchCursor _); [|by rewrite ret_calls]. rewrite orRefuse_calls.
    apply silent_effects, Search_silent. }
  destruct (path =s "/api/history/sessions").
  { injection E as <-. left. unfold handleHistorySessions, withFilter.
    destruct (negb _); [by rewrite ret_calls|]. destruct (negb _); [by rewrite ret_calls|].
    destruct (parseHistoryFilter r); [by rewrite ret_calls|]. rewrite orRefuse_calls. apply reads_silent. constructor. }
  destruct (HasPrefix path _); [|done]. injection E as <-.
  unfold handleHistorySessionAction. cbv zeta. destruct (negb historyOn); [left; by rewrite ret_calls|].
  destruct (Split _ _) as [|id [|action [|]]] eqn:P; try (left; by rewrite ret_calls).
  - left. destruct (id =s ""); [by rewrite ret_calls|]. destruct (_ =s "GET"); [|by rewrite ret_calls].
    unfold getHistorySession. rewrite orRefuse_calls. apply reads_silent. constructor.
  - destruct (id =s ""); [left; by rewrite ret_calls|].
    destruct ((action =s "jobs") && _).
    { left. unfold listHistoryJobs. destruct (decodeHistoryCursor _); [|by rewrite ret_calls].
      rewrite orRefuse_calls. apply reads_silent. constructor. }
    destruct ((action =s "result") && _) eqn:Ac; [|left; by rewrite ret_calls].
    apply andb_true_iff in Ac as [Ea%String.eqb_eq Em%String.eqb_eq]. subst action.
    unfold putHistoryResult. destruct (decodeJSONBody _ _) as [err|request] eqn:D; [left; by rewrite ret_calls|].
    cbv zeta. destruct (ValidateResult _ _ _) eqn:V; [left; by rewrite ret_calls|]. unfold putWrites. rewrite orRefuse_calls.
    match goal with |- context [PutResult ?id ?user ?o ?n ?a ?v] => destruct (PutResult_writes id user o n a v j) as [W|W] end; [by left|right].
    destruct W as (owner & Ow & Asked & Fold & Ex & Eff). exists id, owner, request.
    repeat (split; [done|]). split; [by apply list_elem_of_In|]. repeat (split; [done|]). exact Eff.
Qed.

(** The calls of a request. *)
Definition servedCalls (sessionKey : list Z) (r : historyRequest) (s : Served) : list (nat * sqlCall) :=
  drop (length (j_log (snd s))) (j_log (snd (final (serveHistory sessionKey r) s))).

(** C34. No request about the history changes it, but for one: a result that is put takes
    effect only for a session that was admitted, of the user whom the database answers as
    the owner, with leave to edit, when it is asked for the owner of the session that the
    path names, on a request that is no other origin's, and only after its outcome, note and
    artifacts were checked; what takes effect is that result for that session, at the version
    the request names, and nothing else. *)
Theorem history_requests_write_own_results sessionKey r s :
  effects None (servedCalls sessionKey r s) = [] \/
  exists session, result (sessionUser sessionKey (hr_Request r)) (fst s) = inr (Some session) /\
    sameOriginRequest (hr_Request r) = true /\
    putWrites session r (snd s) (servedCalls sessionKey r s).
Proof.
  destruct s as [g j]. unfold servedCalls. cbn [fst snd].
  assert (effects None (drop (length (j_log j)) (j_log j)) = []) as Nil by (by rewrite drop_all).
  unfold serveHistory. cbv zeta. destruct (historyRoute _) as [next|] eqn:R; [|by left].
  destruct (requestChangesState _ && negb (sameOriginRequest _)) eqn:So; [by left|].
  destruct (_ && negb (requestHasJSONContentType _)); [by left|].
  unfold withHistorySession, final, onServer, onHistory, mbind, M_bind, bind. cbn [fst snd].
  unfold result. destruct (sessionUser sessionKey (hr_Request r) g) as [[err|[session|]] g1]; cbn [fst snd]; [by left| |by left].
  destruct (elsewhere g1) as [[err|u] g2]; cbn [fst snd]; [by left|].
  destruct (acquireAuthenticatedRequest session g2) as [[err|ok] g3]; cbn [fst snd]; [by left|].
  destruct ok; cbn [negb]; [|by left].
  pose proof (route_writes _ _ session r j R) as W. revert W. unfold newCalls, final, ret. cbn [fst snd].
  destruct (next session r j) as [reply j1]. cbn [fst snd].
  intros W.
  match goal with |- effects None (drop _ (j_log (snd (snd ?x)))) = [] \/ _ => assert (snd (snd x) = j1) as -> end.
  { destruct reply as [err|reply]; cbn [fst snd]; [done|]. destruct (elsewhere g3) as [[err'|u'] g4]; cbn [fst snd]; [done|].
    by destruct (releaseAuthenticatedRequest session g4) as [[err''|u''] g5]. }
  destruct W as [W|W]; [by left|right]. exists session. split; [done|]. split; [|exact W].
  destruct W as (id & owner & request & Em & _). rewrite Em in So. cbn in So. by destruct (sameOriginRequest _).
Qed.
End routes.

(** * Properties of the collector *)

Section collecting.
Context `{Database} `{HistoryJSON} `{SearchJSON} `{History} `{NodeAPI} `{TelemetryAPI}.

(** Calls are made, and nothing more is said. *)
Lemma any_calls {A} (P : sqlCall -> Prop) (m : M Journal A) : Calls P m -> Calls (fun _ => True) m.
Proof. intros C. eapply Calls_weaken; [exact C|done]. Qed.

(** What a method of the history leaves: no open transaction, and calls in [Q] whose
    statements all took effect if it answers, no effect if not. *)
Definition writesIn {A} (Q : list (nat * sqlCall) -> Prop) (m : M Journal A) : Prop := forall j,
  exists cs, j_log (final m j) = j_log j ++ cs /\ settled cs /\
    match result m j with
    | inr _ => effects None cs = executed cs /\ Q cs
    | inl _ => effects None cs = []
    end.

Lemma writesIn_and {A} (Q : list (nat * sqlCall) -> Prop) (m : M Journal A) :
  atomically done_ m -> traced m (fun cs _ => settled cs) -> leaves Q m -> writesIn Q m.
Proof.
  intros At St T j. destruct (St j) as (cs & E & S), (At j) as (cs' & E' & _ & W), (T j) as (cs'' & E'' & V).
  rewrite E in E', E''. apply app_inv_head in E' as <-, E'' as <-. exists cs. split; [exact E|]. split; [exact S|].
  destruct W as [[W [err ->]]|[W (post & _ & [a R])]]; [done|]. rewrite R in *. split; [done|by apply (V a)].
Qed.
Lemma now_settled {A} (k : time -> M Journal A) : (forall t, traced (k t) (fun cs _ => settled cs)) ->
  traced (dbNow ≫= k) (fun cs _ => settled cs).
Proof. intros W j. exact (W (clockAt (j_turn j)) (mkJournal (S (j_turn j)) (j_log j))). Qed.
Lemma now_traced {A} (k : time -> M Journal A) Q : (forall t, traced (k t) Q) -> traced (dbNow ≫= k) Q.
Proof. intros W j. exact (W (clockAt (j_turn j)) (mkJournal (S (j_turn j)) (j_log j))). Qed.

Ltac anyCalls := repeat first
  [apply Calls_bind; [first [apply Calls_run; done|apply Calls_now|apply Calls_queryRowOpt; done|
     by eapply any_calls, applyEvents_calls]|intros ?]
  |by apply Calls_commit].

Lemma MarkGap_settled serverID reason : traced (MarkGap serverID reason) (fun cs _ => settled cs).
Proof.
  apply now_settled. intros t. cbv zeta. eapply inTx_settled. match goal with |- traced ?m _ =>
    enough (Calls (fun _ => True) m) as C; [exact C|] end. anyCalls.
Qed.
Lemma ApplyPage_settled serverID serverName page owners :
  traced (ApplyPageWithOwners serverID serverName page owners) (fun cs _ => settled cs).
Proof.
  unfold ApplyPageWithOwners. destruct (_ || _).
  { intros j. exists []. rewrite app_nil_r. split; [done|]. by apply questions_settled. }
  eapply inTx_settled. match goal with |- traced ?m _ =>
    enough (Calls (fun _ => True) m) as C; [exact C|] end. anyCalls.
Qed.

Lemma MarkGap_writes serverID reason :
  writesIn (fun cs => recordedGap serverID reason (executed cs)) (MarkGap serverID reason).
Proof.
  assert (Calls (fun c => match c with Executed sql _ => sql <> saveCursor | _ => True end) (MarkGap serverID reason)) as Ca.
  { apply Calls_bind; [apply Calls_now|]. intros t. cbv zeta. apply Calls_inTx; [done|done|].
    apply Calls_bind; [by apply Calls_queryRowOpt|]. intros last. cbv zeta.
    apply Calls_bind; [by apply Calls_run|]. intros _. apply Calls_bind; [by apply Calls_run|]. intros _.
    by apply Calls_commit. }
  apply writesIn_and; [apply MarkGap_atomically|apply MarkGap_settled|].
  pose (Q := fun l : list (string * list sqlValue) => exists now, In (recordGap, [VInt now; VText reason; VText serverID]) l).
  assert (traced (MarkGap serverID reason) (fun cs r => forall a, r = inr a -> Q (executed cs))) as T.
  { apply now_traced. intros t. cbv zeta. apply (traced_inTx _ Q).
    apply (traced_after _ _ Q); [|by apply Calls_queryRowOpt|].
    { subst Q. intros l l' [now I]. exists now. apply in_or_app. by right. }
    intros last. cbv zeta. apply (run_first _ _ _ Q); [vm_compute; reflexivity| |anyCalls]. intros l. eexists. by left. }
  intros j. destruct (T j) as (cs & E & W), (Ca j) as (cs' & E' & F). exists cs. split; [exact E|].
  intros a R. split; [by apply (W a)|]. rewrite E in E'. apply app_inv_head in E' as <-.
  clear -F. induction F as [|[n c] cs F _ IH]; [constructor|]. destruct c; try exact IH. by constructor.
Qed.

(** A page: its events, in order, and where it left the stream, took effect at once. *)
Definition tookPage (serverID : string) (page : Page) (cs : list (nat * sqlCall)) : Prop :=
  tookEvents page cs /\ savedCursor serverID page (executed cs).

Lemma ApplyPage_writes serverID serverName page owners :
  writesIn (tookPage serverID page) (ApplyPageWithOwners serverID serverName page owners).
Proof.
  apply writesIn_and; [apply ApplyPage_atomically|apply ApplyPage_settled|].
  apply leaves_and; [apply ApplyPage_took|].
  unfold ApplyPageWithOwners. destruct (_ || _); [intros j; exists []; by rewrite app_nil_r|].
  apply (traced_inTx _ (savedCursor serverID page)).
  assert (forall l l', savedCursor serverID page l' -> savedCursor serverID page (l ++ l')) as Mo.
  { intros l l' (z & now & I). exists z, now. apply in_or_app. by right. }
  apply (traced_after _ _ (savedCursor serverID page)); [exact Mo|apply Calls_now|]. intros t. cbv zeta.
  apply (traced_after _ _ (savedCursor serverID page)); [exact Mo|by apply Calls_run|]. intros _.
  apply (traced_after _ _ (savedCursor serverID page)); [exact Mo|by eapply any_calls, applyEvents_calls|]. intros _.
  apply (run_first _ _ _ (savedCursor serverID page)); [vm_compute; reflexivity| |anyCalls]. intros l. do 2 eexists. by left.
Qed.
End collecting.

(** ** A node *)

Section node.
Context `{Database} `{HistoryJSON} `{SearchJSON} `{History} `{NodeAPI} `{TelemetryAPI}.

Definition asking : Type := (nat * (ServerRecord * string))%type.
Definition writing : Type := list (nat * sqlCall).

(** The requests that [m] makes, and what it says to the database. *)
Definition gathers {A} (m : M Collector A) (Q : list asking -> writing -> error + A -> Prop) : Prop := forall c,
  exists asked cs, c_asked (final m c) = c_asked c ++ asked /\
    j_log (c_journal (final m c)) = j_log (c_journal c) ++ cs /\
    settled cs /\ Q asked cs (result m c).

Lemma settled_nil : settled [].
Proof. by intros rest. Qed.
Lemma settled_app cs cs' : settled cs -> settled cs' -> settled (cs ++ cs').
Proof. intros S S' rest. by rewrite <- app_assoc, !S, S', app_assoc. Qed.

Lemma gathers_weaken {A} (m : M Collector A) (Q Q' : _ -> _ -> _ -> Prop) :
  gathers m Q -> (forall a w r, Q a w r -> Q' a w r) -> gathers m Q'.
Proof. intros G W c. destruct (G c) as (a & cs & Ea & El & S & Qc). exists a, cs. auto. Qed.
Lemma gathers_result {A} (r : error + A) (Q : _ -> _ -> _ -> Prop) : Q [] [] r -> gathers (fromResult r) Q.
Proof.
  intros W c. exists [], []. rewrite !app_nil_r. split; [by destruct r|]. split; [by destruct r|].
  split; [apply settled_nil|by destruct r].
Qed.
Lemma gathers_bind {A B} (m : M Collector A) (k : A -> M Collector B) (R Q : _ -> _ -> _ -> Prop) :
  gathers m R -> (forall e a w, R a w (inl e) -> Q a w (inl e)) ->
  (forall x a w, R a w (inr x) -> gathers (k x) (fun a' w' r => Q (a ++ a') (w ++ w') r)) ->
  gathers (m ≫= k) Q.
Proof.
  intros G He Hk c. destruct (G c) as (a & cs & Ea & El & S & Rc).
  unfold final, result, mbind, M_bind, bind in *. destruct (m c) as [[e|x] c1]; cbn [fst snd] in *.
  { exists a, cs. auto. }
  destruct (Hk x _ _ Rc c1) as (a' & cs' & Ea' & El' & S' & Qc). unfold final, result in *.
  exists (a ++ a'), (cs ++ cs'). rewrite Ea', Ea, El', El, <- !app_assoc.
  split; [done|]. split; [done|]. split; [by apply settled_app|done].
Qed.
Lemma gathers_try {A} (m : M Collector A) (Q : _ -> _ -> _ -> Prop) :
  gathers m (fun a w r => Q a w (inr r)) -> gathers (try m) Q.
Proof.
  intros G c. destruct (G c) as (a & cs & Ea & El & S & Qc). exists a, cs.
  unfold final, result, try in *. by destruct (m c).
Qed.
Lemma gathers_writes {A} Q (m : M Journal A) : writesIn Q m -> gathers (onJournal m) (fun a w r =>
  a = [] /\ match r with inr _ => effects None w = executed w /\ Q w | inl _ => effects None w = [] end).
Proof.
  intros W c. destruct (W (c_journal c)) as (cs & E & S & Qc). exists [], cs. rewrite app_nil_r.
  unfold final, result, onJournal in *. destruct (m (c_journal c)) as [r j]. cbn [fst snd c_asked c_journal] in *. auto.
Qed.
Lemma gathers_telemetry record cursor : gathers (askTelemetry record cursor) (fun a w r =>
  exists n, a = [(n, (record, cursor))] /\ w = [] /\ r = inr (Telemetry n record cursor MaxPageLimit)).
Proof.
  intros c. exists [(c_turn c, (record, cursor))], []. rewrite app_nil_r. split; [done|]. split; [done|].
  split; [apply settled_nil|]. by exists (c_turn c).
Qed.

(** How the stream of a node is carried over from a cursor with so many requests left: the
    requests, the calls of the database for each answer, of which all statements take
    effect, or none, and what the collector answers in the end. *)
Inductive carried (record : ServerRecord) (nodeID : string) :
    nat -> string -> list asking -> writing -> error + unit -> Prop :=
  | carried_enough cursor : carried record nodeID 0 cursor [] [] (inr tt)
  | carried_error pages n cursor err : Telemetry n record cursor MaxPageLimit = TError err ->
      carried record nodeID (S pages) cursor [(n, (record, cursor))] [] (inl err)
  | carried_failed pages n cursor w err :     (* writing failed, and nothing took effect *)
      effects None w = [] -> carried record nodeID (S pages) cursor [(n, (record, cursor))] w (inl err)
  | carried_alien pages n cursor page w err : Telemetry n record cursor MaxPageLimit = TPage page ->
      Page_NodeID page <> nodeID \/ Page_StreamID page = "" ->
      effects None w = executed w -> recordedGap (server_ID record) "node identity changed" (executed w) ->
      carried record nodeID (S pages) cursor [(n, (record, cursor))] w (inl err)
  | carried_gap pages n cursor gap w asked w' r : Telemetry n record cursor MaxPageLimit = TGap gap ->
      effects None w = executed w -> recordedGap (server_ID record) (CursorGap_Reason gap) (executed w) ->
      carried record nodeID pages (CursorGap_ResumeCursor gap) asked w' r ->
      carried record nodeID (S pages) cursor ((n, (record, cursor)) :: asked) (w ++ w') r
  | carried_last pages n cursor page w : Telemetry n record cursor MaxPageLimit = TPage page ->
      Page_NodeID page = nodeID -> Page_StreamID page <> "" ->
      effects None w = executed w -> tookPage (server_ID record) page w ->
      Page_HasMore page = false ->
      carried record nodeID (S pages) cursor [(n, (record, cursor))] w (inr tt)
  | carried_page pages n cursor page w asked w' r : Telemetry n record cursor MaxPageLimit = TPage page ->
      Page_NodeID page = nodeID -> Page_StreamID page <> "" ->
      effects None w = executed w -> tookPage (server_ID record) page w ->
      Page_HasMore page = true ->
      carried record nodeID pages (Page_NextCursor page) asked w' r ->
      carried record nodeID (S pages) cursor ((n, (record, cursor)) :: asked) (w ++ w') r.

Lemma collectPages_carried pages record nodeID owners : forall cursor,
  gathers (collectPages pages record nodeID owners cursor) (fun a w r =>
    carried record nodeID pages cursor a w r).
Proof.
  induction pages as [|pages IH]; intros cursor; cbn [collectPages].
  { apply (gathers_result (inr tt)). constructor. }
  eapply gathers_bind; [apply gathers_telemetry|by intros e a w (n & _ & _ & ?)|].
  intros answer a w (n & -> & -> & E). injection E as ->. cbn [app length].
  destruct (Telemetry n record cursor MaxPageLimit) as [page|gap|err] eqn:T.
  - destruct ((Page_NodeID page <>s nodeID) || (Page_StreamID page =s "")) eqn:Id.
    + apply (gathers_bind _ _ (fun a w r => a = [] /\ match r with
        inr (inr _) => effects None w = executed w /\
          recordedGap (server_ID record) "node identity changed" (executed w)
        | _ => effects None w = [] end)).
      { apply gathers_try. eapply gathers_weaken; [apply gathers_writes, MarkGap_writes|].
        intros a w r [-> W]. by destruct r. }
      { intros e a w [-> W]. by constructor. }
      intros r a w [-> W]. apply (gathers_result (inl _)). rewrite !app_nil_r.
      destruct r; [by constructor|]. destruct W as [We W]. eapply carried_alien; [exact T| |exact We|exact W].
      apply orb_true_iff in Id as [I|I]; [left; by apply negb_true_iff, String.eqb_neq in I|right; by apply String.eqb_eq].
    + apply orb_false_iff in Id as [I1%negb_false_iff%String.eqb_eq I2%String.eqb_neq].
      eapply gathers_bind; [apply gathers_writes, ApplyPage_writes| |].
      { intros e a w [-> W]. by constructor. }
      intros u a w [-> [We W]]. cbn [app]. destruct (Page_HasMore page) eqn:More; cbn [negb].
      * eapply gathers_weaken; [apply IH|]. intros a' w' r C'. cbn beta in C'.
        eapply carried_page; [exact T|exact I1|exact I2|exact We|exact W|exact More|exact C'].
      * apply (gathers_result (inr tt)). rewrite app_nil_r. by eapply carried_last.
  - eapply gathers_bind; [apply gathers_writes, MarkGap_writes| |].
    { intros e a w [-> W]. by constructor. }
    intros u a w [-> [We W]]. cbn [app]. eapply gathers_weaken; [apply IH|]. intros a' w' r C'. cbn beta in C'.
    eapply carried_gap; [exact T|exact We|exact W|exact C'].
  - apply (gathers_result (inl err)). by eapply carried_error.
Qed.

Lemma carried_length record nodeID pages cursor asked w r :
  carried record nodeID pages cursor asked w r -> (length asked <= pages)%nat.
Proof. induction 1; cbn; lia. Qed.

(** The cursor that the database answers when it is asked how far the stream of this
    server was read: the empty one when it knows none. *)
Definition keptCursor (serverID : string) (n : nat) (call : sqlCall) (cursor : string) : Prop :=
  call = Queried "SELECT cursor FROM node_sync_state WHERE server_id=?" [VText serverID] /\
  exists found, rowAt (scanOne scanText) n = inr found /\ cursor = default "" found.
Lemma SyncCursor_kept serverID : traced (SyncCursor serverID) (fun cs r => exists n call, cs = [(n, call)] /\
  match r with
  | inr cursor => keptCursor serverID n call cursor
  | inl err => rowAt (scanOne scanText) n = inl err
  end).
Proof.
  unfold SyncCursor. eapply traced_bind; [apply queryRowOpt_at| |].
  - intros e cs (n & -> & E). by exists n, (Queried "SELECT cursor FROM node_sync_state WHERE server_id=?" [VText serverID]).
  - intros found cs (n & -> & E). intros j. exists []. rewrite !app_nil_r. split; [done|].
    eexists n, _. split; [done|]. split; [done|]. by exists found.
Qed.

(** A node without telemetry, or none that answers. *)
Definition withoutTelemetry (answer : error + Info) : Prop :=
  match answer with
  | inl _ => True
  | inr info => Info_NodeID info = "" \/ Info_TelemetrySchema info < 1 \/
      ~ In "telemetry_v1" (Info_Capabilities info)
  end.
Lemma capability_in info capability : telemetryCapability info capability = true <->
  In capability (Info_Capabilities info).
Proof.
  unfold telemetryCapability. rewrite existsb_exists. split.
  - by intros (x & I & ->%String.eqb_eq).
  - intros I. exists capability. by rewrite String.eqb_refl.
Qed.

End node.

(** ** Waiting after a failure, and cursors *)

Section waiting.
Context `{Database} `{HistoryJSON} `{History} `{NodeAPI} `{TelemetryAPI}.

Lemma nextHistoryTry_bounds id failures now : 1 <= failures ->
  now + 1750 * Millisecond <= nextHistoryTry id failures now <= now + 60250 * Millisecond.
Proof.
  intros F. unfold nextHistoryTry, TimeAdd, historyPollInterval.
  assert (0 <= slen id * 37 + failures * 53) as P by (pose proof (slen_nonneg id); lia).
  rewrite Z.rem_mod_nonneg by lia. pose proof (Z.mod_pos_bound (slen id * 37 + failures * 53) 501 ltac:(lia)) as J.
  rewrite Z.shiftl_mul_pow2 by lia. assert (1 <= 1 * 2 ^ Z.min (failures - 1) 5) as D.
  { rewrite Z.mul_1_l. pose proof (Z.pow_pos_nonneg 2 (Z.min (failures - 1) 5) ltac:(lia) ltac:(lia)). lia. }
  revert J D. generalize ((slen id * 37 + failures * 53) mod 501), (1 * 2 ^ Z.min (failures - 1) 5). intros m p J D.
  unfold Minute, Second, Millisecond, Microsecond. cbv zeta. destruct (_ <? _) eqn:L; lia.
Qed.

(** A node that failed is left alone for at least 1.75 s and at most 60.25 s, however
    often it has failed before; one that answered is ready again.  No other node's state
    is touched. *)
Theorem collector_backs_off id err now c : 0 <= sync_failures (syncStateOf (c_sync c) id) ->
  let after := final (recordHistoryAttempt id err now) c in
  (forall other, other <> id -> syncStateOf (c_sync after) other = syncStateOf (c_sync c) other) /\
  c_journal after = c_journal c /\ c_asked after = c_asked c /\
  0 <= sync_failures (syncStateOf (c_sync after) id) /\
  forall t, 0 <= t -> match err with
    | None => result (historyNodeReady id t) after = inr true
    | Some _ => (t < now + 1750 * Millisecond -> result (historyNodeReady id t) after = inr false) /\
                (now + 60250 * Millisecond <= t -> result (historyNodeReady id t) after = inr true)
    end.
Proof.
  intros F after. subst after. unfold syncStateOf. cbn [recordHistoryAttempt final modify snd c_sync c_journal c_asked].
  rewrite lookup_insert_eq. split; [intros other N; by rewrite lookup_insert_ne|].
  split; [done|]. split; [done|]. split; [destruct err; [change (0 <= sync_failures (syncStateOf (c_sync c) id) + 1); lia|done]|]. intros t Pt.
  assert (forall s, result (historyNodeReady id t) (mkCollector (c_journal c) (<[id:=s]> (c_sync c)) (c_turn c) (c_asked c)) =
    inr (negb (t <? sync_nextTry s))) as R.
  { intros s. unfold result, historyNodeReady, get, mbind, M_bind, bind, ret, syncStateOf, Before. cbn [fst c_sync].
    by rewrite lookup_insert_eq. }
  destruct err; rewrite R; cbn [sync_nextTry].
  - pose proof (nextHistoryTry_bounds id (sync_failures (syncStateOf (c_sync c) id) + 1) now ltac:(lia)) as B.
    split; intros L; f_equal; [apply negb_false_iff|apply negb_true_iff]; lia.
  - f_equal. apply negb_true_iff. unfold historySyncState_zero. cbn [sync_nextTry]. lia.
Qed.
End waiting.

(** A page of the history goes on where the one before ended: a cursor that was given
    out, if the text of its JSON has at most 383 bytes and is read back as it was, is read
    as the time and the identifier it was made from. *)
Theorem history_cursor_round_trip `{CursorJSON} at_ id :
  UnmarshalPageCursor (MarshalPageCursor (mkPageCursor at_ id)) = inr (mkPageCursor at_ id) ->
  0 < slen (MarshalPageCursor (mkPageCursor at_ id)) <= 383 ->
  0 < at_ -> id <> "" -> slen id <= 256 ->
  decodeHistoryCursor (encodeHistoryCursor at_ id) = Some (mkPageCursor at_ id).
Proof.
  intros Rt L A I Li. unfold decodeHistoryCursor, encodeHistoryCursor. set (text := MarshalPageCursor _) in *.
  pose proof (slen_EncodeToString RawURLEncoding text) as Le. pose proof (DecodeString_Encode RawURLEncoding text) as D.
  destruct (EncodeToString RawURLEncoding text =s "") eqn:E.
  { apply String.eqb_eq in E. rewrite E in D. vm_compute (DecodeString _ _) in D. injection D as D. rewrite <- D in L. change (slen "") with 0 in L. lia. }
  destruct (512 <? _) eqn:Big; [lia|]. rewrite D, Rt. cbn [cursor_At cursor_ID].
  destruct (at_ <=? 0) eqn:E1; [lia|]. destruct (id =s "") eqn:E2; [by apply String.eqb_eq in E2|].
  by destruct (256 <? slen id) eqn:E3; [lia|].
Qed.

(** ** What a node is told *)

(** The request for telemetry goes where every other request to the node goes, as
    [root_keys_stay_confined] states it for those, with its query behind the path. *)
Lemma telemetry_stays_confined `{NetURL} `{Transport} `{NodeCodec} `{TelemetryCodec} n c server cursor limit :
  let sent := fst (Client_Telemetry n c server cursor limit) in
  sent = [] \/ exists req u p, sent = [req] /\ parseNodeEndpoint (server_Endpoint server) = inr u /\
    (url_Scheme u = "https" \/ url_Scheme u = "http" /\ client_AllowInsecureNodes c = true) /\
    url_Parse (URLString (url_set_Path (PathJoin (url_Path u) "/api/v1/telemetry") u)) = inr p /\
    out_URL req = URLString (url_set_RawQuery (telemetryQuery cursor limit) p) /\
    out_Authorization req = "Bearer " +:+ server_RootKey server /\
    out_SkipVerify req = server_TLSSkipVerify server /\ 0 < out_Timeout req.
Proof.
  unfold Client_Telemetry, joinURL. destruct (parseNodeEndpoint _) as [e|u] eqn:P; [by left|].
  destruct (_ && _) eqn:S; [by left|]. destruct (url_Parse _) as [e|p] eqn:R; [by left|].
  destruct (NewRequest _ _); [by left|]. right. eexists _, u, p. split; [done|]. split; [done|].
  destruct (parseNodeEndpoint_inv _ _ P) as ([E|E] & _); rewrite E in S; cbn in S; try (apply negb_false_iff in S).
  all: split_and?; auto; apply timeout_positive.
Qed.

(** * Example *)

(** A node with telemetry that says first that events are gone, then that there is one. *)
Definition sampleNode : NodeAPI := let unasked {A} : error + A := inl errColumns in {|
  managedClient := false; telemetryClient := true;
  Health n r s := unasked; Snapshot n r := unasked;
  NodeInfo n r := inr (mkInfo "node-1" "boot-1" "stream-1" 1 ["telemetry_v1"]);
  CreateReservation n r a := unasked; ShowKeys n r k := unasked; Allow n r a := unasked;
  NodeRevoke n r a := unasked; SyncNode n r s := unasked
|}.
Definition sampleTelemetry : TelemetryAPI := {|
  Telemetry n r cursor limit :=
    if cursor =s "" then TGap (mkCursorGap "cursor_gap" "retention" "stream-1" "cursor-6" 7 7 0)
    else TPage samplePage
|}.
Definition sampleGateway : History := {| historyOn := true; PrepareSession n := None |}.
Definition sampleRecord : ServerRecord := mkServerRecord "gpu-1" "GPU 1" "https://gpu-1" "key" false 0 0.

Example collects_past_a_gap :
  let listed := inr [sampleRecord] in
  let c := final (@collectHistory sampleDatabase sampleHistoryJSON sampleGateway sampleNode sampleTelemetry
                    listed (inr [])) (mkCollector (sampleJournal 0) gmap_empty 0 []) in
  (c_asked c, length (@effects sampleDatabase None (j_log (c_journal c))), sync_failures (syncStateOf (c_sync c) "gpu-1")) =
  ([(1%nat, (sampleRecord, "")); (2%nat, (sampleRecord, "cursor-6"))], 9%nat, 0).
Proof. vm_compute. reflexivity. Qed.
