(* ===== verification/NvidiaSMI.v ===== *)
(** internal/nvidiasmi/nvidiasmi.go: what nvidia-smi prints, read into the processes,
    the metrics and the devices of the daemon; the records of internal/gpusmi.

    Running the tool is a numbered question.  encoding/csv is written out for the
    reader's settings here: commas, no comments, strict quotes, any number of fields.
    strconv.ParseFloat is a parameter, and so is the conversion to [uint64] of a float
    that is too large for one, which Go leaves to the machine. *)

From Stdlib Require Import Ascii.
From S2P Require Export Model GoConv GoTime.
From S2P Require Import StringFacts.
#[global] Open Scope Z_scope.

(** * encoding/csv *)

Definition newlineChar : ascii := "010"%char.
Definition returnChar : ascii := "013"%char.
Definition commaChar : ascii := ","%char.
Definition quoteChar : ascii := "034"%char.

(** The reader's lines: a line ends in a line feed, also where it ended in a carriage
    return and one, and the last one is without a carriage return at the end. *)
Fixpoint csvText (s : string) : string :=
  match s with
  | EmptyString => EmptyString
  | String a rest =>
      if Ascii.eqb a returnChar then
        match rest with
        | EmptyString => EmptyString
        | String b _ => if Ascii.eqb b newlineChar then csvText rest else String a (csvText rest)
        end
      else String a (csvText rest)
  end.

Inductive csvState : Type := AtRecord | AtField | Unquoted | Quoted | AfterQuote.
Definition ErrBareQuote : string := "bare quote in non-quoted field".
Definition ErrQuote : string := "extraneous or missing quote in field".

(** What [Read] answers, again and again, up to the first error.  [field] is the field that
    is being read, reversed, and [row] the fields before it, the last one first. *)
Fixpoint csvRecords (st : csvState) (field : string) (row : list string) (s : string)
    : list (error + list string) :=
  let record := inr (rev (srev field :: row)) in
  match s with
  | EmptyString =>
      match st with
      | AtRecord => []
      | Quoted => [inl (ErrorString ErrQuote)]
      | AtField | Unquoted | AfterQuote => [record]
      end
  | String c rest =>
      match st with
      | AtRecord | AtField | Unquoted =>
          if Ascii.eqb c newlineChar
          then match st with
               | AtRecord => csvRecords AtRecord "" [] rest        (* an empty line *)
               | _ => record :: csvRecords AtRecord "" [] rest
               end
          else if Ascii.eqb c commaChar then csvRecords AtField "" (srev field :: row) rest
          else if Ascii.eqb c quoteChar
          then match st with
               | Unquoted => [inl (ErrorString ErrBareQuote)]
               | _ => csvRecords Quoted "" row rest
               end
          else csvRecords Unquoted (String c field) row rest
      | Quoted =>
          if Ascii.eqb c quoteChar then csvRecords AfterQuote field row rest
          else csvRecords Quoted (String c field) row rest
      | AfterQuote =>
          if Ascii.eqb c quoteChar then csvRecords Quoted (String c field) row rest
          else if Ascii.eqb c commaChar then csvRecords AtField "" (srev field :: row) rest
          else if Ascii.eqb c newlineChar then record :: csvRecords AtRecord "" [] rest
          else [inl (ErrorString ErrQuote)]
      end
  end.

(** * Limits and fields *)

Definition maxSMIOutputBytes : Z := 16 * 2 ^ 20.
Definition maxGPUIndex : Z := 1023.
Definition maxProcessRows : Z := 32768.

(** The loop that reads at most [maxRows] rows. *)
Fixpoint csvLoop (maxRows : Z) (rows : list (list string)) (answers : list (error + list string))
    : error + list (list string) :=
  match answers with
  | [] => inr rows
  | inl err :: _ => inl (Errorf "parse nvidia-smi csv: %w" [AErr err])
  | inr row :: rest =>
      if maxRows <=? llen rows then inl (Errorf "nvidia-smi response exceeds %d rows" [AInt maxRows])
      else csvLoop maxRows (rows ++ [map TrimSpace row]) rest
  end.
Definition parseCSVRows (data : string) (maxRows : Z) : error + list (list string) :=
  if slen data =? 0 then inr []
  else if maxSMIOutputBytes <? slen data
  then inl (Errorf "nvidia-smi output exceeds %d bytes" [AInt maxSMIOutputBytes])
  else csvLoop maxRows [] (csvRecords AtRecord "" [] (csvText data)).

(** [if v := strings.TrimSpace(s); v == "" || v == "N/A"]. *)
Definition absentField (value : string) : bool := (value =s "") || (value =s "N/A").

Definition parseGPUIndex (value : string) : error + Z :=
  let value := TrimSpace value in
  if absentField value then inl (Errorf "empty gpu index" [])
  else match Atoi value with
       | None => inl (Errorf "parse gpu index %q: %w" [AStr value; AErr (ErrorString "strconv.Atoi")])
       | Some gpu =>
           if (gpu <? 0) || (maxGPUIndex <? gpu)
           then inl (Errorf "gpu index %d is outside 0..%d" [AInt gpu; AInt maxGPUIndex])
           else inr gpu
       end.
Definition parsePID (value : string) : error + Z :=
  let value := TrimSpace value in
  if absentField value then inl (Errorf "empty pid" [])
  else match Atoi value with
       | None => inl (Errorf "parse pid %q: %w" [AStr value; AErr (ErrorString "strconv.Atoi")])
       | Some pid => inr pid
       end.

(** A Go map, by its entries, and the set of the GPUs seen. *)
Definition addGPU (seen : gset Z) (gpu : Z) (kind : string) : error + gset Z :=
  if decide (gpu ∈ seen) then inl (Errorf "%s contains duplicate gpu %d" [AStr kind; AInt gpu])
  else inr (seen ∪ {[gpu]}).

(** * Numbers *)

Class FloatText : Type := {
  ParseFloat : string -> option float64;
  uint64Large : float64 -> Z            (* of a float of at least 2^64 *)
}.

Definition IsNaN (x : float64) : bool := match x with SpecFloat.S754_nan => true | _ => false end.
Definition IsInf (x : float64) : bool := match x with SpecFloat.S754_infinity _ => true | _ => false end.
Definition isNegative (x : float64) : bool := SpecFloat.SFltb x (SpecFloat.S754_zero false).

Section parsers.
Context `{FloatText}.

(** [uint64(x)] of a float that is not negative. *)
Definition uint64OfFloat (x : float64) : Z :=
  let z := trunc_float x in
  if IsInf x || (2 ^ 64 <=? z) then uint64Large x mod 2 ^ 64 else z.
(** [mib * 1024 * 1024]. *)
Definition mibBytes (mib : float64) : Z :=
  uint64OfFloat (SpecFloat.SFmul 53 1024 (SpecFloat.SFmul 53 1024 mib (float_of_Z 1024)) (float_of_Z 1024)).

Definition parseMibBytes (value : string) : option Z :=
  let value := TrimSpace value in
  if absentField value then None
  else match ParseFloat value with
       | Some mib => if IsNaN mib || IsInf mib || isNegative mib then None else Some (mibBytes mib)
       | None => None
       end.
(** [math.Max(0, math.Min(100, x))] of a finite x. *)
Definition clampPercent (x : float64) : float64 :=
  let x := if SpecFloat.SFltb x (float_of_Z 100) then x else float_of_Z 100 in
  if SpecFloat.SFltb (SpecFloat.S754_zero false) x then x else SpecFloat.S754_zero false.
Definition parsePercent (value : string) : option float64 :=
  let value := TrimSpace value in
  if absentField value then None
  else match ParseFloat value with
       | Some pct => if IsNaN pct || IsInf pct then None else Some (clampPercent pct)
       | None => None
       end.

(** * The three tables *)

Fixpoint indexLoop (out : gmap string Z) (rows : list (list string)) : gmap string Z :=
  match rows with
  | [] => out
  | (index :: uuid :: _) :: rest =>
      match parseGPUIndex index with
      | inl _ => indexLoop out rest
      | inr gpu => let uuid := TrimSpace uuid in
                   if absentField uuid then indexLoop out rest else indexLoop (<[uuid:=gpu]> out) rest
      end
  | _ :: rest => indexLoop out rest
  end.
Definition ParseGPUIndexUUIDCSV (data : string) : error + gmap string Z :=
  rows ← parseCSVRows data (maxGPUIndex + 1); inr (indexLoop ∅ rows).

(** The memory of a process: the bytes, and whether they are unknown. *)
Definition processMemory (row : list string) : Z * bool :=
  match row with
  | _ :: _ :: mem :: _ => match parseMibBytes mem with Some bytes => (bytes, false) | None => (0, true) end
  | _ => (0, true)
  end.
Fixpoint processLoop (uuidToIndex : gmap string Z) (processes : list GPUProcess) (rows : list (list string))
    : error + list GPUProcess :=
  match rows with
  | [] => inr processes
  | (uuid :: pid :: more) as row :: rest =>
      if maxProcessRows <=? llen processes
      then inl (Errorf "compute-apps response exceeds %d rows" [AInt maxProcessRows])
      else match uuidToIndex !! TrimSpace uuid with
      | None => processLoop uuidToIndex processes rest
      | Some gpu =>
          match parsePID pid with
          | inl _ => processLoop uuidToIndex processes rest
          | inr pid =>
              if pid <=? 0 then processLoop uuidToIndex processes rest
              else let '(mem, unknown) := processMemory row in
                   processLoop uuidToIndex (processes ++ [mkGPUProcess gpu pid "" mem unknown]) rest
          end
      end
  | _ :: rest => processLoop uuidToIndex processes rest
  end.
Definition ParseComputeAppsCSV (data : string) (uuidToIndex : gmap string Z) : error + list GPUProcess :=
  rows ← parseCSVRows data maxProcessRows; processLoop uuidToIndex [] rows.

Definition metricOf (gpu : Z) (row : list string) : GPUMetric :=
  let field i := match row !! i with Some value => Some value | None => None end in
  mkGPUMetric gpu
    (match field 2%nat with Some used => parseMibBytes used | None => None end)
    (match field 1%nat with Some total => parseMibBytes total | None => None end)
    (match field 3%nat with Some pct => parsePercent pct | None => None end).
Fixpoint metricLoop (seen : gset Z) (metrics : list GPUMetric) (rows : list (list string))
    : error + list GPUMetric :=
  match rows with
  | [] => inr metrics
  | (index :: _) as row :: rest =>
      match parseGPUIndex index with
      | inl _ => metricLoop seen metrics rest
      | inr gpu => seen ← addGPU seen gpu "metric response";
                   metricLoop seen (metrics ++ [metricOf gpu row]) rest
      end
  | _ :: rest => metricLoop seen metrics rest
  end.
Definition ParseMetricCSV (data : string) : error + list GPUMetric :=
  rows ← parseCSVRows data (maxGPUIndex + 1); metricLoop ∅ [] rows.

Record DeviceInfo : Type := mkDeviceInfo
  { Device_Vendor : string; Device_Model : string; Device_UUID : string }.
Definition deviceOf (row : list string) : DeviceInfo :=
  let field i := match row !! i with
    | Some value => let value := TrimSpace value in if absentField value then "" else value
    | None => ""
    end in
  mkDeviceInfo "nvidia" (field 1%nat) (field 2%nat).
Fixpoint deviceLoop (seen : gset Z) (out : gmap Z DeviceInfo) (rows : list (list string))
    : error + gmap Z DeviceInfo :=
  match rows with
  | [] => inr out
  | (index :: _) as row :: rest =>
      match parseGPUIndex index with
      | inl _ => deviceLoop seen out rest
      | inr gpu => seen ← addGPU seen gpu "device response"; deviceLoop seen (<[gpu:=deviceOf row]> out) rest
      end
  | _ :: rest => deviceLoop seen out rest
  end.
Definition ParseDeviceCSV (data : string) : error + gmap Z DeviceInfo :=
  rows ← parseCSVRows data (maxGPUIndex + 1); deviceLoop ∅ ∅ rows.
End parsers.

(** * The provider *)

(** [exec.CommandContext] within a time, and what it printed. *)
Class Commands : Type := { RunCommand : nat -> duration -> string -> list string -> error + string }.

(** [runCommand] is set in tests only. *)
Record CLIProvider : Type := mkCLIProvider
  { cli_Command : string; cli_Timeout : duration;
    cli_runCommand : option (nat -> duration -> string -> list string -> error + string) }.
Definition NewCLIProvider : CLIProvider := mkCLIProvider "nvidia-smi" (5 * Second) None.

Section provider.
Context `{FloatText} `{Commands}.

Definition cliTimeout (p : CLIProvider) : duration :=
  if cli_Timeout p <=? 0 then 5 * Second else cli_Timeout p.
Definition cliCommand (p : CLIProvider) : string :=
  if cli_Command p =s "" then "nvidia-smi" else cli_Command p.
Definition output (p : CLIProvider) (n : nat) (args : list string) : error + string :=
  match cli_runCommand p with
  | Some run => run n (cliTimeout p) (cliCommand p) args
  | None =>
      out ← RunCommand n (cliTimeout p) (cliCommand p) args;
      if maxSMIOutputBytes <? slen out
      then inl (Errorf "%s output exceeds %d bytes" [AStr (cliCommand p); AInt maxSMIOutputBytes])
      else inr out
  end.

Definition csvFormat : string := "--format=csv,noheader,nounits".
Definition Processes (p : CLIProvider) (n : nat) : error + list GPUProcess :=
  gpuOut ← output p n ["--query-gpu=index,uuid"; csvFormat];
  uuidToIndex ← ParseGPUIndexUUIDCSV gpuOut;
  if decide (uuidToIndex = ∅) then inr []
  else
    appsOut ← output p (S n) ["--query-compute-apps=gpu_uuid,pid,used_memory"; csvFormat];
    ParseComputeAppsCSV appsOut uuidToIndex.
Definition Metrics (p : CLIProvider) (n : nat) : error + list GPUMetric :=
  out ← output p n ["--query-gpu=index,memory.total,memory.used,utilization.gpu"; csvFormat];
  ParseMetricCSV out.
Definition Devices (p : CLIProvider) (n : nat) : error + gmap Z DeviceInfo :=
  out ← output p n ["--query-gpu=index,name,uuid"; csvFormat];
  ParseDeviceCSV out.
End provider.

(** * Reading back what is printed *)

Section printing.

(** A field without white space, commas, quotes and line ends; and what may stand between a
    comma and the field after it, as the space that nvidia-smi prints. *)
Definition plainChar (c : ascii) : bool :=
  visible c && negb (Ascii.eqb c commaChar) && negb (Ascii.eqb c quoteChar).
Fixpoint plain (s : string) : bool :=
  match s with EmptyString => true | String c rest => plainChar c && plain rest end.
Fixpoint blank (s : string) : bool :=
  match s with EmptyString => true | String c rest => Ascii.eqb c " "%char && blank rest end.
Definition csvLine (pad : string) (row : list string) : string :=
  Join row ("," +:+ pad) +:+ String newlineChar "".
Fixpoint csvPrint (pad : string) (rows : list (list string)) : string :=
  match rows with [] => "" | row :: rest => csvLine pad row +:+ csvPrint pad rest end.
(** The fields as the reader has them. *)
Definition padded (pad : string) (row : list string) : list string :=
  match row with [] => [] | field :: rest => field :: map (fun field => pad +:+ field) rest end.
(** A row that is not an empty line. *)
Definition printable (row : list string) : Prop :=
  Forall (fun field => plain field = true) row /\ row <> [] /\ row <> [""].

(** A field that needs no quotes. *)
Definition looseChar (c : ascii) : bool :=
  negb (Ascii.eqb c newlineChar) && negb (Ascii.eqb c returnChar) && negb (Ascii.eqb c commaChar) &&
  negb (Ascii.eqb c quoteChar).
Fixpoint loose (s : string) : bool :=
  match s with EmptyString => true | String c rest => looseChar c && loose rest end.
Lemma looseChar_spec c : looseChar c = true ->
  Ascii.eqb c newlineChar = false /\ Ascii.eqb c returnChar = false /\
  Ascii.eqb c commaChar = false /\ Ascii.eqb c quoteChar = false.
Proof. unfold looseChar. rewrite !andb_true_iff, !negb_true_iff. tauto. Qed.
Lemma plain_visible s : plain s = true -> all_visible s = true.
Proof.
  induction s as [|c s IH]; [done|]. cbn [plain]. intros [P W]%andb_true_iff.
  unfold plainChar in P. cbn. rewrite IH by done. by destruct (visible c).
Qed.
Lemma plain_loose s : plain s = true -> loose s = true.
Proof.
  induction s as [|c s IH]; [done|]. cbn [plain loose]. intros [P W]%andb_true_iff. rewrite IH, andb_true_r by done.
  unfold plainChar, looseChar in *. rewrite !andb_true_iff in P. destruct P as [[V ->] ->]. rewrite !andb_true_r.
  destruct (Ascii.eqb_spec c newlineChar) as [->|]; [by vm_compute in V|].
  destruct (Ascii.eqb_spec c returnChar) as [->|]; [by vm_compute in V|done].
Qed.
Lemma blank_loose pad s : blank pad = true -> loose s = true -> loose (pad +:+ s) = true.
Proof.
  intros B L. induction pad as [|c pad IH]; [done|]. cbn [blank] in B. apply andb_true_iff in B as [C%Ascii.eqb_eq B].
  subst c. exact (IH B).
Qed.
Lemma blank_trim pad s : blank pad = true -> plain s = true -> TrimSpace (pad +:+ s) = s.
Proof.
  intros B P. transitivity (TrimSpace s); [|by apply TrimSpace_visible, plain_visible]. unfold TrimSpace. do 3 f_equal.
  induction pad as [|c pad IH]; [done|]. cbn [blank] in B. apply andb_true_iff in B as [C%Ascii.eqb_eq B].
  subst c. exact (IH B).
Qed.
Lemma plain_trim s : plain s = true -> TrimSpace s = s.
Proof. exact (blank_trim "" s eq_refl). Qed.
Lemma padded_trim pad row : blank pad = true -> Forall (fun field => plain field = true) row ->
  map TrimSpace (padded pad row) = row.
Proof.
  intros B F. destruct F as [|s row P F]; [done|]. cbn [padded map]. rewrite plain_trim by done. f_equal.
  induction F as [|s' row P' _ IH]; [done|]. cbn [map]. by rewrite blank_trim, IH.
Qed.
Lemma padded_loose pad row : blank pad = true -> Forall (fun field => plain field = true) row ->
  Forall (fun field => loose field = true) (padded pad row).
Proof.
  intros B F. destruct F as [|s row P F]; [constructor|]. cbn [padded]. constructor; [by apply plain_loose|].
  induction F as [|s' row P' _ IH]; constructor; [by apply blank_loose, plain_loose|exact IH].
Qed.
Lemma Join_padded pad row : Join row ("," +:+ pad) = Join (padded pad row) ",".
Proof.
  destruct row as [|s row]; [done|]. cbn [padded]. revert s. induction row as [|s' row IH]; intros s; [done|].
  change (Join (s :: s' :: row) ("," +:+ pad)) with (s +:+ ("," +:+ pad) +:+ Join (s' :: row) ("," +:+ pad)).
  rewrite IH. cbn [map]. change (Join (s :: (pad +:+ s') :: ?l) ",") with (s +:+ "," +:+ Join ((pad +:+ s') :: l) ",").
  f_equal. rewrite string_app_assoc. f_equal. destruct row as [|s'' row]; [done|]. cbn [map].
  change (Join ((?x +:+ s') :: ?y :: ?l) ",") with ((x +:+ s') +:+ "," +:+ Join (y :: l) ",").
  by rewrite string_app_assoc.
Qed.

Lemma csvText_loose s rest : loose s = true -> csvText (s +:+ rest) = s +:+ csvText rest.
Proof.
  induction s as [|c s IH]; [done|]. cbn [loose]. intros [P W]%andb_true_iff.
  destruct (looseChar_spec c P) as (_ & R & _). change (String c s +:+ rest) with (String c (s +:+ rest)).
  cbn [csvText]. rewrite R, IH by done. done.
Qed.
Lemma csvText_line row rest : Forall (fun field => loose field = true) row ->
  csvText (csvLine "" row +:+ rest) = csvLine "" row +:+ csvText rest.
Proof.
  unfold csvLine. change ("," +:+ "") with ",". intros F. rewrite !string_app_assoc. induction F as [|s row P F IH]; [done|].
  destruct row as [|s' row]; [by rewrite csvText_loose|].
  change (Join (s :: s' :: row) ",") with (s +:+ ("," +:+ Join (s' :: row) ",")).
  rewrite !string_app_assoc, csvText_loose by done. f_equal.
  change (csvText ("," +:+ ?x)) with (String commaChar (csvText x)). by rewrite IH.
Qed.

Lemma csvRecords_unquoted s : forall acc row rest, loose s = true ->
  csvRecords Unquoted acc row (s +:+ rest) = csvRecords Unquoted (srev_app s acc) row rest.
Proof.
  induction s as [|c s IH]; intros acc row rest; [done|]. cbn [loose]. intros [P W]%andb_true_iff.
  destruct (looseChar_spec c P) as (N & _ & C & Q). change (String c s +:+ rest) with (String c (s +:+ rest)).
  cbn [csvRecords]. rewrite N, C, Q. by rewrite IH.
Qed.
Lemma csvRecords_comma s row rest : loose s = true ->
  csvRecords AtField "" row (s +:+ String commaChar rest) = csvRecords AtField "" (s :: row) rest /\
  csvRecords AtRecord "" row (s +:+ String commaChar rest) = csvRecords AtField "" (s :: row) rest.
Proof.
  destruct s as [|c s]; [done|]. cbn [loose]. intros [P W]%andb_true_iff.
  destruct (looseChar_spec c P) as (N & _ & C & Q). change (String c s +:+ ?x) with (String c (s +:+ x)).
  cbn [csvRecords]. rewrite N, C, Q, csvRecords_unquoted by done. cbn.
  change (srev_app s (String c "")) with (srev (String c s)). by rewrite srev_involutive.
Qed.
Lemma csvRecords_newline s row rest : loose s = true ->
  csvRecords AtField "" row (s +:+ String newlineChar rest) = inr (rev (s :: row)) :: csvRecords AtRecord "" [] rest /\
  (s <> "" -> csvRecords AtRecord "" row (s +:+ String newlineChar rest) =
    inr (rev (s :: row)) :: csvRecords AtRecord "" [] rest).
Proof.
  destruct s as [|c s]; [done|]. cbn [loose]. intros [P W]%andb_true_iff.
  destruct (looseChar_spec c P) as (N & _ & C & Q). change (String c s +:+ ?x) with (String c (s +:+ x)).
  cbn [csvRecords]. rewrite N, C, Q, csvRecords_unquoted by done. cbn [csvRecords Ascii.eqb newlineChar].
  change (srev_app s (String c "")) with (srev (String c s)). by rewrite srev_involutive.
Qed.
Lemma csvRecords_fields fields : forall row rest, Forall (fun field => loose field = true) fields -> fields <> [] ->
  csvRecords AtField "" row (csvLine "" fields +:+ rest) = inr (rev row ++ fields) :: csvRecords AtRecord "" [] rest.
Proof.
  unfold csvLine. change ("," +:+ "") with ",". induction fields as [|s fields IH]; intros row rest F Ne; [done|]. inversion F as [|? ? P F']; subst.
  destruct fields as [|s' fields].
  - cbn [Join]. rewrite string_app_assoc. change (String newlineChar "" +:+ rest) with (String newlineChar rest).
    by rewrite (proj1 (csvRecords_newline s row rest P)).
  - change (Join (s :: s' :: fields) ",") with (s +:+ ("," +:+ Join (s' :: fields) ",")).
    rewrite !string_app_assoc. change ("," +:+ ?x) with (String commaChar x).
    rewrite (proj1 (csvRecords_comma s row _ P)), <- string_app_assoc, IH by done.
    cbn [rev]. by rewrite <- app_assoc.
Qed.
Lemma csvRecords_line row rest : Forall (fun field => loose field = true) row -> row <> [] -> row <> [""] ->
  csvRecords AtRecord "" [] (csvLine "" row +:+ rest) = inr row :: csvRecords AtRecord "" [] rest.
Proof.
  intros F Ne Nb. destruct row as [|s [|s' row]]; [done| |]; inversion F as [|? ? P F']; subst.
  - unfold csvLine. cbn [Join]. rewrite string_app_assoc.
    change (String newlineChar "" +:+ rest) with (String newlineChar rest). apply (csvRecords_newline s [] rest P). by intros ->.
  - unfold csvLine. change ("," +:+ "") with ",". change (Join (s :: s' :: row) ",") with (s +:+ ("," +:+ Join (s' :: row) ",")).
    rewrite !string_app_assoc. change ("," +:+ ?x) with (String commaChar x).
    rewrite (proj2 (csvRecords_comma s [] _ P)), <- string_app_assoc. by apply (csvRecords_fields (s' :: row) [s] rest).
Qed.
Lemma csv_print pad rows : blank pad = true -> Forall printable rows ->
  csvText (csvPrint pad rows) = csvPrint pad rows /\
  csvRecords AtRecord "" [] (csvPrint pad rows) = map (fun row => inr (padded pad row)) rows.
Proof.
  intros B. induction 1 as [|row rows (F & Ne & Nb) _ [IHt IHr]]; [done|]. cbn [csvPrint map].
  assert (csvLine pad row = csvLine "" (padded pad row)) as -> by (unfold csvLine; by rewrite Join_padded).
  pose proof (padded_loose pad row B F) as L. split; [by rewrite csvText_line, IHt|].
  rewrite csvRecords_line, IHr; [done|exact L|by destruct row|]. by destruct row as [|s [|]]; [|intros [= ->]|].
Qed.

Lemma csvLoop_rows pad maxRows rows : forall before, llen (before ++ rows) <= maxRows ->
  Forall (fun row => map TrimSpace (padded pad row) = row) rows ->
  csvLoop maxRows before (map (fun row => inr (padded pad row)) rows) = inr (before ++ rows).
Proof.
  induction rows as [|row rows IH]; intros before L F; [cbn; by rewrite app_nil_r|]. inversion F as [|? ? T F']; subst.
  cbn [map csvLoop]. assert ((maxRows <=? llen before) = false) as ->.
  { apply Z.leb_gt. unfold llen in *. rewrite length_app in L. cbn [length] in L. lia. }
  rewrite T, IH, <- app_assoc; [done| |exact F']. by rewrite <- app_assoc.
Qed.

(** Rows that are printed are read as they were. *)
Lemma parseCSVRows_print pad rows maxRows : blank pad = true -> Forall printable rows -> llen rows <= maxRows ->
  slen (csvPrint pad rows) <= maxSMIOutputBytes -> parseCSVRows (csvPrint pad rows) maxRows = inr rows.
Proof.
  intros B P L S. unfold parseCSVRows. destruct (Z.eqb_spec (slen (csvPrint pad rows)) 0) as [E|N].
  { destruct rows as [|row rows]; [done|]. exfalso. revert E. cbn [csvPrint]. unfold csvLine. rewrite !slen_app.
    change (slen (String newlineChar "")) with 1. pose proof (slen_nonneg (Join row ("," +:+ pad))).
    pose proof (slen_nonneg (csvPrint pad rows)). lia. }
  destruct (Z.ltb_spec maxSMIOutputBytes (slen (csvPrint pad rows))); [lia|].
  destruct (csv_print pad rows B P) as [-> ->]. apply csvLoop_rows; [done|].
  eapply Forall_impl; [exact P|]. intros row (F & _). by apply padded_trim.
Qed.
End printing.

(** * Decimal numbers *)

Lemma digits_pretty_go x : forall s, digits 0 (pretty_N_go x s) = digits (Z.of_N x) s /\
  (plain s = true -> plain (pretty_N_go x s) = true).
Proof.
  induction (N.lt_wf_0 x) as [x _ IH]. intros s. destruct (decide (x = 0%N)) as [->|Nz]; [by rewrite pretty_N_go_0|].
  rewrite pretty_N_go_step by lia. set (c := pretty_N_char (x `mod` 10)).
  assert (is_digit c = true /\ byte_val c - 48 = Z.of_N (x `mod` 10) /\ plainChar c = true) as (D & V & P).
  { pose proof (N.mod_lt x 10 ltac:(lia)) as L. subst c. revert L. generalize (x `mod` 10)%N. intros y L.
    assert (y = 0 \/ y = 1 \/ y = 2 \/ y = 3 \/ y = 4 \/ y = 5 \/ y = 6 \/ y = 7 \/ y = 8 \/ y = 9)%N as C by lia.
    by repeat (destruct C as [->|C]; [by vm_compute|]); subst y. }
  destruct (IH (x `div` 10)%N (N.div_lt x 10 ltac:(lia) ltac:(lia)) (String c s)) as [E Pl]. split.
  - rewrite E. cbn [digits]. rewrite D, V. f_equal.
    rewrite N2Z.inj_div, N2Z.inj_mod. change (Z.of_N 10) with 10. pose proof (Z.div_mod (Z.of_N x) 10). lia.
  - intros Ps. apply Pl. cbn [plain]. by rewrite P, Ps.
Qed.
Lemma pretty_of_Z z : 0 <= z -> Itoa z = if decide (Z.to_N z = 0%N) then "0" else pretty_N_go (Z.to_N z) "".
Proof. intros P. unfold Itoa. destruct z; [done| |lia]. cbn. by destruct (decide _). Qed.
Lemma Itoa_plain z : 0 <= z -> plain (Itoa z) = true.
Proof. intros P. rewrite pretty_of_Z by done. destruct (decide _); [done|]. by apply digits_pretty_go. Qed.
Lemma digits_Itoa z : 0 <= z -> digits 0 (Itoa z) = Some z.
Proof.
  intros P. rewrite pretty_of_Z by done. destruct (decide _) as [E|]; [assert (z = 0) as -> by lia; done|].
  rewrite (proj1 (digits_pretty_go _ _)). cbn. f_equal. lia.
Qed.
Lemma Atoi_Itoa z : 0 <= z < 2 ^ 63 -> Atoi (Itoa z) = Some z.
Proof.
  intros [P L]. pose proof (digits_Itoa z P) as D. unfold Atoi. destruct (Itoa z) as [|c s] eqn:E.
  { injection D as <-. by vm_compute in E. }
  assert (is_digit c = true) as Dc by (cbn [digits] in D; by destruct (is_digit c)). unfold is_digit in Dc.
  destruct (Z.eqb_spec (byte_val c) 45) as [X|_]; [by rewrite X in Dc|].
  destruct (Z.eqb_spec (byte_val c) 43) as [X|_]; [by rewrite X in Dc|].
  cbn [String.eqb]. rewrite D, Z.mul_1_l.
  destruct (Z.leb_spec (- 2 ^ 63) z); [|lia]. by destruct (Z.ltb_spec z (2 ^ 63)); [|lia].
Qed.
Lemma Itoa_present z : 0 <= z < 2 ^ 63 -> absentField (Itoa z) = false.
Proof.
  intros L. pose proof (Atoi_Itoa z L) as A. unfold absentField.
  destruct (String.eqb_spec (Itoa z) "") as [E|_]; [rewrite E in A; by vm_compute in A|].
  by destruct (String.eqb_spec (Itoa z) "N/A") as [E|_]; [rewrite E in A; vm_compute in A|].
Qed.

(** * What is reported *)

Section reported.
Context `{FloatText} `{Commands}.

(** The process of a row, if its GPU is listed and it has a number. *)
Definition processOf (uuidToIndex : gmap string Z) (row : list string) : option GPUProcess :=
  match row with
  | uuid :: pid :: _ =>
      gpu ← uuidToIndex !! TrimSpace uuid;
      match parsePID pid with
      | inr pid => if pid <=? 0 then None
                   else Some (mkGPUProcess gpu pid "" (fst (processMemory row)) (snd (processMemory row)))
      | inl _ => None
      end
  | _ => None
  end.
Lemma processLoop_spec uuidToIndex rows : forall processes,
  llen processes + llen rows <= maxProcessRows ->
  processLoop uuidToIndex processes rows = inr (processes ++ omap (processOf uuidToIndex) rows).
Proof.
  induction rows as [|row rows IH]; intros processes L; [by rewrite app_nil_r|]. rewrite llen_cons in L.
  destruct row as [|uuid [|pid more]]; [apply IH; lia|apply IH; lia|].
  cbn [processLoop omap list_omap processOf]. pose proof (llen_nonneg rows).
  destruct (Z.leb_spec maxProcessRows (llen processes)); [lia|].
  destruct (uuidToIndex !! TrimSpace uuid) as [gpu|]; cbn [mbind option_bind]; [|apply IH; lia].
  destruct (parsePID pid) as [err|z]; [apply IH; lia|]. destruct (z <=? 0); [apply IH; lia|].
  destruct (processMemory _) as [mem unknown]. cbn [fst snd]. rewrite IH, <- app_assoc; [done|].
  unfold llen in *. rewrite length_app. cbn [length]. lia.
Qed.
Lemma csvLoop_length maxRows answers : forall before rows, csvLoop maxRows before answers = inr rows ->
  llen before <= maxRows -> llen rows <= maxRows.
Proof.
  induction answers as [|[err|row] answers IH]; intros before rows E L; [by injection E as <-|done|].
  cbn [csvLoop] in E. destruct (Z.leb_spec maxRows (llen before)); [done|]. apply (IH _ _ E).
  unfold llen in *. rewrite length_app. cbn [length]. lia.
Qed.
Lemma parseCSVRows_length data maxRows rows : 0 <= maxRows -> parseCSVRows data maxRows = inr rows -> llen rows <= maxRows.
Proof.
  unfold parseCSVRows. intros P. destruct (_ =? 0); [by intros [= <-]|]. destruct (_ <? _); [done|].
  intros E. by apply (csvLoop_length _ _ _ _ E).
Qed.
Lemma ParseComputeAppsCSV_spec data uuidToIndex : ParseComputeAppsCSV data uuidToIndex =
  rows ← parseCSVRows data maxProcessRows; inr (omap (processOf uuidToIndex) rows : list GPUProcess).
Proof.
  unfold ParseComputeAppsCSV. unfold mbind, sum_error_bind.
  destruct (parseCSVRows data maxProcessRows) as [err|rows] eqn:E; [done|].
  rewrite processLoop_spec; [done|]. by apply (parseCSVRows_length data); [|].
Qed.

Lemma parseGPUIndex_range value gpu : parseGPUIndex value = inr gpu -> 0 <= gpu <= maxGPUIndex.
Proof.
  unfold parseGPUIndex. cbv zeta. destruct (absentField _); [done|]. destruct (Atoi _) as [z|]; [|done].
  destruct (Z.ltb_spec z 0); [done|]. destruct (Z.ltb_spec maxGPUIndex z); [done|]. intros [= <-]. lia.
Qed.
(** A GPU is one that a row lists under the UUID. *)
Lemma indexLoop_listed rows : forall out uuid gpu, indexLoop out rows !! uuid = Some gpu ->
  out !! uuid = Some gpu \/ exists index name more, In (index :: name :: more) rows /\
    parseGPUIndex index = inr gpu /\ TrimSpace name = uuid /\ absentField uuid = false.
Proof.
  induction rows as [|row rows IH]; intros out uuid gpu E; [by left|].
  assert (forall out', indexLoop out' rows !! uuid = Some gpu -> out' !! uuid = Some gpu \/
    exists index name more, In (index :: name :: more) (row :: rows) /\
      parseGPUIndex index = inr gpu /\ TrimSpace name = uuid /\ absentField uuid = false) as IH'.
  { intros out' E'. destruct (IH out' uuid gpu E') as [L|(i & n & m & I & W)]; [by left|right].
    exists i, n, m. split; [by right|done]. }
  destruct row as [|index [|name more]]; cbn [indexLoop] in E; [by apply IH'|by apply IH'|].
  destruct (parseGPUIndex index) as [err|z] eqn:G; [by apply IH'|]. destruct (absentField _) eqn:Ab; [by apply IH'|].
  destruct (IH' _ E) as [L|W]; [|by right]. destruct (decide (TrimSpace name = uuid)) as [<-|Ne].
  - rewrite lookup_insert_eq in L. injection L as <-. right. exists index, name, more. split; [by left|done].
  - rewrite lookup_insert_ne in L by done. by left.
Qed.

Lemma uint64OfFloat_range x : 0 <= uint64OfFloat x < 2 ^ 64.
Proof.
  unfold uint64OfFloat. cbv zeta. destruct (_ || _) eqn:B; [by apply Z.mod_pos_bound|].
  apply orb_false_iff in B as [_ B%Z.leb_gt]. split; [|done].
  unfold trunc_float. destruct x as [| | |[] m e]; try done. destruct (0 <=? e) eqn:Le; [nia|].
  apply Z.div_pos; [done|]. apply Z.pow_pos_nonneg; lia.
Qed.
Lemma processMemory_range row : 0 <= fst (processMemory row) < 2 ^ 64.
Proof.
  unfold processMemory. destruct row as [|? [|? [|mem ?]]]; try done. unfold parseMibBytes. cbv zeta.
  destruct (absentField _); [done|]. destruct (ParseFloat _) as [mib|]; [|done]. destruct (_ || _); [done|].
  apply uint64OfFloat_range.
Qed.

(** Whatever the tool prints: if processes are reported, there are at most 32768, each
    with a number, on a GPU from 0 to 1023 that the tool listed under the UUID that it
    printed for the process, with memory of 64 bits. *)
Lemma processes_are_listed p n processes : Processes p n = inr processes ->
  llen processes <= maxProcessRows /\
  Forall (fun process => 0 <= GPUProcess_GPU process <= maxGPUIndex /\ 0 < GPUProcess_PID process /\
    0 <= GPUProcess_MemBytes process < 2 ^ 64 /\
    exists gpuOut appsOut gpuRows appRows index uuid gpuMore pid appMore, output p n ["--query-gpu=index,uuid"; csvFormat] = inr gpuOut /\
      output p (S n) ["--query-compute-apps=gpu_uuid,pid,used_memory"; csvFormat] = inr appsOut /\
      parseCSVRows gpuOut (maxGPUIndex + 1) = inr gpuRows /\ parseCSVRows appsOut maxProcessRows = inr appRows /\
      In (index :: uuid :: gpuMore) gpuRows /\ parseGPUIndex index = inr (GPUProcess_GPU process) /\
      exists uuid', In (uuid' :: pid :: appMore) appRows /\ TrimSpace uuid' = TrimSpace uuid /\
        parsePID pid = inr (GPUProcess_PID process)) processes.
Proof.
  unfold Processes. unfold mbind, sum_error_bind. destruct (output p n _) as [err|gpuOut] eqn:Og; [done|].
  unfold ParseGPUIndexUUIDCSV. unfold mbind, sum_error_bind.
  destruct (parseCSVRows gpuOut _) as [err|gpuRows] eqn:Pg; [done|].
  destruct (decide _); [intros [= <-]; by split|].
  destruct (output p (S n) _) as [err|appsOut] eqn:Oa; [done|]. rewrite ParseComputeAppsCSV_spec. unfold mbind, sum_error_bind.
  destruct (parseCSVRows appsOut _) as [err|appRows] eqn:Pa; [done|]. intros [= <-]. split.
  { pose proof (parseCSVRows_length appsOut maxProcessRows appRows ltac:(done) Pa) as L.
    enough (llen (omap (processOf (indexLoop ∅ gpuRows)) appRows) <= llen appRows) by lia.
    clear. induction appRows as [|row rows IH]; [done|]. cbn [omap list_omap]. destruct (processOf _ row); rewrite ?llen_cons; lia. }
  apply Forall_forall. intros process (row & I & E)%list_elem_of_omap. apply list_elem_of_In in I.
  destruct row as [|uuid' [|pid more]]; try done. cbn [processOf] in E.
  destruct (indexLoop ∅ gpuRows !! TrimSpace uuid') as [gpu|] eqn:G; [|done]. cbn [mbind option_bind] in E.
  destruct (parsePID pid) as [err|z] eqn:Pid; [done|]. destruct (Z.leb_spec z 0); [done|]. injection E as <-.
  apply indexLoop_listed in G as [G|(index & name & gpuMore & Ig & Pi & T & _)]; [by rewrite lookup_empty in G|].
  cbn [GPUProcess_GPU GPUProcess_PID GPUProcess_MemBytes]. split; [by apply (parseGPUIndex_range index)|].
  split; [done|]. split; [exact (processMemory_range (uuid' :: pid :: more))|].
  exists gpuOut, appsOut, gpuRows, appRows, index, name, gpuMore, pid, more. repeat (split; [done|]). by exists uuid'.
Qed.
End reported.

Section readBack.
Context `{FloatText} `{Commands}.

(** The tables of the GPUs, by index and UUID, and of the processes, by UUID, number and
    the text of the memory, as nvidia-smi prints them, with [pad] after each comma. *)
Definition printGPUs (pad : string) (gpus : list (Z * string)) : string :=
  csvPrint pad (map (fun g => [Itoa (fst g); snd g]) gpus).
Definition printApps (pad : string) (apps : list (string * Z * string)) : string :=
  csvPrint pad (map (fun a => [fst (fst a); Itoa (snd (fst a)); snd a]) apps).
Definition gpuOf (gpus : list (Z * string)) (uuid : string) : option Z :=
  fst <$> find (fun g => String.eqb (snd g) uuid) gpus.
Definition listedGPU (g : Z * string) : Prop :=
  0 <= fst g <= maxGPUIndex /\ plain (snd g) = true /\ absentField (snd g) = false.
Definition listedApp (a : string * Z * string) : Prop :=
  plain (fst (fst a)) = true /\ 0 < snd (fst a) < 2 ^ 63 /\ plain (snd a) = true.

(** What is to be reported of a process. *)
Definition reportOf (gpus : list (Z * string)) (a : string * Z * string) : option GPUProcess :=
  gpu ← gpuOf gpus (fst (fst a));
  Some (match parseMibBytes (snd a) with
        | Some bytes => mkGPUProcess gpu (snd (fst a)) "" bytes false
        | None => mkGPUProcess gpu (snd (fst a)) "" 0 true
        end).

Lemma indexLoop_print gpus : forall out uuid, Forall listedGPU gpus -> NoDup (map snd gpus) ->
  indexLoop out (map (fun g => [Itoa (fst g); snd g]) gpus) !! uuid =
  match gpuOf gpus uuid with Some gpu => Some gpu | None => out !! uuid end.
Proof.
  induction gpus as [|[i name] gpus IH]; intros out uuid F N; [done|]. inversion F as [|? ? (R & P & A) F']; subst.
  inversion N as [|? ? Ni N']; subst. cbn [map fst snd indexLoop] in *.
  unfold maxGPUIndex in R. unfold parseGPUIndex. rewrite (plain_trim (Itoa i)) by (apply Itoa_plain; lia).
  rewrite Itoa_present, Atoi_Itoa, (plain_trim name), A by (done || lia). cbv zeta.
  destruct (Z.ltb_spec i 0); [lia|]. destruct (Z.ltb_spec maxGPUIndex i) as [X|_]; [unfold maxGPUIndex in X; lia|].
  cbn [orb]. rewrite IH by done. unfold gpuOf. cbn [find snd].
  destruct (String.eqb_spec name uuid) as [->|Ne]; [|by rewrite lookup_insert_ne].
  rewrite lookup_insert_eq. cbn [fmap option_fmap option_map fst].
  destruct (find _ gpus) as [g|] eqn:Fd; [|done]. exfalso. apply find_some in Fd as [I E%String.eqb_eq].
  apply Ni. rewrite <- E. apply list_elem_of_In. by apply in_map.
Qed.
Lemma processOf_print gpus uuidToIndex a : listedApp a -> (forall uuid, uuidToIndex !! uuid = gpuOf gpus uuid) ->
  processOf uuidToIndex [fst (fst a); Itoa (snd (fst a)); snd a] = reportOf gpus a.
Proof.
  destruct a as [[uuid pid] mem]. intros (P & R & Pm) E. cbn [fst snd] in *. unfold processOf, reportOf. cbn [fst snd].
  rewrite plain_trim, E by done. destruct (gpuOf gpus uuid) as [gpu|]; [|done]. cbn [mbind option_bind].
  unfold parsePID. rewrite (plain_trim (Itoa pid)) by (apply Itoa_plain; lia). cbv zeta.
  rewrite Itoa_present, Atoi_Itoa by lia. destruct (Z.leb_spec pid 0); [lia|]. unfold processMemory.
  by destruct (parseMibBytes mem).
Qed.
Lemma printable_gpus gpus : Forall listedGPU gpus ->
  Forall printable (map (fun g => [Itoa (fst g); snd g]) gpus).
Proof.
  induction 1 as [|g gpus (R & P & _) _ IH]; [constructor|]. constructor; [|exact IH].
  split; [|done]. repeat constructor; [apply Itoa_plain; lia|done].
Qed.
Lemma printable_apps apps : Forall listedApp apps ->
  Forall printable (map (fun a => [fst (fst a); Itoa (snd (fst a)); snd a]) apps).
Proof.
  induction 1 as [|a apps (P & R & Pm) _ IH]; [constructor|]. constructor; [|exact IH].
  split; [|done]. repeat constructor; [done|apply Itoa_plain; lia|done].
Qed.

(** C12. What the enforcement sees is what nvidia-smi says.  If it prints the GPUs, each with
    its own UUID, and the processes on them, the columns apart by a comma and any number of
    blanks, within the limits on rows and bytes, then
    exactly the processes of listed GPUs are reported, in their order, each with its
    number, the index of its GPU and its memory in bytes, or as of unknown memory when
    the text is no size; processes of other GPUs are left out. *)
Theorem nvidia_processes_read_back pad p n gpus apps : blank pad = true -> cli_runCommand p = None ->
  RunCommand n (cliTimeout p) (cliCommand p) ["--query-gpu=index,uuid"; csvFormat] = inr (printGPUs pad gpus) ->
  (gpus <> [] -> RunCommand (S n) (cliTimeout p) (cliCommand p)
    ["--query-compute-apps=gpu_uuid,pid,used_memory"; csvFormat] = inr (printApps pad apps)) ->
  Forall listedGPU gpus -> NoDup (map snd gpus) -> Forall listedApp apps ->
  llen gpus <= maxGPUIndex + 1 -> llen apps <= maxProcessRows ->
  slen (printGPUs pad gpus) <= maxSMIOutputBytes -> slen (printApps pad apps) <= maxSMIOutputBytes ->
  Processes p n = inr (omap (reportOf gpus) apps).
Proof.
  intros B Np Rg Ra Fg Nd Fa Lg La Sg Sa. unfold Processes, output, mbind, sum_error_bind. rewrite Np, Rg.
  destruct (Z.ltb_spec maxSMIOutputBytes (slen (printGPUs pad gpus))); [lia|].
  unfold ParseGPUIndexUUIDCSV, mbind, sum_error_bind, printGPUs.
  rewrite parseCSVRows_print; [|exact B|by apply printable_gpus|by unfold llen in *; rewrite length_map|exact Sg].
  set (table := indexLoop _ _). assert (forall uuid, table !! uuid = gpuOf gpus uuid) as E.
  { intros uuid. subst table. rewrite indexLoop_print by done. rewrite lookup_empty. by destruct (gpuOf gpus uuid). }
  destruct (decide (table = ∅)) as [Z|Nz].
  { f_equal. assert (forall a, reportOf gpus a = None) as None_.
    { intros a. unfold reportOf. by rewrite <- E, Z, lookup_empty. }
    clear -None_. induction apps as [|a apps IH]; [done|]. cbn [omap list_omap]. by rewrite None_. }
  rewrite Ra; [|by intros ->; apply Nz; subst table].
  destruct (Z.ltb_spec maxSMIOutputBytes (slen (printApps pad apps))); [lia|].
  rewrite ParseComputeAppsCSV_spec. unfold mbind, sum_error_bind, printApps.
  rewrite parseCSVRows_print; [|exact B|by apply printable_apps|by unfold llen in *; rewrite length_map|exact Sa].
  f_equal. clear -Fa E. induction Fa as [|a apps La Fa IH]; [done|].
  cbn [map omap list_omap]. rewrite (processOf_print gpus), IH by done. done.
Qed.
End readBack.

(** Two GPUs, a process of known memory, one of unknown memory and one of another GPU. *)
#[local] Instance sampleFloats : FloatText := {|
  ParseFloat s := if s =s "512" then Some (float_of_Z 512) else None; uint64Large x := 0 |}.
Definition sampleGPUs : list (Z * string) := [(0, "GPU-a"); (1, "GPU-b")].
Definition sampleApps : list (string * Z * string) := [("GPU-b", 4242, "512"); ("GPU-a", 7, "[N/A]"); ("GPU-c", 8, "512")].
#[local] Instance sampleCommands : Commands := {|
  RunCommand n timeout command args := inr (if (n =? 0)%nat then printGPUs " " sampleGPUs else printApps " " sampleApps) |}.
Lemma nvidia_processes_read_back_witness :
  printApps " " sampleApps = "GPU-b, 4242, 512
GPU-a, 7, [N/A]
GPU-c, 8, 512
" /\ Processes NewCLIProvider 0 =
    inr [mkGPUProcess 1 4242 "" (512 * 1024 * 1024) false; mkGPUProcess 0 7 "" 0 true].
Proof.
  split; [vm_compute; reflexivity|].
  transitivity (inr (omap (reportOf sampleGPUs) sampleApps) : error + list GPUProcess); [|vm_compute; reflexivity].
  apply (nvidia_processes_read_back " " NewCLIProvider 0 sampleGPUs sampleApps).
  - reflexivity.
  - reflexivity.
  - reflexivity.
  - intros _. reflexivity.
  - repeat constructor; by vm_compute.
  - repeat constructor; set_solver.
  - repeat constructor; vm_compute; done.
  - vm_compute. discriminate.
  - vm_compute. discriminate.
  - vm_compute. discriminate.
  - vm_compute. discriminate.
Defined.
