(* ===== verification/NetLimit.v ===== *)
(** internal/netlimit/listener.go: a listener that admits at most so many connections at a
    time.

    The goroutines of a server interleave at the channel and the listener below: a step
    is one such operation of one of them, and [None] that it blocks.  What is sent on
    [slots] has no content, so the channel is the number of values in it. *)

From S2P Require Export Prelude.
#[global] Open Scope Z_scope.

Definition errNetClosed : error := ErrorString "use of closed network connection".

(** A connection: whether its [Close] has run, and what that answered. *)
Record limitedConnection : Type := mkLimitedConnection
  { conn_closed : bool; conn_closeErr : option error }.
(** [l_accepting] goroutines hold a slot and wait in [Accept] of the listener below; the
    connections are in the order of their acceptance. *)
Record limitedListener : Type := mkLimitedListener
  { l_maximum : Z; l_slots : Z; l_done : bool; l_closeErr : option error; l_accepting : Z;
    l_connections : list limitedConnection }.

(** [None] is the listener below itself. *)
Definition NewListener (maximum : Z) : option limitedListener :=
  if maximum <=? 0 then None else Some (mkLimitedListener maximum 0 false None 0 []).

(** [l.slots <- struct{}{}] and [<-l.slots]. *)
Definition sendSlot (l : limitedListener) : option limitedListener :=
  if l_slots l <? l_maximum l
  then Some (mkLimitedListener (l_maximum l) (l_slots l + 1) (l_done l) (l_closeErr l) (l_accepting l) (l_connections l))
  else None.
Definition receiveSlot (l : limitedListener) : option limitedListener :=
  if 0 <? l_slots l
  then Some (mkLimitedListener (l_maximum l) (l_slots l - 1) (l_done l) (l_closeErr l) (l_accepting l) (l_connections l))
  else None.
Definition set_accepting (n : Z) (l : limitedListener) : limitedListener :=
  mkLimitedListener (l_maximum l) (l_slots l) (l_done l) (l_closeErr l) n (l_connections l).
Definition set_connections (conns : list limitedConnection) (l : limitedListener) : limitedListener :=
  mkLimitedListener (l_maximum l) (l_slots l) (l_done l) (l_closeErr l) (l_accepting l) conns.

(** [Accept]: the first [select], by the case it takes, and what follows the answer of the
    listener below. *)
Definition acceptSlot (l : limitedListener) : option limitedListener :=
  l ← sendSlot l; Some (set_accepting (l_accepting l + 1) l).
Definition acceptDone (l : limitedListener) : option (error * limitedListener) :=
  if l_done l then Some (errNetClosed, l) else None.
Definition acceptAnswer (r : error + unit) (l : limitedListener) : option (option error * limitedListener) :=
  let l := set_accepting (l_accepting l - 1) l in
  match r with
  | inl err => l ← receiveSlot l; Some (Some err, l)
  | inr _ => Some (None, set_connections (l_connections l ++ [mkLimitedConnection false None]) l)
  end.

(** [Close] of the listener, and of a connection: [closed] is what the one below answers,
    which only the first call asks. *)
Definition listenerClose (closed : option error) (l : limitedListener) : option error * limitedListener :=
  if l_done l then (l_closeErr l, l)
  else (closed, mkLimitedListener (l_maximum l) (l_slots l) true closed (l_accepting l) (l_connections l)).
Definition connectionClose (i : nat) (closed : option error) (l : limitedListener)
    : option (option error * limitedListener) :=
  c ← l_connections l !! i;
  if conn_closed c then Some (conn_closeErr c, l)
  else l ← receiveSlot (set_connections (<[i:=mkLimitedConnection true closed]> (l_connections l)) l);
       Some (closed, l).

(** * The steps of the goroutines *)

Inductive listenerStep : Type :=
  | TakeSlot | SeeDone | Answer (r : error + unit) | CloseListener (closed : option error)
  | CloseConnection (i : nat) (closed : option error).

(** A step of a goroutine that is there to take it; [None] is one that blocks, or has no
    goroutine. *)
Definition stepListener (l : limitedListener) (s : listenerStep) : option limitedListener :=
  match s with
  | TakeSlot => acceptSlot l
  | SeeDone => snd <$> acceptDone l
  | Answer r => if 0 <? l_accepting l then snd <$> acceptAnswer r l else None
  | CloseListener closed => Some (snd (listenerClose closed l))
  | CloseConnection i closed => snd <$> connectionClose i closed l
  end.
Fixpoint stepsListener (l : limitedListener) (steps : list listenerStep) : option limitedListener :=
  match steps with [] => Some l | s :: rest => l ← stepListener l s; stepsListener l rest end.

Definition openConnection (c : limitedConnection) : Z := if conn_closed c then 0 else 1.
Definition openConnections (l : limitedListener) : Z := sumOf openConnection (l_connections l).

(** Each slot is held by an [Accept] or an open connection. *)
Definition slotsHeld (maximum : Z) (l : limitedListener) : Prop :=
  l_maximum l = maximum /\ l_slots l = l_accepting l + openConnections l /\
  0 <= l_accepting l /\ l_slots l <= maximum.

Lemma sumOf_app {A} (f : A -> Z) l l' : sumOf f (l ++ l') = sumOf f l + sumOf f l'.
Proof. induction l as [|x l IH]; [done|]. cbn [app]. rewrite !sumOf_cons, IH. lia. Qed.
Lemma openConnections_nonneg l : 0 <= openConnections l.
Proof. apply sumOf_nonneg, Forall_forall. intros c _. unfold openConnection. by destruct (conn_closed c). Qed.
Lemma open_insert l i c c' : l !! i = Some c ->
  sumOf openConnection (<[i:=c']> l) = sumOf openConnection l - openConnection c + openConnection c'.
Proof.
  revert i. induction l as [|x l IH]; intros [|i] E; try done.
  - injection E as ->. change (<[0%nat:=c']> (c :: l)) with (c' :: l). rewrite !sumOf_cons. lia.
  - change (<[S i:=c']> (x :: l)) with (x :: <[i:=c']> l). rewrite !sumOf_cons, IH by done. lia.
Qed.
Lemma open_positive l i c : l !! i = Some c -> conn_closed c = false -> 0 < sumOf openConnection l.
Proof.
  intros E C. pose proof (open_insert l i c (mkLimitedConnection true None) E) as S. cbn in S.
  unfold openConnection at 3 in S. rewrite C in S.
  assert (0 <= sumOf openConnection (<[i:=mkLimitedConnection true None]> l)); [|lia].
  apply sumOf_nonneg, Forall_forall. intros x _. unfold openConnection. by destruct (conn_closed x).
Qed.

#[local] Arguments sumOf : simpl never.
Lemma stepListener_held maximum l s l' : slotsHeld maximum l -> stepListener l s = Some l' -> slotsHeld maximum l'.
Proof.
  intros (M & S & A & L) E. destruct s as [| |r|closed|i closed]; cbn [stepListener] in E.
  - unfold acceptSlot, sendSlot in E. destruct (Z.ltb_spec (l_slots l) (l_maximum l)); [|done]. injection E as <-.
    repeat split; cbn; unfold openConnections in *; cbn; try lia.
  - unfold acceptDone in E. destruct (l_done l); [|done]. by injection E as <-.
  - destruct (Z.ltb_spec 0 (l_accepting l)); [|done]. destruct r as [err|[]]; unfold acceptAnswer, receiveSlot in E.
    + cbn in E. destruct (0 <? l_slots l); [|done]. injection E as <-.
      repeat split; cbn; unfold openConnections in *; cbn; lia.
    + injection E as <-. repeat split; cbn; unfold openConnections in *; cbn; rewrite ?sumOf_app, ?sumOf_cons; try lia.
      change (sumOf openConnection []) with 0. cbn. lia.
  - injection E as <-. unfold listenerClose. by destruct (l_done l).
  - unfold connectionClose in E. destruct (l_connections l !! i) as [c|] eqn:C; [|done]. cbn [mbind option_bind] in E.
    destruct (conn_closed c) eqn:Cl; [by injection E as <-|]. unfold receiveSlot in E. cbn in E.
    destruct (0 <? l_slots l); [|done]. injection E as <-.
    pose proof (open_insert _ _ _ (mkLimitedConnection true closed) C) as W. unfold openConnection at 3 4 in W.
    rewrite Cl in W. cbn in W. repeat split; cbn; unfold openConnections in *; cbn; lia.
Qed.

(** The listener keeps its bound.  However its users interleave, no more connections than
    the maximum are open at a time; a connection can always be closed, which gives its slot
    back, once; and [Accept] can take a slot exactly when fewer than the maximum are open or
    being accepted. *)
Theorem listener_keeps_bound maximum steps l0 l : NewListener maximum = Some l0 ->
  stepsListener l0 steps = Some l ->
  openConnections l <= maximum /\ l_slots l = l_accepting l + openConnections l /\
  (is_Some (acceptSlot l) <-> l_accepting l + openConnections l < maximum) /\
  (forall i c closed, l_connections l !! i = Some c -> exists answer l',
     connectionClose i closed l = Some (answer, l') /\
     l_slots l' = l_slots l - openConnection c /\
     connectionClose i closed l' = Some (answer, l')).
Proof.
  unfold NewListener. destruct (Z.leb_spec maximum 0) as [|P]; [done|]. intros [= <-] E.
  assert (slotsHeld maximum l) as (M & S & A & L).
  { revert E. assert (slotsHeld maximum (mkLimitedListener maximum 0 false None 0 [])) as I by (repeat split; cbn; lia).
    revert I. generalize (mkLimitedListener maximum 0 false None 0 []).
    induction steps as [|s steps IH]; intros l1 I E; [by injection E as <-|]. cbn [stepsListener] in E.
    destruct (stepListener l1 s) as [l2|] eqn:St; [|done]. apply (IH l2); [by eapply stepListener_held|exact E]. }
  split; [lia|]. split; [done|]. split.
  { unfold acceptSlot, sendSlot. rewrite M, <- S. destruct (Z.ltb_spec (l_slots l) maximum) as [T|T]; cbn.
    - split; [done|eauto].
    - split; [by intros [x X]|lia]. }
  intros i c closed C. unfold connectionClose at 1. rewrite C. cbn [mbind option_bind]. unfold openConnection.
  destruct (conn_closed c) eqn:Cl.
  { exists (conn_closeErr c), l. split; [done|]. split; [lia|]. unfold connectionClose. rewrite C. cbn. by rewrite Cl. }
  pose proof (open_positive _ _ _ C Cl) as Pos. unfold receiveSlot. cbn.
  destruct (Z.ltb_spec 0 (l_slots l)) as [T|T]; [|unfold openConnections in S; lia]. cbn.
  do 2 eexists. split; [done|]. split; [done|]. unfold connectionClose. cbn.
  rewrite list_lookup_insert_eq by (by eapply lookup_lt_Some). done.
Qed.
